(* ===== verification/_CoqProject ===== *)
-Q . S2P
Prelude.v
IO.v
Unicode.v
GoStrings.v
GoStrconv.v
GoPath.v
GoGlob.v
Sha256.v
Hash.v
GoQuote.v
GoNet.v
GoTime.v
GoJson.v
Passwd.v
Acl.v
AclDoc.v
Catalog.v
CatalogLoad.v
Conf.v
ConfEdit.v
ConfLines.v
Include.v
Settings.v
Bridges.v
BridgesValid.v
BridgesText.v
Listeners.v
ListenerText.v
ComposePorts.v
Plugins.v
Store.v
ListenerStore.v
BrokerStore.v
Probe.v
Applier.v
ListenerWriter.v
ListenerWriterProofs.v
DeployRender.v
Deploy.v
DeployFrame.v
DeployPlan.v
DeployProofs.v
DeployOnce.v
DeployLife.v
DeployExamples.v
BrokerConfig.v
BrokerProofs.v
BrokerOnce.v
BrokerExamples.v
BridgeDeploy.v
BridgeExamples.v
PluginDeploy.v
PluginExamples.v
Dynsec.v
DynsecPlan.v
DynsecService.v
DynsecStore.v
DynsecJson.v
DynsecAdopt.v
DynsecDeploy.v
DynsecProofs.v
DynsecAdoptProofs.v
DynsecAdoptDeploy.v
DynsecExamples.v
Sparkplug.v
