(* ===== verification/Prelude.v ===== *)
(** * MCM: a verification library for the Mosquitto Control Manager

    MCM manages a Mosquitto broker: it keeps users and access rules in SQLite,
    renders them into the files of the broker, deploys these files with a
    preview, an apply, an activation probe and a rollback, edits
    [mosquitto.conf] through a form, and manages the dynamic security plugin
    over its control channel.  This library models the core of the Go code under
    [src/internal] and proves what it promises.

    ** Layout

    - Shared: [Prelude] (results, sorting, maps keyed by a field, hints), [IO]
      (the state and error monad of the code that does I/O, with weakest
      preconditions), and the parts of the Go standard library the code uses:
      [Unicode], [GoStrings], [GoStrconv], [GoPath], [GoTime], [Sha256].
    - [Acl]: [acl/acl.go], [acl/effective.go].  A [Rule] is the record of the
      code; validation, normalisation, topic matching, the resolver.
    - [AclDoc]: [mosquitto/acl.go], [mosquitto/acldoc.go].  ACL files, lossless
      documents and the composition of managed rules into an adopted file.
    - [Passwd], [Hash]: [mosquitto/passwd.go], [dynsec/password.go], the user
      names of [storage/mqtt_users.go] and the redaction of [deploy/service.go].
    - [Catalog], [Conf], [Settings]: [mosquitto/catalog], [mosquitto/conf],
      [mosquitto/settings].  The directive catalog, the parser, renderer and
      validation of [mosquitto.conf], and the settings form on top of them.
    - [Store]: [storage/*.go] for users, rules, ACL sources, managed files,
      revisions, deployments and login attempts.  One record [db] holds the
      tables; every statement may fail, as the list [db_faults] says.
    - [Applier]: [mosquitto/applier.go].  The staged, renamed and rolled back
      files over a file system whose calls may fail, as [fs_faults] says.
    - [Probe]: the choice of the activation probe in [deploy/service.go].
    - [DeployRender], [Deploy]: [deploy/service.go], [deploy/acl_scope.go].  The
      [world] of the deploy service holds the file system with the files the
      broker has loaded ([fs_loaded]), the store, the answers of the verifier,
      the lock and the audit trail.  Render, preview, apply, verification and
      rollback are the functions of the code, composed as there.
    - [DeployFrame], [DeployPlan], [DeployProofs], [DeployOnce], [DeployLife]:
      what the operations leave alone, what an apply is about to write, the
      contract of an apply, at-most-once, and the lifecycle of a record.
      [DeployExamples] runs the service on a concrete installation.
    - [GoGlob], [GoJson]: [filepath.Match] and the encoder of [encoding/json].
    - [CatalogLoad]: [mosquitto/catalog/loader.go] and the loader of
      [mosquitto/plugins/catalog.go], over the decoded YAML documents.
    - [Include], [ConfEdit]: [mosquitto/conf/include.go], and what the broker
      reads after an edited file was rendered.
    - [Bridges], [BridgesValid], [BridgesText]: [mosquitto/bridges].
    - [Plugins]: [mosquitto/plugins].
    - [BrokerStore], [BrokerConfig]: [storage/broker_config*.go] and the deploy
      of [mosquitto.conf] ([deploy/service.go] from [PreviewBrokerConfig] on,
      [deploy/broker_config_*.go], [deploy/settings.go]).  The [bworld] extends
      the world of [Deploy] with the tables of the revisions and the files the
      broker was started with.  [BrokerProofs] and [BrokerOnce] hold the
      contract, [BrokerExamples] runs it.
    - [BridgeDeploy], [PluginDeploy]: [deploy/bridges.go], [deploy/plugins.go],
      previews whose apply is the one of [BrokerConfig]; runs and findings in
      [BridgeExamples] and [PluginExamples].
    - [Dynsec], [DynsecPlan], [DynsecService]: [dynsec/*.go].  The document, the
      plan of commands, the guard of the control channel and the apply with its
      verification, over a control channel that may lose its connection.
    - [DynsecStore], [DynsecJson], [DynsecAdopt], [DynsecDeploy]:
      [storage/dynsec_plans.go], [deploy/dynsec.go], [deploy/dynsec_adopt.go].
      The [dworld] extends the [bworld] with the channel, the table of the plans
      and the audit trail.  The pure part of an adoption is [DynsecAdopt], the
      endpoints are [DynsecDeploy]; [DynsecProofs], [DynsecAdoptProofs] and
      [DynsecAdoptDeploy] hold what they promise, [DynsecExamples] runs them.
    - [GoQuote], [GoNet]: [strconv.Quote], [strconv.Unquote], [net.ParseIP].
    - [Listeners], [ListenerText]: [mosquitto/listeners/*.go].  The listener
      specifications, their validation, and the text of a block with its reader.
    - [ConfLines], [ListenerWriter], [ListenerWriterProofs]: the items that lines
      of [mosquitto.conf] are read as, and [listener/writer/*.go], which splices
      the listeners into the file over the file system of [Applier].
    - [ListenerStore]: [storage/listener_store.go] with the tables of [Store], and
      [server/acl_scope_sync.go].
    - [ComposePorts]: [deploy/compose_ports.go], the published ports of a Compose
      service and their cache.
    - [Sparkplug]: [sparkplug/*.go].  Topics, and payloads in the protobuf wire
      format.

    ** What the theorems show

    - Deploy: an apply leaves the broker on the previewed files, on the files it
      had, or reports that a rollback failed ([DeployProofs.Apply_contract]); a
      revision is applied at most once ([DeployOnce.revision_applied_once]); the
      record and the audit trail follow the lifecycle machine
      ([DeployLife.Apply_lifecycle]); an apply that does not meet its
      preconditions changes nothing ([DeployOnce.Apply_refused]); the applier is
      transactional ([Applier.Apply_transactional]).
    - Access rules: the resolver decides as the specification of MQTT matching
      says, a grant shown as denied is never granted, the composed and rendered
      files read back with the same meaning.
    - Store: the invariant of the tables and the cascade of a rename.
    - Configuration: round trips of parser and renderer, the settings form
      changes what it is asked to change and nothing else, validation is exact.
    - Deploy of [mosquitto.conf]: an apply is refused and changes neither files
      nor records, or every check held and it fails before the file changes, or
      ends active on the reviewed bytes, pending, rolled back, or reports that the
      rollback or the bookkeeping failed ([BrokerProofs.apply_surface_contract]);
      a revision reaches the broker at most once, whichever surface applies it
      ([BrokerOnce.broker_revision_applied_once]); the previews of the settings,
      the bridges and the plugins leave the broker alone and store what they show.
    - Bridges and plugins: validation of bridges is exact for rules stated on the
      texts (three loops of a real broker are outside of them); a written document
      keeps every foreign line, and is read back.
    - Catalogs: the loader ends, with the entry of the nearest file that declares
      a directive ([CatalogLoad.LoadCatalog_resolves]).
    - Dynamic security: the plan runs from the current to the desired state unless
      a group of both gains a client that does not exist yet, the guard is sound
      for normalised documents up to five filters it misses, an apply succeeds only
      with a document that was read back and agrees.  An apply of a reviewed plan sends
      commands only when every check held ([DynsecProofs.ApplyDynSec_gate]), and
      at most once ([DynsecProofs.plan_applied_once]); a migrated client has
      exactly the access of its rules ([DynsecAdoptProofs.adopted_access]), and
      the configuration of an adoption hands the access control over.
    - Listeners: the validation is exact ([Listeners.ValidateListeners_exact]), a
      rendered block is read back ([ListenerText.ParseSpec_Render]), writing the
      same listeners again changes nothing
      ([ListenerWriterProofs.WriteListeners_idempotent]), a synchronisation that
      succeeds leaves every listener with the file of its scoped rules
      ([ListenerStore.Sync_declares_scoped_files]); the ports of a Compose file
      are those its list names ([ComposePorts.HostPorts_document]).
    - Sparkplug: decoding ends for every input, within the limits of the code.
    - Passwords: what is written verifies; the password file reads back.

    ** Bounds and fuel

    [Sha256] and the parsers recurse on their input; [strings.Fields],
    [runes] and the like take the length of the string as fuel, which is enough
    because each step consumes a byte.  The decoder of Sparkplug takes as many
    rounds as the payload has bytes, the loader of a catalog as many as there are
    files and one more, the resolver of includes the depth the code allows.  The
    retries of the verifier and of the control channel recurse on the number of
    attempts that are left.  Integers the code keeps at 64 bits are [Z] with their
    range stated ([wrap64]).

    ** Third-party code

    PBKDF2, the diff library, the YAML decoder, [protowire], the verifier (an MQTT
    client) and the control channel are parameters; a theorem that needs something
    of them says so.  So are the table of printable runes of [unicode.IsPrint] for
    [Listeners], the whole of [strconv.Quote] for [Bridges], which only uses it in
    messages, and what the operating system shows of a directory tree.

    ** Not modelled

    The HTTP server, the configuration loader, certificates, the listener service
    (sockets and container restarts around the modelled writer), the
    authentication of operators, diagnostics, the broker log, alerts, metrics and
    logging do I/O around the modelled services.  Schema migrations, sessions and the
    audit table of the store are left out.  Timeouts appear as calls that fail, not
    as clocks; texts of errors are constructors. *)
From stdpp Require Export base gmap sets list strings sorting pretty.
From Stdlib Require Export ZArith Lia Ascii.
#[export] Set Warnings "-clear-no-such-hyp".

(** ** Results of fallible Go functions

    A Go function that returns [(T, error)] is modelled by [result E T]: the
    error value is an element of a type of its own, and the success value is
    only there when the error is nil. *)
Inductive result (E A : Type) : Type :=
  | Ok (a : A)
  | Err (e : E).
Arguments Ok {E A} a.
Arguments Err {E A} e.

#[export] Instance result_ret E : MRet (result E) := λ A a, Ok a.
#[export] Instance result_bind E : MBind (result E) := λ A B f m,
  match m with Ok a => f a | Err e => Err e end.
#[export] Instance result_fmap E : FMap (result E) := λ A B f m,
  match m with Ok a => Ok (f a) | Err e => Err e end.

Definition is_ok {E A} (m : result E A) : bool :=
  match m with Ok _ => true | Err _ => false end.

Declare Scope mcm_scope.
Delimit Scope mcm_scope with mcm.
Notation "'ensure' b 'else' e ';' k" :=
  (if b then k else Err e) (at level 100, b at level 60, e at level 60, k at level 200, right associativity) : mcm_scope.

(** ** Machine integers

    [int] is 64 bits wide on every platform MCM is built for; arithmetic wraps. *)
Definition wrap64 (z : Z) : Z := (z + 2 ^ 63) `mod` 2 ^ 64 - 2 ^ 63.
Definition wrap_u64 (z : Z) : Z := z `mod` 2 ^ 64.
Definition int64_range (z : Z) : Prop := (- 2 ^ 63 ≤ z < 2 ^ 63)%Z.

(** ** Stable sorting

    [sort.SliceStable] and [sort.Strings]: [less] is the comparison function
    the Go code passes.  An insertion sort from the right keeps equal elements
    in order, so it is a stable sort; every stable sort of a strict weak order
    computes the same list. *)
Section stable_sort.
Context {A : Type} (less : A → A → bool).

Fixpoint sort_insert (x : A) (l : list A) : list A :=
  match l with
  | [] => [x]
  | y :: l' => if less y x then y :: sort_insert x l' else x :: l
  end.

Definition sort_stable (l : list A) : list A := foldr sort_insert [] l.

(** The order a sorted slice satisfies: no element is less than an earlier one. *)
Definition sorted_by : list A → Prop := StronglySorted (λ x y, less y x = false).
End stable_sort.

(** [sort.Strings] compares byte strings lexicographically. *)
Definition string_less (a b : string) : bool := String.ltb a b.
Definition sort_strings : list string → list string := sort_stable string_less.

(** The first occurrence of every element, in order: the [seen] map idiom. *)
Fixpoint dedup_go {A} `{EqDecision A} (seen : list A) (l : list A) : list A :=
  match l with
  | [] => []
  | x :: l' => if decide (x ∈ seen) then dedup_go seen l' else x :: dedup_go (x :: seen) l'
  end.
Definition dedup {A} `{EqDecision A} : list A → list A := dedup_go [].

(** [for _, x := range l { m[key(x)] = x }] into an empty map. *)
Definition map_by {A} (key : A → string) (l : list A) : gmap string A := foldl (λ m x, <[key x := x]> m) ∅ l.

(** ** Generic tactics *)

(** Split every [if] and [match] on a plain term in the goal or a hypothesis. *)
Ltac case_match_goal :=
  match goal with
  | |- context [match ?x with _ => _ end] => destruct x eqn:?
  | H : context [match ?x with _ => _ end] |- _ => destruct x eqn:?
  end.
Ltac split_all := repeat (case_match_goal; simplify_eq/=).
Ltac bool_hyps :=
  repeat match goal with
  | H : (_ && _) = true |- _ => apply andb_true_iff in H as [? ?]
  | H : (_ || _) = false |- _ => apply orb_false_iff in H as [? ?]
  | H : negb _ = true |- _ => apply negb_true_iff in H
  | H : negb _ = false |- _ => apply negb_false_iff in H
  | H : bool_decide _ = true |- _ => apply bool_decide_eq_true in H
  | H : bool_decide _ = false |- _ => apply bool_decide_eq_false in H
  end.

(** The library's hint database: the lemmas below and those the component
    files add solve the routine well-formedness goals. *)
Create HintDb mcm.
Create Rewrite HintDb mcm.

(** ** Lemmas on results *)
Lemma result_bind_ok {E A B} (m : result E A) (f : A → result E B) b :
  m ≫= f = Ok b ↔ ∃ a, m = Ok a ∧ f a = Ok b.
Proof. destruct m; naive_solver. Qed.

Lemma result_bind_err {E A B} (m : result E A) (f : A → result E B) e :
  m ≫= f = Err e ↔ m = Err e ∨ ∃ a, m = Ok a ∧ f a = Err e.
Proof. destruct m; naive_solver. Qed.

Lemma result_fmap_ok {E A B} (m : result E A) (f : A → B) b :
  f <$> m = Ok b ↔ ∃ a, m = Ok a ∧ b = f a.
Proof. destruct m; naive_solver. Qed.

(** ** Lemmas on machine integers *)
Lemma wrap64_id z : int64_range z → wrap64 z = z.
Proof. unfold int64_range, wrap64. intros. rewrite Z.mod_small; lia. Qed.

Lemma wrap64_range z : int64_range (wrap64 z).
Proof. unfold int64_range, wrap64. pose proof (Z.mod_pos_bound (z + 2^63) (2^64)). lia. Qed.

(** ** Lemmas on sorting *)
Section stable_sort_lemmas.
Context {A : Type} (less : A → A → bool).

Lemma sort_insert_perm x l : sort_insert less x l ≡ₚ x :: l.
Proof.
  induction l as [|y l IH]; simpl; [done|].
  destruct (less y x); [|done]. rewrite IH. apply Permutation_swap.
Qed.

Lemma sort_stable_perm l : sort_stable less l ≡ₚ l.
Proof.
  induction l as [|x l IH]; simpl; [done|]. by rewrite sort_insert_perm, IH.
Qed.

Lemma elem_of_sort_stable x l : x ∈ sort_stable less l ↔ x ∈ l.
Proof. by rewrite sort_stable_perm. Qed.

(** [less] is a strict weak order: asymmetric, and not being less is transitive. *)
Context (less_asym : ∀ x y, less x y = true → less y x = false).
Context (less_negtrans : ∀ x y z, less y x = false → less z y = false → less z x = false).

Lemma sort_insert_sorted x l :
  sorted_by less l → sorted_by less (sort_insert less x l).
Proof.
  induction 1 as [|y l Hl IH Hall]; simpl; [repeat constructor|].
  destruct (less y x) eqn:Hyx.
  - constructor; [done|]. rewrite sort_insert_perm. constructor; [|done]. by apply less_asym.
  - constructor; [by constructor|]. constructor; [done|].
    eapply Forall_impl; [exact Hall|]. intros z Hz. simpl in Hz. by eapply less_negtrans.
Qed.

Lemma sort_stable_sorted l : sorted_by less (sort_stable less l).
Proof. induction l; simpl; [constructor|]. by apply sort_insert_sorted. Qed.

(** Stability: the elements of an equivalence class keep their order. *)
Lemma sort_insert_stable (P : A → Prop) `{!∀ x, Decision (P x)} x l :
  (∀ y, P x → P y → less y x = false) →
  filter P (sort_insert less x l) = filter P (x :: l).
Proof.
  intros HP. induction l as [|y l IH]; simpl; [done|].
  destruct (less y x) eqn:Hyx; [|done].
  rewrite !filter_cons. rewrite filter_cons in IH. rewrite IH.
  destruct (decide (P x)), (decide (P y)); try done.
  rewrite (HP y) in Hyx; done.
Qed.

Lemma sort_stable_stable (P : A → Prop) `{!∀ x, Decision (P x)} l :
  (∀ x y, P x → P y → less y x = false) →
  filter P (sort_stable less l) = filter P l.
Proof.
  intros HP. induction l as [|x l IH]; simpl; [done|].
  rewrite sort_insert_stable by eauto. by rewrite !filter_cons, IH.
Qed.
End stable_sort_lemmas.

Lemma string_compare_lt_trans (a b c : string) :
  String.compare a b = Lt → String.compare b c = Lt → String.compare a c = Lt.
Proof.
  revert b c. induction a as [|x a IH]; intros [|y b] [|z c]; simpl; try done.
  unfold Ascii.compare.
  destruct (N.compare_spec (N_of_ascii x) (N_of_ascii y));
  destruct (N.compare_spec (N_of_ascii y) (N_of_ascii z));
  destruct (N.compare_spec (N_of_ascii x) (N_of_ascii z)); try done; try lia; eauto.
Qed.

Lemma string_less_irrefl a : string_less a a = false.
Proof.
  unfold string_less, String.ltb.
  pose proof (String.compare_antisym a a) as H. by destruct (String.compare a a).
Qed.

Lemma string_less_trans a b c :
  string_less a b = true → string_less b c = true → string_less a c = true.
Proof.
  unfold string_less, String.ltb.
  destruct (String.compare a b) eqn:E1; try done.
  destruct (String.compare b c) eqn:E2; try done.
  by rewrite (string_compare_lt_trans _ _ _ E1 E2).
Qed.

Lemma string_less_asym a b : string_less a b = true → string_less b a = false.
Proof.
  intros Hab. destruct (string_less b a) eqn:Hba; [|done].
  rewrite <-(string_less_irrefl a). symmetry. eapply string_less_trans; eauto.
Qed.

Lemma string_less_total a b : string_less a b = false → string_less b a = false → a = b.
Proof.
  unfold string_less, String.ltb. rewrite (String.compare_antisym b a).
  destruct (String.compare a b) eqn:E; simpl; intros; try done.
  by apply String.compare_eq_iff.
Qed.

Lemma string_less_negtrans a b c :
  string_less b a = false → string_less c b = false → string_less c a = false.
Proof.
  intros Hba Hcb. destruct (string_less c a) eqn:Hca; [|done].
  destruct (string_less a b) eqn:Hab.
  - pose proof (string_less_trans _ _ _ Hca Hab). congruence.
  - by rewrite (string_less_total _ _ Hab Hba), Hcb in Hca.
Qed.

Lemma sort_strings_perm l : sort_strings l ≡ₚ l.
Proof. apply sort_stable_perm. Qed.

Lemma sort_strings_sorted l : sorted_by string_less (sort_strings l).
Proof.
  apply sort_stable_sorted; [apply string_less_asym|].
  intros x y z. apply string_less_negtrans.
Qed.

Lemma elem_of_sort_strings x l : x ∈ sort_strings l ↔ x ∈ l.
Proof. apply elem_of_sort_stable. Qed.

#[export] Instance string_sorted_antisym : AntiSymm (=) (λ x y : string, string_less y x = false).
Proof. intros x y ??. by apply string_less_total. Qed.

#[export] Instance string_sorted_trans : Transitive (λ x y : string, string_less y x = false).
Proof. intros x y z. apply string_less_negtrans. Qed.

(** Two sorted string slices with the same elements are the same slice. *)
Lemma sort_strings_ext l1 l2 : l1 ≡ₚ l2 → sort_strings l1 = sort_strings l2.
Proof.
  intros Hl. apply (StronglySorted_unique (λ x y, string_less y x = false)).
  - apply sort_strings_sorted.
  - apply sort_strings_sorted.
  - by rewrite !sort_strings_perm.
Qed.

(** ** Lemmas on lists *)
Lemma bind_nil {A B} (f : A → list B) l : l ≫= f = [] ↔ ∀ x, x ∈ l → f x = [].
Proof.
  induction l as [|x l IH]; simpl; [split; [intros _ x H; by apply elem_of_nil in H|done]|].
  rewrite app_nil, IH. split; [intros [H1 H2] y [->|Hy]%elem_of_cons; auto|].
  intros H. split; [apply H; by left|]. intros y Hy. apply H. by right.
Qed.

Lemma filter_nil_iff {A} (P : A → Prop) `{!∀ x, Decision (P x)} l : filter P l = [] ↔ ∀ x, x ∈ l → ¬ P x.
Proof.
  split.
  - intros Hl x Hx HP. assert (x ∈ filter P l) as Hin by by apply list_elem_of_filter.
    rewrite Hl in Hin. by apply elem_of_nil in Hin.
  - induction l as [|x l IH]; intros Hl; [done|]. rewrite filter_cons_False by (apply Hl; by left). apply IH.
    intros y Hy. apply Hl. by right.
Qed.

(** A later element with the same key wins. *)
Lemma map_by_fold {A} (key : A → string) l (m : gmap string A) k :
  foldl (λ m x, <[key x := x]> m) m l !! k =
    match last (filter (λ x, key x = k) l) with Some x => Some x | None => m !! k end.
Proof.
  induction l as [|x l IH] using rev_ind; [done|]. rewrite foldl_app, filter_app. cbn [foldl].
  destruct (decide (key x = k)) as [E|E].
  - rewrite filter_cons_True, filter_nil, last_snoc, E by done. by rewrite lookup_insert_eq.
  - rewrite filter_cons_False, filter_nil, app_nil_r, lookup_insert_ne by done. exact IH.
Qed.

Lemma map_by_lookup {A} (key : A → string) l k : map_by key l !! k = last (filter (λ x, key x = k) l).
Proof. unfold map_by. rewrite map_by_fold. by destruct (last _). Qed.

Lemma map_by_Some {A} (key : A → string) l k x : map_by key l !! k = Some x → x ∈ l ∧ key x = k.
Proof.
  rewrite map_by_lookup. intros [l' E]%last_Some.
  assert (x ∈ filter (λ x, key x = k) l) as Hin by (rewrite E; apply elem_of_app; right; by left).
  by apply list_elem_of_filter in Hin as [? ?].
Qed.

Lemma map_by_None {A} (key : A → string) l k : map_by key l !! k = None ↔ k ∉ key <$> l.
Proof.
  rewrite map_by_lookup, last_None, filter_nil_iff, list_elem_of_fmap. split.
  - intros Hn (x & -> & Hx). by apply (Hn x).
  - intros Hn x Hx <-. apply Hn. by exists x.
Qed.

Lemma map_by_elem {A} (key : A → string) l x : NoDup (key <$> l) → x ∈ l → map_by key l !! key x = Some x.
Proof.
  intros Hnd Hx. destruct (map_by key l !! key x) as [y|] eqn:E.
  - apply map_by_Some in E as [Hy Heq]. f_equal. apply list_elem_of_lookup_1 in Hx as [i Hi].
    apply list_elem_of_lookup_1 in Hy as [j Hj]. assert (i = j) as ->; [|congruence].
    apply (NoDup_lookup (key <$> l) i j (key x)); [done| |]; rewrite list_lookup_fmap; [by rewrite Hi|by rewrite Hj, <-Heq].
  - apply map_by_None in E. destruct E. by apply list_elem_of_fmap_2.
Qed.

Lemma NoDup_key {A B} (f : A → B) l x y : NoDup (f <$> l) → x ∈ l → y ∈ l → f x = f y → x = y.
Proof.
  induction l as [|z l IH]; [by intros _ ?%elem_of_nil|]. rewrite fmap_cons, NoDup_cons. intros [Hz Hl] Hx Hy Hf.
  apply elem_of_cons in Hx as [->|Hx]; apply elem_of_cons in Hy as [->|Hy]; [done| | |by apply IH].
  - exfalso. apply Hz. rewrite Hf. by apply list_elem_of_fmap_2.
  - exfalso. apply Hz. rewrite <-Hf. by apply list_elem_of_fmap_2.
Qed.

(** ** Lemmas on first occurrences *)
Section dedup_lemmas.
Context {A : Type} `{EqDecision A}.

Lemma elem_of_dedup_go (x : A) seen l : x ∈ dedup_go seen l ↔ x ∈ l ∧ x ∉ seen.
Proof.
  revert seen. induction l as [|y l IH]; intros seen; simpl; [set_solver|].
  case_decide; [rewrite IH; set_solver|].
  rewrite elem_of_cons, IH. destruct (decide (x = y)); set_solver.
Qed.

Lemma elem_of_dedup (x : A) l : x ∈ dedup l ↔ x ∈ l.
Proof. unfold dedup. rewrite elem_of_dedup_go. set_solver. Qed.

Lemma NoDup_dedup_go seen (l : list A) : NoDup (dedup_go seen l).
Proof.
  revert seen. induction l as [|y l IH]; intros seen; simpl; [constructor|].
  case_decide; [done|]. constructor; [|done]. rewrite elem_of_dedup_go. set_solver.
Qed.

Lemma NoDup_dedup (l : list A) : NoDup (dedup l).
Proof. apply NoDup_dedup_go. Qed.
End dedup_lemmas.

#[export] Hint Rewrite @result_bind_ok @result_fmap_ok @elem_of_dedup elem_of_sort_strings : mcm.
#[export] Hint Resolve sort_strings_sorted NoDup_dedup wrap64_range : mcm.

(** ** Loops with an early error return *)
Fixpoint fold_result {S X E} (step : S → X → result E S) (s : S) (l : list X) : result E S :=
  match l with
  | [] => Ok s
  | x :: rest => s' ← step s x; fold_result step s' rest
  end.

Lemma fold_result_snoc {S X E} (step : S → X → result E S) s l x :
  fold_result step s (l ++ [x]) = s' ← fold_result step s l; step s' x.
Proof.
  revert s. induction l as [|y l IH]; intros s; simpl.
  - by destruct (step s x).
  - destruct (step s y); simpl; [apply IH|done].
Qed.

(** An invariant of the loop. *)
Lemma fold_result_inv {S X E} (I : S → Prop) (step : S → X → result E S) s l s' :
  I s → (∀ s x s', x ∈ l → I s → step s x = Ok s' → I s') → fold_result step s l = Ok s' → I s'.
Proof.
  revert s. induction l as [|x l IH]; intros s Hs Hstep; cbn [fold_result]; [by intros [= <-]|].
  intros (s1 & H1 & H2)%result_bind_ok. apply (IH s1); [|by intros; eapply Hstep; [by right|..]|done].
  by eapply Hstep; [left|..].
Qed.

Lemma foldl_inv {S X} (I : S → Prop) (step : S → X → S) s l :
  I s → (∀ s x, x ∈ l → I s → I (step s x)) → I (foldl step s l).
Proof.
  revert s. induction l as [|x l IH]; intros s Hs Hstep; [done|]. cbn [foldl].
  apply IH; [by apply Hstep; [left|]|]. intros s' y Hy. apply Hstep. by right.
Qed.
