(* ===== verification/IO.v ===== *)
(** * A state and error monad for the code that does I/O

    A Go function that reads and writes the world and returns [(T, error)] is
    an element of [io S E T]: it maps a state to the state it leaves and to its
    result.  The state is kept when the function fails, as in Go.  [wp] is the
    weakest precondition of a computation; the theorems about the components
    that do I/O are proved with its rules. *)
From S2P Require Import Prelude.

Definition io (S E A : Type) : Type := S → S * result E A.

Section monad.
Context {S : Type}.

#[export] Instance io_ret E : MRet (io S E) := λ A a s, (s, Ok a).
#[export] Instance io_bind E : MBind (io S E) := λ A B k m s,
  match m s with (s', Ok a) => k a s' | (s', Err e) => (s', Err e) end.

Definition fail {E A} (e : E) : io S E A := λ s, (s, Err e).
Definition get {E} : io S E S := λ s, (s, Ok s).
Definition modify {E} (f : S → S) : io S E unit := λ s, (f s, Ok tt).
(** The error as a value: [x, err := f()]. *)
Definition attempt {E E' A} (m : io S E A) : io S E' (result E A) := λ s, ((m s).1, Ok (m s).2).
(** Another error instead: [fmt.Errorf("...: %w", err)]. *)
Definition wrap {E E' A} (f : E → E') (m : io S E A) : io S E' A := λ s,
  ((m s).1, match (m s).2 with Ok a => Ok a | Err e => Err (f e) end).
(** The statements in front of an error return. *)
Definition cleanup {E A} (m : io S E A) (before : io S E unit) : io S E A := λ s,
  match m s with (s', Err e) => ((before s').1, Err e) | r => r end.

Fixpoint for_each {E A} (f : A → io S E unit) (l : list A) : io S E unit :=
  match l with [] => mret tt | x :: rest => f x ;; for_each f rest end.

(** [for ... { out = append(out, f(x)) }] with an early error return. *)
Fixpoint collect {E A B} (f : A → io S E B) (l : list A) : io S E (list B) :=
  match l with [] => mret [] | x :: rest => y ← f x; ys ← collect f rest; mret (y :: ys) end.

Lemma bind_ok {E A B} (m : io S E A) (k : A → io S E B) s s' a : m s = (s', Ok a) → (m ≫= k) s = k a s'.
Proof. unfold mbind, io_bind. by intros ->. Qed.

Lemma cleanup_ok {E A} (m : io S E A) before s s' a : m s = (s', Ok a) → cleanup m before s = (s', Ok a).
Proof. unfold cleanup. by intros ->. Qed.

Lemma wrap_ok {E E' A} (f : E → E') (m : io S E A) s s' a : m s = (s', Ok a) → wrap f m s = (s', Ok a).
Proof. unfold wrap. by intros ->. Qed.

(** ** Weakest preconditions *)
Definition wp {E A} (m : io S E A) (Q : S → result E A → Prop) (s : S) : Prop := Q (m s).1 (m s).2.

Lemma wp_ret {E A} (a : A) (Q : S → result E A → Prop) s : Q s (Ok a) → wp (mret a) Q s.
Proof. done. Qed.

Lemma wp_fail {E A} (e : E) (Q : S → result E A → Prop) s : Q s (Err e) → wp (fail e) Q s.
Proof. done. Qed.

Lemma wp_bind {E A B} (m : io S E A) (k : A → io S E B) Q s :
  wp m (λ s' r, match r with Ok a => wp (k a) Q s' | Err e => Q s' (Err e) end) s → wp (m ≫= k) Q s.
Proof. unfold wp, mbind, io_bind. destruct (m s) as [s' [a|e]]; done. Qed.

Lemma wp_mono {E A} (m : io S E A) (P Q : S → result E A → Prop) s :
  wp m P s → (∀ s' r, P s' r → Q s' r) → wp m Q s.
Proof. unfold wp. auto. Qed.

Lemma wp_attempt {E E' A} (m : io S E A) (Q : S → result E' (result E A) → Prop) s :
  wp m (λ s' r, Q s' (Ok r)) s → wp (attempt m) Q s.
Proof. done. Qed.

Lemma wp_wrap {E E' A} (f : E → E') (m : io S E A) (Q : S → result E' A → Prop) s :
  wp m (λ s' r, Q s' (match r with Ok a => Ok a | Err e => Err (f e) end)) s → wp (wrap f m) Q s.
Proof. done. Qed.

Lemma wp_cleanup {E A} (m : io S E A) before Q s :
  wp m (λ s' r, match r with Ok a => Q s' (Ok a) | Err e => wp before (λ s'' _, Q s'' (Err e)) s' end) s →
  wp (cleanup m before) Q s.
Proof. unfold wp, cleanup. destruct (m s) as [s' [a|e]]; done. Qed.

(** An invariant [I] of the loop, indexed by the elements already done. *)
Lemma wp_for_each {E A} (f : A → io S E unit) (I : list A → S → Prop) (Q : S → result E unit → Prop) l s :
  I [] s →
  (∀ done x rest s, l = done ++ x :: rest → I done s →
     wp (f x) (λ s' r, match r with Ok _ => I (done ++ [x]) s' | Err e => Q s' (Err e) end) s) →
  (∀ s', I l s' → Q s' (Ok tt)) →
  wp (for_each f l) Q s.
Proof.
  intros HI Hf HQ. enough (∀ done rest s, l = done ++ rest → I done s → wp (for_each f rest) Q s) as H
    by by apply (H []).
  clear s HI. intros done rest. revert done. induction rest as [|x rest IH]; intros done s Hl HI; cbn [for_each].
  - apply wp_ret, HQ. by rewrite Hl, app_nil_r.
  - apply wp_bind. eapply wp_mono; [by eapply Hf|]. intros s' [u|e] H; [|done].
    apply (IH (done ++ [x])); [|done]. by rewrite Hl, <-app_assoc.
Qed.
End monad.

(** A computation on a part of the state. *)
Definition zoom {W S E E' A} (part : W → S) (put : S → W → W) (f : E → E') (m : io S E A) : io W E' A := λ w,
  (put (m (part w)).1 w, match (m (part w)).2 with Ok a => Ok a | Err e => Err (f e) end).

Lemma wp_zoom {W S E E' A} (part : W → S) put (f : E → E') (m : io S E A) (Q : W → result E' A → Prop) w :
  wp m (λ s r, Q (put s w) (match r with Ok a => Ok a | Err e => Err (f e) end)) (part w) → wp (zoom part put f m) Q w.
Proof. done. Qed.

Lemma wp_collect {S E A B} (f : A → io S E B) (I : list (A * B) → S → Prop) (Q : S → result E (list B) → Prop) l s :
  I [] s →
  (∀ done x rest s, l = done.*1 ++ x :: rest → I done s →
     wp (f x) (λ s' r, match r with Ok y => I (done ++ [(x, y)]) s' | Err e => Q s' (Err e) end) s) →
  (∀ done s', l = done.*1 → I done s' → Q s' (Ok done.*2)) →
  wp (collect f l) Q s.
Proof.
  intros HI Hf HQ.
  enough (∀ rest done s (R : S → result E (list B) → Prop), l = done.*1 ++ rest → I done s →
    (∀ s' e, Q s' (Err e) → R s' (Err e)) →
    (∀ more s', rest = more.*1 → I (done ++ more) s' → R s' (Ok more.*2)) → wp (collect f rest) R s) as H.
  { apply (H l [] s); [done|done|done|]. intros more s' Hl Hm. by apply HQ. }
  clear s HI. induction rest as [|x rest IH]; intros done s R Hl HI HR HOk; cbn [collect].
  - apply wp_ret, (HOk []); [done|]. by rewrite app_nil_r.
  - apply wp_bind. eapply wp_mono; [by eapply Hf|]. intros s' [y|e] Hy; [|by apply HR].
    apply wp_bind. apply (IH (done ++ [(x, y)])); [|done|by intros; apply HR|].
    + rewrite fmap_app, <-app_assoc. done.
    + intros more s'' Hrest Hm. apply wp_ret. rewrite <-app_assoc in Hm. apply (HOk ((x, y) :: more)); [|done].
      cbn. by rewrite Hrest.
Qed.

(** One step of the symbolic execution of a computation. *)
Ltac wp_step :=
  lazymatch goal with
  | |- wp (mret _) _ _ => apply wp_ret
  | |- wp (fail _) _ _ => apply wp_fail
  | |- wp (_ ≫= _) _ _ => apply wp_bind
  | |- wp (attempt _) _ _ => apply wp_attempt
  | |- wp (wrap _ _) _ _ => apply wp_wrap
  | |- wp (cleanup _ _) _ _ => apply wp_cleanup
  | |- wp (zoom _ _ _ _) _ _ => apply wp_zoom
  end.
