(* ===== verification/GoStrings.v ===== *)
(** * The functions of Go's [strings] package that MCM calls

    Every function works on byte strings; the ones that look at code points
    ([TrimSpace], [Fields], [ToLower], ranging over a string) go through
    [Unicode.decode_rune], so malformed UTF-8 behaves as in Go. *)
From S2P Require Import Prelude Unicode.

(** ** Definitions *)

Definition space_char : ascii := " ".
Definition tab_char : ascii := "009".
Definition nl_char : ascii := "010".
Definition cr_char : ascii := "013".
Definition quote_char : ascii := "034".
Definition nl : string := String nl_char "".
Definition chr_str (c : ascii) : string := String c "".

(** [strings.Split(s, sep)] for a one-byte separator. *)
Fixpoint split (sep : ascii) (s : string) : list string :=
  match s with
  | EmptyString => [""]
  | String c s' =>
      if decide (c = sep) then "" :: split sep s'
      else match split sep s' with
           | w :: ws => String c w :: ws
           | [] => [chr_str c]
           end
  end.

(** [strings.Join]. *)
Fixpoint join (sep : string) (l : list string) : string :=
  match l with
  | [] => ""
  | [x] => x
  | x :: l' => x +:+ sep +:+ join sep l'
  end.

Definition has_prefix (p s : string) : bool := String.prefix p s.

(** [strings.HasSuffix] and [strings.TrimSuffix]. *)
Fixpoint has_suffix (p s : string) : bool :=
  bool_decide (s = p) || match s with EmptyString => false | String _ s' => has_suffix p s' end.

Fixpoint trim_suffix (p s : string) : string :=
  if decide (s = p) then ""
  else match s with EmptyString => "" | String c s' => String c (trim_suffix p s') end.

Definition trim_prefix (p s : string) : string :=
  if has_prefix p s then String.substring (String.length p) (String.length s) s else s.

(** [strings.Contains]. *)
Fixpoint contains (sub s : string) : bool :=
  has_prefix sub s || match s with EmptyString => false | String _ s' => contains sub s' end.

(** [strings.ContainsAny] and [strings.ContainsRune] for ASCII characters. *)
Definition contains_byte (c : ascii) (s : string) : bool :=
  negb (all_bytes (λ x, bool_decide (x ≠ c)) s).

(** [strings.ReplaceAll] of a one-byte string by a one-byte string. *)
Fixpoint replace_byte (old new : ascii) (s : string) : string :=
  match s with
  | EmptyString => ""
  | String c s' => String (if decide (c = old) then new else c) (replace_byte old new s')
  end.

(** [strings.TrimLeft] and [strings.TrimRight] with an ASCII cutset. *)
Fixpoint trim_left_bytes (cut : ascii → bool) (s : string) : string :=
  match s with
  | EmptyString => ""
  | String c s' => if cut c then trim_left_bytes cut s' else s
  end.
Fixpoint trim_right_bytes (cut : ascii → bool) (s : string) : string :=
  if all_bytes cut s then ""
  else match s with EmptyString => "" | String c s' => String c (trim_right_bytes cut s') end.

(** [strings.TrimSpace]: the white space of [unicode.IsSpace] is dropped from
    both ends.  The trailing white space is the longest suffix whose runes are
    all white space. *)
Definition all_space (s : string) : bool := forallb is_space (runes s).
Definition no_space (s : string) : bool := forallb (λ r, negb (is_space r)) (runes s).

Fixpoint trim_left_go (skip : nat) (s : string) : string :=
  match s with
  | EmptyString => ""
  | String _ s' =>
      match skip with
      | S k => trim_left_go k s'
      | O => if is_space (fst (decode_rune s))
             then trim_left_go (pred (snd (decode_rune s))) s' else s
      end
  end.
Definition trim_left_space : string → string := trim_left_go 0.

Fixpoint trim_right_space (s : string) : string :=
  if all_space s then ""
  else match s with EmptyString => "" | String c s' => String c (trim_right_space s') end.

Definition trim_space (s : string) : string := trim_right_space (trim_left_space s).

(** [strings.Fields].  [fields_go sp skip s] is the run of bytes up to the next
    white space and the fields after it; [skip] bytes belong to the current
    rune, which is white space when [sp] holds. *)
Definition push_field (p : string * list string) : list string :=
  match p.1 with "" => p.2 | _ => p.1 :: p.2 end.

Fixpoint fields_go (sp : bool) (skip : nat) (s : string) : string * list string :=
  match s with
  | EmptyString => ("", [])
  | String c s' =>
      match skip with
      | S k =>
          let r := fields_go sp k s' in
          if sp then r else (String c r.1, r.2)
      | O =>
          if is_space (fst (decode_rune s))
          then ("", push_field (fields_go true (pred (snd (decode_rune s))) s'))
          else let r := fields_go false (pred (snd (decode_rune s))) s' in (String c r.1, r.2)
      end
  end.
Definition fields (s : string) : list string := push_field (fields_go false 0 s).

(** [strings.ToLower]. *)
Definition to_lower (s : string) : string :=
  foldr (λ r acc, encode_rune (to_lower_rune r) +:+ acc) "" (runes s).

(** Slices of bytes: [s[:n]] and [s[n:]]. *)
Definition take_bytes (n : nat) (s : string) : string := String.substring 0 n s.
Definition drop_bytes (n : nat) (s : string) : string := String.substring n (String.length s - n) s.

(** [strings.IndexByte] and the two slices around the byte it finds, which is
    also [strings.Cut] for a one-byte separator. *)
Fixpoint cut_at (c : ascii) (s : string) : option (string * string) :=
  match s with
  | EmptyString => None
  | String x s' =>
      if decide (x = c) then Some ("", s')
      else match cut_at c s' with Some (a, b) => Some (String x a, b) | None => None end
  end.

(** [strings.Count] of a one-byte string. *)
Definition count_byte (c : ascii) (s : string) : nat := pred (length (split c s)).

(** [strings.EqualFold]: the runes are equal under simple case folding.  Each
    orbit of [unicode.SimpleFold] has one representative: the lower case of its
    runes, but for the rows of [fold_table]. *)
Definition fold_table : list (Z * Z) := [
  (181,956); (304,304); (383,115); (837,953); (962,963); (976,946); (977,952); (981,966); (982,960); (1008,954); (1009,961); (1013,949);
  (7296,1074); (7297,1076); (7298,1086); (7299,1089); (7300,1090); (7301,1090); (7302,1098); (7303,1123); (7304,42571);
  (7835,7777); (8126,953)]%Z.
Definition fold_rune (r : Z) : Z :=
  match List.find (λ p, p.1 =? r)%Z fold_table with Some (_, f) => f | None => to_lower_rune r end.
Definition equal_fold (s t : string) : bool := bool_decide (fold_rune <$> runes s = fold_rune <$> runes t).

(** [unicode.IsControl] on some rune of the string. *)
Definition contains_control (s : string) : bool := existsb is_control (runes s).

(** ** Lemmas on appending *)
Lemma app_nil_r_string s : s +:+ "" = s.
Proof. induction s as [|c s IH]; [done|]. change (String c (s +:+ "") = String c s). by rewrite IH. Qed.

Lemma app_cons_string c a b : String c a +:+ b = String c (a +:+ b).
Proof. done. Qed.

Lemma chr_str_app c s : chr_str c +:+ s = String c s.
Proof. done. Qed.

Lemma app_assoc_string (a b c : string) : a +:+ (b +:+ c) = (a +:+ b) +:+ c.
Proof.
  induction a as [|x a IH]; [done|].
  change (String x (a +:+ (b +:+ c)) = String x ((a +:+ b) +:+ c)). by rewrite IH.
Qed.

Lemma length_app_string a b : String.length (a +:+ b) = String.length a + String.length b.
Proof. induction a as [|c a IH]; [done|]. rewrite app_cons_string. simpl. by rewrite IH. Qed.

Lemma all_bytes_app P a b : all_bytes P (a +:+ b) = all_bytes P a && all_bytes P b.
Proof.
  induction a as [|c a IH]; [done|]. rewrite app_cons_string. simpl. by rewrite IH, andb_assoc.
Qed.

(** ** Lemmas on splitting *)
Lemma split_not_nil sep s : split sep s ≠ [].
Proof. destruct s; simpl; [done|]. repeat case_match; done. Qed.

Lemma join_cons sep x l : l ≠ [] → join sep (x :: l) = x +:+ sep +:+ join sep l.
Proof. by destruct l. Qed.

Lemma join_split sep s : join (chr_str sep) (split sep s) = s.
Proof.
  induction s as [|c s IH]; [done|]. simpl. case_decide as Hc.
  - subst c. rewrite join_cons by apply split_not_nil. by rewrite IH.
  - destruct (split sep s) as [|w ws] eqn:E; [by apply split_not_nil in E|].
    destruct ws; simpl in *; by rewrite <-IH.
Qed.

Definition free_of (sep : ascii) (s : string) : bool := all_bytes (λ x, bool_decide (x ≠ sep)) s.

Lemma split_free sep s : free_of sep s = true → split sep s = [s].
Proof.
  induction s as [|c s IH]; [done|]. intros H. unfold free_of in *. simpl in *. bool_hyps.
  rewrite decide_False by done. by rewrite IH.
Qed.

Lemma split_app sep a b :
  free_of sep a = true → split sep (a +:+ String sep b) = a :: split sep b.
Proof.
  induction a as [|c a IH]; unfold free_of in *; intros H; simpl in H.
  - change (split sep (String sep b) = "" :: split sep b). simpl. by rewrite decide_True.
  - bool_hyps. rewrite app_cons_string. simpl. rewrite decide_False by done.
    unfold free_of in IH. by rewrite IH.
Qed.

Lemma split_join sep l :
  l ≠ [] → Forall (λ x, free_of sep x = true) l → split sep (join (chr_str sep) l) = l.
Proof.
  intros Hl Hf. induction Hf as [|x l Hx Hf IH]; [done|].
  destruct l as [|y l]; [by apply split_free|].
  rewrite join_cons by done. rewrite chr_str_app.
  rewrite split_app by done. by rewrite IH.
Qed.

Lemma split_all_free sep s : Forall (λ x, free_of sep x = true) (split sep s).
Proof.
  induction s as [|c s IH]; simpl; [by repeat constructor|].
  case_decide; [by constructor|].
  destruct (split sep s) as [|w ws] eqn:E; [by apply split_not_nil in E|].
  inversion IH; subst. constructor; [|done].
  unfold free_of in *. simpl. by rewrite bool_decide_true.
Qed.

Lemma split_inj sep s1 s2 : split sep s1 = split sep s2 → s1 = s2.
Proof. intros H. by rewrite <-(join_split sep s1), <-(join_split sep s2), H. Qed.

#[export] Hint Resolve split_not_nil split_all_free : mcm.

(** ** Lemmas on runes: an ASCII byte ends the rune before it *)
Lemma byte_at_app_lt n a b : n < String.length a → byte_at n (a +:+ b) = byte_at n a.
Proof.
  revert n. induction a as [|c a IH]; intros n Hn; simpl in Hn; [lia|].
  rewrite app_cons_string. destruct n as [|n]; [done|]. simpl. apply IH. lia.
Qed.

Lemma byte_at_app_len a b : byte_at (String.length a) (a +:+ b) = byte_at 0 b.
Proof. induction a as [|c a IH]; [done|]. rewrite app_cons_string. simpl. done. Qed.

Lemma byte_at_end n a : String.length a ≤ n → byte_at n a = (-1)%Z.
Proof.
  revert n. induction a as [|c a IH]; intros n Hn; simpl in *; [by destruct n|].
  destruct n; [lia|]. apply IH. lia.
Qed.

(** Neither the end of the string nor an ASCII byte continues a rune. *)
Definition no_cont (b : Z) : Prop := cont_byte b = false.

Lemma no_cont_ascii b : (b < 128)%Z → no_cont b.
Proof. unfold no_cont, cont_byte, in_range. lia. Qed.

Lemma no_cont_second b0 b : no_cont b →
  in_range (fst (second_range b0)) (snd (second_range b0)) b = false.
Proof.
  unfold no_cont, cont_byte, second_range, in_range.
  destruct (b0 =? 224)%Z, (b0 =? 237)%Z, (b0 =? 240)%Z, (b0 =? 244)%Z; simpl; lia.
Qed.

#[local] Ltac no_cont_solve A B :=
  rewrite ?(A : cont_byte _ = false), ?(B : cont_byte _ = false), ?(no_cont_second _ _ A), ?(no_cont_second _ _ B),
    ?andb_false_r; done.

(** Decoding looks at the bytes one by one and stops at the first that does not
    continue the rune. *)
Lemma decode_rune_bytes s t :
  byte_at 0 s = byte_at 0 t →
  (byte_at 1 s = byte_at 1 t ∨ (no_cont (byte_at 1 s) ∧ no_cont (byte_at 1 t))) →
  (byte_at 2 s = byte_at 2 t ∨ (no_cont (byte_at 1 s) ∧ no_cont (byte_at 1 t)) ∨
     (no_cont (byte_at 2 s) ∧ no_cont (byte_at 2 t))) →
  (byte_at 3 s = byte_at 3 t ∨ (no_cont (byte_at 1 s) ∧ no_cont (byte_at 1 t)) ∨
     (no_cont (byte_at 2 s) ∧ no_cont (byte_at 2 t)) ∨
     (no_cont (byte_at 3 s) ∧ no_cont (byte_at 3 t))) →
  decode_rune s = decode_rune t.
Proof.
  unfold decode_rune. cbv zeta. intros -> H1 H2 H3.
  destruct H1 as [->|[A B]]; [|solve [no_cont_solve A B]].
  destruct H2 as [->|[[A B]|[A B]]]; [|solve [no_cont_solve A B]..].
  destruct H3 as [->|[[A B]|[[A B]|[A B]]]]; [done|solve [no_cont_solve A B]..].
Qed.

Lemma decode_rune_app x a t : no_cont (byte_at 0 t) → decode_rune (String x (a +:+ t)) = decode_rune (String x a).
Proof.
  intros Hc.
  assert (Hn : ∀ n, byte_at n (a +:+ t) = byte_at n a ∨
    ∃ m, m ≤ n ∧ no_cont (byte_at m (a +:+ t)) ∧ no_cont (byte_at m a)).
  { intros n. destruct (decide (n < String.length a)); [left; by apply byte_at_app_lt|].
    right. exists (String.length a). rewrite byte_at_app_len, (byte_at_end _ a) by lia. repeat split; [lia|done]. }
  apply decode_rune_bytes; [done|..]; simpl;
    [destruct (Hn 0) as [|(m & ? & A & B)]|destruct (Hn 1) as [|(m & ? & A & B)]
    |destruct (Hn 2) as [|(m & ? & A & B)]]; auto;
    destruct m as [|[|[|]]]; auto 10; lia.
Qed.

Lemma no_cont_byte c b : is_ascii c = true → no_cont (byte_at 0 (String c b)).
Proof. intros Hc. apply no_cont_ascii. change (byte_at 0 (String c b)) with (byte_val c). unfold is_ascii in Hc. lia. Qed.
#[export] Hint Resolve no_cont_byte : mcm.

Lemma decode_rune_width c s : pred (snd (decode_rune (String c s))) ≤ String.length s.
Proof.
  unfold decode_rune. change (byte_at 0 (String c s)) with (byte_val c).
  assert (∀ n, cont_byte (byte_at (S n) (String c s)) = true → n < String.length s) as Hn.
  { intros n H. destruct (decide (String.length s ≤ n)); [|lia].
    simpl in H. by rewrite byte_at_end in H. }
  repeat case_match; simpl; bool_hyps; try lia;
    repeat match goal with H : cont_byte (byte_at (S _) _) = true |- _ => apply Hn in H end; lia.
Qed.

Lemma runes_go_app k a t : no_cont (byte_at 0 t) → k ≤ String.length a →
  runes_go k (a +:+ t) = runes_go k a ++ runes t.
Proof.
  intros Hc. revert k. induction a as [|x a IH]; intros k Hk; simpl in Hk.
  - by replace k with 0 by lia.
  - rewrite app_cons_string. destruct k as [|k]; cbn [runes_go]; [|apply IH; lia].
    rewrite decode_rune_app by done. rewrite IH by apply decode_rune_width. done.
Qed.

Lemma runes_app a c b :
  is_ascii c = true → runes (a +:+ String c b) = runes a ++ byte_val c :: runes b.
Proof.
  intros Hc. rewrite <-runes_cons_ascii by done. apply runes_go_app; [by apply no_cont_byte|lia].
Qed.

(** The bytes of a rune after the first are continuation bytes, and no white
    space starts at a continuation byte. *)
Lemma decode_rune_tail c s n :
  n < pred (snd (decode_rune (String c s))) → cont_byte (byte_at n s) = true.
Proof.
  unfold decode_rune. cbv zeta. intros Hn. simpl in Hn.
  assert (Hsec : ∀ b0 b, in_range (fst (second_range b0)) (snd (second_range b0)) b = true → cont_byte b = true).
  { intros b0 b. unfold second_range, cont_byte, in_range. repeat case_match; simpl; lia. }
  repeat case_match; simpl in Hn; bool_hyps; try lia;
    destruct n as [|[|[|]]]; try lia; eauto.
Qed.

Lemma cont_byte_not_space c s : cont_byte (byte_val c) = true → is_space (fst (decode_rune (String c s))) = false.
Proof.
  unfold cont_byte, decode_rune. cbv zeta. change (byte_at 0 (String c s)) with (byte_val c).
  unfold in_range. intros. repeat case_match; bool_hyps; try lia; done.
Qed.

(** [runes_go k s] and the white space of [s], when the first [k] bytes of [s]
    end a rune. *)
Definition mid_rune (k : nat) (s : string) : Prop :=
  k ≤ String.length s ∧ ∀ n, n < k → cont_byte (byte_at n s) = true.

Lemma mid_rune_next c s : mid_rune (pred (snd (decode_rune (String c s)))) s.
Proof. split; [apply decode_rune_width|]. intros n. apply decode_rune_tail. Qed.

Lemma mid_rune_tail k c s : mid_rune (S k) (String c s) → mid_rune k s.
Proof.
  intros [Hk Hc]. simpl in Hk. split; [lia|]. intros n Hn. apply (Hc (S n)). lia.
Qed.

Lemma mid_rune_0 s : mid_rune 0 s.
Proof. split; [lia|]. intros n Hn. lia. Qed.
#[export] Hint Resolve mid_rune_next mid_rune_0 mid_rune_tail : mcm.

Definition no_space_go (k : nat) (s : string) : bool := forallb (λ r, negb (is_space r)) (runes_go k s).

(** A string without white space has no suffix that is all white space. *)
Lemma no_space_suffix k c s :
  mid_rune k (String c s) → no_space_go k (String c s) = true → all_space (String c s) = false.
Proof.
  intros Hmid Hns. unfold all_space, runes. cbn [runes_go forallb].
  destruct k as [|k].
  - unfold no_space_go in Hns. cbn [runes_go forallb] in Hns. bool_hyps.
    apply andb_false_iff. by left.
  - destruct Hmid as [_ Hc]. rewrite cont_byte_not_space; [done|]. apply (Hc 0). lia.
Qed.

Lemma trim_right_no_space_go k s :
  mid_rune k s → no_space_go k s = true → trim_right_space s = s.
Proof.
  revert k. induction s as [|c s IH]; intros k Hmid Hns; [done|].
  cbn [trim_right_space]. erewrite no_space_suffix by eauto. f_equal.
  destruct k as [|k].
  - eapply (IH _ (mid_rune_next c s)). unfold no_space_go in *. cbn [runes_go forallb] in Hns. by bool_hyps.
  - eapply (IH k); [eauto with mcm|]. done.
Qed.

Lemma trim_right_no_space s : no_space s = true → trim_right_space s = s.
Proof. apply (trim_right_no_space_go 0), mid_rune_0. Qed.

Lemma all_space_app a c b :
  is_ascii c = true → all_space (a +:+ String c b) = all_space a && is_space (byte_val c) && all_space b.
Proof.
  intros Hc. unfold all_space. rewrite runes_app by done. rewrite forallb_app. simpl. by rewrite andb_assoc.
Qed.

Lemma no_space_app a c b :
  is_ascii c = true → no_space (a +:+ String c b) = no_space a && negb (is_space (byte_val c)) && no_space b.
Proof.
  intros Hc. unfold no_space. rewrite runes_app by done. rewrite forallb_app. simpl. by rewrite andb_assoc.
Qed.

Lemma no_space_not_all s : s ≠ "" → no_space s = true → all_space s = false.
Proof.
  destruct s as [|c s]; [done|]. intros _ H. by apply (no_space_suffix 0); [apply mid_rune_0|].
Qed.

(** Nothing is trimmed from the right of a word after an ASCII byte. *)
Lemma trim_right_app a c b :
  is_ascii c = true → b ≠ "" → no_space b = true →
  trim_right_space (a +:+ String c b) = a +:+ String c b.
Proof.
  intros Hc Hb Hns. pose proof (no_space_not_all _ Hb Hns) as Hall.
  induction a as [|x a IH].
  - change ("" +:+ String c b) with (String c b). cbn [trim_right_space].
    replace (all_space (String c b)) with false.
    + f_equal. by apply trim_right_no_space.
    + change (String c b) with ("" +:+ String c b). rewrite all_space_app by done.
      by rewrite Hall, andb_false_r.
  - rewrite app_cons_string. cbn [trim_right_space].
    change (String x (a +:+ String c b)) with (String x a +:+ String c b).
    rewrite all_space_app by done. by rewrite Hall, andb_false_r, IH.
Qed.

Lemma trim_left_no_space c s :
  is_space (fst (decode_rune (String c s))) = false → trim_left_space (String c s) = String c s.
Proof. intros H. unfold trim_left_space. cbn [trim_left_go]. by rewrite H. Qed.

Lemma trim_left_word s : no_space s = true → trim_left_space s = s.
Proof.
  destruct s as [|c s]; [done|]. unfold no_space, runes. cbn [runes_go forallb]. intros. bool_hyps.
  by apply trim_left_no_space.
Qed.

Lemma trim_space_word s : no_space s = true → trim_space s = s.
Proof. intros H. unfold trim_space. by rewrite trim_left_word, trim_right_no_space. Qed.

Lemma trim_left_app a c b :
  a ≠ "" → no_space a = true → is_ascii c = true →
  trim_left_space (a +:+ String c b) = a +:+ String c b.
Proof.
  destruct a as [|x a]; [done|]. intros _ Hns Hc. rewrite app_cons_string. apply trim_left_no_space.
  rewrite decode_rune_app by eauto with mcm. unfold no_space, runes in Hns. cbn [runes_go forallb] in Hns. by bool_hyps.
Qed.

(** A line of words separated by blanks is left alone by [TrimSpace]. *)
Lemma trim_space_words a m b :
  a ≠ "" → no_space a = true → b ≠ "" → no_space b = true →
  trim_space (a +:+ String space_char (m +:+ String space_char b)) = a +:+ String space_char (m +:+ String space_char b).
Proof.
  intros Ha Hna Hb Hnb. unfold trim_space. rewrite trim_left_app by done.
  change (String space_char (m +:+ ?x)) with (String space_char m +:+ x).
  rewrite app_assoc_string. by apply trim_right_app.
Qed.

Lemma trim_space_2words a b :
  a ≠ "" → no_space a = true → b ≠ "" → no_space b = true →
  trim_space (a +:+ String space_char b) = a +:+ String space_char b.
Proof.
  intros Ha Hna Hb Hnb. unfold trim_space. rewrite trim_left_app by done. by apply trim_right_app.
Qed.

(** What [TrimSpace] drops, in runes. *)
Lemma trim_left_runes k s : ∃ l, runes_go k s = l ++ runes (trim_left_go k s) ∧ forallb is_space l = true.
Proof.
  revert k. induction s as [|c s IH]; intros k; [by exists []|]. destruct k as [|k]; cbn [runes_go trim_left_go].
  - destruct (is_space _) eqn:E.
    + destruct (IH (pred (snd (decode_rune (String c s))))) as (l & -> & Hl). eexists (_ :: l). cbn [forallb]. by rewrite E.
    + by exists [].
  - apply IH.
Qed.

Lemma trim_left_head k s : match trim_left_go k s with "" => True | t => is_space (fst (decode_rune t)) = false end.
Proof.
  revert k. induction s as [|c s IH]; intros k; [done|]. destruct k as [|k]; cbn [trim_left_go]; [|apply IH].
  destruct (is_space _) eqn:E; [apply IH|done].
Qed.

Lemma all_space_no_cont t : all_space t = true → no_cont (byte_at 0 t).
Proof.
  destruct t as [|c t]; [done|]. unfold all_space, runes. cbn [runes_go forallb]. intros [H _]%andb_true_iff.
  unfold no_cont. change (byte_at 0 (String c t)) with (byte_val c). destruct (cont_byte _) eqn:E; [|done].
  by rewrite (cont_byte_not_space _ t E) in H.
Qed.

Lemma trim_right_split s : ∃ t, s = trim_right_space s +:+ t ∧ all_space t = true.
Proof.
  induction s as [|c s (t & IH & Ht)]; [by exists ""|]. cbn [trim_right_space]. destruct (all_space (String c s)) eqn:E.
  - by exists (String c s).
  - exists t. split; [|done]. rewrite app_cons_string. by f_equal.
Qed.

Lemma runes_trim_right s : ∃ t, runes s = runes (trim_right_space s) ++ runes t ∧ all_space t = true.
Proof.
  destruct (trim_right_split s) as (t & Hs & Ht). exists t. split; [|done]. rewrite Hs at 1.
  apply runes_go_app; [by apply all_space_no_cont|lia].
Qed.

Lemma trim_right_idem s : trim_right_space (trim_right_space s) = trim_right_space s.
Proof.
  induction s as [|c s IH]; [done|]. cbn [trim_right_space]. destruct (all_space (String c s)) eqn:E; [done|].
  cbn [trim_right_space]. destruct (all_space (String c (trim_right_space s))) eqn:E2; [|by rewrite IH].
  exfalso. destruct (trim_right_split s) as (t & Hs & Ht). rewrite Hs, <-app_cons_string in E. unfold all_space, runes in E.
  rewrite runes_go_app in E; [|by apply all_space_no_cont|lia]. rewrite forallb_app in E. unfold all_space, runes in *.
  by rewrite E2, Ht in E.
Qed.

Lemma trim_space_idem s : trim_space (trim_space s) = trim_space s.
Proof.
  unfold trim_space at 1. assert (trim_left_space (trim_space s) = trim_space s) as ->; [|apply trim_right_idem].
  unfold trim_space. set (u := trim_left_space s). destruct (trim_right_split u) as (t & Hu & Ht).
  destruct (trim_right_space u) as [|c v] eqn:E; [done|]. apply trim_left_no_space.
  pose proof (trim_left_head 0 s) as Hh. change (trim_left_go 0 s) with u in Hh. rewrite Hu, app_cons_string in Hh.
  by rewrite decode_rune_app in Hh by by apply all_space_no_cont.
Qed.

Lemma contains_control_trim s : contains_control s = false → contains_control (trim_space s) = false.
Proof.
  unfold contains_control, trim_space. destruct (trim_left_runes 0 s) as (l & Hl & _). change (trim_left_go 0 s) with (trim_left_space s) in Hl.
  destruct (runes_trim_right (trim_left_space s)) as (t & Ht & _). unfold runes at 1. rewrite Hl, Ht, !existsb_app.
  by intros [_ [? _]%orb_false_iff]%orb_false_iff.
Qed.

(** ** Lemmas on [Fields] *)
Lemma fields_go_app k a c b :
  is_ascii c = true → k ≤ String.length a → no_space_go k a = true →
  fields_go false k (a +:+ String c b) =
    (a +:+ (fields_go false 0 (String c b)).1, (fields_go false 0 (String c b)).2).
Proof.
  intros Hc. revert k. induction a as [|x a IH]; intros k Hk Hns; simpl in Hk.
  - replace k with 0 by lia. change ("" +:+ ?y) with y. by destruct (fields_go false 0 (String c b)).
  - rewrite app_cons_string. destruct k as [|k]; cbn [fields_go]; cbv zeta.
    + rewrite decode_rune_app by eauto with mcm. unfold no_space_go in Hns. cbn [runes_go forallb] in Hns. bool_hyps.
      replace (is_space _) with false by done.
      rewrite IH; [done|apply decode_rune_width|done].
    + rewrite IH; [done|lia|]. done.
Qed.

Lemma fields_go_word k a :
  k ≤ String.length a → no_space_go k a = true → fields_go false k a = (a, []).
Proof.
  revert k. induction a as [|x a IH]; intros k Hk Hns; simpl in Hk; [done|].
  destruct k as [|k]; cbn [fields_go]; cbv zeta.
  - unfold no_space_go in Hns. cbn [runes_go forallb] in Hns. bool_hyps.
    replace (is_space _) with false by done. rewrite IH; [done|apply decode_rune_width|done].
  - rewrite IH; [done|lia|]. done.
Qed.

Lemma fields_word a : a ≠ "" → no_space a = true → fields a = [a].
Proof.
  intros Ha Hns. unfold fields. rewrite fields_go_word; [|lia|done]. by destruct a.
Qed.

Lemma fields_go_sp0 sp s : fields_go sp 0 s = fields_go false 0 s.
Proof. by destruct s, sp. Qed.

Lemma fields_go_ascii_space sp c b :
  is_ascii c = true → is_space (byte_val c) = true → fields_go sp 0 (String c b) = ("", fields b).
Proof.
  intros Hc Hsp. cbn [fields_go]. rewrite decode_rune_ascii by done. simpl fst. rewrite Hsp. simpl pred.
  by rewrite fields_go_sp0.
Qed.

Lemma fields_cons a c b :
  a ≠ "" → no_space a = true → is_ascii c = true → is_space (byte_val c) = true →
  fields (a +:+ String c b) = a :: fields b.
Proof.
  intros Ha Hns Hc Hsp. unfold fields at 1. rewrite fields_go_app by (done || lia).
  rewrite fields_go_ascii_space by done. simpl. rewrite app_nil_r_string. by destruct a.
Qed.

Lemma fields_join l :
  Forall (λ w, w ≠ "" ∧ no_space w = true) l → fields (join " " l) = l.
Proof.
  induction 1 as [|w l [Hw Hns] Hl IH]; [done|].
  destruct l as [|w' l]; [by apply fields_word|].
  rewrite join_cons by done. change (" " +:+ ?x) with (String space_char x).
  rewrite fields_cons by done. by rewrite IH.
Qed.

(** ** Words: non-empty strings without white space *)
Definition word (w : string) : bool := negb (bool_decide (w = "")) && no_space w.

(** A text that is its words joined by single blanks. *)
Definition plain (s : string) : bool :=
  bool_decide (join " " (fields s) = s) && negb (bool_decide (fields s = [])) && forallb word (fields s).

Lemma word_spec w : word w = true ↔ w ≠ "" ∧ no_space w = true.
Proof. unfold word. rewrite andb_true_iff, negb_true_iff, bool_decide_eq_false. done. Qed.

Lemma plain_words s : plain s = true →
  ∃ ws, s = join " " ws ∧ ws ≠ [] ∧ Forall (λ w, w ≠ "" ∧ no_space w = true) ws.
Proof.
  unfold plain. intros H. bool_hyps. exists (fields s). split; [done|]. split; [done|].
  rewrite forallb_forall in *. apply Forall_forall. intros w Hw. apply word_spec.
  match goal with H : ∀ _, _ |- _ => apply H end. by apply list_elem_of_In.
Qed.

Lemma fields_nonempty s : Forall (λ w, w ≠ "") (fields s).
Proof.
  assert (∀ p, Forall (λ w, w ≠ "") p.2 → Forall (λ w, w ≠ "") (push_field p)) as Hpush.
  { intros [w ws] H. unfold push_field. simpl. destruct w; [done|]. by constructor. }
  apply Hpush. generalize 0, false. induction s as [|c s IH]; intros k sp; [constructor|].
  cbn [fields_go]. cbv zeta. destruct k as [|k].
  - case_match; simpl; [apply Hpush, IH|apply IH].
  - destruct sp; simpl; apply IH.
Qed.

Lemma join_app_word x ws : ws ≠ [] → join " " (x :: ws) = x +:+ String space_char (join " " ws).
Proof. intros H. by rewrite join_cons. Qed.

(** A line of words is its own trimmed text. *)
Lemma trim_space_join ws :
  Forall (λ w, w ≠ "" ∧ no_space w = true) ws → trim_space (join " " ws) = join " " ws.
Proof.
  intros H. destruct H as [|w ws [Hw Hns] H]; [done|].
  destruct ws as [|w' ws]; [by apply trim_space_word|].
  rewrite join_app_word by done. unfold trim_space. rewrite trim_left_app by done.
  assert (∃ a b, w +:+ String space_char (join " " (w' :: ws)) = a +:+ String space_char b
    ∧ b ≠ "" ∧ no_space b = true) as (a & b & -> & Hb & Hnb).
  { clear Hw Hns. revert w w' H. induction ws as [|w2 ws IH]; intros w w' H.
    - apply Forall_cons in H as [[? ?] _]. by exists w, w'.
    - apply Forall_cons in H as [_ H]. destruct (IH (w +:+ String space_char w') w2 H) as (a & b & E & ?).
      exists a, b. rewrite <-E, (join_app_word w') by done. split; [|done].
      by rewrite <-app_assoc_string. }
  by apply trim_right_app.
Qed.

(** An ASCII byte of a class no rune of the string is in does not occur. *)
Lemma free_of_runes (P : Z → bool) c k s :
  is_ascii c = true → P (byte_val c) = true →
  forallb (λ r, negb (P r)) (runes_go k s) = true → mid_rune k s → free_of c s = true.
Proof.
  intros Hc HP. unfold free_of. revert k. induction s as [|x s IH]; intros k Hr Hm; [done|].
  cbn [all_bytes]. apply andb_true_iff. destruct k as [|k]; cbn [runes_go forallb] in Hr.
  - apply andb_true_iff in Hr as [Hx Hr]. split; [|by apply (IH _ Hr), mid_rune_next].
    apply bool_decide_eq_true. intros ->. rewrite decode_rune_ascii in Hx by done. simpl in Hx.
    by rewrite HP in Hx.
  - split; [|apply (IH k); [done|by eapply mid_rune_tail]].
    apply bool_decide_eq_true. intros ->. destruct Hm as [_ Hm]. specialize (Hm 0 ltac:(lia)).
    unfold is_ascii, cont_byte, in_range in *. simpl in Hm. lia.
Qed.

Lemma cut_at_free c a b : free_of c a = true → cut_at c (a +:+ String c b) = Some (a, b).
Proof.
  induction a as [|x a IH]; intros H; [change (cut_at c (String c b) = Some ("", b)); cbn; by rewrite decide_True|].
  unfold free_of in *. rewrite app_cons_string. cbn in *. bool_hyps. rewrite decide_False by done. by rewrite IH.
Qed.

Lemma cut_at_Some c s a b : cut_at c s = Some (a, b) → s = a +:+ String c b ∧ free_of c a = true.
Proof.
  revert a. induction s as [|x s IH]; intros a; cbn; [done|]. destruct (decide (x = c)) as [->|Hne]; [by intros [= <- <-]|].
  destruct (cut_at c s) as [[a' b']|]; [|done]. intros [= <- <-]. destruct (IH a' eq_refl) as [-> Hf].
  split; [done|]. unfold free_of. cbn. rewrite bool_decide_true by done. exact Hf.
Qed.

Lemma cut_at_None c s : cut_at c s = None ↔ free_of c s = true.
Proof.
  induction s as [|x s IH]; [done|]. unfold free_of in *. cbn. destruct (decide (x = c)) as [->|Hne].
  - by rewrite bool_decide_false by tauto.
  - rewrite bool_decide_true by done. cbn. rewrite <-IH. by destruct (cut_at c s) as [[]|].
Qed.

(** An ASCII string without white space. *)
Lemma no_space_ascii s : all_bytes (λ c, is_ascii c && negb (is_space (byte_val c))) s = true → no_space s = true.
Proof.
  unfold no_space, runes. induction s as [|c s IH]; [done|]. cbn [all_bytes]. intros [[Ha Hs]%andb_true_iff H]%andb_true_iff.
  cbn [runes_go forallb]. rewrite decode_rune_ascii by done. cbn [fst snd pred]. by rewrite Hs, IH.
Qed.

Lemma no_space_free c s : is_ascii c = true → is_space (byte_val c) = true → no_space s = true → free_of c s = true.
Proof. intros Hc Hs H. by apply (free_of_runes is_space c 0 s Hc Hs H), mid_rune_0. Qed.

Lemma has_prefix_byte c u s : u ≠ "" → has_prefix (chr_str c) (u +:+ s) = has_prefix (chr_str c) u.
Proof. destruct u as [|x u]; [done|]. intros _. rewrite app_cons_string. unfold has_prefix. cbn. by destruct (ascii_dec c x), u, s. Qed.

Lemma free_of_join c ws :
  c ≠ space_char → Forall (λ w, free_of c w = true) ws → free_of c (join " " ws) = true.
Proof.
  intros Hc H. induction H as [|w ws Hw H IH]; [done|]. destruct ws as [|w' ws]; [done|].
  rewrite join_app_word by done. unfold free_of in *. rewrite all_bytes_app, Hw. simpl.
  rewrite bool_decide_true by done. done.
Qed.

Lemma word_free_nl w : no_space w = true → free_of nl_char w = true.
Proof. by apply no_space_free. Qed.

(** The bytes of words that are joined by spaces. *)
Lemma words_free c ws : is_ascii c = true → is_space (byte_val c) = true → c ≠ space_char →
  Forall (λ w, w ≠ "" ∧ no_space w = true) ws → free_of c (join " " ws) = true.
Proof.
  intros Hc Hs Hsp H. apply free_of_join; [done|]. eapply Forall_impl; [exact H|].
  intros w [_ Hw]. by apply no_space_free.
Qed.
Lemma words_free_nl ws : Forall (λ w, w ≠ "" ∧ no_space w = true) ws → free_of nl_char (join " " ws) = true.
Proof. by apply words_free. Qed.

Lemma drop_bytes_app a b : drop_bytes (String.length a) (a +:+ b) = b.
Proof.
  unfold drop_bytes. rewrite length_app_string. replace (String.length a + String.length b - String.length a) with (String.length b) by lia.
  induction a as [|c a IH]; [|done]. change ("" +:+ b) with b. cbn [String.length].
  induction b as [|c b IH]; [done|]. cbn. by rewrite IH.
Qed.

Lemma take_bytes_app a b : take_bytes (String.length a) (a +:+ b) = a.
Proof. unfold take_bytes. induction a as [|x a IH]; [by destruct b|]. rewrite app_cons_string. cbn. by f_equal. Qed.

Lemma trim_left_blanks cut s : ∃ p, s = p +:+ trim_left_bytes cut s ∧ all_bytes cut p = true.
Proof.
  induction s as [|x s (p & Hp & Ha)]; [by exists ""|]. cbn [trim_left_bytes]. destruct (cut x) eqn:E; [|by exists ""].
  exists (String x p). split; [rewrite app_cons_string; congruence|]. cbn. by rewrite E.
Qed.

Lemma trim_left_app_blanks cut p s : all_bytes cut p = true → trim_left_bytes cut s = s → trim_left_bytes cut (p +:+ s) = s.
Proof. intros Hp Hs. induction p as [|x p IH]; [done|]. cbn in Hp. apply andb_true_iff in Hp as [Hx Hp]. rewrite app_cons_string. cbn. rewrite Hx. by apply IH. Qed.
Lemma has_prefix_app p s : has_prefix p (p +:+ s) = true.
Proof. unfold has_prefix. induction p as [|c p IH]; [by destruct s|]. rewrite app_cons_string. cbn. by rewrite ascii_dec_refl || destruct (ascii_dec c c). Qed.
