(* ===== verification/GoStrconv.v ===== *)
(** * The functions of Go's [strconv] package that MCM calls *)
From S2P Require Import Prelude Unicode GoStrings.

(** [strconv.Atoi] and [strconv.ParseInt(s, 10, 64)]: an optional sign, then at
    least one digit, within the 64-bit range; [None] is the error. *)
Definition digit_val (c : ascii) : option Z :=
  let v := byte_val c in if in_range 48 57 v then Some (v - 48)%Z else None.

Fixpoint parse_digits (s : string) (acc : Z) : option Z :=
  match s with
  | EmptyString => Some acc
  | String c s' => match digit_val c with Some d => parse_digits s' (acc * 10 + d)%Z | None => None end
  end.

Definition parse_nat (s : string) : option Z :=
  match s with EmptyString => None | _ => parse_digits s 0 end.

Definition atoi (s : string) : option Z :=
  let unsigned :=
    match s with
    | String "+" s' => parse_nat s'
    | String "-" s' => Z.opp <$> parse_nat s'
    | _ => parse_nat s
    end in
  match unsigned with
  | Some z => if bool_decide (- 2 ^ 63 ≤ z < 2 ^ 63)%Z then Some z else None
  | None => None
  end.

(** [strconv.ParseBool]. *)
Definition parse_bool (s : string) : option bool :=
  if bool_decide (s ∈ ["1"; "t"; "T"; "true"; "TRUE"; "True"]) then Some true
  else if bool_decide (s ∈ ["0"; "f"; "F"; "false"; "FALSE"; "False"]) then Some false
  else None.

(** [strconv.Itoa] and [strconv.FormatInt(z, 10)]. *)
Definition itoa (z : Z) : string := pretty z.

(** ** Lemmas *)
Lemma atoi_range s z : atoi s = Some z → int64_range z.
Proof.
  unfold atoi, int64_range. intros H. repeat case_match; simplify_eq; by bool_hyps.
Qed.

Lemma parse_digits_app s t acc :
  parse_digits (s +:+ t) acc = parse_digits s acc ≫= parse_digits t.
Proof.
  revert acc. induction s as [|c s IH]; intros acc; [done|].
  rewrite app_cons_string. simpl. destruct (digit_val c); [apply IH|done].
Qed.

(** ** The round trip of a decimal integer *)
Definition is_digit (c : ascii) : bool := in_range 48 57 (byte_val c).

Lemma digit_val_is_digit c : is_digit c = true → digit_val c = Some (byte_val c - 48)%Z.
Proof. unfold is_digit, digit_val. by intros ->. Qed.

Lemma pretty_N_char_digit x : (x < 10)%N →
  is_digit (pretty_N_char x) = true ∧ digit_val (pretty_N_char x) = Some (Z.of_N x).
Proof.
  intros H. assert (x = 0 ∨ x = 1 ∨ x = 2 ∨ x = 3 ∨ x = 4 ∨ x = 5 ∨ x = 6 ∨ x = 7 ∨ x = 8 ∨ x = 9)%N as Hx by lia.
  clear H. by destruct_or!; subst x.
Qed.

Lemma pretty_N_go_digits x s : all_bytes is_digit s = true →
  all_bytes is_digit (pretty_N_go x s) = true ∧ parse_digits (pretty_N_go x s) 0 = parse_digits s (Z.of_N x).
Proof.
  revert s. induction (N.lt_wf_0 x) as [x _ IH]; intros s Hs.
  assert (x = 0 ∨ 0 < x)%N as [->|Hx] by lia; [by rewrite pretty_N_go_0|].
  rewrite pretty_N_go_step by done.
  destruct (pretty_N_char_digit (x `mod` 10)) as [Hd Hv]; [by apply N.mod_lt|].
  destruct (IH (x `div` 10)%N (N.div_lt x 10 Hx eq_refl) (String (pretty_N_char (x `mod` 10)) s)) as [H1 H2].
  { cbn [all_bytes]. by rewrite Hd, Hs. }
  split; [done|]. rewrite H2. cbn [parse_digits]. rewrite Hv. f_equal.
  rewrite N2Z.inj_div, N2Z.inj_mod. pose proof (Z.div_mod (Z.of_N x) 10). lia.
Qed.

Lemma pretty_pos p : all_bytes is_digit (pretty (Npos p)) = true ∧ parse_nat (pretty (Npos p)) = Some (Zpos p).
Proof.
  unfold pretty, pretty_N. rewrite decide_False by done. destruct (pretty_N_go_digits (Npos p) "" eq_refl) as [H1 H2].
  split; [done|]. unfold parse_nat. rewrite H2. by destruct (pretty_N_go _ _).
Qed.

Lemma atoi_digits s : all_bytes is_digit s = true →
  atoi s = match parse_nat s with Some z => if bool_decide (- 2 ^ 63 ≤ z < 2 ^ 63)%Z then Some z else None | None => None end.
Proof.
  destruct s as [|c s]; [done|]. cbn [all_bytes]. intros [Hc _]%andb_true_iff.
  destruct c as [[] [] [] [] [] [] [] []]; try done; by vm_compute in Hc.
Qed.

Lemma atoi_itoa z : int64_range z → atoi (itoa z) = Some z.
Proof.
  intros Hz. unfold itoa, pretty, pretty_Z. unfold int64_range in Hz. destruct z as [|p|p]; [done| |];
    destruct (pretty_pos p) as [Hd Hp].
  - change (pretty p) with (pretty (Npos p)). rewrite atoi_digits, Hp by done. by rewrite bool_decide_true.
  - change ("-" +:+ pretty p) with (String "-" (pretty (Npos p))). unfold atoi. rewrite Hp.
    change (Z.opp <$> Some (Zpos p)) with (Some (Zneg p)). cbv beta iota zeta. by rewrite bool_decide_true.
Qed.

Lemma all_bytes_impl (P Q : ascii → bool) s : (∀ c, P c = true → Q c = true) → all_bytes P s = true → all_bytes Q s = true.
Proof. intros HPQ. induction s as [|c s IH]; [done|]. cbn [all_bytes]. rewrite !andb_true_iff. naive_solver. Qed.

(** The bytes of a decimal integer. *)
Lemma itoa_bytes (P : ascii → bool) z : (∀ c, is_digit c = true → P c = true) → P "-"%char = true → all_bytes P (itoa z) = true.
Proof.
  intros HP Hm. assert (∀ s, all_bytes is_digit s = true → all_bytes P s = true) as H by (intros s; by apply all_bytes_impl).
  unfold itoa, pretty, pretty_Z. destruct z as [|p|p].
  - by apply H.
  - apply H, (pretty_pos p).
  - rewrite all_bytes_app. apply andb_true_iff. split; [by cbn; rewrite Hm|apply H, (pretty_pos p)].
Qed.

Lemma itoa_free c z : is_digit c = false → c ≠ "-"%char → free_of c (itoa z) = true.
Proof.
  intros Hc Hm. apply itoa_bytes; [|by apply bool_decide_eq_true].
  intros d Hd. apply bool_decide_eq_true. by intros ->; rewrite Hd in Hc.
Qed.

(** A decimal integer has neither white space nor blanks around it. *)
Lemma itoa_no_space z : no_space (itoa z) = true.
Proof.
  apply no_space_ascii, itoa_bytes; [|done]. intros c Hc. unfold is_digit, in_range in Hc.
  apply andb_true_iff. split; [unfold is_ascii; lia|]. apply negb_true_iff. unfold is_space, in_range. lia.
Qed.

Lemma itoa_not_empty z : itoa z ≠ "".
Proof.
  unfold itoa, pretty, pretty_Z. destruct z as [|p|p]; [done| |done]. intros H.
  change (pretty (Npos p) = "") in H. pose proof (pretty_pos p) as [_ Hp]. by rewrite H in Hp.
Qed.
