(* ===== verification/GoPath.v ===== *)
(** * The functions of Go's [path/filepath] package that MCM calls (Unix) *)
From S2P Require Import Prelude Unicode GoStrings.

Definition is_abs (path : string) : bool := has_prefix "/" path.

(** The stack of path components [filepath.Clean] keeps, deepest first. *)
Definition clean_push (rooted : bool) (stack : list string) (comp : string) : list string :=
  if decide (comp = "" ∨ comp = ".") then stack
  else if decide (comp = "..") then
    match stack with
    | top :: rest => if decide (top = "..") then comp :: stack else rest
    | [] => if rooted then [] else [comp]
    end
  else comp :: stack.

Definition clean_stack (path : string) : list string :=
  foldl (clean_push (is_abs path)) [] (split "/" path).

Definition render_path (rooted : bool) (comps : list string) : string :=
  if rooted then "/" +:+ join "/" comps
  else match comps with [] => "." | _ => join "/" comps end.

(** [filepath.Clean]. *)
Definition clean (path : string) : string :=
  if decide (path = "") then "." else render_path (is_abs path) (reverse (clean_stack path)).

(** The text up to and including the last separator, and the text after it. *)
Definition dir_part (path : string) : string :=
  match reverse (split "/" path) with
  | _ :: [] => ""
  | _ :: rest => join "/" (reverse rest) +:+ "/"
  | [] => ""
  end.
Definition last_part (path : string) : string := default "" (last (split "/" path)).

(** [filepath.Dir], [filepath.Base] and [filepath.Join]. *)
Definition dir (path : string) : string := clean (dir_part path).

Definition base_name (path : string) : string :=
  if decide (path = "") then "."
  else
    let stripped := trim_right_bytes (λ c, bool_decide (c = "/"%char)) path in
    if decide (stripped = "") then "/" else last_part stripped.

Definition path_join (elems : list string) : string :=
  let kept := filter (λ e, e ≠ "") elems in
  match kept with [] => "" | _ => clean (join "/" kept) end.

(** [filepath.Abs], with the working directory. *)
Definition abs_path (cwd path : string) : string := if is_abs path then clean path else path_join [cwd; path].

(** [filepath.Ext]: from the last dot of the last element. *)
Definition ext (path : string) : string :=
  match reverse (split "." (last_part path)) with
  | [] | [_] => ""
  | e :: _ => "." +:+ e
  end.

(** [filepath.Rel]: the components that are left after the common ones; what is
    left of the base is left upwards. *)
Fixpoint strip_common (base targ : list string) : list string * list string :=
  match base, targ with
  | b :: base', t :: targ' => if decide (b = t) then strip_common base' targ' else (base, targ)
  | _, _ => (base, targ)
  end.
Definition rel_comps (path : string) : list string := reverse (clean_stack path).
Definition rel_path (base targ : string) : option string :=
  if decide (is_abs base ≠ is_abs targ) then None
  else match strip_common (rel_comps base) (rel_comps targ) with
  | (".." :: _, _) => None
  | (up, down) => Some (match replicate (length up) ".." ++ down with [] => "." | comps => join "/" comps end)
  end.

Example ext_conf : ext "a.b/c.d.conf" = ".conf". Proof. reflexivity. Qed.
Example ext_none : ext "a.b/conf" = "". Proof. reflexivity. Qed.
Example rel_down : rel_path "/etc/mosquitto" "/etc/mosquitto/conf.d/x.conf" = Some "conf.d/x.conf". Proof. reflexivity. Qed.
Example rel_up : rel_path "/a/b/c" "/a/d/e" = Some "../../d/e". Proof. reflexivity. Qed.
Example rel_self : rel_path "/a/./b" "/a/b/" = Some ".". Proof. reflexivity. Qed.
Example rel_undefined : rel_path "../a" "b" = None. Proof. reflexivity. Qed.

(** ** Lemmas *)

(** A component [Clean] keeps. *)
Definition proper_comp (c : string) : Prop := c ≠ "" ∧ c ≠ "." ∧ c ≠ ".." ∧ free_of "/" c = true.

(** The components of a cleaned path, deepest first: proper ones, over a run of
    [".."] when the path is not rooted. *)
Definition good_stack (rooted : bool) (stack : list string) : Prop :=
  ∃ l n, stack = l ++ replicate n ".." ∧ Forall proper_comp l ∧ (rooted = true → n = 0).

Lemma clean_push_good rooted stack c :
  good_stack rooted stack → free_of "/" c = true → good_stack rooted (clean_push rooted stack c).
Proof.
  intros (l & n & -> & Hl & Hn) Hc. unfold clean_push.
  destruct (decide (c = "" ∨ c = ".")) as [Hd|Hd]; [by exists l, n|].
  destruct (decide (c = "..")) as [->|Hd'].
  - destruct l as [|t l]; simpl.
    + destruct n as [|n]; simpl.
      * destruct rooted; [by exists [], 0|exists [], 1; naive_solver].
      * exists [], (S (S n)). split; [done|]. split; [done|]. intros ->. naive_solver.
    + apply Forall_cons in Hl as [Ht Hl]. rewrite decide_False by (unfold proper_comp in Ht; naive_solver).
      by exists l, n.
  - exists (c :: l), n. split; [done|]. split; [|done]. constructor; [|done].
    unfold proper_comp. naive_solver.
Qed.

Lemma clean_fold_good rooted comps stack :
  good_stack rooted stack → Forall (λ c, free_of "/" c = true) comps →
  good_stack rooted (foldl (clean_push rooted) stack comps).
Proof.
  intros Hs Hc. revert stack Hs. induction Hc as [|c comps Hc Hcs IH]; intros stack Hs; [done|].
  simpl. apply IH. by apply clean_push_good.
Qed.

Lemma clean_stack_good path : good_stack (is_abs path) (clean_stack path).
Proof.
  apply clean_fold_good; [by exists [], 0|apply split_all_free].
Qed.

(** Pushing the components of a cleaned path again rebuilds its stack. *)
Lemma clean_push_dots n m stack :
  stack = replicate m ".." → foldl (clean_push false) stack (replicate n "..") = replicate (n + m) "..".
Proof.
  revert m stack. induction n as [|n IH]; intros m stack ->; [done|]. simpl.
  assert (clean_push false (replicate m "..") ".." = replicate (S m) "..") as ->.
  { unfold clean_push. simpl. destruct m; simpl; [done|]. done. }
  rewrite (IH (S m)) by done. f_equal. by rewrite Nat.add_succ_r.
Qed.

Lemma clean_push_proper rooted l stack :
  Forall proper_comp l → foldl (clean_push rooted) stack l = reverse l ++ stack.
Proof.
  intros Hl. revert stack. induction Hl as [|c l (H1 & H2 & H3 & _) Hl IH]; intros stack; [done|].
  simpl. unfold clean_push at 2. rewrite decide_False, decide_False by naive_solver.
  rewrite IH, reverse_cons, <-app_assoc. done.
Qed.

Lemma clean_again rooted stack :
  good_stack rooted stack → foldl (clean_push rooted) [] (reverse stack) = stack.
Proof.
  intros (l & n & -> & Hl & Hn). rewrite reverse_app, foldl_app, reverse_replicate.
  assert (foldl (clean_push rooted) [] (replicate n "..") = replicate n "..") as ->.
  { destruct rooted; [by rewrite Hn|]. rewrite (clean_push_dots n 0) by done. by rewrite Nat.add_0_r. }
  rewrite clean_push_proper by (by apply Forall_reverse). by rewrite reverse_involutive.
Qed.

Lemma good_stack_free rooted stack : good_stack rooted stack →
  Forall (λ c, free_of "/" c = true ∧ c ≠ "") stack.
Proof.
  intros (l & n & -> & Hl & _). apply Forall_app. split.
  - eapply Forall_impl; [exact Hl|]. unfold proper_comp. naive_solver.
  - by apply Forall_replicate.
Qed.

Lemma is_abs_app s : is_abs ("/" +:+ s) = true.
Proof. by destruct s. Qed.

Lemma is_abs_app_ne a b : a ≠ "" → is_abs (a +:+ b) = is_abs a.
Proof. destruct a as [|c a]; [done|]. intros _. by destruct a, b. Qed.

Lemma app_cons_ne a c b : a +:+ String c b ≠ "".
Proof. by destruct a. Qed.

Lemma is_abs_comps c l : free_of "/" c = true → c ≠ "" → is_abs (join "/" (c :: l)) = false.
Proof.
  intros Hc Hne. destruct c as [|x c]; [done|]. unfold free_of in Hc. simpl in Hc. bool_hyps.
  destruct l; [|rewrite join_cons by done]; unfold is_abs, has_prefix; simpl;
    case_match; try done; congruence.
Qed.

Lemma split_app_sep sep a b : split sep (a +:+ String sep b) = split sep a ++ split sep b.
Proof.
  induction a as [|c a IH].
  - change ("" +:+ ?x) with x. simpl. by rewrite decide_True.
  - rewrite app_cons_string. simpl. case_decide; [by rewrite IH|].
    rewrite IH. destruct (split sep a) eqn:E; [by apply split_not_nil in E|done].
Qed.

Lemma split_comps l : l ≠ [] → Forall (λ c, free_of "/" c = true ∧ c ≠ "") l → split "/" (join "/" l) = l.
Proof.
  intros Hl Hf. apply (split_join "/"); [done|]. eapply Forall_impl; [exact Hf|]. naive_solver.
Qed.

(** The stack of a rendered path. *)
Lemma render_path_stack rooted stack :
  good_stack rooted stack →
  is_abs (render_path rooted (reverse stack)) = rooted ∧
  clean_stack (render_path rooted (reverse stack)) = stack ∧
  render_path rooted (reverse stack) ≠ "".
Proof.
  intros Hg. pose proof (good_stack_free _ _ Hg) as Hf. pose proof (clean_again _ _ Hg) as Hc.
  apply Forall_reverse in Hf. destruct rooted; simpl.
  - split; [apply is_abs_app|]. split; [|done]. unfold clean_stack. rewrite is_abs_app.
    change ("/" +:+ ?x) with ("" +:+ String "/" x). rewrite split_app_sep. simpl.
    destruct (reverse stack) as [|c l] eqn:E; [|by rewrite split_comps].
    simpl. by rewrite <-Hc.
  - destruct (reverse stack) as [|c l] eqn:E.
    + split; [done|]. split; [|done]. rewrite <-Hc. done.
    + apply Forall_cons in Hf as [[Hfc Hcn] Hf].
      assert (Habs : is_abs (join "/" (c :: l)) = false) by by apply is_abs_comps.
      split; [done|]. split.
      * unfold clean_stack. rewrite Habs, split_comps; [done|done|by constructor].
      * destruct c; [done|]. destruct l; done.
Qed.

(** [Clean] is idempotent. *)
Lemma clean_idem path : clean (clean path) = clean path.
Proof.
  unfold clean at 2. destruct (decide (path = "")) as [->|Hp].
  - done.
  - pose proof (clean_stack_good path) as Hg.
    destruct (render_path_stack _ _ Hg) as (Ha & Hs & Hne).
    unfold clean at 1. rewrite decide_False by done. rewrite Ha, Hs.
    unfold clean. by rewrite decide_False.
Qed.

Lemma free_nonempty_last a c : free_of "/" c = true → last_part (a +:+ String "/" c) = c.
Proof. intros Hc. unfold last_part. rewrite split_app_sep, (split_free _ c) by done. by rewrite last_snoc. Qed.

Lemma trim_right_slash_id a c : free_of "/" c = true → c ≠ "" →
  trim_right_bytes (λ c, bool_decide (c = "/"%char)) (a +:+ c) = a +:+ c.
Proof.
  intros Hc Hne.
  assert (Hall : ∀ b, all_bytes (λ c, bool_decide (c = "/"%char)) (b +:+ c) = false).
  { intros b. rewrite all_bytes_app. destruct c as [|x c]; [done|]. unfold free_of in Hc. simpl in *. bool_hyps.
    rewrite bool_decide_false by done. by rewrite andb_false_r. }
  induction a as [|y a IH].
  - change ("" +:+ c) with c. specialize (Hall ""). change ("" +:+ c) with c in Hall.
    clear Hne. induction c as [|x c IH]; [done|]. cbn [trim_right_bytes]. rewrite Hall. f_equal.
    unfold free_of in Hc. simpl in Hc. bool_hyps.
    destruct c as [|z c]; [done|]. apply IH; [done|].
    unfold free_of in *. simpl in *. bool_hyps. by rewrite bool_decide_false.
  - specialize (Hall (String y a)). rewrite app_cons_string in *. cbn [trim_right_bytes].
    rewrite Hall. by rewrite IH.
Qed.

(** The parts of a path made of a directory and a file name. *)
Section path_join_lemmas.
Context (rooted : bool) (stack : list string) (name : string).
Context (Hstack : good_stack rooted stack) (Hname : proper_comp name).

Let D := render_path rooted (reverse stack).

Lemma good_stack_cons : good_stack rooted (name :: stack).
Proof.
  destruct Hstack as (l & n & -> & Hl & Hn). exists (name :: l), n. split; [done|]. split; [by constructor|done].
Qed.

Lemma path_join_render : path_join [D; name] = render_path rooted (reverse (name :: stack)).
Proof.
  destruct (render_path_stack _ _ Hstack) as (Ha & Hs & Hne). fold D in Ha, Hs, Hne.
  destruct Hname as (H1 & H2 & H3 & H4).
  unfold path_join. rewrite !filter_cons, filter_nil, !decide_True by done.
  change (join "/" [D; name]) with (D +:+ String "/" name).
  unfold clean. rewrite decide_False by (apply app_cons_ne).
  assert (is_abs (D +:+ String "/" name) = rooted) as Habs.
  { rewrite <-Ha. by apply is_abs_app_ne. }
  unfold clean_stack. rewrite Habs, split_app_sep, (split_free _ name), foldl_app by done.
  unfold clean_stack in Hs. rewrite Ha in Hs. rewrite Hs. simpl.
  unfold clean_push. by rewrite !decide_False by naive_solver.
Qed.

(** The rendered path is the name after the directory and a separator, except
    directly under the root or the working directory. *)
Lemma render_cons :
  render_path rooted (reverse (name :: stack)) =
    match stack with
    | [] => if rooted then "" +:+ String "/" name else name
    | _ => D +:+ String "/" name
    end.
Proof.
  unfold D. rewrite reverse_cons. destruct stack as [|t rest]; [by destruct rooted|].
  destruct (reverse (t :: rest)) as [|c l] eqn:E;
    [by apply (f_equal length) in E; rewrite length_reverse in E|].
  assert (∀ c, join "/" ((c :: l) ++ [name]) = join "/" (c :: l) +:+ String "/" name) as Hj.
  { clear E. induction l as [|c' l IH]; intros c''; [done|].
    rewrite <-app_comm_cons, join_cons by done. rewrite IH, (join_cons _ c'') by done.
    by rewrite <-!app_assoc_string. }
  destruct rooted.
  - unfold render_path. rewrite Hj. by rewrite app_assoc_string.
  - transitivity (join "/" ((c :: l) ++ [name])); [done|]. by rewrite Hj.
Qed.

Lemma base_join : base_name (path_join [D; name]) = name.
Proof.
  rewrite path_join_render, render_cons. destruct Hname as (H1 & H2 & H3 & H4).
  assert (∀ a, last_part (a +:+ name) = name → base_name (a +:+ name) = name) as Hbase.
  { intros a Hl. unfold base_name. rewrite decide_False by (by destruct a, name).
    rewrite trim_right_slash_id by done. by rewrite decide_False by (by destruct a, name). }
  assert (∀ a, base_name (a +:+ String "/" name) = name) as Hsep.
  { intros a. replace (a +:+ String "/" name) with ((a +:+ "/") +:+ name) by (by rewrite <-app_assoc_string).
    apply Hbase. rewrite <-app_assoc_string. by apply free_nonempty_last. }
  destruct stack; [destruct rooted|]; [apply Hsep| |apply Hsep].
  apply (Hbase ""). unfold last_part. change ("" +:+ name) with name. by rewrite split_free.
Qed.

Lemma dir_part_app a b : free_of "/" b = true → dir_part (a +:+ String "/" b) = a +:+ "/".
Proof.
  intros Hb. unfold dir_part. rewrite split_app_sep, (split_free _ b), reverse_app by done. simpl.
  pose proof (split_not_nil "/" a). pose proof (join_split "/" a) as Hj. unfold chr_str in Hj.
  destruct (reverse (split "/" a)) as [|y ys] eqn:E.
  - apply (f_equal reverse) in E. rewrite reverse_involutive in E. done.
  - by rewrite <-E, reverse_involutive, Hj.
Qed.

Lemma dir_join : dir (path_join [D; name]) = D.
Proof.
  rewrite path_join_render, render_cons. destruct Hname as (H1 & H2 & H3 & H4).
  destruct (render_path_stack _ _ Hstack) as (Ha & Hs & Hne). fold D in Ha, Hs, Hne.
  unfold dir. destruct stack as [|t rest] eqn:E; [destruct rooted|].
  - by rewrite dir_part_app.
  - unfold dir_part. by rewrite split_free.
  - rewrite dir_part_app by done. unfold clean. rewrite decide_False by (apply app_cons_ne).
    assert (is_abs (D +:+ "/") = rooted) as Habs by (rewrite <-Ha; by apply is_abs_app_ne).
    unfold clean_stack in *. rewrite Habs. rewrite Ha in Hs.
    rewrite split_app_sep, foldl_app, Hs. simpl.
    unfold clean_push. by rewrite decide_True by naive_solver.
Qed.
End path_join_lemmas.

(** [Clean]ed paths are rendered stacks. *)
Lemma dir_render path : ∃ rooted stack, good_stack rooted stack ∧ dir path = render_path rooted (reverse stack).
Proof.
  unfold dir, clean. case_decide.
  - exists false, []. split; [by exists [], 0|done].
  - eexists _, _. split; [apply clean_stack_good|done].
Qed.
