(* ===== verification/GoGlob.v ===== *)
(** * [filepath.Match] (Unix)

    A pattern is a sequence of chunks, each after a run of stars.  A chunk
    matches at one place; a star looks for the first place the next chunk
    matches at.  [None] is [ErrBadPattern]. *)
From S2P Require Import Prelude Unicode GoStrings.

Local Abbreviation star_char := "*"%char.
Local Abbreviation slash_char := "/"%char.
Local Abbreviation escape_char := "\"%char.

(** [scanChunk]: the text up to the next star outside of a class, and the rest. *)
Fixpoint chunk_go (inrange escaped : bool) (s : string) : string * string :=
  match s with
  | "" => ("", "")
  | String c s' =>
      if escaped then let '(chunk, rest) := chunk_go inrange false s' in (String c chunk, rest)
      else if decide (c = star_char ∧ inrange = false) then ("", s)
      else
        let inrange := if decide (c = "["%char) then true else if decide (c = "]"%char) then false else inrange in
        let '(chunk, rest) := chunk_go inrange (bool_decide (c = escape_char)) s' in (String c chunk, rest)
  end.
Definition scan_chunk (pattern : string) : bool * string * string :=
  let rest := trim_left_bytes (λ c, bool_decide (c = star_char)) pattern in
  let '(chunk, rest') := chunk_go false false rest in
  (negb (bool_decide (rest = pattern)), chunk, rest').

(** [getEsc]: a character of a class, which something must follow. *)
Definition get_esc (chunk : string) : option (Z * string) :=
  if bool_decide (chunk = "") || has_prefix "-" chunk || has_prefix "]" chunk then None
  else
    let chunk := trim_prefix "\" chunk in
    let '(r, n) := decode_rune chunk in
    let rest := drop_bytes n chunk in
    if bool_decide (chunk = "") || bool_decide (r = rune_error ∧ n = 1) || bool_decide (rest = "") then None else Some (r, rest).

(** The ranges of a class, up to its closing bracket. *)
Fixpoint class_go (fuel : nat) (r : Z) (first matched : bool) (chunk : string) : option (bool * string) :=
  match fuel with
  | O => None
  | S fuel =>
      if has_prefix "]" chunk && negb first then Some (matched, drop_bytes 1 chunk)
      else
        '(lo, chunk) ← get_esc chunk;
        '(hi, chunk) ← (if has_prefix "-" chunk then get_esc (drop_bytes 1 chunk) else Some (lo, chunk));
        class_go fuel r false (matched || in_range lo hi r) chunk
  end.
Definition class (r : Z) (chunk : string) : option (bool * string) :=
  let negated := has_prefix "^" chunk in
  '(matched, chunk) ← class_go (S (String.length chunk)) r true false (trim_prefix "^" chunk);
  Some (xorb matched negated, chunk).

(** [matchChunk]: the rest of the name when the chunk matches its beginning.
    After a mismatch the chunk is only checked. *)
Fixpoint match_chunk (fuel : nat) (failed : bool) (chunk s : string) : option (option string) :=
  match chunk with
  | "" => Some (if failed then None else Some s)
  | String c chunk' =>
      match fuel with
      | O => None
      | S fuel =>
          let failed := failed || bool_decide (s = "") in
          if decide (c = "["%char) then
            let '(r, n) := if failed then (0%Z, 0) else decode_rune s in
            '(matched, chunk) ← class r chunk';
            match_chunk fuel (failed || negb matched) chunk (drop_bytes n s)
          else if decide (c = "?"%char) then
            let n := if failed then 0 else snd (decode_rune s) in
            match_chunk fuel (failed || has_prefix "/" s) chunk' (drop_bytes n s)
          else
            match (if decide (c = escape_char) then chunk' else chunk) with
            | "" => None
            | String d chunk =>
                match_chunk fuel (failed || negb (has_prefix (chr_str d) s)) chunk (if failed then s else drop_bytes 1 s)
            end
      end
  end.
Definition matchChunk (chunk s : string) : option (option string) := match_chunk (String.length chunk) false chunk s.

(** A star: the places after one or more bytes that are no separator. *)
Fixpoint star_search (chunk : string) (is_last : bool) (name : string) : option (option string) :=
  match name with
  | "" => Some None
  | String c name' =>
      if decide (c = slash_char) then Some None
      else
        r ← matchChunk chunk name';
        match r with
        | Some t => if is_last && negb (bool_decide (t = "")) then star_search chunk is_last name' else Some (Some t)
        | None => star_search chunk is_last name'
        end
  end.

(** The rest of a pattern that does not match is checked. *)
Fixpoint check_rest (fuel : nat) (pattern : string) : option bool :=
  match pattern, fuel with
  | "", _ => Some false
  | _, O => None
  | _, S fuel => let '(_, chunk, rest) := scan_chunk pattern in matchChunk chunk "" ;; check_rest fuel rest
  end.

Fixpoint glob (fuel : nat) (pattern name : string) : option bool :=
  match pattern, fuel with
  | "", _ => Some (bool_decide (name = ""))
  | _, O => None
  | _, S fuel =>
      let '(star, chunk, rest) := scan_chunk pattern in
      if star && bool_decide (chunk = "") then Some (negb (contains_byte slash_char name))
      else
        r ← matchChunk chunk name;
        let here := match r with Some t => bool_decide (t = "") || negb (bool_decide (rest = "")) | None => false end in
        if here then glob fuel rest (default "" r)
        else
          r ← (if star : bool then star_search chunk (bool_decide (rest = "")) name else Some None);
          match r with Some t => glob fuel rest t | None => check_rest (String.length rest) rest end
  end.
Definition Match (pattern name : string) : option bool := glob (String.length pattern) pattern name.

Example Match_conf : Match "*.conf" "10-site.conf" = Some true. Proof. vm_compute. reflexivity. Qed.
Example Match_other : Match "*.conf" "10-site.conf.bak" = Some false. Proof. vm_compute. reflexivity. Qed.
Example Match_class : Match "[0-9]?-*.c[^a-n]nf" "10-x.conf" = Some true. Proof. vm_compute. reflexivity. Qed.
Example Match_stars : Match "a*b*c" "axxbyybzc" = Some true. Proof. vm_compute. reflexivity. Qed.
Example Match_slash : Match "a*" "a/b" = Some false. Proof. vm_compute. reflexivity. Qed.
Example Match_bad : Match "x[" "y" = None. Proof. vm_compute. reflexivity. Qed.
Example Match_escape : Match "\*" "*" = Some true. Proof. vm_compute. reflexivity. Qed.
Example Match_literal : Match "ab" "abc" = Some false. Proof. vm_compute. reflexivity. Qed.
