(* ===== verification/Sha256.v ===== *)
(** * [crypto/sha256] and [encoding/hex], as the content hashes use them

    The compression function on 32-bit words, the padding of a message, and the
    lower case hexadecimal digest.  [contentHash] of [internal/deploy/service.go]
    and [aclSourceContentHash] of [internal/storage/acl_sources.go] are this
    digest. *)
From S2P Require Import Prelude Unicode.

Definition w32 (z : Z) : Z := z `mod` 2 ^ 32.
Definition rotr (n z : Z) : Z := Z.lor (Z.shiftr z n) (w32 (Z.shiftl z (32 - n))).
Definition not32 (z : Z) : Z := Z.lxor z (2 ^ 32 - 1).

Definition round_constants : list Z :=
  [1116352408; 1899447441; 3049323471; 3921009573; 961987163; 1508970993; 2453635748; 2870763221;
   3624381080; 310598401; 607225278; 1426881987; 1925078388; 2162078206; 2614888103; 3248222580;
   3835390401; 4022224774; 264347078; 604807628; 770255983; 1249150122; 1555081692; 1996064986;
   2554220882; 2821834349; 2952996808; 3210313671; 3336571891; 3584528711; 113926993; 338241895;
   666307205; 773529912; 1294757372; 1396182291; 1695183700; 1986661051; 2177026350; 2456956037;
   2730485921; 2820302411; 3259730800; 3345764771; 3516065817; 3600352804; 4094571909; 275423344;
   430227734; 506948616; 659060556; 883997877; 958139571; 1322822218; 1537002063; 1747873779;
   1955562222; 2024104815; 2227730452; 2361852424; 2428436474; 2756734187; 3204031479; 3329325298]%Z.
Definition initial_hash : list Z :=
  [1779033703; 3144134277; 1013904242; 2773480762; 1359893119; 2600822924; 528734635; 1541459225]%Z.

(** Big-endian words. *)
Fixpoint words_of (bytes : list Z) : list Z :=
  match bytes with
  | a :: b :: c :: d :: rest => (a * 2 ^ 24 + b * 2 ^ 16 + c * 2 ^ 8 + d)%Z :: words_of rest
  | _ => []
  end.
Definition bytes_of_word (n : nat) (z : Z) : list Z := (λ i, (Z.shiftr z (8 * Z.of_nat i)) `mod` 256)%Z <$> reverse (seq 0 n).

(** A one bit, zeroes, and the length in bits on eight bytes. *)
Definition pad (message : list Z) : list Z :=
  let n := length message in
  message ++ [128%Z] ++ replicate ((119 - n `mod` 64) `mod` 64) 0%Z ++ bytes_of_word 8 (8 * Z.of_nat n).

(** The message schedule, the last word first. *)
Definition small_sigma (a b c : Z) (x : Z) : Z := Z.lxor (rotr a x) (Z.lxor (rotr b x) (Z.shiftr x c)).
Definition big_sigma (a b c : Z) (x : Z) : Z := Z.lxor (rotr a x) (Z.lxor (rotr b x) (rotr c x)).
Fixpoint schedule (rounds : nat) (w : list Z) : list Z :=
  match rounds with
  | O => w
  | S r =>
      let at_ i := nth i w 0%Z in
      schedule r (w32 (small_sigma 17 19 10 (at_ 1%nat) + at_ 6%nat + small_sigma 7 18 3 (at_ 14%nat) + at_ 15%nat) :: w)
  end.

Definition compress_round (h : list Z) (kw : Z * Z) : list Z :=
  match h with
  | [a; b; c; d; e; f; g; i] =>
      let choice := Z.lxor (Z.land e f) (Z.land (not32 e) g) in
      let t1 := (i + big_sigma 6 11 25 e + choice + kw.1 + kw.2)%Z in
      let majority := Z.lxor (Z.land a b) (Z.lxor (Z.land a c) (Z.land b c)) in
      let t2 := (big_sigma 2 13 22 a + majority)%Z in
      [w32 (t1 + t2); a; b; c; w32 (d + t1); e; f; g]
  | _ => h
  end.
Definition compress (h block : list Z) : list Z :=
  let w := reverse (schedule 48 (reverse block)) in
  zip_with (λ x y, w32 (x + y)) h (foldl compress_round h (zip round_constants w)).

Fixpoint blocks (fuel : nat) (words : list Z) (h : list Z) : list Z :=
  match fuel, words with
  | S n, _ :: _ => blocks n (drop 16 words) (compress h (take 16 words))
  | _, _ => h
  end.
Definition bytes_of (s : string) : list Z := byte_val <$> String.list_ascii_of_string s.
Definition Sum256 (s : string) : list Z :=
  let words := words_of (pad (bytes_of s)) in
  blocks (length words) words initial_hash ≫= bytes_of_word 4.

Definition hex_digit (z : Z) : ascii := byte_of (if (z <? 10)%Z then 48 + z else 87 + z).
Definition hex_encode (bytes : list Z) : string :=
  String.string_of_list_ascii (bytes ≫= λ b, [hex_digit (b / 16); hex_digit (b `mod` 16)]).

Definition contentHash (body : string) : string := hex_encode (Sum256 body).

(** Test vectors of FIPS 180-2. *)
Example sum256_abc : contentHash "abc" = "ba7816bf8f01cfea414140de5dae2223b00361a396177a9cb410ff61f20015ad".
Proof. by vm_compute. Qed.
Example sum256_two_blocks :
  contentHash "abcdbcdecdefdefgefghfghighijhijkijkljklmklmnlmnomnopnopq"
  = "248d6a61d20638b8e5c026930c3e6039a33ce45964ff2167f6ecedd419db06c1".
Proof. by vm_compute. Qed.
