(* ===== verification/Hash.v ===== *)
(** * Password hashes of the broker ([internal/mosquitto/passwd.go], [internal/dynsec/password.go])

    The [$7$] format of Mosquitto: an iteration count, a salt and a PBKDF2 key,
    the last two in base64.  PBKDF2 is third-party code and a parameter. *)
From S2P Require Import Prelude Unicode GoStrings GoStrconv.

(** ** [base64.StdEncoding] *)
Definition encode_char (z : Z) : ascii :=
  byte_of (if z <? 26 then 65 + z else if z <? 52 then 71 + z else if z <? 62 then z - 4 else if z =? 62 then 43 else 47)%Z.
Definition decode_char (c : ascii) : option Z :=
  let v := byte_val c in
  if in_range 65 90 v then Some (v - 65)%Z
  else if in_range 97 122 v then Some (v - 71)%Z
  else if in_range 48 57 v then Some (v + 4)%Z
  else if (v =? 43)%Z then Some 62%Z else if (v =? 47)%Z then Some 63%Z else None.

Fixpoint EncodeToString (s : string) : string :=
  let e1 a := encode_char (a / 4) in
  let e2 a b := encode_char (a `mod` 4 * 16 + b / 16) in
  let e3 b c := encode_char (b `mod` 16 * 4 + c / 64) in
  match s with
  | "" => ""
  | String a "" => let a := byte_val a in String (e1 a) (String (e2 a 0) "==")
  | String a (String b "") =>
      let a := byte_val a in let b := byte_val b in String (e1 a) (String (e2 a b) (String (e3 b 0) "="))
  | String a (String b (String c rest)) =>
      let a := byte_val a in let b := byte_val b in let c := byte_val c in
      String (e1 a) (String (e2 a b) (String (e3 b c) (String (encode_char (c `mod` 64)) (EncodeToString rest))))
  end%Z.

(** The decoder skips line breaks wherever they are. *)
Definition is_line_break (c : ascii) : bool := bool_decide (c = cr_char) || bool_decide (c = nl_char).
Fixpoint strip_breaks (s : string) : string :=
  match s with "" => "" | String c s' => if is_line_break c then strip_breaks s' else String c (strip_breaks s') end.

Definition d1 (x y : Z) : ascii := byte_of (x * 4 + y / 16).
Definition d2 (y z : Z) : ascii := byte_of (y `mod` 16 * 16 + z / 4).
Definition d3 (z w : Z) : ascii := byte_of (z `mod` 4 * 64 + w).

Fixpoint decode_quanta (s : string) : option string :=
  match s with
  | "" => Some ""
  | String a (String b (String c (String d rest))) =>
      match decode_char a, decode_char b with
      | Some x, Some y =>
          if decide (c = "="%char) then
            if decide (d = "="%char ∧ rest = "") then Some (String (d1 x y) "") else None
          else match decode_char c with
          | None => None
          | Some z =>
              if decide (d = "="%char) then if decide (rest = "") then Some (String (d1 x y) (String (d2 y z) "")) else None
              else match decode_char d, decode_quanta rest with
              | Some w, Some t => Some (String (d1 x y) (String (d2 y z) (String (d3 z w) t)))
              | _, _ => None
              end
          end
      | _, _ => None
      end
  | _ => None
  end.
Definition DecodeString (s : string) : option string := decode_quanta (strip_breaks s).

(** ** Hashing *)
Definition DefaultIterations : Z := 101.
Definition PasswordIterations : Z := 101.
Definition salt_length : nat := 12.
Definition key_length : nat := 64.

Inductive hash_error := InvalidFormat | ParseIterations | DecodeSalt | SaltLength (n : nat) | DecodeKey | KeyLength (n : nat).

Definition parseHash (hash : string) : result hash_error (Z * string * string) :=
  match split "$" hash with
  | [""; "7"; count; salt; key] =>
      match atoi count with
      | None => Err ParseIterations
      | Some iterations =>
          match DecodeString salt with
          | None => Err DecodeSalt
          | Some salt =>
              if decide (String.length salt ≠ salt_length) then Err (SaltLength (String.length salt))
              else match DecodeString key with
              | None => Err DecodeKey
              | Some key =>
                  if decide (String.length key ≠ key_length) then Err (KeyLength (String.length key))
                  else Ok (iterations, salt, key)
              end
          end
      end
  | _ => Err InvalidFormat
  end.

Section pbkdf2.
(** The key of 64 bytes of a password, a salt and an iteration count. *)
Context (pbkdf2 : string → string → Z → string).

(** [salt] is what the random source gives. *)
Definition HashPassword (password : string) (iterations : Z) (salt : string) : string :=
  "$7$" +:+ itoa iterations +:+ "$" +:+ EncodeToString salt +:+ "$" +:+ EncodeToString (pbkdf2 password salt iterations).

Definition VerifyPassword (hash password : string) : result hash_error bool :=
  match parseHash hash with
  | Err e => Err e
  | Ok (iterations, salt, key) => Ok (bool_decide (pbkdf2 password salt iterations = key))
  end.

(** The pair the dynamic security plugin stores. *)
Definition dynsec_HashPassword (password salt : string) : string * string :=
  (EncodeToString (pbkdf2 password salt PasswordIterations), EncodeToString salt).
End pbkdf2.

(** ** The round trip *)
Lemma decode_encode_char z : (0 ≤ z < 64)%Z → decode_char (encode_char z) = Some z.
Proof.
  intros Hz. assert (Forall (λ z, decode_char (encode_char z) = Some z) (seqZ 0 64)) as H.
  { refine (bool_decide_unpack _ _). by vm_compute. }
  rewrite Forall_forall in H. apply H, elem_of_seqZ. lia.
Qed.

Definition base64_char (c : ascii) : bool := bool_decide (is_Some (decode_char c)) || bool_decide (c = "="%char).
Lemma encode_char_base64 z : (0 ≤ z < 64)%Z → base64_char (encode_char z) = true.
Proof. intros Hz. unfold base64_char. rewrite decode_encode_char by done. by rewrite bool_decide_true. Qed.

Lemma byte_of_val c z : z = byte_val c → byte_of z = c.
Proof.
  intros ->. unfold byte_of. pose proof (byte_val_range c). rewrite Z.mod_small by done.
  unfold byte_val. by rewrite N2Z.id, ascii_N_embedding.
Qed.

Ltac byte_bounds :=
  repeat match goal with c : ascii |- _ =>
    lazymatch goal with _ : (0 ≤ byte_val c < 256)%Z |- _ => fail | _ => pose proof (byte_val_range c) end end.
Ltac byte_lia := byte_bounds; Z.div_mod_to_equations; lia.

(** Three bytes at a time. *)
Lemma triple_ind (P : string → Prop) :
  P "" → (∀ a, P (String a "")) → (∀ a b, P (String a (String b ""))) →
  (∀ a b c s, P s → P (String a (String b (String c s)))) → ∀ s, P s.
Proof.
  intros H0 H1 H2 H3 s. enough (P s ∧ (∀ a, P (String a s)) ∧ ∀ a b, P (String a (String b s))) by tauto.
  induction s as [|c s (IH1 & IH2 & IH3)]; [done|]. split; [apply IH2|]. split; intros a; [apply IH3|intros b; by apply H3].
Qed.

Lemma EncodeToString_base64 s : all_bytes base64_char (EncodeToString s) = true.
Proof.
  induction s as [|a|a b|a b c s IH] using triple_ind; cbn [EncodeToString all_bytes]; [done|..];
    rewrite ?encode_char_base64 by byte_lia; done.
Qed.

Lemma strip_breaks_base64 s : all_bytes base64_char s = true → strip_breaks s = s.
Proof.
  induction s as [|c s IH]; [done|]. cbn [all_bytes strip_breaks]. intros [Hc Hs]%andb_true_iff. rewrite IH by done.
  unfold is_line_break. destruct (decide (c = cr_char)) as [->|]; [by vm_compute in Hc|].
  destruct (decide (c = nl_char)) as [->|]; [by vm_compute in Hc|]. by rewrite !bool_decide_false.
Qed.

Lemma encode_char_not_pad z : (0 ≤ z < 64)%Z → encode_char z ≠ "="%char.
Proof. intros Hz E. pose proof (decode_encode_char z Hz) as H. rewrite E in H. by vm_compute in H. Qed.

Lemma decode_quanta_EncodeToString s : decode_quanta (EncodeToString s) = Some s.
Proof.
  induction s as [|a|a b|a b c s IH] using triple_ind; cbn [EncodeToString decode_quanta]; [done|..];
    rewrite !decode_encode_char by byte_lia.
  - rewrite !decide_True by done. do 2 f_equal. apply byte_of_val. byte_lia.
  - rewrite decide_False by (apply encode_char_not_pad; byte_lia). rewrite !decide_True by done.
    do 2 f_equal; [|f_equal]; apply byte_of_val; byte_lia.
  - rewrite !decide_False by (apply encode_char_not_pad; byte_lia). rewrite IH.
    do 2 f_equal; [|f_equal; [|f_equal]]; apply byte_of_val; byte_lia.
Qed.

Lemma DecodeString_EncodeToString s : DecodeString (EncodeToString s) = Some s.
Proof. unfold DecodeString. rewrite strip_breaks_base64 by apply EncodeToString_base64. apply decode_quanta_EncodeToString. Qed.

Lemma EncodeToString_free s : free_of "$" (EncodeToString s) = true.
Proof. eapply all_bytes_impl, EncodeToString_base64. intros c Hc. apply bool_decide_eq_true. by intros ->. Qed.

Section roundtrip.
Context (pbkdf2 : string → string → Z → string).
Hypothesis pbkdf2_length : ∀ password salt iterations, String.length (pbkdf2 password salt iterations) = key_length.

Lemma parseHash_HashPassword password iterations salt :
  int64_range iterations → String.length salt = salt_length →
  parseHash (HashPassword pbkdf2 password iterations salt) = Ok (iterations, salt, pbkdf2 password salt iterations).
Proof.
  intros Hi Hs. unfold parseHash, HashPassword.
  set (parts := [""; "7"; itoa iterations; EncodeToString salt; EncodeToString (pbkdf2 password salt iterations)]).
  change (_ +:+ _) with (join (chr_str "$") parts). rewrite split_join; subst parts.
  - cbv beta iota. by rewrite atoi_itoa, !DecodeString_EncodeToString, Hs, pbkdf2_length.
  - done.
  - repeat constructor; [by apply itoa_free|apply EncodeToString_free..].
Qed.
End roundtrip.

(** ** Properties *)

(** [C33] A hash MCM writes verifies the password it was made of, and another
    password exactly when PBKDF2 gives it the same key; the pair the dynamic
    security plugin stores decodes to the key and the salt of the same password.
    [pbkdf2] returns the 64 bytes it is asked for. *)
Theorem VerifyPassword_HashPassword (pbkdf2 : string → string → Z → string)
    (pbkdf2_length : ∀ password salt iterations, String.length (pbkdf2 password salt iterations) = key_length)
    password other iterations salt :
  int64_range iterations → String.length salt = salt_length →
  VerifyPassword pbkdf2 (HashPassword pbkdf2 password iterations salt) password = Ok true
  ∧ VerifyPassword pbkdf2 (HashPassword pbkdf2 password iterations salt) other
    = Ok (bool_decide (pbkdf2 other salt iterations = pbkdf2 password salt iterations))
  ∧ (prod_map DecodeString DecodeString (dynsec_HashPassword pbkdf2 password salt)
     = (Some (pbkdf2 password salt PasswordIterations), Some salt)).
Proof.
  intros Hi Hs. unfold VerifyPassword. rewrite parseHash_HashPassword by done. split; [by rewrite bool_decide_true|].
  split; [done|]. unfold dynsec_HashPassword, prod_map. cbn [fst snd]. by rewrite !DecodeString_EncodeToString.
Qed.

(** A stand-in for the key derivation: the password, cut or filled to 64 bytes. *)
Fixpoint example_pbkdf2 (n : nat) (password : string) : string :=
  match n, password with
  | O, _ => ""
  | S n, "" => String "." (example_pbkdf2 n "")
  | S n, String c s => String c (example_pbkdf2 n s)
  end.
Lemma example_pbkdf2_length n s : String.length (example_pbkdf2 n s) = n.
Proof. revert s. induction n as [|n IH]; intros [|c s]; cbn; by rewrite ?IH. Qed.

Lemma VerifyPassword_HashPassword_witness :
  let pbkdf2 password salt iterations := example_pbkdf2 key_length password in
  VerifyPassword pbkdf2 (HashPassword pbkdf2 "s3cret" DefaultIterations "0123456789ab") "s3cret" = Ok true
  ∧ VerifyPassword pbkdf2 (HashPassword pbkdf2 "s3cret" DefaultIterations "0123456789ab") "guess" = Ok false.
Proof.
  cbv zeta. destruct (VerifyPassword_HashPassword (λ password salt iterations, example_pbkdf2 key_length password)
    (λ password _ _, example_pbkdf2_length key_length password) "s3cret" "guess" DefaultIterations "0123456789ab")
    as (H1 & H2 & _); [done|done|]. split; [exact H1|]. rewrite H2. by vm_compute.
Defined.
