(* ===== verification/GoQuote.v ===== *)
(** * [strconv.Quote] and [strconv.Unquote]

    Double-quoted Go string literals.  [print] is [unicode.IsPrint] beyond ASCII,
    the table that decides which runes are written as they are; the round trip
    does not depend on it. *)
From S2P Require Import Prelude Unicode GoStrings Sha256.
#[local] Open Scope Z_scope.

Definition backslash_char : ascii := "\".
Definition escaped (c : ascii) : string := String backslash_char (chr_str c).

(** ** Quoting *)

(** [n] lower-case hexadecimal digits. *)
Fixpoint hex_digits (n : nat) (r : Z) : string :=
  match n with O => "" | S n => hex_digits n (r / 16) +:+ chr_str (hex_digit (r mod 16)) end.
Definition named_escapes : list (Z * ascii) := [(7, "a"); (8, "b"); (12, "f"); (10, "n"); (13, "r"); (9, "t"); (11, "v")]%char.
Definition escape_rune (print : Z → bool) (r : Z) : string :=
  if (r =? 34) || (r =? 92) then escaped (byte_of r)
  else if if r <? 128 then in_range 32 126 r else print r then encode_rune r
  else match List.find (λ p, p.1 =? r) named_escapes with
  | Some (_, c) => escaped c
  | None =>
      if (r <? 32) || (r =? 127) then escaped "x" +:+ hex_digits 2 r
      else if r <? 65536 then escaped "u" +:+ hex_digits 4 r
      else escaped "U" +:+ hex_digits 8 r
  end.
Fixpoint quote_go (print : Z → bool) (skip : nat) (s : string) : string :=
  match s with
  | EmptyString => ""
  | String c s' =>
      match skip with
      | S skip => quote_go print skip s'
      | O =>
          let '(r, n) := decode_rune s in
          if (r =? rune_error) && bool_decide (n = 1%nat) then escaped "x" +:+ hex_digits 2 (byte_val c) +:+ quote_go print 0 s'
          else escape_rune print r +:+ quote_go print (n - 1) s'
      end
  end.
Definition Quote (print : Z → bool) (s : string) : string := chr_str quote_char +:+ quote_go print 0 s +:+ chr_str quote_char.

(** ** Unquoting *)
Definition unhex (c : ascii) : option Z :=
  let b := byte_val c in
  if in_range 48 57 b then Some (b - 48) else if in_range 97 102 b then Some (b - 87) else if in_range 65 70 b then Some (b - 55) else None.
(** [n] hexadecimal digits and what follows them. *)
Fixpoint read_hex (n : nat) (acc : Z) (s : string) : option (Z * string) :=
  match n, s with
  | O, _ => Some (acc, s)
  | S n, String c s' => match unhex c with Some d => read_hex n (acc * 16 + d) s' | None => None end
  | S _, EmptyString => None
  end.
Definition valid_rune (r : Z) : bool := in_range 0 55295 r || in_range 57344 1114111 r.
Definition octal (c : ascii) : option Z := let b := byte_val c in if in_range 48 55 b then Some (b - 48) else None.
Definition plain_escapes : list (ascii * Z) := [("a", 7); ("b", 8); ("f", 12); ("n", 10); ("r", 13); ("t", 9); ("v", 11); ("\", 92); ("034", 34)]%char.
(** [UnquoteChar] and the append that follows it: the bytes of one character, and
    the rest. *)
Definition unquote_escape (s : string) : option (string * string) :=
  match s with
  | EmptyString => None
  | String c s' =>
      match List.find (λ p, bool_decide (p.1 = c)) plain_escapes with
      | Some (_, v) => Some (chr_str (byte_of v), s')
      | None =>
          if decide (c = "x"%char) then '(v, rest) ← read_hex 2 0 s'; Some (chr_str (byte_of v), rest)
          else if decide (c = "u"%char ∨ c = "U"%char) then
            '(v, rest) ← read_hex (if decide (c = "u"%char) then 4 else 8) 0 s';
            if valid_rune v then Some (encode_rune v, rest) else None
          else match octal c, s' with
          | Some a, String c1 (String c2 rest) =>
              b ← octal c1; d ← octal c2;
              if a * 64 + b * 8 + d <=? 255 then Some (chr_str (byte_of (a * 64 + b * 8 + d)), rest) else None
          | _, _ => None
          end
      end
  end.
Definition unquote_char (s : string) : option (string * string) :=
  match s with
  | EmptyString => None
  | String c s' =>
      if byte_val c >=? 128 then let '(r, n) := decode_rune s in Some (encode_rune r, drop_bytes n s)
      else if decide (c = backslash_char) then unquote_escape s'
      else Some (chr_str c, s')
  end.
(** Every round takes a byte, so the length of the text is fuel enough. *)
Fixpoint unquote_go (fuel : nat) (s : string) : option string :=
  match fuel, s with
  | S fuel, String c s' =>
      if decide (c = quote_char) then if decide (s' = "") then Some "" else None
      else if decide (c = nl_char) then None
      else '(out, rest) ← unquote_char s; String.append out <$> unquote_go fuel rest
  | _, _ => None
  end.
(** On a literal that starts with a double quote. *)
Definition Unquote (s : string) : option string :=
  match s with String c s' => if decide (c = quote_char) then unquote_go (String.length s) s' else None | EmptyString => None end.

Example quoted_sample :
  Quote (λ _, true) ("a" +:+ chr_str quote_char +:+ nl +:+ chr_str "128" +:+ encode_rune 233)
  = chr_str quote_char +:+ "a\" +:+ chr_str quote_char +:+ "\n\x80" +:+ encode_rune 233 +:+ chr_str quote_char.
Proof. vm_compute. reflexivity. Qed.

(** ** UTF-8 both ways *)
Lemma byte_of_byte c : byte_of (byte_val c) = c.
Proof. destruct c as [[] [] [] [] [] [] [] []]; reflexivity. Qed.
Lemma encode_ascii r : 0 <= r < 128 → encode_rune r = chr_str (byte_of r).
Proof.
  intros Hr. unfold encode_rune, in_range. rewrite (proj2 (Z.ltb_ge r 0)), (proj2 (Z.leb_gt 55296 r)), (proj2 (Z.ltb_ge 1114111 r)), (proj2 (Z.ltb_lt r 128)) by lia. done.
Qed.
Lemma byte_at_head z s : 0 <= z < 256 → byte_at 0 (String (byte_of z) s) = z.
Proof. apply val_byte. Qed.

Lemma div64 a b : 0 <= b < 64 → (a * 64 + b) / 64 = a.
Proof. intros Hb. rewrite Z.div_add_l, Z.div_small by lia. lia. Qed.
Lemma mod64 a b : 0 <= b < 64 → (a * 64 + b) mod 64 = b.
Proof. intros Hb. by rewrite Z.add_comm, Z_mod_plus_full, Z.mod_small by lia. Qed.
Lemma encode_two a b : 2 <= a < 32 → 0 <= b < 64 → encode_rune (a * 64 + b) = String (byte_of (192 + a)) (chr_str (byte_of (128 + b))).
Proof.
  intros Ha Hb. unfold encode_rune. set (r := a * 64 + b). assert (128 <= r < 2048) by lia.
  replace ((r <? 0) || in_range 55296 57343 r || (1114111 <? r)) with false by (unfold in_range; lia).
  rewrite (proj2 (Z.ltb_ge r 128)), (proj2 (Z.ltb_lt r 2048)) by lia. unfold r. by rewrite div64, mod64 by lia.
Qed.
Lemma encode_three a b d r : r = (a * 64 + b) * 64 + d → 2048 <= r < 65536 → ¬ 55296 <= r <= 57343 → 0 <= b < 64 → 0 <= d < 64 →
  encode_rune r = String (byte_of (224 + a)) (String (byte_of (128 + b)) (chr_str (byte_of (128 + d)))).
Proof.
  intros Hr Hlo Hs Hb Hd. unfold encode_rune. replace ((r <? 0) || in_range 55296 57343 r || (1114111 <? r)) with false by (unfold in_range; lia).
  rewrite (proj2 (Z.ltb_ge r 128)), (proj2 (Z.ltb_ge r 2048)), (proj2 (Z.ltb_lt r 65536)) by lia. replace 4096 with (64 * 64) by lia.
  rewrite <-Z.div_div by lia. by rewrite Hr, !div64, !mod64 by lia.
Qed.
Lemma encode_four a b d e r : r = ((a * 64 + b) * 64 + d) * 64 + e → 65536 <= r <= 1114111 → 0 <= b < 64 → 0 <= d < 64 → 0 <= e < 64 →
  encode_rune r = String (byte_of (240 + a)) (String (byte_of (128 + b)) (String (byte_of (128 + d)) (chr_str (byte_of (128 + e))))).
Proof.
  intros Hr Hlo Hb Hd He. unfold encode_rune. replace ((r <? 0) || in_range 55296 57343 r || (1114111 <? r)) with false by (unfold in_range; lia).
  rewrite (proj2 (Z.ltb_ge r 128)), (proj2 (Z.ltb_ge r 2048)), (proj2 (Z.ltb_ge r 65536)) by lia. replace 262144 with (64 * 64 * 64) by lia. replace 4096 with (64 * 64) by lia.
  rewrite <-!Z.div_div by lia. by rewrite Hr, !div64, !mod64 by lia.
Qed.
Lemma second_range_cont b0 b : in_range (fst (second_range b0)) (snd (second_range b0)) b = true →
  128 <= b <= 191 ∧ (b0 = 224 → 160 <= b) ∧ (b0 = 237 → b <= 159) ∧ (b0 = 240 → 144 <= b) ∧ (b0 = 244 → b <= 143).
Proof. unfold second_range, in_range. repeat case_match; simpl; lia. Qed.

(** A rune that was decoded is encoded as the bytes it was decoded from. *)
Definition decoded (s : string) (r : Z) (n : nat) : Prop :=
  valid_rune r = true ∧ String.length (encode_rune r) = n ∧ ∃ rest, s = encode_rune r +:+ rest.
Lemma encode_decode c s r n : decode_rune (String c s) = (r, n) → ¬ (r = rune_error ∧ n = 1%nat) → decoded (String c s) r n.
Proof.
  intros Hd Hne. unfold decode_rune in Hd. change (byte_at 0 (String c s)) with (byte_val c) in Hd. pose proof (byte_val_range c) as Hc.
  destruct (Z.eqb_spec (byte_val c) (-1)); [lia|]. destruct (Z.ltb_spec (byte_val c) 128).
  { injection Hd as <- <-. unfold decoded. rewrite encode_ascii by lia. split; [unfold valid_rune, in_range; lia|]. split; [done|]. exists s. by rewrite byte_of_byte. }
  destruct (in_range 194 223 _) eqn:H2; [|destruct (in_range 224 239 _) eqn:H3; [|destruct (in_range 240 244 _) eqn:H4; [|by destruct Hne; injection Hd as <- <-]]].
  all: destruct (_ : bool) eqn:Hb in Hd; [|by destruct Hne; injection Hd as <- <-]; injection Hd as <- <-.
  - destruct s as [|c1 s]; [done|]. change (byte_at 1 _) with (byte_val c1) in *. pose proof (byte_val_range c1). unfold cont_byte, in_range in *.
    unfold decoded. rewrite encode_two by lia. split; [unfold valid_rune, in_range; lia|]. split; [done|]. exists s.
    replace (192 + _) with (byte_val c) by lia. replace (128 + _) with (byte_val c1) by lia. by rewrite !byte_of_byte.
  - apply andb_true_iff in Hb as [Hb1%second_range_cont Hb2]. destruct s as [|c1 [|c2 s]]; [done..|].
    change (byte_at 1 _) with (byte_val c1) in *. change (byte_at 2 _) with (byte_val c2) in *. unfold cont_byte, in_range in *.
    set (r := _ + (byte_val c2 - 128)). assert (r = ((byte_val c - 224) * 64 + (byte_val c1 - 128)) * 64 + (byte_val c2 - 128)) as Hr by (unfold r; lia).
    clearbody r. unfold decoded. rewrite (encode_three _ _ _ _ Hr) by lia. split; [unfold valid_rune, in_range; lia|]. split; [done|]. exists s.
    replace (224 + _) with (byte_val c) by lia. replace (128 + _) with (byte_val c1) by lia. replace (128 + _) with (byte_val c2) by lia. by rewrite !byte_of_byte.
  - apply andb_true_iff in Hb as [[Hb1%second_range_cont Hb2]%andb_true_iff Hb3]. destruct s as [|c1 [|c2 [|c3 s]]]; [done..|].
    change (byte_at 1 _) with (byte_val c1) in *. change (byte_at 2 _) with (byte_val c2) in *. change (byte_at 3 _) with (byte_val c3) in *. unfold cont_byte, in_range in *.
    set (r := _ + (byte_val c3 - 128)).
    assert (r = (((byte_val c - 240) * 64 + (byte_val c1 - 128)) * 64 + (byte_val c2 - 128)) * 64 + (byte_val c3 - 128)) as Hr by (unfold r; lia).
    clearbody r. unfold decoded. rewrite (encode_four _ _ _ _ _ Hr) by lia. split; [unfold valid_rune, in_range; lia|]. split; [done|]. exists s.
    replace (240 + _) with (byte_val c) by lia. replace (128 + _) with (byte_val c1) by lia. replace (128 + _) with (byte_val c2) by lia.
    replace (128 + _) with (byte_val c3) by lia. by rewrite !byte_of_byte.
Qed.
(** Decoding depends on the bytes of the rune alone. *)
Lemma decode_prefix piece s t r n : decode_rune (piece +:+ s) = (r, n) → String.length piece = n → ¬ (r = rune_error ∧ n = 1%nat) → n ≠ 0%nat →
  decode_rune (piece +:+ t) = (r, n).
Proof.
  intros Hd Hn Hne Hn0. destruct piece as [|c0 piece]; [by destruct Hn0|]. unfold decode_rune in *.
  change (byte_at 0 (String c0 piece +:+ s)) with (byte_val c0) in Hd. change (byte_at 0 (String c0 piece +:+ t)) with (byte_val c0). pose proof (byte_val_range c0).
  assert (∀ k, (S k < n)%nat → byte_at (S k) (String c0 piece +:+ s) = byte_at (S k) (String c0 piece +:+ t)) as Hb.
  { intros k Hk. rewrite !byte_at_app_lt by (cbn in *; lia). done. }
  destruct (Z.eqb_spec (byte_val c0) (-1)); [lia|]. destruct (byte_val c0 <? 128); [done|].
  destruct (in_range 194 223 _); [|destruct (in_range 224 239 _); [|destruct (in_range 240 244 _); [|by destruct Hne; injection Hd as <- <-]]].
  all: destruct (_ : bool) eqn:E in Hd; [|by destruct Hne; injection Hd as <- <-]; assert (n <> O) as _ by done.
  - injection Hd as <- <-. rewrite <-(Hb 0%nat) by lia. by rewrite E.
  - injection Hd as <- <-. rewrite <-(Hb 0%nat), <-(Hb 1%nat) by lia. by rewrite E.
  - injection Hd as <- <-. rewrite <-(Hb 0%nat), <-(Hb 1%nat), <-(Hb 2%nat) by lia. by rewrite E.
Qed.

(** ** The round trip *)
Lemma quote_go_skip print a b : quote_go print (String.length a) (a +:+ b) = quote_go print 0 b.
Proof. induction a as [|c a IH]; [done|]. exact IH. Qed.
Lemma unhex_digit d : 0 <= d < 16 → unhex (hex_digit d) = Some d.
Proof.
  intros Hd. assert (Forall (λ d, unhex (hex_digit d) = Some d) (seqZ 0 16)) as Hall by (refine (bool_decide_unpack _ _); vm_compute; reflexivity).
  rewrite Forall_forall in Hall. apply Hall, elem_of_seqZ. lia.
Qed.
Lemma read_hex_snoc n acc s v rest : read_hex n acc s = Some (v, rest) → read_hex (S n) acc s = (match rest with String c rest' => d ← unhex c; Some (v * 16 + d, rest') | EmptyString => None end).
Proof.
  revert acc s. induction n as [|n IH]; intros acc s Hr.
  - injection Hr as <- <-. cbn [read_hex]. destruct s as [|c s]; [done|]. by destruct (unhex c).
  - cbn [read_hex] in Hr. destruct s as [|c s]; [done|]. cbn [read_hex]. destruct (unhex c) as [d|]; [|done]. apply (IH _ s Hr).
Qed.
Lemma read_hex_digits n r t : 0 <= r → read_hex n 0 (hex_digits n r +:+ t) = Some (r mod 16 ^ Z.of_nat n, t).
Proof.
  revert r t. induction n as [|n IH]; intros r t Hr; [by rewrite Z.mod_1_r|]. cbn [hex_digits]. rewrite <-app_assoc_string.
  erewrite read_hex_snoc by (apply IH, Z.div_pos; lia). change ((d ← unhex (hex_digit (r mod 16)); Some (r / 16 mod 16 ^ Z.of_nat n * 16 + d, t)) = Some (r mod 16 ^ Z.of_nat (S n), t)).
  rewrite unhex_digit by (apply Z.mod_pos_bound; lia). cbn [mbind option_bind]. f_equal. f_equal.
  rewrite Nat2Z.inj_succ, Z.pow_succ_r, Z.rem_mul_r by lia. lia.
Qed.

Lemma hex_digit_free d : 0 <= d < 16 → free_of nl_char (chr_str (hex_digit d)) = true.
Proof.
  intros Hd. assert (Forall (λ d, free_of nl_char (chr_str (hex_digit d)) = true) (seqZ 0 16)) as Hall by (refine (bool_decide_unpack _ _); vm_compute; reflexivity).
  rewrite Forall_forall in Hall. apply Hall, elem_of_seqZ. lia.
Qed.
Lemma hex_digits_free n r : free_of nl_char (hex_digits n r) = true.
Proof.
  revert r. induction n as [|n IH]; intros r; [done|]. cbn [hex_digits]. unfold free_of. rewrite all_bytes_app. apply andb_true_iff.
  split; [apply IH|]. apply hex_digit_free, Z.mod_pos_bound. lia.
Qed.
Lemma high_byte_free z s : 128 <= z < 256 → free_of nl_char (String (byte_of z) s) = free_of nl_char s.
Proof.
  intros Hz. unfold free_of. cbn [all_bytes]. rewrite bool_decide_true; [done|]. intros E. apply (f_equal byte_val) in E. rewrite val_byte in E by lia.
  change (byte_val nl_char) with 10 in E. lia.
Qed.
Lemma encode_rune_free r : 128 <= r <= 1114111 → free_of nl_char (encode_rune r) = true.
Proof.
  intros Hr. pose proof (Z.mod_pos_bound r 64 eq_refl). pose proof (Z.mod_pos_bound (r / 64) 64 eq_refl). pose proof (Z.mod_pos_bound (r / 4096) 64 eq_refl).
  unfold encode_rune. destruct (_ || _) eqn:Hs; [by vm_compute|]. rewrite (proj2 (Z.ltb_ge r 128)) by lia.
  destruct (Z.ltb_spec r 2048); [|destruct (Z.ltb_spec r 65536)]; rewrite !high_byte_free; try done; try lia;
    (split; [apply Z.le_trans with 192; [lia|]|]; Z.to_euclidean_division_equations; lia).
Qed.
(** The text of one rune, and what it is read back as. *)
Definition reads (text piece : string) : Prop :=
  ((∃ c text', text = String c text' ∧ c ≠ quote_char ∧ c ≠ nl_char) ∧ free_of nl_char text = true) ∧ ∀ t, unquote_char (text +:+ t) = Some (piece, t).
Lemma reads_ascii print r : 0 <= r < 128 → reads (escape_rune print r) (encode_rune r).
Proof.
  intros Hr. assert (Forall (λ r, reads (escape_rune print r) (encode_rune r)) (seqZ 0 128)) as Hall.
  { repeat (constructor; [split; [split; [eexists _, _; split; [reflexivity|split; discriminate]|reflexivity]|intros t; reflexivity]|]). constructor. }
  rewrite Forall_forall in Hall. apply Hall, elem_of_seqZ. lia.
Qed.
Lemma reads_byte c : reads (escaped "x" +:+ hex_digits 2 (byte_val c)) (chr_str c).
Proof.
  split; [split; [eexists _, _; split; [reflexivity|split; discriminate]|exact (hex_digits_free 2 (byte_val c))]|]. intros t. pose proof (byte_val_range c).
  change (unquote_char _) with ('(v, rest) ← read_hex 2 0 (hex_digits 2 (byte_val c) +:+ t); Some (chr_str (byte_of v), rest)).
  rewrite read_hex_digits by lia. cbn. rewrite Z.mod_small by lia. by rewrite byte_of_byte.
Qed.
Lemma reads_long r : valid_rune r = true → 128 <= r → reads (if r <? 65536 then escaped "u" +:+ hex_digits 4 r else escaped "U" +:+ hex_digits 8 r) (encode_rune r).
Proof.
  intros Hv Hr. assert (r <= 1114111) by (unfold valid_rune, in_range in Hv; lia).
  destruct (Z.ltb_spec r 65536); (split; [split; [eexists _, _; split; [reflexivity|split; discriminate]|first [exact (hex_digits_free 4 r)|exact (hex_digits_free 8 r)]]|]; intros t).
  - change (unquote_char _) with ('(v, rest) ← read_hex 4 0 (hex_digits 4 r +:+ t); if valid_rune v then Some (encode_rune v, rest) else None).
    rewrite read_hex_digits by lia. cbn. rewrite Z.mod_small by lia. by rewrite Hv.
  - change (unquote_char _) with ('(v, rest) ← read_hex 8 0 (hex_digits 8 r +:+ t); if valid_rune v then Some (encode_rune v, rest) else None).
    rewrite read_hex_digits by lia. cbn. rewrite Z.mod_small by lia. by rewrite Hv.
Qed.
Lemma escape_rune_long print r : 128 <= r → escape_rune print r = if print r then encode_rune r else if r <? 65536 then escaped "u" +:+ hex_digits 4 r else escaped "U" +:+ hex_digits 8 r.
Proof.
  intros Hr. unfold escape_rune, named_escapes. cbn [List.find fst].
  assert (∀ k, (r =? k) = bool_decide (r = k) ∧ (k =? r) = bool_decide (r = k)) as Hk by (intros k; split; case_bool_decide; lia).
  rewrite !(λ k, proj1 (Hk k)), !(λ k, proj2 (Hk k)). rewrite !bool_decide_false by lia.
  by rewrite (proj2 (Z.ltb_ge r 128)), (proj2 (Z.ltb_ge r 32)) by lia.
Qed.
Lemma reads_rune print c s r n : decode_rune (String c s) = (r, n) → ¬ (r = rune_error ∧ n = 1%nat) → reads (escape_rune print r) (encode_rune r).
Proof.
  intros Hd Hne. destruct (encode_decode _ _ _ _ Hd Hne) as (Hv & Hn & rest & Hs). destruct (decide (r < 128)).
  { apply reads_ascii. unfold valid_rune, in_range in Hv. lia. }
  rewrite escape_rune_long by lia. destruct (print r); [|by apply reads_long; [|lia]].
  assert (∃ c' p, encode_rune r = String c' p ∧ 128 <= byte_val c') as (c' & p & Hp & Hc').
  { destruct (encode_rune r) as [|c' p] eqn:E. { cbn in Hn. subst n. exfalso. unfold decode_rune in Hd. repeat case_match; simplify_eq. }
    exists c', p. split; [done|]. injection Hs as <- _. destruct (is_ascii c) eqn:Ha; [|unfold is_ascii in Ha; lia].
    rewrite decode_rune_ascii in Hd by done. injection Hd as <- <-. unfold is_ascii in Ha. lia. }
  split.
  - split; [exists c', p; split; [done|]; split; intros ->; by vm_compute in Hc'|]. apply encode_rune_free. unfold valid_rune, in_range in Hv. lia.
  - intros t. rewrite Hs in Hd. assert (decode_rune (encode_rune r +:+ t) = (r, n)) as Hd'.
    { eapply decode_prefix; [exact Hd|done|done|]. intros ->. by rewrite Hp in Hn. }
    assert (unquote_char (encode_rune r +:+ t) = let '(r', k) := decode_rune (encode_rune r +:+ t) in Some (encode_rune r', drop_bytes k (encode_rune r +:+ t))) as ->.
    { rewrite Hp, app_cons_string. unfold unquote_char. rewrite (proj2 (Z.geb_le (byte_val c') 128)) by lia.
      done. }
    rewrite Hd', <-Hn. by rewrite drop_bytes_app.
Qed.

Lemma quote_step print c s : ∃ piece rest text, String c s = piece +:+ rest ∧ piece ≠ "" ∧ quote_go print 0 (String c s) = text +:+ quote_go print 0 rest ∧ reads text piece.
Proof.
  cbn [quote_go]. destruct (decode_rune (String c s)) as [r n] eqn:Hd. destruct ((r =? rune_error) && bool_decide (n = 1%nat)) eqn:He.
  - exists (chr_str c), s, (escaped "x" +:+ hex_digits 2 (byte_val c)). split_and!; [done..|by rewrite <-app_assoc_string|apply reads_byte].
  - assert (¬ (r = rune_error ∧ n = 1%nat)) as Hne by (intros [-> ->]; by rewrite bool_decide_true in He).
    destruct (encode_decode _ _ _ _ Hd Hne) as (Hv & Hn & rest & Hs). exists (encode_rune r), rest, (escape_rune print r).
    assert (encode_rune r ≠ "") as Hp. { intros E. rewrite E in Hn. cbn in Hn. subst n. unfold decode_rune in Hd. repeat case_match; simplify_eq. }
    split_and!; [done..| |by eapply reads_rune]. f_equal. destruct (encode_rune r) as [|c' p]; [done|]. injection Hs as <- ->. cbn in Hn. subst n.
    cbn [Nat.sub]. rewrite Nat.sub_0_r. apply quote_go_skip.
Qed.
Lemma unquote_quote_go print m s fuel : (String.length s <= m)%nat → (String.length (quote_go print 0 s) < fuel)%nat →
  unquote_go fuel (quote_go print 0 s +:+ chr_str quote_char) = Some s.
Proof.
  revert s fuel. induction m as [|m IH]; intros s fuel Hm Hf; (destruct fuel as [|fuel]; [lia|]); (destruct s as [|c s]; [done|]); [cbn in Hm; lia|].
  destruct (quote_step print c s) as (piece & rest & text & Hs & Hp & Hq & ((c' & text' & -> & Hc1 & Hc2) & _) & Hread). rewrite Hq in *. rewrite Hs in *.
  rewrite <-app_assoc_string, app_cons_string. cbn [unquote_go]. rewrite !decide_False by done. rewrite <-app_cons_string, Hread. cbn [mbind option_bind].
  rewrite IH; [done|..].
  - rewrite length_app_string in Hm. destruct piece; [done|]. cbn in Hm. lia.
  - rewrite length_app_string in Hf. cbn in Hf. lia.
Qed.
(** Whatever the table of printable runes is. *)
Lemma Unquote_Quote print s : Unquote (Quote print s) = Some s.
Proof.
  unfold Unquote, Quote. change (chr_str quote_char +:+ ?t) with (String quote_char t). cbv beta iota. rewrite decide_True by done.
  apply (unquote_quote_go print (String.length s)); [done|]. cbn [String.length]. rewrite length_app_string. cbn. lia.
Qed.

Lemma quote_go_free print m s : (String.length s <= m)%nat → free_of nl_char (quote_go print 0 s) = true.
Proof.
  revert s. induction m as [|m IH]; intros s Hm; (destruct s as [|c s]; [done|]); [cbn in Hm; lia|].
  destruct (quote_step print c s) as (piece & rest & text & Hs & Hp & Hq & [_ Hf] & _). rewrite Hq. unfold free_of in *. rewrite all_bytes_app, Hf. apply IH.
  rewrite Hs, length_app_string in Hm. destruct piece; [done|]. cbn in Hm. lia.
Qed.
Lemma Quote_free print s : free_of nl_char (Quote print s) = true.
Proof. unfold Quote. pose proof (quote_go_free print _ s (le_n _)) as Hq. unfold free_of in *. by rewrite !all_bytes_app, Hq. Qed.
