(* ===== verification/GoNet.v ===== *)
(** * [net.ParseIP]

    The callers only ask whether a text is an IP address; a zone ([%eth0]) makes
    it none. *)
From S2P Require Import Prelude Unicode GoStrings GoStrconv.

(** A field of a dotted address: digits without a leading zero, at most 255. *)
Definition octet_ok (s : string) : bool :=
  match s with
  | EmptyString => false
  | String c rest => all_bytes is_digit s && (bool_decide (rest = "") || negb (bool_decide (c = "0"%char)))
      && match parse_nat s with Some v => (v <=? 255)%Z | None => false end
  end.
Definition ipv4_ok (s : string) : bool := let l := split "."%char s in bool_decide (length l = 4) && forallb octet_ok l.

Definition is_hex_digit (c : ascii) : bool :=
  let b := byte_val c in in_range 48 57 b || in_range 97 102 b || in_range 65 70 b.
(** The number of leading hexadecimal digits. *)
Fixpoint hex_run (s : string) : nat :=
  match s with String c s' => if is_hex_digit c then S (hex_run s') else 0 | EmptyString => 0 end.
(** The loop of the parser: [bytes] of the address are filled, [ellipsis] says
    whether [::] was seen.  A group takes two bytes, so eight rounds are enough. *)
Fixpoint ipv6_loop (fuel bytes : nat) (ellipsis : bool) (s : string) : bool :=
  let finish bytes ellipsis s := bool_decide (s = "") && (if bool_decide (bytes < 16) then ellipsis else negb ellipsis) in
  match fuel with
  | O => finish bytes ellipsis s
  | S fuel =>
      let off := hex_run s in
      let rest := drop_bytes off s in
      if bool_decide (off = 0 ∨ 4 < off) then false
      else match rest with
      | EmptyString => finish (bytes + 2) ellipsis ""
      | String c rest' =>
          if decide (c = "."%char) then
            (ellipsis || bool_decide (bytes = 12)) && bool_decide (bytes + 4 ≤ 16) && ipv4_ok s && finish (bytes + 4) ellipsis ""
          else if decide (c = ":"%char) then
            match rest' with
            | EmptyString => false
            | String c' rest'' =>
                if decide (c' = ":"%char) then
                  if ellipsis then false
                  else if decide (rest'' = "") then finish (bytes + 2) true "" else ipv6_loop fuel (bytes + 2) true rest''
                else ipv6_loop fuel (bytes + 2) ellipsis rest'
            end
          else false
      end
  end.
Definition ipv6_ok (s : string) : bool :=
  match s with
  | String ":" (String ":" rest) => if decide (rest = "") then true else ipv6_loop 8 0 true rest
  | _ => ipv6_loop 8 0 false s
  end.
(** The first of a dot, a colon and a percent sign decides. *)
Fixpoint first_mark (s : string) : option ascii :=
  match s with
  | EmptyString => None
  | String c s' => if decide (c = "."%char ∨ c = ":"%char ∨ c = "%"%char) then Some c else first_mark s'
  end.
Definition ParseIP (s : string) : bool :=
  match first_mark s with
  | Some c => if decide (c = "."%char) then ipv4_ok s else if decide (c = ":"%char) then negb (contains_byte "%"%char s) && ipv6_ok s else false
  | None => false
  end.

Example addresses :
  ParseIP <$> ["0.0.0.0"; "::"; "::1"; "127.0.0.1"; "fe80::1"; "1:2:3:4:5:6:7:8"; "::ffff:10.0.0.1"; "1:2:3:4:5:6:1.2.3.4"] = replicate 8 true
  ∧ ParseIP <$> [""; "localhost"; "1.2.3"; "01.2.3.4"; "256.1.1.1"; "1::2::3"; "1:2:3:4:5:6:7"; "1:2:3:4:5:6:7::8"; "fe80::1%eth0"; "::ffff:1.2.3.4.5"; "1:"; "1.2.3.4."] = replicate 12 false.
Proof. split; vm_compute; reflexivity. Qed.

(** An address is a word: it has no white space. *)
Definition address_byte (c : ascii) : bool := is_hex_digit c || bool_decide (c = "."%char ∨ c = ":"%char).
