(* ===== verification/GoTime.v ===== *)
(** * [time.Time] as the storage layer uses it

    A time is a number of nanoseconds since the Unix epoch, in UTC.  The tables
    hold it as text in the layout [time.RFC3339Nano], whose fraction has no
    trailing zeroes and is left out when it is zero. *)
From S2P Require Import Prelude Unicode GoStrings.
Local Open Scope Z_scope.

Definition second : Z := 10 ^ 9.
Definition hour : Z := 3600 * second.
(** The zero time, the first of January of the year 1. *)
Definition time_zero : Z := -62135596800 * second.

(** The civil date of a number of days since the epoch. *)
Definition civil (days : Z) : Z * Z * Z :=
  let z := days + 719468 in
  let era := z / 146097 in
  let doe := z `mod` 146097 in
  let yoe := (doe - doe / 1460 + doe / 36524 - doe / 146096) / 365 in
  let doy := doe - (365 * yoe + yoe / 4 - yoe / 100) in
  let mp := (5 * doy + 2) / 153 in
  let d := doy - (153 * mp + 2) / 5 + 1 in
  let m := if mp <? 10 then mp + 3 else mp - 9 in
  (yoe + era * 400 + (if m <=? 2 then 1 else 0), m, d).

Definition digit_char (z : Z) : ascii := byte_of (48 + z `mod` 10).
(** [n] digits of [z]. *)
Fixpoint padded (n : nat) (z : Z) : string :=
  match n with O => "" | S n' => padded n' (z / 10) +:+ chr_str (digit_char z) end.

Fixpoint trim_zeroes (s : string) : string :=
  match s with
  | "" => ""
  | String c s' => match trim_zeroes s' with "" => if decide (c = "0"%char) then "" else String c "" | t => String c t end
  end.
Definition fraction (nanos : Z) : string :=
  match trim_zeroes (padded 9 nanos) with "" => "" | t => String "." t end.

(** [t.UTC().Format(time.RFC3339Nano)], for a year of four digits. *)
Definition rfc3339nano (t : Z) : string :=
  let seconds := t / second in
  let '(y, m, d) := civil (seconds / 86400) in
  let s := seconds `mod` 86400 in
  padded 4 y +:+ "-" +:+ padded 2 m +:+ "-" +:+ padded 2 d +:+ "T"
  +:+ padded 2 (s / 3600) +:+ ":" +:+ padded 2 (s `mod` 3600 / 60) +:+ ":" +:+ padded 2 (s `mod` 60)
  +:+ fraction (t `mod` second) +:+ "Z".

Example rfc3339nano_epoch : rfc3339nano 0 = "1970-01-01T00:00:00Z".
Proof. by vm_compute. Qed.
Example rfc3339nano_fraction : rfc3339nano 1709164799120000000 = "2024-02-28T23:59:59.12Z".
Proof. by vm_compute. Qed.
Example rfc3339nano_leap : rfc3339nano (1709164800 * second) = "2024-02-29T00:00:00Z".
Proof. by vm_compute. Qed.
Example rfc3339nano_zero : rfc3339nano time_zero = "0001-01-01T00:00:00Z".
Proof. by vm_compute. Qed.

(** ** Lemmas *)
Lemma trim_zeroes_nil s : trim_zeroes s = "" → all_bytes (λ c, bool_decide (c = "0"%char)) s = true.
Proof.
  induction s as [|c s IH]; [done|]. cbn [trim_zeroes all_bytes]. destruct (trim_zeroes s); [|done].
  destruct (decide (c = "0"%char)) as [->|]; [|done]. intros _. by rewrite IH.
Qed.

Lemma digit_char_zero z : digit_char z = "0"%char → z `mod` 10 = 0.
Proof.
  intros H. unfold digit_char, byte_of in H. pose proof (Z.mod_pos_bound z 10 ltac:(lia)) as Hz.
  assert (Forall (λ d, ascii_of_N (Z.to_N ((48 + d) `mod` 256)) = "0"%char → d = 0) (seqZ 0 10)) as Hall by (by repeat constructor).
  rewrite Forall_forall in Hall. apply Hall; [|done]. apply elem_of_seqZ. lia.
Qed.

Lemma padded_zero n z : all_bytes (λ c, bool_decide (c = "0"%char)) (padded n z) = true → z `mod` 10 ^ Z.of_nat n = 0.
Proof.
  revert z. induction n as [|n IH]; intros z; [by rewrite Z.mod_1_r|]. cbn [padded]. rewrite all_bytes_app.
  intros [H1 H2]%andb_true_iff. apply IH in H1. cbn in H2. rewrite andb_true_r in H2. apply bool_decide_eq_true, digit_char_zero in H2.
  rewrite Nat2Z.inj_succ, Z.pow_succ_r by lia. rewrite Z.rem_mul_r, H2, H1 by lia. done.
Qed.

Lemma fraction_dot nanos : 0 < nanos < second → ∃ t, fraction nanos = String "." t.
Proof.
  intros Hn. unfold fraction. destruct (trim_zeroes (padded 9 nanos)) eqn:E; [|eauto].
  apply trim_zeroes_nil, padded_zero in E. change (10 ^ Z.of_nat 9) with second in E. rewrite Z.mod_small in E by lia. lia.
Qed.

Lemma string_less_app p a b : string_less (p +:+ a) (p +:+ b) = string_less a b.
Proof.
  induction p as [|c p IH]; [done|]. rewrite !app_cons_string, <-IH. unfold string_less, String.ltb. cbn.
  unfold Ascii.compare. by rewrite N.compare_refl.
Qed.

(** A whole second comes after every fraction of itself. *)
Lemma rfc3339nano_boundary t nanos : t `mod` second = 0 → 0 < nanos < second →
  string_less (rfc3339nano (t + nanos)) (rfc3339nano t) = true.
Proof.
  intros Ht Hn. destruct (fraction_dot nanos Hn) as [f Hf]. unfold rfc3339nano.
  assert ((t + nanos) / second = t / second) as ->.
  { pose proof (Z.div_mod t second ltac:(done)). symmetry. apply Z.div_unique with nanos; lia. }
  assert ((t + nanos) `mod` second = nanos) as ->.
  { pose proof (Z.div_mod t second ltac:(done)). symmetry. apply Z.mod_unique with (t / second); lia. }
  rewrite Ht, Hf. cbv zeta. destruct (civil _) as [[y m] d]. rewrite !string_less_app. done.
Qed.
