(* ===== verification/GoJson.v ===== *)
(** * The encoder of Go's [encoding/json]

    [json.Marshal] and [json.MarshalIndent] on the values the code encodes:
    the fields of a struct in their order, a nil slice as [null], strings with
    the escapes of the encoder (HTML characters, U+2028 and U+2029, malformed
    UTF-8 as U+FFFD).  No number of the code has a fraction. *)
From S2P Require Import Prelude Unicode GoStrings GoStrconv Sha256.

#[local] Set Warnings "-register-all".
Inductive json :=
  | JNull | JBool (b : bool) | JNumber (z : Z) | JString (s : string) | JArray (l : list json) | JObject (l : list (string * json)).

(** ** Strings *)
Definition backslash : ascii := "\".
Definition unicode_escape (hex : string) : string := String backslash ("u" +:+ hex).
Definition escape_byte (c : ascii) : string :=
  let b := byte_val c in
  if decide (c = quote_char ∨ c = backslash) then String backslash (chr_str c)
  else if (b =? 8)%Z then String backslash "b" else if (b =? 12)%Z then String backslash "f"
  else if (b =? 10)%Z then String backslash "n" else if (b =? 13)%Z then String backslash "r" else if (b =? 9)%Z then String backslash "t"
  else if (b <? 32)%Z || bool_decide (c = "<"%char ∨ c = ">"%char ∨ c = "&"%char) then unicode_escape ("00" +:+ hex_encode [b])
  else chr_str c.
(** [skip] bytes of the current rune are left, which are copied or dropped. *)
Fixpoint escape_go (copy : bool) (skip : nat) (s : string) : string :=
  match s with
  | EmptyString => ""
  | String c s' =>
      match skip with
      | S skip => (if copy then chr_str c else "") +:+ escape_go copy skip s'
      | O =>
          if (byte_val c <? 128)%Z then escape_byte c +:+ escape_go true 0 s'
          else
            let '(r, n) := decode_rune s in
            if (r =? rune_error)%Z && bool_decide (n = 1) then unicode_escape "fffd" +:+ escape_go true 0 s'
            else if (r =? 8232)%Z then unicode_escape "2028" +:+ escape_go false (n - 1) s'
            else if (r =? 8233)%Z then unicode_escape "2029" +:+ escape_go false (n - 1) s'
            else chr_str c +:+ escape_go true (n - 1) s'
      end
  end.
Definition json_string (s : string) : string := chr_str quote_char +:+ escape_go true 0 s +:+ chr_str quote_char.

(** ** Values *)
Fixpoint marshal (v : json) : string :=
  match v with
  | JNull => "null"
  | JBool b => if b then "true" else "false"
  | JNumber z => itoa z
  | JString s => json_string s
  | JArray l => "[" +:+ join "," ((fix go l := match l with [] => [] | v :: l => marshal v :: go l end) l) +:+ "]"
  | JObject l => "{" +:+ join "," ((fix go l := match l with [] => [] | (k, v) :: l => (json_string k +:+ ":" +:+ marshal v) :: go l end) l) +:+ "}"
  end.

(** [json.MarshalIndent(v, "", indent)]; [margin] is the line break of the
    enclosing level. *)
Definition bracketed (opening closing margin inner : string) (parts : list string) : string :=
  match parts with [] => opening +:+ closing | _ => opening +:+ inner +:+ join ("," +:+ inner) parts +:+ margin +:+ closing end.
Fixpoint marshal_indent (indent margin : string) (v : json) : string :=
  let inner := margin +:+ indent in
  match v with
  | JArray l => bracketed "[" "]" margin inner ((fix go l := match l with [] => [] | v :: l => marshal_indent indent inner v :: go l end) l)
  | JObject l => bracketed "{" "}" margin inner
      ((fix go l := match l with [] => [] | (k, v) :: l => (json_string k +:+ ": " +:+ marshal_indent indent inner v) :: go l end) l)
  | v => marshal v
  end.
Definition MarshalIndent (indent : string) (v : json) : string := marshal_indent indent nl v.

(** Struct fields, with [omitempty] where the value is empty. *)
Definition field (k : string) (v : json) : list (string * json) := [(k, v)].
Definition omit_string (k s : string) : list (string * json) := if decide (s = "") then [] else [(k, JString s)].
Definition omit_false (k : string) (b : bool) : list (string * json) := if b then [(k, JBool true)] else [].
Definition omit_zero (k : string) (z : Z) : list (string * json) := if decide (z = 0)%Z then [] else [(k, JNumber z)].
(** A slice made with [append([]T(nil), ...)] is nil when it is empty. *)
Definition nil_slice {A} (f : A → json) (l : list A) : json := match l with [] => JNull | _ => JArray (f <$> l) end.

Example marshal_sample :
  marshal (JObject [("a", JArray [JNumber (-3); JNull; JBool true]); ("b", JString ("x<" +:+ nl +:+ chr_str "128"))])
  = "{" +:+ chr_str quote_char +:+ "a" +:+ chr_str quote_char +:+ ":[-3,null,true]," +:+ chr_str quote_char +:+ "b" +:+ chr_str quote_char
    +:+ ":" +:+ chr_str quote_char +:+ "x\u003c\n\ufffd" +:+ chr_str quote_char +:+ "}".
Proof. vm_compute. reflexivity. Qed.
