(* ===== verification/Passwd.v ===== *)
(** * Password files: [internal/mosquitto/passwd.go], and what the deploy preview shows of them

    Rendering and parsing of the password file of the broker, the user names
    that [internal/storage/mqtt_users.go] accepts, and the redaction of
    [internal/deploy/service.go].  The key derivation and the random salt are
    not in the sources and are left to the section that uses them. *)
From S2P Require Import Prelude Unicode GoStrings GoStrconv.

(** ** [passwd.go] *)
Record PasswdEntry := mkPasswd { pe_username : string; pe_hash : string }.

Definition by_username (a b : PasswdEntry) : bool := string_less (pe_username a) (pe_username b).
Definition passwd_line (e : PasswdEntry) : string := pe_username e +:+ ":" +:+ pe_hash e +:+ nl.
(** [sort.Slice] is not stable; the order of two entries of the same user is the
    one of a stable sort here. *)
Definition RenderPasswdFile (entries : list PasswdEntry) : string :=
  join "" (passwd_line <$> sort_stable by_username entries).

Definition parse_passwd_line (raw : string) : option PasswdEntry :=
  let line := trim_space raw in
  if decide (line = "") then None
  else if has_prefix "#" line then None
  else match cut_at ":" line with
  | Some (username, hash) =>
      if decide (username = "" ∨ hash = "") then None else Some (mkPasswd (trim_space username) (trim_space hash))
  | None => None
  end.
Definition ParsePasswdFile (body : string) : list PasswdEntry :=
  if decide (body = "") then [] else omap parse_passwd_line (split nl_char body).

(** ** [ValidateMQTTUsername] *)
Inductive username_problem := UsernameRequired | UsernameControl.
Definition ValidateMQTTUsername (username : string) : list username_problem :=
  (if decide (trim_space username = "") then [UsernameRequired] else [])
  ++ (if contains_control username then [UsernameControl] else []).

(** ** Redaction *)

(** The class [\s] of the regular expressions. *)
Definition re_space (c : ascii) : bool := bool_decide (c ∈ [tab_char; nl_char; "012"%char; cr_char; space_char]).

(** The longest prefix without white space, and the rest. *)
Fixpoint span_word (s : string) : string * string :=
  match s with
  | EmptyString => ("", "")
  | String c s' => if re_space c then ("", s) else let r := span_word s' in (String c r.1, r.2)
  end.

(** [(?:\$7\$|\$2[abxy\$])[^\s]+]: one more character after the prefix. *)
Definition supported_hash (hash : string) : bool :=
  match hash with
  | String d (String "7" (String e (String _ _))) => bool_decide (d = "$"%char) && bool_decide (e = "$"%char)
  | String d (String "2" (String e (String _ _))) => bool_decide (d = "$"%char) && bool_decide (e ∈ ["a"; "b"; "x"; "y"; "$"]%char)
  | _ => false
  end.

(** [supportedPasswdHashRe.FindStringSubmatch]: the user name and the hash. *)
Definition match_passwd_line (line : string) : option (string * string) :=
  match cut_at ":" line with
  | Some (username, rest) =>
      let '(hash, blank) := span_word rest in
      if negb (bool_decide (username = "")) && all_bytes (λ c, negb (re_space c)) username
         && supported_hash hash && all_bytes re_space blank
      then Some (username, hash) else None
  | None => None
  end.

Definition passwdHashMetadata (hash : string) : string * string :=
  if has_prefix "$7$" hash then
    ("$7$", match cut_at "$" (drop_bytes 3 hash) with Some (a, _) => "$7$" +:+ a +:+ "$" | None => "$7$" end)
  else
    let algorithm := if has_prefix "$2$" hash then "$2$" else take_bytes 4 hash in
    (algorithm,
     match cut_at "$" (drop_bytes (String.length algorithm) hash) with
     | Some (a, _) => algorithm +:+ a +:+ "$"
     | None => algorithm
     end).

Definition redact_line (line : string) : string :=
  match match_passwd_line line with
  | None => line
  | Some (username, hash) =>
      let '(algorithm, prefix) := passwdHashMetadata hash in
      username +:+ ":REDACTED  algo=" +:+ algorithm +:+ "  hash_len=" +:+ itoa (Z.of_nat (String.length hash))
        +:+ "  prefix=" +:+ prefix
  end.

Definition redactPasswdHashes (body : string) : string :=
  let lines := split nl_char body in
  if decide (last lines = Some "") then join nl (redact_line <$> removelast lines) +:+ nl
  else join nl (redact_line <$> lines).

(** ** [summarizeChanges] *)
Definition parsePasswdUsers (body : string) : gmap string string :=
  foldl (λ m x, <[x.1 := x.2]> m) ∅ (omap match_passwd_line (split nl_char body)).

Definition parse_topic_line (raw : string) : option string :=
  let line := trim_space raw in
  if decide (line = "") then None
  else if has_prefix "#" line then None
  else match fields line with
  | kw :: arg :: rest =>
      if decide (kw = "topic" ∨ kw = "pattern") then Some (join " " (kw :: arg :: rest)) else None
  | _ => None
  end.
Definition parseACLTopics (body : string) : gset string := list_to_set (omap parse_topic_line (split nl_char body)).

Record ChangeSummary := mkSummary {
  cs_users_added : nat; cs_users_removed : nat; cs_users_rotated : nat; cs_passwd_changes : bool;
  cs_topics_added : nat; cs_topics_removed : nat; cs_acl_changes : bool
}.

(** The loop over the current users: the rendered users that are left, and the
    two counters. *)
Definition user_step (st : gmap string string * nat * nat) (kv : string * string) : gmap string string * nat * nat :=
  let '(rendered, removed, rotated) := st in
  match rendered !! kv.1 with
  | None => (rendered, S removed, rotated)
  | Some hash => (delete kv.1 rendered, removed, if decide (hash = kv.2) then rotated else S rotated)
  end.
Definition topic_step (st : gset string * nat) (t : string) : gset string * nat :=
  (st.1 ∖ {[t]}, if decide (t ∈ st.1) then st.2 else S st.2).

Definition summarizeChanges (currentPasswd renderedPasswd currentACL renderedACL : string) : ChangeSummary :=
  let '(users, removed, rotated) :=
    foldl user_step (parsePasswdUsers renderedPasswd, 0, 0) (map_to_list (parsePasswdUsers currentPasswd)) in
  let '(topics, gone) := foldl topic_step (parseACLTopics renderedACL, 0) (elements (parseACLTopics currentACL)) in
  mkSummary (size users) removed rotated (0 <? size users + removed + rotated)
    (size topics) gone (0 <? size topics + gone).

(** ** Lemmas *)
(** White space before the first word is removed, so what is left alone does
    not start with any. *)
Lemma trim_left_length k s : String.length (trim_left_go k s) ≤ String.length s.
Proof.
  revert k. induction s as [|c s IH]; intros k; cbn [trim_left_go String.length]; [done|].
  destruct k as [|k]; [destruct (is_space _)|]; cbn [String.length]; try lia; (etrans; [apply IH|lia]).
Qed.

Lemma trim_right_length s : String.length (trim_right_space s) ≤ String.length s.
Proof. induction s as [|c s IH]; [done|]. cbn [trim_right_space]. destruct (all_space (String c s)); cbn [String.length]; lia. Qed.

Lemma trim_space_start c s : trim_space (String c s) = String c s → is_space (fst (decode_rune (String c s))) = false.
Proof.
  intros H. destruct (is_space _) eqn:E; [|done]. exfalso. apply (f_equal String.length) in H.
  pose proof (trim_right_length (trim_left_space (String c s))) as H1. unfold trim_space in H.
  unfold trim_left_space in *. cbn [trim_left_go] in *. rewrite E in *.
  pose proof (trim_left_length (pred (decode_rune (String c s)).2) s) as H2. cbn [String.length] in H. lia.
Qed.

Lemma trim_left_keep a c b : a ≠ "" → trim_space a = a → is_ascii c = true →
  trim_left_space (a +:+ String c b) = a +:+ String c b.
Proof.
  destruct a as [|x a]; [done|]. intros _ Ht Hc. apply trim_space_start in Ht. rewrite app_cons_string.
  apply trim_left_no_space. by rewrite decode_rune_app by by apply no_cont_byte.
Qed.

Lemma trim_space_keep a c b : a ≠ "" → trim_space a = a → is_ascii c = true → b ≠ "" → no_space b = true →
  trim_space (a +:+ String c b) = a +:+ String c b.
Proof. intros. unfold trim_space. rewrite trim_left_keep by done. by apply trim_right_app. Qed.

(** A name as the store keeps it: accepted, and trimmed. *)
Definition accepted_username (u : string) : Prop := ValidateMQTTUsername u = [] ∧ trim_space u = u.
Definition is_hash (h : string) : Prop := h ≠ "" ∧ no_space h = true.
Definition passwd_text (e : PasswdEntry) : string := pe_username e +:+ ":" +:+ pe_hash e.

Lemma accepted_spec u : accepted_username u → u ≠ "" ∧ trim_space u = u ∧ free_of nl_char u = true.
Proof.
  unfold accepted_username, ValidateMQTTUsername. intros [Hv Ht].
  destruct (decide (trim_space u = "")) as [|Hne]; [done|]. destruct (contains_control u) eqn:Hc; [done|].
  split; [congruence|]. split; [done|]. unfold contains_control in Hc.
  apply (free_of_runes is_control nl_char 0); [done|done| |apply mid_rune_0].
  fold (runes u). apply forallb_forall. intros r Hr. apply negb_true_iff. destruct (is_control r) eqn:E; [|done].
  assert (existsb is_control (runes u) = true) as Hex by (apply existsb_exists; by exists r). congruence.
Qed.

Lemma hash_free h : no_space h = true → free_of nl_char h = true.
Proof. intros H. by apply (free_of_runes is_space nl_char 0); [| | |apply mid_rune_0]. Qed.

Lemma join_empty_cons x l : join "" (x :: l) = x +:+ join "" l.
Proof. destruct l as [|y l]; [symmetry; apply app_nil_r_string|done]. Qed.

Lemma split_lines texts : Forall (λ t, free_of nl_char t = true) texts →
  split nl_char (join "" ((λ t, t +:+ nl) <$> texts)) = texts ++ [""].
Proof.
  induction 1 as [|t texts Ht _ IH]; [done|]. rewrite fmap_cons, join_empty_cons, <-app_assoc_string.
  change (nl +:+ ?x) with (String nl_char x). rewrite split_app by done. by rewrite IH.
Qed.

Lemma render_passwd_texts es :
  RenderPasswdFile es = join "" ((λ t, t +:+ nl) <$> (passwd_text <$> sort_stable by_username es)).
Proof.
  unfold RenderPasswdFile. f_equal. rewrite <-list_fmap_compose. apply list_fmap_ext. intros i e _. cbn.
  unfold passwd_line, passwd_text. by rewrite <-!app_assoc_string.
Qed.

Lemma passwd_text_free e : accepted_username (pe_username e) → free_of nl_char (pe_hash e) = true →
  free_of nl_char (passwd_text e) = true.
Proof.
  intros (_ & _ & Hu)%accepted_spec Hh. unfold free_of in *. unfold passwd_text. rewrite !all_bytes_app, Hu, Hh. done.
Qed.

Lemma parse_passwd_text e : accepted_username (pe_username e) → free_of ":" (pe_username e) = true →
  has_prefix "#" (pe_username e) = false → is_hash (pe_hash e) → parse_passwd_line (passwd_text e) = Some e.
Proof.
  destruct e as [u h]. cbn [pe_username pe_hash]. intros (Hu & Ht & _)%accepted_spec Hc Hp [Hh Hn].
  unfold parse_passwd_line, passwd_text. cbn [pe_username pe_hash]. cbv zeta.
  change (":" +:+ h) with (String ":" h). rewrite trim_space_keep by done. change "#" with (chr_str "#").
  rewrite has_prefix_byte, cut_at_free by done. change (chr_str "#") with "#". rewrite Hp.
  rewrite decide_False by by destruct u. rewrite decide_False by tauto. by rewrite Ht, (trim_space_word h).
Qed.

Lemma omap_texts (l : list PasswdEntry) : Forall (λ e, parse_passwd_line (passwd_text e) = Some e) l →
  omap parse_passwd_line ((passwd_text <$> l) ++ [""]) = l.
Proof. induction 1 as [|e l He _ IH]; [done|]. rewrite fmap_cons. cbn. by rewrite He, IH. Qed.

(** The order of the rendered entries. *)
Lemma sort_insert_Forall2 {A} (less : A → A → bool) (R : A → A → Prop) x x' l l' :
  (∀ a a' b b', R a a' → R b b' → less a b = less a' b') → R x x' → Forall2 R l l' →
  Forall2 R (sort_insert less x l) (sort_insert less x' l').
Proof.
  intros HR Hx. induction 1 as [|y y' l l' Hy Hl IH]; cbn [sort_insert]; [by repeat constructor|].
  rewrite (HR y y' x x') by done. destruct (less y' x'); by repeat constructor.
Qed.

Lemma sort_stable_Forall2 {A} (less : A → A → bool) (R : A → A → Prop) l l' :
  (∀ a a' b b', R a a' → R b b' → less a b = less a' b') → Forall2 R l l' →
  Forall2 R (sort_stable less l) (sort_stable less l').
Proof. intros HR. induction 1 as [|x x' l l' Hx Hl IH]; [constructor|]. by apply sort_insert_Forall2. Qed.

(** The redaction of a rendered line. *)
Lemma span_word_all h : all_bytes (λ c, negb (re_space c)) h = true → span_word h = (h, "").
Proof.
  induction h as [|c h IH]; [done|]. cbn. intros [Hc Hh]%andb_true_iff. apply negb_true_iff in Hc. by rewrite Hc, IH.
Qed.

Lemma re_space_free h : no_space h = true → all_bytes (λ c, negb (re_space c)) h = true.
Proof.
  intros H. assert (∀ c, c ∈ [tab_char; nl_char; "012"%char; cr_char; space_char] → free_of c h = true) as Hf.
  { intros c Hc. apply (free_of_runes is_space c 0); [| |done|apply mid_rune_0];
    repeat (apply elem_of_cons in Hc as [->|Hc]; [done|]); by apply elem_of_nil in Hc. }
  assert (∀ s, (∀ c, c ∈ [tab_char; nl_char; "012"%char; cr_char; space_char] → free_of c s = true) →
    all_bytes (λ c, negb (re_space c)) s = true) as Hs; [|by apply Hs].
  clear. intros s. induction s as [|x s IH]; intros Hf; [done|]. cbn. apply andb_true_iff. split.
  - apply negb_true_iff. unfold re_space. apply bool_decide_eq_false. intros Hx. specialize (Hf x Hx).
    unfold free_of in Hf. cbn in Hf. by rewrite bool_decide_false in Hf by tauto.
  - apply IH. intros c Hc. specialize (Hf c Hc). unfold free_of in *. cbn in Hf. by apply andb_true_iff in Hf as [_ ?].
Qed.

Lemma match_text u h : u ≠ "" → free_of ":" u = true → all_bytes (λ c, negb (re_space c)) u = true →
  no_space h = true → supported_hash h = true → match_passwd_line (u +:+ ":" +:+ h) = Some (u, h).
Proof.
  intros Hu Hc Hb Hn Hs. unfold match_passwd_line. change (":" +:+ h) with (String ":" h).
  rewrite cut_at_free by done. rewrite span_word_all by by apply re_space_free. rewrite Hb, Hs. by destruct u.
Qed.

Lemma metadata_pbkdf2 it secret : free_of "$" it = true →
  passwdHashMetadata ("$7$" +:+ it +:+ "$" +:+ secret) = ("$7$", "$7$" +:+ it +:+ "$").
Proof.
  intros Hf. unfold passwdHashMetadata.
  assert (has_prefix "$7$" ("$7$" +:+ it +:+ "$" +:+ secret) = true) as -> by by destruct it.
  rewrite (drop_bytes_app "$7$"). change ("$" +:+ secret) with (String "$" secret). by rewrite cut_at_free.
Qed.

Lemma redact_texts (l : list string) : l ≠ [] → Forall (λ t, free_of nl_char t = true) l →
  redactPasswdHashes (join "" ((λ t, t +:+ nl) <$> l)) = join nl (redact_line <$> l) +:+ nl.
Proof.
  intros Hl Hf. unfold redactPasswdHashes. cbv zeta. rewrite split_lines by done.
  rewrite last_snoc, decide_True, removelast_last by done. done.
Qed.

(** The same user and iteration count, and secrets of the same length. *)
Definition same_but_secret (e e' : PasswdEntry) : Prop :=
  pe_username e = pe_username e' ∧ accepted_username (pe_username e) ∧ free_of ":" (pe_username e) = true
  ∧ all_bytes (λ c, negb (re_space c)) (pe_username e) = true
  ∧ ∃ it s s', pe_hash e = "$7$" +:+ it +:+ "$" +:+ s ∧ pe_hash e' = "$7$" +:+ it +:+ "$" +:+ s'
    ∧ free_of "$" it = true ∧ String.length s = String.length s' ∧ no_space (pe_hash e) = true ∧ no_space (pe_hash e') = true.

Lemma supported_pbkdf2 it s : supported_hash ("$7$" +:+ it +:+ "$" +:+ s) = true.
Proof. by destruct it. Qed.

Lemma redact_same e e' : same_but_secret e e' → redact_line (passwd_text e) = redact_line (passwd_text e').
Proof.
  destruct e as [u h], e' as [u' h']. unfold same_but_secret. cbn [pe_username pe_hash]. intros (<- & (Hu & _)%accepted_spec & Hc & Hb & it & s & s' & -> & -> & Hf & Hl & Hn & Hn').
  unfold redact_line, passwd_text. cbn [pe_username pe_hash].
  rewrite !match_text by (done || apply supported_pbkdf2). rewrite !metadata_pbkdf2 by done.
  assert (String.length ("$7$" +:+ it +:+ "$" +:+ s) = String.length ("$7$" +:+ it +:+ "$" +:+ s')) as Hlen
    by (rewrite !length_app_string; lia).
  by rewrite Hlen.
Qed.

(** ** Properties *)

(** A rendered password file is read back as its entries, sorted by user:
    for the user names the store accepts, without a colon and not starting with
    a number sign, and for the hashes the program makes. *)
Theorem ParsePasswdFile_RenderPasswdFile es :
  Forall (λ e, accepted_username (pe_username e) ∧ free_of ":" (pe_username e) = true
               ∧ has_prefix "#" (pe_username e) = false ∧ is_hash (pe_hash e)) es →
  ParsePasswdFile (RenderPasswdFile es) = sort_stable by_username es.
Proof.
  intros Hes. assert (Forall (λ e, accepted_username (pe_username e) ∧ free_of ":" (pe_username e) = true
    ∧ has_prefix "#" (pe_username e) = false ∧ is_hash (pe_hash e)) (sort_stable by_username es)) as Hs.
  { by rewrite sort_stable_perm. }
  unfold ParsePasswdFile. destruct (decide _) as [E|_].
  - rewrite render_passwd_texts in E. destruct (sort_stable by_username es) as [|e l]; [done|].
    rewrite !fmap_cons, join_empty_cons in E. apply (f_equal String.length) in E.
    rewrite !length_app_string in E. cbn in E. lia.
  - rewrite render_passwd_texts, split_lines.
    + apply omap_texts. eapply Forall_impl; [exact Hs|]. intros e (? & ? & ? & ?). by apply parse_passwd_text.
    + apply Forall_fmap. eapply Forall_impl; [exact Hs|]. intros e (? & ? & ? & [_ ?]).
      by apply passwd_text_free; [|apply hash_free].
Qed.

(** The store accepts user names that the password file cannot carry: of a
    name with a colon only the part before it is read back, and a name that
    starts with a number sign is read as a comment. *)
Theorem accepted_username_misread a b h :
  accepted_username a → free_of ":" a = true → has_prefix "#" a = false → is_hash h →
  accepted_username (a +:+ ":" +:+ b) → accepted_username ("#" +:+ a) →
  (pe_username <$> ParsePasswdFile (RenderPasswdFile [mkPasswd (a +:+ ":" +:+ b) h]) = [a])
  ∧ ParsePasswdFile (RenderPasswdFile [mkPasswd ("#" +:+ a) h]) = [].
Proof.
  intros Ha Hc Hp [Hh Hn] Hab Hsharp. pose proof (accepted_spec _ Ha) as (Hne & Ht & _).
  pose proof (accepted_spec _ Hab) as (_ & Htab & _). pose proof (accepted_spec _ Hsharp) as (_ & Hts & _).
  assert (∀ u, accepted_username u → ParsePasswdFile (RenderPasswdFile [mkPasswd u h])
    = omap parse_passwd_line [passwd_text (mkPasswd u h); ""]) as Hone.
  { intros u Hu. unfold ParsePasswdFile. rewrite render_passwd_texts. change (sort_stable by_username [mkPasswd u h]) with [mkPasswd u h].
    rewrite (split_lines (passwd_text <$> [mkPasswd u h])).
    - destruct (decide _) as [E|_]; [|done]. exfalso. apply (f_equal String.length) in E. cbn [fmap list_fmap join] in E.
      rewrite length_app_string in E. cbn in E. lia.
    - constructor; [|constructor]. by apply passwd_text_free; [|apply hash_free]. }
  rewrite !Hone by done. unfold passwd_text. cbn [pe_username pe_hash omap list_omap].
  change (parse_passwd_line "") with (@None PasswdEntry). cbv iota. unfold parse_passwd_line. cbv zeta. split.
  - change (":" +:+ h) with (String ":" h). rewrite trim_space_keep by (done || by destruct a).
    rewrite <-app_assoc_string. change "#" with (chr_str "#"). rewrite has_prefix_byte by done. change (chr_str "#") with "#".
    rewrite Hp, decide_False by by destruct a. change (":" +:+ b) with (String ":" b). rewrite app_cons_string.
    rewrite cut_at_free by done. rewrite decide_False; [by rewrite Ht|]. intros [?|E]; [done|].
    apply (f_equal String.length) in E. rewrite length_app_string in E. cbn in E. lia.
  - change (":" +:+ h) with (String ":" h). rewrite trim_space_keep by done. by destruct a.
Qed.

(** What the preview shows of a password file does not depend on the salts
    and the keys: two files that differ only in them, for users whose names hold
    no blank, are shown alike. *)
Theorem redactPasswdHashes_hides es es' :
  Forall2 same_but_secret es es' →
  redactPasswdHashes (RenderPasswdFile es) = redactPasswdHashes (RenderPasswdFile es').
Proof.
  intros H. rewrite !render_passwd_texts.
  apply (sort_stable_Forall2 by_username) in H; [|intros a a' b b' [E _] [E' _]; unfold by_username; by rewrite E, E'].
  destruct H as [|e e' l l' He Hl]; [done|].
  assert (∀ e e', same_but_secret e e' →
    free_of nl_char (passwd_text e) = true ∧ free_of nl_char (passwd_text e') = true) as Hfree.
  { intros x x' (Hu & Ha & _ & _ & it & s & s' & _ & _ & _ & _ & Hn & Hn'). split; apply passwd_text_free; try done;
      [by apply hash_free|by rewrite <-Hu|by apply hash_free]. }
  assert (redact_line <$> (passwd_text <$> e :: l) = redact_line <$> (passwd_text <$> e' :: l')) as E.
  { rewrite !fmap_cons, (redact_same e e') by done. f_equal. clear He. induction Hl as [|x x' l l' Hx Hl IH]; [done|].
    rewrite !fmap_cons, (redact_same x x') by done. by f_equal. }
  assert (∀ k k', Forall2 same_but_secret k k' → Forall (λ t, free_of nl_char t = true) (passwd_text <$> k)
    ∧ Forall (λ t, free_of nl_char t = true) (passwd_text <$> k')) as Hall.
  { clear -Hfree. induction 1 as [|x x' k k' Hx _ [IH IH']]; [by split; constructor|].
    destruct (Hfree x x' Hx). split; by constructor. }
  destruct (Hall (e :: l) (e' :: l')) as [H1 H2]; [by constructor|]. by rewrite !redact_texts, E.
Qed.

(** The redaction misses the users whose names hold a blank, which the
    store accepts: their lines are shown with the hash. *)
Theorem redactPasswdHashes_leaks u v h :
  accepted_username (u +:+ " " +:+ v) → free_of ":" (u +:+ " " +:+ v) = true → is_hash h →
  let body := RenderPasswdFile [mkPasswd (u +:+ " " +:+ v) h] in
  redactPasswdHashes body = body ∧ body = u +:+ " " +:+ v +:+ ":" +:+ h +:+ nl.
Proof.
  intros Ha Hc [Hh Hn]. cbv zeta. rewrite render_passwd_texts.
  change (sort_stable by_username [mkPasswd (u +:+ " " +:+ v) h]) with [mkPasswd (u +:+ " " +:+ v) h].
  assert (join "" ((λ t, t +:+ nl) <$> (passwd_text <$> [mkPasswd (u +:+ " " +:+ v) h]))
    = passwd_text (mkPasswd (u +:+ " " +:+ v) h) +:+ nl) as E by done.
  split; [|rewrite E; unfold passwd_text; cbn [pe_username pe_hash]; by rewrite <-!app_assoc_string].
  rewrite redact_texts; [|done|constructor; [by apply passwd_text_free; [|apply hash_free]|constructor]].
  rewrite E. cbn [fmap list_fmap join]. f_equal. unfold redact_line, passwd_text, match_passwd_line. cbn [pe_username pe_hash].
  change (":" +:+ h) with (String ":" h). rewrite cut_at_free by done.
  assert (all_bytes (λ c, negb (re_space c)) (u +:+ " " +:+ v) = false) as ->; [|rewrite andb_false_r; by destruct (span_word h)].
  rewrite !all_bytes_app. change (all_bytes (λ c, negb (re_space c)) " ") with false. by rewrite andb_false_r.
Qed.

(** ** Examples *)
Definition example_hash : string := "$7$101$c2FsdHNhbHRzYWx0$a2V5".
Definition other_hash : string := "$7$101$bW9yZXNhbHRtb3Jl$b3Ro".


#[export] Instance username_problem_eq_dec : EqDecision username_problem. Proof. solve_decision. Defined.

Lemma ParsePasswdFile_RenderPasswdFile_witness :
  ParsePasswdFile (RenderPasswdFile [mkPasswd "zoe" example_hash; mkPasswd "al" other_hash])
  = [mkPasswd "al" other_hash; mkPasswd "zoe" example_hash].
Proof.
  refine (ParsePasswdFile_RenderPasswdFile [mkPasswd "zoe" example_hash; mkPasswd "al" other_hash] _).
  repeat constructor; by vm_compute.
Defined.

Lemma accepted_username_misread_witness :
  (pe_username <$> ParsePasswdFile (RenderPasswdFile [mkPasswd "line:3" example_hash]) = ["line"])
  ∧ ParsePasswdFile (RenderPasswdFile [mkPasswd "#line" example_hash]) = [].
Proof. refine (accepted_username_misread "line" "3" example_hash _ _ _ _ _ _); repeat split; by vm_compute. Defined.

Lemma redactPasswdHashes_hides_witness :
  redactPasswdHashes (RenderPasswdFile [mkPasswd "al" example_hash])
  = redactPasswdHashes (RenderPasswdFile [mkPasswd "al" other_hash]).
Proof.
  refine (redactPasswdHashes_hides [mkPasswd "al" example_hash] [mkPasswd "al" other_hash] _).
  constructor; [|constructor]. split; [done|]. split; [split; by vm_compute|]. split; [done|]. split; [done|].
  exists "101", "c2FsdHNhbHRzYWx0$a2V5", "bW9yZXNhbHRtb3Jl$b3Ro". repeat split; by vm_compute.
Defined.

Lemma redactPasswdHashes_leaks_witness :
  redactPasswdHashes (RenderPasswdFile [mkPasswd "pump 1" example_hash]) = "pump 1:" +:+ example_hash +:+ nl.
Proof.
  refine (let H := redactPasswdHashes_leaks "pump" "1" example_hash _ _ _ in eq_trans (proj1 H) (proj2 H));
    repeat split; by vm_compute.
Defined.
