(* ===== verification/Acl.v ===== *)
(** * [internal/acl]: rules, validation and the effective-permission resolver

    [acl.go] (the rule type, its validation) and [effective.go] (which access
    Mosquitto grants a client).  The Go types [Selector], [Scope],
    [Permission] and [Access] are named string types, so a value that is none
    of the constants is possible; they are strings here too.  An error is a
    constructor of [topic_error], [listener_error] or [problem] that carries
    the arguments of the message the code formats. *)
From S2P Require Import Prelude Unicode GoStrings.

(** ** The data *)
Definition SelectorUser : string := "user".
Definition SelectorAnonymous : string := "anonymous".
Definition SelectorPattern : string := "pattern".
Definition ScopeGlobal : string := "global".
Definition ScopeListener : string := "listener".
Definition PermissionRead : string := "read".
Definition PermissionWrite : string := "write".
Definition PermissionReadWrite : string := "readwrite".
Definition PermissionDeny : string := "deny".
Definition validPermissions : list string :=
  [PermissionRead; PermissionWrite; PermissionReadWrite; PermissionDeny].
Definition SupportedMosquittoVersion : string := "2.0".
Definition MinimumDenyPermissionVersion : string := "2.0".

Record Rule := mkRule {
  r_id : string;
  r_selector : string;
  r_scope : string;
  r_listener_id : string;
  r_principal : string;
  r_topic_filter : string;
  r_permission : string;
  r_description : string
}.

#[export] Instance Rule_eq_dec : EqDecision Rule.
Proof. solve_decision. Defined.

(** The errors of [ValidateTopicFilter] and [ValidatePatternPlaceholders]. *)
Inductive topic_error :=
  | TopicRequired
  | TopicNul
  | TopicControl
  | HashNotWholeLevel (filter : string)
  | HashNotLast (filter : string)
  | PlusNotWholeLevel (filter : string)
  | PlaceholderNotWholeLevel (filter : string).

Inductive listener_error :=
  | ListenerRequired
  | ListenerTooLong
  | ListenerControl
  | ListenerSeparator
  | ListenerDots (id : string)
  | ListenerCharset (id : string).

Inductive problem :=
  | PrincipalRequired
  | PrincipalControl
  | PrincipalNotEmpty (selector : string)
  | SelectorUnknown
  | ListenerNotEmpty
  | ListenerProblem (e : listener_error)
  | ScopeUnknown
  | TopicProblem (e : topic_error)
  | PermissionUnknown
  | DenyUnsupported.

(** ** Methods of [Rule] *)
Definition EffectiveSelector (r : Rule) : string :=
  if decide (r_selector r = "") then SelectorUser else r_selector r.

Definition EffectiveScope (r : Rule) : string :=
  if decide (r_scope r = "") then ScopeGlobal else r_scope r.

Definition IsListenerScoped (r : Rule) : bool := bool_decide (EffectiveScope r = ScopeListener).
Definition IsUserScoped (r : Rule) : bool := bool_decide (EffectiveSelector r = SelectorUser).

Definition Normalize (r : Rule) : Rule :=
  mkRule (r_id r) (EffectiveSelector r) (EffectiveScope r)
    (if decide (EffectiveScope r = ScopeListener) then r_listener_id r else "")
    (r_principal r) (r_topic_filter r) (r_permission r) (r_description r).

Definition MosquittoACL (r : Rule) : string :=
  "topic " +:+ r_permission r +:+ " " +:+ r_topic_filter r.

Definition MosquittoPatternACL (r : Rule) : string :=
  "pattern " +:+ r_permission r +:+ " " +:+ r_topic_filter r.

(** ** Topic filters *)

(** The loop of [ValidateTopicFilter] over the levels; the index test
    [idx != len(levels)-1] is whether a level follows. *)
Fixpoint validate_levels (filter : string) (levels : list string) : option topic_error :=
  match levels with
  | [] => None
  | level :: rest =>
      if contains "#" level && negb (bool_decide (level = "#")) then Some (HashNotWholeLevel filter)
      else if contains "#" level && negb (bool_decide (rest = [])) then Some (HashNotLast filter)
      else if contains "+" level && negb (bool_decide (level = "+")) then Some (PlusNotWholeLevel filter)
      else validate_levels filter rest
  end.

Definition ValidateTopicFilter (filter : string) : option topic_error :=
  if decide (filter = "") then Some TopicRequired
  else if contains_byte "000" filter then Some TopicNul
  else if contains_control filter then Some TopicControl
  else validate_levels filter (split "/" filter).

Definition ValidatePatternPlaceholders (filter : string) : option topic_error :=
  if forallb (λ level,
       negb (contains "%u" level || contains "%c" level)
       || bool_decide (level = "%u") || bool_decide (level = "%c")) (split "/" filter)
  then None else Some (PlaceholderNotWholeLevel filter).

(** ** Listener references *)
Definition maxListenerIDLength : nat := 64.

Definition listener_rune (r : Z) : bool :=
  in_range 97 122 r || in_range 65 90 r || in_range 48 57 r
  || (r =? 45)%Z || (r =? 95)%Z || (r =? 46)%Z.

Definition ValidateListenerID (id : string) : option listener_error :=
  if decide (id = "") then Some ListenerRequired
  else if maxListenerIDLength <? String.length id then Some ListenerTooLong
  else if contains_control id then Some ListenerControl
  else if contains_byte "/" id || contains_byte "\" id then Some ListenerSeparator
  else if bool_decide (id = ".") || bool_decide (id = "..") then Some (ListenerDots id)
  else if forallb listener_rune (runes id) then None else Some (ListenerCharset id).

(** ** Versions *)

(** The number of one part; [int] arithmetic wraps. *)
Fixpoint parse_version_part (rs : list Z) (number : Z) : option Z :=
  match rs with
  | [] => Some number
  | r :: rs' =>
      if (r <? 48)%Z || (57 <? r)%Z then None
      else parse_version_part rs' (wrap64 (number * 10 + (r - 48)))
  end.

Definition parseMosquittoVersion (version : string) : option (list Z) :=
  let trimmed := trim_space version in
  if decide (trimmed = "") then None
  else mapM (λ part, if decide (part = "") then None else parse_version_part (runes part) 0)
         (split "." trimmed).

Fixpoint version_ge (current required : list Z) : bool :=
  match current, required with
  | [], [] => true
  | c :: cs, [] => if (c =? 0)%Z then version_ge cs [] else (0 <? c)%Z
  | [], _ => (fix zeros (rs : list Z) : bool :=
      match rs with
      | [] => true
      | r :: rs' => if (0 =? r)%Z then zeros rs' else (r <? 0)%Z
      end) required
  | c :: cs, r :: rs => if (c =? r)%Z then version_ge cs rs else (r <? c)%Z
  end.

Definition mosquittoVersionAtLeast (version minimum : string) : bool :=
  match parseMosquittoVersion version, parseMosquittoVersion minimum with
  | Some current, Some required => version_ge current required
  | _, _ => false
  end.

(** ** Rule validation *)
Definition principal_problems (rule : Rule) : list problem :=
  let sel := EffectiveSelector rule in
  if decide (sel = SelectorUser) then
    if decide (trim_space (r_principal rule) = "") then [PrincipalRequired]
    else if contains_control (r_principal rule) then [PrincipalControl] else []
  else if decide (sel = SelectorAnonymous ∨ sel = SelectorPattern) then
    if decide (r_principal rule = "") then [] else [PrincipalNotEmpty sel]
  else [SelectorUnknown].

Definition scope_problems (rule : Rule) : list problem :=
  let scope := EffectiveScope rule in
  if decide (scope = ScopeGlobal) then
    if decide (r_listener_id rule = "") then [] else [ListenerNotEmpty]
  else if decide (scope = ScopeListener) then
    match ValidateListenerID (r_listener_id rule) with
    | Some e => [ListenerProblem e] | None => []
    end
  else [ScopeUnknown].

Definition topic_problems (rule : Rule) : list problem :=
  if decide (trim_space (r_topic_filter rule) = "") then [TopicProblem TopicRequired]
  else match ValidateTopicFilter (r_topic_filter rule) with
  | Some e => [TopicProblem e]
  | None =>
      if decide (EffectiveSelector rule = SelectorPattern) then
        match ValidatePatternPlaceholders (r_topic_filter rule) with
        | Some e => [TopicProblem e] | None => []
        end
      else []
  end.

Definition permission_problems (rule : Rule) (version : string) : list problem :=
  if decide (r_permission rule ∈ validPermissions) then
    if bool_decide (r_permission rule = PermissionDeny)
       && negb (mosquittoVersionAtLeast version MinimumDenyPermissionVersion)
    then [DenyUnsupported] else []
  else [PermissionUnknown].

(** The problems in the order the code appends them; an empty list is the nil
    error. *)
Definition ValidateRuleForMosquittoVersion (rule : Rule) (version : string) : list problem :=
  principal_problems rule ++ scope_problems rule ++ topic_problems rule
    ++ permission_problems rule version.

Definition ValidateRule (rule : Rule) : list problem :=
  ValidateRuleForMosquittoVersion rule SupportedMosquittoVersion.

(** ** [effective.go]: the access Mosquitto grants *)
Definition AccessRead : string := "read".
Definition AccessWrite : string := "write".

Record Identity := mkIdentity { i_username : string; i_client_id : string }.

Definition IsAnonymous (i : Identity) : bool := bool_decide (i_username i = "").

Inductive reason := DenyCovers | RuleGrants (access : string) | NoRuleGrants (access : string).

Record PermissionDecision := mkDecision {
  d_allowed : bool;
  d_reason : reason;
  d_matching : list Rule
}.

Record EffectiveGrant := mkGrant {
  g_topic_filter : string;
  g_permission : string;
  g_selector : string;
  g_principal : string;
  g_denied : bool;
  g_denied_by : list string
}.

Definition PermissionGrants (permission access : string) : bool :=
  if decide (access = AccessRead) then
    bool_decide (permission = PermissionRead) || bool_decide (permission = PermissionReadWrite)
  else if decide (access = AccessWrite) then
    bool_decide (permission = PermissionWrite) || bool_decide (permission = PermissionReadWrite)
  else false.

(** The loop of [TopicMatchesFilter] over the remaining levels; at ["#"] the
    answer is whether it is the last level. *)
Fixpoint match_levels (filterLevels topicLevels : list string) : bool :=
  match filterLevels with
  | [] => bool_decide (topicLevels = [])
  | level :: fs =>
      if decide (level = "#") then bool_decide (fs = [])
      else match topicLevels with
      | [] => false
      | t :: ts => (bool_decide (level = "+") || bool_decide (level = t)) && match_levels fs ts
      end
  end.

Definition TopicMatchesFilter (filter topic : string) : bool :=
  if bool_decide (filter = "") || bool_decide (topic = "") then false
  else match_levels (split "/" filter) (split "/" topic).

Definition levelCovers (denyLevel grantLevel : string) : bool :=
  if decide (denyLevel = "+") then negb (bool_decide (grantLevel = "#"))
  else if decide (grantLevel = "#") then false
  else bool_decide (denyLevel = grantLevel).

(** [for idx, level := range prefix { levelCovers(level, grantLevels[idx]) }];
    the caller checked that [grantLevels] is at least as long. *)
Fixpoint levels_cover (denyLevels grantLevels : list string) : bool :=
  match denyLevels, grantLevels with
  | [], _ => true
  | d :: ds, g :: gs => levelCovers d g && levels_cover ds gs
  | _ :: _, [] => false
  end.

Definition FilterCovers (denyFilter grantFilter : string) : bool :=
  if bool_decide (denyFilter = "") || bool_decide (grantFilter = "") then false
  else
    let denyLevels := split "/" denyFilter in
    let grantLevels := split "/" grantFilter in
    if decide (last denyLevels = Some "#") then
      let prefix := take (length denyLevels - 1) denyLevels in
      if length grantLevels <? length prefix then false
      else levels_cover prefix grantLevels
    else if decide (length denyLevels = length grantLevels) then levels_cover denyLevels grantLevels
    else false.

Definition SubstitutePlaceholders (filter : string) (identity : Identity) : string :=
  if negb (contains "%u" filter) && negb (contains "%c" filter) then filter
  else join "/" ((λ level,
    if decide (level = "%u") then replace_byte "/" "_" (i_username identity)
    else if decide (level = "%c") then replace_byte "/" "_" (i_client_id identity)
    else level) <$> split "/" filter).

Definition ruleFilter (rule : Rule) (identity : Identity) : string :=
  if decide (EffectiveSelector rule = SelectorPattern)
  then SubstitutePlaceholders (r_topic_filter rule) identity
  else r_topic_filter rule.

(** The section a rule is in applies to an identity. *)
Definition applies (identity : Identity) (rule : Rule) : bool :=
  let sel := EffectiveSelector rule in
  if decide (sel = SelectorPattern) then true
  else if decide (sel = SelectorAnonymous) then IsAnonymous identity
  else if decide (sel = SelectorUser) then
    negb (IsAnonymous identity) && bool_decide (r_principal rule = i_username identity)
  else false.

Definition applicableRules (rules : list Rule) (identity : Identity) : list Rule :=
  filter (λ rule, applies identity rule = true) rules.

(** The accumulator of the loop of [EffectivePermission]. *)
Record ep_state := mkEp { ep_matched : list Rule; ep_denied : bool; ep_granted : bool }.

Definition ep_step (identity : Identity) (topic access : string) (s : ep_state) (rule : Rule) : ep_state :=
  if negb (TopicMatchesFilter (ruleFilter rule identity) topic) then s
  else
    let matched := ep_matched s ++ [rule] in
    if decide (r_permission rule = PermissionDeny) then mkEp matched true (ep_granted s)
    else if PermissionGrants (r_permission rule) access then mkEp matched (ep_denied s) true
    else mkEp matched (ep_denied s) (ep_granted s).

Definition EffectivePermission (rules : list Rule) (identity : Identity) (topic access : string) : PermissionDecision :=
  let s := foldl (ep_step identity topic access) (mkEp [] false false) (applicableRules rules identity) in
  if ep_denied s then mkDecision false DenyCovers (ep_matched s)
  else if ep_granted s then mkDecision true (RuleGrants access) (ep_matched s)
  else mkDecision false (NoRuleGrants access) (ep_matched s).

Definition grant_of (denies : list Rule) (identity : Identity) (rule : Rule) : EffectiveGrant :=
  let flt := ruleFilter rule identity in
  let deniedBy := filter (λ denyFilter, FilterCovers denyFilter flt = true)
                    ((λ deny, ruleFilter deny identity) <$> denies) in
  mkGrant flt (r_permission rule) (EffectiveSelector rule) (r_principal rule)
    (negb (bool_decide (deniedBy = []))) deniedBy.

Definition grant_less (a b : EffectiveGrant) : bool :=
  if decide (g_selector a = g_selector b) then
    if decide (g_principal a = g_principal b)
    then string_less (g_topic_filter a) (g_topic_filter b)
    else string_less (g_principal a) (g_principal b)
  else string_less (g_selector a) (g_selector b).

Definition EffectiveGrants (rules : list Rule) (identity : Identity) : list EffectiveGrant :=
  let applicable := applicableRules rules identity in
  let denies := filter (λ rule, r_permission rule = PermissionDeny) applicable in
  let grants := grant_of denies identity <$>
    filter (λ rule, r_permission rule ≠ PermissionDeny) applicable in
  sort_stable grant_less grants.

(** ** Specification: MQTT topic matching *)

(** [matches fs ts]: the topic levels [ts] match the filter levels [fs] (MQTT
    3.1.1, section 4.7): ["#"], only as the last level, matches any rest, the
    parent level included; ["+"] matches exactly one level. *)
Inductive matches : list string → list string → Prop :=
  | matches_nil : matches [] []
  | matches_hash ts : matches ["#"] ts
  | matches_plus fs t ts : matches fs ts → matches ("+" :: fs) (t :: ts)
  | matches_level l fs ts : l ≠ "#" → matches fs ts → matches (l :: fs) (l :: ts).

(** The language of a filter. *)
Definition topic_of (filter topic : string) : Prop := TopicMatchesFilter filter topic = true.

(** A filter [ValidateTopicFilter] accepts. *)
Definition valid_filter (filter : string) : Prop := ValidateTopicFilter filter = None.

(** ** Lemmas: matching *)
Lemma match_levels_spec fs ts : match_levels fs ts = true ↔ matches fs ts.
Proof.
  split.
  - revert ts. induction fs as [|l fs IH]; intros ts H; simpl in H.
    + bool_hyps. subst. constructor.
    + case_decide as Hl.
      * bool_hyps. subst. constructor.
      * destruct ts as [|t ts]; [done|]. bool_hyps.
        destruct (bool_decide (l = "+")) eqn:E; simpl in *; bool_hyps; subst.
        -- constructor; eauto.
        -- constructor; eauto.
  - induction 1 as [|ts|fs t ts Hm IH|l fs ts Hl Hm IH]; simpl; [done..|].
    rewrite decide_False by done. by rewrite IH, (bool_decide_true (l = l)), orb_true_r.
Qed.

Lemma TopicMatchesFilter_levels filter topic :
  TopicMatchesFilter filter topic = true ↔
  filter ≠ "" ∧ topic ≠ "" ∧ match_levels (split "/" filter) (split "/" topic) = true.
Proof.
  unfold TopicMatchesFilter. do 2 case_bool_decide; simpl; split; naive_solver.
Qed.

(** The literal levels of a level list: neither wildcard. *)
Lemma match_levels_length fs ts :
  "#" ∉ fs → match_levels fs ts = true → length ts = length fs.
Proof.
  revert ts. induction fs as [|l fs IH]; intros ts Hn H; simpl in *; [by bool_hyps; subst|].
  apply not_elem_of_cons in Hn as [Hl Hn]. rewrite decide_False in H by done.
  destruct ts as [|t ts]; [done|]. bool_hyps. simpl. by rewrite (IH ts).
Qed.

Lemma match_levels_cons l p ts :
  l ≠ "#" → match_levels (l :: p) ts = true ↔
  ∃ t ts', ts = t :: ts' ∧ (l = "+" ∨ l = t) ∧ match_levels p ts' = true.
Proof.
  intros Hl. simpl. rewrite decide_False by done. destruct ts as [|t ts]; [naive_solver|].
  rewrite andb_true_iff, orb_true_iff, !bool_decide_eq_true. naive_solver.
Qed.

Lemma match_levels_hash p ts :
  "#" ∉ p →
  match_levels (p ++ ["#"]) ts = true ↔ ∃ ts1 ts2, ts = ts1 ++ ts2 ∧ match_levels p ts1 = true.
Proof.
  revert ts. induction p as [|l p IH]; intros ts Hn.
  - split; [|done]. intros _. exists [], ts. done.
  - apply not_elem_of_cons in Hn as [Hl Hn]. rewrite <-app_comm_cons, match_levels_cons by done.
    setoid_rewrite match_levels_cons; [|done]. setoid_rewrite IH; [|done]. split.
    + intros (t & ? & -> & Ht & ts1 & ts2 & -> & H). exists (t :: ts1), ts2. naive_solver.
    + intros (ts1 & ts2 & -> & t & ts' & -> & Ht & H). exists t, (ts' ++ ts2). naive_solver.
Qed.

(** ** Lemmas: covering *)
Lemma levelCovers_spec d g : levelCovers d g = true ↔ g ≠ "#" ∧ (d = "+" ∨ d = g).
Proof.
  unfold levelCovers. destruct (decide (d = "+")) as [->|]; [|destruct (decide (g = "#")) as [->|]].
  - rewrite negb_true_iff, bool_decide_eq_false. naive_solver.
  - naive_solver.
  - rewrite bool_decide_eq_true. naive_solver.
Qed.

Lemma levels_cover_match d g ts :
  length d = length g → levels_cover d g = true → "#" ∉ d →
  match_levels g ts = true → match_levels d ts = true.
Proof.
  revert g ts. induction d as [|x d IH]; intros [|y g] ts Hlen Hc Hd Hm; simplify_eq/=; [done|].
  apply not_elem_of_cons in Hd as [Hx Hd]. bool_hyps.
  match goal with H : levelCovers _ _ = true |- _ => apply levelCovers_spec in H as [Hy Hxy] end.
  change (match_levels (y :: g) ts = true) in Hm. change (match_levels (x :: d) ts = true).
  apply match_levels_cons in Hm as (t & ts' & -> & Ht & Hm); [|done].
  apply match_levels_cons; [done|]. exists t, ts'. naive_solver.
Qed.

Lemma last_hash_inv (l : list string) :
  last l = Some "#" → l = take (length l - 1) l ++ ["#"].
Proof.
  intros H. apply last_Some in H as [l' ->]. rewrite length_app. simpl.
  replace (length l' + 1 - 1) with (length l') by lia. by rewrite take_app_length.
Qed.

Lemma valid_levels_no_hash filter l x :
  validate_levels filter (l ++ [x]) = None → "#" ∉ l.
Proof.
  induction l as [|y l IH]; simpl; [set_solver|].
  intros H. repeat case_match; try done.
  apply not_elem_of_cons. split; [|by apply IH].
  intros <-. simpl in *. destruct l; done.
Qed.

Lemma valid_filter_levels filter :
  valid_filter filter →
  filter ≠ "" ∧ ∃ l x, split "/" filter = l ++ [x] ∧ ("#" ∉ l) ∧ validate_levels filter (l ++ [x]) = None.
Proof.
  unfold valid_filter, ValidateTopicFilter. intros H. repeat case_decide; try done.
  destruct (contains_byte _ _), (contains_control filter); try done.
  split; [done|].
  destruct (exists_last (split_not_nil "/" filter)) as (l & x & E).
  exists l, x. rewrite <-E. split; [done|]. split; [|done].
  eapply valid_levels_no_hash. by rewrite <-E.
Qed.

Lemma levels_cover_no_hash d g :
  levels_cover d g = true → ("#" ∉ d) ∧ length d ≤ length g ∧ ("#" ∉ take (length d) g).
Proof.
  revert g. induction d as [|x d IH]; intros g H.
  { simpl. split; [|split]; [set_solver|lia|set_solver]. }
  destruct g as [|y g]; [done|]. simpl in *. bool_hyps. match goal with H : levelCovers _ _ = true |- _ => apply levelCovers_spec in H as [Hy Hxy] end.
  destruct (IH g) as (? & ? & ?); [done|]. rewrite !not_elem_of_cons.
  split; [|split]; [|lia|split; [congruence|done]]. split; [|done]. intros <-. naive_solver.
Qed.

Lemma levels_cover_take d g : levels_cover d g = true → levels_cover d (take (length d) g) = true.
Proof.
  revert g. induction d as [|x d IH]; intros [|y g]; simpl; [done..|].
  rewrite !andb_true_iff. naive_solver.
Qed.

Lemma match_levels_app_inv fs1 fs2 ts :
  "#" ∉ fs1 → match_levels (fs1 ++ fs2) ts = true →
  ∃ ts1 ts2, ts = ts1 ++ ts2 ∧ match_levels fs1 ts1 = true.
Proof.
  revert ts. induction fs1 as [|l fs1 IH]; intros ts Hn H.
  - by exists [], ts.
  - apply not_elem_of_cons in Hn as [Hl Hn]. rewrite <-app_comm_cons in H.
    apply match_levels_cons in H as (t & ts' & -> & Ht & H); [|done].
    destruct (IH ts') as (ts1 & ts2 & -> & H1); [done..|].
    exists (t :: ts1), ts2. split; [done|]. apply match_levels_cons; naive_solver.
Qed.

(** A deny prefix that covers the first levels of a grant. *)
Lemma prefix_cover_match p g ts :
  levels_cover p g = true → match_levels g ts = true → match_levels (p ++ ["#"]) ts = true.
Proof.
  intros Hc Hm. destruct (levels_cover_no_hash _ _ Hc) as (Hp & Hlen & Hg).
  rewrite <-(take_drop (length p) g) in Hm.
  apply match_levels_app_inv in Hm as (ts1 & ts2 & -> & Hm); [|done].
  apply match_levels_hash; [done|]. exists ts1, ts2. split; [done|].
  eapply levels_cover_match; [| |done|exact Hm].
  - rewrite length_take. lia.
  - by apply levels_cover_take.
Qed.

(** ** Lemmas: a topic outside a filter that does not cover *)

(** A level no deny level is equal to. *)
Definition fresh_level (d : list string) : string := join "" d +:+ "x".

Lemma length_join l : String.length (join "" l) = sum_list_with String.length l.
Proof.
  induction l as [|x l IH]; [done|]. destruct l as [|y l]; [simpl; lia|].
  rewrite join_cons by done. rewrite length_app_string.
  change ("" +:+ ?z) with z. rewrite IH. done.
Qed.

Lemma fresh_level_fresh d : fresh_level d ∉ d.
Proof.
  intros Hin. assert (∀ x, x ∈ d → String.length x ≤ sum_list_with String.length d) as H.
  { induction d as [|y d IH]; intros x Hx; [by apply elem_of_nil in Hx|].
    clear Hin. apply elem_of_cons in Hx as [->|Hx]; simpl; [lia|].
    assert (∀ z, z ∈ d → String.length z ≤ sum_list_with String.length d).
    { clear -d. induction d as [|y d IH]; [intros z Hz; by apply elem_of_nil in Hz|].
      intros z [->|Hz]%elem_of_cons; simpl; [lia|]. specialize (IH z Hz). lia. }
    specialize (H x Hx). lia. }
  specialize (H _ Hin). unfold fresh_level in H. rewrite length_app_string, length_join in H.
  simpl in H. lia.
Qed.

(** The levels of a grant with a fresh level for every ["+"]. *)
Definition instance (x : string) (g : list string) : list string :=
  (λ l, if decide (l = "+") then x else l) <$> g.

Lemma instance_match x g : "#" ∉ g → match_levels g (instance x g) = true.
Proof.
  induction g as [|l g IH]; intros Hn; [done|]. apply not_elem_of_cons in Hn as [Hl Hn].
  apply match_levels_cons; [done|]. exists (if decide (l = "+") then x else l), (instance x g).
  split; [done|]. split; [case_decide; naive_solver|]. by apply IH.
Qed.

Lemma length_instance x g : length (instance x g) = length g.
Proof. apply length_fmap. Qed.

Lemma instance_hash_match x g e : "#" ∉ g → match_levels (g ++ ["#"]) (instance x g ++ e) = true.
Proof.
  intros Hn. apply match_levels_hash; [done|]. exists (instance x g), e.
  split; [done|]. by apply instance_match.
Qed.

(** Where the grant has no ["#"], a matching instance means covering. *)
Lemma instance_cover x d g :
  length d = length g → "#" ∉ g → "#" ∉ d → x ∉ d →
  match_levels d (instance x g) = true → levels_cover d g = true.
Proof.
  revert g. induction d as [|y d IH]; intros [|l g] Hlen Hg Hd Hx Hm; simplify_eq/=; [done|].
  apply not_elem_of_cons in Hg as [Hl Hg], Hd as [Hy Hd], Hx as [Hxy Hx].
  change (match_levels (y :: d) ((if decide (l = "+") then x else l) :: instance x g) = true) in Hm.
  apply match_levels_cons in Hm as (t & ts' & Heq & Ht & Hm); [|done]. simplify_eq.
  apply andb_true_iff. split; [|by apply IH].
  apply levelCovers_spec. split; [done|]. case_decide; naive_solver.
Qed.

Lemma match_levels_take p ts :
  "#" ∉ p → match_levels (p ++ ["#"]) ts = true →
  length p ≤ length ts ∧ match_levels p (take (length p) ts) = true.
Proof.
  intros Hp Hm. apply match_levels_hash in Hm as (ts1 & ts2 & -> & Hm); [|done].
  pose proof (match_levels_length _ _ Hp Hm) as Hlen. rewrite length_app, <-Hlen.
  split; [lia|]. by rewrite take_app_length.
Qed.

(** The body of [FilterCovers] on level lists. *)
Definition covers_levels (d g : list string) : bool :=
  if decide (last d = Some "#") then
    if length g <? length (take (length d - 1) d) then false else levels_cover (take (length d - 1) d) g
  else if decide (length d = length g) then levels_cover d g else false.

Lemma FilterCovers_levels d g :
  FilterCovers d g = true ↔ d ≠ "" ∧ g ≠ "" ∧ covers_levels (split "/" d) (split "/" g) = true.
Proof.
  unfold FilterCovers, covers_levels. destruct (decide (d = "")) as [->|Hd]; [naive_solver|].
  destruct (decide (g = "")) as [->|Hg]; [rewrite (bool_decide_true ("" = "")), orb_true_r by done; naive_solver|].
  rewrite !bool_decide_false by done. simpl orb. cbv iota zeta. naive_solver.
Qed.

Lemma covers_levels_hash d g : covers_levels (d ++ ["#"]) g = levels_cover d g.
Proof.
  unfold covers_levels. rewrite decide_True by apply last_snoc.
  rewrite length_app. simpl. replace (length d + 1 - 1) with (length d) by lia.
  rewrite take_app_length. destruct (Nat.ltb_spec (length g) (length d)); [|done].
  destruct (levels_cover d g) eqn:E; [|done]. apply levels_cover_no_hash in E. lia.
Qed.

Lemma covers_levels_plain d x g :
  x ≠ "#" → length (d ++ [x]) = length g → covers_levels (d ++ [x]) g = levels_cover (d ++ [x]) g.
Proof.
  intros Hx Hlen. unfold covers_levels. rewrite decide_False by (rewrite last_snoc; congruence).
  by rewrite decide_True.
Qed.

(** The levels of a non-empty topic. *)
Definition topic_levels (ts : list string) : Prop :=
  ts ≠ [] ∧ ts ≠ [""] ∧ Forall (λ x, free_of "/" x = true) ts.

Lemma topic_levels_join ts :
  topic_levels ts → join "/" ts ≠ "" ∧ split "/" (join "/" ts) = ts.
Proof.
  intros (Hn & He & Hf). split; [|by apply (split_join "/")].
  destruct ts as [|t [|t' ts]]; [done|simpl; congruence|].
  rewrite join_cons by done. intros H. apply (f_equal String.length) in H.
  rewrite !length_app_string in H. simpl in H. lia.
Qed.

Lemma fresh_level_free d : Forall (λ x, free_of "/" x = true) d → free_of "/" (fresh_level d) = true.
Proof.
  intros H. unfold fresh_level, free_of in *. rewrite all_bytes_app, andb_true_r.
  induction H as [|x d Hx Hd IH]; [done|]. destruct d as [|y d]; [done|].
  rewrite join_cons by done. rewrite all_bytes_app. change ("" +:+ ?z) with z. by rewrite IH, Hx.
Qed.

Lemma fresh_level_nonempty d : fresh_level d ≠ "".
Proof.
  intros H. apply (f_equal String.length) in H. unfold fresh_level in H.
  rewrite length_app_string in H. simpl in H. lia.
Qed.

Lemma instance_topic_levels x g :
  x ≠ "" → free_of "/" x = true → topic_levels g → topic_levels (instance x g).
Proof.
  intros Hx Hfx (Hn & He & Hf). split; [|split].
  - by destruct g.
  - destruct g as [|l [|]]; [done| |done]. unfold instance. simpl. case_decide; congruence.
  - apply Forall_fmap. eapply Forall_impl; [exact Hf|]. intros l Hl. simpl. by case_decide.
Qed.

Lemma instance_take x n g : take n (instance x g) = instance x (take n g).
Proof. symmetry. apply fmap_take. Qed.

Lemma levels_cover_take_inv d g : levels_cover d (take (length d) g) = true → levels_cover d g = true.
Proof.
  revert g. induction d as [|x d IH]; intros [|y g]; simpl; [done..|].
  rewrite !andb_true_iff. naive_solver.
Qed.

Lemma levels_cover_app d g e : levels_cover d g = true → levels_cover d (g ++ e) = true.
Proof.
  revert g. induction d as [|x d IH]; intros [|y g]; simpl; [done..|].
  rewrite !andb_true_iff. naive_solver.
Qed.

Lemma not_elem_of_take {A} (y : A) n l : y ∉ l → y ∉ take n l.
Proof. intros Hn (i & Hi & _)%elem_of_take. apply Hn. by eapply list_elem_of_lookup_2. Qed.

(** The pairs of a deny and a grant where covering is not seen: the only topics
    the grant's ["#"] could match without a further level are empty. *)
Definition uncovered_pairs : list (list string * list string) :=
  [(["+"; "#"], ["#"]); ([""; "+"; "#"], [""; "#"]); (["+"; "+"; "#"], [""; "#"])].

Section covers_complete.
Context (dl gl : list string) (dx gx : string).
Context (Hdl : "#" ∉ dl) (Hgl : "#" ∉ gl).
Context (Hd : Forall (λ x, free_of "/" x = true) (dl ++ [dx])).
Context (Hg : topic_levels (gl ++ [gx])).
Context (Hcov : ∀ ts, topic_levels ts →
  match_levels (gl ++ [gx]) ts = true → match_levels (dl ++ [dx]) ts = true).

Let x := fresh_level (dl ++ [dx]).

Lemma x_fresh : x ≠ "" ∧ free_of "/" x = true ∧ (x ∉ dl) ∧ (x ∉ dl ++ [dx]).
Proof.
  pose proof (fresh_level_fresh (dl ++ [dx])) as Hf. fold x in Hf.
  split; [apply fresh_level_nonempty|]. split; [by apply fresh_level_free|].
  split; [set_solver|done].
Qed.

(** What a prefix of the deny covers, from one matched topic. *)
Lemma cover_from_instance g e :
  "#" ∉ g → dx = "#" → length dl ≤ length g →
  match_levels (dl ++ [dx]) (instance x g ++ e) = true → levels_cover dl g = true.
Proof.
  intros Hn Hdx Hlen Hm. rewrite Hdx in Hm. destruct x_fresh as (_ & _ & Hx & _).
  apply match_levels_take in Hm as [_ Hm]; [|done].
  rewrite take_app_le, instance_take in Hm by (by rewrite length_instance).
  apply levels_cover_take_inv. eapply instance_cover; [|by apply not_elem_of_take|done|done|exact Hm].
  rewrite length_take. lia.
Qed.

Lemma complete_plain_grant : gx ≠ "#" → covers_levels (dl ++ [dx]) (gl ++ [gx]) = true.
Proof.
  intros Hgx. destruct x_fresh as (Hx0 & Hxf & Hx1 & Hx2).
  assert (Hn : "#" ∉ gl ++ [gx]) by set_solver.
  pose proof (Hcov _ (instance_topic_levels _ _ Hx0 Hxf Hg) (instance_match _ _ Hn)) as Hm.
  destruct (decide (dx = "#")) as [Edx|Hdx].
  - rewrite Edx, covers_levels_hash. apply (cover_from_instance _ []); [done..| |by rewrite app_nil_r].
    rewrite Edx in Hm. apply match_levels_take in Hm as [? _]; [|done]. by rewrite length_instance in *.
  - assert (Hnd : "#" ∉ dl ++ [dx]) by set_solver.
    pose proof (match_levels_length _ _ Hnd Hm) as Hlen. rewrite length_instance in Hlen.
    rewrite covers_levels_plain by done. by apply (instance_cover x).
Qed.

Lemma complete_hash_grant : gx = "#" →
  covers_levels (dl ++ [dx]) (gl ++ [gx]) = true ∨ (dl ++ [dx], gl ++ [gx]) ∈ uncovered_pairs.
Proof.
  intros Hgx. destruct x_fresh as (Hx0 & Hxf & Hx1 & Hx2). pose proof Hcov as Hc. pose proof Hg as Hg'. rewrite Hgx in Hc, Hg' |- *.
  assert (Hfgl : Forall (λ x, free_of "/" x = true) (instance x gl)).
  { apply Forall_fmap. destruct Hg' as (_ & _ & Hf). apply Forall_app in Hf as [Hf _].
    eapply Forall_impl; [exact Hf|]. intros l Hl. simpl. by case_decide. }
  destruct (decide (dx = "#")) as [Edx|Hdx].
  2:{ exfalso. assert (Hnd : "#" ∉ dl ++ [dx]) by set_solver.
    assert (Hm : match_levels (dl ++ [dx]) (instance x gl ++ replicate (length (dl ++ [dx]) + 1) x) = true).
    { apply Hc; [|by apply instance_hash_match]. rewrite Nat.add_comm. simpl. split; [|split].
      - by destruct (instance x gl).
      - destruct (instance x gl) as [|? [|]]; simpl; congruence.
      - apply Forall_app. split; [done|]. constructor; [done|]. by apply Forall_replicate. }
    apply match_levels_length in Hm; [|done]. rewrite length_app, length_replicate in Hm. lia. }
  destruct (decide (gl = [])) as [->|Hgl0]; [|destruct (decide (gl = [""])) as [->|Hgl1]].
  - assert (Hm : match_levels (dl ++ [dx]) [x] = true) by (apply Hc; [split; [done|split; [congruence|by repeat constructor]]|done]).
    rewrite Edx in Hm |- *. rewrite covers_levels_hash.
    destruct dl as [|l [|l2 dl0]]; [by left| |].
    + right. apply match_levels_take in Hm as [_ Hm]; [|done].
      apply match_levels_cons in Hm as (t & ts' & Heq & Ht & _); [|set_solver].
      clearbody x. simplify_eq/=. destruct Ht as [-> | ->]; [constructor|by destruct Hx1; left].
    + apply match_levels_take in Hm as [Hm _]; [|done]. simpl in Hm. lia.
  - assert (Hm : match_levels (dl ++ [dx]) [""; x] = true) by (apply Hc; [split; [done|split; [done|by repeat constructor]]|done]).
    rewrite Edx in Hm |- *. rewrite covers_levels_hash.
    destruct dl as [|l [|l2 [|l3 dl0]]]; [by left|..].
    + left. apply match_levels_take in Hm as [_ Hm]; [|done].
      apply match_levels_cons in Hm as (t & ts' & Heq & Ht & _); [|set_solver]. clearbody x. simplify_eq/=.
      rewrite andb_true_r. apply levelCovers_spec. naive_solver.
    + right. apply match_levels_take in Hm as [_ Hm]; [|done].
      apply match_levels_cons in Hm as (t & ts' & Heq & Ht & Hm); [|set_solver]. clearbody x. simpl in Heq. simplify_eq.
      apply match_levels_cons in Hm as (t' & ts' & Heq & Ht' & _); [|set_solver]. simplify_eq/=.
      destruct Ht' as [-> | ->]; [|by destruct Hx1; right; left].
      destruct Ht as [-> | ->]; repeat constructor.
    + apply match_levels_take in Hm as [Hm _]; [|done]. simpl in Hm. lia.
  - left. assert (Htop : topic_levels (instance x gl)).
    { apply instance_topic_levels; [done..|]. split; [done|]. split; [done|].
      destruct Hg' as (_ & _ & Hf). by apply Forall_app in Hf as [Hf _]. }
    assert (Hm : match_levels (dl ++ [dx]) (instance x gl) = true).
    { apply Hc; [done|]. rewrite <-(app_nil_r (instance x gl)). by apply instance_hash_match. }
    rewrite Edx, covers_levels_hash. apply levels_cover_app.
    apply (cover_from_instance _ []); [done..| |by rewrite app_nil_r].
    rewrite Edx in Hm. apply match_levels_take in Hm as [? _]; [|done]. by rewrite length_instance in *.
Qed.
End covers_complete.

(** ** Lemmas: the resolver's loop *)
Definition rule_matches (identity : Identity) (topic : string) (rule : Rule) : Prop :=
  TopicMatchesFilter (ruleFilter rule identity) topic = true.
#[export] Instance rule_matches_dec identity topic rule : Decision (rule_matches identity topic rule).
Proof. unfold rule_matches. apply _. Defined.

Lemma PermissionGrants_deny access : PermissionGrants PermissionDeny access = false.
Proof. unfold PermissionGrants. repeat case_decide; done. Qed.

Definition rule_denies (identity : Identity) (topic : string) (r : Rule) : bool :=
  TopicMatchesFilter (ruleFilter r identity) topic && bool_decide (r_permission r = PermissionDeny).
Definition rule_grants (identity : Identity) (topic access : string) (r : Rule) : bool :=
  TopicMatchesFilter (ruleFilter r identity) topic && PermissionGrants (r_permission r) access.

Lemma ep_step_eq identity topic access s r :
  ep_step identity topic access s r =
    mkEp (ep_matched s ++ filter (rule_matches identity topic) [r])
      (ep_denied s || rule_denies identity topic r) (ep_granted s || rule_grants identity topic access r).
Proof.
  destruct s as [m d g]. unfold ep_step, rule_denies, rule_grants. rewrite filter_cons, filter_nil.
  destruct (decide (rule_matches identity topic r)) as [Em|Em]; unfold rule_matches in Em.
  2:{ apply not_true_is_false in Em. rewrite Em. simpl. by rewrite app_nil_r, !orb_false_r. }
  rewrite Em. simpl.
  destruct (decide (r_permission r = PermissionDeny)) as [E|E].
  - by rewrite bool_decide_true, E, PermissionGrants_deny, orb_true_r, orb_false_r by done.
  - rewrite bool_decide_false, orb_false_r by done.
    destruct (PermissionGrants _ _); by rewrite ?orb_true_r, ?orb_false_r.
Qed.

Lemma ep_fold identity topic access l s :
  foldl (ep_step identity topic access) s l =
    mkEp (ep_matched s ++ filter (rule_matches identity topic) l)
      (ep_denied s || existsb (rule_denies identity topic) l)
      (ep_granted s || existsb (rule_grants identity topic access) l).
Proof.
  revert s. induction l as [|r l IH]; intros s.
  - simpl. rewrite app_nil_r, !orb_false_r. by destruct s.
  - cbn [foldl existsb]. rewrite IH, ep_step_eq. cbn [ep_matched ep_denied ep_granted].
    rewrite <-app_assoc, <-!orb_assoc, <-filter_app. done.
Qed.

Lemma elem_of_applicable rules identity r :
  r ∈ applicableRules rules identity ↔ r ∈ rules ∧ applies identity r = true.
Proof. unfold applicableRules. rewrite list_elem_of_filter. naive_solver. Qed.

(** The verdict, without the loop. *)
Definition deny_matches (rules : list Rule) (identity : Identity) (topic : string) : Prop :=
  ∃ r : Rule, r ∈ rules ∧ applies identity r = true ∧ rule_matches identity topic r ∧ r_permission r = PermissionDeny.
Definition grant_matches (rules : list Rule) (identity : Identity) (topic access : string) : Prop :=
  ∃ r : Rule, r ∈ rules ∧ applies identity r = true ∧ rule_matches identity topic r
    ∧ PermissionGrants (r_permission r) access = true.

Lemma allowed_iff rules identity topic access :
  d_allowed (EffectivePermission rules identity topic access) = true ↔
  grant_matches rules identity topic access ∧ ¬ deny_matches rules identity topic.
Proof.
  unfold EffectivePermission. rewrite ep_fold. simpl.
  set (den := existsb _ _). set (gra := existsb _ _).
  assert (Hden : den = true ↔ deny_matches rules identity topic).
  { unfold den, deny_matches, rule_denies. rewrite existsb_exists. setoid_rewrite andb_true_iff.
    setoid_rewrite bool_decide_eq_true. setoid_rewrite <-list_elem_of_In.
    setoid_rewrite elem_of_applicable. unfold rule_matches. naive_solver. }
  assert (Hgra : gra = true ↔ grant_matches rules identity topic access).
  { unfold gra, grant_matches, rule_grants. rewrite existsb_exists. setoid_rewrite andb_true_iff.
    setoid_rewrite <-list_elem_of_In. setoid_rewrite elem_of_applicable. unfold rule_matches. naive_solver. }
  destruct den, gra; simpl; naive_solver.
Qed.

Lemma grants_in rules identity g :
  g ∈ EffectiveGrants rules identity ↔
  ∃ r, r ∈ rules ∧ applies identity r = true ∧ r_permission r ≠ PermissionDeny ∧
    g = grant_of (filter (λ rule, r_permission rule = PermissionDeny) (applicableRules rules identity)) identity r.
Proof.
  unfold EffectiveGrants. rewrite elem_of_sort_stable, list_elem_of_fmap.
  setoid_rewrite list_elem_of_filter. setoid_rewrite elem_of_applicable. naive_solver.
Qed.

Lemma grant_denied_iff denies identity r :
  g_denied (grant_of denies identity r) = true ↔
  ∃ deny, deny ∈ denies ∧ FilterCovers (ruleFilter deny identity) (ruleFilter r identity) = true.
Proof.
  unfold grant_of. simpl. rewrite negb_true_iff, bool_decide_eq_false. split.
  - intros H. destruct (filter _ _) as [|f l] eqn:E; [done|].
    assert (Hin : f ∈ f :: l) by left. rewrite <-E in Hin.
    apply list_elem_of_filter in Hin as [Hc (deny & -> & Hd)%list_elem_of_fmap]. eauto.
  - intros (deny & Hd & Hc) E.
    assert (Hin : ruleFilter deny identity ∈ filter (λ denyFilter, FilterCovers denyFilter (ruleFilter r identity) = true)
      ((λ deny, ruleFilter deny identity) <$> denies)).
    { apply list_elem_of_filter. split; [done|]. apply list_elem_of_fmap. eauto. }
    rewrite E in Hin. by apply elem_of_nil in Hin.
Qed.

Lemma covers_sound d g topic :
  FilterCovers d g = true → TopicMatchesFilter g topic = true → TopicMatchesFilter d topic = true.
Proof.
  rewrite FilterCovers_levels, !TopicMatchesFilter_levels. intros (Hd & Hg & Hc) (_ & Ht & Hm).
  split; [done|]. split; [done|].
  destruct (exists_last (split_not_nil "/" d)) as (p & x & Ep). rewrite Ep in *.
  destruct (decide (x = "#")) as [->|Hx].
  - rewrite covers_levels_hash in Hc. by eapply prefix_cover_match.
  - destruct (decide (length (p ++ [x]) = length (split "/" g))) as [Hlen|Hlen].
    + rewrite covers_levels_plain in Hc by done.
      eapply levels_cover_match; [done..| |done]. by destruct (levels_cover_no_hash _ _ Hc).
    + unfold covers_levels in Hc. rewrite last_snoc in Hc.
      rewrite !decide_False in Hc by congruence. done.
Qed.

(** ** Lemmas: listener references *)
Definition listener_byte (c : ascii) : bool := listener_rune (byte_val c).

Lemma listener_rune_ascii r : listener_rune r = true → (r < 128)%Z.
Proof. unfold listener_rune, in_range. lia. Qed.

Lemma listener_byte_ascii c : listener_byte c = true → is_ascii c = true.
Proof. unfold listener_byte, is_ascii. intros ?%listener_rune_ascii. lia. Qed.

Lemma listener_runes id : forallb listener_rune (runes id) = all_bytes listener_byte id.
Proof.
  induction id as [|c id IH]; [done|]. destruct (is_ascii c) eqn:Ec.
  - rewrite runes_cons_ascii by done. simpl. by rewrite IH.
  - unfold runes. cbn [runes_go forallb all_bytes].
    pose proof (decode_rune_nonascii c id Ec) as Hr.
    destruct (listener_rune (fst (decode_rune (String c id)))) eqn:E.
    + apply listener_rune_ascii in E. lia.
    + unfold listener_byte, is_ascii in *. destruct (listener_rune (byte_val c)) eqn:E'; [|done].
      apply listener_rune_ascii in E'. lia.
Qed.

Lemma listener_bytes_runes id : all_bytes listener_byte id = true →
  contains_control id = false ∧ contains_byte "/" id = false ∧ contains_byte "\" id = false.
Proof.
  intros H. split; [|split].
  - unfold contains_control. induction id as [|c id IH]; [done|]. simpl in H. bool_hyps.
    rewrite runes_cons_ascii by (by apply listener_byte_ascii). simpl. rewrite IH by done. rewrite orb_false_r.
    unfold listener_byte, listener_rune, is_control, in_range in *. lia.
  - unfold contains_byte. induction id as [|c id IH]; [done|]. simpl in *. bool_hyps.
    rewrite bool_decide_true by (intros ->; done). by apply IH.
  - unfold contains_byte. induction id as [|c id IH]; [done|]. simpl in *. bool_hyps.
    rewrite bool_decide_true by (intros ->; done). by apply IH.
Qed.

(** ** Lemmas: normalisation *)
Lemma EffectiveSelector_Normalize r : EffectiveSelector (Normalize r) = EffectiveSelector r.
Proof. unfold EffectiveSelector. simpl. unfold EffectiveSelector. repeat case_decide; done. Qed.

Lemma EffectiveScope_Normalize r : EffectiveScope (Normalize r) = EffectiveScope r.
Proof. unfold EffectiveScope. simpl. unfold EffectiveScope. repeat case_decide; done. Qed.

Lemma ruleFilter_Normalize r i : ruleFilter (Normalize r) i = ruleFilter r i.
Proof. unfold ruleFilter. by rewrite EffectiveSelector_Normalize. Qed.

Lemma applies_Normalize r i : applies i (Normalize r) = applies i r.
Proof. unfold applies. by rewrite EffectiveSelector_Normalize. Qed.

(** A non-empty list of problems of one part makes the whole rule invalid. *)
Lemma ValidateRule_nil rule version :
  ValidateRuleForMosquittoVersion rule version = [] ↔
  principal_problems rule = [] ∧ scope_problems rule = [] ∧ topic_problems rule = []
    ∧ permission_problems rule version = [].
Proof. unfold ValidateRuleForMosquittoVersion. rewrite !app_nil. naive_solver. Qed.

(** ** Properties *)

(** The topic matcher decides MQTT topic matching: it answers true exactly
    when filter and topic are not empty and the levels are related by the
    inductive matching relation. *)
Theorem TopicMatchesFilter_spec filter topic :
  TopicMatchesFilter filter topic = true ↔
  filter ≠ "" ∧ topic ≠ "" ∧ matches (split "/" filter) (split "/" topic).
Proof. by rewrite TopicMatchesFilter_levels, match_levels_spec. Qed.

(** [C34] Covering, exactly: for valid filters, every topic the grant filter
    matches is matched by the deny filter if and only if [FilterCovers] says
    so or the pair is one of the three in [uncovered_pairs] ("+/#" against
    "#", and "/+/#" or "+/+/#" against "/#"), which the code reports as not
    covered although they are.  Covering is never reported wrongly. *)
Theorem FilterCovers_exact deny grant :
  valid_filter deny → valid_filter grant →
  (∀ topic, topic_of grant topic → topic_of deny topic) ↔
  FilterCovers deny grant = true ∨ (split "/" deny, split "/" grant) ∈ uncovered_pairs.
Proof.
  intros Hd Hg. apply valid_filter_levels in Hd as (Hd & dl & dx & Ed & Hdl & _).
  apply valid_filter_levels in Hg as (Hg & gl & gx & Eg & Hgl & _).
  pose proof (split_all_free "/" deny) as Hfd. pose proof (split_all_free "/" grant) as Hfg.
  split.
  - intros Hcov. rewrite FilterCovers_levels. rewrite Ed in Hfd |- *. rewrite Eg in Hfg |- *.
    assert (Htop : topic_levels (gl ++ [gx])).
    { split; [by destruct gl|]. split; [|done]. intros E. apply Hg.
      rewrite <-(join_split "/" grant), Eg, E. done. }
    assert (Hlev : ∀ ts, topic_levels ts → match_levels (gl ++ [gx]) ts = true → match_levels (dl ++ [dx]) ts = true).
    { intros ts Hts Hm. destruct (topic_levels_join ts Hts) as [Hne Hsp].
      specialize (Hcov (join "/" ts)). unfold topic_of in Hcov.
      rewrite !TopicMatchesFilter_levels, Hsp, Ed, Eg in Hcov. naive_solver. }
    destruct (decide (gx = "#")).
    + destruct (complete_hash_grant dl gl dx gx) as [?|?]; auto.
    + left. split_and!; [done..|]. by apply complete_plain_grant.
  - intros [Hc|Hex] topic.
    + by apply covers_sound.
    + unfold topic_of. rewrite !TopicMatchesFilter_levels. intros (_ & Ht & Hm).
      split; [done|]. split; [done|].
      assert (Hne : split "/" topic ≠ [""]).
      { intros E. apply Ht. by rewrite <-(join_split "/" topic), E. }
      assert (Hn : split "/" topic ≠ []) by apply split_not_nil.
      destruct (split "/" topic) as [|t1 [|t2 ts]]; [done|..];
        repeat (apply elem_of_cons in Hex as [Hex|Hex]); try (by apply elem_of_nil in Hex);
        injection Hex as E1 E2; rewrite E1; rewrite E2 in Hm; simpl in *; bool_hyps; subst; done.
Qed.

Lemma FilterCovers_exact_witness :
  valid_filter "+/#" ∧ valid_filter "#" ∧ FilterCovers "+/#" "#" = false ∧
  (∀ topic, topic_of "#" topic → topic_of "+/#" topic).
Proof.
  split; [vm_compute; reflexivity|]. split; [vm_compute; reflexivity|]. split; [vm_compute; reflexivity|].
  apply (FilterCovers_exact "+/#" "#"); [vm_compute; reflexivity..|].
  right. left.
Defined.

(** [C13] The verdict of the resolver: an access is granted exactly when some
    applicable rule that matches the topic grants it and no applicable rule
    that matches the topic is a deny; so the answer does not depend on the
    order of the rules.  The reported rules are the applicable ones that match,
    in order. *)
Theorem EffectivePermission_verdict rules identity topic access :
  (d_allowed (EffectivePermission rules identity topic access) = true ↔
     grant_matches rules identity topic access ∧ ¬ deny_matches rules identity topic) ∧
  d_matching (EffectivePermission rules identity topic access) =
     filter (rule_matches identity topic) (applicableRules rules identity) ∧
  (∀ rules', rules ≡ₚ rules' →
     d_allowed (EffectivePermission rules' identity topic access) =
     d_allowed (EffectivePermission rules identity topic access)).
Proof.
  split; [apply allowed_iff|]. split.
  - unfold EffectivePermission. rewrite ep_fold. simpl. repeat case_match; done.
  - intros rules' Hp. apply eq_bool_prop_intro. rewrite !Is_true_true, !allowed_iff.
    unfold grant_matches, deny_matches. by setoid_rewrite Hp.
Qed.

(** [C14] A grant the resolver reports as denied is never granted: whatever the
    topic it matches and the access asked for, the effective permission is
    refused. *)
Theorem EffectiveGrants_denied_sound rules identity g topic access :
  g ∈ EffectiveGrants rules identity → g_denied g = true →
  TopicMatchesFilter (g_topic_filter g) topic = true →
  d_allowed (EffectivePermission rules identity topic access) = false.
Proof.
  intros Hg Hd Ht. apply grants_in in Hg as (r & Hr & Ha & Hp & ->).
  apply grant_denied_iff in Hd as (deny & Hin & Hc). simpl in Ht.
  apply list_elem_of_filter in Hin as [Hdeny Hin]. apply elem_of_applicable in Hin as [Hin Happ].
  apply not_true_is_false. rewrite allowed_iff. intros [_ Hn]. apply Hn.
  exists deny. split_and!; try done. unfold rule_matches. by eapply covers_sound.
Qed.

Definition demo_rules : list Rule :=
  [ mkRule "1" "user" "global" "" "alice" "plant/+/temp" "read" "";
    mkRule "2" "pattern" "global" "" "" "plant/#" "deny" "";
    mkRule "3" "user" "" "" "bob" "plant/#" "readwrite" "" ].

Lemma EffectiveGrants_denied_sound_witness :
  d_allowed (EffectivePermission demo_rules (mkIdentity "alice" "c1") "plant/7/temp" AccessRead) = false.
Proof.
  eapply (EffectiveGrants_denied_sound demo_rules (mkIdentity "alice" "c1")
    (mkGrant "plant/+/temp" "read" "user" "alice" true ["plant/#"])).
  - vm_compute. left.
  - reflexivity.
  - vm_compute. reflexivity.
Defined.

(** The listener references that pass validation are exactly the names of
    1 to 64 letters, digits, dashes, underscores and dots other than "." and
    "..", so the file name built from one holds no path separator. *)
Theorem ValidateListenerID_charset id :
  ValidateListenerID id = None ↔
  id ≠ "" ∧ String.length id ≤ maxListenerIDLength ∧ id ≠ "." ∧ id ≠ ".." ∧ all_bytes listener_byte id = true.
Proof.
  unfold ValidateListenerID. rewrite listener_runes. split.
  - intros H. repeat case_match; try done.
    match goal with H : (_ <? _) = false |- _ => apply Nat.ltb_ge in H end.
    bool_hyps. done.
  - intros (Hne & Hlen & H1 & H2 & Hb). rewrite decide_False by done.
    destruct (Nat.ltb_spec maxListenerIDLength (String.length id)); [lia|].
    destruct (listener_bytes_runes id Hb) as (-> & -> & ->). simpl.
    by rewrite !bool_decide_false, Hb by done.
Qed.

(** Normalising a valid rule gives a valid rule and is idempotent, and no
    resolver answer changes when the rules are normalised before they are
    stored. *)
Theorem Normalize_preserves rule rules identity topic access version :
  ValidateRuleForMosquittoVersion rule version = [] →
  ValidateRuleForMosquittoVersion (Normalize rule) version = [] ∧
  Normalize (Normalize rule) = Normalize rule ∧
  d_allowed (EffectivePermission (Normalize <$> rules) identity topic access) =
    d_allowed (EffectivePermission rules identity topic access).
Proof.
  intros Hv. split; [|split].
  - apply ValidateRule_nil in Hv as (Hp & Hs & Ht & Hper). apply ValidateRule_nil.
    unfold principal_problems, topic_problems, permission_problems in *.
    rewrite EffectiveSelector_Normalize. split; [done|]. split; [|done].
    unfold scope_problems in *. rewrite EffectiveScope_Normalize. simpl.
    destruct (decide (EffectiveScope rule = ScopeGlobal)) as [E|E]; [by rewrite E|].
    destruct (decide (EffectiveScope rule = ScopeListener)); done.
  - unfold Normalize at 1. rewrite EffectiveSelector_Normalize, EffectiveScope_Normalize.
    unfold Normalize. simpl. f_equal. by repeat case_decide.
  - apply eq_bool_prop_intro. rewrite !Is_true_true, !allowed_iff.
    unfold grant_matches, deny_matches, rule_matches. setoid_rewrite list_elem_of_fmap. split.
    + intros [(r & (r' & -> & ?) & ? & ? & ?) Hn]. rewrite applies_Normalize, ruleFilter_Normalize in *.
      split; [eauto 10|]. intros (d & ? & ? & ? & ?). apply Hn. exists (Normalize d).
      rewrite applies_Normalize, ruleFilter_Normalize. eauto 10.
    + intros [(r & ? & ? & ? & ?) Hn]. split.
      * exists (Normalize r). rewrite applies_Normalize, ruleFilter_Normalize. eauto 10.
      * intros (d & (d' & -> & ?) & ? & ? & ?). rewrite applies_Normalize, ruleFilter_Normalize in *.
        apply Hn. eauto 10.
Qed.

Lemma Normalize_preserves_witness :
  ValidateRuleForMosquittoVersion (mkRule "3" "" "" "" "bob" "plant/#" "readwrite" "") "2.0" = [] ∧
  ValidateRuleForMosquittoVersion (Normalize (mkRule "3" "" "" "" "bob" "plant/#" "readwrite" "")) "2.0" = [].
Proof.
  split; [vm_compute; reflexivity|].
  apply (Normalize_preserves _ demo_rules (mkIdentity "bob" "") "plant" AccessRead).
  vm_compute. reflexivity.
Defined.
