(* ===== verification/AclDoc.v ===== *)
(** * [internal/mosquitto]: ACL files and ACL documents

    [acl.go] renders the managed rules as a Mosquitto ACL file and parses one
    back; [acldoc.go] keeps an adopted file as a document of verbatim lines and
    merges managed rules into it.  The [Issue] text of an entry is a
    constructor of [issue]. *)
From S2P Require Import Prelude Unicode GoStrings GoPath Acl.

(** ** [acl.go]: paths of the per-listener ACL files *)
Definition ListenerACLFileName (listenerID : string) : string := "acl." +:+ listenerID.

Definition ListenerACLPath (globalACLPath listenerID : string) : string :=
  if decide (globalACLPath = "") then ""
  else path_join [dir globalACLPath; ListenerACLFileName listenerID].

Definition BrokerACLPath (path globalACLFile listenerID : string) : string * bool :=
  if decide (path = "" ∨ globalACLFile = "" ∨ listenerID = "") then (path, false)
  else if decide (base_name path = ListenerACLFileName listenerID)
  then (path_join [dir globalACLFile; base_name path], true)
  else (path, false).

(** ** [acl.go]: rendering *)

(** [b.WriteString(line); b.WriteByte('\n')] for every line, then the last
    newline trimmed. *)
Definition render_lines (lines : list string) : string :=
  trim_suffix nl (foldr (λ line acc, line +:+ nl +:+ acc) "" lines).

Definition renderACLSection (rules : list Rule) (line : Rule → string) : string :=
  render_lines (line <$> rules).

Definition is_anonymous_rule (r : Rule) : Prop := EffectiveSelector r = SelectorAnonymous.
Definition is_pattern_rule (r : Rule) : Prop := EffectiveSelector r = SelectorPattern.
Definition is_grouped_rule (r : Rule) : Prop := ¬ is_anonymous_rule r ∧ ¬ is_pattern_rule r.
#[export] Instance is_anonymous_rule_dec r : Decision (is_anonymous_rule r).
Proof. unfold is_anonymous_rule. apply _. Defined.
#[export] Instance is_pattern_rule_dec r : Decision (is_pattern_rule r).
Proof. unfold is_pattern_rule. apply _. Defined.
#[export] Instance is_grouped_rule_dec r : Decision (is_grouped_rule r).
Proof. unfold is_grouped_rule. apply _. Defined.

(** The keys of the [groups] map, sorted, and the rules under one key. *)
Definition rule_principals (rules : list Rule) : list string :=
  sort_strings (dedup (r_principal <$> filter is_grouped_rule rules)).
Definition rule_group (rules : list Rule) (principal : string) : list Rule :=
  filter (λ r, r_principal r = principal) (filter is_grouped_rule rules).

Definition user_section (rules : list Rule) (principal : string) : string :=
  trim_suffix nl ("user " +:+ principal +:+ nl +:+
    foldr (λ r acc, MosquittoACL r +:+ nl +:+ acc) "" (rule_group rules principal)).

Definition acl_sections (rules : list Rule) : list string :=
  let anonymous := filter is_anonymous_rule rules in
  let patterns := filter is_pattern_rule rules in
  (match anonymous with [] => [] | _ => [renderACLSection anonymous MosquittoACL] end)
  ++ (match patterns with [] => [] | _ => [renderACLSection patterns MosquittoPatternACL] end)
  ++ (user_section rules <$> rule_principals rules).

Definition RenderACLFile (rules : list Rule) : string :=
  match rules with [] => "" | _ => join (nl +:+ nl) (acl_sections rules) end.

(** ** [acl.go]: parsing *)
Definition mosquittoPermToACLPerm (perm : string) : string :=
  if decide (perm ∈ validPermissions) then perm else "".

Definition parsed_rule (selector principal perm topic : string) : Rule :=
  mkRule "" selector ScopeGlobal "" principal topic (mosquittoPermToACLPerm (to_lower perm)) "".

(** One iteration of the loop of [ParseACLFile]: the state is the current user
    and the rules so far. *)
Definition parse_acl_line (st : string * list Rule) (raw : string) : string * list Rule :=
  let '(currentUser, rules) := st in
  let line := trim_space raw in
  if decide (line = "") then st
  else if has_prefix "#" line then st
  else
    match fields line with
    | directive :: arg1 :: rest =>
        let kw := to_lower directive in
        if decide (kw = "user") then (arg1, rules)
        else if decide (kw = "topic") then
          match rest with
          | [] => st
          | _ =>
              let topic := join " " rest in
              if decide (currentUser = "")
              then (currentUser, rules ++ [parsed_rule SelectorAnonymous "" arg1 topic])
              else (currentUser, rules ++ [parsed_rule SelectorUser currentUser arg1 topic])
          end
        else if decide (kw = "pattern") then
          match rest with
          | [] => st
          | _ => (currentUser, rules ++ [parsed_rule SelectorPattern "" arg1 (join " " rest)])
          end
        else st
    | _ => st
    end.

Definition ParseACLFile (body : string) : list Rule :=
  (foldl parse_acl_line ("", []) (split nl_char body)).2.

(** ** [acldoc.go]: the document *)
Inductive ACLEntryKind :=
  | ACLEntryBlank | ACLEntryComment | ACLEntryUser | ACLEntryTopic | ACLEntryPattern | ACLEntryUnknown.
#[export] Instance ACLEntryKind_eq_dec : EqDecision ACLEntryKind.
Proof. solve_decision. Defined.

Inductive issue :=
  | NoIssue
  | UserArity
  | TopicArity
  | PatternArity
  | UnsupportedDirective (directive : string)
  | UnsupportedPermission (permission : string)
  | InvalidRule (problems : list problem).

Record ACLEntry := mkEntry {
  e_kind : ACLEntryKind;
  e_raw : string;
  e_principal : string;
  e_rule : option Rule;
  e_issue : issue
}.

Record ACLDocument := mkDoc { doc_entries : list ACLEntry; doc_newline : bool }.

Definition buildACLRule (selector principal permission filter : string) : option Rule * issue :=
  let rule := mkRule "" selector "" "" principal filter (mosquittoPermToACLPerm (to_lower permission)) "" in
  if decide (r_permission rule = "") then (None, UnsupportedPermission permission)
  else match ValidateRule rule with
  | [] => (Some rule, NoIssue)
  | problems => (None, InvalidRule problems)
  end.

Definition unknown_entry (raw : string) (i : issue) : ACLEntry :=
  mkEntry ACLEntryUnknown raw "" None i.

(** The entry of a line and the scope after it. *)
Definition parseACLEntry (raw scope : string) : ACLEntry * string :=
  let trimmed := trim_space raw in
  if decide (trimmed = "") then (mkEntry ACLEntryBlank raw "" None NoIssue, scope)
  else if has_prefix "#" trimmed then (mkEntry ACLEntryComment raw "" None NoIssue, scope)
  else
    match fields trimmed with
    | [] => (mkEntry ACLEntryBlank raw "" None NoIssue, scope)
    | directive :: args =>
        let kw := to_lower directive in
        if decide (kw = "user") then
          match args with
          | [principal] => (mkEntry ACLEntryUser raw principal None NoIssue, principal)
          | _ => (unknown_entry raw UserArity, scope)
          end
        else if decide (kw = "topic") then
          match args with
          | perm :: ((_ :: _) as rest) =>
              let selector := if decide (scope = "") then SelectorAnonymous else SelectorUser in
              let '(rule, iss) := buildACLRule selector scope perm (join " " rest) in
              (mkEntry ACLEntryTopic raw scope rule iss, scope)
          | _ => (unknown_entry raw TopicArity, scope)
          end
        else if decide (kw = "pattern") then
          match args with
          | perm :: ((_ :: _) as rest) =>
              let '(rule, iss) := buildACLRule SelectorPattern "" perm (join " " rest) in
              (mkEntry ACLEntryPattern raw "" rule iss, scope)
          | _ => (unknown_entry raw PatternArity, scope)
          end
        else (unknown_entry raw (UnsupportedDirective directive), scope)
    end.

Fixpoint parse_entries (scope : string) (lines : list string) : list ACLEntry :=
  match lines with
  | [] => []
  | raw :: rest => let '(e, scope') := parseACLEntry raw scope in e :: parse_entries scope' rest
  end.

Definition ParseACLDocument (body : string) : ACLDocument :=
  if decide (body = "") then mkDoc [] false
  else
    let lines := split nl_char body in
    if has_suffix nl body then mkDoc (parse_entries "" (take (length lines - 1) lines)) true
    else mkDoc (parse_entries "" lines) false.

Definition Render (d : ACLDocument) : string :=
  match doc_entries d with
  | [] => ""
  | es => let out := join nl (e_raw <$> es) in if doc_newline d then out +:+ nl else out
  end.

Definition TypedRules (d : ACLDocument) : list Rule := omap e_rule (doc_entries d).

Definition Principals (d : ACLDocument) : list string :=
  dedup (e_principal <$> filter (λ e, e_kind e = ACLEntryUser ∧ e_principal e ≠ "") (doc_entries d)).

Definition UnknownEntries (d : ACLDocument) : list ACLEntry :=
  filter (λ e, e_kind e = ACLEntryUnknown) (doc_entries d).

(** ** [acldoc.go]: semantic keys *)
Definition permissionAndFilter (e : ACLEntry) : string * string :=
  match e_rule e with
  | Some r => (r_permission r, r_topic_filter r)
  | None =>
      match fields (trim_space (e_raw e)) with
      | _ :: perm :: ((_ :: _) as rest) => (to_lower perm, join " " rest)
      | _ => ("", "")
      end
  end.

Definition SemanticKey (e : ACLEntry) : string :=
  match e_kind e with
  | ACLEntryTopic =>
      let '(perm, filter) := permissionAndFilter e in
      if decide (e_principal e = "") then "anonymous | topic " +:+ perm +:+ " " +:+ filter
      else "user " +:+ e_principal e +:+ " | topic " +:+ perm +:+ " " +:+ filter
  | ACLEntryPattern =>
      let '(perm, filter) := permissionAndFilter e in "pattern | " +:+ perm +:+ " " +:+ filter
  | ACLEntryUnknown => "unknown | " +:+ trim_space (e_raw e)
  | _ => ""
  end.

Definition SemanticKeys (d : ACLDocument) : list string :=
  sort_strings (dedup (filter (λ key, key ≠ "") (SemanticKey <$> doc_entries d))).

Definition MissingSemanticEntries (base next : ACLDocument) : list string :=
  sort_strings (filter (λ key, key ∉ SemanticKeys next) (SemanticKeys base)).

Definition managedRuleKey (rule : Rule) : string :=
  let perm := r_permission rule in
  let filter := r_topic_filter rule in
  let sel := EffectiveSelector rule in
  if decide (sel = SelectorAnonymous) then "anonymous | topic " +:+ perm +:+ " " +:+ filter
  else if decide (sel = SelectorPattern) then "pattern | " +:+ perm +:+ " " +:+ filter
  else "user " +:+ r_principal rule +:+ " | topic " +:+ perm +:+ " " +:+ filter.

(** ** [acldoc.go]: merging managed rules *)

(** [insertACLEntry]; every caller passes an index within the slice. *)
Definition insertACLEntry (entries : list ACLEntry) (index : nat) (entry : ACLEntry) : list ACLEntry :=
  take index entries ++ entry :: drop index entries.

(** The inner loop of [composeUserInsertIndex]: [pos] is the index of the first
    of [entries], [insertAt] the best index so far. *)
Fixpoint section_end (principal : string) (entries : list ACLEntry) (pos insertAt : nat) : nat :=
  match entries with
  | [] => insertAt
  | e :: rest =>
      if decide (e_kind e = ACLEntryUser) then insertAt
      else if decide (e_kind e = ACLEntryTopic ∧ e_principal e = principal)
      then section_end principal rest (S pos) (S pos)
      else section_end principal rest (S pos) insertAt
  end.

Fixpoint user_index_go (principal : string) (entries : list ACLEntry) (pos : nat) : nat * bool :=
  match entries with
  | [] => (pos, true)
  | e :: rest =>
      if decide (e_kind e ≠ ACLEntryUser ∨ e_principal e ≠ principal)
      then user_index_go principal rest (S pos)
      else (section_end principal rest (S pos) (S pos), false)
  end.

Definition composeUserInsertIndex (entries : list ACLEntry) (rule : Rule) : nat * bool :=
  user_index_go (r_principal rule) entries 0.

Fixpoint first_user_index (entries : list ACLEntry) (pos : nat) : nat :=
  match entries with
  | [] => pos
  | e :: rest => if decide (e_kind e = ACLEntryUser) then pos else first_user_index rest (S pos)
  end.

(** [last + 1] in the anonymous branch: 0 when no topic entry was seen. *)
Fixpoint after_last_topic (entries : list ACLEntry) (pos best : nat) : nat :=
  match entries with
  | [] => best
  | e :: rest =>
      if decide (e_kind e = ACLEntryUser) then best
      else if decide (e_kind e = ACLEntryTopic) then after_last_topic rest (S pos) (S pos)
      else after_last_topic rest (S pos) best
  end.

Definition composeInsertIndex (entries : list ACLEntry) (rule : Rule) : nat :=
  let sel := EffectiveSelector rule in
  if decide (sel = SelectorPattern) then first_user_index entries 0
  else if decide (sel = SelectorAnonymous) then after_last_topic entries 0 0
  else (composeUserInsertIndex entries rule).1.

Inductive warning := Skipped (key : string) | Inserted (key : string).

(** Where a normalised rule goes, and the entries that carry it. *)
Definition insert_managed (entries : list ACLEntry) (normalized : Rule) : list ACLEntry :=
  let sel := EffectiveSelector normalized in
  if decide (sel = SelectorPattern) then
    insertACLEntry entries (composeInsertIndex entries normalized)
      (mkEntry ACLEntryPattern (MosquittoPatternACL normalized) "" (Some normalized) NoIssue)
  else if decide (sel = SelectorAnonymous) then
    insertACLEntry entries (composeInsertIndex entries normalized)
      (mkEntry ACLEntryTopic (MosquittoACL normalized) "" (Some normalized) NoIssue)
  else
    let '(index, needsHeader) := composeUserInsertIndex entries normalized in
    let header := mkEntry ACLEntryUser ("user " +:+ r_principal normalized) (r_principal normalized) None NoIssue in
    let entry := mkEntry ACLEntryTopic (MosquittoACL normalized) (r_principal normalized) (Some normalized) NoIssue in
    if needsHeader then insertACLEntry (insertACLEntry entries index header) (S index) entry
    else insertACLEntry entries index entry.

(** The state of the loop: the composed entries, the [existing] set and the
    warnings. *)
Record compose_state := mkCompose {
  c_entries : list ACLEntry;
  c_existing : gset string;
  c_warnings : list warning
}.

Definition compose_step (s : compose_state) (rule : Rule) : compose_state :=
  let key := managedRuleKey rule in
  if decide (key ∈ c_existing s) then
    mkCompose (c_entries s) (c_existing s) (c_warnings s ++ [Skipped key])
  else
    mkCompose (insert_managed (c_entries s) (Normalize rule)) ({[key]} ∪ c_existing s)
      (c_warnings s ++ [Inserted key]).

Definition compose_init (doc : ACLDocument) : compose_state :=
  mkCompose (doc_entries doc)
    (list_to_set (filter (λ key, key ≠ "") (SemanticKey <$> doc_entries doc))) [].

Definition ComposeACLDocument (doc : ACLDocument) (managed : list Rule) : ACLDocument * list warning :=
  let s := foldl compose_step (compose_init doc) managed in
  (mkDoc (c_entries s) (doc_newline doc), c_warnings s).

(** ** Specifications *)

(** A property of every entry together with the scope it is read under: the
    principal of the last [user] header before it. *)
Definition scope_step (scope : string) (e : ACLEntry) : string :=
  if decide (e_kind e = ACLEntryUser) then e_principal e else scope.
Definition scope_after (scope : string) (entries : list ACLEntry) : string := foldl scope_step scope entries.

Fixpoint scoped_by (P : string → ACLEntry → Prop) (scope : string) (entries : list ACLEntry) : Prop :=
  match entries with
  | [] => True
  | e :: rest => P scope e ∧ scoped_by P (scope_step scope e) rest
  end.

(** A header names a principal, a topic entry carries the one of its section,
    the other entries none. *)
Definition scope_ok (scope : string) (e : ACLEntry) : Prop :=
  match e_kind e with
  | ACLEntryUser => e_principal e ≠ ""
  | ACLEntryTopic => e_principal e = scope
  | _ => e_principal e = ""
  end.

(** The raw line of an entry, read under the scope, means what the entry means. *)
Definition same_meaning (e e' : ACLEntry) : Prop :=
  e_kind e = e_kind e' ∧ e_principal e = e_principal e' ∧ SemanticKey e = SemanticKey e'.
Definition reads_back (scope : string) (e : ACLEntry) : Prop :=
  same_meaning (parseACLEntry (e_raw e) scope).1 e ∧ free_of nl_char (e_raw e) = true.

(** The semantic keys of the entries that have one, with their duplicates; the
    principals of the section headers; the entries that are neither. *)
Definition keys_of (entries : list ACLEntry) : list string := filter (λ k, k ≠ "") (SemanticKey <$> entries).
Definition sections_of (entries : list ACLEntry) : list string := e_principal <$> filter (λ e, e_kind e = ACLEntryUser) entries.
Definition remarks_of (entries : list ACLEntry) : list ACLEntry := filter (λ e, SemanticKey e = "" ∧ e_kind e ≠ ACLEntryUser) entries.

(** A rule the store accepts. *)
Definition valid_rule (r : Rule) : Prop := ValidateRule r = [].

(** ** Lemmas: documents render verbatim *)
Lemma parseACLEntry_raw raw scope : e_raw (parseACLEntry raw scope).1 = raw.
Proof.
  unfold parseACLEntry. cbv zeta. repeat case_match; done.
Qed.

Lemma parse_entries_raw scope lines : e_raw <$> parse_entries scope lines = lines.
Proof.
  revert scope. induction lines as [|l lines IH]; intros scope; [done|].
  simpl. pose proof (parseACLEntry_raw l scope). destruct (parseACLEntry l scope) as [e scope'].
  rewrite fmap_cons, IH. simpl in *. by subst.
Qed.

Lemma has_suffix_app p s : has_suffix p s = true → ∃ a, s = a +:+ p.
Proof.
  induction s as [|c s IH]; simpl.
  - rewrite orb_false_r. intros H. bool_hyps. by exists "".
  - rewrite orb_true_iff. intros [H|H]; bool_hyps; [by exists ""|].
    destruct (IH H) as [a ->]. by exists (String c a).
Qed.

Lemma split_suffix_nl body :
  has_suffix nl body = true → ∃ a, body = a +:+ nl ∧ split nl_char body = split nl_char a ++ [""].
Proof.
  intros H. destruct (has_suffix_app _ _ H) as [a ->]. exists a. split; [done|].
  unfold nl. by rewrite split_app_sep.
Qed.

(** ** Lemmas: inserting *)
Lemma insert_sublist entries i e : entries `sublist_of` insertACLEntry entries i e.
Proof.
  unfold insertACLEntry. rewrite <-(take_drop i entries) at 1.
  apply sublist_app; [done|]. by constructor.
Qed.

Lemma insert_perm entries i e : insertACLEntry entries i e ≡ₚ e :: entries.
Proof.
  unfold insertACLEntry. rewrite <-Permutation_middle. by rewrite take_drop.
Qed.

Lemma insert_managed_sublist entries r : entries `sublist_of` insert_managed entries r.
Proof.
  unfold insert_managed. repeat case_decide; [apply insert_sublist..|].
  destruct (composeUserInsertIndex entries r) as [i []]; [|apply insert_sublist].
  etrans; apply insert_sublist.
Qed.

Lemma compose_sublist s managed : c_entries s `sublist_of` c_entries (foldl compose_step s managed).
Proof.
  revert s. induction managed as [|r managed IH]; intros s; [done|]. simpl.
  etrans; [|apply IH]. unfold compose_step. cbv zeta. case_decide; [done|].
  apply insert_managed_sublist.
Qed.

(** ** Lemmas: scopes *)
Definition no_user (entries : list ACLEntry) : Prop := Forall (λ e, e_kind e ≠ ACLEntryUser) entries.

Lemma scope_after_no_user scope entries : no_user entries → scope_after scope entries = scope.
Proof.
  induction 1 as [|e entries He Hes IH]; [done|]. unfold scope_after in *. simpl.
  unfold scope_step at 2. by rewrite decide_False.
Qed.

Section scoped_by_lemmas.
Context (P : string → ACLEntry → Prop).

Lemma scoped_by_app scope l1 l2 :
  scoped_by P scope (l1 ++ l2) ↔ scoped_by P scope l1 ∧ scoped_by P (scope_after scope l1) l2.
Proof.
  revert scope. induction l1 as [|e l1 IH]; intros scope; simpl; [naive_solver|].
  unfold scope_after in *. simpl. rewrite IH. tauto.
Qed.

Lemma insert_scoped scope entries i e :
  e_kind e ≠ ACLEntryUser → P (scope_after scope (take i entries)) e →
  scoped_by P scope entries → scoped_by P scope (insertACLEntry entries i e).
Proof.
  intros Hk He Hw. unfold insertACLEntry. rewrite <-(take_drop i entries), scoped_by_app in Hw.
  rewrite scoped_by_app. simpl. unfold scope_step at 1. rewrite decide_False by done. tauto.
Qed.

Lemma append_scoped scope entries e :
  P (scope_after scope entries) e → scoped_by P scope entries →
  scoped_by P scope (insertACLEntry entries (length entries) e).
Proof.
  intros He Hw. unfold insertACLEntry. rewrite take_ge, drop_ge by lia. rewrite scoped_by_app. simpl. tauto.
Qed.

Lemma scoped_by_impl (Q : string → ACLEntry → Prop) scope entries :
  (∀ s e, P s e → Q s e) → scoped_by P scope entries → scoped_by Q scope entries.
Proof.
  intros HPQ. revert scope. induction entries as [|e entries IH]; intros scope; [done|].
  simpl. naive_solver.
Qed.
End scoped_by_lemmas.

Lemma first_user_index_spec entries pos :
  ∃ k, first_user_index entries pos = pos + k ∧ k ≤ length entries ∧ no_user (take k entries).
Proof.
  revert pos. induction entries as [|e entries IH]; intros pos; simpl.
  - exists 0. split; [lia|]. split; [lia|constructor].
  - case_decide; [exists 0; split; [lia|]; split; [lia|constructor]|].
    destruct (IH (S pos)) as (k & -> & ? & ?). exists (S k). split; [lia|]. split; [lia|]. by constructor.
Qed.

Lemma after_last_topic_spec entries pos best :
  after_last_topic entries pos best = best ∨
  ∃ k, after_last_topic entries pos best = pos + k ∧ k ≤ length entries ∧ no_user (take k entries).
Proof.
  revert pos best. induction entries as [|e entries IH]; intros pos best; simpl; [by left|].
  destruct (decide (e_kind e = ACLEntryUser)); [by left|].
  destruct (decide (e_kind e = ACLEntryTopic)).
  - right. destruct (IH (S pos) (S pos)) as [->|(k & -> & ? & ?)].
    + exists 1. split; [lia|]. split; [lia|]. simpl. rewrite take_0. by repeat constructor.
    + exists (S k). split; [lia|]. split; [lia|]. by constructor.
  - destruct (IH (S pos) best) as [->|(k & -> & ? & ?)]; [by left|].
    right. exists (S k). split; [lia|]. split; [lia|]. by constructor.
Qed.

Lemma section_end_spec p entries pos best :
  section_end p entries pos best = best ∨
  ∃ k, section_end p entries pos best = pos + k ∧ k ≤ length entries ∧ no_user (take k entries).
Proof.
  revert pos best. induction entries as [|e entries IH]; intros pos best; simpl; [by left|].
  destruct (decide (e_kind e = ACLEntryUser)); [by left|].
  destruct (decide (e_kind e = ACLEntryTopic ∧ e_principal e = p)).
  - right. destruct (IH (S pos) (S pos)) as [->|(k & -> & ? & ?)].
    + exists 1. split; [lia|]. split; [lia|]. simpl. rewrite take_0. by repeat constructor.
    + exists (S k). split; [lia|]. split; [lia|]. by constructor.
  - destruct (IH (S pos) best) as [->|(k & -> & ? & ?)]; [by left|].
    right. exists (S k). split; [lia|]. split; [lia|]. by constructor.
Qed.

(** The index found for a principal is inside a section of that principal, or
    the end of a document without one. *)
Lemma user_index_spec p entries pos scope :
  match user_index_go p entries pos with
  | (i, true) => i = pos + length entries
  | (i, false) => ∃ k, i = pos + k ∧ k ≤ length entries ∧ scope_after scope (take k entries) = p
  end.
Proof.
  revert pos scope. induction entries as [|e entries IH]; intros pos scope; simpl; [lia|].
  case_decide as Hd.
  - specialize (IH (S pos) (scope_step scope e)). destruct (user_index_go p entries (S pos)) as [i []]; [lia|].
    destruct IH as (k & -> & ? & ?). exists (S k). split; [lia|]. split; [lia|]. done.
  - destruct (decide (e_kind e = ACLEntryUser)) as [Hk|]; [|naive_solver].
    destruct (decide (e_principal e = p)) as [Hp|]; [|naive_solver].
    assert (Hs : scope_step scope e = p) by (unfold scope_step; by rewrite decide_True).
    destruct (section_end_spec p entries (S pos) (S pos)) as [->|(k & -> & ? & ?)].
    + exists 1. split; [lia|]. split; [lia|]. simpl. unfold scope_after. simpl. done.
    + exists (S k). split; [lia|]. split; [lia|]. unfold scope_after. simpl. rewrite Hs.
      by apply (scope_after_no_user p).
Qed.

Lemma valid_selector r : valid_rule r →
  EffectiveSelector r = SelectorUser ∨ EffectiveSelector r = SelectorAnonymous ∨ EffectiveSelector r = SelectorPattern.
Proof.
  intros Hv. apply ValidateRule_nil in Hv as (H1 & _). unfold principal_problems in H1. cbv zeta in H1.
  destruct (decide (EffectiveSelector r = SelectorUser)); [auto|].
  destruct (decide (EffectiveSelector r = SelectorAnonymous ∨ EffectiveSelector r = SelectorPattern)); [tauto|done].
Qed.

Lemma valid_user_principal r :
  valid_rule r → EffectiveSelector r ≠ SelectorPattern → EffectiveSelector r ≠ SelectorAnonymous →
  r_principal r ≠ "".
Proof.
  intros Hv Hp Ha E. apply ValidateRule_nil in Hv as (Hpr & _).
  unfold principal_problems in Hpr. cbv zeta in Hpr.
  rewrite E in Hpr. repeat case_decide; naive_solver.
Qed.

Lemma valid_other_principal r :
  valid_rule r → EffectiveSelector r = SelectorPattern ∨ EffectiveSelector r = SelectorAnonymous →
  r_principal r = "".
Proof.
  intros Hv Hs. apply ValidateRule_nil in Hv as (Hpr & _).
  unfold principal_problems in Hpr. cbv zeta in Hpr.
  destruct Hs as [E|E]; rewrite E in Hpr; simpl in Hpr; by repeat case_decide.
Qed.

(** Inserting a managed rule keeps any scoped property its entries have. *)
Section insert_managed_lemmas.
Context (P : string → ACLEntry → Prop) (r : Rule).
Let n := Normalize r.
Context (Hpattern : EffectiveSelector r = SelectorPattern → ∀ s,
  P s (mkEntry ACLEntryPattern (MosquittoPatternACL n) "" (Some n) NoIssue)).
Context (Hanonymous : EffectiveSelector r = SelectorAnonymous →
  P "" (mkEntry ACLEntryTopic (MosquittoACL n) "" (Some n) NoIssue)).
Context (Huser : EffectiveSelector r ≠ SelectorPattern → EffectiveSelector r ≠ SelectorAnonymous →
  P (r_principal r) (mkEntry ACLEntryTopic (MosquittoACL n) (r_principal r) (Some n) NoIssue) ∧
  ∀ s, P s (mkEntry ACLEntryUser ("user " +:+ r_principal r) (r_principal r) None NoIssue)).

Lemma insert_managed_scoped entries :
  scoped_by P "" entries → scoped_by P "" (insert_managed entries n).
Proof.
  intros Hw. unfold insert_managed, composeInsertIndex. cbv zeta.
  destruct (decide (EffectiveSelector n = SelectorPattern)) as [Hp|Hp];
    [|destruct (decide (EffectiveSelector n = SelectorAnonymous)) as [Ha|Ha]];
    unfold n in Hp; rewrite EffectiveSelector_Normalize in Hp.
  - apply insert_scoped; [done|by apply Hpattern|done].
  - unfold n in Ha; rewrite EffectiveSelector_Normalize in Ha.
    apply insert_scoped; [done| |done].
    replace (scope_after _ _) with ""; [by apply Hanonymous|].
    symmetry. destruct (after_last_topic_spec entries 0 0) as [->|(k & -> & _ & Hn)]; [done|].
    by apply scope_after_no_user.
  - unfold n in Ha; rewrite EffectiveSelector_Normalize in Ha. destruct (Huser Hp Ha) as [Ht Hh].
    pose proof (user_index_spec (r_principal r) entries 0 "") as Hi.
    unfold composeUserInsertIndex. change (r_principal n) with (r_principal r).
    destruct (user_index_go (r_principal r) entries 0) as [i []].
    + simpl in Hi. subst i. set (es' := insertACLEntry entries (length entries) _).
      assert (length es' = S (length entries)) as Hlen by (unfold es'; by rewrite insert_perm).
      rewrite <-Hlen. apply append_scoped; [|by apply append_scoped].
      replace (scope_after _ _) with (r_principal r); [done|].
      unfold es', insertACLEntry. rewrite take_ge, drop_ge by lia. unfold scope_after. by rewrite foldl_app.
    + destruct Hi as (k & -> & _ & Hs). apply insert_scoped; [done| |done]. simpl. by rewrite Hs.
Qed.
End insert_managed_lemmas.

(** ** Lemmas: semantic keys *)
Lemma SemanticKey_managed r : valid_rule r →
  ∀ e, e_rule e = Some (Normalize r) →
    (EffectiveSelector r = SelectorPattern → e_kind e = ACLEntryPattern) →
    (EffectiveSelector r ≠ SelectorPattern → e_kind e = ACLEntryTopic ∧ e_principal e = r_principal r) →
  SemanticKey e = managedRuleKey r.
Proof.
  intros Hv e Hr Hp Ht. unfold SemanticKey, permissionAndFilter, managedRuleKey. cbv zeta. rewrite Hr. simpl.
  destruct (decide (EffectiveSelector r = SelectorPattern)) as [E|E].
  - rewrite (Hp E). rewrite decide_False by (rewrite E; done). done.
  - destruct (Ht E) as [-> ->]. destruct (decide (EffectiveSelector r = SelectorAnonymous)) as [Ea|Ea].
    + rewrite decide_True; [done|]. apply valid_other_principal; auto.
    + rewrite decide_False; [done|]. by apply valid_user_principal.
Qed.

Lemma managedRuleKey_ne r : managedRuleKey r ≠ "".
Proof. unfold managedRuleKey. cbv zeta. repeat case_decide; done. Qed.

Lemma insert_managed_keys r entries key :
  valid_rule r → key ≠ "" →
  key ∈ SemanticKey <$> insert_managed entries (Normalize r) ↔
  key = managedRuleKey r ∨ key ∈ SemanticKey <$> entries.
Proof.
  intros Hv Hk. unfold insert_managed, composeInsertIndex. cbv zeta.
  destruct (decide (EffectiveSelector (Normalize r) = SelectorPattern)) as [Hp|Hp];
    [|destruct (decide (EffectiveSelector (Normalize r) = SelectorAnonymous)) as [Ha|Ha]];
    rewrite EffectiveSelector_Normalize in Hp.
  - rewrite insert_perm, fmap_cons, elem_of_cons, (SemanticKey_managed r); naive_solver.
  - rewrite EffectiveSelector_Normalize in Ha. pose proof (valid_other_principal r Hv (or_intror Ha)).
    rewrite insert_perm, fmap_cons, elem_of_cons, (SemanticKey_managed r); naive_solver.
  - assert (∀ i, SemanticKey (mkEntry ACLEntryTopic (MosquittoACL (Normalize r)) (r_principal (Normalize r))
      (Some (Normalize r)) i) = managedRuleKey r) as Hkey.
    { intros i. apply SemanticKey_managed; naive_solver. }
    destruct (composeUserInsertIndex entries (Normalize r)) as [i []].
    + rewrite !insert_perm, !fmap_cons, !elem_of_cons, Hkey. simpl. naive_solver.
    + rewrite insert_perm, fmap_cons, elem_of_cons, Hkey. done.
Qed.

(** *** What one inserted rule adds: its key, once, and a header at need *)
Lemma needs_header principal entries pos :
  (user_index_go principal entries pos).2 = negb (bool_decide (principal ∈ sections_of entries)).
Proof.
  revert pos. induction entries as [|e entries IH]; intros pos; [done|]. cbn [user_index_go]. unfold sections_of.
  destruct (decide (e_kind e = ACLEntryUser)) as [Hk|Hk].
  - rewrite filter_cons_True, fmap_cons by done. destruct (decide (e_principal e = principal)) as [<-|Hn].
    + rewrite decide_False by tauto. rewrite bool_decide_true by by left. done.
    + rewrite decide_True by tauto. rewrite IH. f_equal. apply bool_decide_ext. rewrite elem_of_cons. intuition congruence.
  - rewrite decide_True, filter_cons_False by tauto. apply IH.
Qed.

Lemma filter_all {A} (P : A → Prop) `{!∀ x, Decision (P x)} l : Forall P l → filter P l = l.
Proof. induction 1 as [|x l Hx _ IH]; [done|]. by rewrite filter_cons_True, IH. Qed.

(** The entries a rule adds: its own and, for a principal without a section, a
    header. *)
Lemma insert_managed_perm r entries : valid_rule r → ∃ e headers,
  insert_managed entries (Normalize r) ≡ₚ e :: headers ++ entries
  ∧ remarks_of (insert_managed entries (Normalize r)) = remarks_of entries
  ∧ SemanticKey e = managedRuleKey r ∧ e_kind e ≠ ACLEntryUser
  ∧ Forall (λ h, SemanticKey h = "" ∧ e_kind h = ACLEntryUser ∧ e_principal h = r_principal r
                 ∧ EffectiveSelector r = SelectorUser ∧ r_principal r ∉ sections_of entries) headers
  ∧ NoDup (e_principal <$> headers).
Proof.
  intros Hv. assert (∀ es i e, SemanticKey e ≠ "" ∨ e_kind e = ACLEntryUser → remarks_of (insertACLEntry es i e) = remarks_of es) as Hrem.
  { intros es i e He. unfold remarks_of, insertACLEntry. rewrite filter_app, filter_cons_False by tauto. by rewrite <-filter_app, take_drop. }
  unfold insert_managed, composeInsertIndex. cbv zeta. pose proof (managedRuleKey_ne r) as Hne.
  destruct (decide (EffectiveSelector (Normalize r) = SelectorPattern)) as [Hp|Hp];
    [|destruct (decide (EffectiveSelector (Normalize r) = SelectorAnonymous)) as [Ha|Ha]];
    rewrite EffectiveSelector_Normalize in Hp; [set (e := mkEntry ACLEntryPattern _ _ _ _)|set (e := mkEntry ACLEntryTopic _ _ _ _)|].
  - assert (SemanticKey e = managedRuleKey r) as Hkey by (apply SemanticKey_managed; naive_solver).
    exists e, []. split; [apply insert_perm|]. rewrite Hrem by (rewrite Hkey; by left). split_and!; try done; by constructor.
  - rewrite EffectiveSelector_Normalize in Ha. pose proof (valid_other_principal r Hv (or_intror Ha)).
    assert (SemanticKey e = managedRuleKey r) as Hkey by (apply SemanticKey_managed; naive_solver).
    exists e, []. split; [apply insert_perm|]. rewrite Hrem by (rewrite Hkey; by left). split_and!; try done; by constructor.
  - set (e := mkEntry ACLEntryTopic (MosquittoACL (Normalize r)) _ _ _). rewrite EffectiveSelector_Normalize in Ha.
    assert (SemanticKey e = managedRuleKey r) as Hkey by (apply SemanticKey_managed; naive_solver).
    assert (EffectiveSelector r = SelectorUser) as Hu by (destruct (valid_selector r Hv) as [?|[?|?]]; tauto).
    pose proof (needs_header (r_principal (Normalize r)) entries 0) as Hh. unfold composeUserInsertIndex.
    destruct (user_index_go _ entries 0) as [i []]; cbn [snd] in Hh.
    + symmetry in Hh. apply negb_true_iff, bool_decide_eq_false in Hh. set (h := mkEntry ACLEntryUser _ _ _ _).
      exists e, [h]. split; [by rewrite !insert_perm|]. rewrite !Hrem by (rewrite ?Hkey; tauto). split_and!; try done; repeat constructor; try done. by apply not_elem_of_nil.
    + exists e, []. split; [apply insert_perm|]. rewrite Hrem by (rewrite Hkey; by left). split_and!; try done; by constructor.
Qed.

Lemma insert_managed_adds r entries : valid_rule r →
  keys_of (insert_managed entries (Normalize r)) ≡ₚ managedRuleKey r :: keys_of entries
  ∧ remarks_of (insert_managed entries (Normalize r)) = remarks_of entries
  ∧ ∃ new, sections_of (insert_managed entries (Normalize r)) ≡ₚ new ++ sections_of entries ∧ NoDup new
      ∧ ∀ p, p ∈ new → p = r_principal r ∧ EffectiveSelector r = SelectorUser ∧ p ∉ sections_of entries.
Proof.
  intros Hv. destruct (insert_managed_perm r entries Hv) as (e & headers & Hperm & Hrem & Hkey & Hkind & Hh & Hnd).
  split; [|split; [done|]].
  - unfold keys_of. rewrite Hperm, fmap_cons, filter_cons_True, Hkey by (rewrite Hkey; apply managedRuleKey_ne).
    rewrite fmap_app, filter_app. replace (filter _ (SemanticKey <$> headers)) with ([] : list string); [done|].
    symmetry. apply filter_nil_iff. intros k (h & -> & Hin)%list_elem_of_fmap Hk. rewrite Forall_forall in Hh. by destruct (Hh h Hin) as [? _].
  - exists (e_principal <$> headers). unfold sections_of. rewrite Hperm, filter_cons_False, filter_app, fmap_app by done.
    assert (filter (λ e, e_kind e = ACLEntryUser) headers = headers) as ->.
    { apply filter_all. eapply Forall_impl; [exact Hh|]. by intros h (_ & ? & _). }
    split; [done|]. split; [done|]. intros p (h & -> & Hin)%list_elem_of_fmap. rewrite Forall_forall in Hh. by destruct (Hh h Hin) as (_ & _ & -> & ? & ?).
Qed.

Lemma elem_of_SemanticKeys d key :
  key ∈ SemanticKeys d ↔ key ≠ "" ∧ key ∈ SemanticKey <$> doc_entries d.
Proof. unfold SemanticKeys. by rewrite elem_of_sort_strings, elem_of_dedup, list_elem_of_filter. Qed.

(** The [existing] set of the loop is the set of keys of the composed entries. *)
Definition compose_inv (s : compose_state) : Prop :=
  ∀ key, key ∈ c_existing s ↔ key ≠ "" ∧ key ∈ SemanticKey <$> c_entries s.

Lemma compose_inv_init doc : compose_inv (compose_init doc).
Proof. intros key. simpl. by rewrite elem_of_list_to_set, list_elem_of_filter. Qed.

Lemma compose_step_spec s r :
  valid_rule r → compose_inv s →
  compose_inv (compose_step s r) ∧
  (∀ key, key ∈ c_existing (compose_step s r) ↔ key = managedRuleKey r ∨ key ∈ c_existing s).
Proof.
  intros Hv Hinv. unfold compose_step. cbv zeta. case_decide as Hk; simpl.
  { split; [exact Hinv|]. intros key. naive_solver. }
  split; [|intros key; by rewrite elem_of_union, elem_of_singleton].
  intros key. simpl. rewrite elem_of_union, elem_of_singleton, (Hinv key).
  pose proof (managedRuleKey_ne r). destruct (decide (key = "")) as [->|Hne]; [naive_solver|].
  rewrite insert_managed_keys by done. naive_solver.
Qed.

Lemma compose_fold_spec managed s :
  Forall valid_rule managed → compose_inv s →
  compose_inv (foldl compose_step s managed) ∧
  (∀ key, key ∈ c_existing (foldl compose_step s managed) ↔
     key ∈ managedRuleKey <$> managed ∨ key ∈ c_existing s).
Proof.
  intros Hv. revert s. induction Hv as [|r managed Hr Hv IH]; intros s Hs.
  { split; [exact Hs|]. intros key. simpl. rewrite elem_of_nil. tauto. }
  simpl.
  destruct (compose_step_spec s r Hr Hs) as [Hi Hk]. destruct (IH _ Hi) as [Hi' Hk'].
  split; [done|]. intros key. rewrite Hk', Hk, elem_of_cons. naive_solver.
Qed.

Lemma elem_of_keys_of entries key : key ∈ keys_of entries ↔ key ≠ "" ∧ key ∈ SemanticKey <$> entries.
Proof. unfold keys_of. by rewrite list_elem_of_filter. Qed.

(** The keys that a list adds to a set of keys: those that are missing, once. *)
Definition missing_keys (present keys : list string) : list string := remove_dups (filter (λ k, k ∉ present) keys).

Lemma missing_present present k keys : k ∈ present → missing_keys present (k :: keys) = missing_keys present keys.
Proof. intros Hk. unfold missing_keys. by rewrite filter_cons_False by tauto. Qed.
Lemma missing_new present present' k keys : k ∉ present → present' ≡ₚ k :: present →
  k :: missing_keys present' keys ≡ₚ missing_keys present (k :: keys).
Proof.
  intros Hk Hp. unfold missing_keys. apply NoDup_Permutation; [|apply NoDup_remove_dups|].
  - apply NoDup_cons. split; [|apply NoDup_remove_dups]. rewrite elem_of_remove_dups, list_elem_of_filter, Hp, elem_of_cons. tauto.
  - intros x. rewrite elem_of_cons, !elem_of_remove_dups, !list_elem_of_filter, Hp, !elem_of_cons.
    destruct (decide (x = k)) as [->|]; tauto.
Qed.

(** What the loop adds. *)
Lemma compose_adds managed s : Forall valid_rule managed → compose_inv s →
  let s' := foldl compose_step s managed in
  keys_of (c_entries s') ≡ₚ keys_of (c_entries s) ++ missing_keys (keys_of (c_entries s)) (managedRuleKey <$> managed)
  ∧ remarks_of (c_entries s') = remarks_of (c_entries s)
  ∧ ∃ new, sections_of (c_entries s') ≡ₚ new ++ sections_of (c_entries s) ∧ NoDup new
      ∧ ∀ p, p ∈ new → p ∉ sections_of (c_entries s) ∧ ∃ r, r ∈ managed ∧ r_principal r = p ∧ EffectiveSelector r = SelectorUser
                       ∧ managedRuleKey r ∉ keys_of (c_entries s).
Proof.
  intros Hv. revert s. induction Hv as [|r managed Hr Hv IH]; intros s Hs; cbv zeta.
  { cbn. unfold missing_keys. cbn. rewrite app_nil_r. split; [done|]. split; [done|]. exists []. split; [done|]. split; [constructor|].
    intros p Hp. by apply elem_of_nil in Hp. }
  destruct (compose_step_spec s r Hr Hs) as [Hi _]. destruct (IH _ Hi) as (Hk & Hrem & new & Hsec & Hnd & Hnew). clear IH.
  cbn [foldl]. unfold compose_step in *. cbv zeta in *. rewrite fmap_cons. destruct (decide (managedRuleKey r ∈ c_existing s)) as [Hin|Hin];
    (rewrite (Hs _), <-elem_of_keys_of in Hin); cbn [c_entries] in *.
  { rewrite missing_present by done. split; [done|]. split; [done|]. exists new. split; [done|]. split; [done|].
    intros p Hp. destruct (Hnew p Hp) as (? & r' & ? & ?). split; [done|]. exists r'. split; [by right|done]. }
  destruct (insert_managed_adds r (c_entries s) Hr) as (Hk1 & Hrem1 & new1 & Hsec1 & Hnd1 & Hnew1).
  split; [|split; [by rewrite Hrem|]].
  - etrans; [exact Hk|]. etrans; [by apply Permutation_app_tail|]. etrans; [|by apply Permutation_app_head, missing_new].
    by rewrite <-Permutation_middle.
  - exists (new ++ new1). split; [by rewrite Hsec, Hsec1, app_assoc|]. split.
    + apply NoDup_app. split; [done|]. split; [|done]. intros p Hp Hp1. apply (Hnew p Hp). rewrite Hsec1. apply elem_of_app. by left.
    + intros p [Hp|Hp]%elem_of_app.
      * destruct (Hnew p Hp) as (Hno & r' & Hr' & ? & ? & Hk'). split; [intros Hp'; apply Hno; rewrite Hsec1; apply elem_of_app; by right|].
        exists r'. split_and!; [by right|done..|]. intros Hk''. apply Hk'. rewrite Hk1. by right.
      * destruct (Hnew1 p Hp) as (-> & Hu & Hno). split; [done|]. exists r. split_and!; [by left|done..].
Qed.

Lemma compose_scoped P managed s :
  (∀ r entries, r ∈ managed → scoped_by P "" entries → scoped_by P "" (insert_managed entries (Normalize r))) →
  scoped_by P "" (c_entries s) → scoped_by P "" (c_entries (foldl compose_step s managed)).
Proof.
  revert s. induction managed as [|r managed IH]; intros s Hm Hs; [done|]. simpl. apply IH.
  - intros r' entries Hr'. apply Hm. by right.
  - unfold compose_step. cbv zeta. case_decide; [done|]. apply Hm; [left|done].
Qed.

(** ** Lemmas: reading lines back *)
Lemma parseACLEntry_scope raw scope :
  (parseACLEntry raw scope).2 = scope_step scope (parseACLEntry raw scope).1 ∧
  scope_ok scope (parseACLEntry raw scope).1.
Proof.
  pose proof (fields_nonempty (trim_space raw)) as Hf.
  unfold parseACLEntry, scope_step, scope_ok. cbv zeta.
  repeat case_match; simplify_eq/=; try done.
  split; [done|]. inversion_clear Hf as [|? ? _ Hf']. by inversion Hf'.
Qed.

Lemma parse_entries_cons scope raw lines :
  parse_entries scope (raw :: lines) =
    (parseACLEntry raw scope).1 ::
      parse_entries (scope_step scope (parseACLEntry raw scope).1) lines.
Proof.
  simpl. destruct (parseACLEntry_scope raw scope) as [Hs _].
  by destruct (parseACLEntry raw scope) as [e s']; simpl in *; subst.
Qed.

Lemma parse_entries_app scope l1 l2 :
  parse_entries scope (l1 ++ l2) =
    parse_entries scope l1 ++ parse_entries (scope_after scope (parse_entries scope l1)) l2.
Proof.
  revert scope. induction l1 as [|raw l1 IH]; intros scope; [done|].
  rewrite <-app_comm_cons, !parse_entries_cons, IH. done.
Qed.

Lemma parse_entries_scoped scope lines :
  Forall (λ l, free_of nl_char l = true) lines →
  scoped_by (λ s e, scope_ok s e ∧ reads_back s e) scope (parse_entries scope lines).
Proof.
  intros Hf. revert scope. induction Hf as [|raw lines Hr Hf IH]; intros scope; [done|].
  rewrite parse_entries_cons. simpl. split; [|apply IH].
  split; [apply parseACLEntry_scope|]. unfold reads_back. by rewrite parseACLEntry_raw.
Qed.

(** Entries whose lines read back are read back, one for one. *)
Lemma reads_back_entries scope entries :
  scoped_by reads_back scope entries →
  Forall2 same_meaning (parse_entries scope (e_raw <$> entries)) entries.
Proof.
  revert scope. induction entries as [|e entries IH]; intros scope; [constructor|].
  intros [[(Hk & Hp & Hs) _] Hrest]. rewrite fmap_cons, parse_entries_cons. constructor; [done|].
  replace (scope_step scope (parseACLEntry (e_raw e) scope).1) with (scope_step scope e); [by apply IH|].
  unfold scope_step. by rewrite Hk, Hp.
Qed.

Lemma reads_back_raws scope entries :
  scoped_by reads_back scope entries → Forall (λ l, free_of nl_char l = true) (e_raw <$> entries).
Proof.
  revert scope. induction entries as [|e entries IH]; intros scope; [constructor|].
  intros [[_ Hf] Hrest]. constructor; [done|]. by eapply IH.
Qed.

Lemma same_meaning_keys es es' : Forall2 same_meaning es es' → SemanticKey <$> es = SemanticKey <$> es'.
Proof. induction 1 as [|e e' es es' (_ & _ & H) _ IH]; [done|]. by rewrite !fmap_cons, H, IH. Qed.

(** The keys of a parsed body are those of its lines: the empty line a final
    newline leaves carries none. *)
Lemma keys_of_body body key :
  key ≠ "" →
  key ∈ SemanticKey <$> doc_entries (ParseACLDocument body) ↔
  key ∈ SemanticKey <$> parse_entries "" (split nl_char body).
Proof.
  intros Hk. unfold ParseACLDocument. case_decide as Hb; [subst; simpl; set_solver|].
  destruct (has_suffix nl body) eqn:E; [|done]. simpl.
  destruct (split_suffix_nl _ E) as (a & -> & Hsp). rewrite Hsp.
  rewrite length_app. simpl. replace (length (split nl_char a) + 1 - 1) with (length (split nl_char a)) by lia.
  rewrite take_app_length, parse_entries_app, fmap_app, elem_of_app. simpl. set_solver.
Qed.

Lemma keys_of_lines d key :
  key ≠ "" → Forall (λ l, free_of nl_char l = true) (e_raw <$> doc_entries d) →
  key ∈ SemanticKey <$> doc_entries (ParseACLDocument (Render d)) ↔
  key ∈ SemanticKey <$> parse_entries "" (e_raw <$> doc_entries d).
Proof.
  intros Hk Hf. rewrite keys_of_body by done. unfold Render.
  destruct (doc_entries d) as [|e es] eqn:E; [simpl; set_solver|]. rewrite <-E in *.
  assert (Hn : e_raw <$> doc_entries d ≠ []) by (rewrite E; done).
  destruct (doc_newline d).
  - change (join nl (e_raw <$> doc_entries d) +:+ nl) with (join (chr_str nl_char) (e_raw <$> doc_entries d) +:+ String nl_char "").
    rewrite split_app_sep, split_join by done.
    rewrite parse_entries_app, fmap_app, elem_of_app. simpl. set_solver.
  - change nl with (chr_str nl_char). by rewrite split_join.
Qed.

(** ** Lemmas: the lines of managed rules read back *)
Definition plain_rule (r : Rule) : Prop :=
  plain (r_topic_filter r) = true ∧ (r_principal r = "" ∨ word (r_principal r) = true).

Lemma valid_permission r : valid_rule r →
  r_permission r ∈ validPermissions ∧ to_lower (r_permission r) = r_permission r
  ∧ r_permission r ≠ "" ∧ no_space (r_permission r) = true
  ∧ mosquittoPermToACLPerm (r_permission r) = r_permission r.
Proof.
  intros Hv. apply ValidateRule_nil in Hv as (_ & _ & _ & Hp).
  unfold permission_problems in Hp. case_decide as Hin; [|done]. split; [done|].
  unfold validPermissions in Hin. repeat (apply elem_of_cons in Hin as [Hin|Hin]);
    try (by apply elem_of_nil in Hin); rewrite Hin; done.
Qed.

(** The line of a rule: a directive, a permission and the words of the filter. *)
Definition rule_line (kw : string) (r : Rule) : string := kw +:+ " " +:+ r_permission r +:+ " " +:+ r_topic_filter r.

Lemma rule_line_words kw r :
  word kw = true → valid_rule r → plain (r_topic_filter r) = true →
  ∃ ws, r_topic_filter r = join " " ws ∧ ws ≠ [] ∧ rule_line kw r = join " " (kw :: r_permission r :: ws) ∧
    Forall (λ w, w ≠ "" ∧ no_space w = true) (kw :: r_permission r :: ws).
Proof.
  intros Hkw Hv Hp. destruct (plain_words _ Hp) as (ws & Heq & Hne & Hw). apply word_spec in Hkw.
  destruct (valid_permission r Hv) as (_ & _ & ? & ? & _).
  exists ws. split; [done|]. split; [done|]. split; [|by constructor; [|constructor]].
  unfold rule_line. by rewrite Heq, !join_app_word.
Qed.

Lemma build_valid r sel principal :
  valid_rule r → EffectiveSelector r = sel → r_principal r = principal → sel ≠ "" →
  buildACLRule sel principal (r_permission r) (r_topic_filter r) =
    (Some (mkRule "" sel "" "" principal (r_topic_filter r) (r_permission r) ""), NoIssue).
Proof.
  intros Hv Hsel Hpr Hne. destruct (valid_permission r Hv) as (_ & Hlow & Hp & _ & Hperm).
  unfold buildACLRule. cbv zeta. simpl r_permission. rewrite Hlow, Hperm. rewrite decide_False by done.
  set (rule := mkRule _ _ _ _ _ _ _ _).
  assert (valid_rule rule) as Hrule; [|by rewrite Hrule].
  assert (EffectiveSelector rule = EffectiveSelector r) as Es.
  { unfold EffectiveSelector at 1, rule. simpl. rewrite decide_False by done. done. }
  apply ValidateRule_nil in Hv as (H1 & _ & H3 & H4). apply ValidateRule_nil.
  unfold principal_problems, topic_problems, permission_problems in *. rewrite Es.
  unfold rule. simpl. subst principal. done.
Qed.

(** A topic or pattern line of a plain valid rule, read under its scope. *)
Lemma parse_rule_line kw r scope sel :
  (kw = "topic" ∧ sel = (if decide (scope = "") then SelectorAnonymous else SelectorUser) ∧ r_principal r = scope) ∨
  (kw = "pattern" ∧ sel = SelectorPattern ∧ r_principal r = "") →
  valid_rule r → plain (r_topic_filter r) = true → EffectiveSelector r = sel →
  (parseACLEntry (rule_line kw r) scope).1 =
    mkEntry (if decide (kw = "topic") then ACLEntryTopic else ACLEntryPattern) (rule_line kw r) (r_principal r)
      (Some (mkRule "" sel "" "" (r_principal r) (r_topic_filter r) (r_permission r) "")) NoIssue
  ∧ free_of nl_char (rule_line kw r) = true.
Proof.
  intros Hkw Hv Hp Hsel.
  assert (word kw = true) as Hw by (destruct Hkw as [(-> & _)|(-> & _)]; reflexivity).
  destruct (rule_line_words kw r Hw Hv Hp) as (ws & Hf & Hne & Hline & Hws).
  rewrite Hline. split; [|by apply words_free_nl].
  unfold parseACLEntry. rewrite trim_space_join, fields_join by done. cbv zeta.
  rewrite decide_False by (intros E; by destruct Hkw as [(-> & _)|(-> & _)]).
  destruct ws as [|w ws]; [done|].
  destruct Hkw as [(-> & -> & Hpr)|(-> & -> & Hpr)].
  - replace (has_prefix "#" _) with false by done. change (to_lower "topic") with "topic".
    rewrite decide_False, decide_True by done. cbv iota. rewrite <-Hf.
    rewrite (build_valid r) by (done || by case_decide). by rewrite Hpr.
  - replace (has_prefix "#" _) with false by done. change (to_lower "pattern") with "pattern".
    rewrite !decide_False, decide_True by done. cbv iota. rewrite <-Hf.
    rewrite (build_valid r) by done. by rewrite Hpr.
Qed.

Lemma parse_user_line p scope :
  word p = true →
  (parseACLEntry ("user " +:+ p) scope).1 = mkEntry ACLEntryUser ("user " +:+ p) p None NoIssue
  ∧ free_of nl_char ("user " +:+ p) = true.
Proof.
  intros Hw%word_spec. assert (Forall (λ w, w ≠ "" ∧ no_space w = true) ["user"; p]) as Hws by (constructor; [done|by constructor]).
  change ("user " +:+ p) with (join " " ["user"; p]). split; [|by apply words_free_nl].
  unfold parseACLEntry. rewrite trim_space_join, fields_join by done. done.
Qed.

Lemma managed_reads_back r :
  valid_rule r → plain_rule r → ∀ entries,
  scoped_by reads_back "" entries → scoped_by reads_back "" (insert_managed entries (Normalize r)).
Proof.
  intros Hv [Hp Hpr] entries.
  assert (∀ kw, rule_line kw (Normalize r) = rule_line kw r) as Hnl by done.
  assert (∀ kw s, (kw = "topic" ∧ EffectiveSelector r = (if decide (s = "") then SelectorAnonymous else SelectorUser) ∧ r_principal r = s) ∨
    (kw = "pattern" ∧ EffectiveSelector r = SelectorPattern ∧ r_principal r = "") →
    reads_back s (mkEntry (if decide (kw = "topic") then ACLEntryTopic else ACLEntryPattern)
      (rule_line kw (Normalize r)) (r_principal r) (Some (Normalize r)) NoIssue)) as Hback.
  { intros kw s Hkw. destruct (parse_rule_line kw r s (EffectiveSelector r) Hkw Hv Hp eq_refl) as [Hparse Hfree].
    unfold reads_back. simpl e_raw. rewrite Hnl. split; [|done]. rewrite Hparse.
    split; [done|]. split; [done|]. unfold SemanticKey. by case_decide. }
  apply insert_managed_scoped.
  - intros Hs s. pose proof (valid_other_principal r Hv (or_introl Hs)) as E.
    specialize (Hback "pattern" s). rewrite E in Hback. apply Hback. auto.
  - intros Hs. pose proof (valid_other_principal r Hv (or_intror Hs)) as E.
    specialize (Hback "topic" ""). rewrite E in Hback. apply Hback. auto.
  - intros Hs1 Hs2. pose proof (valid_user_principal r Hv Hs1 Hs2) as E.
    destruct Hpr as [|Hw]; [done|]. split.
    + apply (Hback "topic" (r_principal r)). left. rewrite decide_False by done. split_and!; try done.
      apply ValidateRule_nil in Hv as (H1 & _). unfold principal_problems in H1. cbv zeta in H1.
      repeat case_decide; naive_solver.
    + intros s. destruct (parse_user_line (r_principal r) s Hw) as [Hparse Hfree].
      unfold reads_back. simpl e_raw. by rewrite Hparse.
Qed.

(** ** Lemmas: [RenderACLFile] and [ParseACLFile] *)

(** The rules in the order of the rendered file, and what a line says of one. *)
Definition render_order (rules : list Rule) : list Rule :=
  filter is_anonymous_rule rules ++ filter is_pattern_rule rules
    ++ concat (rule_group rules <$> rule_principals rules).
Definition read_rule (r : Rule) : Rule :=
  mkRule "" (EffectiveSelector r) ScopeGlobal "" (r_principal r) (r_topic_filter r) (r_permission r) "".

Lemma trim_suffix_app p a : p ≠ "" → trim_suffix p (a +:+ p) = a.
Proof.
  intros Hp. induction a as [|c a IH].
  - change ("" +:+ p) with p. destruct p; [done|]. cbn [trim_suffix]. by rewrite decide_True.
  - rewrite app_cons_string. cbn [trim_suffix]. rewrite decide_False; [by rewrite IH|].
    intros E. apply (f_equal String.length) in E. simpl in E. rewrite length_app_string in E. lia.
Qed.

Lemma fold_lines lines :
  lines ≠ [] → foldr (λ line acc, line +:+ nl +:+ acc) "" lines = join nl lines +:+ nl.
Proof.
  induction lines as [|l lines IH]; [done|]. intros _. simpl foldr.
  destruct lines as [|l' lines]; [simpl; by rewrite app_nil_r_string|].
  rewrite IH, (join_cons nl l) by done. by rewrite !app_assoc_string.
Qed.

Lemma render_lines_join lines : render_lines lines = join nl lines.
Proof.
  destruct lines as [|l lines]; [done|]. unfold render_lines. rewrite fold_lines by done.
  by apply trim_suffix_app.
Qed.

Definition user_lines (rules : list Rule) (p : string) : list string :=
  ("user " +:+ p) :: (MosquittoACL <$> rule_group rules p).

Lemma user_section_join rules p : user_section rules p = join nl (user_lines rules p).
Proof.
  unfold user_section. rewrite <-render_lines_join. unfold render_lines, user_lines. f_equal.
  simpl. rewrite <-!app_assoc_string. do 3 f_equal.
  induction (rule_group rules p) as [|r l IH]; [done|]. simpl. by rewrite IH.
Qed.

(** The lines of the sections, with an empty line between two sections. *)
Definition acl_blocks (rules : list Rule) : list (list string) :=
  (match filter is_anonymous_rule rules with [] => [] | l => [MosquittoACL <$> l] end)
  ++ (match filter is_pattern_rule rules with [] => [] | l => [MosquittoPatternACL <$> l] end)
  ++ (user_lines rules <$> rule_principals rules).

Fixpoint blank_between (blocks : list (list string)) : list string :=
  match blocks with
  | [] => []
  | [b] => b
  | b :: blocks' => b ++ "" :: blank_between blocks'
  end.

Lemma acl_sections_blocks rules : acl_sections rules = join nl <$> acl_blocks rules.
Proof.
  unfold acl_sections, acl_blocks, renderACLSection. cbv zeta. rewrite !fmap_app.
  assert (user_section rules <$> rule_principals rules = join nl <$> (user_lines rules <$> rule_principals rules)) as ->.
  { rewrite <-list_fmap_compose. apply list_fmap_ext. intros i p _. apply user_section_join. }
  by destruct (filter is_anonymous_rule rules), (filter is_pattern_rule rules); simpl; rewrite ?render_lines_join.
Qed.

Lemma join_app_lines a b : a ≠ [] → b ≠ [] → join nl (a ++ b) = join nl a +:+ nl +:+ join nl b.
Proof.
  intros Ha Hb. induction a as [|x a IH]; [done|]. destruct a as [|y a].
  - simpl app. by rewrite join_cons.
  - rewrite <-app_comm_cons, join_cons by done. rewrite IH, (join_cons nl x) by done.
    by rewrite !app_assoc_string.
Qed.

Lemma join_blocks blocks :
  Forall (λ b, b ≠ []) blocks → join (nl +:+ nl) (join nl <$> blocks) = join nl (blank_between blocks).
Proof.
  induction 1 as [|b blocks Hb Hbs IH]; [done|]. destruct blocks as [|b' blocks]; [done|].
  rewrite fmap_cons, join_cons by done. rewrite IH.
  change (blank_between (b :: b' :: blocks)) with (b ++ "" :: blank_between (b' :: blocks)).
  rewrite join_app_lines by done.
  assert (blank_between (b' :: blocks) ≠ []) as Hn.
  { apply Forall_cons in Hbs as [Hb' _]. destruct blocks; simpl; [done|]. by destruct b'. }
  rewrite (join_cons nl "") by done. change ("" +:+ ?x) with x. by rewrite !app_assoc_string.
Qed.

Lemma blank_between_forall (P : string → Prop) blocks :
  P "" → Forall (Forall P) blocks → Forall P (blank_between blocks).
Proof.
  intros HP. induction 1 as [|b blocks Hb Hbs IH]; [constructor|]. destruct blocks; [done|].
  apply Forall_app. split; [done|]. by constructor.
Qed.

(** Folding over blank lines does nothing. *)
Lemma fold_blank_between st blocks :
  foldl parse_acl_line st (blank_between blocks) = foldl parse_acl_line st (concat blocks).
Proof.
  revert st. induction blocks as [|b blocks IH]; intros st; [done|].
  destruct blocks as [|b' blocks]; [simpl; by rewrite app_nil_r|].
  change (blank_between (b :: b' :: blocks)) with (b ++ "" :: blank_between (b' :: blocks)).
  rewrite concat_cons, !foldl_app. simpl foldl at 1. rewrite IH.
  by destruct (foldl parse_acl_line st b).
Qed.

Lemma parse_acl_rule_line kw r u acc sel :
  (kw = "topic" ∧ sel = (if decide (u = "") then SelectorAnonymous else SelectorUser) ∧ r_principal r = u) ∨
  (kw = "pattern" ∧ sel = SelectorPattern ∧ r_principal r = "") →
  valid_rule r → plain (r_topic_filter r) = true → EffectiveSelector r = sel →
  parse_acl_line (u, acc) (rule_line kw r) = (u, acc ++ [read_rule r]).
Proof.
  intros Hkw Hv Hp Hsel.
  assert (word kw = true) as Hw by (destruct Hkw as [(-> & _)|(-> & _)]; reflexivity).
  destruct (rule_line_words kw r Hw Hv Hp) as (ws & Hf & Hne & Hline & Hws).
  destruct (valid_permission r Hv) as (_ & Hlow & _ & _ & Hperm).
  rewrite Hline. unfold parse_acl_line. rewrite trim_space_join, fields_join by done. cbv zeta.
  rewrite decide_False by (intros E; by destruct Hkw as [(-> & _)|(-> & _)]).
  destruct ws as [|w ws]; [done|]. unfold parsed_rule, read_rule.
  destruct Hkw as [(-> & -> & Hpr)|(-> & -> & Hpr)].
  - replace (has_prefix "#" _) with false by done. change (to_lower "topic") with "topic".
    rewrite decide_False, decide_True by done. rewrite <-Hf, Hlow, Hperm, Hsel, Hpr. by destruct (decide (u = "")) as [->|].
  - replace (has_prefix "#" _) with false by done. change (to_lower "pattern") with "pattern".
    rewrite !decide_False, decide_True by done. by rewrite <-Hf, Hlow, Hperm, Hsel, Hpr.
Qed.

Lemma parse_acl_user_line p u acc : word p = true → parse_acl_line (u, acc) ("user " +:+ p) = (p, acc).
Proof.
  intros Hw%word_spec. change ("user " +:+ p) with (join " " ["user"; p]).
  unfold parse_acl_line. rewrite trim_space_join, fields_join; [done|..];
    (constructor; [done|by constructor]).
Qed.

Lemma parse_acl_rule_lines kw l u acc :
  Forall (λ r, ((kw = "topic" ∧ EffectiveSelector r = (if decide (u = "") then SelectorAnonymous else SelectorUser) ∧ r_principal r = u) ∨
    (kw = "pattern" ∧ EffectiveSelector r = SelectorPattern ∧ r_principal r = "")) ∧
    valid_rule r ∧ plain_rule r) l →
  foldl parse_acl_line (u, acc) (rule_line kw <$> l) = (u, acc ++ (read_rule <$> l)).
Proof.
  intros H. revert acc. induction H as [|r l (Hkw & Hv & Hp & _) H IH]; intros acc; [by rewrite app_nil_r|].
  rewrite fmap_cons. cbn [foldl]. rewrite (parse_acl_rule_line kw r u acc (EffectiveSelector r)) by done. rewrite IH. by rewrite <-app_assoc.
Qed.

Lemma grouped_rule r : valid_rule r → plain_rule r → is_grouped_rule r →
  EffectiveSelector r = SelectorUser ∧ word (r_principal r) = true.
Proof.
  intros Hv [_ Hp] [Ha Hpt]. unfold is_anonymous_rule, is_pattern_rule in *.
  destruct (valid_selector r Hv) as [E|[E|E]]; try done. split; [done|].
  destruct Hp as [Hp|Hp]; [|done]. by pose proof (valid_user_principal r Hv Hpt Ha).
Qed.

(** The groups of the principals make up the grouped rules. *)
Lemma elem_of_group rules p r : r ∈ rule_group rules p ↔ r ∈ rules ∧ is_grouped_rule r ∧ r_principal r = p.
Proof. unfold rule_group. rewrite !list_elem_of_filter. naive_solver. Qed.

Lemma elem_of_principals rules p :
  p ∈ rule_principals rules ↔ ∃ r, r ∈ rules ∧ is_grouped_rule r ∧ r_principal r = p.
Proof.
  unfold rule_principals. rewrite elem_of_sort_strings, elem_of_dedup, list_elem_of_fmap.
  setoid_rewrite list_elem_of_filter. naive_solver.
Qed.

Lemma groups_perm {A K} `{EqDecision K} (key : A → K) (l : list A) (ks : list K) :
  NoDup ks → (∀ x, x ∈ l → key x ∈ ks) →
  concat ((λ k, filter (λ x, key x = k) l) <$> ks) ≡ₚ l.
Proof.
  revert l. induction ks as [|k ks IH]; intros l Hnd Hin.
  - destruct l as [|x l]; [done|]. specialize (Hin x ltac:(left)). by apply elem_of_nil in Hin.
  - apply NoDup_cons in Hnd as [Hk Hnd]. rewrite fmap_cons, concat_cons.
    rewrite <-(filter_app_complement (λ x, key x = k) l) at 2. f_equiv.
    rewrite <-(IH (filter (λ x, ¬ key x = k) l)); [|done|].
    + f_equiv. apply reflexive_eq, list_fmap_ext. intros i k' Hk'.
      apply list_elem_of_lookup_2 in Hk'. rewrite list_filter_filter. apply list_filter_iff.
      intros x. split; [|naive_solver]. intros ->. split; [done|]. intros ->. done.
    + intros x [Hne Hx]%list_elem_of_filter. specialize (Hin x Hx). by apply elem_of_cons in Hin as [?|?].
Qed.

Lemma NoDup_principals rules : NoDup (rule_principals rules).
Proof. unfold rule_principals. rewrite sort_strings_perm. apply NoDup_dedup. Qed.

Lemma render_order_perm rules : render_order rules ≡ₚ rules.
Proof.
  assert (concat (rule_group rules <$> rule_principals rules) ≡ₚ filter is_grouped_rule rules) as Hg.
  { apply (groups_perm r_principal); [apply NoDup_principals|].
    intros r [Hg Hr]%list_elem_of_filter. apply elem_of_principals. eauto. }
  unfold render_order. rewrite Hg.
  rewrite <-(filter_app_complement is_anonymous_rule rules) at 4. f_equiv.
  rewrite <-(filter_app_complement is_pattern_rule (filter (λ r, ¬ is_anonymous_rule r) rules)).
  rewrite !list_filter_filter. f_equiv; apply reflexive_eq, list_filter_iff; intros r.
  - unfold is_pattern_rule, is_anonymous_rule. split; [|naive_solver]. intros ->. split; done.
  - unfold is_grouped_rule. naive_solver.
Qed.

(** Reading the blocks of a rendered file. *)
Lemma read_blocks rules :
  Forall valid_rule rules → Forall plain_rule rules →
  (foldl parse_acl_line ("", []) (concat (acl_blocks rules))).2 = read_rule <$> render_order rules.
Proof.
  intros Hv Hp. unfold acl_blocks, render_order. rewrite !concat_app, !foldl_app.
  assert (Hboth : ∀ r, r ∈ rules → valid_rule r ∧ plain_rule r).
  { intros r Hr. rewrite Forall_forall in Hv, Hp. auto. }
  assert (∀ acc, foldl parse_acl_line ("", acc) (concat match filter is_anonymous_rule rules with [] => [] | l => [MosquittoACL <$> l] end)
    = ("", acc ++ (read_rule <$> filter is_anonymous_rule rules))) as ->.
  { intros acc. transitivity (foldl parse_acl_line ("", acc) (rule_line "topic" <$> filter is_anonymous_rule rules)).
    - destruct (filter is_anonymous_rule rules); [done|]. simpl concat. by rewrite app_nil_r.
    - apply parse_acl_rule_lines. apply Forall_forall. intros r [Hs Hr]%list_elem_of_filter.
      destruct (Hboth r Hr). split; [|done]. left. split; [done|]. split; [done|].
      apply valid_other_principal; auto. }
  assert (∀ acc, foldl parse_acl_line ("", acc) (concat match filter is_pattern_rule rules with [] => [] | l => [MosquittoPatternACL <$> l] end)
    = ("", acc ++ (read_rule <$> filter is_pattern_rule rules))) as ->.
  { intros acc. transitivity (foldl parse_acl_line ("", acc) (rule_line "pattern" <$> filter is_pattern_rule rules)).
    - destruct (filter is_pattern_rule rules); [done|]. simpl concat. by rewrite app_nil_r.
    - apply parse_acl_rule_lines. apply Forall_forall. intros r [Hs Hr]%list_elem_of_filter.
      destruct (Hboth r Hr). split; [|done]. right. split; [done|]. split; [done|].
      apply valid_other_principal; auto. }
  simpl app. rewrite !fmap_app, app_assoc.
  generalize ((read_rule <$> filter is_anonymous_rule rules) ++ (read_rule <$> filter is_pattern_rule rules)) as acc.
  generalize "" as u.
  assert (∀ p, p ∈ rule_principals rules → word p = true) as Hpr.
  { intros p (r & Hr & Hg & <-)%elem_of_principals. destruct (Hboth r Hr). by apply grouped_rule. }
  induction (rule_principals rules) as [|p ps IH]; intros u acc; [simpl; by rewrite app_nil_r|].
  rewrite !fmap_cons, !concat_cons, foldl_app. unfold user_lines at 1. cbn [foldl].
  rewrite parse_acl_user_line by (apply Hpr; left).
  rewrite (parse_acl_rule_lines "topic").
  - rewrite IH by (intros p' Hp'; apply Hpr; by right). by rewrite fmap_app, app_assoc.
  - apply Forall_forall. intros r (Hr & Hg & Hrp)%elem_of_group.
    destruct (Hboth r Hr). destruct (grouped_rule r) as [Hs Hw]; [done..|]. split; [|done].
    left. rewrite decide_False; [done|]. rewrite <-Hrp. by apply word_spec in Hw as [? _].
Qed.

Lemma blocks_nonempty rules : Forall (λ b, b ≠ []) (acl_blocks rules).
Proof.
  unfold acl_blocks. apply Forall_app. split; [case_match; by repeat constructor|].
  apply Forall_app. split; [case_match; by repeat constructor|].
  apply Forall_fmap. by apply Forall_true.
Qed.

Lemma blocks_free rules :
  Forall valid_rule rules → Forall plain_rule rules →
  Forall (Forall (λ l, free_of nl_char l = true)) (acl_blocks rules).
Proof.
  intros Hv Hp. assert (Hboth : ∀ r, r ∈ rules → valid_rule r ∧ plain_rule r).
  { intros r Hr. rewrite Forall_forall in Hv, Hp. auto. }
  assert (∀ kw r, word kw = true → r ∈ rules → free_of nl_char (rule_line kw r) = true) as Hline.
  { intros kw r Hkw Hr. destruct (Hboth r Hr) as [Hrv [Hrp _]].
    destruct (rule_line_words kw r Hkw Hrv Hrp) as (ws & _ & _ & -> & Hws). by apply words_free_nl. }
  unfold acl_blocks. apply Forall_app. split; [|apply Forall_app; split].
  - destruct (filter is_anonymous_rule rules) as [|a l] eqn:E; [constructor|].
    constructor; [|constructor]. rewrite <-E. apply Forall_fmap, Forall_forall.
    intros r [_ Hr]%list_elem_of_filter. by apply (Hline "topic").
  - destruct (filter is_pattern_rule rules) as [|a l] eqn:E; [constructor|].
    constructor; [|constructor]. rewrite <-E. apply Forall_fmap, Forall_forall.
    intros r [_ Hr]%list_elem_of_filter. by apply (Hline "pattern").
  - apply Forall_fmap, Forall_forall. intros p (r & Hr & Hg & <-)%elem_of_principals. simpl. constructor.
    + destruct (Hboth r Hr). by apply (parse_user_line _ ""), grouped_rule.
    + apply Forall_fmap, Forall_forall. intros r' (Hr' & _)%elem_of_group. by apply (Hline "topic").
Qed.

(** ** Lemmas: names of the per-listener files *)
Lemma listener_bytes_free id : all_bytes listener_byte id = true → free_of "/" id = true.
Proof.
  intros H. destruct (listener_bytes_runes id H) as (_ & Hs & _). unfold contains_byte in Hs.
  by apply negb_false_iff in Hs.
Qed.

Lemma listener_file_proper id :
  ValidateListenerID id = None → proper_comp (ListenerACLFileName id).
Proof.
  intros Hv. unfold ListenerACLFileName, proper_comp.
  split; [done|]. split; [done|]. split; [done|].
  unfold free_of. rewrite all_bytes_app. apply listener_bytes_free.
  unfold ValidateListenerID in Hv. rewrite listener_runes in Hv. repeat case_match; done.
Qed.

(** ** Properties *)

(** Every body is reproduced byte for byte by parsing it as a document and
    rendering the document: comments, blank lines, unknown directives, carriage
    returns and the presence of a final newline included. *)
Theorem Render_ParseACLDocument body : Render (ParseACLDocument body) = body.
Proof.
  unfold ParseACLDocument. case_decide as Hb; [done|].
  assert (∀ ls f, ls ≠ [] → Render (mkDoc (parse_entries "" ls) f) = (if f then join nl ls +:+ nl else join nl ls)) as Hr.
  { intros ls f Hne. unfold Render. cbn [doc_entries doc_newline]. pose proof (parse_entries_raw "" ls) as Hraw.
    destruct (parse_entries "" ls); [by destruct ls|]. by rewrite Hraw. }
  destruct (has_suffix nl body) eqn:E.
  - destruct (split_suffix_nl body E) as (a & -> & Hsp). rewrite Hsp, length_app. simpl.
    replace (length (split nl_char a) + 1 - 1) with (length (split nl_char a)) by lia.
    rewrite take_app_length, Hr by apply split_not_nil. by rewrite (join_split nl_char).
  - rewrite Hr by apply split_not_nil. apply (join_split nl_char).
Qed.

(** [C28] Merging valid managed rules into a document loses nothing and adds
    exactly the managed rules that are missing, each once.  The original entries
    stay, in order; the semantic keys of the composed entries, counted with their
    duplicates, are those of the document and, once each, those of the managed
    rules that the document does not have.  The only other entries that are added
    are section headers, one for each principal of an added user rule that had
    none; comments, blank lines and the rest are those of the document; and every
    entry still stands in the section its principal says. *)
Theorem ComposeACLDocument_merges doc managed :
  Forall valid_rule managed →
  let composed := (ComposeACLDocument doc managed).1 in
  doc_entries doc `sublist_of` doc_entries composed ∧
  keys_of (doc_entries composed) ≡ₚ
    keys_of (doc_entries doc) ++ remove_dups (filter (λ k, k ∉ keys_of (doc_entries doc)) (managedRuleKey <$> managed)) ∧
  MissingSemanticEntries doc composed = [] ∧
  remarks_of (doc_entries composed) = remarks_of (doc_entries doc) ∧
  (∃ new, sections_of (doc_entries composed) ≡ₚ new ++ sections_of (doc_entries doc) ∧ NoDup new ∧
     ∀ p, p ∈ new → p ∉ sections_of (doc_entries doc) ∧
       ∃ r, r ∈ managed ∧ r_principal r = p ∧ EffectiveSelector r = SelectorUser ∧ managedRuleKey r ∉ keys_of (doc_entries doc)) ∧
  (scoped_by scope_ok "" (doc_entries doc) → scoped_by scope_ok "" (doc_entries composed)).
Proof.
  intros Hv composed. destruct (compose_adds managed (compose_init doc) Hv (compose_inv_init doc)) as (Hk & Hrem & Hsec).
  split; [apply (compose_sublist (compose_init doc))|]. split; [exact Hk|]. split; [|split; [exact Hrem|split; [exact Hsec|]]].
  - unfold MissingSemanticEntries. destruct (filter _ (SemanticKeys doc)) as [|k l] eqn:E; [done|exfalso].
    assert (k ∈ k :: l) as Hin by left. rewrite <-E in Hin. apply list_elem_of_filter in Hin as [Hn Hin].
    apply Hn. rewrite elem_of_SemanticKeys, <-elem_of_keys_of in Hin |- *. change (k ∈ keys_of (c_entries (foldl compose_step (compose_init doc) managed))).
    rewrite Hk. apply elem_of_app. by left.
  - intros Hs. apply compose_scoped; [|done]. intros r entries Hr Hes. apply insert_managed_scoped; [done|done| |done].
    rewrite Forall_forall in Hv. specialize (Hv r Hr). intros Hp Ha. split; [done|].
    intros s. by apply valid_user_principal.
Qed.

Definition demo_body : string :=
  "# site rules" +:+ nl +:+ "topic read $SYS/#" +:+ nl +:+ "user alice" +:+ nl +:+ "topic read plant/#" +:+ nl.
Definition demo_managed : list Rule :=
  [ mkRule "1" "user" "" "" "alice" "plant/cmd" "write" "";
    mkRule "2" "pattern" "" "" "" "clients/%c" "readwrite" "";
    mkRule "3" "anonymous" "" "" "" "public/#" "read" "";
    mkRule "4" "user" "" "" "bob" "plant/#" "deny" "" ].

Lemma ComposeACLDocument_merges_witness :
  MissingSemanticEntries (ParseACLDocument demo_body)
    (ComposeACLDocument (ParseACLDocument demo_body) demo_managed).1 = [].
Proof.
  destruct (ComposeACLDocument_merges (ParseACLDocument demo_body) demo_managed) as (_ & _ & H & _); [|exact H].
  repeat constructor; vm_compute; reflexivity.
Defined.

(** [C29] When the managed rules are plain, the composed file is read back with
    the access it was composed for: for a document parsed from any body and valid
    rules whose topic filters are plain texts (words separated by single blanks)
    and whose principals are empty or one word, parsing the rendered result gives
    the same semantic keys.  Without the condition on the principals this fails:
    [blank_principal_misread] is a valid rule whose principal is two words. *)
Theorem ComposeACLDocument_reads_back body managed :
  Forall valid_rule managed → Forall plain_rule managed →
  let composed := (ComposeACLDocument (ParseACLDocument body) managed).1 in
  ∀ key, key ∈ SemanticKeys (ParseACLDocument (Render composed)) ↔ key ∈ SemanticKeys composed.
Proof.
  intros Hv Hp composed key. rewrite !elem_of_SemanticKeys.
  assert (Hs : scoped_by reads_back "" (doc_entries composed)).
  { apply compose_scoped.
    - intros r entries Hr. rewrite Forall_forall in Hv, Hp. apply managed_reads_back; auto.
    - simpl. unfold ParseACLDocument. case_decide; [done|]. pose proof (split_all_free nl_char body) as Hf.
      case_match; simpl; (eapply scoped_by_impl; [|apply parse_entries_scoped]; [by intros ?? []|]); [|done].
      by apply Forall_take. }
  destruct (decide (key = "")) as [->|Hk]; [naive_solver|].
  rewrite (keys_of_lines composed key Hk (reads_back_raws _ _ Hs)).
  by rewrite (same_meaning_keys _ _ (reads_back_entries _ _ Hs)).
Qed.

Lemma ComposeACLDocument_reads_back_witness :
  "user bob | topic deny plant/#" ∈
    SemanticKeys (ParseACLDocument (Render (ComposeACLDocument (ParseACLDocument demo_body) demo_managed).1)).
Proof.
  refine (proj2 (ComposeACLDocument_reads_back demo_body demo_managed _ _ _) _).
  - repeat constructor; vm_compute; reflexivity.
  - repeat (constructor; [split; [vm_compute; reflexivity|first [by left|right; vm_compute; reflexivity]]|]).
    constructor.
  - vm_compute. repeat constructor.
Defined.

(** Round trip of the managed ACL file: for valid rules with plain filters
    and one-word principals, parsing the rendered file gives every rule with
    its selector, principal, filter and permission, in the order of the
    sections, which is a permutation of the rules. *)
Theorem ParseACLFile_RenderACLFile rules :
  Forall valid_rule rules → Forall plain_rule rules →
  ParseACLFile (RenderACLFile rules) = read_rule <$> render_order rules ∧
  render_order rules ≡ₚ rules.
Proof.
  intros Hv Hp. split; [|apply render_order_perm].
  destruct (decide (rules = [])) as [->|Hne]; [done|].
  unfold ParseACLFile. replace (RenderACLFile rules) with (join (nl +:+ nl) (acl_sections rules)) by (by destruct rules).
  rewrite acl_sections_blocks, join_blocks by apply blocks_nonempty.
  change nl with (chr_str nl_char). rewrite split_join.
  - rewrite fold_blank_between. by apply read_blocks.
  - pose proof (render_order_perm rules) as Hperm. intros E.
    assert (concat (acl_blocks rules) = []) as Hc.
    { destruct (acl_blocks rules) as [|b [|b' bs]]; [done| |by destruct b]. simpl in *. by rewrite app_nil_r. }
    pose proof (read_blocks rules Hv Hp) as Hr. rewrite Hc in Hr. simpl in Hr.
    destruct (render_order rules); [|done]. by apply Permutation_nil_l in Hperm.
  - apply blank_between_forall; [done|]. by apply blocks_free.
Qed.

Lemma ParseACLFile_RenderACLFile_witness :
  ParseACLFile (RenderACLFile demo_managed) = read_rule <$> render_order demo_managed.
Proof.
  refine (proj1 (ParseACLFile_RenderACLFile demo_managed _ _)).
  - repeat constructor; vm_compute; reflexivity.
  - repeat (constructor; [split; [vm_compute; reflexivity|first [by left|right; vm_compute; reflexivity]]|]).
    constructor.
Defined.

(** The hypothesis on the principals is needed: a valid rule may have a
    principal with a blank in it, and the file rendered from it names another
    user when it is read back ([ParseACLFile] takes the first word of the
    header, [ParseACLDocument] drops the header, so its grants read as those of
    the section before it, here the anonymous one). *)
Theorem blank_principal_misread :
  let r := mkRule "1" "user" "" "" "line operator" "plant/#" "readwrite" "" in
  valid_rule r ∧
  (r_principal <$> ParseACLFile (RenderACLFile [r])) = ["line"] ∧
  SemanticKeys (ParseACLDocument (RenderACLFile [r])) =
    ["anonymous | topic readwrite plant/#"; "unknown | user line operator"].
Proof. split; [|split]; vm_compute; reflexivity. Qed.

(** The file of a listener carries its name. *)
Lemma ListenerACLPath_base globalACLPath id :
  ValidateListenerID id = None → globalACLPath ≠ "" → base_name (ListenerACLPath globalACLPath id) = ListenerACLFileName id.
Proof.
  intros Hid Hp. pose proof (listener_file_proper id Hid) as Hproper.
  destruct (dir_render globalACLPath) as (ro & st & Hst & Hdir). unfold ListenerACLPath. rewrite decide_False by done.
  rewrite Hdir. by apply base_join.
Qed.

(** The ACL file of a listener whose reference passes validation lies in
    the directory of the broker-wide ACL file under the name derived from the
    reference, and the broker-side mapping of that file lies, under the same
    name, in the directory of the broker's own ACL file. *)
Theorem ListenerACLPath_contained globalACLPath globalACLFile id :
  ValidateListenerID id = None → globalACLPath ≠ "" → globalACLFile ≠ "" →
  let path := ListenerACLPath globalACLPath id in
  dir path = dir globalACLPath ∧ base_name path = ListenerACLFileName id ∧
  (let '(broker, managed) := BrokerACLPath path globalACLFile id in
   managed = true ∧ dir broker = dir globalACLFile ∧ base_name broker = ListenerACLFileName id).
Proof.
  intros Hid Hp Hf path. pose proof (listener_file_proper id Hid) as Hproper.
  destruct (dir_render globalACLPath) as (ro & st & Hst & Hdir).
  destruct (dir_render globalACLFile) as (ro' & st' & Hst' & Hdir').
  assert (path = path_join [dir globalACLPath; ListenerACLFileName id]) as Hpath.
  { unfold path, ListenerACLPath. by rewrite decide_False. }
  pose proof (dir_join ro st _ Hst Hproper) as Hd. rewrite <-Hdir, <-Hpath in Hd.
  pose proof (base_join ro st _ Hst Hproper) as Hb. rewrite <-Hdir, <-Hpath in Hb.
  split; [done|]. split; [done|]. unfold BrokerACLPath.
  assert (path ≠ "") as Hne by (intros E; rewrite E in Hb; done).
  assert (id ≠ "") as Hid' by (intros ->; done).
  rewrite decide_False by naive_solver. rewrite decide_True by done. rewrite Hb, Hdir'.
  split; [done|]. split; [by apply dir_join|by apply base_join].
Qed.

Lemma ListenerACLPath_contained_witness :
  dir (ListenerACLPath "/var/lib/mosquitto-config/acl" "plant-a") = dir "/var/lib/mosquitto-config/acl".
Proof.
  refine (proj1 (ListenerACLPath_contained "/var/lib/mosquitto-config/acl" "/mosquitto/config/acl" "plant-a" _ _ _));
    [vm_compute; reflexivity|done|done].
Defined.
