(* ===== verification/Catalog.v ===== *)
(** * [internal/mosquitto/catalog]: the directive catalog of a broker version

    [catalog.go].  A catalog is built by the loader from an embedded YAML file;
    here it is a finite map from the lower-cased name to the entry. *)
From S2P Require Import Prelude Unicode GoStrings GoStrconv.

(** ** The data *)
Definition TypeString : string := "string".
Definition TypeInteger : string := "integer".
Definition TypeBoolean : string := "boolean".
Definition TypeEnum : string := "enum".
Definition TypeStringList : string := "string_list".
Definition TypePath : string := "path".
Definition TypeDuration : string := "duration".
Definition KnownSections : list string := ["persistence"; "queues"; "sessions"; "logging"].
Definition Once : string := "once".
Definition Many : string := "many".
Definition OncePerBlock : string := "once_per_block".
Definition ReloadOK : string := "reload".
Definition Restart : string := "restart".
Definition ReloadOrRestart : string := "both".
Definition CatScopeGlobal : string := "global".
Definition CatScopeListener : string := "listener".
Definition CatScopeBridge : string := "bridge".
Definition CatScopeAny : string := "any".

Record DirectiveSpec := mkSpec {
  sp_name : string;
  sp_type : string;
  sp_scope : string;
  sp_multiplicity : string;
  sp_reload_kind : string;
  sp_since : string;
  sp_listener_since : string;
  sp_allowed : list string;
  sp_section : string;
  sp_unit : string;
  sp_min : option Z;
  sp_max : option Z;
  sp_default : string;
  sp_suffixes : list string
}.

Record Catalog := mkCatalog { cat_version : string; cat_specs : gmap string DirectiveSpec }.

(** ** Operations *)

(** [lower] folds ASCII letters only. *)
Fixpoint lower (s : string) : string :=
  match s with
  | EmptyString => ""
  | String c s' => String (if in_range 65 90 (byte_val c) then byte_of (byte_val c + 32) else c) (lower s')
  end.

Definition Lookup (c : Catalog) (directive : string) : option DirectiveSpec :=
  cat_specs c !! lower directive.

(** [Specs]: the entries sorted by name.  The insertion sort of the code moves
    an entry left while the one before it has a greater name. *)
Definition spec_less (a b : DirectiveSpec) : bool := string_less (sp_name a) (sp_name b).
Definition Specs (c : Catalog) : list DirectiveSpec :=
  sort_stable spec_less ((map_to_list (cat_specs c)).*2).

Definition parseVersionNumber (version : string) : option (list Z) :=
  let trimmed := trim_space version in
  if decide (trimmed = "") then None
  else mapM (λ part, match atoi part with
    | Some n => if (n <? 0)%Z then None else Some n
    | None => None end) (split "." trimmed).

(** The loop runs over the target only. *)
Fixpoint version_reaches (current target : list Z) : bool :=
  match target with
  | [] => true
  | r :: target' =>
      let l := default 0%Z (head current) in
      if (l =? r)%Z then version_reaches (tail current) target' else (r <? l)%Z
  end.

Definition versionAtLeast (version since : string) : bool :=
  match parseVersionNumber version, parseVersionNumber since with
  | Some current, Some target => version_reaches current target
  | _, _ => false
  end.

Definition SupportsListenerDirective (c : Catalog) (directive : string) : bool :=
  match Lookup c directive with
  | Some spec => negb (bool_decide (sp_listener_since spec = "")) && versionAtLeast (cat_version c) (sp_listener_since spec)
  | None => false
  end.

(** The failures of [DirectiveSpec.Validate], first one first. *)
Inductive spec_error :=
  | SpecNoName | SpecType | SpecScope | SpecReload | SpecMultiplicity | SpecEnumEmpty
  | SpecListenerSince | SpecSection | SpecBoundsType | SpecBoundsOrder
  | SpecNoSuffixes | SpecDurationBounds | SpecSuffixesType.

Definition has_bound (s : DirectiveSpec) : bool :=
  match sp_min s, sp_max s with None, None => false | _, _ => true end.

Definition ValidateSpec (s : DirectiveSpec) : option spec_error :=
  if decide (sp_name s = "") then Some SpecNoName
  else if decide (sp_type s ∉ [TypeString; TypeInteger; TypeBoolean; TypeEnum; TypeStringList; TypePath; TypeDuration]) then Some SpecType
  else if decide (sp_scope s ∉ [CatScopeGlobal; CatScopeListener; CatScopeBridge; CatScopeAny]) then Some SpecScope
  else if decide (sp_reload_kind s ∉ [ReloadOK; Restart; ReloadOrRestart]) then Some SpecReload
  else if decide (sp_multiplicity s ∉ [Once; Many; OncePerBlock]) then Some SpecMultiplicity
  else if decide (sp_type s = TypeEnum ∧ sp_allowed s = []) then Some SpecEnumEmpty
  else if negb (bool_decide (sp_listener_since s = "")) && negb (match parseVersionNumber (sp_listener_since s) with Some _ => true | None => false end)
  then Some SpecListenerSince
  else if decide (sp_section s ≠ "" ∧ sp_section s ∉ KnownSections) then Some SpecSection
  else if has_bound s && negb (bool_decide (sp_type s = TypeInteger)) then Some SpecBoundsType
  else if match sp_min s, sp_max s with Some lo, Some hi => (hi <? lo)%Z | _, _ => false end then Some SpecBoundsOrder
  else if decide (sp_type s = TypeDuration) then
    if decide (sp_suffixes s = []) then Some SpecNoSuffixes
    else if has_bound s then Some SpecDurationBounds else None
  else if decide (sp_suffixes s ≠ []) then Some SpecSuffixesType
  else None.

(** ** Lemmas *)
Lemma Specs_elem c s : s ∈ Specs c ↔ ∃ k, cat_specs c !! k = Some s.
Proof.
  unfold Specs. rewrite elem_of_sort_stable, list_elem_of_fmap. split.
  - intros ([k s'] & -> & H%elem_of_map_to_list). by exists k.
  - intros [k H]. exists (k, s). split; [done|]. by apply elem_of_map_to_list.
Qed.

Lemma lower_idem s : lower (lower s) = lower s.
Proof.
  induction s as [|c s IH]; [done|]. simpl. rewrite IH. f_equal.
  destruct (in_range 65 90 (byte_val c)) eqn:E; [|by rewrite E].
  by destruct c as [[] [] [] [] [] [] [] []].
Qed.

Lemma Lookup_lower c d : Lookup c (lower d) = Lookup c d.
Proof. unfold Lookup. by rewrite lower_idem. Qed.

(** The [k]th component of a version; missing components count as zero. *)
Definition component (v : list Z) (k : nat) : Z := default 0%Z (v !! k).

Lemma component_tail v k : component (tail v) k = component v (S k).
Proof. by destruct v. Qed.

Lemma version_reaches_spec current target :
  version_reaches current target = true ↔
  (∀ k, k < length target → component current k = component target k)
  ∨ (∃ k, k < length target ∧ (component target k < component current k)%Z
      ∧ ∀ j, j < k → component current j = component target j).
Proof.
  revert current. induction target as [|r target IH]; intros current; simpl.
  { split; [|done]. left. intros k Hk. lia. }
  assert (default 0%Z (head current) = component current 0) as -> by by destruct current.
  destruct (Z.eqb_spec (component current 0) r) as [E|E].
  - rewrite IH. setoid_rewrite component_tail. split; (intros [H|(k & Hk & Hlt & H)]).
    + left. intros [|k] Hk; [done|]. apply H. lia.
    + right. exists (S k). repeat split; [lia|done|]. intros [|j] Hj; [done|]. apply H. lia.
    + left. intros k Hk. apply (H (S k)). lia.
    + destruct k as [|k]; [cbn in Hlt; lia|]. right. exists k. repeat split; [lia|done|].
      intros j Hj. apply (H (S j)). lia.
  - split.
    + intros Hlt%Z.ltb_lt. right. exists 0. repeat split; [lia|done|]. intros j Hj. lia.
    + intros [H|([|k] & Hk & Hlt & H)].
      * by specialize (H 0 ltac:(lia)).
      * by apply Z.ltb_lt.
      * by specialize (H 0 ltac:(lia)).
Qed.

(** ** Properties *)

(** A catalog supports a directive per listener exactly when the entry,
    found whatever the case of the name, says since when, both versions are
    numeric, and the catalog's version is at least that one component by
    component, missing components counting as zero and extra ones of the
    catalog's version ignored. *)
Theorem SupportsListenerDirective_spec c directive :
  SupportsListenerDirective c directive = true ↔
  ∃ spec current since, cat_specs c !! lower directive = Some spec ∧ sp_listener_since spec ≠ ""
    ∧ parseVersionNumber (cat_version c) = Some current ∧ parseVersionNumber (sp_listener_since spec) = Some since
    ∧ ((∀ k, k < length since → component current k = component since k)
       ∨ (∃ k, k < length since ∧ (component since k < component current k)%Z
            ∧ ∀ j, j < k → component current j = component since j)).
Proof.
  unfold SupportsListenerDirective, Lookup. split.
  - destruct (cat_specs c !! lower directive) as [spec|] eqn:El; [|done]. intros H. bool_hyps.
    unfold versionAtLeast in *. destruct (parseVersionNumber (cat_version c)) as [cur|] eqn:Ec; [|done].
    destruct (parseVersionNumber (sp_listener_since spec)) as [tgt|] eqn:Et; [|done].
    exists spec, cur, tgt. repeat split; try done. by apply version_reaches_spec.
  - intros (spec & cur & tgt & -> & Hs & Hc & Ht & H). unfold versionAtLeast. rewrite Hc, Ht, bool_decide_false by done.
    by apply version_reaches_spec.
Qed.
