(* ===== verification/CatalogLoad.v ===== *)
(** * The loader of the catalogs: [mosquitto/catalog/loader.go] and the loader of [mosquitto/plugins/catalog.go]

    A catalog file is a sequence of YAML documents.  One may name the version
    the file extends, the others are entries; a version inherits the entries of
    the one it extends and overrides single ones.  The two packages share this
    code but for the type of an entry, so it is a section here.  The YAML
    library is third party: the section takes the embedded files as what the
    decoder yields, the documents and the error that ended them. *)
From S2P Require Import Prelude Unicode GoStrings GoStrconv Catalog.

(** ** Version names *)
Fixpoint version_chars (last i : nat) (s : string) : bool :=
  match s with
  | EmptyString => true
  | String c s' =>
      (is_digit c || (bool_decide (c = "."%char) && negb (bool_decide (i = 0)) && negb (bool_decide (i = last))))
      && version_chars last (S i) s'
  end.
Definition validVersionName (s : string) : bool :=
  negb (bool_decide (s = "")) && (String.length s <=? 16) && version_chars (String.length s - 1) 0 s.

Inductive load_error (V Y : Type) :=
  | VersionRequired | VersionInvalid (name : string) | ExtendsCycle (name : string) | NoCatalog (name : string)
  | DecodeFailed (e : Y) | ExtendsTwice | ExtendsNotFirst | EntryInvalid (v : V) | EntryTwice (name : string) | OutOfFuel.
Arguments VersionRequired {V Y}.
Arguments VersionInvalid {V Y} name.
Arguments ExtendsCycle {V Y} name.
Arguments NoCatalog {V Y} name.
Arguments DecodeFailed {V Y} e.
Arguments ExtendsTwice {V Y}.
Arguments ExtendsNotFirst {V Y}.
Arguments EntryInvalid {V Y} v.
Arguments EntryTwice {V Y} name.
Arguments OutOfFuel {V Y}.

(** ** The loader *)
Section loader.
(** An entry, its name, whether all its identifying fields are empty, its
    validation, the catalog that is built, and the embedded files. *)
Context {A V Y C : Type} (name_of : A → string) (blank : A → bool) (check : A → option V).
Context (assemble : string → option C → list A → gmap string A → C).
Context (files : gmap string (list (string * A) * option Y)).
Local Abbreviation loading := (result (load_error V Y)).

Definition entry_key (e : A) : string := to_lower (name_of e).

Record parsed_file := mkParsed { pf_extends : string; pf_entries : list A }.
Definition doc_step (s : parsed_file) (d : string * A) : loading parsed_file :=
  if blank d.2 then
    if decide (d.1 = "") then Ok s
    else if negb (bool_decide (pf_extends s = "")) then Err ExtendsTwice
    else match pf_entries s with [] => Ok (mkParsed d.1 []) | _ => Err ExtendsNotFirst end
  else match check d.2 with
  | Some v => Err (EntryInvalid v)
  | None => Ok (mkParsed (pf_extends s) (pf_entries s ++ [d.2]))
  end.
Definition parse_docs (file : list (string * A) * option Y) : loading parsed_file :=
  s ← fold_result doc_step (mkParsed "" []) file.1;
  match file.2 with Some e => Err (DecodeFailed e) | None => Ok s end.

Definition own_step (own : gmap string A) (e : A) : loading (gmap string A) :=
  match own !! entry_key e with Some _ => Err (EntryTwice (name_of e)) | None => Ok (<[entry_key e := e]> own) end.

Definition parseVersion (load : string → loading C) (version : string) (file : list (string * A) * option Y) : loading C :=
  s ← parse_docs file;
  parent ← (if decide (pf_extends s = "") then Ok None else Some <$> load (pf_extends s));
  own ← fold_result own_step ∅ (pf_entries s);
  Ok (assemble version parent (pf_entries s) own).

Fixpoint loadVersion (fuel : nat) (visited : gset string) (version : string) : loading C :=
  match fuel with
  | 0 => Err OutOfFuel
  | S fuel =>
      let name := trim_space version in
      if decide (name = "") then Err VersionRequired
      else if negb (validVersionName name) then Err (VersionInvalid name)
      else if decide (name ∈ visited) then Err (ExtendsCycle name)
      else match files !! name with
      | None => Err (NoCatalog name)
      | Some file => parseVersion (loadVersion fuel ({[name]} ∪ visited)) name file
      end
  end.
(** Every version on the [extends] chain is another embedded file. *)
Definition load_fuel : nat := S (size files).
Definition LoadVersion (version : string) : loading C := loadVersion load_fuel ∅ version.
Definition LoadAll : loading (gmap string C) :=
  fold_result (λ out '(version, file), cat ← parseVersion (loadVersion load_fuel ∅) version file; Ok (<[version := cat]> out))
    ∅ (map_to_list files).

(** ** Specification: the chain of files a version is made of *)
Definition distinct_keys (entries : list A) : Prop := NoDup (entry_key <$> entries).
Inductive chain : gset string → string → list (string * list A) → Prop :=
  | chain_root visited version name file s :
      name = trim_space version → validVersionName name = true → name ∉ visited →
      files !! name = Some file → parse_docs file = Ok s → distinct_keys (pf_entries s) → pf_extends s = "" →
      chain visited version [(name, pf_entries s)]
  | chain_extends visited version name file s l :
      name = trim_space version → validVersionName name = true → name ∉ visited →
      files !! name = Some file → parse_docs file = Ok s → distinct_keys (pf_entries s) → pf_extends s ≠ "" →
      chain ({[name]} ∪ visited) (pf_extends s) l →
      chain visited version ((name, pf_entries s) :: l).
Fixpoint assembled (l : list (string * list A)) : option C :=
  match l with
  | [] => None
  | (name, entries) :: l => Some (assemble name (assembled l) entries (map_by entry_key entries))
  end.
(** The nearest file of the chain that declares an entry wins. *)
Fixpoint declared (l : list (string * list A)) (key : string) : option A :=
  match l with
  | [] => None
  | (_, entries) :: l => match map_by entry_key entries !! key with Some e => Some e | None => declared l key end
  end.

(** ** Lemmas *)
Lemma own_fold entries own : distinct_keys entries → (∀ e, e ∈ entries → own !! entry_key e = None) →
  fold_result own_step own entries = Ok (foldl (λ m x, <[entry_key x := x]> m) own entries).
Proof.
  unfold distinct_keys. revert own. induction entries as [|e entries IH]; intros own Hnd Hown; [done|].
  rewrite fmap_cons in Hnd. apply NoDup_cons in Hnd as [Hnin Hnd]. cbn [fold_result foldl].
  assert (own_step own e = Ok (<[entry_key e := e]> own)) as -> by (unfold own_step; by rewrite (Hown e) by left). cbn. apply IH; [done|]. intros x Hx. rewrite lookup_insert_ne; [apply Hown; by right|].
  intros E. apply Hnin. rewrite E. by apply list_elem_of_fmap_2.
Qed.
Lemma own_fold_distinct entries own out : fold_result own_step own entries = Ok out →
  distinct_keys entries ∧ ∀ e, e ∈ entries → own !! entry_key e = None.
Proof.
  unfold distinct_keys. revert own. induction entries as [|e entries IH]; intros own; cbn [fold_result].
  - intros _. split; [constructor|]. by intros e ?%elem_of_nil.
  - destruct (own_step own e) as [own'|] eqn:Es; [|done]. unfold own_step in Es. destruct (own !! entry_key e) eqn:E; [done|].
    injection Es as <-. cbn. intros [Hnd Hown]%IH. split.
    + apply NoDup_cons. split; [|done]. intros (x & Hx & Hin)%list_elem_of_fmap.
      specialize (Hown x Hin). rewrite <-Hx, lookup_insert_eq in Hown. done.
    + intros x [->|Hx]%elem_of_cons; [done|]. specialize (Hown x Hx). by apply lookup_insert_None in Hown as [? _].
Qed.
Lemma own_ok entries out : fold_result own_step ∅ entries = Ok out ↔ distinct_keys entries ∧ out = map_by entry_key entries.
Proof.
  split.
  - intros H. destruct (own_fold_distinct _ _ _ H) as [Hd _]. split; [done|]. rewrite own_fold in H by done. by injection H as <-.
  - intros [Hd ->]. by apply own_fold.
Qed.

Lemma version_not_empty name : validVersionName name = true → name ≠ "".
Proof. by intros H ->. Qed.

Lemma size_visited name visited : is_Some (files !! name) → name ∉ visited →
  size (dom files ∖ ({[name]} ∪ visited)) < size (dom files ∖ visited).
Proof.
  intros Hn Hv. apply subset_size. split; [set_solver|]. intros H. assert (name ∈ dom files ∖ visited) as Hin.
  { apply elem_of_difference. split; [by apply elem_of_dom|done]. }
  specialize (H name Hin). set_solver.
Qed.

(** With enough fuel the loader builds the catalog of the chain, and only
    there. *)
Lemma loadVersion_chain fuel visited version c : size (dom files ∖ visited) < fuel →
  loadVersion fuel visited version = Ok c ↔ ∃ l, chain visited version l ∧ assembled l = Some c.
Proof.
  revert visited version c. induction fuel as [|fuel IH]; intros visited version c Hfuel; [lia|]. cbn [loadVersion]. cbv zeta. split.
  - destruct (decide (trim_space version = "")) as [|Hne]; [done|]. destruct (validVersionName _) eqn:Hvalid; [|done]. cbn [negb].
    destruct (decide (trim_space version ∈ visited)) as [|Hnin]; [done|]. destruct (files !! trim_space version) as [file|] eqn:Hfile; [|done].
    assert (size (dom files ∖ ({[trim_space version]} ∪ visited)) < fuel) as Hless.
    { pose proof (size_visited _ visited (mk_is_Some _ _ Hfile) Hnin). lia. }
    unfold parseVersion. rewrite result_bind_ok. intros (s & Hs & Hc). rewrite result_bind_ok in Hc. destruct Hc as (parent & Hp & Hc).
    rewrite result_bind_ok in Hc. destruct Hc as (own & Hown & [= <-]). apply own_ok in Hown as [Hd ->].
    case_decide as Hext.
    + injection Hp as <-. exists [(trim_space version, pf_entries s)]. split; [by eapply chain_root|done].
    + apply result_fmap_ok in Hp as (p & Hp & ->). apply IH in Hp as (l & Hl & Ha); [|done].
      exists ((trim_space version, pf_entries s) :: l). split; [by eapply chain_extends|]. cbn. by rewrite Ha.
  - intros (l & Hl & Ha). destruct Hl as [visited version name file s -> Hvalid Hnin Hfile Hs Hd Hext|visited version name file s l -> Hvalid Hnin Hfile Hs Hd Hext Hl];
      (rewrite decide_False by (by apply version_not_empty)); rewrite Hvalid; cbn [negb]; rewrite decide_False, Hfile by done; unfold parseVersion; rewrite Hs; cbn [mbind result_bind].
    + rewrite decide_True by done. cbn [mbind result_bind]. rewrite (proj2 (own_ok _ _) (conj Hd eq_refl)). cbn in Ha |- *. congruence.
    + rewrite decide_False by done. pose proof (size_visited _ visited (mk_is_Some _ _ Hfile) Hnin).
      cbn [assembled] in Ha. destruct (assembled l) as [p|] eqn:Ep.
      * rewrite (proj2 (IH ({[trim_space version]} ∪ visited) (pf_extends s) p ltac:(lia)) (ex_intro _ l (conj Hl Ep))). cbn [mbind result_bind fmap result_fmap].
        rewrite (proj2 (own_ok _ _) (conj Hd eq_refl)). cbn. congruence.
      * destruct Hl; discriminate Ep.
Qed.

Lemma loadVersion_fuel fuel visited version : size (dom files ∖ visited) < fuel → loadVersion fuel visited version ≠ Err OutOfFuel.
Proof.
  revert visited version. induction fuel as [|fuel IH]; intros visited version Hfuel; [lia|]. cbn [loadVersion]. cbv zeta.
  destruct (decide _); [done|]. destruct (negb _); [done|]. destruct (decide _) as [|Hnin]; [done|].
  destruct (files !! _) as [file|] eqn:Hfile; [|done].
  pose proof (size_visited _ visited (mk_is_Some _ _ Hfile) Hnin).
  assert (∀ s0 l, fold_result doc_step s0 l ≠ Err OutOfFuel) as Hdocs.
  { intros s0 l. revert s0. induction l as [|d l IHl]; intros s0; [done|]. cbn [fold_result].
    destruct (doc_step s0 d) as [s1|e1] eqn:E; [apply IHl|]. unfold doc_step in E. cbn. split_all; congruence. }
  assert (∀ own l, fold_result own_step own l ≠ Err OutOfFuel) as Howns.
  { intros own l. revert own. induction l as [|e l IHl]; intros own; [done|]. cbn [fold_result].
    destruct (own_step own e) as [o1|e1] eqn:E; [apply IHl|]. unfold own_step in E. cbn. split_all; congruence. }
  unfold parseVersion, parse_docs. specialize (Hdocs (mkParsed "" []) file.1). destruct (fold_result doc_step _ _) as [s|err]; cbn; [|congruence].
  destruct file.2; cbn; [done|]. specialize (Howns ∅ (pf_entries s)).
  destruct (decide _); cbn.
  - destruct (fold_result own_step _ _) as [own|err]; cbn; congruence.
  - specialize (IH ({[trim_space version]} ∪ visited) (pf_extends s) ltac:(lia)). destruct (loadVersion _ _ _) as [p|err]; cbn; [|congruence].
    destruct (fold_result own_step _ _) as [own|err]; cbn; congruence.
Qed.

Lemma LoadVersion_chain version c : LoadVersion version = Ok c ↔ ∃ l, chain ∅ version l ∧ assembled l = Some c.
Proof. apply loadVersion_chain. rewrite difference_empty_L, size_dom. unfold load_fuel. lia. Qed.
Lemma LoadVersion_fuel version : LoadVersion version ≠ Err OutOfFuel.
Proof. apply loadVersion_fuel. rewrite difference_empty_L, size_dom. unfold load_fuel. lia. Qed.
Lemma chain_names visited version l : chain visited version l → NoDup l.*1 ∧ ∀ name, name ∈ l.*1 → name ∉ visited.
Proof.
  induction 1 as [visited version name file s -> Hvalid Hnin Hfile Hs Hd Hext|visited version name file s l -> Hvalid Hnin Hfile Hs Hd Hext Hl [IHn IHv]]; cbn.
  - split; [apply NoDup_singleton|]. by intros ? ->%list_elem_of_singleton.
  - split; [apply NoDup_cons; split; [|done]; intros Hin; specialize (IHv _ Hin); set_solver|].
    intros ? [->|Hin]%elem_of_cons; [done|]. specialize (IHv _ Hin). set_solver.
Qed.

Lemma doc_step_valid s d s' : Forall (λ e, check e = None) (pf_entries s) → doc_step s d = Ok s' → Forall (λ e, check e = None) (pf_entries s').
Proof.
  unfold doc_step. intros Hs. destruct (blank d.2).
  - case_decide; [by intros [= <-]|]. destruct (negb _); [done|]. destruct (pf_entries s); [|done]. by intros [= <-].
  - destruct (check d.2) eqn:E; [done|]. intros [= <-]. apply Forall_app. by rewrite Forall_singleton.
Qed.
Lemma parse_docs_valid file s : parse_docs file = Ok s → Forall (λ e, check e = None) (pf_entries s).
Proof.
  unfold parse_docs. rewrite result_bind_ok. intros (s' & H & E). destruct file.2; [done|]. injection E as <-.
  revert H. apply (fold_result_inv (λ s, Forall (λ e, check e = None) (pf_entries s))); [constructor|].
  intros s1 d s2 _. apply doc_step_valid.
Qed.
Lemma chain_valid visited version l : chain visited version l → Forall (λ level, distinct_keys level.2 ∧ Forall (λ e, check e = None) level.2) l.
Proof.
  induction 1 as [visited version name file s -> Hvalid Hnin Hfile Hs Hd Hext|visited version name file s l -> Hvalid Hnin Hfile Hs Hd Hext Hl IH];
    (constructor; [split; [done|by eapply parse_docs_valid]|done]).
Qed.

Lemma declared_elem l key e : declared l key = Some e → ∃ level, level ∈ l ∧ e ∈ level.2 ∧ entry_key e = key.
Proof.
  induction l as [|[name entries] l IH]; [done|]. cbn. destruct (map_by entry_key entries !! key) as [e'|] eqn:E.
  - intros [= <-]. apply map_by_Some in E as [Hin Hk]. exists (name, entries). split; [by left|]. by split.
  - intros (level & Hl & H)%IH. exists level. split; [by right|done].
Qed.
End loader.

(** ** The directive catalog

    The loader returns the catalog and its [knownNames], sorted. *)
Section directives.
Context {Y : Type} (files : gmap string (list (string * DirectiveSpec) * option Y)).

Definition directive_blank (s : DirectiveSpec) : bool := bool_decide (sp_name s = "" ∧ sp_type s = "").
Definition assemble_catalog (version : string) (parent : option (Catalog * list string)) (entries : list DirectiveSpec)
    (own : gmap string DirectiveSpec) : Catalog * list string :=
  (mkCatalog version (own ∪ from_option (λ p, cat_specs p.1) ∅ parent),
   sort_strings (filter (λ name, own !! to_lower name = None) (from_option snd [] parent) ++ (sp_name <$> entries))).
Definition LoadCatalog : string → result (load_error spec_error Y) (Catalog * list string) :=
  LoadVersion sp_name directive_blank ValidateSpec assemble_catalog files.

Definition catalog_of (l : list (string * list DirectiveSpec)) (c : Catalog * list string) : Prop :=
  (∀ key, cat_specs c.1 !! key = declared sp_name l key)
  ∧ (∀ name, name ∈ c.2 ↔ ∃ key spec, cat_specs c.1 !! key = Some spec ∧ sp_name spec = name)
  ∧ (∀ key spec, cat_specs c.1 !! key = Some spec → key = to_lower (sp_name spec))
  ∧ NoDup c.2.

Lemma assemble_catalog_of name parent entries l : distinct_keys sp_name entries →
  match parent with Some c => catalog_of l c | None => l = [] end →
  catalog_of ((name, entries) :: l) (assemble_catalog name parent entries (map_by (entry_key sp_name) entries)).
Proof.
  intros Hd Hparent. set (own := map_by (entry_key sp_name) entries). set (base := from_option (λ p, cat_specs p.1) ∅ parent).
  set (names := from_option snd [] parent).
  assert ((∀ key, base !! key = declared sp_name l key) ∧ (∀ n, n ∈ names ↔ ∃ key spec, base !! key = Some spec ∧ sp_name spec = n)
    ∧ (∀ key spec, base !! key = Some spec → key = to_lower (sp_name spec)) ∧ NoDup names) as (Hbase & Hnames & Hkeys & Hnd).
  { destruct parent as [c|]; [exact Hparent|]. subst l base names. cbn. split_and!; [done| |done|constructor].
    intros n. split; [by intros ?%elem_of_nil|]. by intros (? & ? & ? & _). }
  assert (∀ key spec, own !! key = Some spec → spec ∈ entries ∧ to_lower (sp_name spec) = key) as Hown by (intros key spec; apply (map_by_Some (entry_key sp_name))).
  assert (∀ spec, spec ∈ entries → own !! to_lower (sp_name spec) = Some spec) as Hin.
  { intros spec H. by apply (map_by_elem (entry_key sp_name)). }
  unfold catalog_of. cbn [fst snd assemble_catalog cat_specs]. fold own base names. split_and!.
  - intros key. cbn [declared]. fold own. destruct (own !! key) as [spec|] eqn:E; [by apply lookup_union_Some_l|].
    by rewrite lookup_union_r.
  - intros n. rewrite elem_of_sort_strings, elem_of_app, list_elem_of_filter, Hnames, list_elem_of_fmap. split.
    + intros [[Hn (key & spec & Hk & <-)]|(spec & -> & Hs)].
      * exists key, spec. split; [|done]. rewrite (Hkeys key spec Hk). rewrite lookup_union_r by done. rewrite <-(Hkeys key spec Hk). done.
      * exists (to_lower (sp_name spec)), spec. split; [|done]. apply lookup_union_Some_l. by apply Hin.
    + intros (key & spec & [Hs|[Hs Hk]]%lookup_union_Some_raw & <-).
      * right. exists spec. split; [done|]. by apply (Hown key).
      * left. split; [|by exists key, spec]. by rewrite <-(Hkeys key spec Hk).
  - intros key spec [Hs|[_ Hk]]%lookup_union_Some_raw; [symmetry; by apply Hown|by apply Hkeys].
  - rewrite sort_strings_perm. apply NoDup_app. split_and!; [by apply NoDup_filter| |].
    + intros n [Hn _]%list_elem_of_filter (spec & -> & Hs)%list_elem_of_fmap. by rewrite (Hin spec Hs) in Hn.
    + change (NoDup ((to_lower ∘ sp_name) <$> entries)) in Hd. rewrite list_fmap_compose in Hd. by apply NoDup_fmap_1 in Hd.
Qed.
Lemma assembled_catalog visited version l c :
  chain sp_name directive_blank ValidateSpec files visited version l → assembled sp_name assemble_catalog l = Some c → catalog_of l c.
Proof.
  intros Hl. revert c.
  induction Hl as [visited version name file s -> _ _ _ _ Hd _|visited version name file s l -> _ _ _ _ Hd _ Hl IH]; intros c; cbn [assembled]; intros [= <-].
  - by apply assemble_catalog_of.
  - apply assemble_catalog_of; [done|]. destruct (assembled sp_name assemble_catalog l) as [p|] eqn:E; [by apply IH|]. by destruct Hl.
Qed.

(** ** Properties *)

(** [C37] Loading a catalog always ends with a catalog or one of the errors of
    the code, whatever the embedded files extend: a version that extends itself,
    directly or not, is the cycle error.  It succeeds exactly when the files of
    the [extends] chain exist, are valid and do not repeat an entry; then a
    directive has the entry of the nearest file that declares it, every entry is
    valid and stored under its lower-cased name, and the known names are those
    of the entries, sorted and without repetition. *)
Theorem LoadCatalog_resolves version :
  LoadCatalog version ≠ Err OutOfFuel
  ∧ (is_ok (LoadCatalog version) = true ↔ ∃ l, chain sp_name directive_blank ValidateSpec files ∅ version l)
  ∧ ∀ c names, LoadCatalog version = Ok (c, names) → ∃ l,
      chain sp_name directive_blank ValidateSpec files ∅ version l ∧ NoDup l.*1
      ∧ (∀ key, cat_specs c !! key = declared sp_name l key)
      ∧ (∀ key spec, cat_specs c !! key = Some spec → ValidateSpec spec = None ∧ key = to_lower (sp_name spec))
      ∧ (∀ name, name ∈ names ↔ ∃ key spec, cat_specs c !! key = Some spec ∧ sp_name spec = name)
      ∧ NoDup names ∧ sorted_by string_less names.
Proof.
  unfold LoadCatalog. split; [apply LoadVersion_fuel|]. split.
  - split.
    + destruct (LoadVersion _ _ _ _ _ version) as [c|] eqn:E; [|done]. apply LoadVersion_chain in E as (l & Hl & _). by exists l.
    + intros [l Hl]. destruct (assembled sp_name assemble_catalog l) as [c|] eqn:Ea; [|by destruct Hl].
      by rewrite (proj2 (LoadVersion_chain _ _ _ _ _ version c) (ex_intro _ l (conj Hl Ea))).
  - intros c names E. apply LoadVersion_chain in E as (l & Hl & Ha). pose proof (assembled_catalog _ _ _ _ Hl Ha) as (Hs & Hn & Hk & Hnd).
    cbn [fst snd] in *. exists l. split; [done|]. split; [by eapply chain_names|]. split; [done|]. split; [|split; [done|split; [done|]]].
    + intros key spec H. split; [|by apply Hk]. rewrite Hs in H. apply declared_elem in H as (level & Hlevel & Hspec & _).
      pose proof (chain_valid _ _ _ _ _ _ _ Hl) as Hv. rewrite Forall_forall in Hv. destruct (Hv level Hlevel) as [_ Hv'].
      by rewrite Forall_forall in Hv'; apply Hv'.
    + destruct l as [|[name entries] l]; [done|]. cbn in Ha. injection Ha as _ <-. apply sort_strings_sorted.
Qed.
End directives.

(** The 2.0 catalog and a 2.1 catalog that refines one entry. *)
Definition sample_spec (name type default_ : string) : DirectiveSpec :=
  mkSpec name type CatScopeGlobal Once ReloadOK "2.0" "" [] "" "" None None default_ [].
Definition sample_files : gmap string (list (string * DirectiveSpec) * option string) :=
  {["2.0" := ([("", sample_spec "persistence" TypeBoolean "false"); ("", sample_spec "log_facility" TypeInteger "5")], None);
    "2.1" := ([("2.0", sample_spec "" "" ""); ("", sample_spec "Persistence" TypeBoolean "true")], None);
    "3.0" := ([("3.1", sample_spec "" "" "")], None);
    "3.1" := ([("3.0", sample_spec "" "" "")], None)]}.
Definition is_cycle {V Y A} (r : result (load_error V Y) A) : bool := match r with Err (ExtendsCycle _) => true | _ => false end.
Lemma LoadCatalog_resolves_witness :
  is_cycle (LoadCatalog sample_files "3.0") = true
  ∧ ∃ c, LoadCatalog sample_files " 2.1" = Ok (c, ["Persistence"; "log_facility"])
    ∧ cat_specs c !! "persistence" = Some (sample_spec "Persistence" TypeBoolean "true")
    ∧ ∃ l, chain sp_name directive_blank ValidateSpec sample_files ∅ " 2.1" l ∧ NoDup l.*1.
Proof.
  split; [vm_compute; reflexivity|]. eexists. split; [vm_compute; reflexivity|]. split; [vm_compute; reflexivity|].
  destruct (proj2 (proj2 (LoadCatalog_resolves sample_files " 2.1")) _ ["Persistence"; "log_facility"] ltac:(vm_compute; reflexivity)) as (l & Hl & Hn & _).
  exists l. split; assumption.
Defined.
