(* ===== verification/Conf.v ===== *)
(** * [internal/mosquitto/conf]: the lossless parser of mosquitto.conf

    [conf.go] (parser), [render.go] (renderer) and [validate.go] (catalog
    checks).  The reader is the text of the file: [bufio.Scanner] with its
    1 MiB limit is modelled by [scan_lines].  The unified diff of [diff.go] is a
    third-party library and is left out. *)
From S2P Require Import Prelude Unicode GoStrings GoStrconv Catalog.

(** ** The data *)
Inductive ItemKind := ItemComment | ItemDirective | ItemBlockOpen | ItemBlockClose.
#[export] Instance ItemKind_eq_dec : EqDecision ItemKind.
Proof. solve_decision. Defined.

Record Item := mkItem {
  it_kind : ItemKind;
  it_key : string;
  it_values : list string;
  it_text : string;
  it_line : Z;
  it_indent : nat
}.
#[export] Instance Item_eq_dec : EqDecision Item.
Proof. solve_decision. Defined.

Record File := mkFile { f_items : list Item; f_path : string }.

Record Block := mkBlock { b_header : Item; b_body : list Item; b_close : Item }.

Inductive parse_error := ReadTooLong | UnclosedBlock (depth : Z).

(** ** The scanner *)

(** [bufio.ScanLines]: the text between newlines, without one final carriage
    return; a final newline ends the last line. *)
Definition drop_cr (s : string) : string := trim_suffix (chr_str cr_char) s.

Definition raw_lines (body : string) : list string :=
  let l := split nl_char body in
  if decide (last l = Some "") then take (length l - 1) l else l.

Definition max_token : Z := 1024 * 1024.
Definition line_too_long (l : string) : bool := (max_token <=? Z.of_nat (String.length l))%Z.

Definition is_cr (c : ascii) : bool := bool_decide (c = cr_char).
Definition is_blank (c : ascii) : bool := bool_decide (c = space_char) || bool_decide (c = tab_char).

(** [scanner.Text()] and [strings.TrimRight(raw, "\r")]. *)
Definition scan_line (l : string) : string := trim_right_bytes is_cr (drop_cr l).

(** ** Tokens *)
Record token_state := mkTok { t_out : list string; t_cur : string; t_quote : bool }.

Definition flush (s : token_state) : token_state :=
  if decide (t_cur s = "") then s else mkTok (t_out s ++ [t_cur s]) "" (t_quote s).

Definition token_step (s : token_state) (c : ascii) : token_state :=
  if decide (c = quote_char) then mkTok (t_out s) (t_cur s +:+ chr_str c) (negb (t_quote s))
  else if is_blank c && negb (t_quote s) then flush s
  else mkTok (t_out s) (t_cur s +:+ chr_str c) (t_quote s).

Definition tokenise (s : string) : list string :=
  t_out (flush (foldl token_step (mkTok [] "" false) (String.list_ascii_of_string s))).

(** ** Lines *)
Definition blockDirectives : list string := ["listener"; "bridge"].
Definition isBlockDirective (name : string) : bool := bool_decide (name ∈ blockDirectives).

Definition isBlockStart (raw : string) (flds : list string) : bool :=
  has_suffix "{" (trim_space raw) || bool_decide (last flds = Some "{").

Definition isCloseBrace (trimmed : string) : bool :=
  bool_decide (trimmed = "}") ||
  match trimmed with
  | String "}" (String c _) => is_blank c || bool_decide (c = "#"%char)
  | _ => false
  end.

Definition comment_item (raw : string) (lineNo : Z) (indent : nat) : Item :=
  mkItem ItemComment "" [] (raw +:+ nl) lineNo indent.

Definition zero_item : Item := mkItem ItemComment "" [] "" 0 0.

Definition parseDirectiveLine (raw : string) (lineNo : Z) (indent : nat) (allowEmpty : bool) : Item * bool :=
  let trimmed := trim_space raw in
  if decide (trimmed = "") then (zero_item, allowEmpty)
  else if has_prefix "#" trimmed then (zero_item, false)
  else match tokenise trimmed with
  | [] => (zero_item, false)
  | key :: rest => (mkItem ItemDirective (to_lower key) rest (raw +:+ nl) lineNo indent, true)
  end.

(** ** [Parse] *)
Record parse_state := mkParse { p_items : list Item; p_depth : Z; p_in_block : bool; p_line : Z }.

Definition set_kind (k : ItemKind) (it : Item) : Item :=
  mkItem k (it_key it) (it_values it) (it_text it) (it_line it) (it_indent it).

(** One iteration of the scanning loop. *)
Definition parse_step (s : parse_state) (line : string) : parse_state :=
  let lineNo := (p_line s + 1)%Z in
  let raw := scan_line line in
  let trimmed := trim_space raw in
  let indent := String.length raw - String.length (trim_left_bytes is_blank raw) in
  let add it := mkParse (p_items s ++ [it]) (p_depth s) (p_in_block s) lineNo in
  let directive :=
    let '(it, ok) := parseDirectiveLine raw lineNo indent (p_in_block s) in
    add (if ok : bool then it else comment_item raw lineNo indent) in
  if decide (trimmed = "") then add (comment_item raw lineNo indent)
  else if has_prefix "#" trimmed then add (comment_item raw lineNo indent)
  else if p_in_block s then
    if isCloseBrace trimmed then
      mkParse (p_items s ++ [mkItem ItemBlockClose "" [] (raw +:+ nl) lineNo indent]) (p_depth s - 1) false lineNo
    else directive
  else
    match fields raw with
    | [] => mkParse (p_items s) (p_depth s) (p_in_block s) lineNo
    | d :: _ as flds =>
        if isBlockDirective (to_lower d) && isBlockStart raw flds then
          let it := (parseDirectiveLine raw lineNo indent false).1 in
          mkParse (p_items s ++ [set_kind ItemBlockOpen it]) (p_depth s + 1) true lineNo
        else directive
    end.

Definition Parse (body path : string) : result parse_error File :=
  let lines := raw_lines body in
  if existsb line_too_long lines then Err ReadTooLong
  else
    let s := foldl parse_step (mkParse [] 0 false 0) lines in
    if (p_depth s =? 0)%Z then Ok (mkFile (p_items s) path) else Err (UnclosedBlock (p_depth s)).

(** [matchingBlockClose]: the index of the closing item, from the depth before
    [items] and the index of its first element. *)
Fixpoint matching_close (items : list Item) (depth : Z) (pos : nat) : option nat :=
  match items with
  | [] => None
  | it :: rest =>
      match it_kind it with
      | ItemBlockOpen => matching_close rest (depth + 1) (S pos)
      | ItemBlockClose =>
          if (depth - 1 =? 0)%Z then Some pos else matching_close rest (depth - 1) (S pos)
      | _ => matching_close rest depth (S pos)
      end
  end.
Definition matchingBlockClose (items : list Item) (openIdx : nat) : option nat :=
  matching_close (drop openIdx items) 0 openIdx.

Definition block_at (items : list Item) (i : nat) (it : Item) : option Block :=
  if decide (it_kind it = ItemBlockOpen) then
    match matchingBlockClose items i with
    | Some e =>
        match items !! e with
        | Some close => Some (mkBlock it (take (e - (i + 1)) (drop (i + 1) items)) close)
        | None => None
        end
    | None => None
    end
  else None.

Definition ListenerBlocks (f : File) : list Block :=
  omap (λ '(i, it), block_at (f_items f) i it) (imap pair (f_items f)).

(** ** [render.go] *)
Inductive render_error := EmptyKey (line : Z).

Definition is_nl (c : ascii) : bool := bool_decide (c = nl_char).
Definition spaces (n : nat) : string := String.string_of_list_ascii (replicate n space_char).

Definition with_values (key : string) (values : list string) : string :=
  foldl (λ acc v, acc +:+ " " +:+ v) key values.

Definition renderDirectiveLine (it : Item) : result render_error string :=
  if negb (bool_decide (it_text it = "")) then Ok (trim_right_bytes is_nl (it_text it) +:+ nl)
  else if decide (it_key it = "") then Err (EmptyKey (it_line it))
  else Ok (with_values (spaces (it_indent it) +:+ it_key it) (it_values it) +:+ nl).

Definition render_item (it : Item) : result render_error string :=
  match it_kind it with
  | ItemComment => Ok (it_text it)
  | ItemDirective => renderDirectiveLine it
  | ItemBlockOpen => Ok (trim_right_bytes is_nl (it_text it) +:+ nl)
  | ItemBlockClose =>
      if decide (it_text it = "") then Ok (spaces (it_indent it) +:+ "}" +:+ nl)
      else Ok (trim_right_bytes is_nl (it_text it) +:+ nl)
  end.

Fixpoint render_items (items : list Item) : result render_error string :=
  match items with
  | [] => Ok ""
  | it :: rest => t ← render_item it; ts ← render_items rest; Ok (t +:+ ts)
  end.

Definition RenderConf (f : File) : result render_error string := render_items (f_items f).

(** ** [validate.go] *)
Inductive conf_message :=
  | MsgUnknownBlock | MsgUnknown | MsgOnlyListener | MsgOnlyGlobal | MsgNoValue
  | MsgNotInteger (value : string) | MsgBelow (bound value : Z) | MsgAbove (bound value : Z)
  | MsgDurationShort | MsgDurationNumber (value : string) | MsgDurationZero (value : string)
  | MsgDurationUnit (suffix : string) | MsgNotAllowed (value : string) | MsgRepeated (count : nat).

Record ValidationIssue := mkIssue {
  vi_kind : string;
  vi_line : Z;
  vi_directive : string;
  vi_message : conf_message
}.

(** [listenerContext]: the lines of the directives that belong to a listener.
    The state is the block depth and whether a listener is open. *)
Record ctx_state := mkCtx { x_depth : Z; x_in : bool; x_lines : gset Z }.

Definition ctx_step (s : ctx_state) (it : Item) : ctx_state :=
  match it_kind it with
  | ItemBlockOpen => mkCtx (x_depth s + 1) true (x_lines s)
  | ItemBlockClose =>
      if (x_depth s - 1 <=? 0)%Z then mkCtx 0 false (x_lines s)
      else mkCtx (x_depth s - 1) (x_in s) (x_lines s)
  | ItemDirective =>
      if isBlockDirective (it_key it) then mkCtx (x_depth s) true (x_lines s)
      else if x_in s then mkCtx (x_depth s) (x_in s) ({[it_line it]} ∪ x_lines s) else s
  | ItemComment => s
  end.
Definition listenerContext (f : File) : gset Z := x_lines (foldl ctx_step (mkCtx 0 false ∅) (f_items f)).

(** [rangeCheck] and [durationCheck]: [None] is the ok answer. *)
Definition rangeCheck (spec : DirectiveSpec) (value : Z) : option conf_message :=
  match sp_min spec with
  | Some lo => if (value <? lo)%Z then Some (MsgBelow lo value) else
      match sp_max spec with Some hi => if (hi <? value)%Z then Some (MsgAbove hi value) else None | None => None end
  | None =>
      match sp_max spec with Some hi => if (hi <? value)%Z then Some (MsgAbove hi value) else None | None => None end
  end.

Definition durationCheck (spec : DirectiveSpec) (value : string) : option conf_message :=
  if String.length value <? 2 then Some MsgDurationShort
  else
    let digits := String.substring 0 (String.length value - 1) value in
    let suffix := String.substring (String.length value - 1) 1 value in
    match atoi digits with
    | None => Some (MsgDurationNumber value)
    | Some n =>
        if (n <=? 0)%Z then Some (MsgDurationZero value)
        else if decide (suffix ∈ sp_suffixes spec) then None else Some (MsgDurationUnit suffix)
    end.

(** The loop over the values of an integer directive; [first] is whether the
    index is 0. *)
Fixpoint integer_check (spec : DirectiveSpec) (first : bool) (values : list string) : option (string * conf_message) :=
  match values with
  | [] => None
  | v :: rest =>
      if bool_decide (sp_name spec = "listener") && negb first then integer_check spec false rest
      else match atoi v with
      | None => Some ("type", MsgNotInteger v)
      | Some n =>
          match rangeCheck spec n with
          | Some msg => Some ("range", msg)
          | None => integer_check spec false rest
          end
      end
  end.

Definition type_issue (spec : DirectiveSpec) (it : Item) : option (string * conf_message) :=
  match it_values it with
  | [] => if decide (sp_type spec ≠ TypeBoolean) then Some ("type", MsgNoValue) else None
  | v :: _ =>
      if decide (sp_type spec = TypeInteger) then integer_check spec true (it_values it)
      else if decide (sp_type spec = TypeDuration) then pair "type" <$> durationCheck spec v
      else if decide (sp_type spec = TypeEnum ∧ sp_allowed spec ≠ []) then
        if decide (v ∈ sp_allowed spec) then None else Some ("type", MsgNotAllowed v)
      else None
  end.

Definition scope_issues (spec : DirectiveSpec) (it : Item) (inListener : gset Z) : list conf_message :=
  if isBlockDirective (it_key it) then []
  else
    (if decide (sp_scope spec = CatScopeListener ∧ it_line it ∉ inListener) then [MsgOnlyListener] else [])
    ++ (if decide (sp_scope spec = CatScopeGlobal ∧ it_line it ∈ inListener ∧ sp_listener_since spec = "")
        then [MsgOnlyGlobal] else []).

Definition item_issues (cat : Catalog) (inListener : gset Z) (it : Item) : list ValidationIssue :=
  match it_kind it with
  | ItemBlockOpen =>
      match Lookup cat (it_key it) with
      | None => [mkIssue "unknown" (it_line it) (it_key it) MsgUnknownBlock]
      | Some _ => []
      end
  | ItemDirective =>
      match Lookup cat (it_key it) with
      | None => [mkIssue "unknown" (it_line it) (it_key it) MsgUnknown]
      | Some spec =>
          (mkIssue "scope" (it_line it) (it_key it) <$> scope_issues spec it inListener)
          ++ (match type_issue spec it with
              | Some (kind, msg) => [mkIssue kind (it_line it) (it_key it) msg]
              | None => []
              end)
      end
  | _ => []
  end.

(** [counts]: how often every known name occurs, by the lower-cased key. *)
Definition counted (cat : Catalog) (it : Item) : Prop :=
  (it_kind it = ItemBlockOpen ∨ it_kind it = ItemDirective) ∧ is_Some (Lookup cat (it_key it)).
#[export] Instance counted_dec cat it : Decision (counted cat it).
Proof. unfold counted. apply _. Defined.
Definition count_of (cat : Catalog) (f : File) (name : string) : nat :=
  length (filter (λ it, counted cat it ∧ to_lower (it_key it) = name) (f_items f)).

Definition multiplicity_issues (cat : Catalog) (f : File) : list ValidationIssue :=
  omap (λ spec,
    let count := count_of cat f (to_lower (sp_name spec)) in
    if decide (sp_multiplicity spec = Once ∧ 1 < count)
    then Some (mkIssue "multiplicity" 0 (sp_name spec) (MsgRepeated count)) else None) (Specs cat).

Definition ValidateConf (f : File) (cat : Catalog) : list ValidationIssue :=
  (f_items f ≫= item_issues cat (listenerContext f)) ++ multiplicity_issues cat f.

(** ** Specifications *)

(** What the parser keeps of a body: every line without the carriage returns at
    its end, each with a newline. *)
Definition unlines (ls : list string) : string := foldr (λ l acc, l +:+ nl +:+ acc) "" ls.
Definition normalise (body : string) : string :=
  unlines (scan_line <$> raw_lines body).

(** The bodies that are already normalised: each line is newline-terminated
    and ends in no carriage return. *)
Definition canonical (body : string) : Prop :=
  (body = "" ∨ has_suffix nl body = true) ∧ Forall (λ l, scan_line l = l) (raw_lines body).

(** A token: not empty, quotes balanced, and blanks only between quotes. *)
Fixpoint token_ok (inq : bool) (s : string) : bool :=
  match s with
  | EmptyString => negb inq
  | String c s' => if decide (c = quote_char) then token_ok (negb inq) s'
      else (inq || negb (is_blank c)) && token_ok inq s'
  end.
Definition good_token (s : string) : bool := negb (bool_decide (s = "")) && token_ok false s.

(** The block structure of a parsed file: one block at a time, each closed. *)
Definition block_step (inb : bool) (it : Item) : option bool :=
  match it_kind it with
  | ItemBlockOpen => if inb then None else Some true
  | ItemBlockClose => if inb then Some false else None
  | _ => Some inb
  end.
Fixpoint block_run (inb : bool) (items : list Item) : option bool :=
  match items with
  | [] => Some inb
  | it :: rest => b ← block_step inb it; block_run b rest
  end.
Definition structural (it : Item) : Prop := it_kind it = ItemBlockOpen ∨ it_kind it = ItemBlockClose.
#[export] Instance structural_dec it : Decision (structural it).
Proof. unfold structural. apply _. Defined.

(** A parsed line: one item, at its line number, that keeps the scanned text. *)
Definition item_of_line (n : nat) (line : string) (it : Item) : Prop :=
  it_text it = scan_line line +:+ nl ∧ it_line it = Z.of_nat n
  ∧ (it_kind it = ItemComment ∨ is_Some (head (tokenise (trim_space (scan_line line))))).

(** What the catalog asks of the values of a directive. *)
Definition in_bounds (spec : DirectiveSpec) (n : Z) : Prop :=
  (∀ lo, sp_min spec = Some lo → (lo ≤ n)%Z) ∧ (∀ hi, sp_max spec = Some hi → (n ≤ hi)%Z).
Definition value_ok (spec : DirectiveSpec) (values : list string) : Prop :=
  (values = [] → sp_type spec = TypeBoolean)
  ∧ (sp_type spec = TypeInteger → ∀ i v, values !! i = Some v → (sp_name spec = "listener" → i = 0) →
      ∃ n, atoi v = Some n ∧ in_bounds spec n)
  ∧ (sp_type spec = TypeDuration → ∀ v, head values = Some v →
      ∃ digits c n, v = digits +:+ chr_str c ∧ atoi digits = Some n ∧ (0 < n)%Z ∧ chr_str c ∈ sp_suffixes spec)
  ∧ (sp_type spec = TypeEnum → sp_allowed spec ≠ [] → ∀ v, head values = Some v → v ∈ sp_allowed spec).
Definition scope_ok (spec : DirectiveSpec) (it : Item) (inListener : gset Z) : Prop :=
  isBlockDirective (it_key it) = false →
  (sp_scope spec = CatScopeListener → it_line it ∈ inListener)
  ∧ (sp_scope spec = CatScopeGlobal → it_line it ∈ inListener → sp_listener_since spec ≠ "").

(** The lines that decide whether a listener is open: headers, with or without
    a brace, and closing braces. *)
Definition header (it : Item) : Prop :=
  structural it ∨ (it_kind it = ItemDirective ∧ isBlockDirective (it_key it) = true).
#[export] Instance header_dec it : Decision (header it).
Proof. unfold header. apply _. Defined.
Definition opened (items : list Item) : bool :=
  match last (filter header items) with
  | Some h => negb (bool_decide (it_kind h = ItemBlockClose))
  | None => false
  end.

(** ** Lemmas: trimming at the byte level *)
Lemma trim_right_bytes_suffix cut a b :
  all_bytes cut b = true → trim_right_bytes cut (a +:+ b) = trim_right_bytes cut a.
Proof.
  intros Hb. induction a as [|c a IH].
  - change ("" +:+ b) with b. destruct b; cbn [trim_right_bytes]; [done|]. by rewrite Hb.
  - rewrite app_cons_string. cbn [trim_right_bytes].
    change (String c (a +:+ b)) with (String c a +:+ b). rewrite all_bytes_app, Hb, andb_true_r.
    case_match; [done|]. by rewrite IH.
Qed.

Lemma trim_right_bytes_id cut s :
  (∀ c, cut c = true → free_of c s = true) → trim_right_bytes cut s = s.
Proof.
  induction s as [|c s IH]; intros H; [done|]. cbn [trim_right_bytes].
  destruct (cut c) eqn:Ec.
  - specialize (H c Ec). unfold free_of in H. simpl in H. by bool_hyps.
  - simpl. rewrite Ec. simpl. f_equal. apply IH. intros c' Hc'. specialize (H c' Hc').
    unfold free_of in *. simpl in H. by bool_hyps.
Qed.

Lemma all_bytes_trim_right cut s : all_bytes cut (trim_right_bytes cut s) = true → all_bytes cut s = true.
Proof.
  induction s as [|c s IH]; [done|]. cbn [trim_right_bytes].
  destruct (all_bytes cut (String c s)) eqn:E; [done|]. simpl in *. intros H.
  apply andb_true_iff in H as [Hc Hs]. by rewrite Hc, (IH Hs) in E.
Qed.

Lemma trim_right_bytes_idem cut s : trim_right_bytes cut (trim_right_bytes cut s) = trim_right_bytes cut s.
Proof.
  induction s as [|c s IH]; [done|]. cbn [trim_right_bytes].
  destruct (all_bytes cut (String c s)) eqn:E; [done|]. cbn [trim_right_bytes]. rewrite IH.
  destruct (all_bytes cut (String c (trim_right_bytes cut s))) eqn:E'; [|done]. exfalso.
  simpl in E, E'. apply andb_true_iff in E' as [Ec Es]. rewrite Ec in E. simpl in E.
  apply all_bytes_trim_right in Es. congruence.
Qed.

Lemma free_of_trim_right c cut s : free_of c s = true → free_of c (trim_right_bytes cut s) = true.
Proof.
  unfold free_of. induction s as [|d s IH]; [done|]. cbn [trim_right_bytes]. intros H.
  case_match; [done|]. simpl in *. bool_hyps. rewrite bool_decide_true by done. by apply IH.
Qed.

Lemma trim_suffix_chr c s : trim_suffix (chr_str c) s = s ∨ s = trim_suffix (chr_str c) s +:+ chr_str c.
Proof.
  induction s as [|d s IH]; cbn [trim_suffix]; case_decide as E; [done|by left|right; by rewrite E|].
  destruct IH as [->|IH]; [by left|]. right. rewrite app_cons_string. by rewrite <-IH.
Qed.

Lemma scan_line_trim l : scan_line l = trim_right_bytes is_cr l.
Proof.
  unfold scan_line, drop_cr. destruct (trim_suffix_chr cr_char l) as [->|E]; [done|].
  rewrite E at 2. by rewrite trim_right_bytes_suffix.
Qed.

Lemma scan_line_idem l : scan_line (scan_line l) = scan_line l.
Proof. rewrite !scan_line_trim. apply trim_right_bytes_idem. Qed.

Lemma scan_line_free l : free_of nl_char l = true → free_of nl_char (scan_line l) = true.
Proof. intros. rewrite scan_line_trim. by apply free_of_trim_right. Qed.

Lemma trim_nl_text raw : free_of nl_char raw = true → trim_right_bytes is_nl (raw +:+ nl) = raw.
Proof.
  intros H. rewrite trim_right_bytes_suffix by done. apply trim_right_bytes_id.
  intros c Hc. unfold is_nl in Hc. by bool_hyps; subst.
Qed.

(** ** Lemmas: the lines of a body *)
Lemma raw_lines_free body : Forall (λ l, free_of nl_char l = true) (raw_lines body).
Proof.
  unfold raw_lines. case_decide; [apply Forall_take|]; apply split_all_free.
Qed.

Lemma split_unlines ls :
  Forall (λ l, free_of nl_char l = true) ls → split nl_char (unlines ls) = ls ++ [""].
Proof.
  induction 1 as [|l ls Hl Hls IH]; [done|]. simpl.
  change (l +:+ nl +:+ unlines ls) with (l +:+ String nl_char (unlines ls)). by rewrite split_app, IH.
Qed.

Lemma raw_lines_unlines ls :
  Forall (λ l, free_of nl_char l = true) ls → raw_lines (unlines ls) = ls.
Proof.
  intros H. unfold raw_lines. rewrite split_unlines, last_snoc, decide_True by done.
  rewrite length_app. simpl. replace (length ls + 1 - 1) with (length ls) by lia. by rewrite take_app_length.
Qed.

Lemma unlines_join ls : ls ≠ [] → unlines ls = join nl ls +:+ nl.
Proof.
  induction ls as [|l ls IH]; [done|]. intros _. destruct ls as [|l' ls]; [done|].
  rewrite join_cons by done. unfold unlines in *. cbn [foldr] in *. rewrite IH by done.
  by rewrite !app_assoc_string.
Qed.

Lemma unlines_raw_lines body : body = "" ∨ has_suffix nl body = true → unlines (raw_lines body) = body.
Proof.
  intros [->|H]; [done|]. assert (∃ a, body = a +:+ nl) as [a ->].
  { clear -H. induction body as [|c s IH]; simpl in H; [done|].
    apply orb_true_iff in H as [H|H]; bool_hyps; [by exists ""|].
    destruct (IH H) as [a ->]. by exists (String c a). }
  unfold raw_lines. assert (split nl_char (a +:+ nl) = split nl_char a ++ [""]) as ->.
  { unfold nl. rewrite <-(join_split nl_char a) at 1.
    pose proof (split_all_free nl_char a) as Hf. pose proof (split_not_nil nl_char a) as Hn.
    change (String nl_char "") with (chr_str nl_char +:+ "").
    rewrite <-split_unlines by done. rewrite unlines_join by done. done. }
  rewrite last_snoc, decide_True by done. rewrite length_app. simpl.
  replace (length (split nl_char a) + 1 - 1) with (length (split nl_char a)) by lia.
  rewrite take_app_length, unlines_join by apply split_not_nil.
  change nl with (chr_str nl_char) at 1. by rewrite join_split.
Qed.

Lemma scanned_free body : Forall (λ l, free_of nl_char l = true) (scan_line <$> raw_lines body).
Proof. apply Forall_fmap. eapply Forall_impl; [apply raw_lines_free|]. intros l. apply scan_line_free. Qed.

Lemma raw_lines_normalise body : raw_lines (normalise body) = scan_line <$> raw_lines body.
Proof. unfold normalise. apply raw_lines_unlines, scanned_free. Qed.

(** ** Lemmas: one parsing step *)

Lemma fields_go_all_space sp k s :
  forallb is_space (runes_go k s) = true → k ≤ String.length s →
  (fields_go sp k s).2 = [] ∧ (sp = true ∨ k = 0 → (fields_go sp k s).1 = "").
Proof.
  revert sp k. induction s as [|c s IH]; intros sp k Hs Hk; [done|]. cbn [fields_go]. cbv zeta.
  destruct k as [|k]; cbn [runes_go forallb] in Hs.
  - apply andb_true_iff in Hs as [Hr Hs]. rewrite Hr. simpl.
    destruct (IH true _ Hs (decode_rune_width c s)) as [H2 H1].
    unfold push_field. rewrite H2, H1 by auto. done.
  - simpl in Hk. destruct (IH sp k Hs) as [H2 H1]; [lia|]. destruct sp; [by rewrite H1, H2; auto|].
    simpl. split; [done|]. intros [|]; done.
Qed.

Lemma fields_nonblank s : trim_space s ≠ "" → fields s ≠ [].
Proof.
  intros Ht Hf. apply Ht. unfold trim_space.
  assert (trim_left_space s = "") as ->; [|done].
  unfold fields in Hf. unfold trim_left_space. revert Hf.
  assert (∀ sp k s, push_field (fields_go sp k s) = [] → (sp = true ∨ k = 0) → trim_left_go k s = "") as H; [|intros Hf; apply (H false 0 s Hf); auto].
  clear. intros sp k s. revert sp k. induction s as [|c s IH]; intros sp k Hf Hsp; [done|].
  cbn [fields_go trim_left_go] in *. cbv zeta in *. destruct k as [|k].
  - destruct (is_space (decode_rune (String c s)).1); [|done]. unfold push_field in Hf at 1. simpl in Hf.
    apply (IH true); auto.
  - destruct sp; [apply (IH true); auto|]. by destruct Hsp.
Qed.

Lemma trim_left_go_head k s c s' : trim_left_go k s = String c s' → is_space (decode_rune (String c s')).1 = false.
Proof.
  revert k. induction s as [|d s IH]; intros k H; [done|]. cbn [trim_left_go] in H. destruct k as [|k]; [|by eapply IH].
  destruct (is_space (decode_rune (String d s)).1) eqn:E; [by eapply IH|]. by injection H as -> ->.
Qed.

Lemma trim_space_head s c s' : trim_space s = String c s' → is_blank c = false.
Proof.
  unfold trim_space. intros H. destruct (trim_left_space s) as [|d t] eqn:E; [done|].
  assert (d = c) as ->.
  { cbn [trim_right_space] in H. destruct (all_space (String d t)); [done|]. by injection H. }
  apply trim_left_go_head in E. destruct (is_blank c) eqn:Hb; [|done]. unfold is_blank in Hb.
  apply orb_true_iff in Hb as [Hb|Hb]; bool_hyps; subst; rewrite decode_rune_ascii in E by done; done.
Qed.

Lemma tokenise_nonempty_go l st :
  t_out st ≠ [] ∨ t_cur st ≠ "" → t_out (flush (foldl token_step st l)) ≠ [].
Proof.
  assert (∀ st, t_out st ≠ [] ∨ t_cur st ≠ "" → t_out (flush st) ≠ []) as Hf.
  { intros st' H. unfold flush. case_decide; [tauto|]. simpl. by destruct (t_out st'). }
  revert st. induction l as [|c l IH]; intros st H; simpl; [by apply Hf|].
  apply IH. unfold token_step. case_decide; [|destruct (is_blank c && negb (t_quote st))].
  - right. simpl. by destruct (t_cur st).
  - left. by apply Hf.
  - right. simpl. by destruct (t_cur st).
Qed.

Lemma tokenise_nonempty s : trim_space s ≠ "" → tokenise (trim_space s) ≠ [].
Proof.
  intros Hs. destruct (trim_space s) as [|c t] eqn:E; [done|]. apply trim_space_head in E.
  unfold tokenise. simpl. apply tokenise_nonempty_go. right. unfold token_step. rewrite E. simpl.
  by case_decide.
Qed.

(** ** Lemmas: one parsing step *)
Lemma parseDirectiveLine_ok raw n indent b :
  trim_space raw ≠ "" → has_prefix "#" (trim_space raw) = false →
  ∃ key rest, tokenise (trim_space raw) = key :: rest
    ∧ parseDirectiveLine raw n indent b = (mkItem ItemDirective (to_lower key) rest (raw +:+ nl) n indent, true).
Proof.
  intros Hne Hc. unfold parseDirectiveLine. cbv zeta. rewrite decide_False, Hc by done.
  destruct (tokenise (trim_space raw)) as [|key rest] eqn:E; [by destruct (tokenise_nonempty raw Hne)|].
  by exists key, rest.
Qed.

Lemma parse_step_spec s line :
  ∃ it, p_items (parse_step s line) = p_items s ++ [it]
    ∧ it_text it = scan_line line +:+ nl ∧ it_line it = (p_line s + 1)%Z
    ∧ p_line (parse_step s line) = (p_line s + 1)%Z
    ∧ (it_kind it = ItemComment ∨ is_Some (head (tokenise (trim_space (scan_line line)))))
    ∧ block_step (p_in_block s) it = Some (p_in_block (parse_step s line))
    ∧ p_depth (parse_step s line) =
        (p_depth s + Z.b2z (p_in_block (parse_step s line)) - Z.b2z (p_in_block s))%Z.
Proof.
  unfold parse_step. cbv zeta. set (raw := scan_line line).
  destruct (decide (trim_space raw = "")) as [E|Hne].
  { eexists. repeat split; simpl; try done; [by left|lia]. }
  destruct (has_prefix "#" (trim_space raw)) eqn:Hc.
  { eexists. repeat split; simpl; try done; [by left|lia]. }
  set (indent := String.length raw - _).
  assert (∀ b, ∃ key rest, tokenise (trim_space raw) = key :: rest
    ∧ parseDirectiveLine raw (p_line s + 1) indent b =
      (mkItem ItemDirective (to_lower key) rest (raw +:+ nl) (p_line s + 1) indent, true)) as Hp
    by (intros; by apply parseDirectiveLine_ok).
  destruct (Hp (p_in_block s)) as (key & rest & Ht & ->).
  destruct (Hp false) as (key' & rest' & _ & ->).
  assert (fields raw ≠ []) as Hf by by apply fields_nonblank.
  destruct (p_in_block s) eqn:Eb; [destruct (isCloseBrace _)|destruct (fields raw) as [|d ds]; [done|destruct (_ && _)]];
    eexists; repeat split; simpl; rewrite ?Eb, ?Ht; simpl; try done; try lia; right; done.
Qed.

Lemma parse_lines_spec lines s :
  let s' := foldl parse_step s lines in
  ∃ items, p_items s' = p_items s ++ items
    ∧ (∀ n0, p_line s = Z.of_nat n0 → ∀ i line, lines !! i = Some line →
        ∃ it, items !! i = Some it ∧ item_of_line (n0 + i + 1) line it)
    ∧ length items = length lines
    ∧ block_run (p_in_block s) items = Some (p_in_block s')
    ∧ p_depth s' = (p_depth s + Z.b2z (p_in_block s') - Z.b2z (p_in_block s))%Z.
Proof.
  revert s. induction lines as [|line lines IH]; intros s; cbv zeta; simpl.
  - exists []. rewrite app_nil_r. repeat split; [done|lia].
  - destruct (parse_step_spec s line) as (it & Hit & Htx & Hln & Hl & Hk & Hb & Hd).
    destruct (IH (parse_step s line)) as (items & Hits & Hlines & Hlen & Hr & Hdd).
    exists (it :: items). rewrite Hits, Hit, <-app_assoc. simpl. rewrite Hb, Hlen. simpl.
    repeat split; [|done|lia]. intros n0 Hn [|i] line' Hline; simpl in *.
    + injection Hline as <-. exists it. split; [done|]. repeat split; [done| |done]. rewrite Hln. lia.
    + destruct (Hlines (S n0)) with (i := i) (line := line') as (it' & ? & Ho); [lia|done|].
      exists it'. split; [done|]. replace (n0 + S i + 1) with (S n0 + i + 1) by lia. done.
Qed.

Lemma parse_step_scan s line : parse_step s (scan_line line) = parse_step s line.
Proof. unfold parse_step. by rewrite scan_line_idem. Qed.

Lemma length_scan_line l : String.length (scan_line l) ≤ String.length l.
Proof.
  rewrite scan_line_trim. induction l as [|c l IH]; [done|]. cbn [trim_right_bytes].
  case_match; simpl; lia.
Qed.

(** ** Lemmas: parsing a whole body *)
Lemma Parse_inv body path f :
  Parse body path = Ok f →
  f_path f = path
  ∧ (∀ i line, raw_lines body !! i = Some line → ∃ it, f_items f !! i = Some it ∧ item_of_line (i + 1) line it)
  ∧ length (f_items f) = length (raw_lines body)
  ∧ block_run false (f_items f) = Some false.
Proof.
  unfold Parse. cbv zeta. destruct (existsb _ _); [done|].
  destruct (parse_lines_spec (raw_lines body) (mkParse [] 0 false 0)) as (items & Hi & Hl & Hn & Hr & Hd).
  cbn [p_items p_depth p_in_block p_line] in *. simpl in Hi, Hd.
  destruct (p_depth _ =? 0)%Z eqn:E; [|done]. intros H. injection H as <-. simpl. rewrite Hi.
  apply Z.eqb_eq in E. destruct (p_in_block _); [simpl in Hd; lia|].
  repeat split; [|done..]. intros i line Hline. by apply (Hl 0).
Qed.

Lemma render_item_of_line n line it :
  free_of nl_char line = true → item_of_line n line it → render_item it = Ok (scan_line line +:+ nl).
Proof.
  intros Hf (Ht & _ & _). unfold render_item, renderDirectiveLine. rewrite Ht.
  assert (scan_line line +:+ nl ≠ "") by (by destruct (scan_line line)).
  rewrite (bool_decide_false _ H), trim_nl_text by by apply scan_line_free.
  destruct (it_kind it); [done..|]. by rewrite (decide_False _ _ H).
Qed.

Lemma render_items_lines items lines :
  Forall2 (λ it l, render_item it = Ok (l +:+ nl)) items lines → render_items items = Ok (unlines lines).
Proof.
  induction 1 as [|it l items lines H _ IH]; [done|]. simpl. rewrite H, IH. simpl.
  by rewrite app_assoc_string.
Qed.

Lemma Parse_items_lines body path f :
  Parse body path = Ok f →
  Forall2 (λ it l, render_item it = Ok (l +:+ nl)) (f_items f) (scan_line <$> raw_lines body).
Proof.
  intros (_ & Hl & Hn & _)%Parse_inv. apply Forall2_same_length_lookup_2; [by rewrite length_fmap|].
  intros i it l Hit Hline. rewrite list_lookup_fmap in Hline.
  destruct (raw_lines body !! i) as [line|] eqn:E; [|done]. injection Hline as <-.
  destruct (Hl _ _ E) as (it' & Hit' & Ho). assert (it' = it) as -> by congruence.
  eapply render_item_of_line; [|exact Ho].
  exact (Forall_lookup_1 _ _ _ _ (raw_lines_free body) E).
Qed.

Lemma Parse_normalise body path f : Parse body path = Ok f → Parse (normalise body) path = Ok f.
Proof.
  unfold Parse. cbv zeta. rewrite raw_lines_normalise. destruct (existsb _ _) eqn:E; [done|].
  assert (existsb line_too_long (scan_line <$> raw_lines body) = false) as ->.
  { clear -E. induction (raw_lines body) as [|l ls IH]; [done|]. rewrite fmap_cons. cbn [existsb] in *.
    apply orb_false_iff in E as [E Es]. rewrite IH by done.
    rewrite orb_false_r. unfold line_too_long in *. rewrite Z.leb_gt in *. pose proof (length_scan_line l). lia. }
  assert (∀ ls s, foldl parse_step s (scan_line <$> ls) = foldl parse_step s ls) as ->; [|done].
  clear. induction ls as [|l ls IH]; intros s; [done|]. simpl. by rewrite parse_step_scan.
Qed.

Lemma normalise_id body : normalise body = body ↔ canonical body.
Proof.
  unfold canonical. split.
  - intros H. split.
    + unfold normalise in H. destruct (raw_lines body) as [|l ls]; [by left|right]. rewrite <-H.
      rewrite unlines_join by done. clear. induction (join _ _) as [|c s IH]; [done|]. simpl.
      unfold has_suffix in *. by rewrite IH, orb_true_r.
    + rewrite <-H at 1. rewrite raw_lines_normalise. apply Forall_fmap, Forall_true. intros l. apply scan_line_idem.
  - intros [Hn Hl]. unfold normalise. replace (scan_line <$> raw_lines body) with (raw_lines body).
    + by apply unlines_raw_lines.
    + induction Hl as [|l ls Hl Hls IH]; [done|]. cbn. by rewrite Hl, <-IH.
Qed.

(** ** Lemmas: tokens and edited directives *)
Lemma list_ascii_app a b :
  String.list_ascii_of_string (a +:+ b) = String.list_ascii_of_string a ++ String.list_ascii_of_string b.
Proof. induction a as [|c a IH]; [done|]. rewrite app_cons_string. simpl. by rewrite IH. Qed.

Lemma token_run q s out cur :
  token_ok q s = true →
  foldl token_step (mkTok out cur q) (String.list_ascii_of_string s) = mkTok out (cur +:+ s) false.
Proof.
  revert q cur. induction s as [|c s IH]; intros q cur H.
  - simpl in *. bool_hyps. subst. by rewrite app_nil_r_string.
  - simpl in H. change (String.list_ascii_of_string (String c s)) with (c :: String.list_ascii_of_string s).
    cbn [foldl]. unfold token_step at 2. cbn [t_out t_cur t_quote].
    replace (cur +:+ String c s) with ((cur +:+ chr_str c) +:+ s) by by rewrite <-app_assoc_string.
    destruct (decide (c = quote_char)); [by apply IH|]. apply andb_true_iff in H as [Hq H].
    replace (is_blank c && negb q) with false; [by apply IH|]. destruct q, (is_blank c); done.
Qed.

Lemma tokenise_go toks out :
  Forall (λ t, good_token t = true) toks →
  t_out (flush (foldl token_step (mkTok out "" false) (String.list_ascii_of_string (join " " toks)))) = out ++ toks.
Proof.
  intros H. revert out. induction H as [|t toks Ht Htoks IH]; intros out.
  - simpl. by rewrite app_nil_r.
  - unfold good_token in Ht. bool_hyps. destruct toks as [|t' toks].
    + change (join " " [t]) with t. rewrite token_run by done. unfold flush. simpl. by rewrite decide_False.
    + rewrite join_cons by done. change (t +:+ " " +:+ ?x) with (t +:+ String space_char x).
      rewrite list_ascii_app, foldl_app, token_run by done.
      change (String.list_ascii_of_string (String space_char ?x)) with (space_char :: String.list_ascii_of_string x).
      cbn [foldl]. unfold token_step at 2. simpl. unfold flush at 2. simpl. rewrite decide_False by done.
      rewrite IH. by rewrite <-app_assoc.
Qed.

Lemma tokenise_join toks : Forall (λ t, good_token t = true) toks → tokenise (join " " toks) = toks.
Proof. intros H. unfold tokenise. by rewrite tokenise_go. Qed.

Lemma with_values_join key values : with_values key values = join " " (key :: values).
Proof.
  unfold with_values. revert key. induction values as [|v vs IH]; intros key; [done|].
  cbn [foldl]. rewrite IH. rewrite (join_cons " " key) by done. destruct vs; cbn [join]; by rewrite <-?app_assoc_string.
Qed.

Lemma with_values_app a key values : with_values (a +:+ key) values = a +:+ with_values key values.
Proof.
  unfold with_values. revert key. induction values as [|v vs IH]; intros key; [done|].
  cbn [foldl]. by rewrite <-IH, app_assoc_string, <-!app_assoc_string.
Qed.

Lemma trim_left_spaces n s : trim_left_space (spaces n +:+ s) = trim_left_space s.
Proof. induction n as [|n IH]; [done|]. exact IH. Qed.

Lemma fields_spaces n s : fields (spaces n +:+ s) = fields s.
Proof.
  induction n as [|n IH]; [done|]. change (spaces (S n) +:+ s) with (String space_char (spaces n +:+ s)).
  unfold fields at 1. by rewrite fields_go_ascii_space.
Qed.

Lemma trim_left_blanks_spaces n s : trim_left_bytes is_blank (spaces n +:+ s) = trim_left_bytes is_blank s.
Proof. induction n as [|n IH]; [done|]. exact IH. Qed.

Lemma trim_left_blanks_id s : trim_space s = s → trim_left_bytes is_blank s = s.
Proof.
  intros H. destruct s as [|c s']; [done|]. apply trim_space_head in H. cbn [trim_left_bytes]. by rewrite H.
Qed.

Lemma length_spaces n : String.length (spaces n) = n.
Proof. induction n as [|n IH]; [done|]. exact (f_equal S IH). Qed.

Lemma fields_join_head key values :
  key ≠ "" → no_space key = true → head (fields (join " " (key :: values))) = Some key.
Proof.
  intros Hk Hn. destruct values as [|v vs]; [by rewrite fields_word|].
  rewrite join_cons by done. change (key +:+ " " +:+ ?x) with (key +:+ String space_char x).
  by rewrite fields_cons.
Qed.

Lemma scan_line_free_cr l : free_of cr_char l = true → scan_line l = l.
Proof.
  intros H. rewrite scan_line_trim. apply trim_right_bytes_id. intros c Hc. unfold is_cr in Hc. by bool_hyps; subst.
Qed.

Lemma free_of_app c a b : free_of c (a +:+ b) = free_of c a && free_of c b.
Proof. apply all_bytes_app. Qed.

Lemma free_of_spaces c n : c ≠ space_char → free_of c (spaces n) = true.
Proof.
  intros Hc. unfold free_of. induction n as [|n IH]; [done|].
  change (all_bytes (λ x, bool_decide (x ≠ c)) (spaces (S n))) with
    (bool_decide (space_char ≠ c) && all_bytes (λ x, bool_decide (x ≠ c)) (spaces n)).
  by rewrite IH, bool_decide_true.
Qed.

(** ** Lemmas: blocks *)
Lemma matching_close_body body close rest d pos :
  Forall (λ it, ¬ structural it) body → it_kind close = ItemBlockClose → d = 1%Z →
  matching_close (body ++ close :: rest) d pos = Some (pos + length body).
Proof.
  intros Hb Hc ->. revert pos. induction Hb as [|it body Hit Hb IH]; intros pos; simpl.
  - rewrite Hc. simpl. f_equal. lia.
  - unfold structural in Hit. destruct (it_kind it); try (by destruct Hit; auto); rewrite IH; f_equal; lia.
Qed.

(** From inside a block the items go on to the line that closes it. *)
Lemma block_run_close items :
  block_run true items = Some false →
  ∃ body close rest, items = body ++ close :: rest ∧ Forall (λ it, ¬ structural it) body
    ∧ it_kind close = ItemBlockClose ∧ block_run false rest = Some false.
Proof.
  induction items as [|it items IH]; intros H; [done|]. simpl in H. unfold block_step in H.
  destruct (it_kind it) eqn:E; simpl in H; try done.
  1,2: destruct (IH H) as (body & close & rest & -> & Hb & Hc & Hr); exists (it :: body), close, rest;
    repeat split; try done; constructor; [|done]; unfold structural; by rewrite E; intros [|].
  exists [], it, items. by repeat split.
Qed.

Lemma block_at_spec pre it post :
  it_kind it = ItemBlockOpen → block_run true post = Some false →
  ∃ body close rest, post = body ++ close :: rest ∧ Forall (λ it, ¬ structural it) body
    ∧ it_kind close = ItemBlockClose
    ∧ block_at (pre ++ it :: post) (length pre) it = Some (mkBlock it body close).
Proof.
  intros Hk (body & close & rest & -> & Hb & Hc & _)%block_run_close.
  exists body, close, rest. repeat split; [done..|]. unfold block_at, matchingBlockClose.
  rewrite decide_True by done. rewrite drop_app_length. cbn [matching_close]. rewrite Hk.
  rewrite (matching_close_body body close rest) by done.
  assert (length pre + 1 = length (pre ++ [it])) as Hlen by (rewrite length_app; simpl; lia).
  replace (S (length pre) + length body) with (length (pre ++ [it]) + length body) by lia.
  rewrite Hlen. replace (pre ++ it :: body ++ close :: rest) with ((pre ++ [it]) ++ body ++ close :: rest)
    by by rewrite <-app_assoc.
  rewrite (lookup_app_r (pre ++ [it])) by lia. rewrite drop_app_length.
  replace (_ + length body - length (pre ++ [it])) with (length body) by lia.
  rewrite lookup_app_r by lia. rewrite Nat.sub_diag. simpl. by rewrite take_app_length.
Qed.

Lemma ListenerBlocks_go pre post inb :
  block_run inb post = Some false →
  let bs := omap (λ '(i, it), block_at (pre ++ post) i it) (imap (λ j it, (length pre + j, it)) post) in
  b_header <$> bs = filter (λ it, it_kind it = ItemBlockOpen) post
  ∧ ∀ b, b ∈ bs → ∃ a rest, pre ++ post = a ++ b_header b :: b_body b ++ b_close b :: rest
      ∧ it_kind (b_header b) = ItemBlockOpen ∧ it_kind (b_close b) = ItemBlockClose
      ∧ Forall (λ it, ¬ structural it) (b_body b).
Proof.
  revert pre inb. induction post as [|it post IH]; intros pre inb H; cbv zeta.
  { split; [done|]. intros b Hb. by apply elem_of_nil in Hb. }
  simpl in H. destruct (block_step inb it) as [b'|] eqn:Eb; [|done]. simpl in H.
  destruct (IH (pre ++ [it]) b' H) as [Hh Hbs]. clear IH. rewrite <-app_assoc in Hh, Hbs. simpl in Hh, Hbs.
  rewrite imap_cons. replace (length pre + 0) with (length pre) by lia.
  rewrite (imap_ext _ (λ j it0, (length (pre ++ [it]) + j, it0))) by
    (intros; simpl; f_equal; rewrite length_app; simpl; lia).
  unfold block_step in Eb. destruct (decide (it_kind it = ItemBlockOpen)) as [Ek|Ek].
  - rewrite Ek in Eb. destruct inb; [done|]. injection Eb as <-.
    destruct (block_at_spec pre it post Ek H) as (body & close & rest & Hp & Hb & Hc & Hat).
    cbn [omap list_omap]. rewrite Hat, filter_cons_True by done. rewrite fmap_cons. split; [by f_equal|].
    intros b [->|Hin]%elem_of_cons; [|by apply Hbs]. exists pre, rest. by rewrite Hp.
  - cbn [omap list_omap]. assert (block_at (pre ++ it :: post) (length pre) it = None) as ->.
    { unfold block_at. by rewrite decide_False. }
    by rewrite filter_cons_False.
Qed.

Lemma opened_snoc items it :
  opened (items ++ [it]) = if decide (header it) then negb (bool_decide (it_kind it = ItemBlockClose)) else opened items.
Proof.
  unfold opened. rewrite filter_app. destruct (decide (header it)) as [H|H].
  - rewrite (filter_cons_True _ _ _ H), filter_nil, last_snoc. done.
  - by rewrite (filter_cons_False _ _ _ H), filter_nil, app_nil_r.
Qed.

Lemma block_run_snoc inb items it :
  block_run inb (items ++ [it]) = b ← block_run inb items; block_step b it.
Proof.
  revert inb. induction items as [|x items IH]; intros inb; simpl.
  - by destruct (block_step inb it).
  - destruct (block_step inb x); simpl; [apply IH|done].
Qed.

Definition plain_directive (it : Item) : Prop := it_kind it = ItemDirective ∧ isBlockDirective (it_key it) = false.

(** The lines of plain directives that follow a header no brace has closed. *)
Definition context_line (items : list Item) (n : Z) : Prop :=
  ∃ i it, items !! i = Some it ∧ plain_directive it ∧ it_line it = n ∧ opened (take i items) = true.

Lemma context_lines_snoc items it n :
  context_line (items ++ [it]) n
  ↔ context_line items n ∨ (plain_directive it ∧ it_line it = n ∧ opened items = true).
Proof.
  split.
  - intros (i & it' & Hi & Hp & Hn & Ho). apply lookup_app_Some in Hi as [Hi|[Hge Hi]].
    + left. exists i, it'. repeat split; try done; try apply Hp.
      rewrite take_app_le in Ho by (apply lookup_lt_Some in Hi; lia). done.
    + apply list_lookup_singleton_Some in Hi as [Hi <-]. right.
      rewrite take_app_le, take_ge in Ho by lia. by split.
  - intros [(i & it' & Hi & Hp & Hn & Ho)|(Hp & Hn & Ho)].
    + exists i, it'. repeat split; try done; try apply Hp; [by apply lookup_app_l_Some|].
      rewrite take_app_le by (apply lookup_lt_Some in Hi; lia). done.
    + exists (length items), it. rewrite take_app_length. repeat split; try done; try apply Hp.
      by rewrite lookup_app_r, Nat.sub_diag by lia.
Qed.

Lemma listenerContext_go items inb :
  block_run false items = Some inb →
  let s := foldl ctx_step (mkCtx 0 false ∅) items in
  x_depth s = Z.b2z inb ∧ x_in s = opened items
  ∧ ∀ n, n ∈ x_lines s ↔ context_line items n.
Proof.
  revert inb. induction items as [|it items IH] using rev_ind; intros inb H; cbv zeta.
  { injection H as <-. repeat split; [set_solver|]. intros (i & it & Hi & _). by destruct i. }
  rewrite block_run_snoc in H. destruct (block_run false items) as [b|]; [|done]. simpl in H.
  destruct (IH b eq_refl) as (Hd & Hin & Hl). clear IH. rewrite foldl_app, opened_snoc. simpl.
  set (s := foldl ctx_step (mkCtx 0 false ∅) items) in *.
  setoid_rewrite context_lines_snoc. setoid_rewrite <-Hl. clear Hl. unfold block_step in H. unfold ctx_step.
  destruct (it_kind it) eqn:Ek.
  all: unfold plain_directive; try (rewrite Ek).
  - rewrite decide_False by (unfold header, structural; rewrite Ek; naive_solver).
    injection H as <-. repeat split; try done; naive_solver.
  - injection H as <-. destruct (isBlockDirective (it_key it)) eqn:Eb.
    + rewrite decide_True by (right; done). repeat split; try done; simpl; naive_solver.
    + rewrite decide_False by (unfold header, structural; rewrite Ek, Eb; naive_solver). rewrite Hin.
      destruct (opened items); simpl; repeat split; try done; set_solver.
  - destruct b; [done|]. injection H as <-. rewrite decide_True by (left; by left).
    simpl. rewrite Hd. repeat split; naive_solver.
  - destruct b; [|done]. injection H as <-. rewrite decide_True by (left; by right). rewrite Hd. simpl.
    repeat split; naive_solver.
Qed.

(** ** Lemmas: validation *)
Lemma rangeCheck_none spec n : rangeCheck spec n = None ↔ in_bounds spec n.
Proof.
  unfold rangeCheck, in_bounds. split.
  - destruct (sp_min spec) as [lo|], (sp_max spec) as [hi|];
      try (destruct (Z.ltb_spec n lo); [done|]); try (destruct (Z.ltb_spec hi n); [done|]);
      intros _; split; intros ? [=]; subst; done.
  - intros [Hlo Hhi]. destruct (sp_min spec) as [lo|], (sp_max spec) as [hi|];
      rewrite ?(proj2 (Z.ltb_ge n lo)), ?(proj2 (Z.ltb_ge hi n)) by auto; done.
Qed.

Lemma integer_check_none spec b values :
  integer_check spec b values = None ↔
  ∀ i v, values !! i = Some v → (sp_name spec = "listener" → b = true ∧ i = 0) →
    ∃ n, atoi v = Some n ∧ in_bounds spec n.
Proof.
  revert b. induction values as [|v values IH]; intros b; [by split|]. cbn [integer_check].
  assert (∀ b', (∀ i w, (v :: values) !! S i = Some w → (sp_name spec = "listener" → b' = true ∧ S i = 0) →
      ∃ n, atoi w = Some n ∧ in_bounds spec n) ↔ integer_check spec false values = None) as Htail.
  { intros b'. rewrite IH. split; intros H i w Hw Hn; apply (H i w Hw); intros Hl; by destruct (Hn Hl). }
  assert ((∀ i w, (v :: values) !! i = Some w → (sp_name spec = "listener" → b = true ∧ i = 0) →
      ∃ n, atoi w = Some n ∧ in_bounds spec n) ↔
    ((sp_name spec = "listener" → b = true) → ∃ n, atoi v = Some n ∧ in_bounds spec n)
    ∧ integer_check spec false values = None) as ->.
  { rewrite <-(Htail b). split.
    - intros H. split; [intros Hb; apply (H 0 v eq_refl); intros; by split; [apply Hb|]|intros i w Hw Hn; by apply (H (S i))].
    - intros [H0 H] [|i] w Hw Hn; [injection Hw as <-; apply H0; intros Hl; by destruct (Hn Hl)|by apply (H i)]. }
  clear Htail IH. destruct (decide (sp_name spec = "listener")) as [Hl|Hl], b; simpl;
    rewrite ?bool_decide_true, ?bool_decide_false by done; simpl;
    try (destruct (atoi v) as [n|]; [destruct (rangeCheck spec n) eqn:Er|]).
  all: split; [intros H|intros [H1 H2]]; try done.
  all: try (split; [|done]; intros _; exists n; split; [done|]; by apply rangeCheck_none).
  all: try (destruct H1 as (n' & Hn' & Hb); [by auto|]; try done; simplify_eq;
    apply rangeCheck_none in Hb; by rewrite Hb in Er).
  all: split; [|done]; intros Hc; by specialize (Hc Hl).
Qed.

Lemma substring_last v :
  v ≠ "" → ∃ d c, v = d +:+ chr_str c ∧ String.substring 0 (String.length v - 1) v = d
    ∧ String.substring (String.length v - 1) 1 v = chr_str c.
Proof.
  induction v as [|a v IH]; [done|]. intros _. destruct v as [|b v]; [by exists "", a|].
  destruct IH as (d & c & Hv & H0 & H1); [done|]. exists (String a d), c. rewrite Hv in H0, H1 |- *.
  rewrite app_cons_string. repeat split.
  - cbn [String.length]. rewrite length_app_string in *. cbn [String.length chr_str] in *.
    replace (S (String.length d + 1) - 1) with (S (String.length d)) by lia.
    replace (String.length d + 1 - 1) with (String.length d) in H0 by lia. cbn [String.substring]. by rewrite H0.
  - cbn [String.length]. rewrite length_app_string in *. cbn [String.length chr_str] in *.
    replace (S (String.length d + 1) - 1) with (S (String.length d)) by lia.
    replace (String.length d + 1 - 1) with (String.length d) in H1 by lia. cbn [String.substring]. by rewrite H1.
Qed.

Lemma durationCheck_none spec v :
  durationCheck spec v = None ↔
  ∃ digits c n, v = digits +:+ chr_str c ∧ atoi digits = Some n ∧ (0 < n)%Z ∧ chr_str c ∈ sp_suffixes spec.
Proof.
  unfold durationCheck. split.
  - destruct (Nat.ltb_spec (String.length v) 2); [done|]. cbv zeta.
    destruct (substring_last v) as (d & c & Hv & -> & ->); [by intros ->; simpl in *; lia|].
    destruct (atoi d) as [n|] eqn:En; [|done]. destruct (Z.leb_spec n 0); [done|]. case_decide; [|done].
    intros _. by exists d, c, n.
  - intros (d & c & n & -> & Hn & Hpos & Hs). rewrite length_app_string. cbn [String.length chr_str].
    assert (d ≠ "") as Hd by (by intros ->). destruct (Nat.ltb_spec (String.length d + 1) 2).
    { destruct d; simpl in *; [done|lia]. }
    cbv zeta. destruct (substring_last (d +:+ chr_str c)) as (d' & c' & Hv & H0 & H1); [by destruct d|].
    rewrite length_app_string in H0, H1. cbn [String.length chr_str] in H0, H1. rewrite H0, H1.
    assert (d' = d ∧ c' = c) as [-> ->]; [|rewrite Hn; destruct (Z.leb_spec n 0); [lia|by rewrite decide_True]].
    clear -Hv. revert d' Hv. induction d as [|x d IH]; intros [|y d'] Hv; simpl in Hv.
    + by injection Hv as ->.
    + injection Hv as -> Hv. by destruct d'.
    + injection Hv as -> Hv. by destruct d.
    + injection Hv as -> Hv. destruct (IH _ Hv) as [-> ->]. done.
Qed.

Lemma type_issue_none spec it : type_issue spec it = None ↔ value_ok spec (it_values it).
Proof.
  unfold type_issue, value_ok. destruct (it_values it) as [|v vs].
  - destruct (decide (sp_type spec = TypeBoolean)) as [E|E].
    + rewrite decide_False by tauto. split; [|done]. intros _. split; [done|]. rewrite E. by repeat split.
    + rewrite decide_True by done. split; [done|]. intros [H _]. by destruct E, H.
  - assert (∀ (P : Prop), (v :: vs = [] → P) ↔ True) as Hnil by (intros; split; done). rewrite Hnil.
    assert (∀ P : string → Prop, (∀ w, head (v :: vs) = Some w → P w) ↔ P v) as Hh
      by (intros; split; [intros H; by apply H|by intros H w [= <-]]). rewrite !Hh. clear Hnil Hh.
    destruct (decide (sp_type spec = TypeInteger)) as [E|Ei].
    { rewrite integer_check_none, E. split; [|intros (_ & H & _) i w Hw Hn; apply (H eq_refl i w Hw); by intros []%Hn].
      intros H. repeat split; try done. intros _ i w Hw Hn. apply (H i w Hw). intros Hl. split; [done|by apply Hn]. }
    destruct (decide (sp_type spec = TypeDuration)) as [E|Ed].
    { rewrite E, <-durationCheck_none. destruct (durationCheck spec v); simpl; split; try done.
      intros (_ & _ & H & _). by specialize (H eq_refl). }
    destruct (decide (sp_type spec = TypeEnum ∧ sp_allowed spec ≠ [])) as [[E Ha]|En].
    { rewrite E. case_decide; split; try done; intros (_ & _ & _ & H'). by specialize (H' eq_refl Ha). }
    split; [|done]. intros _. repeat split; try done. intros HE Ha. by destruct En.
Qed.

Lemma scope_issues_nil spec it L : scope_issues spec it L = [] ↔ scope_ok spec it L.
Proof.
  unfold scope_issues, scope_ok. destruct (isBlockDirective (it_key it)); [by split|].
  rewrite app_nil. split.
  - intros [H1 H2] _. split; [intros Hs; destruct (decide (it_line it ∈ L)); [done|]|intros Hs Hin Hl].
    + by rewrite decide_True in H1.
    + by rewrite decide_True in H2.
  - intros H. destruct (H eq_refl) as [H1 H2]. split; rewrite decide_False; naive_solver.
Qed.

Definition item_ok (cat : Catalog) (L : gset Z) (it : Item) : Prop :=
  it_kind it = ItemBlockOpen ∨ it_kind it = ItemDirective →
  ∃ spec, Lookup cat (it_key it) = Some spec
    ∧ (it_kind it = ItemDirective → scope_ok spec it L ∧ value_ok spec (it_values it)).

Lemma item_issues_nil cat L it : item_issues cat L it = [] ↔ item_ok cat L it.
Proof.
  unfold item_issues, item_ok. destruct (it_kind it) eqn:Ek.
  - split; [by intros _ []|done].
  - destruct (Lookup cat (it_key it)) as [spec|].
    + rewrite app_nil, <-length_zero_iff_nil, length_fmap, length_zero_iff_nil, scope_issues_nil. split.
      * intros [Hs Ht] _. exists spec. split; [done|]. intros _. split; [done|]. apply type_issue_none.
        by destruct (type_issue spec it) as [[]|].
      * intros H. destruct H as (spec' & [= <-] & H); [by right|]. destruct (H eq_refl) as [Hs Hv].
        split; [done|]. apply type_issue_none in Hv. by rewrite Hv.
    + split; [done|]. intros H. by destruct H as (? & ? & ?); [right|].
  - destruct (Lookup cat (it_key it)) as [spec|]; split; try done.
    + intros _ _. by exists spec.
    + intros H. by destruct H as (? & ? & ?); [left|].
  - split; [by intros _ []|done].
Qed.

Lemma multiplicity_issues_nil cat f :
  multiplicity_issues cat f = [] ↔
  ∀ spec, spec ∈ Specs cat → sp_multiplicity spec = Once → count_of cat f (to_lower (sp_name spec)) ≤ 1.
Proof.
  unfold multiplicity_issues. induction (Specs cat) as [|spec specs IH].
  - split; [|done]. intros _ spec H. by apply elem_of_nil in H.
  - cbn [omap list_omap]. cbv zeta. case_decide as Hd.
    + split; [done|]. intros H. destruct Hd as [Ho Hc]. specialize (H spec). rewrite elem_of_cons in H.
      specialize (H (or_introl eq_refl) Ho). lia.
    + etrans; [apply IH|]. split; [intros H s [->|Hs]%elem_of_cons Ho|intros H s Hs; apply H; by right].
      * destruct (decide (1 < count_of cat f (to_lower (sp_name spec)))); [|lia]. by destruct Hd.
      * by apply H.
Qed.

(** ** Properties *)

(** [C31] Parsing keeps the file: rendering the parsed items gives back every
    line of the body without the carriage returns at its end and with a final
    newline, the output is the body itself exactly when the body was already of
    that form, and parsing the rendered text gives the same items again. *)
Theorem Parse_RenderConf body path f :
  Parse body path = Ok f →
  RenderConf f = Ok (normalise body)
  ∧ (RenderConf f = Ok body ↔ canonical body)
  ∧ Parse (normalise body) path = Ok f.
Proof.
  intros H. assert (RenderConf f = Ok (normalise body)) as ->.
  { unfold RenderConf, normalise. apply render_items_lines. by eapply Parse_items_lines. }
  split; [done|]. split; [|by apply Parse_normalise].
  rewrite <-normalise_id. split; [by intros [= ->]|by intros ->].
Qed.

Definition sample_body : string :=
  "# broker" +:+ nl +:+ "listener 1883 {" +:+ nl +:+ "  Protocol mqtt" +:+ nl +:+ "}" +:+ nl +:+ "user  root".
Definition sample_file : File :=
  match Parse sample_body "m.conf" with Ok f => f | Err _ => mkFile [] "" end.

Lemma Parse_RenderConf_witness : RenderConf sample_file = Ok (normalise sample_body) ∧ normalise sample_body ≠ sample_body.
Proof.
  split; [|by vm_compute]. refine (proj1 (Parse_RenderConf sample_body "m.conf" sample_file _)). by vm_compute.
Defined.

(** The shape of every outcome of [Parse].  A successful parse has one
    item per line, in order, numbered from 1 and holding the scanned text, and
    its blocks open and close one at a time; a failed one has a line of 1 MiB
    or more, or exactly one unclosed block. *)
Theorem Parse_structure body path :
  match Parse body path with
  | Ok f => length (f_items f) = length (raw_lines body)
      ∧ (∀ i line, raw_lines body !! i = Some line → ∃ it, f_items f !! i = Some it ∧ item_of_line (i + 1) line it)
      ∧ block_run false (f_items f) = Some false
  | Err ReadTooLong => ∃ line, line ∈ raw_lines body ∧ (max_token ≤ Z.of_nat (String.length line))%Z
  | Err (UnclosedBlock d) => d = 1%Z
  end.
Proof.
  destruct (Parse body path) as [f|e] eqn:E; [by destruct (Parse_inv _ _ _ E) as (_ & ? & ? & ?)|].
  unfold Parse in E. cbv zeta in E. destruct (existsb _ _) eqn:Ex.
  - injection E as <-. apply existsb_exists in Ex as (line & Hin & Hl). exists line.
    rewrite list_elem_of_In. split; [done|]. by apply Z.leb_le.
  - destruct (p_depth _ =? 0)%Z eqn:Ed; [done|]. injection E as <-. apply Z.eqb_neq in Ed.
    destruct (parse_lines_spec (raw_lines body) (mkParse [] 0 false 0)) as (items & _ & _ & _ & _ & Hd).
    simpl in Hd. rewrite Hd in Ed |- *. by destruct (p_in_block _).
Qed.

(** A directive edited through its key and values survives the round
    trip: a directive without text is rendered as its indent, key and values,
    and parsing that line gives one directive with the same key and values
    (quoted values with blanks included) and the same indent. *)
Theorem edited_directive_reparsed it path :
  let line := join " " (it_key it :: it_values it) in
  it_kind it = ItemDirective → it_text it = "" →
  word (it_key it) = true → to_lower (it_key it) = it_key it → isBlockDirective (it_key it) = false →
  Forall (λ t, good_token t = true) (it_key it :: it_values it) →
  trim_space line = line → has_prefix "#" line = false →
  free_of nl_char line = true → free_of cr_char line = true →
  line_too_long (spaces (it_indent it) +:+ line) = false →
  ∃ text, RenderConf (mkFile [it] path) = Ok text
    ∧ Parse text path = Ok (mkFile [mkItem ItemDirective (it_key it) (it_values it) text 1 (it_indent it)] path).
Proof.
  intros line Hk Ht [Hne Hns]%word_spec Hlow Hb Htok Htrim Hc Hnl Hcr Hlong.
  set (raw := spaces (it_indent it) +:+ line) in *.
  assert (line ≠ "") as Hline by (unfold line; by destruct (it_key it), (it_values it)).
  assert (free_of nl_char raw = true) as Hrnl by (unfold raw; by rewrite free_of_app, free_of_spaces).
  assert (scan_line raw = raw) as Hscan.
  { apply scan_line_free_cr. unfold raw. by rewrite free_of_app, free_of_spaces. }
  assert (trim_space raw = line) as Hrt by (unfold raw, trim_space; rewrite trim_left_spaces; exact Htrim).
  assert (String.length raw - String.length (trim_left_bytes is_blank raw) = it_indent it) as Hind.
  { unfold raw. rewrite trim_left_blanks_spaces, length_app_string, length_spaces.
    rewrite (trim_left_blanks_id line Htrim). lia. }
  assert (parseDirectiveLine raw (0 + 1) (it_indent it) false =
    (mkItem ItemDirective (it_key it) (it_values it) (raw +:+ nl) 1 (it_indent it), true)) as Hp.
  { destruct (parseDirectiveLine_ok raw (0 + 1) (it_indent it) false) as (key & rest & Htk & ->); [by rewrite Hrt..|].
    rewrite Hrt in Htk. unfold line in Htk. rewrite tokenise_join in Htk by done. by injection Htk as <- <-; rewrite Hlow. }
  exists (raw +:+ nl). split.
  - unfold RenderConf. cbn [f_items render_items]. unfold render_item. rewrite Hk. unfold renderDirectiveLine.
    rewrite Ht, decide_False by done. cbn [bool_decide negb]. rewrite with_values_app, with_values_join. simpl.
    by rewrite app_nil_r_string.
  - unfold Parse. assert (raw_lines (raw +:+ nl) = [raw]) as ->.
    { apply (raw_lines_unlines [raw]). by repeat constructor. }
    cbn [existsb foldl]. rewrite Hlong. cbn [orb]. cbv zeta.
    unfold parse_step. cbv zeta. cbn [p_in_block p_items p_depth p_line]. rewrite Hscan, Hrt.
    rewrite (decide_False _ _ Hline), Hc, Hind, Hp. subst raw. rewrite fields_spaces.
    pose proof (fields_join_head (it_key it) (it_values it) Hne Hns) as Hhd. fold line in Hhd.
    destruct (fields line) as [|d ds]; [done|]. injection Hhd as ->. by rewrite Hlow, Hb.
Qed.

Definition edited_sample : Item :=
  mkItem ItemDirective "log_dest" ["file"; chr_str quote_char +:+ "/var/log m" +:+ chr_str quote_char] "" (-1) 2.

Lemma edited_directive_reparsed_witness :
  ∃ text, RenderConf (mkFile [edited_sample] "m.conf") = Ok text
    ∧ Parse text "m.conf" = Ok (mkFile [mkItem ItemDirective "log_dest" (it_values edited_sample) text 1 2] "m.conf").
Proof.
  refine (edited_directive_reparsed edited_sample "m.conf" _ _ _ _ _ _ _ _ _ _ _); try (by vm_compute).
  by repeat constructor.
Defined.

(** The blocks of a parsed file are exactly its braced headers, in order,
    each with the items up to the brace that closes it: header, body and close
    are consecutive items of the file, and the body holds no header and no
    closing brace. *)
Theorem ListenerBlocks_parsed body path f :
  Parse body path = Ok f →
  b_header <$> ListenerBlocks f = filter (λ it, it_kind it = ItemBlockOpen) (f_items f)
  ∧ ∀ b, b ∈ ListenerBlocks f → ∃ pre rest, f_items f = pre ++ b_header b :: b_body b ++ b_close b :: rest
      ∧ it_kind (b_header b) = ItemBlockOpen ∧ it_kind (b_close b) = ItemBlockClose
      ∧ Forall (λ it, ¬ structural it) (b_body b).
Proof.
  intros (_ & _ & _ & Hr)%Parse_inv. exact (ListenerBlocks_go [] (f_items f) false Hr).
Qed.

Lemma ListenerBlocks_parsed_witness :
  b_header <$> ListenerBlocks sample_file = filter (λ it, it_kind it = ItemBlockOpen) (f_items sample_file)
  ∧ ListenerBlocks sample_file ≠ [].
Proof.
  split; [|by vm_compute]. refine (proj1 (ListenerBlocks_parsed sample_body "m.conf" sample_file _)). by vm_compute.
Defined.

(** Where a directive of a parsed file applies: its line is in the
    listener context exactly when the last header or closing brace before it is
    a header, so a directive after a brace-less [listener] line belongs to that
    listener and a directive after a closing brace does not. *)
Theorem listenerContext_parsed body path f i it :
  Parse body path = Ok f → f_items f !! i = Some it → plain_directive it →
  (it_line it ∈ listenerContext f ↔ opened (take i (f_items f)) = true).
Proof.
  intros (_ & Hl & Hn & Hr)%Parse_inv Hi Hp. unfold listenerContext.
  destruct (listenerContext_go (f_items f) false Hr) as (_ & _ & Hc). rewrite Hc. split; [|by intros; exists i, it].
  intros (j & it' & Hj & _ & Heq & Ho).
  assert (∀ k x, f_items f !! k = Some x → it_line x = Z.of_nat (k + 1)) as Hline.
  { intros k x Hk. destruct (lookup_lt_is_Some_2 (raw_lines body) k) as [line Hlk].
    { rewrite <-Hn. by apply lookup_lt_Some in Hk. }
    destruct (Hl _ _ Hlk) as (x' & Hx & _ & Hxl & _). congruence. }
  rewrite (Hline _ _ Hi), (Hline _ _ Hj) in Heq. by assert (j = i) as -> by lia.
Qed.

Lemma listenerContext_parsed_witness :
  let it := default zero_item (f_items sample_file !! 2) in
  (it_line it ∈ listenerContext sample_file ↔ opened (take 2 (f_items sample_file)) = true).
Proof.
  refine (listenerContext_parsed sample_body "m.conf" sample_file 2 _ _ _ _); [by vm_compute..|].
  split; by vm_compute.
Defined.

(** A file validates without an issue exactly when every block header and
    directive is in the catalog, every directive is in scope and has values of
    its type within the catalog's bounds, suffixes and allowed values, and no
    directive that may appear once appears twice. *)
Theorem ValidateConf_clean f cat :
  ValidateConf f cat = [] ↔
  (∀ it, it ∈ f_items f → item_ok cat (listenerContext f) it)
  ∧ (∀ spec, spec ∈ Specs cat → sp_multiplicity spec = Once → count_of cat f (to_lower (sp_name spec)) ≤ 1).
Proof.
  unfold ValidateConf. rewrite app_nil, multiplicity_issues_nil, bind_nil. by setoid_rewrite item_issues_nil.
Qed.
