(* ===== verification/ConfEdit.v ===== *)
(** * Edited files of mosquitto.conf: what the broker reads after a change

    The editors of [mosquitto.conf] (bridges, settings, plugins) parse the file,
    drop and insert items, and render the result, which is parsed again by the
    next request and by the broker.  This file shows that reading the rendered
    text gives the edited items, up to line numbers and texts. *)
From S2P Require Import Prelude Unicode GoStrings GoStrconv Conf.

(** ** Items up to their position and text *)
Definition same_item (a b : Item) : Prop := it_kind a = it_kind b ∧ it_key a = it_key b ∧ it_values a = it_values b.
#[export] Instance same_item_equiv : Equivalence same_item.
Proof.
  split; [by intros ?|intros a b (? & ? & ?); by repeat split|].
  intros a b c (? & ? & ?) (? & ? & ?). unfold same_item. split_and!; by etrans.
Qed.
#[export] Instance block_step_same : Proper ((=) ==> same_item ==> (=)) block_step.
Proof. intros b _ <- x y (Hk & _). unfold block_step. by rewrite Hk. Qed.

(** ** One line *)

(** An item read from a line does not depend on what was read before, apart
    from the line number and whether a block is open. *)
Lemma parseDirectiveLine_line raw n n' i b :
  let r := parseDirectiveLine raw n i b in let r' := parseDirectiveLine raw n' i b in same_item r.1 r'.1 ∧ r.2 = r'.2.
Proof. unfold parseDirectiveLine. cbv zeta. repeat case_match; by repeat split. Qed.

Lemma parse_step_state s s' line : p_in_block s = p_in_block s' →
  ∃ it it', same_item it it'
    ∧ p_items (parse_step s line) = p_items s ++ [it] ∧ p_items (parse_step s' line) = p_items s' ++ [it']
    ∧ p_in_block (parse_step s line) = p_in_block (parse_step s' line).
Proof.
  intros Hb. unfold parse_step. cbv zeta. rewrite <-Hb. set (raw := scan_line line). set (i := String.length raw - _).
  destruct (decide (trim_space raw = "")) as [|Hne]; [eexists _, _; split; [|by repeat split]; done|].
  destruct (has_prefix "#" (trim_space raw)) eqn:Hc; [eexists _, _; split; [|by repeat split]; done|].
  assert (∀ b, same_item (parseDirectiveLine raw (p_line s + 1) i b).1 (parseDirectiveLine raw (p_line s' + 1) i b).1
    ∧ (parseDirectiveLine raw (p_line s + 1) i b).2 = (parseDirectiveLine raw (p_line s' + 1) i b).2) as Hp
    by (intros b; apply parseDirectiveLine_line).
  pose proof (fields_nonblank raw Hne) as Hf.
  pose proof (Hp (p_in_block s)) as [Hi Ho]. pose proof (Hp false) as [Hi' _]. clear Hp.
  destruct (parseDirectiveLine raw (p_line s + 1) i (p_in_block s)) as [it ok].
  destruct (parseDirectiveLine raw (p_line s' + 1) i (p_in_block s)) as [it' ok']. cbn [fst snd] in *. subst ok'.
  destruct (p_in_block s); [destruct (isCloseBrace _)|destruct (fields raw) as [|d ds]; [done|destruct (_ && _)]];
    eexists _, _; (split; [|by repeat split]); destruct ok; try done; destruct Hi' as (? & ? & ?); by repeat split.
Qed.

(** ** Edited files *)
Section edit.
Context (R : Item → Item → Prop) (HR : ∀ a b, same_item a b → R a b).

(** The item is rendered as a line that is read as a related item. *)
Record reads_back (inb : bool) (it : Item) (line : string) : Prop := {
  rb_render : render_item it = Ok (line +:+ nl);
  rb_free : free_of nl_char line = true;
  rb_short : line_too_long line = false;
  rb_step : ∀ s, p_in_block s = inb → ∃ it', R it it' ∧ block_step inb it' = block_step inb it ∧ p_items (parse_step s line) = p_items s ++ [it']
}.
Fixpoint rereadable (inb : bool) (items : list Item) : Prop :=
  match items with
  | [] => True
  | it :: rest => (∃ line, reads_back inb it line) ∧ ∀ b, block_step inb it = Some b → rereadable b rest
  end.

Lemma readable_app inb a b : rereadable inb a → (∀ c, block_run inb a = Some c → rereadable c b) → rereadable inb (a ++ b).
Proof.
  revert inb. induction a as [|it a IH]; intros inb; cbn [rereadable app block_run]; [intros _ H; by apply H|].
  intros [Hl Ha] Hb. split; [done|]. intros c Hc. apply IH; [by apply Ha|]. intros d Hd. apply Hb. by rewrite Hc.
Qed.
Lemma readable_split inb a b c : rereadable inb (a ++ b) → block_run inb a = Some c → rereadable inb a ∧ rereadable c b.
Proof.
  revert inb. induction a as [|it a IH]; intros inb; cbn [rereadable app block_run]; [by intros H [= <-]|].
  intros [Hl Ha]. destruct (block_step inb it) as [d|] eqn:E; [|done]. cbn. intros Hc.
  destruct (IH d (Ha d eq_refl) Hc) as [H1 H2]. split; [|done]. split; [done|]. intros e [= <-]. done.
Qed.

Lemma readable_lines inb items b : rereadable inb items → block_run inb items = Some b →
  ∃ lines, Forall2 (λ it l, render_item it = Ok (l +:+ nl)) items lines
    ∧ Forall (λ l, free_of nl_char l = true) lines ∧ Forall (λ l, line_too_long l = false) lines
    ∧ ∀ s, p_in_block s = inb → ∃ items', p_items (foldl parse_step s lines) = p_items s ++ items' ∧ Forall2 R items items'
        ∧ p_in_block (foldl parse_step s lines) = b.
Proof.
  revert inb. induction items as [|it items IH]; intros inb; cbn [rereadable block_run].
  - intros _ [= <-]. exists []. split_and!; try constructor. intros s Hs. exists []. by rewrite app_nil_r.
  - intros [(line & [Hr Hf Hsh Hst]) Hrest]. destruct (block_step inb it) as [c|] eqn:Ec; [|done]. cbn. intros Hb.
    destruct (IH c (Hrest c eq_refl) Hb) as (lines & HL & HF & HS & Hrun). exists (line :: lines). split_and!; [by constructor..|].
    intros s Hs. destruct (Hst s Hs) as (it' & HRit & Hbs & Hit). cbn [foldl].
    destruct (parse_step_spec s line) as (it'' & Hit'' & _ & _ & _ & _ & Hb'' & _). rewrite Hit in Hit''. apply app_inj_tail in Hit'' as [_ ->].
    rewrite Hs, Hbs in Hb''. injection Hb'' as Hb''. destruct (Hrun (parse_step s line)) as (items' & Hi & HRs & Hl); [congruence|].
    exists (it'' :: items'). rewrite Hi, Hit, <-app_assoc. by split_and!; [|constructor|].
Qed.

(** The rendered text of an edited file is read as related items. *)
Lemma edited_read items path : rereadable false items → block_run false items = Some false →
  ∃ text f, RenderConf (mkFile items path) = Ok text ∧ Parse text path = Ok f ∧ f_path f = path ∧ Forall2 R items (f_items f).
Proof.
  intros Hi Hr. destruct (readable_lines false items false Hi Hr) as (lines & HL & HF & HS & Hrun).
  destruct (Hrun (mkParse [] 0 false 0) eq_refl) as (items' & Hp & HRs & Hb). cbn [p_items app] in Hp.
  exists (unlines lines), (mkFile items' path). unfold RenderConf, Parse. cbn [f_items].
  rewrite (render_items_lines _ _ HL), raw_lines_unlines by done. cbv zeta.
  assert (existsb line_too_long lines = false) as ->.
  { clear -HS. induction HS as [|l ls Hl _ IH]; [done|]. cbn. by rewrite Hl. }
  destruct (parse_lines_spec lines (mkParse [] 0 false 0)) as (? & _ & _ & _ & _ & Hd). rewrite Hb in Hd. cbn [p_depth p_in_block Z.b2z] in Hd.
  rewrite Hd, Hp. by split_and!.
Qed.

(** The items of a parsed file are read back. *)
Lemma parsed_reads s line : free_of nl_char line = true → line_too_long line = false →
  ∀ it, p_items (parse_step s line) = p_items s ++ [it] → reads_back (p_in_block s) it (scan_line line).
Proof.
  intros Hf Hs it Hit. destruct (parse_step_spec s line) as (it0 & Hit0 & Ht & Hl & _ & Hk & Hb & _).
  rewrite Hit in Hit0. apply app_inj_tail in Hit0 as [_ <-]. constructor.
  - unfold render_item, renderDirectiveLine. rewrite Ht.
    assert (scan_line line +:+ nl ≠ "") as Hne by (by destruct (scan_line line)).
    rewrite (bool_decide_false _ Hne), trim_nl_text by by apply scan_line_free.
    destruct (it_kind it); [done..|]. by rewrite (decide_False _ _ Hne).
  - by apply scan_line_free.
  - unfold line_too_long in *. rewrite Z.leb_gt in *. pose proof (length_scan_line line). lia.
  - intros s' Hs'. rewrite parse_step_scan. destruct (parse_step_state s s' line (eq_sym Hs')) as (a & a' & Ha & Hi & Hi' & _).
    rewrite Hit in Hi. apply app_inj_tail in Hi as [_ <-]. exists a'. split_and!; [by apply HR|by rewrite Ha|done].
Qed.

Lemma parsed_lines_readable lines s : Forall (λ l, free_of nl_char l = true) lines → Forall (λ l, line_too_long l = false) lines →
  ∃ items, p_items (foldl parse_step s lines) = p_items s ++ items ∧ rereadable (p_in_block s) items.
Proof.
  intros Hf. revert s. induction Hf as [|line lines Hl _ IH]; intros s Hs; [exists []; by rewrite app_nil_r|].
  apply Forall_cons in Hs as [Hsh Hs]. destruct (parse_step_spec s line) as (it & Hit & _ & _ & _ & _ & Hb & _).
  destruct (IH (parse_step s line) Hs) as (items & Hi & Hr). exists (it :: items). cbn [foldl rereadable]. rewrite Hi, Hit, <-app_assoc.
  split; [done|]. split; [eexists; by apply parsed_reads|]. rewrite Hb. by intros b [= <-].
Qed.

Lemma parsed_readable body path f : Parse body path = Ok f → rereadable false (f_items f).
Proof.
  unfold Parse. cbv zeta. destruct (existsb _ _) eqn:E; [done|]. case_match; [|done]. intros [= <-]. cbn [f_items].
  destruct (parsed_lines_readable (raw_lines body) (mkParse [] 0 false 0)) as (items & -> & Hr).
  - apply raw_lines_free.
  - clear -E. induction (raw_lines body) as [|l ls IH]; [constructor|]. cbn in E. apply orb_false_iff in E as [? ?]. constructor; [done|by apply IH].
  - exact Hr.
Qed.

(** A new directive outside blocks: its tokens are those of its key and [ws]. *)
Record directive_line (it : Item) (ws : list string) : Prop := {
  dl_kind : it_kind it = ItemDirective;
  dl_text : it_text it = "";
  dl_key : word (it_key it) = true ∧ to_lower (it_key it) = it_key it ∧ isBlockDirective (it_key it) = false;
  dl_tokens : Forall (λ t, good_token t = true) (it_key it :: ws);
  dl_join : join " " (it_key it :: it_values it) = join " " (it_key it :: ws);
  dl_trim : trim_space (join " " (it_key it :: ws)) = join " " (it_key it :: ws);
  dl_comment : has_prefix "#" (join " " (it_key it :: ws)) = false;
  dl_free : free_of nl_char (join " " (it_key it :: ws)) = true ∧ free_of cr_char (join " " (it_key it :: ws)) = true;
  dl_short : line_too_long (spaces (it_indent it) +:+ join " " (it_key it :: ws)) = false
}.

Lemma directive_reads it ws : directive_line it ws →
  (∀ it', it_kind it' = ItemDirective → it_key it' = it_key it → it_values it' = ws → R it it') →
  ∃ line, reads_back false it line.
Proof.
  intros [Hk Ht ([Hne Hns]%word_spec & Hlow & Hbl) Htok Hj Htrim Hc [Hnl Hcr] Hsh] HRit. set (line := join " " (it_key it :: ws)) in *.
  set (raw := spaces (it_indent it) +:+ line) in *.
  assert (line ≠ "") as Hline by (unfold line; by destruct (it_key it), ws).
  assert (scan_line raw = raw) as Hscan by (apply scan_line_free_cr; unfold raw; by rewrite free_of_app, free_of_spaces).
  assert (trim_space raw = line) as Hrt by (unfold raw, trim_space; rewrite trim_left_spaces; exact Htrim).
  exists raw. constructor.
  - unfold render_item, renderDirectiveLine. rewrite Hk, Ht, decide_False by done. cbn [bool_decide negb].
    rewrite with_values_app, with_values_join, Hj. done.
  - unfold raw. by rewrite free_of_app, free_of_spaces.
  - done.
  - intros s Hs. destruct (parseDirectiveLine_ok raw (p_line s + 1)
      (String.length raw - String.length (trim_left_bytes is_blank raw)) false) as (key & rest & Htk & Hp); [by rewrite Hrt..|].
    rewrite Hrt in Htk. unfold line in Htk. rewrite tokenise_join in Htk by done. injection Htk as <- <-.
    exists (mkItem ItemDirective (it_key it) ws (raw +:+ nl) (p_line s + 1) (String.length raw - String.length (trim_left_bytes is_blank raw))).
    split_and!; [by apply HRit|unfold block_step; by rewrite Hk|].
    unfold parse_step. cbv zeta. rewrite Hscan, Hrt, (decide_False _ _ Hline), Hc, Hs, Hp.
    unfold raw. rewrite fields_spaces. pose proof (fields_join_head (it_key it) ws Hne Hns) as Hhd. fold line in Hhd.
    destruct (fields line) as [|d ds]; [done|]. injection Hhd as ->. by rewrite Hlow, Hbl.
Qed.
End edit.
