(* ===== verification/ConfLines.v ===== *)
(** * mosquitto.conf line by line

    What [Parse] reads is, line by line, a function of the line and of whether a
    block is open; only the line numbers depend on the position.  Here that
    function, and the text of items that were read, for the editors that drop
    and move lines. *)
From S2P Require Import Prelude Unicode GoStrings GoStrconv Conf.

(** ** The item of a line *)
Definition clear_line (it : Item) : Item := mkItem (it_kind it) (it_key it) (it_values it) (it_text it) 0 (it_indent it).
Definition line_indent (raw : string) : nat := String.length raw - String.length (trim_left_bytes is_blank raw).
Definition line_directive (raw : string) : Item := (parseDirectiveLine raw 0 (line_indent raw) true).1.
Definition line_item (inb : bool) (line : string) : Item :=
  let raw := scan_line line in
  let trimmed := trim_space raw in
  if decide (trimmed = "") then comment_item raw 0 (line_indent raw)
  else if has_prefix "#" trimmed then comment_item raw 0 (line_indent raw)
  else if inb then if isCloseBrace trimmed then mkItem ItemBlockClose "" [] (raw +:+ nl) 0 (line_indent raw) else line_directive raw
  else match fields raw with
  | d :: _ as flds => if isBlockDirective (to_lower d) && isBlockStart raw flds then set_kind ItemBlockOpen (line_directive raw) else line_directive raw
  | [] => line_directive raw
  end.
Definition line_end (inb : bool) (line : string) : bool := default inb (block_step inb (line_item inb line)).
Fixpoint read_lines (inb : bool) (lines : list string) : list Item :=
  match lines with [] => [] | l :: rest => line_item inb l :: read_lines (line_end inb l) rest end.
Fixpoint lines_end (inb : bool) (lines : list string) : bool :=
  match lines with [] => inb | l :: rest => lines_end (line_end inb l) rest end.

Lemma parse_step_line s line : ∃ it, p_items (parse_step s line) = p_items s ++ [it] ∧ clear_line it = line_item (p_in_block s) line
  ∧ p_in_block (parse_step s line) = line_end (p_in_block s) line.
Proof.
  destruct (parse_step_spec s line) as (it & Hit & _ & _ & _ & _ & Hb & _). exists it. split; [done|].
  enough (clear_line it = line_item (p_in_block s) line) as Hc.
  { split; [done|]. unfold line_end. rewrite <-Hc. change (block_step (p_in_block s) (clear_line it)) with (block_step (p_in_block s) it). by rewrite Hb. }
  revert Hit. clear Hb. unfold parse_step, line_item, line_directive. cbv zeta. set (raw := scan_line line).
  destruct (decide (trim_space raw = "")) as [E|Hne]; [by intros [_ <-]%app_inj_tail|].
  destruct (has_prefix "#" (trim_space raw)) eqn:Hc; [by intros [_ <-]%app_inj_tail|].
  change (String.length raw - String.length (trim_left_bytes is_blank raw)) with (line_indent raw).
  assert (∀ n b, ∃ key rest, tokenise (trim_space raw) = key :: rest
    ∧ parseDirectiveLine raw n (line_indent raw) b = (mkItem ItemDirective (to_lower key) rest (raw +:+ nl) n (line_indent raw), true)) as Hp
    by (intros; by apply parseDirectiveLine_ok).
  destruct (Hp 0%Z true) as (key0 & rest0 & Ht0 & ->). destruct (Hp (p_line s + 1)%Z (p_in_block s)) as (key & rest & Ht & ->).
  destruct (Hp (p_line s + 1)%Z false) as (key' & rest' & Ht' & ->). rewrite Ht0 in Ht, Ht'. injection Ht as <- <-. injection Ht' as <- <-.
  assert (fields raw ≠ []) as Hf by by apply fields_nonblank.
  destruct (p_in_block s) eqn:Eb; [destruct (isCloseBrace _)|destruct (fields raw) as [|d ds]; [done|destruct (_ && _)]]; by intros [_ <-]%app_inj_tail.
Qed.
Lemma parse_lines_read lines s : ∃ items, p_items (foldl parse_step s lines) = p_items s ++ items
  ∧ clear_line <$> items = read_lines (p_in_block s) lines ∧ p_in_block (foldl parse_step s lines) = lines_end (p_in_block s) lines.
Proof.
  revert s. induction lines as [|l lines IH]; intros s; [exists []; by rewrite app_nil_r|]. cbn [foldl read_lines lines_end].
  destruct (parse_step_line s l) as (it & Hit & Hc & Hb). destruct (IH (parse_step s l)) as (items & Hi & Hcs & He).
  exists (it :: items). rewrite Hi, Hit, <-app_assoc. split; [done|]. rewrite <-Hb. split; [|done]. cbn. by rewrite Hc, Hcs.
Qed.

Definition short_lines (lines : list string) : Prop := Forall (λ l, line_too_long l = false) lines.
Lemma short_lines_existsb lines : short_lines lines ↔ existsb line_too_long lines = false.
Proof.
  unfold short_lines. induction lines as [|l lines IH]; [by split; [|constructor]|]. rewrite Forall_cons, IH. cbn. by rewrite orb_false_iff.
Qed.
Lemma Parse_lines body path f : Parse body path = Ok f → short_lines (raw_lines body) ∧ lines_end false (raw_lines body) = false
  ∧ clear_line <$> f_items f = read_lines false (raw_lines body) ∧ f_path f = path.
Proof.
  unfold Parse. cbv zeta. rewrite short_lines_existsb. destruct (existsb _ _) eqn:E; [done|].
  destruct (parse_lines_spec (raw_lines body) (mkParse [] 0 false 0)) as (_ & _ & _ & _ & _ & Hd).
  destruct (parse_lines_read (raw_lines body) (mkParse [] 0 false 0)) as (items & Hi & Hc & He). cbn [p_items p_in_block p_depth app Z.b2z] in *.
  destruct (Z.eqb_spec (p_depth (foldl parse_step (mkParse [] 0 false 0) (raw_lines body))) 0) as [E0|]; [|done]. intros [= <-]. cbn [f_items f_path]. rewrite Hi.
  split_and!; try done. rewrite <-He. destruct (p_in_block _); [cbn in Hd; lia|done].
Qed.
Lemma Parse_read body path : short_lines (raw_lines body) → lines_end false (raw_lines body) = false →
  ∃ f, Parse body path = Ok f ∧ clear_line <$> f_items f = read_lines false (raw_lines body) ∧ f_path f = path.
Proof.
  intros Hs He. unfold Parse. cbv zeta. apply short_lines_existsb in Hs. rewrite Hs.
  destruct (parse_lines_spec (raw_lines body) (mkParse [] 0 false 0)) as (_ & _ & _ & _ & _ & Hd).
  destruct (parse_lines_read (raw_lines body) (mkParse [] 0 false 0)) as (items & Hi & Hc & He'). cbn [p_items p_in_block p_depth app Z.b2z] in *.
  rewrite He' , He in Hd. rewrite Hd. cbn. eexists. split; [done|]. cbn [f_items f_path]. by rewrite Hi.
Qed.

(** ** What an item of a line is *)
Lemma line_item_scan inb l : line_item inb (scan_line l) = line_item inb l.
Proof. unfold line_item. by rewrite scan_line_idem. Qed.
Lemma line_item_cases inb l : let it := line_item inb l in
  it_text it = scan_line l +:+ nl ∧ block_step inb it = Some (line_end inb l) ∧ match it_kind it with
  | ItemComment => ∀ b, line_item b l = it
  | ItemBlockOpen => inb = false
  | ItemBlockClose => inb = true ∧ it_key it = ""
  | ItemDirective => True
  end ∧ (it_kind it = ItemComment → it_key it = "").
Proof.
  cbv zeta. destruct (parse_step_spec (mkParse [] 0 inb 0) l) as (it & Hit & Ht & _ & _ & _ & Hb & _).
  destruct (parse_step_line (mkParse [] 0 inb 0) l) as (it' & Hit' & Hc & Hb'). rewrite Hit in Hit'. apply app_inj_tail in Hit' as [_ <-]. cbn [p_in_block] in *.
  assert (it_text (line_item inb l) = scan_line l +:+ nl) as HT by (by rewrite <-Hc).
  assert (block_step inb (line_item inb l) = Some (line_end inb l)) as HB by (rewrite <-Hc, <-Hb'; exact Hb).
  split; [done|]. split; [done|]. clear it Hit Ht Hb Hc Hb' HT. revert HB. unfold line_item, line_directive. cbv zeta. set (raw := scan_line l).
  destruct (decide (trim_space raw = "")) as [E|Hne]; [done|]. destruct (has_prefix "#" (trim_space raw)) eqn:Hh; [done|].
  destruct (parseDirectiveLine_ok raw 0 (line_indent raw) true Hne Hh) as (key & rest & _ & ->).
  destruct inb; [by destruct (isCloseBrace _)|]. destruct (fields raw); [done|]. by destruct (_ && _).
Qed.

Lemma read_lines_app inb a b : read_lines inb (a ++ b) = read_lines inb a ++ read_lines (lines_end inb a) b.
Proof. revert inb. induction a as [|l a IH]; intros inb; [done|]. cbn [app read_lines lines_end]. by rewrite IH. Qed.
Lemma lines_end_app inb a b : lines_end inb (a ++ b) = lines_end (lines_end inb a) b.
Proof. revert inb. induction a as [|l a IH]; intros inb; [done|]. apply IH. Qed.

(** The rendered text is that of the lines. *)
Lemma render_line_item inb l it : clear_line it = line_item inb l → free_of nl_char l = true → render_item it = Ok (scan_line l +:+ nl).
Proof.
  intros Hc Hf. assert (it_text it = scan_line l +:+ nl) as Ht. { change (it_text it) with (it_text (clear_line it)). rewrite Hc. apply line_item_cases. }
  unfold render_item, renderDirectiveLine. rewrite Ht. assert (scan_line l +:+ nl ≠ "") as Hne by (by destruct (scan_line l)).
  rewrite (bool_decide_false _ Hne), trim_nl_text by by apply scan_line_free. destruct (it_kind it); [done..|]. by rewrite (decide_False _ _ Hne).
Qed.
Lemma render_read_lines inb lines items : clear_line <$> items = read_lines inb lines → Forall (λ l, free_of nl_char l = true) lines →
  render_items items = Ok (unlines (scan_line <$> lines)).
Proof.
  intros Hc Hf. apply render_items_lines. revert inb items Hc. induction Hf as [|l lines Hl _ IH]; intros inb [|it items] Hc; try done.
  cbn [fmap list_fmap read_lines] in *. apply (inj2 cons) in Hc as [H1 H2]. constructor; [|by eapply IH]. by eapply (render_line_item inb).
Qed.
