(* ===== verification/Include.v ===== *)
(** * [internal/mosquitto/conf/include.go]: the files of [include_dir]

    The resolver walks the directories the [include_dir] directives name and
    appends the items of their files.  What the operating system answers is a
    record of functions, an [os_view]; the resolver only reads. *)
From S2P Require Import Prelude Unicode GoStrings GoPath GoGlob Sha256 Catalog Conf.

(** ** The file tree as the system calls show it *)
Inductive os_error := NotExist | OtherError.
Inductive file_kind := KDirectory | KRegular | KOther.
#[export] Instance file_kind_eq_dec : EqDecision file_kind. Proof. solve_decision. Defined.
Record file_info := mkInfo { fi_kind : file_kind; fi_size : Z; fi_dev : Z; fi_ino : Z }.
Record os_view := mkView {
  os_cwd : result os_error string;
  os_eval_symlinks : string → result os_error string;
  os_stat : string → result os_error file_info;
  os_read_dir : string → result os_error (list string);
  (** [OpenRoot] of the first argument, and the file below it. *)
  os_read_in_root : string → string → result os_error string
}.

(** ** The snapshot *)
Definition maxIncludeDepth : nat := 8.
Record IncludeFileEntry := mkEntryFile { ie_path : string; ie_size : Z; ie_sha : string }.
Record IncludeSnapshot := mkSnapshot { is_root : string; is_files : list IncludeFileEntry }.
#[export] Instance IncludeFileEntry_eq_dec : EqDecision IncludeFileEntry. Proof. solve_decision. Defined.
#[export] Instance IncludeSnapshot_eq_dec : EqDecision IncludeSnapshot. Proof. solve_decision. Defined.

Inductive include_error :=
  | RootEmpty | IncludeNoPath (line : Z) | DepthExceeded (dir : string) | IncludeDir (dir : string)
  | ErrIncludeSymlinkEscape (path : string) | ErrIncludeCycle (path : string) | IncludeRead (path : string)
  | BadGlob (pattern : string) | IncludeParse (path : string) (e : parse_error).

Definition on_os {A} (e : include_error) (r : result os_error A) : result include_error A :=
  match r with Ok a => Ok a | Err _ => Err e end.

(** The items so far, the files so far, the path and the hash of every file
    read, and the directories by their inode. *)
Record walk_state := mkWalked {
  wk_items : list Item; wk_files : list IncludeFileEntry; wk_visited : gmap string string; wk_inodes : gmap Z string
}.

Definition hasNoDirectives (f : File) : bool :=
  forallb (λ it, negb (bool_decide (it_kind it = ItemDirective ∨ it_kind it = ItemBlockOpen))) (f_items f).

Section resolver.
Context (v : os_view) (root : string).

Definition under_root (path : string) : bool := has_prefix (root +:+ "/") path || bool_decide (path = root).

(** [inodeOf]: the device and the inode in one 64-bit key. *)
Definition inodeOf (path : string) : result include_error Z :=
  info ← on_os (IncludeRead path) (os_stat v path);
  Ok (Z.lxor (wrap_u64 (Z.shiftl (fi_dev info) 32)) (wrap_u64 (fi_ino info))).

(** [filepath.Rel] with its error dropped. *)
Definition rel_to_root (path : string) : string := default "" (rel_path root path).

Definition pattern_matches (pattern name : string) : result include_error bool :=
  if decide (pattern = "") then Ok true
  else match Match pattern name with Some b => Ok b | None => Err (BadGlob pattern) end.

(** The content of a regular file is parsed and appended. *)
Definition include_file (rel : string) (info : file_info) (s : walk_state) : result include_error walk_state :=
  if decide (is_Some (wk_visited s !! rel)) then Ok s
  else
    content ← on_os (IncludeRead rel) (os_read_in_root v root rel);
    match Parse content rel with
    | Err e => Err (IncludeParse rel e)
    | Ok parsed =>
        if hasNoDirectives parsed then Ok s
        else Ok (mkWalked (wk_items s ++ f_items parsed) (wk_files s ++ [mkEntryFile rel (fi_size info) (contentHash content)])
                   (<[rel := contentHash content]> (wk_visited s)) (wk_inodes s))
    end.

(** One name of a directory; [descend] walks a directory below it. *)
Definition include_entry (descend : string → walk_state → result include_error walk_state) (resolved pattern : string)
    (s : walk_state) (name : string) : result include_error walk_state :=
  let childPath := path_join [resolved; name] in
  actualPath ← on_os (IncludeRead childPath) (os_eval_symlinks v childPath);
  if negb (under_root actualPath) then Err (ErrIncludeSymlinkEscape name)
  else
    info ← on_os (IncludeRead childPath) (os_stat v childPath);
    if decide (fi_kind info = KDirectory) then descend (rel_to_root childPath) s
    else if decide (fi_kind info ≠ KRegular ∨ ext name ≠ ".conf" ∨ ext actualPath ≠ ".conf") then Ok s
    else
      ok ← pattern_matches pattern name;
      if negb ok then Ok s else include_file (rel_to_root childPath) info s.

(** [walk]; [left_] is the number of the levels that may still be entered. *)
Fixpoint walk_dir (left_ : nat) (pattern dir : string) (s : walk_state) : result include_error walk_state :=
  match left_ with
  | O => Err (DepthExceeded dir)
  | S left_ =>
      cwd ← on_os (IncludeDir dir) (if is_abs (path_join [root; dir]) then Ok "" else os_cwd v);
      let abs := if is_abs dir then clean dir else abs_path cwd (path_join [root; dir]) in
      match os_eval_symlinks v abs with
      | Err NotExist => Ok s
      | Err OtherError => Err (IncludeDir dir)
      | Ok resolved =>
          if negb (under_root resolved) then Err (ErrIncludeSymlinkEscape dir)
          else
            inode ← inodeOf resolved;
            if decide (is_Some (wk_inodes s !! inode)) then Err (ErrIncludeCycle resolved)
            else
              let s := mkWalked (wk_items s) (wk_files s) (wk_visited s) (<[inode := resolved]> (wk_inodes s)) in
              names ← on_os (IncludeRead resolved) (os_read_dir v resolved);
              fold_result (include_entry (walk_dir left_ pattern) resolved pattern) s (sort_strings names)
      end
  end.

Definition include_directive (s : walk_state) (it : Item) : result include_error walk_state :=
  if decide (it_kind it = ItemDirective ∧ it_key it = "include_dir") then
    match it_values it with
    | [] => Err (IncludeNoPath (it_line it))
    | dir :: rest => walk_dir (S maxIncludeDepth) (join " " rest) dir s
    end
  else Ok s.

Definition entry_before (a b : IncludeFileEntry) : bool := string_less (ie_path a) (ie_path b).
Definition resolve_from (top : File) : result include_error (File * IncludeSnapshot) :=
  s ← fold_result include_directive (mkWalked (f_items top) [] ∅ ∅) (f_items top);
  Ok (mkFile (wk_items s) (f_path top), mkSnapshot root (sort_stable entry_before (wk_files s))).
End resolver.

(** [NewIncludeResolver(root).Resolve(top)]: a cleaned root is never empty. *)
Definition Resolve (v : os_view) (root : string) (top : File) : result include_error (File * IncludeSnapshot) :=
  let root := clean root in
  if decide (root = "") then Err RootEmpty else resolve_from v root top.

(** ** What is included *)

(** A file that was read: below the root after its links are followed, regular,
    with the extension on both names, and with a directive. *)
Definition included (v : os_view) (root : string) (x : IncludeFileEntry * list Item) : Prop :=
  ∃ child actual info content parsed,
    os_eval_symlinks v child = Ok actual ∧ under_root root actual = true ∧ ext actual = ".conf"
    ∧ os_stat v child = Ok info ∧ fi_kind info = KRegular
    ∧ os_read_in_root v root (rel_to_root root child) = Ok content
    ∧ Parse content (rel_to_root root child) = Ok parsed ∧ hasNoDirectives parsed = false
    ∧ x = (mkEntryFile (rel_to_root root child) (fi_size info) (contentHash content), f_items parsed).

Section invariant.
Context (v : os_view) (root : string) (top : list Item).

Definition walked (s : walk_state) : Prop :=
  ∃ l, wk_files s = l.*1 ∧ wk_items s = top ++ concat l.*2 ∧ Forall (included v root) l
    ∧ NoDup (ie_path <$> l.*1) ∧ ∀ p, is_Some (wk_visited s !! p) ↔ p ∈ ie_path <$> l.*1.

Lemma include_file_walked child actual info s s' :
  os_eval_symlinks v child = Ok actual → under_root root actual = true → ext actual = ".conf" →
  os_stat v child = Ok info → fi_kind info = KRegular →
  walked s → include_file v root (rel_to_root root child) info s = Ok s' → walked s'.
Proof.
  intros Ha Hu He Hi Hk (l & Hf & Hit & Hl & Hnd & Hv). unfold include_file. destruct (decide _) as [|Hnew]; [intros [= <-]; by exists l|].
  intros (content & Hc & H)%result_bind_ok. destruct (os_read_in_root _ _ _) as [c|] eqn:Er; [|done]. injection Hc as <-.
  destruct (Parse _ _) as [parsed|] eqn:Ep; [|done]. destruct (hasNoDirectives parsed) eqn:Eh; [injection H as <-; by exists l|]. injection H as <-.
  exists (l ++ [(mkEntryFile (rel_to_root root child) (fi_size info) (contentHash c), f_items parsed)]). cbn [wk_files wk_items wk_visited].
  rewrite !fmap_app, concat_app, Hf, Hit. cbn. rewrite app_nil_r, <-app_assoc. split; [done|]. split; [done|]. split.
  { apply Forall_app; split; [done|]. repeat constructor. exists child, actual, info, c, parsed. done. }
  rewrite Hv in Hnew. split; [apply NoDup_app; split; [done|]; split; [set_solver|apply NoDup_singleton]|].
  intros p. destruct (decide (p = rel_to_root root child)) as [->|]; [rewrite lookup_insert_eq; set_solver|].
  rewrite lookup_insert_ne by done. rewrite Hv. set_solver.
Qed.

Lemma include_entry_walked descend resolved pattern s name s' :
  (∀ dir s s', walked s → descend dir s = Ok s' → walked s') →
  walked s → include_entry v root descend resolved pattern s name = Ok s' → walked s'.
Proof.
  intros Hd Hs. unfold include_entry. cbv zeta. intros (actual & Ha & H)%result_bind_ok. destruct (under_root root actual) eqn:Hu; [|done]. cbn [negb] in H.
  apply result_bind_ok in H as (info & Hi & H). destruct (os_eval_symlinks _ _) eqn:Ee; [|done]. injection Ha as ->.
  destruct (os_stat _ _) eqn:Es; [|done]. injection Hi as ->. case_decide as Hk; [by eapply Hd|]. case_decide as Hx; [by injection H as <-|].
  apply result_bind_ok in H as (ok & _ & H). destruct ok; cbn [negb] in H; [|by injection H as <-].
  eapply include_file_walked; [done|done| |done| |done|done]; [|destruct (fi_kind info) eqn:E; naive_solver].
  destruct (decide (ext actual = ".conf")); [done|tauto].
Qed.

Lemma walk_dir_walked left_ pattern dir s s' : walked s → walk_dir v root left_ pattern dir s = Ok s' → walked s'.
Proof.
  revert dir s s'. induction left_ as [|left_ IH]; intros dir s s' Hs; cbn [walk_dir]; [done|]. intros (cwd & _ & H)%result_bind_ok. cbv zeta in H.
  destruct (os_eval_symlinks _ _) as [resolved|[]]; [|by injection H as <-|done]. destruct (under_root root resolved); [|done]. cbn [negb] in H.
  apply result_bind_ok in H as (inode & _ & H). case_decide; [done|]. apply result_bind_ok in H as (names & _ & H).
  eapply (fold_result_inv walked) in H; [done| |].
  - destruct Hs as (l & Hl). by exists l.
  - intros s1 name s2 _. apply include_entry_walked. intros d a b. apply IH.
Qed.
End invariant.

(** [C36] What a resolved configuration consists of: the items of the file itself
    and, in the order of the walk, those of the included files.  Every included
    file is a regular [.conf] file whose path, after links are followed, is
    below the root; no file is included twice; and the snapshot lists exactly
    these files in the order of their paths, with the hash of the content that
    was parsed. *)
Theorem Resolve_included v root top f snapshot :
  Resolve v root top = Ok (f, snapshot) →
  ∃ l, Forall (included v (clean root)) l
    ∧ f_items f = f_items top ++ concat l.*2
    ∧ is_files snapshot ≡ₚ l.*1 ∧ NoDup (ie_path <$> is_files snapshot)
    ∧ sorted_by entry_before (is_files snapshot).
Proof.
  unfold Resolve. cbv zeta. case_decide; [done|]. unfold resolve_from. intros (s & Hs & [= <- <-])%result_bind_ok. cbn [f_items is_files].
  assert (walked v (clean root) (f_items top) s) as (l & Hf & Hi & Hl & Hnd & _).
  { eapply (fold_result_inv (walked v (clean root) (f_items top))) in Hs; [done| |].
    - exists []. cbn. rewrite app_nil_r. repeat split; [by constructor|by constructor|by intros [? ?]|by rewrite elem_of_nil].
    - intros s1 it s2 _ H1. unfold include_directive. case_decide; [|by intros [= <-]]. destruct (it_values it); [done|]. by apply walk_dir_walked. }
  exists l. rewrite Hf in *. split; [done|]. split; [done|]. split; [apply sort_stable_perm|]. split; [by rewrite sort_stable_perm|].
  apply sort_stable_sorted.
  - intros a b. apply string_less_asym.
  - intros a b c. apply string_less_negtrans.
Qed.

(** ** A tree without links *)
Section flat.
Context (dirs : list string) (files : gmap string string).

Definition is_dir (p : string) : bool := bool_decide (p ∈ dirs).
Definition flat_stat (p : string) : result os_error file_info :=
  match files !! p with
  | Some content => Ok (mkInfo KRegular (Z.of_nat (String.length content)) 1 0)
  | None =>
      match list_find (p =.) dirs with Some (i, _) => Ok (mkInfo KDirectory 4096 1 (Z.of_nat (S i))) | None => Err NotExist end
  end.
Definition flat_names (p : string) : list string :=
  base_name <$> filter (λ q, q ≠ p ∧ dir q = p) (dirs ++ (map_to_list files).*1).
Definition flat_view : os_view :=
  mkView (Ok "/")
    (λ p, if is_dir p || bool_decide (is_Some (files !! p)) then Ok p else Err NotExist)
    flat_stat
    (λ p, if is_dir p then Ok (flat_names p) else Err NotExist)
    (λ root rel, match files !! path_join [root; rel] with Some c => Ok c | None => Err NotExist end).
End flat.

Definition example_view : os_view :=
  flat_view ["/etc"; "/etc/mosquitto"; "/etc/mosquitto/conf.d"; "/etc/mosquitto/conf.d/sub"]
    (list_to_map [("/etc/mosquitto/conf.d/20-b.conf", "persistence true" +:+ nl);
                  ("/etc/mosquitto/conf.d/10-a.conf", "log_type all" +:+ nl);
                  ("/etc/mosquitto/conf.d/note.txt", "not a conf" +:+ nl);
                  ("/etc/mosquitto/conf.d/sub/30-c.conf", "max_queued_messages 10" +:+ nl)]).
Definition example_top (body : string) : File := mkFile (default [] (f_items <$> (match Parse body "/etc/mosquitto/mosquitto.conf" with Ok f => Some f | Err _ => None end))) "/etc/mosquitto/mosquitto.conf".
Definition resolved_keys (r : result include_error (File * IncludeSnapshot)) : option (list string * list string) :=
  match r with Ok (f, s) => Some (it_key <$> f_items f, ie_path <$> is_files s) | Err _ => None end.

Lemma Resolve_included_witness :
  ∃ f snapshot, Resolve example_view "/etc/mosquitto" (example_top ("include_dir conf.d" +:+ nl)) = Ok (f, snapshot)
    ∧ resolved_keys (Ok (f, snapshot))
      = Some (["include_dir"; "log_type"; "persistence"; "max_queued_messages"], ["conf.d/10-a.conf"; "conf.d/20-b.conf"; "conf.d/sub/30-c.conf"])
    ∧ NoDup (ie_path <$> is_files snapshot).
Proof.
  eexists _, _. split; [vm_compute; reflexivity|]. split; [vm_compute; reflexivity|].
  refine (_ (Resolve_included example_view "/etc/mosquitto" (example_top ("include_dir conf.d" +:+ nl)) _ _ _)); [|vm_compute; reflexivity].
  intros (l & _ & _ & _ & H & _). exact H.
Defined.

(** A directory that two directives name is taken for a cycle, although no
    chain of directories comes back to itself. *)
Lemma included_twice_refused :
  Resolve example_view "/etc/mosquitto" (example_top ("include_dir conf.d *-a.conf" +:+ nl +:+ "include_dir conf.d *-b.conf" +:+ nl))
  = Err (ErrIncludeCycle "/etc/mosquitto/conf.d").
Proof. vm_compute. reflexivity. Qed.

(** The pattern, and directories that do not exist. *)
Example pattern_filters : resolved_keys (Resolve example_view "/etc/mosquitto" (example_top ("include_dir conf.d *-a.conf" +:+ nl)))
  = Some (["include_dir"; "log_type"], ["conf.d/10-a.conf"]).
Proof. vm_compute. reflexivity. Qed.
Example missing_directory : resolved_keys (Resolve example_view "/etc/mosquitto" (example_top ("include_dir none" +:+ nl))) = Some (["include_dir"], []).
Proof. vm_compute. reflexivity. Qed.
Example outside_refused : Resolve example_view "/etc/mosquitto" (example_top ("include_dir /etc" +:+ nl)) = Err (ErrIncludeSymlinkEscape "/etc").
Proof. vm_compute. reflexivity. Qed.
