(* ===== verification/Settings.v ===== *)
(** * [internal/mosquitto/settings]: the broker settings form

    [settings.go]: the settings a form owns are read out of a parsed file
    ([Extract]), checked ([Validate]) and written back ([Apply]).  The catalog
    is used through the interface of the package.  Messages are constructors
    that keep the arguments of the Go format strings. *)
From S2P Require Import Prelude Unicode GoStrings GoStrconv Catalog Conf.
Open Scope mcm_scope.

(** ** The catalog interface of the package *)
Class SettingsCatalog (C : Type) := {
  cat_lookup : C → string → option DirectiveSpec;
  cat_list : C → list DirectiveSpec
}.
#[export] Instance Catalog_settings : SettingsCatalog Catalog := {
  cat_lookup := Lookup;
  cat_list := Specs
}.

(** ** The data *)
Record Entry := mkEntry { e_directive : string; e_values : list string; e_unset : bool }.
Record Document := mkDocument { d_entries : list Entry }.

Inductive settings_message :=
  | NoName | NotEditable (directive : string) | OnlyOnce | NeedsPath | OneFileDest | SetAndUnset
  | ExpectsValue | ExpectsBoolean | ExpectsSingleNumber | ExpectsNumber (value : string)
  | AtLeast (bound : Z) (unit_ : string) | AtMost (bound : Z) (unit_ : string)
  | ExpectsSingleDuration | BadDuration (m : conf_message) | NotAccepted (value : string).

Record Issue := mkSettingsIssue { is_kind : string; is_directive : string; is_message : settings_message }.

Inductive settings_error :=
  | ErrNotEditable (directive : string) | ErrUnsetAndSet (name : string) | ErrOnlyOnce (name : string).

Record Field := mkField {
  fd_directive : string; fd_section : string; fd_type : string; fd_unit : string;
  fd_min : option Z; fd_max : option Z; fd_default : string; fd_multiplicity : string;
  fd_reload_kind : string; fd_scope : string; fd_allowed : list string; fd_suffixes : list string;
  fd_present : bool; fd_values : list string
}.
Record FormSection := mkSection { sec_id : string; sec_fields : list Field }.

Record occurrence := mkOcc { o_index : nat; o_values : list string }.

(** The normalised name of a document entry. *)
Definition entry_name (e : Entry) : string := to_lower (trim_space (e_directive e)).

(** ** Which items of a file are settings *)

(** The state of the walk: whether the global part goes on, and the depth of
    [blockItems]. *)
Record walk := mkWalk { w_global : bool; w_depth : Z }.
Definition walk_start : walk := mkWalk true 0.

Definition walk_step (w : walk) (it : Item) : walk :=
  match it_kind it with
  | ItemBlockOpen => mkWalk false (w_depth w + 1)
  | ItemBlockClose => mkWalk (w_global w) (w_depth w - 1)
  | ItemDirective =>
      if isBlockDirective (it_key it) then mkWalk false (w_depth w) else w
  | ItemComment => w
  end.

(** The managed directive an item is an occurrence of. *)
Definition owner (managed : gmap string DirectiveSpec) (w : walk) (it : Item) : option string :=
  match it_kind it with
  | ItemDirective =>
      if isBlockDirective (it_key it) then None
      else match managed !! to_lower (it_key it) with
      | None => None
      | Some spec =>
          if (0 <? w_depth w)%Z then None
          else if bool_decide (sp_scope spec = CatScopeAny) && negb (w_global w) then None
          else Some (to_lower (it_key it))
      end
  | _ => None
  end.

Definition occ_add (out : gmap string (list occurrence)) (name : string) (o : occurrence) :=
  <[name := default [] (out !! name) ++ [o]]> out.

Fixpoint analyse_go (managed : gmap string DirectiveSpec) (w : walk) (i : nat) (items : list Item)
    (out : gmap string (list occurrence)) : gmap string (list occurrence) :=
  match items with
  | [] => out
  | it :: rest =>
      analyse_go managed (walk_step w it) (S i) rest
        (match owner managed w it with
         | Some name => occ_add out name (mkOcc i (it_values it))
         | None => out
         end)
  end.

Definition analyse (items : list Item) (managed : gmap string DirectiveSpec) : gmap string (list occurrence) :=
  analyse_go managed walk_start 0 items ∅.

(** [occurrences[name]]: a missing key reads as an empty slice. *)
Definition occ_of (m : gmap string (list occurrence)) (name : string) : list occurrence := default [] (m !! name).

Definition equalValues (a b : list string) : bool := bool_decide (a = b).
Definition equalValueLists (a b : list (list string)) : bool := bool_decide (a = b).
Definition equalOccurrences (occ : list occurrence) (want : list (list string)) : bool :=
  bool_decide (o_values <$> occ = want).

(** ** Editing lines *)
Definition directiveName (text fallback : string) : string := default fallback (head (fields text)).

Definition renderDirective (name : string) (values : list string) (indent : nat) : string :=
  with_values (spaces indent +:+ name) values +:+ nl.

Fixpoint insertion_go (items : list Item) (i : nat) (next : nat) : nat :=
  match items with
  | [] => next
  | it :: rest =>
      match it_kind it with
      | ItemDirective =>
          if decide (it_key it ∈ ["listener"; "bridge"; "connection"]) then next
          else insertion_go rest (S i) (S i)
      | ItemBlockOpen => next
      | _ => insertion_go rest (S i) next
      end
  end.
(** [last + 1] of the code is the argument [next]. *)
Definition insertionIndex (items : list Item) : nat := insertion_go items 0 0.

Definition insertItem (items : list Item) (pos : nat) (it : Item) : list Item :=
  let at_ := Nat.min pos (length items) in
  take at_ items ++ it :: drop at_ items.

(** ** The operations *)
Section operations.
Context {C : Type} `{SettingsCatalog C} (cat : C).

Definition ManagedSpecs : list DirectiveSpec := filter (λ s, sp_section s ≠ "") (cat_list cat).

Definition managedMap : gmap string DirectiveSpec := map_by (λ s, to_lower (sp_name s)) ManagedSpecs.

Definition Extract (f : File) : Document :=
  let occurrences := analyse (f_items f) managedMap in
  mkDocument (ManagedSpecs ≫= λ spec,
    match occ_of occurrences (to_lower (sp_name spec)) with
    | [] => [mkEntry (sp_name spec) [] true]
    | found => (λ o, mkEntry (sp_name spec) (o_values o) false) <$> found
    end).

Definition Occurrences (f : File) : gmap string nat := length <$> analyse (f_items f) managedMap.

(** *** [Apply], first part: the document grouped by directive *)
Record grouped := mkGrouped {
  g_desired : gmap string (list (list string));
  g_unset : gset string;
  g_order : list string
}.
Definition wanted (g : grouped) (name : string) : list (list string) := default [] (g_desired g !! name).

Definition group_step (g : grouped) (e : Entry) : result settings_error grouped :=
  let name := entry_name e in
  if decide (name = "") then Ok g
  else match managedMap !! name with
  | None => Err (ErrNotEditable (e_directive e))
  | Some spec =>
      let order := if decide (name ∈ g_order g) then g_order g else g_order g ++ [name] in
      if e_unset e then
        if decide (wanted g name ≠ []) then Err (ErrUnsetAndSet (sp_name spec))
        else Ok (mkGrouped (delete name (g_desired g)) ({[name]} ∪ g_unset g) order)
      else if decide (name ∈ g_unset g) then Err (ErrUnsetAndSet (sp_name spec))
      else Ok (mkGrouped (<[name := wanted g name ++ [e_values e]]> (g_desired g)) (g_unset g) order)
  end.

Definition group (entries : list Entry) : result settings_error grouped :=
  fold_result group_step (mkGrouped ∅ ∅ []) entries.

(** *** Second part: the changes to the existing lines *)
Record edits := mkEdits { x_changed : gset string; x_remove : gset nat; x_rewrite : gmap nat Item }.

Definition rewritten (name : string) (it : Item) (want : list string) : Item :=
  mkItem (it_kind it) (it_key it) want
    (renderDirective (directiveName (it_text it) name) want (it_indent it)) (it_line it) (it_indent it).

Definition spec_name_of (name : string) : string :=
  match managedMap !! name with Some s => sp_name s | None => "" end.
Definition is_many (name : string) : bool :=
  match managedMap !! name with Some s => bool_decide (sp_multiplicity s = Many) | None => false end.

(** The rewrites of the occurrences that stay. *)
Definition rewrites (items : list Item) (name : string) (occ : list occurrence) (want : list (list string)) : list (nat * Item) :=
  omap (λ '(o, w),
    if equalValues (o_values o) w then None
    else (λ it, (o_index o, rewritten (spec_name_of name) it w)) <$> items !! o_index o) (zip occ want).

Definition edit_step (items : list Item) (current : gmap string (list occurrence)) (g : grouped)
    (x : edits) (name : string) : result settings_error edits :=
  let occ := occ_of current name in
  if decide (name ∈ g_unset g) then
    Ok (match occ with
        | [] => x
        | _ => mkEdits ({[name]} ∪ x_changed x) (list_to_set (o_index <$> occ) ∪ x_remove x) (x_rewrite x)
        end)
  else
    let want := wanted g name in
    ensure negb ((1 <? length want) && negb (is_many name)) else ErrOnlyOnce (spec_name_of name);
    if equalOccurrences occ want then Ok x
    else Ok (mkEdits ({[name]} ∪ x_changed x)
               (list_to_set (o_index <$> drop (length want) occ) ∪ x_remove x)
               (list_to_map (rewrites items name occ want) ∪ x_rewrite x)).

Definition apply_edits (items : list Item) (x : edits) : list Item :=
  omap (λ '(i, it),
    if decide (i ∈ x_remove x) then None else Some (default it (x_rewrite x !! i))) (imap pair items).

(** *** Third part: the occurrences that did not exist yet *)
Definition added_item (name : string) (values : list string) : Item :=
  mkItem ItemDirective name values (renderDirective (spec_name_of name) values 0) (-1) 0.

Definition add_step (g : grouped) (items : list Item) (name : string) : list Item :=
  let want := wanted g name in
  let occ := occ_of (analyse items managedMap) name in
  if length want <=? length occ then items
  else
    let start := match last occ with Some o => o_index o + 1 | None => insertionIndex items end in
    (foldl (λ '(its, pos) values, (insertItem its pos (added_item name values), S pos))
      (items, start) (drop (length occ) want)).1.

Definition Apply (f : File) (doc : Document) : result settings_error (File * list string) :=
  let current := analyse (f_items f) managedMap in
  g ← group (d_entries doc);
  x ← fold_result (edit_step (f_items f) current g) (mkEdits ∅ ∅ ∅) (g_order g);
  let items := foldl (add_step g) (apply_edits (f_items f) x) (g_order g) in
  Ok (mkFile items (f_path f), sort_strings (elements (x_changed x))).

(** *** [Validate] *)
Definition validateValues (spec : DirectiveSpec) (values : list string) : list Issue :=
  let typed m := [mkSettingsIssue "type" (sp_name spec) m] in
  match values with
  | [] => if decide (sp_type spec ≠ TypeBoolean) then typed ExpectsValue else []
  | v :: rest =>
      if decide (sp_type spec = TypeBoolean) then
        if decide (rest = [] ∧ (v = "true" ∨ v = "false")) then [] else typed ExpectsBoolean
      else if decide (sp_type spec = TypeInteger) then
        if decide (rest ≠ []) then typed ExpectsSingleNumber
        else match atoi v with
        | None => typed (ExpectsNumber v)
        | Some n =>
            (match sp_min spec with
             | Some lo => if (n <? lo)%Z then [mkSettingsIssue "range" (sp_name spec) (AtLeast lo (sp_unit spec))] else []
             | None => [] end)
            ++ (match sp_max spec with
             | Some hi => if (hi <? n)%Z then [mkSettingsIssue "range" (sp_name spec) (AtMost hi (sp_unit spec))] else []
             | None => [] end)
        end
      else if decide (sp_type spec = TypeDuration) then
        if decide (rest ≠ []) then typed ExpectsSingleDuration
        else match durationCheck spec v with
        | Some msg => typed (BadDuration msg)
        | None => [] end
      else if decide (sp_type spec = TypeEnum) then
        if decide (v ≠ "" ∧ v ∉ sp_allowed spec) then typed (NotAccepted v) else []
      else []
  end.

Record check_state := mkCheck {
  c_issues : list Issue;
  c_counts : gmap string nat;
  c_set : gset string;
  c_unset : gset string;
  c_file_dests : nat
}.

Definition check_step (s : check_state) (e : Entry) : check_state :=
  let name := entry_name e in
  let report i := mkCheck (c_issues s ++ [i]) (c_counts s) (c_set s) (c_unset s) (c_file_dests s) in
  if decide (name = "") then report (mkSettingsIssue "unknown" "" NoName)
  else match managedMap !! name with
  | None => report (mkSettingsIssue "unknown" (e_directive e) (NotEditable (e_directive e)))
  | Some spec =>
      if e_unset e then mkCheck (c_issues s) (c_counts s) (c_set s) ({[name]} ∪ c_unset s) (c_file_dests s)
      else
        let n := default 0 (c_counts s !! name) + 1 in
        let counts := <[name := n]> (c_counts s) in
        let set_ := {[name]} ∪ c_set s in
        if negb (bool_decide (sp_multiplicity spec = Many)) && (1 <? n) then
          mkCheck (c_issues s ++ [mkSettingsIssue "multiplicity" (sp_name spec) OnlyOnce]) counts set_ (c_unset s) (c_file_dests s)
        else
          let is_file := bool_decide (name = "log_dest" ∧ head (e_values e) = Some "file") in
          let no_path := match e_values e with _ :: p :: _ => bool_decide (trim_space p = "") | _ => true end in
          mkCheck
            (c_issues s ++ validateValues spec (e_values e)
             ++ (if is_file && no_path then [mkSettingsIssue "type" (sp_name spec) NeedsPath] else []))
            counts set_ (c_unset s) (c_file_dests s + if is_file then 1 else 0)
  end.

(** The conflicts are reported in the iteration order of a Go map, which is
    unspecified; here they come in the order of [elements]. *)
Definition Validate (doc : Document) : list Issue :=
  let s := foldl check_step (mkCheck [] ∅ ∅ ∅ 0) (d_entries doc) in
  c_issues s
  ++ (if 1 <? c_file_dests s then [mkSettingsIssue "duplicate" "log_dest" OneFileDest] else [])
  ++ ((λ name, mkSettingsIssue "conflict" (spec_name_of name) SetAndUnset) <$> elements (c_set s ∩ c_unset s)).

(** *** The form and the comparison of two files *)
Definition present_values (doc : Document) : gmap string (list (list string)) :=
  foldl (λ m e,
    let name := entry_name e in
    if decide (name = "") then m
    else match managedMap !! name with
    | None => m
    | Some _ => if e_unset e then m else <[name := default [] (m !! name) ++ [e_values e]]> m
    end) ∅ (d_entries doc).

Definition field_of (values : gmap string (list (list string))) (spec : DirectiveSpec) : Field :=
  let occ := default [] (values !! to_lower (sp_name spec)) in
  mkField (sp_name spec) (sp_section spec) (sp_type spec) (sp_unit spec) (sp_min spec) (sp_max spec)
    (sp_default spec) (sp_multiplicity spec) (sp_reload_kind spec) (sp_scope spec) (sp_allowed spec)
    (sp_suffixes spec) (negb (bool_decide (occ = []))) (default [] (head occ)).

Definition BuildSections (doc : Document) : list FormSection :=
  let values := present_values doc in
  (λ id, mkSection id (field_of values <$> filter (λ s, sp_section s = id) ManagedSpecs)) <$> KnownSections.

Definition file_values (items : list Item) (name : string) : list (list string) :=
  o_values <$> occ_of (analyse items managedMap) name.

Definition ChangedDirectives (before after : File) : list string :=
  sort_strings (elements (filter (λ name, equalValueLists (file_values (f_items before) name) (file_values (f_items after) name) = false)
    (dom managedMap))).
End operations.

(** ** The walk as one annotated list

    Every item with its index and the directive that owns it. *)
Fixpoint annot (managed : gmap string DirectiveSpec) (w : walk) (i : nat) (items : list Item) : list (nat * option string * Item) :=
  match items with
  | [] => []
  | it :: rest => (i, owner managed w it, it) :: annot managed (walk_step w it) (S i) rest
  end.

Definition occ_sel (name : string) (x : nat * option string * Item) : option occurrence :=
  if decide (x.1.2 = Some name) then Some (mkOcc x.1.1 (it_values x.2)) else None.
Definition owned (x : nat * option string * Item) : option string * Item := (x.1.2, x.2).

(** The annotation without the indices, and what it says of a directive. *)
Definition notes (managed : gmap string DirectiveSpec) (w : walk) (items : list Item) : list (option string * Item) :=
  owned <$> annot managed w 0 items.
Definition note_values (name : string) (l : list (option string * Item)) : list (list string) :=
  it_values ∘ snd <$> filter (λ x, x.1 = Some name) l.
Definition outside (names : list string) (o : option string) : bool :=
  match o with Some name => negb (bool_decide (name ∈ names)) | None => true end.
Definition notes_outside (names : list string) (l : list (option string * Item)) : list Item :=
  snd <$> filter (λ x, outside names x.1 = true) l.

Section walks.
Context (managed : gmap string DirectiveSpec).
(** Managed names are lower case and none of them opens a block. *)
Definition names_ok : Prop := ∀ name, is_Some (managed !! name) → to_lower name = name ∧ isBlockDirective name = false.

Lemma analyse_go_occ w i items out name :
  occ_of (analyse_go managed w i items out) name = occ_of out name ++ omap (occ_sel name) (annot managed w i items).
Proof.
  revert w i out. induction items as [|it items IH]; intros w i out; simpl; [by rewrite app_nil_r|].
  rewrite IH. unfold occ_sel at 2. simpl. destruct (owner managed w it) as [n|].
  - unfold occ_of, occ_add. destruct (decide (n = name)) as [->|Hn].
    + rewrite lookup_insert_eq, decide_True by done. simpl. by rewrite <-app_assoc.
    + rewrite lookup_insert_ne, decide_False by (done || by intros [=]). done.
  - by rewrite decide_False.
Qed.

Lemma analyse_occ items name : occ_of (analyse items managed) name = omap (occ_sel name) (annot managed walk_start 0 items).
Proof. unfold analyse. rewrite analyse_go_occ. done. Qed.

Lemma annot_lookup w i items k x :
  annot managed w i items !! k = Some x → x.1.1 = i + k ∧ items !! k = Some x.2.
Proof.
  revert w i k. induction items as [|it items IH]; intros w i [|k] H; simplify_eq/=; [split; [lia|done]|].
  destruct (IH _ _ _ H). split; [lia|done].
Qed.

Lemma annot_items w i items : snd <$> annot managed w i items = items.
Proof. revert w i. induction items as [|it items IH]; intros w i; simpl; [done|]. by rewrite IH. Qed.

Lemma annot_length w i items : length (annot managed w i items) = length items.
Proof. revert w i. induction items as [|it items IH]; intros w i; simpl; [done|]. by rewrite IH. Qed.

Lemma annot_shift w i j items : owned <$> annot managed w i items = owned <$> annot managed w j items.
Proof.
  revert w i j. induction items as [|it items IH]; intros w i j; simpl; [done|]. by rewrite (IH _ _ (S j)).
Qed.

Lemma notes_values items name :
  o_values <$> occ_of (analyse items managed) name = note_values name (notes managed walk_start items).
Proof.
  rewrite analyse_occ. unfold note_values, notes.
  induction (annot managed walk_start 0 items) as [|x l IH]; [done|].
  rewrite fmap_cons, filter_cons. cbn [omap list_omap]. unfold occ_sel at 1. cbn [owned fst snd].
  destruct (decide (x.1.2 = Some name)); [|exact IH]. by rewrite !fmap_cons, IH.
Qed.

Lemma notes_outside_nil items w : notes_outside [] (notes managed w items) = items.
Proof.
  unfold notes_outside, notes. rewrite <-(annot_items w 0 items) at 2.
  induction (annot managed w 0 items) as [|x l IH]; [done|]. rewrite !fmap_cons, filter_cons_True.
  - by rewrite fmap_cons, IH.
  - destruct x as [[i [o|]] it]; done.
Qed.

(** An item that is a setting does not move the walk. *)
Lemma owner_walk w it name : owner managed w it = Some name → walk_step w it = w.
Proof. unfold owner, walk_step. destruct (it_kind it); try done. by destruct (isBlockDirective (it_key it)). Qed.

Lemma owner_key w it it' : it_kind it' = it_kind it → it_key it' = it_key it → owner managed w it' = owner managed w it.
Proof. unfold owner. by intros -> ->. Qed.

Lemma owner_managed w it name : owner managed w it = Some name → is_Some (managed !! name) ∧ name = to_lower (it_key it).
Proof.
  unfold owner. intros H. destruct (it_kind it); try done. destruct (isBlockDirective _); [done|].
  destruct (managed !! to_lower (it_key it)) eqn:E; [|done]. repeat case_match; simplify_eq. by split.
Qed.

Lemma notes_cons w it items : notes managed w (it :: items) = (owner managed w it, it) :: notes managed (walk_step w it) items.
Proof. unfold notes. simpl. f_equal. apply annot_shift. Qed.

Lemma notes_app w a b : notes managed w (a ++ b) = notes managed w a ++ notes managed (foldl walk_step w a) b.
Proof.
  revert w. induction a as [|it a IH]; intros w; [done|].
  change ((it :: a) ++ b) with (it :: (a ++ b)). by rewrite !notes_cons, IH.
Qed.
End walks.

(** ** What a document asks for *)
Definition mentioned (entries : list Entry) (name : string) : Prop :=
  name ≠ "" ∧ ∃ e, e ∈ entries ∧ entry_name e = name.
Definition asks_unset (entries : list Entry) (name : string) : Prop :=
  name ≠ "" ∧ ∃ e, e ∈ entries ∧ entry_name e = name ∧ e_unset e = true.
Definition doc_values (entries : list Entry) (name : string) : list (list string) :=
  e_values <$> filter (λ e, name ≠ "" ∧ entry_name e = name ∧ e_unset e = false) entries.

Lemma doc_values_snoc entries e name :
  doc_values (entries ++ [e]) name =
    doc_values entries name ++ (if decide (name ≠ "" ∧ entry_name e = name ∧ e_unset e = false) then [e_values e] else []).
Proof.
  unfold doc_values. rewrite filter_app, fmap_app. f_equal. case_decide.
  - by rewrite filter_cons_True.
  - by rewrite filter_cons_False.
Qed.

Lemma exists_snoc {A} (P : A → Prop) l x : (∃ y, y ∈ l ++ [x] ∧ P y) ↔ (∃ y, y ∈ l ∧ P y) ∨ P x.
Proof.
  split.
  - intros (y & [Hy| ->%list_elem_of_singleton]%elem_of_app & HP); [left; by exists y|by right].
  - intros [(y & Hy & HP)|HP]; [exists y|exists x]; rewrite elem_of_app, ?list_elem_of_singleton; auto.
Qed.

Lemma mentioned_snoc entries e name : mentioned (entries ++ [e]) name ↔ mentioned entries name ∨ (name ≠ "" ∧ entry_name e = name).
Proof. unfold mentioned. rewrite exists_snoc. tauto. Qed.

Lemma asks_unset_snoc entries e name :
  asks_unset (entries ++ [e]) name ↔ asks_unset entries name ∨ (name ≠ "" ∧ entry_name e = name ∧ e_unset e = true).
Proof. unfold asks_unset. rewrite exists_snoc. tauto. Qed.

Section grouping.
Context {C : Type} `{SettingsCatalog C} (cat : C).

Definition entries_ok (entries : list Entry) : Prop :=
  (∀ e, e ∈ entries → entry_name e = "" ∨ is_Some (managedMap cat !! entry_name e))
  ∧ ∀ name, asks_unset entries name → doc_values entries name = [].

Definition group_of (entries : list Entry) (g : grouped) : Prop :=
  (∀ name, wanted g name = doc_values entries name)
  ∧ (∀ name, name ∈ g_unset g ↔ asks_unset entries name)
  ∧ (∀ name, name ∈ g_order g ↔ mentioned entries name)
  ∧ NoDup (g_order g).

Lemma order_snoc (l : list string) name :
  NoDup l → let l' := if decide (name ∈ l) then l else l ++ [name] in
  NoDup l' ∧ ∀ n, n ∈ l' ↔ n ∈ l ∨ n = name.
Proof.
  intros Hl. cbv zeta. case_decide as Hn; split.
  - done.
  - naive_solver.
  - apply NoDup_app. split; [done|]. split; [|apply NoDup_singleton].
    by intros x Hx ->%list_elem_of_singleton.
  - intros n. by rewrite elem_of_app, list_elem_of_singleton.
Qed.

Lemma group_step_blank g e : entry_name e = "" → group_step cat g e = Ok g.
Proof. intros E. unfold group_step. cbv zeta. by rewrite decide_True. Qed.

Lemma group_of_blank entries e g : entry_name e = "" → group_of (entries ++ [e]) g ↔ group_of entries g.
Proof.
  intros E. unfold group_of. setoid_rewrite doc_values_snoc. setoid_rewrite asks_unset_snoc.
  setoid_rewrite mentioned_snoc. rewrite E.
  assert (∀ name, (if decide (name ≠ "" ∧ "" = name ∧ e_unset e = false) then [e_values e] else []) = []) as Hd
    by (intros; rewrite decide_False; naive_solver). setoid_rewrite Hd. setoid_rewrite app_nil_r.
  assert (∀ name (P Q : Prop), (P ∨ name ≠ "" ∧ "" = name ∧ Q) ↔ P) as Ho by naive_solver.
  assert (∀ name (P : Prop), (P ∨ name ≠ "" ∧ "" = name) ↔ P) as Ho' by naive_solver.
  setoid_rewrite Ho. setoid_rewrite Ho'. done.
Qed.

Lemma wanted_delete g u o name n : wanted (mkGrouped (delete name (g_desired g)) u o) n = if decide (n = name) then [] else wanted g n.
Proof.
  unfold wanted. simpl. case_decide; [subst; by rewrite lookup_delete_eq|by rewrite lookup_delete_ne].
Qed.

Lemma wanted_insert g u o name v n :
  wanted (mkGrouped (<[name := v]> (g_desired g)) u o) n = if decide (n = name) then v else wanted g n.
Proof.
  unfold wanted. simpl. case_decide; [subst; by rewrite lookup_insert_eq|by rewrite lookup_insert_ne].
Qed.

Lemma group_step_ok entries g e g' :
  entry_name e ≠ "" → entries_ok entries → group_of entries g → group_step cat g e = Ok g' →
  entries_ok (entries ++ [e]) ∧ group_of (entries ++ [e]) g'.
Proof.
  intros Hne [Hm Hc] (Hw & Hu & Ho & Hnd) Hstep. unfold group_step in Hstep. cbv zeta in Hstep.
  rewrite decide_False in Hstep by done. destruct (managedMap cat !! entry_name e) as [spec|] eqn:Em; [|done].
  destruct (order_snoc (g_order g) (entry_name e) Hnd) as [Hnd' Ho'].
  assert (∀ x, x ∈ entries ++ [e] → entry_name x = "" ∨ is_Some (managedMap cat !! entry_name x)) as Hm'.
  { intros x [Hx| ->%list_elem_of_singleton]%elem_of_app; [by apply Hm|]. right. by exists spec. }
  assert (∀ name, name ∈ (if decide (entry_name e ∈ g_order g) then g_order g else g_order g ++ [entry_name e])
    ↔ mentioned (entries ++ [e]) name) as Hord.
  { intros name. rewrite Ho', Ho, mentioned_snoc. naive_solver. }
  unfold entries_ok, group_of. setoid_rewrite doc_values_snoc. setoid_rewrite asks_unset_snoc.
  destruct (e_unset e) eqn:Eu.
  - destruct (decide (wanted g (entry_name e) ≠ [])) as [|Hnil]; [done|]. injection Hstep as <-.
    apply dec_stable in Hnil. rewrite Hw in Hnil.
    assert (∀ name, (if decide (name ≠ "" ∧ entry_name e = name ∧ true = false) then [e_values e] else []) = []) as Hd
      by (intros; rewrite decide_False; naive_solver). setoid_rewrite Hd. setoid_rewrite app_nil_r.
    split; [split; [done|]; intros name [Hn|(_ & <- & _)]; [by apply Hc|done]|].
    split; [|split; [|by split]].
    + intros name. rewrite wanted_delete. destruct (decide (name = entry_name e)) as [->|]; [by rewrite Hnil|apply Hw].
    + intros name. cbn [g_unset]. rewrite elem_of_union, elem_of_singleton, Hu. naive_solver.
  - destruct (decide (entry_name e ∈ g_unset g)) as [|Hnu]; [done|]. injection Hstep as <-. rewrite Hu in Hnu.
    split; [split; [done|]|split; [|split; [|by split]]].
    + intros name [Hn|(_ & _ & [=])]. rewrite decide_False, app_nil_r by naive_solver. by apply Hc.
    + intros name. rewrite wanted_insert, Hw. destruct (decide (name = entry_name e)) as [->|Hd].
      * by rewrite decide_True.
      * rewrite decide_False by naive_solver. by rewrite app_nil_r.
    + intros name. cbn [g_unset]. rewrite Hu. naive_solver.
Qed.

Lemma group_ok entries g : group cat entries = Ok g → entries_ok entries ∧ group_of entries g.
Proof.
  unfold group. revert g. induction entries as [|e entries IH] using rev_ind; intros g Hg.
  { injection Hg as <-. split; [split; [intros e He; by apply elem_of_nil in He|done]|].
    split; [done|]. split; [intros name; split; [set_solver|intros (_ & e & He & _); by apply elem_of_nil in He]|].
    split; [|constructor]. intros name. split; [set_solver|intros (_ & e & He & _); by apply elem_of_nil in He]. }
  rewrite fold_result_snoc in Hg. apply result_bind_ok in Hg as (g0 & Hg0 & Hstep).
  destruct (IH _ Hg0) as [[Hm Hc] Hof]. clear IH Hg0.
  destruct (decide (entry_name e = "")) as [E|E].
  { rewrite group_step_blank in Hstep by done. injection Hstep as <-. split; [|by apply group_of_blank].
    split; [intros x [Hx| ->%list_elem_of_singleton]%elem_of_app; auto|]. intros name.
    rewrite asks_unset_snoc, doc_values_snoc, decide_False by naive_solver. rewrite app_nil_r. naive_solver. }
  by eapply group_step_ok.
Qed.

(** A document that is fine is grouped without an error. *)
Lemma group_total entries : entries_ok entries → is_ok (group cat entries) = true.
Proof.
  unfold group. induction entries as [|e entries IH] using rev_ind; intros [Hm Hc]; [done|].
  assert (entries_ok entries) as Hok.
  { split; [intros x Hx; apply Hm, elem_of_app; by left|]. intros name Hn.
    specialize (Hc name). rewrite asks_unset_snoc, doc_values_snoc in Hc.
    by apply app_nil in Hc as [-> _]; [|left]. }
  specialize (IH Hok). rewrite fold_result_snoc.
  destruct (fold_result _ _ entries) as [g|] eqn:Eg; [|done]. simpl.
  destruct (group_ok entries g Eg) as [_ (Hw & Hu & _)]. unfold group_step. cbv zeta.
  destruct (decide (entry_name e = "")) as [|Hne]; [done|].
  destruct (Hm e) as [|[spec ->]]; [apply elem_of_app; right; by apply list_elem_of_singleton|done|].
  specialize (Hc (entry_name e)). rewrite asks_unset_snoc, doc_values_snoc, <-Hw, <-Hu in Hc.
  destruct (e_unset e) eqn:Eu.
  - destruct (decide (wanted g (entry_name e) ≠ [])) as [Hd|]; [|done]. exfalso. apply Hd.
    rewrite decide_False, app_nil_r in Hc by naive_solver. apply Hc. by right.
  - destruct (decide (entry_name e ∈ g_unset g)) as [Hd|]; [|done]. exfalso.
    rewrite decide_True in Hc by done. apply (app_cons_not_nil (wanted g (entry_name e)) [] (e_values e)).
    symmetry. apply Hc. by left.
Qed.
End grouping.

(** ** Editing the existing lines *)
Section omap_lemmas.
Context {A B : Type} (f : A → option B).

Lemma omap_pointwise l want : (∀ k x, l !! k = Some x → f x = want !! k) → omap f l = take (length l) want.
Proof.
  revert want. induction l as [|x l IH]; intros want H; [done|]. cbn [omap list_omap].
  destruct want as [|w want].
  - rewrite (H 0 x) by done. cbn. rewrite (IH []), take_nil; [done|]. intros k y Hy. by rewrite (H (S k) y).
  - rewrite (H 0 x) by done. simpl. f_equal. apply IH. intros k y Hy. by rewrite (H (S k) y).
Qed.

End omap_lemmas.

(** The edit of one item: [None] removes it. *)
Definition edit_at (x : edits) (i : nat) (it : Item) : option Item :=
  if decide (i ∈ x_remove x) then None else Some (default it (x_rewrite x !! i)).

Definition edit_note (d : nat → Item → option Item) (x : nat * option string * Item) : option (option string * Item) :=
  match d x.1.1 x.2 with Some it => Some (x.1.2, it) | None => None end.

(** An edit is local when it only removes or revalues settings. *)
Definition local_edit (d : nat → Item → option Item) (x : nat * option string * Item) : Prop :=
  match d x.1.1 x.2 with
  | Some it' => it' = x.2 ∨ (is_Some x.1.2 ∧ it_kind it' = it_kind x.2 ∧ it_key it' = it_key x.2)
  | None => is_Some x.1.2
  end.

Lemma notes_edit managed d w i items :
  (∀ x, x ∈ annot managed w i items → local_edit d x) →
  notes managed w (omap (λ '(j, it), d j it) (imap (λ j it, (i + j, it)) items)) =
    omap (edit_note d) (annot managed w i items).
Proof.
  revert w i. induction items as [|it items IH]; intros w i H; [done|].
  rewrite imap_cons. replace (i + 0) with i by lia.
  rewrite (imap_ext _ (λ j it, (S i + j, it))) by (intros; simpl; f_equal; lia).
  cbn [omap list_omap annot]. unfold edit_note at 1. cbn [fst snd].
  assert (∀ x, x ∈ annot managed (walk_step w it) (S i) items → local_edit d x) as Hrest
    by (intros x Hx; apply H; by right).
  specialize (H (i, owner managed w it, it) (list_elem_of_here _ _)). unfold local_edit in H. cbn [fst snd] in H.
  destruct (d i it) as [it'|]; cbv beta iota.
  - rewrite notes_cons. destruct H as [->|([name Hn] & Hk & Hkey)]; [by rewrite IH|].
    pose proof (owner_key managed w it it' Hk Hkey) as Ho. rewrite Ho.
    rewrite Hn in Ho. rewrite (owner_walk _ _ _ _ Ho). rewrite (owner_walk _ _ _ _ Hn) in Hrest |- *.
    by rewrite <-IH.
  - destruct H as [name Hn]. rewrite (owner_walk _ _ _ _ Hn) in Hrest |- *. by rewrite <-IH.
Qed.

(** The occurrences of a directive as a part of the annotation. *)
Definition owned_by (managed : gmap string DirectiveSpec) (items : list Item) (name : string) :=
  filter (λ x, x.1.2 = Some name) (annot managed walk_start 0 items).

Lemma occ_owned managed items name :
  occ_of (analyse items managed) name = (λ x, mkOcc x.1.1 (it_values x.2)) <$> owned_by managed items name.
Proof.
  rewrite analyse_occ. unfold owned_by. induction (annot managed walk_start 0 items) as [|x l IH]; [done|].
  rewrite filter_cons. cbn [omap list_omap]. unfold occ_sel at 1. destruct (decide (x.1.2 = Some name)); [|done].
  by rewrite fmap_cons, IH.
Qed.

Lemma annot_index managed w i items : (λ x, x.1.1) <$> annot managed w i items = seq i (length items).
Proof. revert w i. induction items as [|it items IH]; intros w i; [done|]. simpl. f_equal. apply IH. Qed.

Lemma occ_index_NoDup managed items name : NoDup (o_index <$> occ_of (analyse items managed) name).
Proof.
  rewrite occ_owned, <-list_fmap_compose. unfold owned_by.
  apply (sublist_NoDup _ ((λ x, x.1.1) <$> annot managed walk_start 0 items)).
  - rewrite annot_index. apply NoDup_seq.
  - apply (fmap_sublist (λ x, x.1.1)). apply sublist_filter.
Qed.

Lemma note_values_edit name d l :
  note_values name (omap (edit_note d) l) =
    omap (λ x, it_values <$> d x.1.1 x.2) (filter (λ x, x.1.2 = Some name) l).
Proof.
  unfold note_values. induction l as [|x l IH]; [done|]. rewrite filter_cons. cbn [omap list_omap].
  unfold edit_note at 1. destruct (decide (x.1.2 = Some name)) as [E|E].
  - cbn [omap list_omap]. destruct (d x.1.1 x.2); cbv beta iota; [|exact IH]. rewrite filter_cons_True by done.
    rewrite fmap_cons, IH. done.
  - destruct (d x.1.1 x.2); cbv beta iota; [|exact IH]. by rewrite filter_cons_False.
Qed.

Lemma notes_outside_edit names d l :
  (∀ x, x ∈ l → outside names x.1.2 = true → d x.1.1 x.2 = Some x.2) →
  notes_outside names (omap (edit_note d) l) = notes_outside names (owned <$> l).
Proof.
  unfold notes_outside. induction l as [|x l IH]; intros H; [done|]. cbn [omap list_omap]. rewrite fmap_cons.
  assert (∀ y, y ∈ l → outside names y.1.2 = true → d y.1.1 y.2 = Some y.2) as Hl by (intros y Hy; apply H; by right).
  specialize (IH Hl). unfold edit_note at 1. destruct (outside names x.1.2) eqn:E.
  - rewrite (H x) by (done || by left). cbv beta iota. rewrite !filter_cons_True by done. by rewrite !fmap_cons, IH.
  - rewrite (filter_cons_False _ (owned x)) by (cbn; by rewrite E).
    destruct (d x.1.1 x.2); cbv beta iota; [|exact IH]. by rewrite filter_cons_False by (cbn; by rewrite E).
Qed.

Section editing.
Context {C : Type} `{SettingsCatalog C} (cat : C) (items : list Item) (g : grouped).
Let occs (name : string) : list occurrence := occ_of (analyse items (managedMap cat)) name.

Lemma rewrites_cons name o occ w want :
  rewrites cat items name (o :: occ) (w :: want) =
    match (if equalValues (o_values o) w then None
           else (λ it, (o_index o, rewritten (spec_name_of cat name) it w)) <$> items !! o_index o) with
    | Some x => x :: rewrites cat items name occ want
    | None => rewrites cat items name occ want
    end.
Proof. done. Qed.

Lemma rewrites_keys name occ want x :
  x ∈ rewrites cat items name occ want →
  ∃ o, o ∈ occ ∧ o_index o = x.1 ∧ it_kind x.2 = default ItemComment (it_kind <$> items !! x.1)
    ∧ it_key x.2 = default "" (it_key <$> items !! x.1).
Proof.
  revert want. induction occ as [|o occ IH]; intros want Hx; [by apply elem_of_nil in Hx|].
  destruct want as [|w want]; [by apply elem_of_nil in Hx|]. rewrite rewrites_cons in Hx.
  assert (x ∈ rewrites cat items name occ want → ∃ o0, o0 ∈ o :: occ ∧ o_index o0 = x.1
    ∧ it_kind x.2 = default ItemComment (it_kind <$> items !! x.1)
    ∧ it_key x.2 = default "" (it_key <$> items !! x.1)) as Hrest.
  { intros Hr. destruct (IH _ Hr) as (o' & ? & ?). exists o'. split; [by right|done]. }
  destruct (equalValues _ _); [by apply Hrest|].
  destruct (items !! o_index o) as [it|] eqn:E; [|by apply Hrest].
  apply elem_of_cons in Hx as [->|Hx]; [|by apply Hrest]. exists o. cbn [fst snd]. rewrite E. by split; [left|].
Qed.

(** The line of the [k]th occurrence after the rewrites. *)
Lemma rewrites_lookup name occ want k o w it :
  NoDup (o_index <$> occ) → occ !! k = Some o → want !! k = Some w → items !! o_index o = Some it →
  (list_to_map (rewrites cat items name occ want) : gmap nat Item) !! o_index o =
    if equalValues (o_values o) w then None else Some (rewritten (spec_name_of cat name) it w).
Proof.
  revert want k. induction occ as [|o' occ IH]; intros [|w' want] [|k] Hnd Ho Hw Hit; try done; simpl in Ho, Hw.
  - injection Ho as ->. injection Hw as ->. rewrite fmap_cons in Hnd. apply NoDup_cons in Hnd as [Hnot _].
    rewrite rewrites_cons, Hit. destruct (equalValues _ _); simpl; [|by rewrite lookup_insert_eq].
    apply not_elem_of_list_to_map_1. intros ([i x] & Hi & Hx)%list_elem_of_fmap. simpl in Hi. subst.
    apply rewrites_keys in Hx as (o2 & Ho2 & Heq & _). simpl in Heq. apply Hnot. rewrite <-Heq. by apply list_elem_of_fmap_2.
  - rewrite fmap_cons in Hnd. apply NoDup_cons in Hnd as [Hnot Hnd]. rewrite rewrites_cons.
    assert (o_index o' ≠ o_index o).
    { intros Heq. apply Hnot. rewrite Heq. apply list_elem_of_fmap_2. by eapply list_elem_of_lookup_2. }
    destruct (equalValues (o_values o') w'); [by eapply IH|].
    destruct (items !! o_index o'); simpl; [rewrite lookup_insert_ne by done|]; by eapply IH.
Qed.

(** What the loop over the document does for one directive. *)
Definition plan_changed (name : string) : bool :=
  negb (bool_decide (o_values <$> occs name = wanted g name)).
Definition plan_remove (name : string) : gset nat :=
  if plan_changed name then list_to_set (o_index <$> drop (length (wanted g name)) (occs name)) else ∅.
Definition plan_rewrite (name : string) : gmap nat Item :=
  if plan_changed name then list_to_map (rewrites cat items name (occs name) (wanted g name)) else ∅.
Definition once_ok (name : string) : Prop := length (wanted g name) ≤ 1 ∨ is_many cat name = true.
#[local] Instance once_ok_dec name : Decision (once_ok name).
Proof. unfold once_ok. apply _. Defined.

Context (Hunset : ∀ name, name ∈ g_unset g → wanted g name = []).

Lemma edit_step_plan x name :
  edit_step cat items (analyse items (managedMap cat)) g x name =
    if decide (once_ok name) then
      Ok (mkEdits (if plan_changed name then {[name]} ∪ x_changed x else x_changed x)
            (plan_remove name ∪ x_remove x) (plan_rewrite name ∪ x_rewrite x))
    else Err (ErrOnlyOnce (spec_name_of cat name)).
Proof.
  unfold edit_step. cbv zeta. fold (occs name).
  destruct (decide (name ∈ g_unset g)) as [Hu|Hu].
  - pose proof (Hunset name Hu) as Hw. rewrite decide_True by (left; rewrite Hw; simpl; lia).
    unfold plan_changed, plan_remove, plan_rewrite, plan_changed. rewrite Hw. simpl. rewrite drop_0.
    destruct (occs name) as [|o occ] eqn:E; simpl.
    + rewrite !(left_id_L ∅ (∪)). by destruct x.
    + f_equal. f_equal. by rewrite (left_id_L ∅ (∪)).
  - assert (negb ((1 <? length (wanted g name)) && negb (is_many cat name)) = bool_decide (once_ok name)) as ->.
    { symmetry. destruct (Nat.ltb_spec 1 (length (wanted g name))) as [Hl|Hl]; [destruct (is_many cat name) eqn:Em|]; simpl;
      rewrite ?bool_decide_eq_true, ?bool_decide_eq_false; unfold once_ok; rewrite ?Em; naive_solver lia. }
    case_bool_decide as Ho; [rewrite decide_True by done|by rewrite decide_False].
    unfold plan_changed, plan_remove, plan_rewrite, plan_changed, equalOccurrences.
    destruct (bool_decide (o_values <$> occs name = wanted g name)); simpl; [|done].
    rewrite !(left_id_L ∅ (∪)). by destruct x.
Qed.

Definition edited_by (order : list string) (x : edits) : Prop :=
  (∀ n, n ∈ order → once_ok n)
  ∧ (∀ n, n ∈ x_changed x ↔ n ∈ order ∧ plan_changed n = true)
  ∧ (∀ i, i ∈ x_remove x ↔ ∃ n, n ∈ order ∧ i ∈ plan_remove n)
  ∧ (∀ i n0, (∀ n, n ≠ n0 → plan_rewrite n !! i = None) →
      x_rewrite x !! i = if decide (n0 ∈ order) then plan_rewrite n0 !! i else None).

Lemma fold_edit order x :
  fold_result (edit_step cat items (analyse items (managedMap cat)) g) (mkEdits ∅ ∅ ∅) order = Ok x →
  edited_by order x.
Proof.
  revert x. induction order as [|name order IH] using rev_ind; intros x Hx.
  { injection Hx as <-. unfold edited_by. simpl.
    split; [set_solver|]. split; [set_solver|]. split; [|done]. intros i. split; [set_solver|]. by intros (n & Hn%elem_of_nil & _). }
  rewrite fold_result_snoc in Hx. apply result_bind_ok in Hx as (x0 & Hx0 & Hx).
  destruct (IH _ Hx0) as (Ho & Hc & Hr & Hw). clear IH Hx0. rewrite edit_step_plan in Hx.
  destruct (decide (once_ok name)) as [Honce|]; [|done]. injection Hx as <-. unfold edited_by. simpl.
  assert (∀ n, n ∈ order ++ [name] ↔ n ∈ order ∨ n = name) as Hin
    by (intros; by rewrite elem_of_app, list_elem_of_singleton).
  split; [intros n [Hn| ->]%Hin; auto|]. split; [|split].
  - intros n. rewrite Hin. destruct (plan_changed name) eqn:E; rewrite ?elem_of_union, ?elem_of_singleton, Hc; clear -E.
    + split; [intros [->|[? ?]]; auto|intros [[?| ->] ?]; auto].
    + split; [intros [? ?]; auto|intros [[?| ->] ?]; [done|congruence]].
  - intros i. rewrite elem_of_union, Hr. setoid_rewrite Hin. clear. split.
    + intros [Hi|(n & Hn & Hi)]; [exists name; auto|exists n; auto].
    + intros (n & [Hn| ->] & Hi); [right; by exists n|by left].
  - intros i n0 Hn0. specialize (Hw i n0 Hn0). rewrite lookup_union, Hw.
    destruct (decide (name = n0)) as [->|Hne].
    + rewrite (decide_True (P := n0 ∈ order ++ [n0])) by (apply Hin; by right).
      case_decide; by destruct (plan_rewrite n0 !! i).
    + rewrite (Hn0 name Hne), (left_id_L None (∪)). apply decide_ext. rewrite Hin. clear -Hne. split; [auto|by intros [?| ->]].
Qed.

Lemma fold_edit_total order :
  (∀ n, n ∈ order → once_ok n) →
  is_ok (fold_result (edit_step cat items (analyse items (managedMap cat)) g) (mkEdits ∅ ∅ ∅) order) = true.
Proof.
  induction order as [|name order IH] using rev_ind; intros Ho; [done|]. rewrite fold_result_snoc.
  destruct (fold_result _ _ order) as [x0|] eqn:E.
  - simpl. rewrite edit_step_plan, decide_True; [done|]. apply Ho, elem_of_app. right. by apply list_elem_of_singleton.
  - apply IH. intros n Hn. apply Ho, elem_of_app. by left.
Qed.

(** *** The edits at a setting *)
Lemma occs_lookup name k x :
  owned_by (managedMap cat) items name !! k = Some x →
  occs name !! k = Some (mkOcc x.1.1 (it_values x.2)) ∧ items !! x.1.1 = Some x.2
  ∧ annot (managedMap cat) walk_start 0 items !! x.1.1 = Some x ∧ x.1.2 = Some name.
Proof.
  intros Hk. unfold occs. rewrite occ_owned, list_lookup_fmap, Hk. split; [done|].
  apply list_elem_of_lookup_2, list_elem_of_filter in Hk as [Ho Hx].
  apply list_elem_of_lookup_1 in Hx as [j Hj]. destruct (annot_lookup _ _ _ _ _ _ Hj) as [Hi Hit].
  simpl in Hi. by subst j.
Qed.

Lemma occs_owner name o i : o ∈ occs name → o_index o = i →
  ∃ x, annot (managedMap cat) walk_start 0 items !! i = Some x ∧ x.1.2 = Some name.
Proof.
  intros [k Hk]%list_elem_of_lookup_1 <-. unfold occs in Hk. rewrite occ_owned, list_lookup_fmap in Hk.
  destruct (owned_by (managedMap cat) items name !! k) as [x|] eqn:E; [|done]. injection Hk as <-.
  destruct (occs_lookup _ _ _ E) as (_ & _ & Ha & Hn). by exists x.
Qed.

Lemma plan_remove_owner name i : i ∈ plan_remove name →
  ∃ x, annot (managedMap cat) walk_start 0 items !! i = Some x ∧ x.1.2 = Some name.
Proof.
  unfold plan_remove. destruct (plan_changed name); [|set_solver].
  intros (o & Ho & Hin)%elem_of_list_to_set%list_elem_of_fmap.
  apply (occs_owner name o i); [|done]. eapply elem_of_submseteq; [exact Hin|]. apply sublist_submseteq, sublist_drop.
Qed.

Lemma plan_rewrite_owner name i it' : plan_rewrite name !! i = Some it' →
  ∃ x, annot (managedMap cat) walk_start 0 items !! i = Some x ∧ x.1.2 = Some name
    ∧ it_kind it' = it_kind x.2 ∧ it_key it' = it_key x.2.
Proof.
  unfold plan_rewrite. destruct (plan_changed name); [|done].
  intros Hi%elem_of_list_to_map_2. apply rewrites_keys in Hi as (o & Ho & Heq & Hk & Hkey). cbn [fst snd] in *.
  destruct (occs_owner name o i Ho Heq) as (x & Hx & Hn). exists x.
  destruct (annot_lookup _ _ _ _ _ _ Hx) as [_ Hit]. rewrite Hit in Hk, Hkey. by repeat split.
Qed.

Lemma plan_rewrite_other i x name n :
  annot (managedMap cat) walk_start 0 items !! i = Some x → x.1.2 = Some name → n ≠ name → plan_rewrite n !! i = None.
Proof.
  intros Hx Hn Hne. destruct (plan_rewrite n !! i) as [it'|] eqn:E; [|done].
  apply plan_rewrite_owner in E as (x' & Hx' & Hn' & _). congruence.
Qed.
(** *** The edited file *)
Context (order : list string) (x : edits) (Hx : edited_by order x).

Lemma edit_at_owned y name :
  annot (managedMap cat) walk_start 0 items !! y.1.1 = Some y → y.1.2 = Some name →
  edit_at x y.1.1 y.2 =
    if decide (name ∈ order) then
      if decide (y.1.1 ∈ plan_remove name) then None else Some (default y.2 (plan_rewrite name !! y.1.1))
    else Some y.2.
Proof.
  intros Hy Hn. destruct Hx as (_ & _ & Hr & Hw). unfold edit_at.
  rewrite (Hw y.1.1 name) by (intros; by eapply plan_rewrite_other).
  assert (y.1.1 ∈ x_remove x ↔ name ∈ order ∧ y.1.1 ∈ plan_remove name) as Hiff.
  { rewrite Hr. split; [|intros [? ?]; by exists name]. intros (n & Hno & Hin).
    destruct (plan_remove_owner _ _ Hin) as (y' & Hy' & Hn'). assert (n = name) as -> by congruence. done. }
  destruct (decide (name ∈ order)) as [Ho|Ho].
  - destruct (decide (y.1.1 ∈ plan_remove name)); [rewrite decide_True by tauto|rewrite decide_False by tauto]; done.
  - by rewrite decide_False by tauto.
Qed.

Lemma edit_at_free y :
  annot (managedMap cat) walk_start 0 items !! y.1.1 = Some y → y.1.2 = None → edit_at x y.1.1 y.2 = Some y.2.
Proof.
  intros Hy Hn. destruct Hx as (_ & _ & Hr & Hw). unfold edit_at.
  assert (∀ n, plan_rewrite n !! y.1.1 = None) as Hnone.
  { intros n. destruct (plan_rewrite n !! y.1.1) eqn:E; [|done].
    apply plan_rewrite_owner in E as (y' & Hy' & Hn' & _). congruence. }
  rewrite (Hw y.1.1 "") by done. rewrite Hnone, decide_False; [by case_decide|].
  intros (n & _ & Hin)%Hr. apply plan_remove_owner in Hin as (y' & Hy' & Hn'). congruence.
Qed.

Lemma annot_self y : y ∈ annot (managedMap cat) walk_start 0 items → annot (managedMap cat) walk_start 0 items !! y.1.1 = Some y.
Proof. intros [k Hk]%list_elem_of_lookup_1. destruct (annot_lookup _ _ _ _ _ _ Hk) as [Hi _]. simpl in Hi. by rewrite Hi. Qed.

Lemma edits_local y : y ∈ annot (managedMap cat) walk_start 0 items → local_edit (edit_at x) y.
Proof.
  intros Hy%annot_self. unfold local_edit. destruct y.1.2 as [name|] eqn:Hn.
  - rewrite (edit_at_owned y name Hy Hn). destruct (decide (name ∈ order)); [|by left].
    destruct (decide (y.1.1 ∈ plan_remove name)); [by exists name|].
    destruct (plan_rewrite name !! y.1.1) as [it'|] eqn:E; [|by left]. right.
    apply plan_rewrite_owner in E as (y' & Hy' & _ & Hk & Hkey). simplify_eq. by split; [exists name|].
  - rewrite (edit_at_free y Hy Hn). by left.
Qed.

Lemma notes_apply_edits :
  notes (managedMap cat) walk_start (apply_edits items x) =
    omap (edit_note (edit_at x)) (annot (managedMap cat) walk_start 0 items).
Proof. exact (notes_edit (managedMap cat) (edit_at x) walk_start 0 items edits_local). Qed.

(** The occurrences of a mentioned directive get the first values wanted. *)
Lemma plan_value name k y :
  name ∈ order → owned_by (managedMap cat) items name !! k = Some y →
  it_values <$> edit_at x y.1.1 y.2 = wanted g name !! k.
Proof.
  intros Ho Hk. destruct (occs_lookup name k y Hk) as (Hocc & Hit & Ha & Hn).
  rewrite (edit_at_owned y name Ha Hn), decide_True by done. unfold plan_remove, plan_rewrite.
  destruct (plan_changed name) eqn:Ec.
  - assert (y.1.1 ∈ (list_to_set (o_index <$> drop (length (wanted g name)) (occs name)) : gset nat)
      ↔ length (wanted g name) ≤ k) as Hdrop.
    { rewrite elem_of_list_to_set, list_elem_of_fmap. split.
      - intros (o & Heq & [j Hj]%list_elem_of_lookup_1). rewrite lookup_drop in Hj.
        assert (k = length (wanted g name) + j); [|lia].
        apply (NoDup_lookup (o_index <$> occs name) k (length (wanted g name) + j) y.1.1);
          [apply occ_index_NoDup|rewrite list_lookup_fmap..];
          [by rewrite Hocc|by rewrite Hj, Heq].
      - intros Hle. exists (mkOcc y.1.1 (it_values y.2)). split; [done|].
        apply (list_elem_of_lookup_2 _ (k - length (wanted g name))). rewrite lookup_drop, <-Hocc. f_equal. lia. }
    destruct (decide (_ ∈ _)) as [Hin|Hin]; rewrite Hdrop in Hin; [by rewrite lookup_ge_None_2|].
    destruct (lookup_lt_is_Some_2 (wanted g name) k) as [w Hw]; [lia|]. rewrite Hw.
    pose proof (rewrites_lookup name (occs name) (wanted g name) k _ w y.2
      (occ_index_NoDup (managedMap cat) items name) Hocc Hw Hit) as Hl. cbn [o_index o_values] in Hl. rewrite Hl.
    destruct (equalValues (it_values y.2) w) eqn:E; [|done]. unfold equalValues in E. bool_hyps. simpl. by rewrite E.
  - unfold plan_changed in Ec. bool_hyps. rewrite decide_False by set_solver. simpl.
    rewrite <-Ec, list_lookup_fmap, Hocc. done.
Qed.

Lemma edited_values name : name ∈ order →
  note_values name (notes (managedMap cat) walk_start (apply_edits items x)) =
    take (length (occs name)) (wanted g name).
Proof.
  intros Ho. rewrite notes_apply_edits, note_values_edit. unfold occs. rewrite occ_owned, length_fmap.
  apply omap_pointwise. intros k y Hk. by apply plan_value.
Qed.

(** A directive the document does not mention keeps its occurrences. *)
Lemma edited_kept name : name ∉ order →
  note_values name (notes (managedMap cat) walk_start (apply_edits items x)) =
    note_values name (notes (managedMap cat) walk_start items).
Proof.
  intros Ho. rewrite notes_apply_edits, note_values_edit, <-notes_values, occ_owned, <-list_fmap_compose.
  rewrite <-(firstn_all (_ <$> _)), length_fmap. apply omap_pointwise. intros k y Hk.
  destruct (occs_lookup name k y Hk) as (_ & _ & Ha & Hn).
  rewrite (edit_at_owned y name Ha Hn), decide_False by done. by rewrite list_lookup_fmap, Hk.
Qed.

Lemma edited_outside names :
  (∀ n, n ∈ order → plan_changed n = true → n ∈ names) →
  notes_outside names (notes (managedMap cat) walk_start (apply_edits items x)) =
    notes_outside names (notes (managedMap cat) walk_start items).
Proof.
  intros Hnames. rewrite notes_apply_edits. apply notes_outside_edit. intros y Hy%annot_self Hout.
  destruct y.1.2 as [n|] eqn:Hn; [|by apply edit_at_free]. rewrite (edit_at_owned y n Hy Hn).
  case_decide as Ho; [|done]. unfold plan_remove, plan_rewrite.
  destruct (plan_changed n) eqn:Ec; [|rewrite decide_False by set_solver; done].
  simpl in Hout. bool_hyps. by specialize (Hnames n Ho Ec).
Qed.
End editing.

(** ** Adding lines *)
Definition neutral (it : Item) : Prop := ∀ w, walk_step w it = w.
Definition blocks_start (items : list Item) : Prop :=
  ∀ it, head (filter structural items) = Some it → it_kind it = ItemBlockOpen.

Lemma block_run_start items b : block_run false items = Some b → blocks_start items.
Proof.
  intros H it Hit. revert H. induction items as [|x items IH]; [done|]. simpl. rewrite filter_cons in Hit.
  unfold block_step. destruct (decide (structural x)) as [Hs|Hs].
  - injection Hit as ->. by destruct Hs as [->| ->].
  - destruct (it_kind x) eqn:E; simpl; try (by apply IH); destruct Hs; unfold structural; auto.
Qed.

Lemma blocks_start_cons it items :
  it_kind it ≠ ItemBlockOpen → blocks_start (it :: items) → it_kind it ≠ ItemBlockClose ∧ blocks_start items.
Proof.
  unfold blocks_start. rewrite filter_cons. intros Ho H. destruct (decide (structural it)) as [Hs|Hs].
  - specialize (H it eq_refl). done.
  - split; [|done]. intros E. apply Hs. by right.
Qed.

Lemma insertion_go_spec items i next :
  blocks_start items →
  insertion_go items i next = next
  ∨ ∃ m, insertion_go items i next = i + m ∧ m ≤ length items ∧ Forall neutral (take m items).
Proof.
  revert i next. induction items as [|it items IH]; intros i next Hs; [by left|]. simpl.
  destruct (decide (it_kind it = ItemBlockOpen)) as [E|E]; [rewrite E; by left|].
  destruct (blocks_start_cons it items E Hs) as [Hc Hs'].
  destruct (it_kind it) eqn:Ek; try done.
  - destruct (IH (S i) next Hs') as [->|(m & -> & Hm & Hn)]; [by left|]. right. exists (S m).
    split; [lia|]. split; [simpl; lia|]. simpl. constructor; [|done]. intros w. unfold walk_step. by rewrite Ek.
  - case_decide as Hd; [by left|]. right.
    assert (neutral it) as Hneu.
    { intros w. unfold walk_step. rewrite Ek. unfold isBlockDirective. rewrite bool_decide_false; [done|].
      intros Hin. apply Hd. set_solver. }
    destruct (IH (S i) (S i) Hs') as [->|(m & -> & Hm & Hn)].
    + exists 1. split; [lia|]. split; [simpl; lia|]. simpl. by repeat constructor.
    + exists (S m). split; [lia|]. split; [simpl; lia|]. simpl. by constructor.
Qed.

Lemma insertionIndex_spec items :
  blocks_start items → insertionIndex items ≤ length items ∧ foldl walk_step walk_start (take (insertionIndex items) items) = walk_start.
Proof.
  intros Hs. unfold insertionIndex. destruct (insertion_go_spec items 0 0 Hs) as [->|(m & -> & Hm & Hn)].
  - split; [lia|done].
  - split; [lia|]. simpl. clear -Hn. induction Hn as [|it l Hit Hl IH]; [done|]. simpl. by rewrite Hit.
Qed.

(** The first wanted values are kept, so adding the missing ones completes the list. *)
Lemma note_values_app name l1 l2 : note_values name (l1 ++ l2) = note_values name l1 ++ note_values name l2.
Proof. unfold note_values. by rewrite filter_app, fmap_app. Qed.

Lemma notes_outside_app names l1 l2 : notes_outside names (l1 ++ l2) = notes_outside names l1 ++ notes_outside names l2.
Proof. unfold notes_outside. by rewrite filter_app, fmap_app. Qed.

Lemma last_filter {A} (P : A → Prop) `{!∀ x, Decision (P x)} l x :
  last (filter P l) = Some x → ∃ l1 l2, l = l1 ++ x :: l2 ∧ P x ∧ filter P l2 = [].
Proof.
  induction l as [|y l IH] using rev_ind; intros Hl; [done|]. rewrite filter_app in Hl.
  destruct (decide (P y)) as [Hy|Hy].
  - rewrite (filter_cons_True _ _ _ Hy), filter_nil, last_snoc in Hl. injection Hl as ->. by exists l, [].
  - rewrite (filter_cons_False _ _ _ Hy), filter_nil, app_nil_r in Hl.
    destruct (IH Hl) as (l1 & l2 & -> & Hx & Hl2). exists l1, (l2 ++ [y]). rewrite <-app_assoc. repeat split; [done|].
    by rewrite filter_app, Hl2, (filter_cons_False _ _ _ Hy).
Qed.

Section adding.
Context {C : Type} `{SettingsCatalog C} (cat : C) (g : grouped).
Context (Hnames : names_ok (managedMap cat)).

Lemma insert_run name vs a b :
  foldl (λ '(its, pos) values, (insertItem its pos (added_item cat name values), S pos)) (a ++ b, length a) vs =
    (a ++ (added_item cat name <$> vs) ++ b, length a + length vs).
Proof.
  revert a. induction vs as [|v vs IH]; intros a; cbn [foldl]; [simpl; f_equal; lia|].
  assert (insertItem (a ++ b) (length a) (added_item cat name v) = (a ++ [added_item cat name v]) ++ b) as ->.
  { unfold insertItem. cbv zeta. rewrite Nat.min_l by (rewrite length_app; lia).
    by rewrite take_app_length, drop_app_length, <-app_assoc. }
  replace (S (length a)) with (length (a ++ [added_item cat name v])) by (rewrite length_app; simpl; lia).
  rewrite IH, <-!app_assoc, length_app. simpl. f_equal. lia.
Qed.

Lemma owner_added w name v :
  is_Some (managedMap cat !! name) → (∃ it, owner (managedMap cat) w it = Some name) ∨ w = walk_start →
  owner (managedMap cat) w (added_item cat name v) = Some name.
Proof.
  intros Hm Hw. destruct (Hnames name Hm) as [Hl Hb]. unfold owner. cbn [it_kind it_key added_item]. rewrite Hb, Hl.
  destruct Hm as [spec Hspec]. rewrite Hspec. destruct Hw as [[it Hit]| ->].
  - destruct (owner_managed _ _ _ _ Hit) as [_ Hkey]. unfold owner in Hit. destruct (it_kind it); try done.
    destruct (isBlockDirective (it_key it)); [done|]. rewrite <-Hkey, Hspec in Hit.
    destruct (0 <? w_depth w)%Z; [done|]. by destruct (_ && _).
  - cbn. by rewrite andb_false_r.
Qed.

Lemma notes_added w name vs :
  (∀ v, owner (managedMap cat) w (added_item cat name v) = Some name) →
  notes (managedMap cat) w (added_item cat name <$> vs) = (λ v, (Some name, added_item cat name v)) <$> vs
  ∧ foldl walk_step w (added_item cat name <$> vs) = w.
Proof.
  intros Hw. induction vs as [|v vs [IHn IHw]]; [done|]. rewrite !fmap_cons, notes_cons. cbn [foldl].
  rewrite (owner_walk _ _ _ _ (Hw v)), (Hw v). by rewrite IHn.
Qed.

(** The state of the walk where the missing values are added. *)
Lemma add_position items name :
  is_Some (managedMap cat !! name) → blocks_start items →
  let start := match last (occ_of (analyse items (managedMap cat)) name) with
               | Some o => o_index o + 1 | None => insertionIndex items end in
  start ≤ length items
  ∧ note_values name (notes (managedMap cat) (foldl walk_step walk_start (take start items)) (drop start items)) = []
  ∧ ∀ v, owner (managedMap cat) (foldl walk_step walk_start (take start items)) (added_item cat name v) = Some name.
Proof.
  intros Hm Hs. rewrite occ_owned. destruct (last (owned_by (managedMap cat) items name)) as [x|] eqn:E.
  - rewrite fmap_last, E. cbn [fmap option_fmap option_map o_index]. apply last_filter in E as (l1 & l2 & Hl & Hn & Hl2).
    assert (annot (managedMap cat) walk_start 0 items !! length l1 = Some x) as Hx
      by (rewrite Hl, lookup_app_r, Nat.sub_diag by lia; done).
    destruct (annot_lookup _ _ _ _ _ _ Hx) as [Hi Hit]. simpl in Hi. rewrite Hi in *.
    assert (items = take (length l1) items ++ x.2 :: drop (S (length l1)) items) as Hsplit by by rewrite take_drop_middle.
    assert (length (take (length l1) items) = length l1) as Hlen.
    { rewrite length_take_le; [done|]. apply lookup_lt_Some in Hit. lia. }
    replace (length l1 + 1) with (S (length l1)) by lia. rewrite (take_S_r _ _ _ Hit), foldl_app. cbn [foldl].
    set (w := foldl walk_step walk_start (take (length l1) items)).
    pose proof (f_equal (fmap owned) Hl) as Hnotes. fold (notes (managedMap cat) walk_start items) in Hnotes.
    rewrite Hsplit, notes_app, notes_cons, fmap_app, fmap_cons in Hnotes. fold w in Hnotes.
    apply app_inj_1 in Hnotes as [_ Hnotes]; [|unfold notes; rewrite !length_fmap; by rewrite annot_length, Hlen].
    injection Hnotes as Hown Hrest. rewrite Hn in Hown. rewrite (owner_walk _ _ _ _ Hown) in Hrest |- *.
    split; [apply lookup_lt_Some in Hit; lia|]. split; [|intros v; apply owner_added; [done|left; by exists x.2]].
    rewrite Hrest. unfold note_values. clear -Hl2. induction l2 as [|y l2 IH]; [done|].
    rewrite filter_cons in Hl2. destruct (decide _) as [|Hd]; [done|]. rewrite fmap_cons, filter_cons_False by done. by apply IH.
  - rewrite fmap_last, E. cbn [fmap option_fmap option_map]. apply last_None in E.
    destruct (insertionIndex_spec items Hs) as [Hle ->]. split; [done|].
    split; [|intros v; apply owner_added; [done|by right]].
    assert (note_values name (notes (managedMap cat) walk_start items) = []) as Hnone.
    { rewrite <-notes_values, occ_owned, E. done. }
    rewrite <-(take_drop (insertionIndex items) items), notes_app, note_values_app in Hnone.
    apply app_nil in Hnone as [_ Hnone]. destruct (insertionIndex_spec items Hs) as [_ Hw]. by rewrite Hw in Hnone.
Qed.

Lemma add_step_split items name :
  is_Some (managedMap cat !! name) → blocks_start items →
  let missing := drop (length (note_values name (notes (managedMap cat) walk_start items))) (wanted g name) in
  ∃ l1 l2, notes (managedMap cat) walk_start items = l1 ++ l2 ∧ note_values name l2 = []
    ∧ notes (managedMap cat) walk_start (add_step cat g items name) =
        l1 ++ ((λ v, (Some name, added_item cat name v)) <$> missing) ++ l2.
Proof.
  intros Hm Hs. cbv zeta. unfold add_step. cbv zeta. rewrite <-notes_values, length_fmap.
  destruct (Nat.leb_spec (length (wanted g name)) (length (occ_of (analyse items (managedMap cat)) name))) as [Hle|Hlt].
  { exists (notes (managedMap cat) walk_start items), []. rewrite drop_ge by done. by rewrite !app_nil_r. }
  destruct (add_position items name Hm Hs) as (Hle & Hnone & Hown). cbv zeta in *.
  set (start := match last _ with Some o => _ | None => _ end) in *.
  set (missing := drop _ _).
  pose proof (insert_run name missing (take start items) (drop start items)) as Hrun.
  rewrite take_drop, length_take_le in Hrun by done. rewrite Hrun. cbn [fst].
  destruct (notes_added _ name missing Hown) as [Hn Hw].
  exists (notes (managedMap cat) walk_start (take start items)), (notes (managedMap cat) (foldl walk_step walk_start (take start items)) (drop start items)).
  rewrite <-notes_app, take_drop. split; [done|]. split; [done|]. by rewrite !notes_app, Hw, Hn.
Qed.

Lemma note_values_added name n vs :
  note_values n ((λ v, (Some name, added_item cat name v)) <$> vs) = if decide (n = name) then vs else [].
Proof.
  unfold note_values. induction vs as [|v vs IH]; [by case_decide|]. rewrite fmap_cons, filter_cons. cbn [fst].
  destruct (decide (n = name)) as [->|Hne].
  - rewrite decide_True by done. by rewrite fmap_cons, IH.
  - rewrite decide_False by naive_solver. exact IH.
Qed.

Lemma add_step_values items name n :
  is_Some (managedMap cat !! name) → blocks_start items →
  let v := note_values n (notes (managedMap cat) walk_start items) in
  note_values n (notes (managedMap cat) walk_start (add_step cat g items name)) =
    if decide (n = name) then v ++ drop (length v) (wanted g name) else v.
Proof.
  intros Hm Hs. cbv zeta. destruct (add_step_split items name Hm Hs) as (l1 & l2 & Hl & Hl2 & ->).
  rewrite !note_values_app, note_values_added. rewrite Hl, !note_values_app.
  destruct (decide (n = name)) as [->|Hne]; [|done]. by rewrite Hl2, !app_nil_r.
Qed.

Lemma add_step_outside items name names :
  is_Some (managedMap cat !! name) → blocks_start items →
  name ∈ names ∨ length (wanted g name) ≤ length (note_values name (notes (managedMap cat) walk_start items)) →
  notes_outside names (notes (managedMap cat) walk_start (add_step cat g items name)) =
    notes_outside names (notes (managedMap cat) walk_start items).
Proof.
  intros Hm Hs Hin. destruct (add_step_split items name Hm Hs) as (l1 & l2 & Hl & Hl2 & ->). rewrite Hl.
  set (missing := drop _ _). rewrite !notes_outside_app. f_equal.
  assert (notes_outside names ((λ v, (Some name, added_item cat name v)) <$> missing) = []) as ->; [|done].
  destruct Hin as [Hin|Hle]; [|unfold missing; by rewrite <-Hl, drop_ge by done].
  unfold notes_outside. clear -Hin. induction missing as [|v vs IH]; [done|].
  rewrite fmap_cons, filter_cons_False; [exact IH|]. simpl. by rewrite bool_decide_true.
Qed.

Lemma structural_notes managed w items names :
  filter structural (notes_outside names (notes managed w items)) = filter structural items.
Proof.
  revert w. induction items as [|it items IH]; intros w; [done|]. rewrite notes_cons. unfold notes_outside in *.
  rewrite filter_cons, (filter_cons _ it). destruct (decide (structural it)) as [Hs|Hs].
  - assert (owner managed w it = None) as -> by (unfold owner; by destruct Hs as [->| ->]).
    rewrite decide_True by done. by rewrite fmap_cons, filter_cons_True, IH.
  - destruct (decide _); [|apply IH]. by rewrite fmap_cons, filter_cons_False, IH.
Qed.

Lemma blocks_start_outside managed names a b :
  notes_outside names (notes managed walk_start a) = notes_outside names (notes managed walk_start b) →
  blocks_start b → blocks_start a.
Proof.
  intros Hn. unfold blocks_start. by rewrite <-(structural_notes managed walk_start a names), Hn, structural_notes.
Qed.

(** All additions: every mentioned directive gets the rest of its values. *)
Lemma add_all_values order items :
  (∀ n, n ∈ order → is_Some (managedMap cat !! n)) → blocks_start items →
  (∀ n, n ∈ order → ∃ k, note_values n (notes (managedMap cat) walk_start items) = take k (wanted g n)) →
  let items' := foldl (add_step cat g) items order in
  (∀ n, note_values n (notes (managedMap cat) walk_start items') =
     if decide (n ∈ order) then wanted g n else note_values n (notes (managedMap cat) walk_start items))
  ∧ ∀ names, (∀ n, n ∈ order → n ∈ names ∨ note_values n (notes (managedMap cat) walk_start items) = wanted g n) →
      notes_outside names (notes (managedMap cat) walk_start items') = notes_outside names (notes (managedMap cat) walk_start items).
Proof.
  revert items. induction order as [|name order IH]; intros items Hm Hs Hk; cbv zeta; cbn [foldl]; [by split|].
  assert (is_Some (managedMap cat !! name)) as Hmn by (apply Hm; by left).
  pose proof (λ n, add_step_values items name n Hmn Hs) as Hv. cbv zeta in Hv.
  assert (note_values name (notes (managedMap cat) walk_start (add_step cat g items name)) = wanted g name) as Hname.
  { rewrite Hv, decide_True by done. destruct (Hk name) as [k ->]; [by left|].
    rewrite length_take. destruct (Nat.le_ge_cases k (length (wanted g name))).
    - rewrite Nat.min_l by done. apply take_drop.
    - rewrite Nat.min_r, drop_all, app_nil_r by done. by apply take_ge. }
  assert (blocks_start (add_step cat g items name)) as Hs'.
  { apply (blocks_start_outside (managedMap cat) [name] _ items); [|done]. apply add_step_outside; [done..|]. left. by left. }
  destruct (IH (add_step cat g items name)) as [IHv IHo]; [intros; apply Hm; by right|done| |].
  { intros n Hn. destruct (decide (n = name)) as [->|Hne].
    - exists (length (wanted g name)). by rewrite Hname, firstn_all.
    - rewrite Hv, decide_False by done. apply Hk. by right. }
  split.
  - intros n. rewrite IHv. destruct (decide (n ∈ order)) as [Hn|Hn]; [by rewrite decide_True by by right|].
    destruct (decide (n = name)) as [->|Hne]; [by rewrite decide_True by by left|].
    rewrite Hv, !decide_False; [done| |done]. by intros [?|?]%elem_of_cons.
  - intros names Hin. rewrite IHo.
    + apply add_step_outside; [done..|]. destruct (Hin name) as [?|Heq]; [by left|by left|right]. by rewrite Heq.
    + intros n Hn. destruct (Hin n) as [?|Heq]; [by right|by left|]. right.
      destruct (decide (n = name)) as [->|Hne]; [done|]. by rewrite Hv, decide_False.
Qed.
End adding.

(** ** [Apply] as a whole *)
Section applying.
Context {C : Type} `{SettingsCatalog C} (cat : C).
Context (Hcat : names_ok (managedMap cat)).

Definition once_respected (entries : list Entry) : Prop :=
  ∀ name, mentioned entries name → length (doc_values entries name) ≤ 1 ∨ is_many cat name = true.

Lemma mentioned_managed entries name : entries_ok cat entries → mentioned entries name → is_Some (managedMap cat !! name).
Proof. intros [Hm _] (Hne & e & He & <-). by destruct (Hm e He). Qed.

Lemma group_unset entries g : group cat entries = Ok g → ∀ name, name ∈ g_unset g → wanted g name = [].
Proof. intros [[_ Hc] (Hw & Hu & _)]%group_ok name Hn. rewrite Hw. by apply Hc, Hu. Qed.

Lemma file_values_notes items name : file_values cat items name = note_values name (notes (managedMap cat) walk_start items).
Proof. apply notes_values. Qed.

Lemma Apply_inv f doc f' names :
  blocks_start (f_items f) → Apply cat f doc = Ok (f', names) →
  ∃ g x, group cat (d_entries doc) = Ok g
    ∧ edited_by cat (f_items f) g (g_order g) x
    ∧ f' = mkFile (foldl (add_step cat g) (apply_edits (f_items f) x) (g_order g)) (f_path f)
    ∧ names = sort_strings (elements (x_changed x)).
Proof.
  intros Hs Ha. unfold Apply in Ha. cbv zeta in Ha.
  apply result_bind_ok in Ha as (g & Hg & Ha). apply result_bind_ok in Ha as (x & Hx & Ha). injection Ha as <- <-.
  exists g, x. split; [done|]. split; [|done]. apply fold_edit; [by eapply group_unset|done].
Qed.

Lemma Apply_effect f doc f' names :
  blocks_start (f_items f) → Apply cat f doc = Ok (f', names) →
  (∀ name, mentioned (d_entries doc) name → file_values cat (f_items f') name = doc_values (d_entries doc) name)
  ∧ (∀ name, ¬ mentioned (d_entries doc) name → file_values cat (f_items f') name = file_values cat (f_items f) name)
  ∧ notes_outside names (notes (managedMap cat) walk_start (f_items f'))
    = notes_outside names (notes (managedMap cat) walk_start (f_items f))
  ∧ names = ChangedDirectives cat f f'.
Proof.
  intros Hs Ha. destruct (Apply_inv f doc f' names Hs Ha) as (g & x & Hg & Hx & -> & ->). cbn [f_items].
  destruct (group_ok cat _ _ Hg) as [Hok (Hw & _ & Ho & _)]. pose proof (group_unset _ _ Hg) as Hu.
  set (items := apply_edits (f_items f) x).
  assert (∀ n, n ∈ g_order g → is_Some (managedMap cat !! n)) as Hm by (intros n Hn; apply (mentioned_managed (d_entries doc)); [done|by apply Ho]).
  assert (∀ l, (∀ n, n ∈ g_order g → plan_changed cat (f_items f) g n = true → n ∈ l) →
    notes_outside l (notes (managedMap cat) walk_start items) = notes_outside l (notes (managedMap cat) walk_start (f_items f))) as Hout
    by (intros l Hl; by apply (edited_outside cat (f_items f) g Hu (g_order g) x Hx)).
  assert (blocks_start items) as Hs' by (apply (blocks_start_outside (managedMap cat) (g_order g) _ (f_items f)); [apply Hout; by intros n Hn _|done]).
  assert (∀ n, n ∈ g_order g → note_values n (notes (managedMap cat) walk_start items) =
    take (length (occ_of (analyse (f_items f) (managedMap cat)) n)) (wanted g n)) as Hv
    by (intros n Hn; by apply (edited_values cat (f_items f) g Hu (g_order g) x Hx)).
  destruct (add_all_values cat g Hcat (g_order g) items Hm Hs') as [Hval Hadd]; [intros n Hn; eexists; by apply Hv|].
  set (items' := foldl (add_step cat g) items (g_order g)) in *.
  assert (∀ n, n ∈ g_order g → file_values cat items' n = doc_values (d_entries doc) n) as Hin.
  { intros n Hn. by rewrite file_values_notes, Hval, decide_True, Hw. }
  assert (∀ n, n ∉ g_order g → file_values cat items' n = file_values cat (f_items f) n) as Hnot.
  { intros n Hn. rewrite !file_values_notes, Hval, decide_False by done. unfold items. by apply (edited_kept cat (f_items f) g Hu (g_order g) x Hx). }
  assert (∀ n, n ∈ x_changed x ↔ n ∈ g_order g ∧ file_values cat (f_items f) n ≠ file_values cat items' n) as Hc.
  { intros n. destruct Hx as (_ & Hc & _). rewrite Hc. split; intros [Hn Hp]; (split; [done|]).
    - rewrite Hin, <-Hw by done. unfold plan_changed in Hp. by bool_hyps.
    - unfold plan_changed. rewrite bool_decide_false; [done|]. rewrite Hin, <-Hw in Hp by done. done. }
  split; [intros n Hn; by apply Hin, Ho|]. split; [intros n Hn; apply Hnot; by rewrite Ho|]. split.
  - rewrite Hadd; [apply Hout|].
    + intros n Hn Hp. apply elem_of_sort_strings, elem_of_elements. destruct Hx as (_ & Hc' & _). by apply Hc'.
    + intros n Hn. rewrite elem_of_sort_strings, elem_of_elements, Hc.
      destruct (decide (file_values cat (f_items f) n = file_values cat items' n)) as [Heq|Hne]; [right|by left].
      rewrite Hin, <-Hw in Heq by done. rewrite Hv by done. unfold file_values in Heq. rewrite <-Heq at 1.
      rewrite take_ge; [done|]. by rewrite length_fmap.
  - unfold ChangedDirectives. cbn [f_items]. apply sort_strings_ext.
    replace (x_changed x) with (filter (λ name, equalValueLists (file_values cat (f_items f) name) (file_values cat items' name) = false) (dom (managedMap cat))); [done|].
    apply set_eq. intros n. rewrite elem_of_filter, elem_of_dom, Hc. unfold equalValueLists. rewrite bool_decide_eq_false.
    split; [intros [Hne _]; split; [|done]; destruct (decide (n ∈ g_order g)) as [|Hn]; [done|]; by rewrite Hnot in Hne|].
    intros [Hn Hne]. split; [done|by apply Hm].
Qed.

Lemma Apply_total f doc :
  entries_ok cat (d_entries doc) → once_respected (d_entries doc) → ∃ f' names, Apply cat f doc = Ok (f', names).
Proof.
  intros Hok Honce. pose proof (group_total cat _ Hok) as Hg. unfold Apply. cbv zeta.
  destruct (group cat (d_entries doc)) as [g|] eqn:Eg; [|done]. simpl.
  destruct (group_ok cat _ _ Eg) as [_ (Hw & _ & Ho & _)].
  pose proof (fold_edit_total cat (f_items f) g (group_unset _ _ Eg) (g_order g)) as Hx.
  destruct (fold_result (edit_step _ _ _ _) _ _) as [x|]; [simpl; eauto|].
  exfalso. discriminate Hx. intros n Hn. unfold once_ok. rewrite Hw. by apply Honce, Ho.
Qed.

Lemma Apply_once f doc f' names :
  blocks_start (f_items f) → Apply cat f doc = Ok (f', names) → once_respected (d_entries doc).
Proof.
  intros Hs Ha. destruct (Apply_inv f doc f' names Hs Ha) as (g & x & Hg & (Honce & _) & _).
  destruct (group_ok cat _ _ Hg) as [_ (Hw & _ & Ho & _)]. intros n Hn. rewrite <-Hw. by apply Honce, Ho.
Qed.
End applying.

(** ** The extracted document *)
Section extracting.
Context {C : Type} `{SettingsCatalog C} (cat : C).

(** The names of the managed entries: distinct, without white space around,
    lower case once lowered, not empty, and none of them opens a block. *)
Definition spec_name_ok (spec : DirectiveSpec) : Prop :=
  let name := to_lower (sp_name spec) in
  trim_space (sp_name spec) = sp_name spec ∧ name ≠ "" ∧ to_lower name = name ∧ isBlockDirective name = false.
Definition specs_ok : Prop :=
  NoDup (to_lower ∘ sp_name <$> ManagedSpecs cat) ∧ Forall spec_name_ok (ManagedSpecs cat).
#[export] Instance specs_ok_dec : Decision specs_ok.
Proof. unfold specs_ok, spec_name_ok. apply _. Defined.

Lemma managedMap_lookup name spec :
  managedMap cat !! name = Some spec → spec ∈ ManagedSpecs cat ∧ to_lower (sp_name spec) = name.
Proof. apply (map_by_Some (λ s, to_lower (sp_name s))). Qed.

Lemma managedMap_elem spec : spec ∈ ManagedSpecs cat → is_Some (managedMap cat !! to_lower (sp_name spec)).
Proof.
  intros Hin. destruct (managedMap cat !! to_lower (sp_name spec)) eqn:E; [done|].
  apply (map_by_None (λ s, to_lower (sp_name s))) in E.
  destruct E. by apply (list_elem_of_fmap_2 (λ s, to_lower (sp_name s))).
Qed.

Lemma specs_names_ok : specs_ok → names_ok (managedMap cat).
Proof.
  intros [_ Hs] name [spec Hspec]. apply managedMap_lookup in Hspec as [Hin <-].
  rewrite Forall_forall in Hs. by destruct (Hs _ Hin) as (_ & _ & ? & ?).
Qed.

(** The entries of one managed directive. *)
Definition entries_of (items : list Item) (spec : DirectiveSpec) : list Entry :=
  match occ_of (analyse items (managedMap cat)) (to_lower (sp_name spec)) with
  | [] => [mkEntry (sp_name spec) [] true]
  | found => (λ o, mkEntry (sp_name spec) (o_values o) false) <$> found
  end.

Lemma entries_of_name items spec e : spec_name_ok spec → e ∈ entries_of items spec → entry_name e = to_lower (sp_name spec).
Proof.
  intros (Ht & _) He. unfold entries_of in He. assert (e_directive e = sp_name spec) as Hd.
  { destruct (occ_of _ _) as [|o occ]; [by apply list_elem_of_singleton in He as ->|].
    by apply list_elem_of_fmap in He as (o' & -> & _). }
  unfold entry_name. by rewrite Hd, Ht.
Qed.

Lemma entries_of_values items spec name :
  spec_name_ok spec →
  doc_values (entries_of items spec) name =
    if decide (to_lower (sp_name spec) = name) then file_values cat items name else [].
Proof.
  intros Hok. unfold doc_values. destruct (decide (to_lower (sp_name spec) = name)) as [<-|Hne].
  - unfold file_values, entries_of. destruct Hok as (Ht & Hne & _).
    destruct (occ_of _ _) as [|o occ]; [rewrite filter_cons_False; [done|naive_solver]|].
    induction (o :: occ) as [|o' occ' IH]; [done|]. rewrite !fmap_cons, filter_cons_True.
    + by rewrite fmap_cons, IH.
    + split; [done|]. unfold entry_name. simpl. by rewrite Ht.
  - destruct (filter _ (entries_of items spec)) as [|e l] eqn:E; [done|]. exfalso.
    assert (e ∈ filter (λ e, name ≠ "" ∧ entry_name e = name ∧ e_unset e = false) (entries_of items spec)) as Hin
      by (rewrite E; by left).
    apply list_elem_of_filter in Hin as [(_ & Hn & _) Hin]. apply entries_of_name in Hin; [|done]. congruence.
Qed.

Lemma doc_values_app a b name : doc_values (a ++ b) name = doc_values a name ++ doc_values b name.
Proof. unfold doc_values. by rewrite filter_app, fmap_app. Qed.

Lemma Extract_values f name :
  specs_ok → is_Some (managedMap cat !! name) → doc_values (d_entries (Extract cat f)) name = file_values cat (f_items f) name.
Proof.
  intros [Hnd Hok] [spec Hspec]. apply managedMap_lookup in Hspec as [Hin Hname]. subst name.
  change (d_entries (Extract cat f)) with (ManagedSpecs cat ≫= entries_of (f_items f)).
  induction (ManagedSpecs cat) as [|s specs IH]; [by apply elem_of_nil in Hin|].
  cbn [mbind list_bind]. rewrite doc_values_app. rewrite fmap_cons in Hnd. apply NoDup_cons in Hnd as [Hnot Hnd].
  apply Forall_cons in Hok as [Hs Hok]. rewrite entries_of_values by done.
  apply elem_of_cons in Hin as [->|Hin].
  - rewrite decide_True by done. rewrite <-(app_nil_r (file_values _ _ _)) at 2. f_equal.
    clear IH Hnd. induction specs as [|s' specs IH]; [done|]. cbn [mbind list_bind]. rewrite doc_values_app.
    apply Forall_cons in Hok as [Hs' Hok]. rewrite fmap_cons, not_elem_of_cons in Hnot. destruct Hnot as [Hne Hnot].
    rewrite entries_of_values, decide_False by done. by apply IH.
  - rewrite decide_False; [by apply IH|]. intros Heq. apply Hnot.
    assert ((to_lower ∘ sp_name) s = (to_lower ∘ sp_name) spec) as -> by exact Heq. by apply (list_elem_of_fmap_2 (to_lower ∘ sp_name)).
Qed.

Lemma Extract_entry f e :
  specs_ok → e ∈ d_entries (Extract cat f) → ∃ spec, spec ∈ ManagedSpecs cat ∧ e ∈ entries_of (f_items f) spec
    ∧ entry_name e = to_lower (sp_name spec).
Proof.
  intros [_ Hok] He. change (d_entries (Extract cat f)) with (ManagedSpecs cat ≫= entries_of (f_items f)) in He.
  apply list_elem_of_bind in He as (spec & He & Hspec). exists spec. rewrite Forall_forall in Hok.
  repeat split; [done..|]. by eapply entries_of_name; [apply Hok|].
Qed.

Lemma Extract_mentioned f name : specs_ok → mentioned (d_entries (Extract cat f)) name ↔ is_Some (managedMap cat !! name).
Proof.
  intros Hok. split.
  - intros (_ & e & He & <-). destruct (Extract_entry f e Hok He) as (spec & Hspec & _ & ->). by apply managedMap_elem.
  - intros [spec Hspec]. apply managedMap_lookup in Hspec as [Hin <-]. destruct Hok as [_ Hok].
    rewrite Forall_forall in Hok. pose proof (Hok _ Hin) as Hs. split; [by destruct Hs as (_ & ? & _)|].
    assert (∃ e, e ∈ entries_of (f_items f) spec) as [e He].
    { unfold entries_of. destruct (occ_of _ _) as [|o occ]; [eexists; by left|]. rewrite fmap_cons. eexists. by left. }
    exists e. split; [|by eapply entries_of_name]. apply list_elem_of_bind. by exists spec.
Qed.

Lemma Extract_entries_ok f : specs_ok → entries_ok cat (d_entries (Extract cat f)).
Proof.
  intros Hok. split.
  - intros e He. right. destruct (Extract_entry f e Hok He) as (spec & Hspec & _ & ->). by apply managedMap_elem.
  - intros name (Hne & e & He & Hn & Hu). destruct (Extract_entry f e Hok He) as (spec & Hspec & Hin & Hname).
    rewrite Hn in Hname. rewrite Extract_values; [|done|rewrite Hname; by apply managedMap_elem].
    unfold file_values. rewrite Hname. unfold entries_of in Hin.
    destruct (occ_of _ _) as [|o occ]; [done|]. by apply list_elem_of_fmap in Hin as (o' & -> & _).
Qed.
End extracting.

(** ** Documents without an issue *)

(** The values a directive may be set to.  A boolean may have no value, and a
    blank value passes for an enumerated one. *)
Definition value_shape (spec : DirectiveSpec) (values : list string) : Prop :=
  (values = [] → sp_type spec = "boolean")
  ∧ (sp_type spec = "boolean" → values = [] ∨ values = ["true"] ∨ values = ["false"])
  ∧ (sp_type spec = "integer" → ∃ v n, values = [v] ∧ atoi v = Some n
       ∧ (∀ lo, sp_min spec = Some lo → (lo ≤ n)%Z) ∧ (∀ hi, sp_max spec = Some hi → (n ≤ hi)%Z))
  ∧ (sp_type spec = "duration" → ∃ digits c n, values = [digits +:+ chr_str c] ∧ atoi digits = Some n ∧ (0 < n)%Z
       ∧ chr_str c ∈ sp_suffixes spec)
  ∧ (sp_type spec = "enum" → ∃ v rest, values = v :: rest ∧ (v = "" ∨ v ∈ sp_allowed spec)).

(** The entry sends the log to a file. *)
Definition file_dest (e : Entry) : Prop := e_unset e = false ∧ entry_name e = "log_dest" ∧ head (e_values e) = Some "file".
#[export] Instance file_dest_dec e : Decision (file_dest e). Proof. unfold file_dest. apply _. Defined.

Lemma validateValues_nil spec values : validateValues spec values = [] ↔ value_shape spec values.
Proof.
  unfold validateValues, value_shape. cbv zeta. destruct values as [|v rest].
  { destruct (decide (sp_type spec ≠ TypeBoolean)) as [Hn|Hb]; [split; [done|intros [H _]; destruct Hn; by apply H]|].
    split; [|done]. intros _. apply dec_stable in Hb. rewrite Hb. split_and!; [done|by left|done..]. }
  assert ((v :: rest = [] → sp_type spec = "boolean") ↔ True) as -> by (split; done). rewrite (left_id True and).
  destruct (decide (sp_type spec = TypeBoolean)) as [->|Hb].
  { split.
    - destruct (decide _) as [[-> Hv]|]; [|done]. intros _. split_and!; [|done..]. intros _. right. by destruct Hv as [-> | ->]; [left|right].
    - intros (H & _). destruct (H eq_refl) as [?|[[= -> ->]|[= -> ->]]]; [done|rewrite decide_True; auto..]. }
  destruct (decide (sp_type spec = TypeInteger)) as [->|Hi].
  { destruct (decide (rest ≠ [])) as [Hr|Hr]; [split; [done|]; intros (_ & H & _); destruct (H eq_refl) as (? & ? & [= _ ->] & _); by destruct Hr|].
    apply dec_stable in Hr as ->. destruct (atoi v) as [n|] eqn:En.
    - split.
      + intros [Hlo Hhi]%app_nil. split_and!; [done| |done..]. intros _. exists v, n. split_and!; [done..| |]; intros b Hsp; rewrite Hsp in *;
          [destruct (Z.ltb_spec n b)|destruct (Z.ltb_spec b n)]; done.
      + intros (_ & H & _). destruct (H eq_refl) as (v' & n' & [= <-] & Hn & Hlo & Hhi). rewrite En in Hn. injection Hn as <-.
        destruct (sp_min spec) as [lo|], (sp_max spec) as [hi|]; rewrite ?(proj2 (Z.ltb_ge n lo)), ?(proj2 (Z.ltb_ge hi n)) by auto; done.
    - split; [done|]. intros (_ & H & _). destruct (H eq_refl) as (v' & n' & [= <-] & Hn & _). congruence. }
  destruct (decide (sp_type spec = TypeDuration)) as [->|Hd].
  { destruct (decide (rest ≠ [])) as [Hr|Hr]; [split; [done|]; intros (_ & _ & H & _); destruct (H eq_refl) as (? & ? & ? & [= _ ->] & _); by destruct Hr|].
    apply dec_stable in Hr as ->. assert (durationCheck spec v = None ↔ ∃ digits c n, [v] = [digits +:+ chr_str c] ∧ atoi digits = Some n ∧ (0 < n)%Z ∧ chr_str c ∈ sp_suffixes spec) as Hdc.
    { rewrite durationCheck_none. split; intros (ds & c & n & Hv & ?); exists ds, c, n; (split; [congruence|done]). }
    destruct (durationCheck spec v); split; try done.
    - intros (_ & _ & H & _). by apply Hdc in H.
    - intros _. split_and!; try done. intros _. by apply Hdc. }
  destruct (decide (sp_type spec = TypeEnum)) as [->|He].
  { destruct (decide _) as [[Hv Hin]|Hn]; (split; [|]); try done.
    - intros (_ & _ & _ & H). destruct (H eq_refl) as (v' & r & [= <- _] & [?|?]); tauto.
    - intros _. split_and!; try done. intros _. exists v, rest. split; [done|]. destruct (decide (v = "")); [by left|right].
      destruct (decide (v ∈ sp_allowed spec)); [done|]. by destruct Hn. }
  split; [|done]. intros _. by split_and!.
Qed.

Section validating.
Context {C : Type} `{SettingsCatalog C} (cat : C).

Definition entry_shape (e : Entry) : Prop := e_unset e = false →
  (∀ spec, managedMap cat !! entry_name e = Some spec → value_shape spec (e_values e))
  ∧ (file_dest e → ∃ path rest, e_values e = "file" :: path :: rest ∧ trim_space path ≠ "").
(** Every entry names an editable directive, only the repeatable ones are set
    twice, and the values have their shape. *)
Definition clean (entries : list Entry) : Prop :=
  (∀ e, e ∈ entries → entry_name e ≠ "" ∧ is_Some (managedMap cat !! entry_name e))
  ∧ (∀ n, length (doc_values entries n) ≤ 1 ∨ is_many cat n = true)
  ∧ (∀ e, e ∈ entries → entry_shape e).
(** The documents without an issue. *)
Definition valid_settings (doc : Document) : Prop :=
  clean (d_entries doc) ∧ length (filter file_dest (d_entries doc)) ≤ 1
  ∧ ∀ n, doc_values (d_entries doc) n ≠ [] → ¬ asks_unset (d_entries doc) n.

(** The state of the loop after clean entries. *)
Definition counted (entries : list Entry) (s : check_state) : Prop :=
  (∀ n, default 0 (c_counts s !! n) = length (doc_values entries n))
  ∧ (∀ n, n ∈ c_set s ↔ doc_values entries n ≠ [])
  ∧ (∀ n, n ∈ c_unset s ↔ asks_unset entries n)
  ∧ c_file_dests s = length (filter file_dest entries).

Definition clean_entry (entries : list Entry) (e : Entry) : Prop :=
  entry_name e ≠ "" ∧ is_Some (managedMap cat !! entry_name e)
  ∧ (e_unset e = false → doc_values entries (entry_name e) = [] ∨ is_many cat (entry_name e) = true) ∧ entry_shape e.

Lemma doc_values_set entries e n : entry_name e ≠ "" →
  doc_values (entries ++ [e]) n = doc_values entries n ++ if decide (entry_name e = n ∧ e_unset e = false) then [e_values e] else [].
Proof. intros Hne. rewrite doc_values_snoc. f_equal. apply decide_ext. split; [tauto|]. intros [<- ?]. tauto. Qed.

Lemma clean_snoc entries e : clean (entries ++ [e]) ↔ clean entries ∧ clean_entry entries e.
Proof.
  unfold clean, clean_entry. setoid_rewrite elem_of_app. setoid_rewrite list_elem_of_singleton. split.
  - intros (Hm & Ho & Hs). destruct (Hm e (or_intror eq_refl)) as [Hne Hsome]. split; [split_and!; [auto| |auto]|split_and!; [done..| |auto]].
    + intros n. destruct (Ho n) as [Hl|]; [left|by right]. rewrite doc_values_set, length_app in Hl by done. lia.
    + intros Hu. destruct (Ho (entry_name e)) as [Hl|]; [left|by right]. rewrite doc_values_set, decide_True, length_app in Hl by done.
      destruct (doc_values entries (entry_name e)); [done|]. simpl in Hl. lia.
  - intros ((Hm & Ho & Hs) & Hne & Hsome & Hmult & Hsh). split_and!; [intros x [Hx| ->]; auto| |intros x [Hx| ->]; auto].
    intros n. rewrite doc_values_set by done. destruct (decide _) as [[<- Hu]|]; [|rewrite app_nil_r; auto].
    destruct (Hmult Hu) as [->|]; [left; done|by right].
Qed.

Lemma counted_snoc entries e spec s : counted entries s → entry_name e ≠ "" →
  counted (entries ++ [e])
    (if e_unset e then mkCheck (c_issues s) (c_counts s) (c_set s) ({[entry_name e]} ∪ c_unset s) (c_file_dests s)
     else mkCheck spec (<[entry_name e := default 0 (c_counts s !! entry_name e) + 1]> (c_counts s)) ({[entry_name e]} ∪ c_set s) (c_unset s)
       (c_file_dests s + if bool_decide (entry_name e = "log_dest" ∧ head (e_values e) = Some "file") then 1 else 0)).
Proof.
  intros (Hn & Hs & Hu & Hf) Hne. unfold counted. pose proof (λ n, doc_values_set entries e n Hne) as Hdv. setoid_rewrite Hdv.
  setoid_rewrite asks_unset_snoc. setoid_rewrite length_app. rewrite filter_app, length_app, <-Hf, filter_cons, filter_nil.
  clear Hdv. destruct (e_unset e) eqn:Eu; cbn [c_counts c_set c_unset c_file_dests]; split_and!.
  - intros n. rewrite decide_False, Hn by (by intros []). simpl. lia.
  - intros n. rewrite decide_False, app_nil_r by (by intros []). apply Hs.
  - intros n. rewrite elem_of_union, elem_of_singleton, Hu. split; [intros [->|?]; tauto|intros [?|(_ & -> & _)]; tauto].
  - rewrite decide_False by (intros (Hf' & _); congruence). simpl. lia.
  - intros n. destruct (decide (entry_name e = n)) as [<-|Hd].
    + rewrite lookup_insert_eq, decide_True, <-Hn by done. done.
    + rewrite lookup_insert_ne, decide_False, Hn by tauto. simpl. lia.
  - intros n. rewrite elem_of_union, elem_of_singleton, Hs. destruct (decide (entry_name e = n)) as [<-|Hd].
    + rewrite decide_True by done. split; [|by left]. intros _. by destruct (doc_values entries (entry_name e)).
    + rewrite decide_False, app_nil_r by tauto. split; [intros [->|?]; done|tauto].
  - intros n. rewrite Hu. split; [by left|]. by intros [?|(_ & _ & ?)].
  - case_bool_decide as Hd.
    + by rewrite decide_True.
    + rewrite decide_False by (by intros (_ & ?)). done.
Qed.

Lemma no_path_spec e : file_dest e →
  match e_values e with _ :: p :: _ => bool_decide (trim_space p = "") | _ => true end = false
  ↔ ∃ path rest, e_values e = "file" :: path :: rest ∧ trim_space path ≠ "".
Proof.
  intros (_ & _ & Hh). destruct (e_values e) as [|v [|p rest]]; [done|split; [done|by intros (? & ? & ? & _)]|]. injection Hh as ->.
  rewrite bool_decide_eq_false. split; [intros Hp; by exists p, rest|by intros (? & ? & [= <- <-] & ?)].
Qed.

Lemma check_step_clean entries s e : clean entries → counted entries s → c_issues s = [] →
  (c_issues (check_step cat s e) = [] ↔ clean_entry entries e)
  ∧ (clean_entry entries e → counted (entries ++ [e]) (check_step cat s e)).
Proof.
  intros Hcl Hct Hnil. pose proof Hct as (Hn & _). unfold check_step, clean_entry, entry_shape. cbv zeta.
  destruct (decide (entry_name e = "")) as [Hb|Hne]; [split; [|tauto]; cbn; split; [by intros [_ ?]%app_nil|tauto]|].
  destruct (managedMap cat !! entry_name e) as [spec|] eqn:Em.
  2:{ split; [|intros (_ & [? [=]] & _)]. cbn. split; [by intros [_ ?]%app_nil|intros (_ & [? [=]] & _)]. }
  destruct (e_unset e) eqn:Eu.
  { split; [|intros _; pose proof (counted_snoc entries e [] s Hct Hne) as Hc; by rewrite Eu in Hc]. cbn. split; [|done]. intros _. split_and!; [done|by exists spec|done..]. }
  rewrite Hn. destruct (negb (bool_decide (sp_multiplicity spec = Many)) && (1 <? length (doc_values entries (entry_name e)) + 1)) eqn:Eo.
  { apply andb_true_iff in Eo as [Em' Ho]. apply negb_true_iff in Em'. apply Nat.ltb_lt in Ho. split.
    - cbn. split; [by intros [_ ?]%app_nil|]. intros (_ & _ & Hmult & _). exfalso. destruct (Hmult eq_refl) as [Hv|Hmany]; [rewrite Hv in Ho; simpl in Ho; lia|].
      unfold is_many in Hmany. rewrite Em in Hmany. congruence.
    - intros (_ & _ & Hmult & _). exfalso. destruct (Hmult eq_refl) as [Hv|Hmany]; [rewrite Hv in Ho; simpl in Ho; lia|].
      unfold is_many in Hmany. rewrite Em in Hmany. congruence. }
  assert (doc_values entries (entry_name e) = [] ∨ is_many cat (entry_name e) = true) as Hmult.
  { apply andb_false_iff in Eo as [Eo|Eo]; [right; unfold is_many; rewrite Em; by apply negb_false_iff|left].
    apply Nat.ltb_ge in Eo. apply length_zero_iff_nil. lia. }
  split.
  2:{ intros _. pose proof (counted_snoc entries e (c_issues s ++ validateValues spec (e_values e) ++ (if bool_decide (entry_name e = "log_dest" ∧ head (e_values e) = Some "file") && match e_values e with _ :: p :: _ => bool_decide (trim_space p = "") | _ => true end then [mkSettingsIssue "type" (sp_name spec) NeedsPath] else [])) s Hct Hne) as Hc.
      rewrite Eu, Hn in Hc. exact Hc. }
  cbn [c_issues]. rewrite Hnil, app_nil_l, app_nil, validateValues_nil.
  assert ((if bool_decide (entry_name e = "log_dest" ∧ head (e_values e) = Some "file") && match e_values e with _ :: p :: _ => bool_decide (trim_space p = "") | _ => true end
    then [mkSettingsIssue "type" (sp_name spec) NeedsPath] else []) = [] ↔
    (file_dest e → ∃ path rest, e_values e = "file" :: path :: rest ∧ trim_space path ≠ "")) as ->.
  { clear Eo. case_bool_decide as Hd; cbn [andb].
    - assert (file_dest e) as Hf by (split; [done|exact Hd]). rewrite <-(no_path_spec e Hf).
      destruct (match e_values e with _ :: p :: _ => _ | _ => true end); split; try done; intros Hx; by specialize (Hx Hf).
    - split; [|done]. intros _ (_ & ?). done. }
  split.
  - intros [Hv Hp]. split_and!; [done|by exists spec|done|]. intros _. split; [|done]. by intros spec' [= <-].
  - intros (_ & _ & _ & Hsh). destruct (Hsh eq_refl) as [Hv Hp]. split; [by apply Hv|done].
Qed.

Lemma check_step_issues s e : c_issues (check_step cat s e) = [] → c_issues s = [].
Proof.
  unfold check_step. cbv zeta. repeat case_match; simpl; intros Hnil; try done;
  try (by apply app_nil in Hnil as [? ?]).
Qed.

Lemma check_fold_clean entries :
  let s := foldl (check_step cat) (mkCheck [] ∅ ∅ ∅ 0) entries in
  (c_issues s = [] ↔ clean entries) ∧ (clean entries → counted entries s).
Proof.
  cbv zeta. induction entries as [|e entries [IHi IHc]] using rev_ind.
  - split; [|intros _; split_and!; cbn; [done|intros n; by rewrite elem_of_empty; split|
      intros n; rewrite elem_of_empty; split; [done|by intros (_ & e & He%elem_of_nil & _)]|done]].
    split; [|done]. intros _. split_and!; [intros e He; by apply elem_of_nil in He|intros n; left; cbn; lia|intros e He; by apply elem_of_nil in He].
  - rewrite foldl_app, clean_snoc. cbn [foldl]. set (s := foldl _ _ entries) in *. split.
    + split.
      * intros Hnil. pose proof (check_step_issues _ _ Hnil) as Hs. pose proof (proj1 IHi Hs) as Hc. split; [done|].
        by apply (check_step_clean entries s e Hc (IHc Hc) Hs).
      * intros [Hc He]. by apply (check_step_clean entries s e Hc (IHc Hc) (proj2 IHi Hc)).
    + intros [Hc He]. by apply (check_step_clean entries s e Hc (IHc Hc) (proj2 IHi Hc)).
Qed.

Lemma Validate_valid doc : Validate cat doc = [] ↔ valid_settings doc.
Proof.
  unfold Validate, valid_settings. cbv zeta. rewrite !app_nil. destruct (check_fold_clean (d_entries doc)) as [Hi Hc]. rewrite Hi.
  split; intros (Hcl & Hd & Hset); (split; [done|]); destruct (Hc Hcl) as (_ & Hs & Hu & Hf); rewrite <-Hf in *.
  - split; [destruct (Nat.ltb_spec 1 (c_file_dests (foldl (check_step cat) (mkCheck [] ∅ ∅ ∅ 0) (d_entries doc)))); [done|lia]|].
    intros n Hv Ha. apply fmap_nil_inv in Hset. apply Hs in Hv. apply Hu in Ha.
    assert (n ∈ elements (c_set (foldl (check_step cat) (mkCheck [] ∅ ∅ ∅ 0) (d_entries doc)) ∩ c_unset (foldl (check_step cat) (mkCheck [] ∅ ∅ ∅ 0) (d_entries doc)))) as Hin
      by (by apply elem_of_elements, elem_of_intersection).
    rewrite Hset in Hin. by apply elem_of_nil in Hin.
  - split; [by rewrite (proj2 (Nat.ltb_ge _ _)) by lia|].
    destruct (elements _) as [|n ns] eqn:E; [done|exfalso].
    assert (n ∈ elements (c_set (foldl (check_step cat) (mkCheck [] ∅ ∅ ∅ 0) (d_entries doc)) ∩ c_unset (foldl (check_step cat) (mkCheck [] ∅ ∅ ∅ 0) (d_entries doc)))) as Hin
      by (rewrite E; by left).
    apply elem_of_elements, elem_of_intersection in Hin as [H1 H2]. by apply (Hset n); [apply Hs|apply Hu].
Qed.

Lemma valid_applies doc : valid_settings doc → entries_ok cat (d_entries doc) ∧ once_respected cat (d_entries doc).
Proof.
  intros ((Hm & Ho & _) & _ & Hu). split; [split|by intros n _; apply Ho].
  - intros e He. right. by destruct (Hm e He).
  - intros n Hn. destruct (decide (doc_values (d_entries doc) n = [])) as [|Hd]; [done|]. by destruct (Hu n Hd).
Qed.
End validating.

(** ** Properties *)

(** [C16] Writing a document into a parsed file.  Every directive the document
    mentions ends with exactly the values it asks for (none when it asks for the
    broker default), every other directive keeps its values, all items that are
    not an occurrence of a changed directive stay as they are and in order, and
    the reported names are exactly the directives whose values differ. *)
Theorem Apply_correct {C} `{SettingsCatalog C} (cat : C) f doc f' names :
  names_ok (managedMap cat) → block_run false (f_items f) = Some false → Apply cat f doc = Ok (f', names) →
  (∀ name, mentioned (d_entries doc) name → file_values cat (f_items f') name = doc_values (d_entries doc) name)
  ∧ (∀ name, ¬ mentioned (d_entries doc) name → file_values cat (f_items f') name = file_values cat (f_items f) name)
  ∧ notes_outside names (notes (managedMap cat) walk_start (f_items f'))
    = notes_outside names (notes (managedMap cat) walk_start (f_items f))
  ∧ names = ChangedDirectives cat f f'.
Proof. intros Hcat Hrun%block_run_start. by apply Apply_effect. Qed.

Definition spec_of (name type multiplicity : string) : DirectiveSpec :=
  mkSpec name type CatScopeGlobal multiplicity ReloadOK "2.0" "" [] "logging" "" None None "" [].
Definition sample_catalog : Catalog :=
  mkCatalog "2.0" {[ "log_dest" := spec_of "log_dest" TypeStringList Many;
                     "persistence" := spec_of "persistence" TypeBoolean Once ]}.
Definition settings_file : File :=
  match Parse ("# log" +:+ nl +:+ "log_dest  stdout" +:+ nl +:+ "listener 1883" +:+ nl +:+ "allow_anonymous true" +:+ nl) "m.conf" with
  | Ok f => f | Err _ => mkFile [] "" end.
Definition sample_document : Document :=
  mkDocument [mkEntry "log_dest" ["file"; "/x.log"] false; mkEntry "log_dest" ["syslog"] false; mkEntry "Persistence" ["true"] false].
Definition applied_file : File :=
  match Apply sample_catalog settings_file sample_document with Ok (f, _) => f | Err _ => mkFile [] "" end.

Lemma sample_specs_ok : specs_ok sample_catalog.
Proof. refine (bool_decide_unpack (specs_ok sample_catalog) _). by vm_compute. Defined.

Lemma sample_names_ok : names_ok (managedMap sample_catalog).
Proof. apply specs_names_ok, sample_specs_ok. Defined.

Lemma Apply_correct_witness :
  file_values sample_catalog (f_items applied_file) "log_dest" = [["file"; "/x.log"]; ["syslog"]]
  ∧ file_values sample_catalog (f_items applied_file) "persistence" = [["true"]].
Proof.
  destruct (Apply_correct sample_catalog settings_file sample_document applied_file ["log_dest"; "persistence"]
    sample_names_ok) as (H1 & _); [by vm_compute..|].
  split; apply H1; (split; [done|]).
  - exists (mkEntry "log_dest" ["syslog"] false). split; [by right; left|by vm_compute].
  - exists (mkEntry "Persistence" ["true"] false). split; [by right; right; left|by vm_compute].
Defined.

(** [C30] Saving the extracted settings back: the file is returned unchanged and
    no directive is reported, exactly when no directive that may be set once
    occurs twice; with such a duplicate the save fails. *)
Theorem Apply_Extract {C} `{SettingsCatalog C} (cat : C) f :
  specs_ok cat → block_run false (f_items f) = Some false →
  Apply cat f (Extract cat f) = Ok (f, []) ↔
  ∀ name, is_Some (managedMap cat !! name) → length (file_values cat (f_items f) name) ≤ 1 ∨ is_many cat name = true.
Proof.
  intros Hok Hrun%block_run_start. pose proof (specs_names_ok cat Hok) as Hnames. split.
  - intros Ha name Hname. rewrite <-Extract_values by done.
    apply (Apply_once cat f (Extract cat f) f []); [done..|]. by apply Extract_mentioned.
  - intros Honce. destruct (Apply_total cat f (Extract cat f)) as (f' & names & Ha).
    + by apply Extract_entries_ok.
    + intros name Hm%Extract_mentioned; [|done]. rewrite Extract_values by done. by apply Honce.
    + destruct (Apply_effect cat Hnames f _ f' names Hrun Ha) as (Hv & _ & Hout & Hn).
      assert (names = []) as ->.
      { rewrite Hn. unfold ChangedDirectives. set (X := filter _ _). assert (X = ∅) as ->; [|done].
        apply elem_of_equiv_empty_L. intros n [Hd Hin%elem_of_dom]%elem_of_filter.
        unfold equalValueLists in Hd. apply bool_decide_eq_false in Hd. apply Hd. by rewrite (Hv n), Extract_values by (try apply Extract_mentioned; done). }
      rewrite !notes_outside_nil in Hout. rewrite Ha.
      destruct (Apply_inv cat f _ f' [] Hrun Ha) as (g & x & _ & _ & Hf' & _).
      destruct f as [items path]. rewrite Hf' in Hout |- *. simpl in *. by rewrite Hout.
Qed.

Lemma Apply_Extract_witness : Apply sample_catalog settings_file (Extract sample_catalog settings_file) = Ok (settings_file, []).
Proof.
  refine (proj2 (Apply_Extract sample_catalog settings_file sample_specs_ok _) _); [by vm_compute|].
  intros name [spec Hs]. apply managedMap_lookup in Hs as [Hin <-].
  let m := eval vm_compute in (ManagedSpecs sample_catalog) in change (ManagedSpecs sample_catalog) with m in Hin.
  repeat (apply elem_of_cons in Hin as [->|Hin]; [vm_compute; auto|]). by apply elem_of_nil in Hin.
Defined.

(** [C35] What the validation accepts, and that it is enough.  A document has no
    issue exactly when every entry names an editable directive, only repeatable
    directives are set more than once, at most one entry sends the log to a file,
    no directive is both set and unset, and the values have the shape of the
    catalog: true, false or nothing for a boolean, one number within the bounds,
    one positive number with an allowed unit, an allowed value or a blank one, at
    least one value for the rest, and a path for a log file.  Such a document can
    be applied to every file. *)
Theorem Validate_Apply {C} `{SettingsCatalog C} (cat : C) f doc :
  (Validate cat doc = [] ↔ valid_settings cat doc)
  ∧ (Validate cat doc = [] → ∃ f' names, Apply cat f doc = Ok (f', names)).
Proof. split; [apply Validate_valid|]. intros [Hok Honce]%Validate_valid%valid_applies. by apply Apply_total. Qed.

Lemma Validate_Apply_witness : ∃ f' names, Apply sample_catalog settings_file sample_document = Ok (f', names).
Proof. refine (proj2 (Validate_Apply sample_catalog settings_file sample_document) _). by vm_compute. Defined.
