(* ===== verification/Bridges.v ===== *)
(** * [internal/mosquitto/bridges]: the bridge connections of mosquitto.conf

    [bridges.go] (the document and its secrets), [parse.go] (reading the
    connection sections of a parsed file) and [render.go] (writing them back).
    A [*bool] is an [option bool], a [*int] an [option Z].  The callers always
    pass a parsed file, so the [nil] file is left out. *)
From S2P Require Import Prelude Unicode GoStrings GoStrconv Conf.

(** ** The document *)
Definition DirectionIn : string := "in".
Definition DirectionOut : string := "out".
Definition DirectionBoth : string := "both".
Definition DefaultDirection : string := DirectionBoth.
Definition Directions : list string := [DirectionIn; DirectionOut; DirectionBoth].
Definition ValidDirection (d : string) : bool := bool_decide (d = DirectionIn ∨ d = DirectionOut ∨ d = DirectionBoth).
Definition Outbound (d : string) : bool := bool_decide (d = DirectionOut ∨ d = DirectionBoth).
Definition Inbound (d : string) : bool := bool_decide (d = DirectionIn ∨ d = DirectionBoth).

Definition ProtocolVersions : list string := ["mqttv31"; "mqttv311"; "mqttv50"].
Definition StartTypes : list string := ["automatic"; "lazy"; "once"].
Definition TLSVersions : list string := ["tlsv1.2"; "tlsv1.3"].

Record TopicRule := mkTopicRule {
  tr_topic : string; tr_direction : string; tr_qos : Z; tr_local_prefix : string; tr_remote_prefix : string
}.
#[export] Instance TopicRule_eq_dec : EqDecision TopicRule.
Proof. solve_decision. Defined.

Definition EffectiveDirection (t : TopicRule) : string :=
  if decide (tr_direction t = "") then DefaultDirection else tr_direction t.

Record TLSOptions := mkTLS {
  tl_ca_file : string; tl_ca_path : string; tl_cert_file : string; tl_key_file : string; tl_insecure : option bool;
  tl_version : string; tl_alpn : string; tl_psk : string; tl_psk_set : bool; tl_identity : string;
  tl_require_ocsp : option bool; tl_outgoing_retain : option bool; tl_max_packet_size : option Z
}.

Definition EmptyTLS (t : TLSOptions) : bool :=
  bool_decide (tl_ca_file t = "" ∧ tl_ca_path t = "" ∧ tl_cert_file t = "" ∧ tl_key_file t = "" ∧
    tl_insecure t = None ∧ tl_version t = "" ∧ tl_alpn t = "" ∧ tl_psk t = "" ∧
    tl_identity t = "" ∧ tl_require_ocsp t = None ∧ tl_outgoing_retain t = None ∧
    tl_max_packet_size t = None).

Record Bridge := mkBridge {
  br_name : string; br_address : string; br_remote_id : string; br_local_id : string;
  br_username : string; br_password : string; br_password_set : bool;
  br_local_username : string; br_local_password : string; br_local_password_set : bool;
  br_protocol : string; br_clean_session : option bool; br_local_clean_session : option bool; br_keepalive : option Z;
  br_restart_timeout : string; br_notifications : option bool; br_notifications_local_only : option bool; br_notification_topic : string;
  br_try_private : option bool; br_start_type : string; br_threshold : option Z; br_idle_timeout : option Z; br_round_robin : option bool;
  br_tls : TLSOptions; br_topics : list TopicRule
}.

(** The zero values of the structs. *)
Definition zeroTLS : TLSOptions := mkTLS "" "" "" "" None "" "" "" false "" None None None.
Definition newBridge (name : string) : Bridge :=
  mkBridge name "" "" "" "" "" false "" "" false "" None None None "" None None "" None "" None None None zeroTLS [].

Definition set_secrets (password : string) (ps : bool) (localPassword : string) (ls : bool) (psk : string) (ks : bool) (b : Bridge) : Bridge :=
  let t := br_tls b in
  mkBridge (br_name b) (br_address b) (br_remote_id b) (br_local_id b) (br_username b) password ps
    (br_local_username b) localPassword ls
    (br_protocol b) (br_clean_session b) (br_local_clean_session b) (br_keepalive b)
    (br_restart_timeout b) (br_notifications b) (br_notifications_local_only b) (br_notification_topic b)
    (br_try_private b) (br_start_type b) (br_threshold b) (br_idle_timeout b) (br_round_robin b)
    (mkTLS (tl_ca_file t) (tl_ca_path t) (tl_cert_file t) (tl_key_file t) (tl_insecure t) (tl_version t) (tl_alpn t) psk ks
       (tl_identity t) (tl_require_ocsp t) (tl_outgoing_retain t) (tl_max_packet_size t)) (br_topics b).

(** [RedactedBridge] and the documents. *)
Definition RedactedBridge (b : Bridge) : Bridge :=
  let is_set (secret : string) := negb (bool_decide (secret = "")) in
  set_secrets "" (is_set (br_password b) || br_password_set b) "" (is_set (br_local_password b) || br_local_password_set b)
    "" (is_set (tl_psk (br_tls b)) || tl_psk_set (br_tls b)) b.

Definition BridgeDocument := list Bridge.
Definition RedactedDocument (doc : BridgeDocument) : BridgeDocument := RedactedBridge <$> doc.
Definition FindBridge (doc : BridgeDocument) (name : string) : option Bridge := List.find (λ b, bool_decide (br_name b = name)) doc.

(** ** [parse.go] *)
Definition connectionKeys : list string :=
  ["address"; "addresses"; "remote_clientid"; "local_clientid"; "remote_username"; "remote_password"; "local_username"; "local_password";
   "bridge_protocol_version"; "cleansession"; "local_cleansession"; "keepalive_interval"; "restart_timeout"; "notifications";
   "notifications_local_only"; "notification_topic"; "try_private"; "start_type"; "threshold"; "idle_timeout"; "round_robin";
   "bridge_cafile"; "bridge_capath"; "bridge_certfile"; "bridge_keyfile"; "bridge_insecure"; "bridge_tls_version"; "bridge_alpn";
   "bridge_identity"; "bridge_psk"; "bridge_require_ocsp"; "bridge_outgoing_retain"; "bridge_max_packet_size"; "topic"].
Definition IsConnectionKey (key : string) : bool := existsb (String.eqb key) connectionKeys.

(** A token without its surrounding quotes. *)
Definition unquote (value : string) : string :=
  match value with
  | String c rest => if decide (c = quote_char) then if has_suffix (chr_str quote_char) rest then trim_suffix (chr_str quote_char) rest else value else value
  | EmptyString => value
  end.
Definition parseBool (value : string) : option bool := parse_bool (trim_space value).
Definition parseInt (value : string) : option Z := atoi (trim_space value).

Definition parseTopic (values : list string) : option TopicRule :=
  match values with
  | [] => None
  | [t] => Some (mkTopicRule (unquote t) DirectionBoth 0 "" "")
  | t :: d :: rest =>
      let direction := to_lower (unquote d) in
      let qos q := default 0%Z (atoi (unquote q)) in
      Some (match rest with
      | [] => mkTopicRule (unquote t) direction 0 "" ""
      | [q] => mkTopicRule (unquote t) direction (qos q) "" ""
      | [q; l] => mkTopicRule (unquote t) direction (qos q) (unquote l) ""
      | q :: l :: r :: _ => mkTopicRule (unquote t) direction (qos q) (unquote l) (unquote r)
      end)
  end.

(** Folds one directive of a connection into the bridge: the field of its key
    takes the value, every other field stays.  An [address] without a value and
    a [topic] without arguments are skipped. *)
Definition applyOption (b : Bridge) (it : Item) : Bridge :=
  let values := it_values it in
  let first := match values with v :: _ => unquote v | [] => "" end in
  let at_key {A} (key : string) (new old : A) : A := if String.eqb (it_key it) key then new else old in
  let t := br_tls b in
  mkBridge (br_name b)
    (at_key "address" (if decide (first = "") then br_address b else first) (br_address b))
    (at_key "remote_clientid" first (br_remote_id b))
    (at_key "local_clientid" first (br_local_id b))
    (at_key "remote_username" first (br_username b))
    (at_key "remote_password" first (br_password b)) (br_password_set b)
    (at_key "local_username" first (br_local_username b))
    (at_key "local_password" first (br_local_password b)) (br_local_password_set b)
    (at_key "bridge_protocol_version" first (br_protocol b))
    (at_key "cleansession" (parseBool first) (br_clean_session b))
    (at_key "local_cleansession" (parseBool first) (br_local_clean_session b))
    (at_key "keepalive_interval" (parseInt first) (br_keepalive b))
    (at_key "restart_timeout" (join " " values) (br_restart_timeout b))
    (at_key "notifications" (parseBool first) (br_notifications b))
    (at_key "notifications_local_only" (parseBool first) (br_notifications_local_only b))
    (at_key "notification_topic" first (br_notification_topic b))
    (at_key "try_private" (parseBool first) (br_try_private b))
    (at_key "start_type" first (br_start_type b))
    (at_key "threshold" (parseInt first) (br_threshold b))
    (at_key "idle_timeout" (parseInt first) (br_idle_timeout b))
    (at_key "round_robin" (parseBool first) (br_round_robin b))
    (mkTLS
      (at_key "bridge_cafile" first (tl_ca_file t))
      (at_key "bridge_capath" first (tl_ca_path t))
      (at_key "bridge_certfile" first (tl_cert_file t))
      (at_key "bridge_keyfile" first (tl_key_file t))
      (at_key "bridge_insecure" (parseBool first) (tl_insecure t))
      (at_key "bridge_tls_version" first (tl_version t))
      (at_key "bridge_alpn" first (tl_alpn t))
      (at_key "bridge_psk" first (tl_psk t)) (tl_psk_set t)
      (at_key "bridge_identity" first (tl_identity t))
      (at_key "bridge_require_ocsp" (parseBool first) (tl_require_ocsp t))
      (at_key "bridge_outgoing_retain" (parseBool first) (tl_outgoing_retain t))
      (at_key "bridge_max_packet_size" (parseInt first) (tl_max_packet_size t)))
    (at_key "topic" (match parseTopic values with Some rule => br_topics b ++ [rule] | None => br_topics b end) (br_topics b)).

(** The loop of [Parse]: the finished bridges, the one that is being read, and
    the depth of blocks. *)
Record bridge_scan := mkScan { bs_done : list Bridge; bs_current : option Bridge; bs_depth : Z }.
Definition scanned (s : bridge_scan) : BridgeDocument := bs_done s ++ match bs_current s with Some b => [b] | None => [] end.

Definition scan_item (s : bridge_scan) (it : Item) : bridge_scan :=
  match it_kind it with
  | ItemBlockOpen => mkScan (bs_done s) (bs_current s) (bs_depth s + 1)
  | ItemBlockClose => mkScan (bs_done s) (bs_current s) (bs_depth s - 1)
  | ItemComment => s
  | ItemDirective =>
      if negb (bs_depth s =? 0)%Z then s
      else if String.eqb (it_key it) "connection" then
        mkScan (scanned s) (Some (newBridge (match it_values it with v :: _ => unquote v | [] => "" end))) (bs_depth s)
      else match bs_current s with
      | None => s
      | Some b => if IsConnectionKey (it_key it) then mkScan (bs_done s) (Some (applyOption b it)) (bs_depth s) else s
      end
  end.
Definition ParseBridges (f : File) : BridgeDocument := scanned (foldl scan_item (mkScan [] None 0) (f_items f)).

(** The addresses of the listeners, braced or not.  A braced listener is an
    [ItemBlockOpen], which the loop skips. *)
Definition listener_address (s : Z * list string) (it : Item) : Z * list string :=
  match it_kind it with
  | ItemBlockOpen => ((s.1 + 1)%Z, s.2)
  | ItemBlockClose => ((s.1 - 1)%Z, s.2)
  | ItemComment => s
  | ItemDirective =>
      if negb (s.1 =? 0)%Z || negb (String.eqb (it_key it) "listener") then s
      else match it_values it with
      | [] => s
      | p :: rest =>
          let bind := match rest with b :: _ => unquote b | [] => "" end in
          (s.1, s.2 ++ [(if String.eqb bind "" then "0.0.0.0" else bind) +:+ ":" +:+ unquote p])
      end
  end.
Definition LocalAddresses (f : File) : list string := (foldl listener_address (0%Z, []) (f_items f)).2.

(** ** [render.go] *)
Definition optionIndent : nat := 4.
Definition formatBool (value : option bool) : string := match value with None => "" | Some b => if b then "true" else "false" end.
Definition formatInt (value : option Z) : string := match value with None => "" | Some z => itoa z end.

Definition conf_item (key : string) (values : list string) (indent : nat) : Item := mkItem ItemDirective key values "" (-1) indent.
Definition option_item (key value : string) : Item := conf_item key [value] optionIndent.
(** An option that is not set is left out. *)
Definition bridge_option (key value : string) : list Item := if String.eqb value "" then [] else [option_item key value].

Definition renderTopic (rule : TopicRule) : Item :=
  let prefixes := if decide (tr_local_prefix rule = "") then []
    else tr_local_prefix rule :: (if decide (tr_remote_prefix rule = "") then [] else [tr_remote_prefix rule]) in
  conf_item "topic" ([tr_topic rule; EffectiveDirection rule; itoa (tr_qos rule)] ++ prefixes) optionIndent.

Definition bridge_options (b : Bridge) : list (string * string) :=
  let t := br_tls b in
  [("address", br_address b);
   ("remote_clientid", br_remote_id b);
   ("local_clientid", br_local_id b);
   ("remote_username", br_username b);
   ("remote_password", br_password b);
   ("local_username", br_local_username b);
   ("local_password", br_local_password b);
   ("bridge_protocol_version", br_protocol b);
   ("cleansession", formatBool (br_clean_session b));
   ("local_cleansession", formatBool (br_local_clean_session b));
   ("keepalive_interval", formatInt (br_keepalive b));
   ("restart_timeout", br_restart_timeout b);
   ("notifications", formatBool (br_notifications b));
   ("notifications_local_only", formatBool (br_notifications_local_only b));
   ("notification_topic", br_notification_topic b);
   ("try_private", formatBool (br_try_private b));
   ("start_type", br_start_type b);
   ("threshold", formatInt (br_threshold b));
   ("idle_timeout", formatInt (br_idle_timeout b));
   ("round_robin", formatBool (br_round_robin b));
   ("bridge_cafile", tl_ca_file t);
   ("bridge_capath", tl_ca_path t);
   ("bridge_certfile", tl_cert_file t);
   ("bridge_keyfile", tl_key_file t);
   ("bridge_insecure", formatBool (tl_insecure t));
   ("bridge_tls_version", tl_version t);
   ("bridge_alpn", tl_alpn t);
   ("bridge_identity", tl_identity t);
   ("bridge_psk", tl_psk t);
   ("bridge_require_ocsp", formatBool (tl_require_ocsp t));
   ("bridge_outgoing_retain", formatBool (tl_outgoing_retain t));
   ("bridge_max_packet_size", formatInt (tl_max_packet_size t))].
Definition renderBridge (b : Bridge) : list Item :=
  conf_item "connection" [br_name b] 0 :: (bridge_options b ≫= λ '(key, value), bridge_option key value) ++ (renderTopic <$> br_topics b).
Definition renderDocument (doc : BridgeDocument) : list Item := doc ≫= renderBridge.

(** The loop of [Apply]: the items that are kept, the position of the first
    connection among them, the depth and whether a connection is open. *)
Record keep_state := mkKeep { ks_kept : list Item; ks_insert : option nat; ks_depth : Z; ks_in : bool }.
Definition keep (s : keep_state) (it : Item) : keep_state :=
  let kept d := mkKeep (ks_kept s ++ [it]) (ks_insert s) d (ks_in s) in
  let insert_at := match ks_insert s with None => Some (length (ks_kept s)) | at_ => at_ end in
  match it_kind it with
  | ItemBlockOpen => kept (ks_depth s + 1)%Z
  | ItemBlockClose => kept (ks_depth s - 1)%Z
  | ItemComment => kept (ks_depth s)
  | ItemDirective =>
      if negb (ks_depth s =? 0)%Z then kept (ks_depth s)
      else if String.eqb (it_key it) "connection" then mkKeep (ks_kept s) insert_at (ks_depth s) true
      else if ks_in s && IsConnectionKey (it_key it) then mkKeep (ks_kept s) insert_at (ks_depth s) (ks_in s)
      else kept (ks_depth s)
  end.
Definition blank_item : Item := mkItem ItemComment "" [] nl (-1) 0.
Definition ApplyDocument (f : File) (doc : BridgeDocument) : File :=
  let s := foldl keep (mkKeep [] None 0 false) (f_items f) in
  let rendered := renderDocument doc in
  let items :=
    match ks_insert s with
    | Some n => take n (ks_kept s) ++ rendered ++ drop n (ks_kept s)
    | None =>
        match rendered with
        | [] => ks_kept s
        | _ => (match ks_kept s with [] => [] | _ => ks_kept s ++ [blank_item] end) ++ rendered
        end
    end in
  mkFile items (f_path f).

(** The text of a document alone. *)
Definition RenderBridges (doc : BridgeDocument) : string :=
  foldr (λ it acc, with_values (spaces (it_indent it) +:+ it_key it) (it_values it) +:+ nl +:+ acc) "" (renderDocument doc).

(** ** Specifications *)

(** What is written of a document: the flags that the server derives are not, a
    missing direction is the default one, and a remote prefix goes along with a
    local one only. *)
Definition written_topic (t : TopicRule) : TopicRule :=
  mkTopicRule (tr_topic t) (EffectiveDirection t) (tr_qos t) (tr_local_prefix t)
    (if decide (tr_local_prefix t = "") then "" else tr_remote_prefix t).
Definition with_topics (topics : list TopicRule) (b : Bridge) : Bridge :=
  mkBridge (br_name b) (br_address b) (br_remote_id b) (br_local_id b) (br_username b) (br_password b) (br_password_set b)
    (br_local_username b) (br_local_password b) (br_local_password_set b)
    (br_protocol b) (br_clean_session b) (br_local_clean_session b) (br_keepalive b)
    (br_restart_timeout b) (br_notifications b) (br_notifications_local_only b) (br_notification_topic b)
    (br_try_private b) (br_start_type b) (br_threshold b) (br_idle_timeout b) (br_round_robin b) (br_tls b) topics.
Definition written (b : Bridge) : Bridge :=
  let b' := set_secrets (br_password b) false (br_local_password b) false (tl_psk (br_tls b)) false b in
  with_topics (written_topic <$> br_topics b) b'.

(** The bridges that can be written: no value is quoted, the integers are
    machine integers and every direction is one of Mosquitto's. *)
Definition unquoted (s : string) : Prop := unquote s = s.
Definition int_field (o : option Z) : Prop := match o with Some z => int64_range z | None => True end.
Record writable_topic (t : TopicRule) : Prop := {
  wt_topic : unquoted (tr_topic t);
  wt_direction : tr_direction t = "" ∨ ValidDirection (tr_direction t) = true;
  wt_qos : int64_range (tr_qos t);
  wt_local : unquoted (tr_local_prefix t);
  wt_remote : unquoted (tr_remote_prefix t)
}.
Record writable (b : Bridge) : Prop := {
  wr_name : unquoted (br_name b);
  wr_strings : Forall (λ '(key, value), String.eqb key "restart_timeout" = true ∨ unquoted value) (bridge_options b);
  wr_ints : int_field (br_keepalive b) ∧ int_field (br_threshold b) ∧ int_field (br_idle_timeout b) ∧ int_field (tl_max_packet_size (br_tls b));
  wr_topics : Forall writable_topic (br_topics b)
}.

(** The items of a file that belong to the connections: a [connection] line
    outside blocks, and the options after it. *)
Definition block_depth (items : list Item) : Z :=
  foldl (λ d it, match it_kind it with ItemBlockOpen => d + 1 | ItemBlockClose => d - 1 | _ => d end)%Z 0%Z items.
Definition top_directive (before : list Item) (it : Item) : Prop := it_kind it = ItemDirective ∧ block_depth before = 0%Z.
Definition opens_connection (before : list Item) (it : Item) : Prop := top_directive before it ∧ it_key it = "connection".
Definition no_connection (items : list Item) : Prop := ∀ before it after, items = before ++ it :: after → ¬ opens_connection before it.
Record first_connection (items before : list Item) (it : Item) (after : list Item) : Prop := {
  fc_split : items = before ++ it :: after;
  fc_opens : opens_connection before it;
  fc_first : no_connection before
}.
#[export] Instance top_directive_dec before it : Decision (top_directive before it).
Proof. unfold top_directive. apply _. Defined.

(** The items after the first connection that do not belong to a connection. *)
Definition belongs (before : list Item) (it : Item) : Prop :=
  top_directive before it ∧ (it_key it = "connection" ∨ IsConnectionKey (it_key it) = true).
#[export] Instance belongs_dec before it : Decision (belongs before it).
Proof. unfold belongs. apply _. Defined.
Fixpoint foreign (before items : list Item) : list Item :=
  match items with
  | [] => []
  | it :: rest => (if decide (belongs before it) then [] else [it]) ++ foreign (before ++ [it]) rest
  end.

(** ** Lemmas: values *)
Lemma formatBool_parse v : parseBool (unquote (formatBool v)) = v.
Proof. by destruct v as [[]|]. Qed.

Lemma unquote_free s : free_of quote_char s = true → unquote s = s.
Proof.
  destruct s as [|c s]; [done|]. unfold free_of. cbn [all_bytes unquote]. intros [Hc _]%andb_true_iff.
  apply bool_decide_eq_true in Hc. by rewrite decide_False.
Qed.

Lemma formatInt_parse o : int_field o → parseInt (unquote (formatInt o)) = o.
Proof.
  destruct o as [z|]; [|done]. cbn [int_field formatInt]. intros Hz. rewrite unquote_free by by apply itoa_free.
  unfold parseInt. rewrite trim_space_word by apply itoa_no_space. by apply atoi_itoa.
Qed.

(** One option read: an option that is left out would not change the bridge. *)
Lemma option_step b b' key value rest r :
  applyOption b (option_item key "") = b → applyOption b (option_item key value) = b' →
  foldl applyOption b' (rest ≫= λ '(key, value), bridge_option key value) = r →
  foldl applyOption b (((key, value) :: rest) ≫= λ '(key, value), bridge_option key value) = r.
Proof.
  intros He <- <-. rewrite bind_cons, foldl_app. f_equal. unfold bridge_option.
  destruct (String.eqb_spec value "") as [->|]; [by rewrite He|done].
Qed.

Lemma default_empty (s : string) : (if decide (s = "") then "" else s) = s.
Proof. by case_decide. Qed.

(** The options of a bridge, read into an empty one. *)
Lemma options_read b : writable b →
  foldl applyOption (newBridge (br_name b)) (bridge_options b ≫= λ '(key, value), bridge_option key value) = with_topics [] (written b).
Proof.
  intros [_ Hs (H1 & H2 & H3 & H4) _]. destruct b as [? ? ? ? ? ? ? ? ? ? ? ? ? ? ? ? ? ? ? ? ? ? ? [] topics].
  unfold bridge_options in *. cbn in H1, H2, H3, H4.
  cbn [br_name br_tls br_address br_remote_id br_local_id br_username br_password br_local_username br_local_password
    br_protocol br_clean_session br_local_clean_session br_keepalive br_restart_timeout br_notifications br_notifications_local_only
    br_notification_topic br_try_private br_start_type br_threshold br_idle_timeout br_round_robin tl_ca_file tl_ca_path tl_cert_file
    tl_key_file tl_insecure tl_version tl_alpn tl_identity tl_psk tl_require_ocsp tl_outgoing_retain tl_max_packet_size] in *.
  rewrite !Forall_cons in Hs. cbn [String.eqb Ascii.eqb Bool.eqb] in Hs. unfold unquoted in Hs. destruct_and?.
  repeat match goal with H : false = true ∨ _ |- _ => destruct H as [?|H]; [done|] | H : true = true ∨ _ |- _ => clear H end.
  do 32 (eapply option_step; [reflexivity|lazy -[parseBool parseInt formatBool formatInt unquote join decide]; reflexivity|]).
  cbn [mbind list_bind foldl]. rewrite default_empty, !formatBool_parse, !formatInt_parse by done.
  repeat match goal with H : unquote _ = _ |- _ => rewrite ?H; clear H end. done.
Qed.

(** ** Lemmas: topics *)
Lemma written_topic_read t : writable_topic t → parseTopic (it_values (renderTopic t)) = Some (written_topic t).
Proof.
  intros [Ht Hd Hq Hl Hr]. unfold renderTopic, written_topic.
  assert (to_lower (unquote (EffectiveDirection t)) = EffectiveDirection t) as Hdir.
  { unfold EffectiveDirection, ValidDirection in *. destruct (decide (tr_direction t = "")); [by vm_compute|].
    destruct Hd as [|Hd%bool_decide_eq_true]; [done|]. by destruct Hd as [->|[->| ->]]. }
  assert (default 0%Z (atoi (unquote (itoa (tr_qos t)))) = tr_qos t) as Hqos.
  { rewrite unquote_free by by apply itoa_free. by rewrite atoi_itoa. }
  destruct (decide (tr_local_prefix t = "")) as [El|]; [|destruct (decide (tr_remote_prefix t = "")) as [Er|]];
    cbn [conf_item it_values app parseTopic]; rewrite Hdir, Hqos, Ht, ?Hl, ?Hr, ?El, ?Er; done.
Qed.

Lemma topic_read b t : writable_topic t → applyOption b (renderTopic t) = with_topics (br_topics b ++ [written_topic t]) b.
Proof.
  intros Ht. pose proof (written_topic_read t Ht) as Hp. unfold applyOption, with_topics.
  assert (it_key (renderTopic t) = "topic") as -> by done. rewrite Hp. cbn [String.eqb Ascii.eqb Bool.eqb].
  by destruct b as [? ? ? ? ? ? ? ? ? ? ? ? ? ? ? ? ? ? ? ? ? ? ? [] ?].
Qed.

Lemma topics_read b topics : Forall writable_topic topics →
  foldl applyOption b (renderTopic <$> topics) = with_topics (br_topics b ++ (written_topic <$> topics)) b.
Proof.
  intros H. revert b. induction H as [|t topics Ht _ IH]; intros b; cbn [fmap list_fmap foldl].
  - rewrite app_nil_r. by destruct b.
  - rewrite topic_read, IH by done. cbn. by rewrite <-app_assoc.
Qed.

Lemma bridge_read b : writable b → foldl applyOption (newBridge (unquote (br_name b))) (tail (renderBridge b)) = written b.
Proof.
  intros Hb. rewrite (wr_name b Hb). unfold renderBridge. cbn [tail]. rewrite foldl_app, options_read by done.
  rewrite topics_read by by apply wr_topics. by destruct b.
Qed.

(** ** Lemmas: scanning *)
Definition is_option (it : Item) : Prop := it_kind it = ItemDirective ∧ it_key it ≠ "connection" ∧ IsConnectionKey (it_key it) = true.

Lemma scan_options items done_ b : Forall is_option items →
  foldl scan_item (mkScan done_ (Some b) 0) items = mkScan done_ (Some (foldl applyOption b items)) 0.
Proof.
  intros H. revert b. induction H as [|it items (Hk & Hc & Hkey) _ IH]; intros b; [done|]. cbn [foldl]. rewrite <-IH. f_equal.
  unfold scan_item. rewrite Hk. cbn [bs_depth bs_current bs_done Z.eqb negb]. apply String.eqb_neq in Hc. by rewrite Hc, Hkey.
Qed.

Lemma render_options b : Forall is_option (tail (renderBridge b)).
Proof.
  unfold renderBridge. cbn [tail]. apply Forall_app. split.
  - apply Forall_bind. assert (Forall (λ p, p.1 ≠ "connection" ∧ IsConnectionKey p.1 = true) (bridge_options b)) as H by (by repeat constructor).
    eapply Forall_impl; [exact H|]. intros [key value] [Hc Hk].
    change (Forall is_option (bridge_option key value)). unfold bridge_option. destruct (String.eqb value ""); [constructor|].
    constructor; [by split|constructor].
  - apply Forall_fmap, Forall_true. by intros t.
Qed.

Lemma scan_bridge s b : bs_depth s = 0%Z → writable b →
  foldl scan_item s (renderBridge b) = mkScan (scanned s) (Some (written b)) 0.
Proof.
  intros Hd Hb. rewrite <-(bridge_read b Hb).
  change (renderBridge b) with (conf_item "connection" [br_name b] 0 :: tail (renderBridge b)) at 1. cbn [foldl].
  rewrite <-scan_options by apply render_options. f_equal. unfold scan_item. cbn [conf_item it_kind it_key it_values]. by rewrite Hd.
Qed.

Lemma scan_document s doc : bs_depth s = 0%Z → Forall writable doc →
  scanned (foldl scan_item s (renderDocument doc)) = scanned s ++ (written <$> doc)
  ∧ bs_depth (foldl scan_item s (renderDocument doc)) = 0%Z.
Proof.
  intros Hd H. revert s Hd. induction H as [|b doc Hb _ IH]; intros s Hd.
  - by rewrite app_nil_r.
  - unfold renderDocument. rewrite bind_cons, foldl_app, scan_bridge by done. fold (renderDocument doc).
    destruct (IH (mkScan (scanned s) (Some (written b)) 0)) as [-> ->]; [done|]. split; [|done].
    unfold scanned at 1. cbn. by rewrite <-app_assoc.
Qed.

(** ** Lemmas: what is kept *)
Lemma block_depth_snoc before it :
  block_depth (before ++ [it]) =
  match it_kind it with ItemBlockOpen => block_depth before + 1 | ItemBlockClose => block_depth before - 1 | _ => block_depth before end%Z.
Proof. unfold block_depth. by rewrite foldl_app. Qed.

Lemma keep_open before items kept n :
  foldl keep (mkKeep kept (Some n) (block_depth before) true) items =
  mkKeep (kept ++ foreign before items) (Some n) (block_depth (before ++ items)) true.
Proof.
  revert before kept. induction items as [|it items IH]; intros before kept; cbn [foldl foreign].
  - by rewrite !app_nil_r.
  - change (it :: items) with ([it] ++ items). rewrite (app_assoc before), (app_assoc kept), <-IH. f_equal.
    unfold keep. cbn [ks_kept ks_insert ks_depth ks_in]. rewrite block_depth_snoc.
    destruct (decide (belongs before it)) as [[[Hk Hd] Hb]|Hb]; unfold belongs, top_directive in *.
    + rewrite Hk, Hd, app_nil_r. cbn [Z.eqb negb andb]. destruct (String.eqb_spec (it_key it) "connection"); [done|].
      destruct Hb as [?|Hb]; [done|]. by rewrite Hb.
    + destruct (it_kind it); try done. destruct (Z.eqb_spec (block_depth before) 0); cbn [negb andb]; [|done].
      destruct (String.eqb_spec (it_key it) "connection"); [naive_solver|].
      destruct (IsConnectionKey (it_key it)); naive_solver.
Qed.

Lemma opens_spec before it : opens_connection before it ↔
  it_kind it = ItemDirective ∧ block_depth before = 0%Z ∧ it_key it = "connection".
Proof. unfold opens_connection, top_directive. naive_solver. Qed.

Lemma keep_snoc before it : ¬ opens_connection before it →
  keep (mkKeep before None (block_depth before) false) it = mkKeep (before ++ [it]) None (block_depth (before ++ [it])) false.
Proof.
  rewrite opens_spec, block_depth_snoc. intros Ho. unfold keep. cbn [ks_kept ks_insert ks_depth ks_in andb].
  destruct (it_kind it); try done. destruct (Z.eqb_spec (block_depth before) 0); cbn [negb]; [|done].
  destruct (String.eqb_spec (it_key it) "connection"); naive_solver.
Qed.

Lemma no_connection_nil : no_connection [].
Proof. by intros [|??]. Qed.
Lemma no_connection_snoc before it : no_connection before → ¬ opens_connection before it → no_connection (before ++ [it]).
Proof.
  intros Hn Ho a x b. destruct b as [|y b _] using rev_ind.
  - by intros [-> [= ->]]%app_inj_tail.
  - change (a ++ x :: b ++ [y]) with (a ++ (x :: b) ++ [y]). rewrite app_assoc.
    intros [Hb _]%app_inj_tail. by eapply Hn.
Qed.

Lemma keep_run before items : no_connection before →
  let s := foldl keep (mkKeep before None (block_depth before) false) items in
  (no_connection (before ++ items) ∧ s = mkKeep (before ++ items) None (block_depth (before ++ items)) false)
  ∨ ∃ pre it post, first_connection (before ++ items) pre it post
      ∧ s = mkKeep (pre ++ foreign (pre ++ [it]) post) (Some (length pre)) (block_depth (before ++ items)) true.
Proof.
  revert before. induction items as [|it items IH]; intros before Hn; cbv zeta; cbn [foldl].
  - left. by rewrite app_nil_r.
  - destruct (decide (opens_connection before it)) as [Ho|Ho].
    + right. exists before, it, items. split; [by constructor|].
      change (it :: items) with ([it] ++ items). rewrite app_assoc, <-keep_open. f_equal.
      apply opens_spec in Ho as (Hk & Hd & Hc). unfold keep. rewrite block_depth_snoc, Hk. cbn [ks_depth ks_kept ks_insert]. by rewrite Hd, Hc.
    + rewrite keep_snoc by done. change (it :: items) with ([it] ++ items). rewrite app_assoc.
      apply (IH (before ++ [it])). by apply no_connection_snoc.
Qed.

Lemma renderDocument_nil doc : renderDocument doc = [] ↔ doc = [].
Proof. split; [|by intros ->]. by destruct doc as [|b doc]. Qed.

Lemma scan_closed before items : no_connection (before ++ items) →
  foldl scan_item (mkScan [] None (block_depth before)) items = mkScan [] None (block_depth (before ++ items)).
Proof.
  revert before. induction items as [|it items IH]; intros before Hn; cbn [foldl]; [by rewrite app_nil_r|].
  pose proof (Hn before it items eq_refl) as Ho. rewrite opens_spec in Ho.
  change (it :: items) with ([it] ++ items) in *. rewrite app_assoc in *. rewrite <-IH by done. f_equal.
  unfold scan_item. cbn [bs_done bs_current bs_depth]. rewrite block_depth_snoc. destruct (it_kind it); try done.
  destruct (Z.eqb_spec (block_depth before) 0); cbn [negb]; [|done].
  destruct (String.eqb_spec (it_key it) "connection"); naive_solver.
Qed.

Lemma scan_foreign before items d b :
  foldl scan_item (mkScan d b (block_depth before)) (foreign before items) = mkScan d b (block_depth (before ++ items)).
Proof.
  revert before. induction items as [|it items IH]; intros before; cbn [foreign]; [by rewrite app_nil_r|].
  change (it :: items) with ([it] ++ items). rewrite foldl_app, app_assoc, <-IH. f_equal. rewrite block_depth_snoc.
  destruct (decide (belongs before it)) as [[[-> ->] _]|Hb]; [done|]. cbn [foldl]. unfold scan_item. cbn [bs_done bs_current bs_depth].
  unfold belongs, top_directive in Hb. destruct (it_kind it); try done.
  destruct (Z.eqb_spec (block_depth before) 0); cbn [negb]; [|done].
  destruct (String.eqb_spec (it_key it) "connection"); [naive_solver|]. destruct b as [b|]; [|done].
  destruct (IsConnectionKey (it_key it)); naive_solver.
Qed.

Lemma ApplyDocument_items f doc :
  (∃ before it after, first_connection (f_items f) before it after
     ∧ f_items (ApplyDocument f doc) = before ++ renderDocument doc ++ foreign (before ++ [it]) after)
  ∨ (no_connection (f_items f)
     ∧ f_items (ApplyDocument f doc) =
         f_items f ++ (if decide (doc = [] ∨ f_items f = []) then [] else [blank_item]) ++ renderDocument doc).
Proof.
  unfold ApplyDocument. cbn [f_items].
  destruct (keep_run [] (f_items f) no_connection_nil) as [(Hn & E)|(pre & it & post & Hf & E)]; cbn [app] in *;
    change (mkKeep [] None (block_depth []) false) with (mkKeep [] None 0 false) in E; rewrite E; cbn [ks_insert ks_kept].
  - right. split; [done|]. destruct (renderDocument doc) as [|r rs] eqn:Er.
    + apply renderDocument_nil in Er as ->. rewrite decide_True by by left. by rewrite !app_nil_r.
    + assert (doc ≠ []) by by intros ->. destruct (f_items f) as [|x xs]; [by rewrite decide_True by by right|].
      rewrite decide_False by naive_solver. by rewrite <-app_assoc.
  - left. exists pre, it, post. split; [done|]. by rewrite take_app_length, drop_app_length.
Qed.

(** ** Lemmas: applying twice *)
Lemma block_depth_app a b : block_depth (a ++ b) = (block_depth a + block_depth b)%Z.
Proof.
  induction b as [|it b IH] using rev_ind; [rewrite app_nil_r; change (block_depth []) with 0%Z; lia|].
  rewrite app_assoc, !block_depth_snoc, IH. destruct (it_kind it); lia.
Qed.

Lemma foreign_app before a b : foreign before (a ++ b) = foreign before a ++ foreign (before ++ a) b.
Proof.
  revert before. induction a as [|it a IH]; intros before; cbn [foreign app]; [by rewrite app_nil_r|].
  by rewrite IH, <-!app_assoc.
Qed.

Lemma belongs_depth before before' it : block_depth before = block_depth before' → belongs before it ↔ belongs before' it.
Proof. unfold belongs, top_directive. by intros ->. Qed.

Lemma foreign_depth before before' items : block_depth before = block_depth before' → foreign before items = foreign before' items.
Proof.
  revert before before'. induction items as [|it items IH]; intros before before' H; [done|]. cbn [foreign]. f_equal.
  - apply decide_ext, belongs_depth, H.
  - apply IH. by rewrite !block_depth_app, H.
Qed.

Lemma foreign_twice before before' items : block_depth before = block_depth before' →
  foreign before' (foreign before items) = foreign before items.
Proof.
  revert before before'. induction items as [|it items IH]; intros before before' H; [done|]. cbn [foreign].
  destruct (decide (belongs before it)) as [Hb|Hb]; cbn [app foreign].
  - apply IH. rewrite block_depth_snoc. by destruct Hb as [[-> _] _].
  - rewrite decide_False by (rewrite belongs_depth; [exact Hb|done]). cbn [app]. f_equal. apply IH.
    by rewrite !block_depth_app, H.
Qed.

Lemma document_belongs doc : Forall (λ it, it_kind it = ItemDirective ∧ (it_key it = "connection" ∨ IsConnectionKey (it_key it) = true)) (renderDocument doc).
Proof.
  apply Forall_bind, Forall_true. intros b. unfold renderBridge. constructor; [by split; [|left]|].
  eapply Forall_impl; [apply (render_options b)|]. intros it (Hk & _ & Hkey). by split; [|right].
Qed.

Lemma foreign_none before items : block_depth before = 0%Z →
  Forall (λ it, it_kind it = ItemDirective ∧ (it_key it = "connection" ∨ IsConnectionKey (it_key it) = true)) items →
  foreign before items = [] ∧ block_depth (before ++ items) = 0%Z.
Proof.
  intros Hd H. revert before Hd. induction H as [|it items [Hk Hb] _ IH]; intros before Hd; cbn [foreign]; [by rewrite app_nil_r|].
  change (it :: items) with ([it] ++ items). rewrite decide_True, app_assoc by done. apply IH. by rewrite block_depth_snoc, Hk.
Qed.

Lemma first_connection_unique items a x b a' x' b' :
  first_connection items a x b → first_connection items a' x' b' → a = a' ∧ x = x' ∧ b = b'.
Proof.
  intros [-> Ho Hn] [E Ho' Hn']. revert a' E Ho' Hn'. 
  assert (∀ (a a' : list Item) x x' b b', no_connection a' → opens_connection a x → a ++ x :: b = a' ++ x' :: b' → length a' ≤ length a) as H.
  { intros l l' y y' c c' Hl Hy E. destruct (decide (length l' ≤ length l)) as [|Hlen]; [done|].
    apply (f_equal (take (S (length l)))) in E. destruct (Hl l y (drop (S (length l)) l')); [|done].
    rewrite (cons_middle y), app_assoc, take_app_le, take_ge in E by (rewrite ?length_app; cbn; lia).
    rewrite take_app_le in E by lia. rewrite (cons_middle y), app_assoc, E. by rewrite take_drop. }
  intros a' E Ho' Hn'. assert (length a = length a') as Hlen.
  { apply Nat.le_antisymm; [by eapply (H a' a)|by eapply (H a a')]. }
  apply app_inj_1 in E as [-> E]; [|done]. by injection E as -> ->.
Qed.

Lemma apply_at_connection f doc a x b : first_connection (f_items f) a x b →
  f_items (ApplyDocument f doc) = a ++ renderDocument doc ++ foreign (a ++ [x]) b.
Proof.
  intros Hf. destruct (ApplyDocument_items f doc) as [(a' & x' & b' & Hf' & ->)|[Hn _]].
  - by destruct (first_connection_unique _ _ _ _ _ _ _ Hf Hf') as (-> & -> & ->).
  - by destruct (Hn a x b (fc_split _ _ _ _ Hf) (fc_opens _ _ _ _ Hf)).
Qed.

Lemma connection_directive before it : opens_connection before it → block_depth (before ++ [it]) = block_depth before.
Proof. intros [[Hk _] _]. by rewrite block_depth_snoc, Hk. Qed.

Lemma apply_twice f doc doc' a x b : doc ≠ [] → first_connection (f_items f) a x b →
  f_items (ApplyDocument (ApplyDocument f doc) doc') = f_items (ApplyDocument f doc').
Proof.
  intros Hdoc Hf. pose proof (apply_at_connection f doc a x b Hf) as E. pose proof (document_belongs doc) as Hb.
  destruct (renderDocument doc) as [|c cs] eqn:Er; [by apply renderDocument_nil in Er|].
  destruct doc as [|bridge doc]; [done|]. unfold renderDocument in Er. rewrite bind_cons in Er. cbn [renderBridge app] in Er.
  injection Er as <- Er. destruct Hf as [Hs Ho Hn]. pose proof Ho as [[_ Hd] _].
  assert (opens_connection a (conf_item "connection" [br_name bridge] 0)) as Hc by done.
  rewrite (apply_at_connection (ApplyDocument f (bridge :: doc)) doc' a (conf_item "connection" [br_name bridge] 0) (cs ++ foreign (a ++ [x]) b)) by by constructor.
  rewrite (apply_at_connection f doc' a x b) by by constructor. apply Forall_cons in Hb as [_ Hb].
  rewrite foreign_app. destruct (foreign_none (a ++ [conf_item "connection" [br_name bridge] 0]) cs) as [-> Hdc].
  - by rewrite connection_directive.
  - done.
  - cbn [app]. do 2 f_equal. apply foreign_twice. by rewrite Hdc, connection_directive.
Qed.

(** ** Properties *)

(** Applying a document rewrites the connections and nothing else.  The
    items before the first connection stay as they are, the new connections
    take its place, and of the items after it exactly those that belong to a
    connection are gone: blocks, comments and global directives between the
    options of a connection stay.  A file without connections gets them at its
    end, after a blank line.  A later document replaces an earlier one as if
    that had never been applied. *)
Theorem ApplyDocument_preserves f doc :
  ((∃ before it after, first_connection (f_items f) before it after
     ∧ f_items (ApplyDocument f doc) = before ++ renderDocument doc ++ foreign (before ++ [it]) after
     ∧ ∀ doc', doc ≠ [] → ApplyDocument (ApplyDocument f doc) doc' = ApplyDocument f doc')
   ∨ (no_connection (f_items f)
     ∧ f_items (ApplyDocument f doc) =
         f_items f ++ (if decide (doc = [] ∨ f_items f = []) then [] else [blank_item]) ++ renderDocument doc))
  ∧ f_path (ApplyDocument f doc) = f_path f.
Proof.
  split; [|done]. destruct (ApplyDocument_items f doc) as [(pre & it & post & Hf & E)|H]; [left|by right].
  exists pre, it, post. split_and!; [done..|]. intros doc' Hdoc.
  pose proof (apply_twice f doc doc' pre it post Hdoc Hf) as Ht. unfold ApplyDocument in *. by f_equal.
Qed.

Lemma block_run_depth inb items b : block_run inb items = Some b →
  (block_depth items = Z.b2z b - Z.b2z inb)%Z.
Proof.
  revert b. induction items as [|it items IH] using rev_ind; intros b; [intros [= ->]; unfold block_depth; cbn; lia|].
  rewrite block_run_snoc, block_depth_snoc. destruct (block_run inb items) as [c|] eqn:E; [|done]. cbn.
  specialize (IH c eq_refl). unfold block_step. rewrite IH. destruct (it_kind it), c; intros [= <-]; cbn; lia.
Qed.

(** A document that was applied is the document that is read back, up to
    what is not written at all: the flags about secrets, a direction that was
    left to its default, and a remote prefix without a local one. *)
Lemma written_read body path f doc :
  Conf.Parse body path = Ok f → Forall writable doc → ParseBridges (ApplyDocument f doc) = written <$> doc.
Proof.
  intros (_ & _ & _ & Hr)%Parse_inv Hw. apply block_run_depth in Hr. change (block_depth (f_items f) = 0%Z) in Hr. unfold ParseBridges.
  change (mkScan [] None 0) with (mkScan [] None (block_depth [])).
  destruct (ApplyDocument_items f doc) as [(pre & it & post & [Hs Ho Hf] & ->)|(Hn & ->)].
  - pose proof Ho as [[_ Hd] _]. rewrite foldl_app, scan_closed, foldl_app by done. cbn [app].
    destruct (scan_document (mkScan [] None (block_depth pre)) doc Hd Hw) as [Hsc Hsd].
    destruct (foldl scan_item _ (renderDocument doc)) as [d c n]. cbn in Hsd. subst n. rewrite <-Hd, <-(connection_directive pre it Ho).
    by rewrite scan_foreign.
  - rewrite foldl_app, scan_closed, foldl_app by done. cbn [app]. rewrite Hr.
    assert (∀ s, foldl scan_item s (if decide (doc = [] ∨ f_items f = []) then [] else [blank_item]) = s) as -> by by intros; case_decide.
    by destruct (scan_document (mkScan [] None 0) doc eq_refl Hw) as [-> _].
Qed.

(** ** Examples *)
Definition bridged_body : string :=
  "listener 1883 {" +:+ nl +:+ "}" +:+ nl +:+ "connection old" +:+ nl +:+ "address a.example" +:+ nl +:+ "persistence true" +:+ nl
    +:+ "topic # both 0" +:+ nl +:+ "# end" +:+ nl.
Definition bridged_file : File := match Conf.Parse bridged_body "m.conf" with Ok f => f | Err _ => mkFile [] "" end.
Definition uplink : Bridge :=
  mkBridge "uplink" "broker.example:8883" "" "" "mcm" "secret" false "" "" false "mqttv50" (Some true) None (Some 60%Z) "5 30"
    (Some false) None "" None "lazy" None None None
    (mkTLS "/etc/ca.pem" "" "" "" None "tlsv1.3" "" "" false "" None None (Some 0%Z))
    [mkTopicRule "plant/#" "" 1 "site" "remote"; mkTopicRule "cmd/+" "in" 2 "" ""].

(** A directive between the options of a connection stays, and follows the new
    connections. *)
Example applied_keys : it_key <$> f_items (ApplyDocument bridged_file [uplink]) =
  ["listener"; ""; "connection"; "address"; "remote_username"; "remote_password"; "bridge_protocol_version"; "cleansession";
   "keepalive_interval"; "restart_timeout"; "notifications"; "start_type"; "bridge_cafile"; "bridge_tls_version";
   "bridge_max_packet_size"; "topic"; "topic"; "persistence"; ""].
Proof. vm_compute. reflexivity. Qed.

(** A remote prefix without a local one is not written. *)
Lemma remote_prefix_dropped t : tr_local_prefix t = "" → length (it_values (renderTopic t)) = 3 ∧ tr_remote_prefix (written_topic t) = "".
Proof. intros H. unfold renderTopic, written_topic. by rewrite H. Qed.

(** The braced listener of the file is not among the local addresses. *)
Lemma braced_listener_missed :
  LocalAddresses bridged_file = []
  ∧ match Conf.Parse ("listener 1883" +:+ nl) "m.conf" with Ok f => LocalAddresses f | Err _ => [] end = ["0.0.0.0:1883"].
Proof. split; vm_compute; reflexivity. Qed.
