(* ===== verification/BridgesValid.v ===== *)
(** * [internal/mosquitto/bridges/validate.go]: the validation of bridges

    [SplitAddress] and [SortIssues] of [bridges.go], and the checks of a
    document: names, addresses, topic rules, options, TLS and loops.  Messages
    quote values with [strconv.Quote], whose table of printable runes is the
    parameter [quote]; a message decides nothing but the order of two issues
    about the same field. *)
From S2P Require Import Prelude Unicode GoStrings GoStrconv Acl Conf Bridges.

(** ** Addresses *)
Inductive address_error :=
  | AddressRequired | AddressScheme | AddressSpaces | AddressPath | AddressUnterminated | AddressSuffix (rest : string)
  | AddressNoHost | AddressNoPort | PortNotNumber (raw : string) | PortOutOfRange (raw : string).

Fixpoint port_digits (raw s : string) (port : Z) : result address_error Z :=
  match s with
  | EmptyString => if (port <? 1)%Z then Err (PortOutOfRange raw) else Ok port
  | String c s' =>
      match digit_val c with
      | None => Err (PortNotNumber raw)
      | Some d => let p := (port * 10 + d)%Z in if (65535 <? p)%Z then Err (PortOutOfRange raw) else port_digits raw s' p
      end
  end.
Definition parsePort (raw : string) : result address_error Z := if decide (raw = "") then Err AddressNoPort else port_digits raw raw 0.

Definition with_host (host : string) (port : Z) : result address_error (string * Z) :=
  if decide (host = "") then Err AddressNoHost else Ok (host, port).
Definition split_bracketed (inner : string) : result address_error (string * Z) :=
  match cut_at "]" inner with
  | None => Err AddressUnterminated
  | Some (host, rest) =>
      if decide (rest = "") then with_host host 1883
      else if negb (has_prefix ":" rest) then Err (AddressSuffix rest)
      else port ← parsePort (drop_bytes 1 rest); with_host host port
  end.
Definition split_unbracketed (trimmed : string) : result address_error (string * Z) :=
  if decide (count_byte ":" trimmed = 1) then
    match cut_at ":" trimmed with
    | Some (host, digits) => port ← parsePort digits; with_host host port
    | None => with_host trimmed 1883
    end
  else with_host trimmed 1883.
Definition SplitAddress (address : string) : result address_error (string * Z) :=
  let trimmed := trim_space address in
  if decide (trimmed = "") then Err AddressRequired
  else if contains "://" trimmed then Err AddressScheme
  else if contains_byte " " trimmed || contains_byte tab_char trimmed then Err AddressSpaces
  else if contains_byte "/" trimmed then Err AddressPath
  else if has_prefix "[" trimmed then split_bracketed (drop_bytes 1 trimmed)
  else split_unbracketed trimmed.

(** ** Patterns *)
Definition is_upper (c : ascii) : bool := in_range 65 90 (byte_val c).
Definition is_lower (c : ascii) : bool := in_range 97 122 (byte_val c).
Definition is_alnum (c : ascii) : bool := is_upper c || is_lower c || is_digit c.
Definition one_of (cs : list ascii) (c : ascii) : bool := bool_decide (c ∈ cs).

(** [^[A-Za-z0-9][A-Za-z0-9._-]{0,63}$] *)
Definition namePattern (s : string) : bool :=
  match s with
  | EmptyString => false
  | String c rest => is_alnum c && all_bytes (λ x, is_alnum x || one_of ["."; "_"; "-"]%char x) rest && (String.length rest <=? 63)
  end.

(** [[A-Za-z0-9]([A-Za-z0-9-]{0,61}[A-Za-z0-9])?], and labels between dots. *)
Fixpoint label_tail (s : string) : bool :=
  match s with
  | EmptyString => false
  | String c EmptyString => is_alnum c
  | String c s' => (is_alnum c || one_of ["-"]%char c) && label_tail s'
  end.
Definition hostname_label (s : string) : bool :=
  match s with
  | EmptyString => false
  | String c EmptyString => is_alnum c
  | String c rest => is_alnum c && label_tail rest && (String.length rest <=? 62)
  end.
Definition hostnamePattern (s : string) : bool := forallb hostname_label (split "." s).

(** [^\d{1,3}(\.\d{1,3}){3}$], or [^[0-9A-Fa-f:]+$] with a colon. *)
Definition octet (s : string) : bool := all_bytes is_digit s && (1 <=? String.length s) && (String.length s <=? 3).
Definition is_hex_colon (c : ascii) : bool :=
  is_digit c || in_range 65 70 (byte_val c) || in_range 97 102 (byte_val c) || one_of [":"]%char c.
Definition isIP (host : string) : bool :=
  let parts := split "." host in
  ((length parts =? 4) && forallb octet parts)
  || (negb (bool_decide (host = "")) && all_bytes is_hex_colon host && contains_byte ":" host).

Definition validHost (host : string) : bool :=
  if decide (host = "") then false
  else if isIP host then true
  else if 253 <? String.length host then false
  else hostnamePattern host.

Definition sameHost (a b : string) : bool :=
  if decide (a = b) then true else if isIP a || isIP b then false else equal_fold a b.
Definition sameAddress (a b : string) : bool :=
  match SplitAddress a, SplitAddress b with
  | Ok (hostA, portA), Ok (hostB, portB) => (portA =? portB)%Z && sameHost hostA hostB
  | _, _ => false
  end.
Definition bindMatches (bind host : string) : bool :=
  if decide (bind = "0.0.0.0") then negb (contains_byte ":" host)
  else if decide (bind = "::" ∨ bind = "[::]") then true
  else sameHost bind host.

(** ** Topics *)
Inductive pattern_error := PatternEmpty | PatternSpaces | HashPartOfLevel | HashBeforeEnd | PlusPartOfLevel.

Fixpoint pattern_levels (levels : list string) : option pattern_error :=
  match levels with
  | [] => None
  | level :: rest =>
      if contains_byte "#" level && negb (bool_decide (level = "#")) then Some HashPartOfLevel
      else if contains_byte "#" level && negb (bool_decide (rest = [])) then Some HashBeforeEnd
      else if contains_byte "+" level && negb (bool_decide (level = "+")) then Some PlusPartOfLevel
      else pattern_levels rest
  end.
Definition ValidateTopicPattern (pattern : string) : option pattern_error :=
  if decide (pattern = "") then Some PatternEmpty
  else if contains_byte " " pattern || contains_byte tab_char pattern then Some PatternSpaces
  else if has_prefix "$" pattern then None
  else pattern_levels (split "/" pattern).

(** The loop over the common levels, and what follows it. *)
Fixpoint overlap_levels (a b : list string) : bool :=
  match a, b with
  | [], [] => true
  | [], level :: _ | level :: _, [] => bool_decide (level = "#")
  | la :: a', lb :: b' =>
      if decide (la = "#" ∨ lb = "#") then true
      else if decide (la = "+" ∨ lb = "+") then overlap_levels a' b'
      else if decide (la = lb) then overlap_levels a' b'
      else false
  end.
Definition TopicsOverlap (a b : string) : bool :=
  if decide (a = b) then true else overlap_levels (split "/" a) (split "/" b).

Definition joinTopic (prefix topic : string) : string :=
  if decide (prefix = "") then topic else prefix +:+ "/" +:+ trim_prefix "/" topic.
Definition localTopic (rule : TopicRule) : string := joinTopic (tr_local_prefix rule) (tr_topic rule).
Definition remoteTopic (rule : TopicRule) : string := joinTopic (tr_remote_prefix rule) (tr_topic rule).

(** ** Issues *)
Definition IssueKindName : string := "name".
Definition IssueKindAddress : string := "address".
Definition IssueKindDuplicate : string := "duplicate".
Definition IssueKindDependency : string := "dependency".
Definition IssueKindLoop : string := "loop".
Definition IssueKindValue : string := "value".
Definition IssueKindSecret : string := "secret".
Definition SeverityError : string := "error".
Definition SeverityWarning : string := "warning".

Record BridgeIssue := mkBridgeIssue {
  bi_kind : string; bi_severity : string; bi_bridge : string; bi_field : string; bi_topic : string; bi_message : string
}.
Definition IsError (i : BridgeIssue) : bool := negb (bool_decide (bi_severity i = SeverityWarning)).
Definition HasBridgeErrors (issues : list BridgeIssue) : bool := existsb IsError issues.

Definition issue_less (a b : BridgeIssue) : bool :=
  if decide (bi_bridge a ≠ bi_bridge b) then string_less (bi_bridge a) (bi_bridge b)
  else if decide (bi_field a ≠ bi_field b) then string_less (bi_field a) (bi_field b)
  else if decide (bi_topic a ≠ bi_topic b) then string_less (bi_topic a) (bi_topic b)
  else if decide (bi_kind a ≠ bi_kind b) then string_less (bi_kind a) (bi_kind b)
  else string_less (bi_message a) (bi_message b).
Definition SortIssues : list BridgeIssue → list BridgeIssue := sort_stable issue_less.

(** One guarded [append]. *)
Definition when (b : bool) (i : BridgeIssue) : list BridgeIssue := if b then [i] else [].

Section validate.
Context (quote : string → string).

Definition address_text (e : address_error) : string :=
  match e with
  | AddressRequired => "address is required"
  | AddressScheme => "address must not include a scheme"
  | AddressSpaces => "address must not contain spaces"
  | AddressPath => "address must not include a path"
  | AddressUnterminated => "address has an unterminated IPv6 literal"
  | AddressSuffix rest => "address has an unexpected suffix " +:+ quote rest
  | AddressNoHost => "address is missing the host"
  | AddressNoPort => "address is missing the port"
  | PortNotNumber raw => "port " +:+ quote raw +:+ " is not a number"
  | PortOutOfRange raw => "port " +:+ quote raw +:+ " is out of range"
  end.
Definition pattern_text (e : pattern_error) : string :=
  match e with
  | PatternEmpty => "the pattern is empty"
  | PatternSpaces => "the pattern must not contain spaces"
  | HashPartOfLevel => "the multi-level wildcard must occupy a whole level"
  | HashBeforeEnd => "the multi-level wildcard must be the last level"
  | PlusPartOfLevel => "the single-level wildcard must occupy a whole level"
  end.

(** ** One topic rule *)
Definition pattern_issue (add : string → string → BridgeIssue) (what pattern : string) : list BridgeIssue :=
  match ValidateTopicPattern pattern with
  | None => []
  | Some e => [add IssueKindValue ("the " +:+ what +:+ " " +:+ quote pattern +:+ " is invalid: " +:+ pattern_text e)]
  end.
Definition topic_key (rule : TopicRule) : string := tr_topic rule +:+ "|" +:+ EffectiveDirection rule.
Definition validateTopicRule (bridgeName : string) (rule : TopicRule) (seen : gset string) : list BridgeIssue * gset string :=
  let add kind message := mkBridgeIssue kind "" bridgeName "topics" (tr_topic rule) message in
  if decide (trim_space (tr_topic rule) = "") then ([add IssueKindValue "a topic rule needs a topic pattern"], seen)
  else
    (pattern_issue add "topic pattern" (tr_topic rule)
     ++ when (negb (bool_decide (tr_direction rule = "")) && negb (ValidDirection (tr_direction rule)))
          (add IssueKindValue ("the topic direction " +:+ quote (tr_direction rule) +:+ " must be one of " +:+ join ", " Directions))
     ++ when ((tr_qos rule <? 0)%Z || (2 <? tr_qos rule)%Z)
          (add IssueKindValue ("the topic quality of service " +:+ itoa (tr_qos rule) +:+ " must be 0, 1 or 2"))
     ++ (if decide (tr_local_prefix rule = "") then [] else pattern_issue add "local prefix" (tr_local_prefix rule))
     ++ (if decide (tr_remote_prefix rule = "") then [] else pattern_issue add "remote prefix" (tr_remote_prefix rule))
     ++ when (bool_decide (topic_key rule ∈ seen))
          (add IssueKindDuplicate ("the topic rule " +:+ quote (tr_topic rule) +:+ " is declared more than once in this bridge")),
     {[topic_key rule]} ∪ seen).
Definition topic_rules (bridgeName : string) (rules : list TopicRule) : list BridgeIssue :=
  (foldl (λ s rule, let '(issues, seen) := validateTopicRule bridgeName rule s.2 in (s.1 ++ issues, seen)) ([], ∅ : gset string) rules).1.

(** ** One bridge *)
Definition restart_message : string := "the restart timeout must be a number of seconds or a base and cap pair".
Definition restart_field (field : string) : option string :=
  match parsePort field with
  | Err _ => Some restart_message
  | Ok v => if (v <? 1)%Z then Some "the restart timeout must be at least 1 second" else None
  end.
Definition validateRestartTimeout (value : string) : option string :=
  let flds := fields value in
  if (length flds =? 0) || (2 <? length flds) then Some restart_message
  else head (omap restart_field flds).

Definition name_issues (name : string) (add : string → string → string → BridgeIssue) : list BridgeIssue :=
  if decide (trim_space name = "") then [add IssueKindName "name" "the bridge name is required"]
  else when (negb (namePattern name))
    (add IssueKindName "name" "the bridge name must start with a letter or a digit and may only contain letters, digits, dots, dashes and underscores").
Definition address_issues (address : string) (add : string → string → string → BridgeIssue) : list BridgeIssue :=
  if decide (trim_space address = "") then [add IssueKindAddress "address" "the remote broker address is required"]
  else match SplitAddress address with
  | Err e => [add IssueKindAddress "address" ("the remote broker address is invalid: " +:+ address_text e)]
  | Ok (host, _) => when (negb (validHost host))
      (add IssueKindAddress "address" ("the remote broker host " +:+ quote host +:+ " is not a valid hostname or IP address"))
  end.
Definition int_issue (bad : Z → bool) (value : option Z) (i : BridgeIssue) : list BridgeIssue :=
  match value with Some v => when (bad v) i | None => [] end.
Definition set_string (s : string) : bool := negb (bool_decide (s = "")).
Definition is_value (b : bool) (o : option bool) : bool := bool_decide (o = Some b).
(** [contains(values, needle)] for an option that is set. *)
Definition not_among (values : list string) (s : string) : bool := set_string s && negb (bool_decide (s ∈ values)).

Definition credential_issues (b : Bridge) : list BridgeIssue :=
  let warn field message := mkBridgeIssue IssueKindSecret SeverityWarning (br_name b) field "" message in
  when (set_string (br_username b) && negb (set_string (br_password b)))
    (warn "password" "the bridge sets a user name but no password; the remote broker will most likely refuse the connection")
  ++ when (set_string (br_local_username b) && negb (set_string (br_local_password b)))
    (warn "local_password" "the bridge sets a local user name but no local password; the local broker will most likely refuse the connection")
  ++ when (set_string (br_password b) && negb (set_string (br_username b)))
    (warn "username" "the bridge sets a password but no user name; Mosquitto sends the password only together with a user name").

Definition option_issues (b : Bridge) (add : string → string → string → BridgeIssue) : list BridgeIssue :=
  when (not_among ProtocolVersions (br_protocol b))
    (add IssueKindValue "protocol_version" ("the bridge protocol version must be one of " +:+ join ", " ProtocolVersions))
  ++ when (not_among StartTypes (br_start_type b))
    (add IssueKindValue "start_type" ("the bridge start type must be one of " +:+ join ", " StartTypes))
  ++ int_issue (λ v, (v <? 5) || (65535 <? v))%Z (br_keepalive b)
    (add IssueKindValue "keepalive_seconds" "the bridge keepalive must be between 5 and 65535 seconds")
  ++ int_issue (λ v, v <? 1)%Z (br_threshold b) (add IssueKindValue "threshold" "the bridge threshold must be at least 1")
  ++ int_issue (λ v, v <? 0)%Z (br_idle_timeout b)
    (add IssueKindValue "idle_timeout_seconds" "the bridge idle timeout must not be negative")
  ++ int_issue (λ v, v <? 0)%Z (tl_max_packet_size (br_tls b))
    (add IssueKindValue "tls.max_packet_size" "the bridge maximum packet size must not be negative")
  ++ (if decide (br_restart_timeout b = "") then []
      else match validateRestartTimeout (br_restart_timeout b) with
           | Some message => [add IssueKindValue "restart_timeout" message]
           | None => []
           end)
  ++ when (set_string (br_notification_topic b) && is_value false (br_notifications b))
    (add IssueKindDependency "notification_topic" "the bridge sets a notification topic but the notifications are disabled").

Definition tls_issues (b : Bridge) (add : string → string → string → BridgeIssue) : list BridgeIssue :=
  let t := br_tls b in
  when (set_string (tl_cert_file t) && negb (set_string (tl_key_file t)))
    (add IssueKindDependency "tls.key_file" "the bridge presents a client certificate but no private key; set the key file or remove the certificate")
  ++ when (set_string (tl_key_file t) && negb (set_string (tl_cert_file t)))
    (add IssueKindDependency "tls.cert_file" "the bridge sets a private key but no client certificate; set the certificate file or remove the key")
  ++ when (set_string (tl_psk t) && set_string (tl_cert_file t))
    (add IssueKindDependency "tls.psk" "the bridge uses a pre-shared key and a client certificate at the same time; Mosquitto accepts only one")
  ++ when (set_string (tl_psk t) && negb (set_string (tl_identity t)))
    (add IssueKindDependency "tls.identity" "the bridge uses a pre-shared key but no identity; Mosquitto refuses the handshake without one")
  ++ when (not_among TLSVersions (tl_version t))
    (add IssueKindValue "tls.tls_version" ("the bridge TLS version must be one of " +:+ join ", " TLSVersions))
  ++ when (is_value true (tl_insecure t) && negb (set_string (tl_ca_file t)) && negb (set_string (tl_ca_path t)))
    (mkBridgeIssue IssueKindSecret SeverityWarning (br_name b) "tls.insecure" ""
       "the bridge does not verify the certificate of the remote broker; anyone able to intercept the connection can read the traffic").

Definition validateBridge (b : Bridge) : list BridgeIssue :=
  let add kind field message := mkBridgeIssue kind "" (br_name b) field "" message in
  name_issues (br_name b) add
  ++ address_issues (br_address b) add
  ++ when (bool_decide (br_topics b = []))
       (add IssueKindDependency "topics" "the bridge needs at least one topic rule; Mosquitto refuses a connection without topics")
  ++ topic_rules (br_name b) (br_topics b)
  ++ credential_issues b ++ option_issues b add ++ tls_issues b add.

(** ** Loops *)
Definition self_loops (b : Bridge) (localAddresses : list string) : list BridgeIssue :=
  match SplitAddress (br_address b) with
  | Err _ => []
  | Ok (host, port) =>
      localAddresses ≫= λ local,
        match SplitAddress local with
        | Err _ => []
        | Ok (localHost, localPort) =>
            when ((port =? localPort)%Z && bindMatches localHost host)
              (mkBridgeIssue IssueKindLoop "" (br_name b) "address" "" ("the bridge connects to " +:+ br_address b
                 +:+ ", which is a listener of this broker; the broker would receive every message it sends"))
        end
  end.

Definition bounces (outRule inRule : TopicRule) : bool :=
  Outbound (EffectiveDirection outRule) && Inbound (EffectiveDirection inRule)
  && TopicsOverlap (remoteTopic outRule) (remoteTopic inRule) && TopicsOverlap (localTopic inRule) (localTopic outRule).
Definition rule_loops (b : Bridge) : list BridgeIssue :=
  imap pair (br_topics b) ≫= λ '(i, outRule),
  imap pair (br_topics b) ≫= λ '(j, inRule),
    when (negb (i =? j) && bounces outRule inRule)
      (mkBridgeIssue IssueKindLoop "" (br_name b) "topics" (tr_topic inRule) ("the topic rules " +:+ quote (tr_topic outRule) +:+ " and "
         +:+ quote (tr_topic inRule) +:+ " send the same traffic back and forth between this broker and the remote one")).

Definition forwards (ra rb : TopicRule) : bool :=
  TopicsOverlap (localTopic ra) (localTopic rb)
  && (Outbound (EffectiveDirection ra) || Outbound (EffectiveDirection rb))
  && (Inbound (EffectiveDirection ra) || Inbound (EffectiveDirection rb)).
Definition pair_loops (a b : Bridge) : list BridgeIssue :=
  if negb (sameAddress (br_address a) (br_address b)) || bool_decide (br_address a = "") then []
  else br_topics a ≫= λ ra, br_topics b ≫= λ rb,
    when (forwards ra rb)
      (mkBridgeIssue IssueKindLoop "" (br_name b) "address" (tr_topic rb) ("the bridge " +:+ quote (br_name a) +:+ " and the bridge "
         +:+ quote (br_name b) +:+ " bridge overlapping topics through the same remote broker " +:+ br_address a
         +:+ "; the traffic they send comes back and is forwarded again")).
Fixpoint shared_loops (doc : BridgeDocument) : list BridgeIssue :=
  match doc with
  | [] => []
  | a :: rest => (rest ≫= pair_loops a) ++ shared_loops rest
  end.
Definition validateLoops (doc : BridgeDocument) (localAddresses : list string) : list BridgeIssue :=
  (doc ≫= λ b, if decide (br_address b = "") then [] else self_loops b localAddresses)
  ++ (doc ≫= rule_loops) ++ shared_loops doc.

(** ** The document *)
Record validation := mkValidation {
  va_issues : list BridgeIssue; va_seen : gset string; va_remote : gmap string string; va_local : gmap string string
}.
Definition id_issue (b : Bridge) (field what id : string) (seen : gmap string string) : list BridgeIssue :=
  if decide (id = "") then []
  else match seen !! id with
  | Some other => [mkBridgeIssue IssueKindDuplicate "" (br_name b) field "" ("the " +:+ what +:+ " client id " +:+ quote id
      +:+ " is already used by the bridge " +:+ quote other +:+ "; Mosquitto refuses two bridges with the same client id")]
  | None => []
  end.
Definition see_id (b : Bridge) (id : string) (seen : gmap string string) : gmap string string :=
  if decide (id = "") then seen else <[id := br_name b]> seen.
Definition validate_step (s : validation) (b : Bridge) : validation :=
  mkValidation
    (va_issues s ++ validateBridge b
     ++ when (set_string (br_name b) && bool_decide (br_name b ∈ va_seen s))
          (mkBridgeIssue IssueKindDuplicate "" (br_name b) "name" "" ("bridge " +:+ quote (br_name b) +:+ " is declared more than once"))
     ++ id_issue b "remote_client_id" "remote" (br_remote_id b) (va_remote s)
     ++ id_issue b "local_client_id" "local" (br_local_id b) (va_local s))
    (if decide (br_name b = "") then va_seen s else {[br_name b]} ∪ va_seen s)
    (see_id b (br_remote_id b) (va_remote s)) (see_id b (br_local_id b) (va_local s)).
Definition ValidateBridges (doc : BridgeDocument) (localAddresses : list string) : list BridgeIssue :=
  SortIssues (va_issues (foldl validate_step (mkValidation [] ∅ ∅ ∅) doc) ++ validateLoops doc localAddresses).
End validate.

(** ** Specifications *)

(** A filter with its wildcards in place: ["#"] only as the last level. *)
Fixpoint hash_last (levels : list string) : Prop :=
  match levels with [] => True | level :: rest => (level = "#" → rest = []) ∧ hash_last rest end.

(** The host of an address without brackets. *)
Definition plain_host (h : string) : Prop :=
  h ≠ "" ∧ no_space h = true ∧ free_of ":" h = true ∧ free_of "/" h = true ∧ has_prefix "[" h = false.
(** The address literal between brackets. *)
Definition bracket_host (h : string) : Prop :=
  h ≠ "" ∧ no_space h = true ∧ free_of "]" h = true ∧ free_of "/" h = true.
Definition port_range (p : Z) : Prop := (1 ≤ p ≤ 65535)%Z.

(** The bytes of a text. *)
Definition chars (s : string) : list ascii := String.list_ascii_of_string s.
Definition letters_digits : list ascii := chars "ABCDEFGHIJKLMNOPQRSTUVWXYZabcdefghijklmnopqrstuvwxyz0123456789".

(** The name of a bridge: at most 64 letters, digits, dots, underscores and
    dashes, the first one a letter or a digit. *)
Definition bridge_name (s : string) : Prop := ∃ c rest, s = String c rest ∧ c ∈ letters_digits
  ∧ Forall (λ x, x ∈ letters_digits ++ ["."; "_"; "-"]%char) (chars rest) ∧ String.length rest ≤ 63.

(** An address literal has four groups of one to three digits, or hexadecimal
    digits and at least one colon. *)
Definition dotted_quad (h : string) : Prop := ∃ parts, h = join "." parts ∧ length parts = 4
  ∧ Forall (λ p, 1 ≤ String.length p ≤ 3 ∧ Forall (λ x, x ∈ chars "0123456789") (chars p)) parts.
Definition colon_hex (h : string) : Prop := ":"%char ∈ chars h ∧ Forall (λ x, x ∈ chars "0123456789ABCDEFabcdef:") (chars h).
Definition ip_literal (h : string) : Prop := dotted_quad h ∨ colon_hex h.
(** A label of a host name: at most 63 letters, digits and dashes, no dash at
    either end. *)
Definition host_label (l : string) : Prop := String.length l ≤ 63 ∧ Forall (λ x, x ∈ letters_digits ++ ["-"%char]) (chars l)
  ∧ (∃ c, head (chars l) = Some c ∧ c ∈ letters_digits) ∧ ∃ c, last (chars l) = Some c ∧ c ∈ letters_digits.
Definition host_ok (h : string) : Prop := ip_literal h ∨ String.length h ≤ 253 ∧ Forall host_label (split "." h).

(** Two texts that name one host: they are equal, or names that differ in the
    case of their letters only. *)
Definition same_host (a b : string) : Prop := a = b ∨ ¬ ip_literal a ∧ ¬ ip_literal b ∧ equal_fold a b = true.
(** A listener accepts connections to a host: it is bound to all addresses of
    the host's family, to all addresses, or to the host. *)
Definition accepts_host (bind host : string) : Prop :=
  bind = "0.0.0.0" ∧ (":"%char ∉ chars host) ∨ bind = "::" ∨ bind = "[::]" ∨ same_host bind host.
Definition same_address (a b : string) : Prop :=
  ∃ hostA hostB port, SplitAddress a = Ok (hostA, port) ∧ SplitAddress b = Ok (hostB, port) ∧ same_host hostA hostB.

(** The wildcards of a filter are whole levels, and ["#"] is the last one. *)
Fixpoint wildcards_ok (levels : list string) : Prop :=
  match levels with
  | [] => True
  | l :: rest => ("#"%char ∈ chars l → l = "#" ∧ rest = []) ∧ ("+"%char ∈ chars l → l = "+") ∧ wildcards_ok rest
  end.
(** A filter that begins with a dollar sign is not looked into. *)
Definition pattern_ok (p : string) : Prop :=
  p ≠ "" ∧ (" "%char ∉ chars p) ∧ (tab_char ∉ chars p) ∧ (head (chars p) = Some "$"%char ∨ wildcards_ok (split "/" p)).
Record valid_rule (t : TopicRule) : Prop := {
  vt_topic : trim_space (tr_topic t) ≠ "" ∧ pattern_ok (tr_topic t);
  vt_direction : tr_direction t ∈ [""; "in"; "out"; "both"];
  vt_qos : (0 ≤ tr_qos t ≤ 2)%Z;
  vt_local : tr_local_prefix t = "" ∨ pattern_ok (tr_local_prefix t);
  vt_remote : tr_remote_prefix t = "" ∨ pattern_ok (tr_remote_prefix t)
}.
Definition among (values : list string) (s : string) : Prop := s = "" ∨ s ∈ values.
Definition within (P : Z → Prop) (o : option Z) : Prop := match o with Some v => P v | None => True end.

(** A number of seconds of a restart timeout. *)
Definition seconds (x : string) : Prop := ∃ v, x ≠ "" ∧ parse_digits x 0 = Some v ∧ port_range v.

Record valid_tls (t : TLSOptions) : Prop := {
  vs_pair : tl_cert_file t = "" ↔ tl_key_file t = "";
  vs_psk : tl_psk t ≠ "" → tl_cert_file t = "" ∧ tl_identity t ≠ "";
  vs_version : among TLSVersions (tl_version t)
}.
Record valid_bridge (b : Bridge) : Prop := {
  vb_name : bridge_name (br_name b);
  vb_address : ∃ host port, SplitAddress (br_address b) = Ok (host, port) ∧ host_ok host;
  vb_topics : br_topics b ≠ [];
  vb_rules : Forall valid_rule (br_topics b);
  vb_distinct : NoDup (topic_key <$> br_topics b);
  vb_protocol : among ProtocolVersions (br_protocol b);
  vb_start : among StartTypes (br_start_type b);
  vb_keepalive : within (λ v, 5 ≤ v ≤ 65535)%Z (br_keepalive b);
  vb_threshold : within (λ v, 1 ≤ v)%Z (br_threshold b);
  vb_idle : within (λ v, 0 ≤ v)%Z (br_idle_timeout b);
  vb_packet : within (λ v, 0 ≤ v)%Z (tl_max_packet_size (br_tls b));
  vb_restart : br_restart_timeout b = "" ∨
    (1 ≤ length (fields (br_restart_timeout b)) ≤ 2
     ∧ Forall seconds (fields (br_restart_timeout b)));
  vb_notifications : br_notification_topic b ≠ "" → br_notifications b ≠ Some false;
  vb_tls : valid_tls (br_tls b)
}.

(** The directions of a rule; a rule without one goes both ways. *)
Definition sends (t : TopicRule) : Prop := tr_direction t ∈ [""; "out"; "both"].
Definition receives (t : TopicRule) : Prop := tr_direction t ∈ [""; "in"; "both"].
(** The filter of a rule on one side: the topic behind the prefix, with one
    slash between them. *)
Definition side_filter (prefix topic f : string) : Prop :=
  prefix = "" ∧ f = topic
  ∨ prefix ≠ "" ∧ ∃ rest, f = prefix +:+ "/" +:+ rest ∧ (topic = "/" +:+ rest ∨ topic = rest ∧ head (chars topic) ≠ Some "/"%char).
Definition local_filter (t : TopicRule) : string → Prop := side_filter (tr_local_prefix t) (tr_topic t).
Definition remote_filter (t : TopicRule) : string → Prop := side_filter (tr_remote_prefix t) (tr_topic t).
(** Filters that overlap, level by level. *)
Inductive overlapping : list string → list string → Prop :=
  | overlapping_nil : overlapping [] []
  | overlapping_hash_l a b : overlapping ("#" :: a) b
  | overlapping_hash_r a b : overlapping a ("#" :: b)
  | overlapping_level la lb a b : la = "+" ∨ lb = "+" ∨ la = lb → overlapping a b → overlapping (la :: a) (lb :: b).
Definition filters_overlap (A B : string → Prop) : Prop := ∃ f g, A f ∧ B g ∧ overlapping (split "/" f) (split "/" g).

(** A bridge to a listener of the broker, two rules that bounce the same
    traffic, two bridges that forward each other's traffic. *)
Definition reaches_itself (locals : list string) (b : Bridge) : Prop :=
  ∃ host port local localHost,
    SplitAddress (br_address b) = Ok (host, port) ∧ local ∈ locals ∧ SplitAddress local = Ok (localHost, port) ∧ accepts_host localHost host.
Definition bounces_rules (b : Bridge) : Prop :=
  ∃ i j outRule inRule, i ≠ j ∧ br_topics b !! i = Some outRule ∧ br_topics b !! j = Some inRule
    ∧ sends outRule ∧ receives inRule
    ∧ filters_overlap (remote_filter outRule) (remote_filter inRule) ∧ filters_overlap (local_filter outRule) (local_filter inRule).
Definition shares_traffic (a b : Bridge) : Prop :=
  same_address (br_address a) (br_address b)
  ∧ ∃ ra rb, ra ∈ br_topics a ∧ rb ∈ br_topics b ∧ filters_overlap (local_filter ra) (local_filter rb)
      ∧ (sends ra ∨ sends rb) ∧ (receives ra ∨ receives rb).

Definition distinct_ids (ids : list string) : Prop := NoDup (filter (λ id, id ≠ "") ids).
Record valid_document (doc : BridgeDocument) (locals : list string) : Prop := {
  vd_bridges : Forall valid_bridge doc;
  vd_names : NoDup (br_name <$> doc);
  vd_remote : distinct_ids (br_remote_id <$> doc);
  vd_local : distinct_ids (br_local_id <$> doc);
  vd_self : Forall (λ b, ¬ reaches_itself locals b) doc;
  vd_bounce : Forall (λ b, ¬ bounces_rules b) doc;
  vd_shared : List.ForallOrdPairs (λ a b, ¬ shares_traffic a b) doc
}.

(** ** Lemmas: overlapping filters *)
Lemma overlap_sound a b ts : match_levels a ts = true → match_levels b ts = true → overlap_levels a b = true.
Proof.
  revert b ts. induction a as [|la a IH]; intros b ts Ha Hb.
  - cbn in Ha. bool_hyps. subst ts. destruct b as [|lb b]; [done|]. cbn in *. by case_decide; bool_hyps; subst.
  - destruct b as [|lb b].
    + cbn in Hb. bool_hyps. subst ts. cbn in *. by case_decide; bool_hyps; subst.
    + cbn [overlap_levels]. destruct (decide (la = "#" ∨ lb = "#")) as [|Hn]; [done|].
      apply match_levels_cons in Ha as (t & ts' & -> & Ha & Ha'); [|tauto].
      apply match_levels_cons in Hb as (t' & ts'' & [= <- <-] & Hb & Hb'); [|tauto].
      destruct (decide (la = "+" ∨ lb = "+")); [by eapply IH|]. rewrite decide_True by naive_solver. by eapply IH.
Qed.

(** The levels of a topic: not none, and without separators. *)
Definition a_topic (ts : list string) : Prop := ts ≠ [] ∧ Forall (λ x, free_of "/" x = true) ts.
Definition any_level (l : string) : string := if decide (l = "+") then "x" else l.

Lemma hash_last_instance l : hash_last l → Forall (λ x, free_of "/" x = true) l →
  ∃ ts, match_levels l ts = true ∧ Forall (λ x, free_of "/" x = true) ts.
Proof.
  induction l as [|x l IH]; intros Hl Hf; [by exists []|]. apply Forall_cons in Hf as [Hx Hf]. destruct Hl as [Hx' Hl].
  destruct (IH Hl Hf) as (ts & Ht & Hts). destruct (decide (x = "#")) as [->|Hn].
  - rewrite Hx' by done. by exists [].
  - exists (any_level x :: ts). split; [|constructor; [unfold any_level; by case_decide|done]].
    apply match_levels_cons; [done|]. exists (any_level x), ts. unfold any_level. case_decide; naive_solver.
Qed.

Lemma overlap_complete a b : hash_last a → hash_last b →
  Forall (λ x, free_of "/" x = true) a → Forall (λ x, free_of "/" x = true) b → overlap_levels a b = true →
  ∃ ts, match_levels a ts = true ∧ match_levels b ts = true ∧ Forall (λ x, free_of "/" x = true) ts.
Proof.
  revert b. induction a as [|la a IH]; intros b Ha Hb Fa Fb H.
  - destruct b as [|lb b]; [by exists []|]. cbn in H. bool_hyps. subst. exists []. destruct Hb as [Hb _]. by rewrite Hb.
  - destruct b as [|lb b]; [cbn in H; bool_hyps; subst; exists []; destruct Ha as [Ha _]; by rewrite Ha|].
    cbn [overlap_levels] in H. destruct Ha as [Ha Ha'], Hb as [Hb Hb'].
    destruct (decide (la = "#")) as [->|Hla].
    { destruct (hash_last_instance (lb :: b)) as (ts & Ht & Hf); [by split|done|]. exists ts. by rewrite Ha. }
    destruct (decide (lb = "#")) as [->|Hlb].
    { destruct (hash_last_instance (la :: a)) as (ts & Ht & Hf); [by split|done|]. exists ts. by rewrite Hb. }
    rewrite decide_False in H by tauto. apply Forall_cons in Fa as [Fla Fa], Fb as [Flb Fb].
    assert (overlap_levels a b = true ∧ (la = "+" ∨ lb = "+" ∨ la = lb)) as [H' Hl] by (repeat case_decide; naive_solver).
    destruct (IH b) as (ts & Hta & Htb & Hf); [done..|]. set (t := if decide (la = "+") then any_level lb else la).
    exists (t :: ts). split_and!; [apply match_levels_cons; [done|]; exists t, ts|apply match_levels_cons; [done|]; exists t, ts|constructor; [|done]];
      unfold t, any_level; repeat case_decide; naive_solver.
Qed.

Lemma match_nonempty a b ts : match_levels a ts = true → match_levels b ts = true → a ≠ [] → b ≠ [] →
  Forall (λ x, free_of "/" x = true) ts → ∃ ts', match_levels a ts' = true ∧ match_levels b ts' = true ∧ a_topic ts'.
Proof.
  intros Ha Hb Na Nb Hf. destruct ts as [|t ts]; [|by exists (t :: ts)]. exists ["x"]. split_and!; [| |by split; [|constructor]].
  - destruct a as [|l a]; [done|]. cbn in *. by case_decide.
  - destruct b as [|l b]; [done|]. cbn in *. by case_decide.
Qed.

Lemma contains_byte_hash s : contains_byte "#" s = true ↔ free_of "#" s = false.
Proof. unfold contains_byte. by rewrite negb_true_iff. Qed.

Lemma pattern_levels_hash levels : pattern_levels levels = None → hash_last levels.
Proof.
  induction levels as [|l levels IH]; [done|]. cbn [pattern_levels hash_last].
  destruct (contains_byte "#" l && negb (bool_decide (l = "#"))); [done|].
  destruct (contains_byte "#" l && negb (bool_decide (levels = []))) eqn:E; [done|].
  destruct (contains_byte "+" l && _); [done|]. intros H. split; [|by apply IH]. intros ->.
  change (contains_byte "#" "#") with true in E. cbn [andb] in E. by apply negb_false_iff, bool_decide_eq_true in E.
Qed.

(** ** Lemmas: addresses *)
Lemma port_digits_range raw s acc p : port_digits raw s acc = Ok p → (acc ≤ 65535)%Z → port_range p.
Proof.
  revert acc. induction s as [|c s IH]; intros acc; cbn [port_digits].
  - destruct (Z.ltb_spec acc 1); [done|]. intros [= <-] ?. unfold port_range. lia.
  - destruct (digit_val c); [|done]. destruct (Z.ltb_spec 65535 (acc * 10 + z)); [done|]. intros H' _. by eapply IH.
Qed.

Lemma parsePort_range raw p : parsePort raw = Ok p → port_range p.
Proof. unfold parsePort. case_decide; [done|]. intros H'. by eapply port_digits_range. Qed.

Lemma digit_val_nonneg c d : digit_val c = Some d → (0 ≤ d)%Z.
Proof. unfold digit_val, in_range. intros H. case_match; [|done]. simplify_eq. lia. Qed.

Lemma parse_digits_mono s acc v : parse_digits s acc = Some v → (0 ≤ acc)%Z → (acc ≤ v)%Z.
Proof.
  revert acc. induction s as [|c s IH]; intros acc; cbn [parse_digits]; [intros [= ->]; lia|].
  destruct (digit_val c) as [d|] eqn:E; [|done]. apply digit_val_nonneg in E. intros H Ha.
  specialize (IH _ H). lia.
Qed.

Lemma port_digits_parse raw s acc v : parse_digits s acc = Some v → (0 ≤ acc)%Z → port_range v → port_digits raw s acc = Ok v.
Proof.
  intros H Ha [H1 H2]. revert acc H Ha. induction s as [|c s IH]; intros acc; cbn [parse_digits port_digits].
  - intros [= ->] _. by rewrite (proj2 (Z.ltb_ge v 1)) by lia.
  - destruct (digit_val c) as [d|] eqn:E; [|done]. apply digit_val_nonneg in E. intros H Ha.
    pose proof (parse_digits_mono _ _ _ H). rewrite (proj2 (Z.ltb_ge _ _)) by lia. apply IH; [done|lia].
Qed.

Lemma parsePort_itoa p : port_range p → parsePort (itoa p) = Ok p.
Proof.
  intros Hp. unfold parsePort. rewrite decide_False by apply itoa_not_empty. destruct p as [|q|q]; [by destruct Hp| |by destruct Hp].
  destruct (pretty_pos q) as [_ Hq]. change (itoa (Zpos q)) with (pretty (Npos q)). unfold parse_nat in Hq.
  destruct (pretty (Npos q)) as [|c s]; [done|]. by apply port_digits_parse.
Qed.

Lemma prefix_free c p s : has_prefix p s = true → free_of c s = true → free_of c p = true.
Proof.
  revert s. induction p as [|x p IH]; intros s; [done|]. destruct s as [|y s]; [done|]. unfold has_prefix, free_of in *. cbn.
  destruct (ascii_dec x y) as [->|]; [|done]. intros H [Hy Hs]%andb_true_iff. apply andb_true_iff. split; [done|by eapply IH].
Qed.

Lemma contains_free c sub s : free_of c s = true → free_of c sub = false → contains sub s = false.
Proof.
  intros Hs Hsub. apply not_true_iff_false. intros H. apply not_true_iff_false in Hsub. apply Hsub. clear Hsub.
  induction s as [|x s IH]; cbn [contains] in H; apply orb_true_iff in H as [H|H]; try done; try (by eapply prefix_free).
  apply IH; [|done]. unfold free_of in *. cbn in Hs. by apply andb_true_iff in Hs as [_ Hs].
Qed.

(** An address without blanks, scheme or path. *)
Lemma SplitAddress_plain s : s ≠ "" → no_space s = true → free_of "/" s = true →
  SplitAddress s = if has_prefix "[" s then split_bracketed (drop_bytes 1 s) else split_unbracketed s.
Proof.
  intros Hne Hs Hf. unfold SplitAddress. rewrite trim_space_word by done. cbv zeta. rewrite decide_False by done.
  rewrite (contains_free "/") by done. unfold contains_byte. fold (free_of " " s) (free_of tab_char s) (free_of "/" s).
  rewrite !no_space_free by done. by rewrite Hf.
Qed.

Lemma with_host_ok host port : host ≠ "" → with_host host port = Ok (host, port).
Proof. intros H. unfold with_host. by rewrite decide_False. Qed.

Definition split_ok (r : result address_error (string * Z)) : Prop :=
  match r with Ok (host, port) => host ≠ "" ∧ port_range port | Err _ => True end.
Lemma with_host_split host port : port_range port → split_ok (with_host host port).
Proof. unfold with_host. by case_decide. Qed.
Lemma parse_host_split digits host : split_ok (port ← parsePort digits; with_host host port).
Proof.
  destruct (parsePort digits) as [port|e] eqn:E; [|done]. by apply with_host_split, (parsePort_range digits).
Qed.
Lemma SplitAddress_split a : split_ok (SplitAddress a).
Proof.
  assert (port_range 1883) as Hd by done. unfold SplitAddress, split_bracketed, split_unbracketed.
  repeat case_match; try done; by first [apply parse_host_split|apply with_host_split].
Qed.

Lemma no_space_colon a b : no_space (a +:+ String ":" b) = no_space a && no_space b.
Proof. rewrite no_space_app by done. by rewrite andb_true_r. Qed.

Lemma split_unbracketed_port host port : free_of ":" host = true → host ≠ "" → port_range port →
  split_unbracketed (host +:+ String ":" (itoa port)) = Ok (host, port).
Proof.
  intros Hf Hne Hp. unfold split_unbracketed, count_byte. rewrite split_app, split_free by (done || by apply itoa_free).
  rewrite decide_True by done. rewrite cut_at_free by done. rewrite parsePort_itoa by done. by apply with_host_ok.
Qed.

Lemma split_unbracketed_host host : free_of ":" host = true → host ≠ "" → split_unbracketed host = Ok (host, 1883%Z).
Proof.
  intros Hf Hne. unfold split_unbracketed, count_byte. rewrite split_free by done. rewrite decide_False by done. by apply with_host_ok.
Qed.

Lemma bracketed_forms host rest : bracket_host host → no_space rest = true → free_of "/" rest = true →
  SplitAddress ("[" +:+ host +:+ String "]" rest) =
    if decide (rest = "") then Ok (host, 1883%Z)
    else if negb (has_prefix ":" rest) then Err (AddressSuffix rest) else port ← parsePort (drop_bytes 1 rest); Ok (host, port).
Proof.
  intros (Hne & Hs & Hb & Hf) Hsr Hfr. rewrite SplitAddress_plain.
  - change (has_prefix "[" ("[" +:+ host +:+ String "]" rest)) with (has_prefix "" (host +:+ String "]" rest)).
    assert (has_prefix "" (host +:+ String "]" rest) = true) as -> by (by destruct host).
    rewrite (drop_bytes_app "["). unfold split_bracketed. rewrite cut_at_free by done. rewrite with_host_ok by done.
    repeat case_decide; try done. case_match; [done|]. destruct (parsePort _); [|done]. cbn. by rewrite with_host_ok.
  - done.
  - change ("[" +:+ host +:+ String "]" rest) with ("" +:+ String "[" (host +:+ String "]" rest)). rewrite !no_space_app by done.
    by rewrite Hs, Hsr.
  - change ("[" +:+ host +:+ String "]" rest) with (String "[" (host +:+ String "]" rest)).
    change (free_of "/" (host +:+ String "]" rest) = true). rewrite free_of_app, Hf. exact Hfr.
Qed.

(** An address splits into a host that is not empty and a port between 1
    and 65535, and the forms [host], [host:port], [[literal]] and
    [[literal]:port] split into their parts, with the MQTT port by default. *)
Theorem SplitAddress_spec :
  (∀ a host port, SplitAddress a = Ok (host, port) → host ≠ "" ∧ port_range port)
  ∧ (∀ host port, plain_host host → port_range port →
       SplitAddress host = Ok (host, 1883%Z) ∧ SplitAddress (host +:+ ":" +:+ itoa port) = Ok (host, port))
  ∧ (∀ host port, bracket_host host → port_range port →
       SplitAddress ("[" +:+ host +:+ "]") = Ok (host, 1883%Z)
       ∧ SplitAddress ("[" +:+ host +:+ "]:" +:+ itoa port) = Ok (host, port)).
Proof.
  split_and!.
  - intros a host port H. pose proof (SplitAddress_split a) as Hs. by rewrite H in Hs.
  - intros host port (Hne & Hs & Hc & Hf & Hb) Hp. split.
    + rewrite SplitAddress_plain, Hb by done. by apply split_unbracketed_host.
    + change (":" +:+ itoa port) with (String ":" (itoa port)). rewrite SplitAddress_plain.
      * assert (has_prefix "[" (host +:+ String ":" (itoa port)) = false) as ->; [|by apply split_unbracketed_port].
        change "[" with (chr_str "["). rewrite has_prefix_byte; done.
      * by destruct host.
      * by rewrite no_space_colon, Hs, itoa_no_space.
      * rewrite free_of_app, Hf. change (free_of "/" (itoa port) = true). by apply itoa_free.
  - intros host port Hh Hp. change ("]:" +:+ itoa port) with (String "]" (String ":" (itoa port))). change "]" with (String "]" "").
    rewrite !bracketed_forms; try done.
    + split; [done|]. rewrite decide_False by done. change (has_prefix ":" (String ":" (itoa port))) with (has_prefix "" (itoa port)).
      assert (has_prefix "" (itoa port) = true) as -> by (by destruct (itoa port)). cbn [negb].
      change (String ":" (itoa port)) with (":" +:+ itoa port). rewrite (drop_bytes_app ":"). by rewrite parsePort_itoa.
    + change (String ":" (itoa port)) with ("" +:+ String ":" (itoa port)). by rewrite no_space_colon, itoa_no_space.
    + change (free_of "/" (itoa port) = true). by apply itoa_free.
Qed.

(** ** Lemmas: the tests of the code and their meaning *)
Lemma all_bytes_chars P s : all_bytes P s = true ↔ Forall (λ c, P c = true) (chars s).
Proof. induction s as [|c s IH]; [by split|]. cbn [all_bytes]. rewrite andb_true_iff, IH. unfold chars. cbn. by rewrite Forall_cons. Qed.
Lemma all_bytes_elem P (l : list ascii) s : (∀ c, P c = true ↔ c ∈ l) → all_bytes P s = true ↔ Forall (λ c, c ∈ l) (chars s).
Proof. intros H. rewrite all_bytes_chars, !Forall_forall. by setoid_rewrite H. Qed.
Lemma contains_byte_chars c s : contains_byte c s = true ↔ c ∈ chars s.
Proof.
  unfold contains_byte. rewrite negb_true_iff, <-not_true_iff_false, all_bytes_chars.
  assert (∀ x, bool_decide (x ≠ c) = true ↔ x ≠ c) as Hx by (intros; apply bool_decide_eq_true).
  rewrite Forall_forall. setoid_rewrite Hx. split; [|intros Hin H; by apply (H c)].
  intros H. destruct (decide (c ∈ chars s)) as [|Hn]; [done|]. destruct H. by intros x Hin ->.
Qed.
(** A test on bytes and the list of the bytes that pass it. *)
Lemma byte_test (P : ascii → bool) (l : list ascii) :
  forallb (λ n, Bool.eqb (P (Ascii.ascii_of_nat n)) (bool_decide (Ascii.ascii_of_nat n ∈ l))) (seq 0 256) = true → ∀ c, P c = true ↔ c ∈ l.
Proof.
  intros H c. rewrite forallb_forall in H. pose proof (nat_ascii_bounded c).
  specialize (H (nat_of_ascii c)). rewrite ascii_nat_embedding, in_seq in H. apply eqb_prop in H; [|lia].
  rewrite H. apply bool_decide_eq_true.
Qed.
Lemma alnum_char c : is_alnum c = true ↔ c ∈ letters_digits.
Proof. revert c. apply byte_test. vm_compute. reflexivity. Qed.
Lemma alnum_or (l : list ascii) c : is_alnum c || one_of l c = true ↔ c ∈ letters_digits ++ l.
Proof. unfold one_of. by rewrite orb_true_iff, elem_of_app, alnum_char, bool_decide_eq_true. Qed.

Lemma namePattern_spec s : namePattern s = true ↔ bridge_name s.
Proof.
  unfold bridge_name. destruct s as [|c rest]; [by split; [|intros (? & ? & ? & _)]|]. cbn [namePattern].
  rewrite !andb_true_iff, alnum_char, Nat.leb_le, (all_bytes_elem _ _ _ (alnum_or _)). split.
  - intros [[? ?] ?]. by exists c, rest.
  - intros (? & ? & [= <- <-] & ? & ? & ?). done.
Qed.
Lemma bridge_name_set s : bridge_name s → trim_space s ≠ "".
Proof.
  intros (c & rest & -> & Hc & Hf & _). rewrite trim_space_word; [done|]. apply no_space_ascii, all_bytes_chars.
  assert (Forall (λ c, is_ascii c && negb (is_space (byte_val c)) = true) (letters_digits ++ ["."; "_"; "-"]%char)) as Hall
    by (refine (bool_decide_unpack _ _); by vm_compute).
  rewrite Forall_forall in Hall. constructor; [apply Hall, elem_of_app; by left|]. eapply Forall_impl; [exact Hf|]. exact Hall.
Qed.

Lemma digit_char c : is_digit c = true ↔ c ∈ chars "0123456789".
Proof. revert c. apply byte_test. vm_compute. reflexivity. Qed.
Lemma hex_colon_char c : is_hex_colon c = true ↔ c ∈ chars "0123456789ABCDEFabcdef:".
Proof. revert c. apply byte_test. vm_compute. reflexivity. Qed.
Lemma octet_spec s : octet s = true ↔ 1 ≤ String.length s ≤ 3 ∧ Forall (λ x, x ∈ chars "0123456789") (chars s).
Proof. unfold octet. rewrite !andb_true_iff, !Nat.leb_le, (all_bytes_elem _ _ _ digit_char). tauto. Qed.
Lemma isIP_spec h : isIP h = true ↔ ip_literal h.
Proof.
  unfold isIP, ip_literal, dotted_quad, colon_hex. cbv zeta.
  rewrite orb_true_iff, !andb_true_iff, negb_true_iff, bool_decide_eq_false, Nat.eqb_eq, forallb_forall, (all_bytes_elem _ _ _ hex_colon_char), contains_byte_chars.
  setoid_rewrite <-list_elem_of_In. setoid_rewrite octet_spec.
  assert (∀ A A' B B' : Prop, (A ↔ A') → (B ↔ B') → A ∨ B ↔ A' ∨ B') as Hor by tauto.
  apply Hor; [split|split; [tauto|]].
  - intros [Hl Hf]. exists (split "." h). split; [symmetry; apply (join_split ".")|]. split; [done|]. by apply Forall_forall.
  - intros (parts & -> & Hl & Hf). rewrite (split_join ".").
    + rewrite Forall_forall in Hf. by split.
    + by intros ->.
    + eapply Forall_impl; [exact Hf|]. intros p [_ Hp]. unfold free_of. apply all_bytes_chars. eapply Forall_impl; [exact Hp|].
      intros c Hc. apply bool_decide_eq_true. intros ->. apply (bool_decide_pack _) in Hc. by vm_compute in Hc.
  - intros [Hc Hf]. split_and!; [|done..]. intros ->. by apply elem_of_nil in Hc.
Qed.

Lemma label_tail_spec s : label_tail s = true ↔ Forall (λ x, x ∈ letters_digits ++ ["-"%char]) (chars s) ∧ ∃ c, last (chars s) = Some c ∧ c ∈ letters_digits.
Proof.
  induction s as [|c s IH]; [by split; [|intros [_ (? & ? & _)]]|]. destruct s as [|d s].
  - change (chars (String c "")) with [c]. cbn [label_tail last]. rewrite alnum_char, Forall_singleton, elem_of_app. naive_solver.
  - cbn [label_tail] in *. rewrite andb_true_iff, alnum_or, IH. unfold chars in *. cbn [String.list_ascii_of_string] in *. rewrite (Forall_cons _ c).
    change (last (c :: d :: String.list_ascii_of_string s)) with (last (d :: String.list_ascii_of_string s)). tauto.
Qed.
Lemma label_spec s : hostname_label s = true ↔ host_label s.
Proof.
  unfold host_label. destruct s as [|c s]; [by split; [|intros (_ & _ & (? & ? & _) & _)]|]. destruct s as [|d s].
  - change (chars (String c "")) with [c]. cbn [hostname_label last head String.length]. rewrite alnum_char, Forall_singleton, elem_of_app. split; [|naive_solver]. intros Hc. split_and!; [lia|by left|by exists c..].
  - cbn [hostname_label]. rewrite !andb_true_iff, alnum_char, label_tail_spec, Nat.leb_le. unfold chars. cbn [String.list_ascii_of_string String.length].
    rewrite (Forall_cons _ c). change (last (c :: d :: String.list_ascii_of_string s)) with (last (d :: String.list_ascii_of_string s)). cbn [head]. split.
    + intros [[Hc [Hf Hl]] ?]. split_and!; [lia|apply elem_of_app; by left|done|by exists c|done].
    + intros (? & [_ Hf] & (c' & [= <-] & Hc) & Hl). split_and!; [done..|lia].
Qed.
Lemma validHost_spec h : validHost h = true ↔ host_ok h.
Proof.
  unfold validHost, host_ok. destruct (decide (h = "")) as [->|Hne].
  { split; [done|]. intros [Hip%isIP_spec|[_ Hl]]; [done|]. apply Forall_singleton in Hl as (_ & _ & (c & ? & _) & _). done. }
  rewrite <-isIP_spec. destruct (isIP h); [by split; [left|]|]. unfold hostnamePattern. destruct (Nat.ltb_spec 253 (String.length h)) as [Hl|Hl].
  - split; [done|]. intros [?|[? _]]; [done|lia].
  - rewrite forallb_forall, Forall_forall. setoid_rewrite <-list_elem_of_In. setoid_rewrite label_spec. split; [by right|]. by intros [|[_ ?]].
Qed.

Lemma sameHost_spec a b : sameHost a b = true ↔ same_host a b.
Proof.
  unfold sameHost, same_host. rewrite <-!isIP_spec, !not_true_iff_false. destruct (decide (a = b)); [tauto|].
  destruct (isIP a), (isIP b); cbn; intuition congruence.
Qed.
Lemma bindMatches_spec bind host : bindMatches bind host = true ↔ accepts_host bind host.
Proof.
  unfold bindMatches, accepts_host. destruct (decide (bind = "0.0.0.0")) as [->|H0].
  - rewrite negb_true_iff, <-not_true_iff_false, contains_byte_chars, <-sameHost_spec. split; [tauto|]. intros [[_ ?]|[?|[?|H]]]; try done.
    intros Hc. unfold sameHost in H. destruct (decide ("0.0.0.0" = host)) as [<-|]; [apply (bool_decide_pack _) in Hc; by vm_compute in Hc|]. done.
  - rewrite <-sameHost_spec. destruct (decide _); [tauto|]. tauto.
Qed.
Lemma sameAddress_spec a b : sameAddress a b = true ↔ same_address a b.
Proof.
  unfold sameAddress, same_address. destruct (SplitAddress a) as [[ha pa]|], (SplitAddress b) as [[hb pb]|];
    try (by split; [|intros (? & ? & ? & ? & ? & _)]).
  rewrite andb_true_iff, Z.eqb_eq, sameHost_spec. split; [intros [-> ?]; by exists ha, hb, pb|]. by intros (? & ? & ? & [= -> ->] & [= -> ->] & ?).
Qed.

Lemma pattern_levels_spec levels : pattern_levels levels = None ↔ wildcards_ok levels.
Proof.
  induction levels as [|l rest IH]; [done|]. cbn [pattern_levels wildcards_ok].
  pose proof (contains_byte_chars "#" l) as Hh. pose proof (contains_byte_chars "+" l) as Hp.
  destruct (contains_byte "#" l) eqn:Eh, (contains_byte "+" l) eqn:Ep; cbn [andb]; rewrite <-Hh, <-Hp;
    destruct (decide (l = "#")) as [El|El], (decide (rest = [])) as [Er|Er], (decide (l = "+")) as [Eq|Eq];
    rewrite ?(bool_decide_true _ El), ?(bool_decide_false _ El), ?(bool_decide_true _ Er), ?(bool_decide_false _ Er),
      ?(bool_decide_true _ Eq), ?(bool_decide_false _ Eq); cbn [negb]; rewrite ?IH; intuition congruence.
Qed.
Lemma has_prefix_head c s : has_prefix (chr_str c) s = true ↔ head (chars s) = Some c.
Proof. unfold has_prefix, chr_str. destruct s as [|x s]; [done|]. cbn. destruct (ascii_dec c x) as [->|]; [by destruct s|]. split; [done|congruence]. Qed.
Lemma pattern_spec p : ValidateTopicPattern p = None ↔ pattern_ok p.
Proof.
  unfold ValidateTopicPattern, pattern_ok. rewrite <-!contains_byte_chars, <-(has_prefix_head "$"), <-pattern_levels_spec.
  change (chr_str "$") with "$". destruct (decide (p = "")); [split; [done|tauto]|]. destruct (contains_byte " " p), (contains_byte tab_char p); cbn [orb].
  - split; [done|tauto].
  - split; [done|tauto].
  - split; [done|tauto].
  - destruct (has_prefix "$" p); intuition congruence.
Qed.

Lemma port_digits_value raw s acc v : port_digits raw s acc = Ok v → parse_digits s acc = Some v.
Proof.
  revert acc. induction s as [|c s IH]; intros acc; cbn [port_digits parse_digits].
  - destruct (_ <? _)%Z; [done|]. by intros [= ->].
  - destruct (digit_val c); [|done]. cbv zeta. destruct (_ <? _)%Z; [done|]. apply IH.
Qed.
Lemma parsePort_seconds x : (∃ v, parsePort x = Ok v) ↔ seconds x.
Proof.
  unfold seconds. split; intros [v H]; exists v.
  - pose proof (parsePort_range _ _ H). unfold parsePort in H. destruct (decide (x = "")); [done|]. split_and!; [done|by eapply port_digits_value|done].
  - destruct H as (Hne & Hv & Hr). unfold parsePort. rewrite decide_False by done. apply port_digits_parse; [done|lia|done].
Qed.

Lemma sends_spec t : valid_rule t → Outbound (EffectiveDirection t) = true ↔ sends t.
Proof.
  intros [_ Hd _ _ _]. unfold sends, EffectiveDirection, Outbound. repeat rewrite elem_of_cons in Hd. rewrite elem_of_nil in Hd. rewrite !elem_of_cons, elem_of_nil.
  destruct Hd as [-> |[-> |[-> |[-> |[]]]]]; vm_compute; intuition congruence.
Qed.
Lemma receives_spec t : valid_rule t → Inbound (EffectiveDirection t) = true ↔ receives t.
Proof.
  intros [_ Hd _ _ _]. unfold receives, EffectiveDirection, Inbound. repeat rewrite elem_of_cons in Hd. rewrite elem_of_nil in Hd. rewrite !elem_of_cons, elem_of_nil.
  destruct Hd as [-> |[-> |[-> |[-> |[]]]]]; vm_compute; intuition congruence.
Qed.

Lemma overlap_levels_spec a b : overlap_levels a b = true ↔ overlapping a b.
Proof.
  split.
  - revert b. induction a as [|la a IH]; intros [|lb b]; cbn [overlap_levels]; [constructor|intros ->%bool_decide_eq_true; constructor|intros ->%bool_decide_eq_true; constructor|].
    destruct (decide _) as [[->| ->]|]; [constructor..|]. destruct (decide _) as [[->| ->]|]; [intros ?; constructor; auto..|].
    destruct (decide _) as [->|]; [|done]. intros ?; constructor; auto.
  - induction 1 as [|a b|a b|la lb a b Hl H IH]; [done|by destruct b|by destruct a; cbn; [|rewrite decide_True by tauto]|].
    cbn. rewrite IH. repeat destruct (decide _); try done. tauto.
Qed.
Lemma overlapping_refl a : overlapping a a.
Proof. induction a; constructor; tauto. Qed.
Lemma TopicsOverlap_spec a b : TopicsOverlap a b = true ↔ overlapping (split "/" a) (split "/" b).
Proof.
  unfold TopicsOverlap. destruct (decide (a = b)) as [->|]; [|apply overlap_levels_spec]. split; [|done]. intros _. apply overlapping_refl.
Qed.
Lemma substring_full n t : String.length t ≤ n → String.substring 0 n t = t.
Proof. revert n. induction t as [|c t IH]; intros [|n] Hn; cbn in *; try done; [lia|]. by rewrite IH by lia. Qed.
Lemma trim_slash t : ∃ rest, trim_prefix "/" t = rest ∧ (t = "/" +:+ rest ∨ t = rest ∧ head (chars t) ≠ Some "/"%char).
Proof.
  unfold trim_prefix. pose proof (has_prefix_head "/" t) as Hp. change (chr_str "/") with "/" in Hp. destruct (has_prefix "/" t).
  - exists (String.substring 1 (String.length t) t). split; [done|left]. destruct t as [|c t]; [by destruct Hp as [Hp _]; specialize (Hp eq_refl)|].
    destruct Hp as [Hp _]. specialize (Hp eq_refl). injection Hp as ->. change ("/" +:+ ?x) with (String "/" x). f_equal.
    cbn [String.length String.substring]. rewrite substring_full; [done|lia].
  - exists t. split; [done|right]. split; [done|]. intros H. by apply Hp in H.
Qed.
Lemma side_filter_spec prefix topic f : side_filter prefix topic f ↔ f = joinTopic prefix topic.
Proof.
  unfold side_filter, joinTopic. destruct (decide (prefix = "")) as [->|Hne]; [tauto|].
  destruct (trim_slash topic) as (rest & -> & Ht). split.
  - intros [[? _]|(_ & rest' & -> & Hr)]; [done|]. f_equal. f_equal. destruct Ht as [->|[-> Hh]], Hr as [Hr|[Hr Hh']]; try done.
    + by injection Hr.
    + by destruct Hh; rewrite Hr.
  - intros ->. right. split; [done|]. by exists rest.
Qed.
Lemma filters_overlap_spec (A B : string → Prop) f g : (∀ x, A x ↔ x = f) → (∀ x, B x ↔ x = g) → filters_overlap A B ↔ TopicsOverlap f g = true.
Proof.
  intros HA HB. unfold filters_overlap. rewrite TopicsOverlap_spec. split; [by intros (x & y & ->%HA & ->%HB & ?)|].
  intros H. exists f, g. split_and!; [by apply HA|by apply HB|done].
Qed.
Lemma local_overlap a b : filters_overlap (local_filter a) (local_filter b) ↔ TopicsOverlap (localTopic a) (localTopic b) = true.
Proof. apply filters_overlap_spec; intros x; apply side_filter_spec. Qed.
Lemma remote_overlap a b : filters_overlap (remote_filter a) (remote_filter b) ↔ TopicsOverlap (remoteTopic a) (remoteTopic b) = true.
Proof. apply filters_overlap_spec; intros x; apply side_filter_spec. Qed.
Lemma overlapping_sym a b : overlapping a b → overlapping b a.
Proof. induction 1; constructor; (done || intuition congruence). Qed.

(** ** Lemmas: documents without errors *)
Local Abbreviation clean l := (HasBridgeErrors l = false).

Lemma clean_app l k : clean (l ++ k) ↔ clean l ∧ clean k.
Proof. unfold HasBridgeErrors. rewrite existsb_app. apply orb_false_iff. Qed.
Lemma clean_when b i : clean (when b i) ↔ b = false ∨ IsError i = false.
Proof. unfold when, HasBridgeErrors. destruct b; cbn; rewrite ?orb_false_r; naive_solver. Qed.
Lemma clean_error kind bridge field topic message : IsError (mkBridgeIssue kind "" bridge field topic message) = true.
Proof. done. Qed.
Lemma clean_bind {A} (f : A → list BridgeIssue) l : clean (l ≫= f) ↔ Forall (λ x, clean (f x)) l.
Proof.
  induction l as [|x l IH]; [by split; [constructor|]|]. rewrite bind_cons, clean_app, Forall_cons. by rewrite IH.
Qed.
Lemma clean_sort l : clean (SortIssues l) ↔ clean l.
Proof.
  assert (∀ k, clean k ↔ Forall (λ i, IsError i = false) k) as H.
  { intros k. unfold HasBridgeErrors. induction k as [|x k IH]; [by split; [constructor|]|]. cbn. rewrite orb_false_iff, Forall_cons. by rewrite IH. }
  rewrite !H. unfold SortIssues. by rewrite sort_stable_perm.
Qed.
Lemma set_string_false s : set_string s = false ↔ s = "".
Proof. unfold set_string. rewrite negb_false_iff. apply bool_decide_eq_true. Qed.
Lemma set_string_true s : set_string s = true ↔ s ≠ "".
Proof. unfold set_string. rewrite negb_true_iff. apply bool_decide_eq_false. Qed.
Lemma not_among_false values s : not_among values s = false ↔ among values s.
Proof. unfold not_among, among. rewrite andb_false_iff, set_string_false, negb_false_iff, bool_decide_eq_true. done. Qed.
Lemma clean_int bad P o i : IsError i = true → (∀ v, bad v = false ↔ P v) → clean (int_issue bad o i) ↔ within P o.
Proof. intros Hi Hb. destruct o as [v|]; [|done]. cbn. rewrite clean_when, Hi, Hb. naive_solver. Qed.
Lemma clean_if {P : Prop} `{Decision P} l : clean (if decide P then [] else l) ↔ P ∨ clean l.
Proof. case_decide; naive_solver. Qed.

Section clean.
Context (quote : string → string).

Lemma pattern_issue_clean add what p : (∀ k m, IsError (add k m) = true) → clean (pattern_issue quote add what p) ↔ pattern_ok p.
Proof.
  intros Ha. unfold pattern_issue. rewrite <-pattern_spec. destruct (ValidateTopicPattern p); [|done].
  unfold HasBridgeErrors. cbn. rewrite Ha. by split.
Qed.

Lemma direction_spec t : tr_direction t = "" ∨ ValidDirection (tr_direction t) = true ↔ tr_direction t ∈ [""; "in"; "out"; "both"].
Proof. unfold ValidDirection. rewrite bool_decide_eq_true, !elem_of_cons, elem_of_nil. tauto. Qed.
Lemma rule_clean name rule seen :
  clean (validateTopicRule quote name rule seen).1 ↔ valid_rule rule ∧ topic_key rule ∉ seen.
Proof.
  unfold validateTopicRule. case_decide as Ht; cbn [fst].
  - split; [done|]. by intros [[[? _] _ _ _ _] _].
  - rewrite !clean_app, !clean_when, !clean_if, !pattern_issue_clean, !clean_error by done.
    rewrite andb_false_iff, negb_false_iff, bool_decide_eq_true, negb_false_iff, orb_false_iff, !Z.ltb_ge, bool_decide_eq_false.
    split.
    + intros (? & ? & ? & ? & ? & ?). split; [|naive_solver]. constructor; [done|apply direction_spec; naive_solver|naive_solver lia|naive_solver|naive_solver].
    + intros [[[? ?] Hd ? ? ?] ?]. apply direction_spec in Hd. naive_solver lia.
Qed.

Lemma rule_seen name rule seen : valid_rule rule → (validateTopicRule quote name rule seen).2 = {[topic_key rule]} ∪ seen.
Proof. intros [[Ht _] _ _ _ _]. unfold validateTopicRule. by rewrite decide_False. Qed.

Lemma fresh_union (k x : string) (seen : gset string) : k ∉ {[x]} ∪ seen ↔ k ≠ x ∧ k ∉ seen.
Proof. by rewrite not_elem_of_union, not_elem_of_singleton. Qed.

Lemma topic_rules_clean name rules :
  clean (topic_rules quote name rules) ↔ Forall valid_rule rules ∧ NoDup (topic_key <$> rules).
Proof.
  unfold topic_rules. set (step := λ s rule, _).
  assert (∀ acc seen, clean (foldl step (acc, seen) rules).1 ↔
    clean acc ∧ Forall valid_rule rules ∧ NoDup (topic_key <$> rules) ∧ Forall (λ k, k ∉ seen) (topic_key <$> rules)) as H.
  { induction rules as [|r rules IH]; intros acc seen; cbn [foldl fmap list_fmap].
    - split; [|tauto]. intros H. by repeat split; try constructor.
    - unfold step at 2. cbn [fst snd]. pose proof (rule_clean name r seen) as Hc. pose proof (rule_seen name r seen) as Hs.
      destruct (validateTopicRule quote name r seen) as [issues seen'] eqn:E. cbn [fst snd] in *.
      rewrite IH, clean_app, Hc, !Forall_cons, NoDup_cons. split.
      + intros ((? & ? & ?) & ? & ? & Hf). rewrite Hs in Hf by done. rewrite Forall_forall in Hf.
        assert (∀ k, k ∈ topic_key <$> rules → k ≠ topic_key r ∧ k ∉ seen) as Hk by (intros k Hk; by apply fresh_union, Hf).
        split_and!; try done; [by intros Hin; destruct (Hk _ Hin)|].
        apply Forall_forall. intros k Hin. by apply Hk.
      + intros (? & (? & ?) & (Hn & ?) & ? & Hf). rewrite Hs by done. split_and!; try done.
        rewrite Forall_forall in Hf |- *. intros k Hk. apply fresh_union. split; [by intros ->|by apply Hf]. }
  rewrite H. split; [tauto|]. intros [? ?]. split_and!; try done. by apply Forall_forall.
Qed.

Lemma name_clean name bridge : clean (name_issues name (λ k f m, mkBridgeIssue k "" bridge f "" m)) ↔ bridge_name name.
Proof.
  rewrite <-namePattern_spec. unfold name_issues. case_decide as Ht; [|rewrite clean_when, clean_error, negb_false_iff; naive_solver].
  split; [done|]. intros H%namePattern_spec%bridge_name_set. done.
Qed.

Lemma trim_required a : trim_space a = "" → SplitAddress a = Err AddressRequired.
Proof. intros H. unfold SplitAddress. by rewrite H. Qed.

Lemma address_clean a bridge : clean (address_issues quote a (λ k f m, mkBridgeIssue k "" bridge f "" m)) ↔
  ∃ host port, SplitAddress a = Ok (host, port) ∧ host_ok host.
Proof.
  setoid_rewrite <-validHost_spec. unfold address_issues. case_decide as Ht.
  - split; [done|]. rewrite trim_required by done. by intros (? & ? & ? & ?).
  - destruct (SplitAddress a) as [[host port]|e].
    + rewrite clean_when, clean_error, negb_false_iff. naive_solver.
    + split; [done|]. by intros (? & ? & ? & ?).
Qed.

Lemma head_none {A} (l : list A) : head l = None ↔ l = [].
Proof. by destruct l. Qed.
Lemma omap_nil {A B} (f : A → option B) l : omap f l = [] ↔ Forall (λ x, f x = None) l.
Proof.
  induction l as [|x l IH]; [by split; [constructor|]|]. rewrite Forall_cons, <-IH. cbn. by destruct (f x); naive_solver.
Qed.
Lemma restart_clean value : validateRestartTimeout value = None ↔
  1 ≤ length (fields value) ≤ 2 ∧ Forall (λ x, ∃ v, parsePort x = Ok v) (fields value).
Proof.
  unfold validateRestartTimeout. cbv zeta. destruct (_ || _) eqn:E.
  - split; [done|]. intros [? _]. apply orb_true_iff in E. rewrite Nat.eqb_eq, Nat.ltb_lt in E. lia.
  - apply orb_false_iff in E. rewrite Nat.eqb_neq, Nat.ltb_ge in E. rewrite head_none, omap_nil.
    assert (∀ x, restart_field x = None ↔ ∃ v, parsePort x = Ok v) as Hx.
    { intros x. unfold restart_field. destruct (parsePort x) as [v|e] eqn:Ep; [|naive_solver].
      apply parsePort_range in Ep as [? _]. rewrite (proj2 (Z.ltb_ge v 1)) by done. naive_solver. }
    rewrite !Forall_forall. setoid_rewrite Hx. split; [intros; split; [lia|done]|tauto].
Qed.

Lemma credentials_clean b : clean (credential_issues b).
Proof. unfold credential_issues. rewrite !clean_app, !clean_when. tauto. Qed.

Lemma is_value_false b o : is_value b o = false ↔ o ≠ Some b.
Proof. apply bool_decide_eq_false. Qed.

Definition valid_options (b : Bridge) : Prop :=
  among ProtocolVersions (br_protocol b) ∧ among StartTypes (br_start_type b)
  ∧ within (λ v, 5 ≤ v ≤ 65535)%Z (br_keepalive b) ∧ within (λ v, 1 ≤ v)%Z (br_threshold b)
  ∧ within (λ v, 0 ≤ v)%Z (br_idle_timeout b) ∧ within (λ v, 0 ≤ v)%Z (tl_max_packet_size (br_tls b))
  ∧ (br_restart_timeout b = "" ∨ validateRestartTimeout (br_restart_timeout b) = None)
  ∧ (br_notification_topic b ≠ "" → br_notifications b ≠ Some false).
Lemma options_clean b bridge : clean (option_issues b (λ k f m, mkBridgeIssue k "" bridge f "" m)) ↔ valid_options b.
Proof.
  unfold option_issues, valid_options. rewrite !clean_app, !clean_when, clean_if, !clean_error, !not_among_false.
  rewrite (clean_int _ (λ v, 5 ≤ v ≤ 65535)%Z), (clean_int _ (λ v, 1 ≤ v)%Z), !(clean_int _ (λ v, 0 ≤ v)%Z); try done;
    [|intros v; by rewrite Z.ltb_ge..|intros v; rewrite orb_false_iff, !Z.ltb_ge; lia].
  rewrite andb_false_iff, set_string_false, is_value_false.
  assert (clean (match validateRestartTimeout (br_restart_timeout b) with Some m => [mkBridgeIssue IssueKindValue "" bridge "restart_timeout" "" m] | None => [] end)
    ↔ validateRestartTimeout (br_restart_timeout b) = None) as -> by by destruct (validateRestartTimeout _).
  destruct (decide (br_notification_topic b = "")); naive_solver.
Qed.

Lemma tls_clean b bridge : clean (tls_issues b (λ k f m, mkBridgeIssue k "" bridge f "" m)) ↔ valid_tls (br_tls b).
Proof.
  unfold tls_issues. rewrite !clean_app, !clean_when, !clean_error, not_among_false.
  rewrite !andb_false_iff, !negb_false_iff, !set_string_false, !set_string_true.
  split.
  - intros (? & ? & ? & ? & ? & _). constructor; [|intros ?|naive_solver];
      destruct (decide (tl_cert_file (br_tls b) = "")), (decide (tl_key_file (br_tls b) = "")), (decide (tl_psk (br_tls b) = "")),
        (decide (tl_identity (br_tls b) = "")); naive_solver.
  - intros [Hp Hk Hv].
    destruct (decide (tl_cert_file (br_tls b) = "")), (decide (tl_key_file (br_tls b) = "")), (decide (tl_psk (br_tls b) = "")),
        (decide (tl_identity (br_tls b) = "")); naive_solver.
Qed.

Lemma bridge_clean b : clean (validateBridge quote b) ↔ valid_bridge b.
Proof.
  unfold validateBridge. rewrite !clean_app, name_clean, address_clean, clean_when, clean_error, topic_rules_clean, options_clean, tls_clean.
  rewrite bool_decide_eq_false. unfold valid_options. rewrite restart_clean. setoid_rewrite parsePort_seconds. pose proof (credentials_clean b). split.
  - intros (? & ? & ? & ? & ? & ? & ?). destruct_and!. constructor; naive_solver.
  - intros []. split_and!; naive_solver.
Qed.

(** *** Loops *)
Lemma self_clean b locals :
  clean (if decide (br_address b = "") then [] else self_loops b locals) ↔ ¬ reaches_itself locals b.
Proof.
  rewrite clean_if. unfold self_loops, reaches_itself. setoid_rewrite <-bindMatches_spec. destruct (SplitAddress (br_address b)) as [[host port]|e] eqn:E.
  - assert (br_address b ≠ "") as Hne by (intros H; by rewrite H in E). rewrite clean_bind, Forall_forall. split.
    + intros [?|H] (h & p & local & lh & [= <- <-] & Hin & El & Hm); [done|]. specialize (H local Hin).
      rewrite El, clean_when, clean_error, Hm, Z.eqb_refl in H. naive_solver.
    + intros H. right. intros local Hin. destruct (SplitAddress local) as [[lh lp]|] eqn:El; [|done]. rewrite clean_when. left.
      apply andb_false_iff. destruct (Z.eqb_spec port lp) as [->|]; [|by left]. right. apply not_true_iff_false. intros Hm. apply H.
      by exists host, lp, local, lh.
  - split; [|by right]. intros _ (? & ? & ? & ? & ? & _). done.
Qed.

Lemma bounces_spec o n : valid_rule o → valid_rule n → bounces o n = true ↔
  sends o ∧ receives n ∧ filters_overlap (remote_filter o) (remote_filter n) ∧ filters_overlap (local_filter o) (local_filter n).
Proof.
  intros Ho Hn. unfold bounces. rewrite !andb_true_iff, sends_spec, receives_spec, <-remote_overlap by done.
  rewrite <-(local_overlap n o). assert (filters_overlap (local_filter n) (local_filter o) ↔ filters_overlap (local_filter o) (local_filter n)) as ->; [|tauto].
  split; intros (f & g & ? & ? & ?%overlapping_sym); by exists g, f.
Qed.
Lemma forwards_spec a b : valid_rule a → valid_rule b → forwards a b = true ↔
  filters_overlap (local_filter a) (local_filter b) ∧ (sends a ∨ sends b) ∧ (receives a ∨ receives b).
Proof. intros Ha Hb. unfold forwards. rewrite !andb_true_iff, !orb_true_iff, !sends_spec, !receives_spec, local_overlap by done. tauto. Qed.

Lemma bounce_clean b : Forall valid_rule (br_topics b) → clean (rule_loops quote b) ↔ ¬ bounces_rules b.
Proof.
  assert (∀ {A} (l : list A) (P : nat * A → Prop), Forall P (imap pair l) ↔ ∀ i x, l !! i = Some x → P (i, x)) as Hi.
  { intros A l P. rewrite Forall_lookup. setoid_rewrite list_lookup_imap. split.
    - intros H i x Hx. apply (H i). by rewrite Hx.
    - intros H i [j x]. destruct (l !! i) as [y|] eqn:E; [|done]. intros [= <- <-]. by apply H. }
  intros Hv. rewrite Forall_lookup in Hv. unfold rule_loops, bounces_rules. rewrite clean_bind, Hi. setoid_rewrite clean_bind. setoid_rewrite Hi.
  setoid_rewrite clean_when. split.
  - intros H (i & j & o & n & Hij & Ho & Hn & Hb). apply bounces_spec in Hb; [|by eapply Hv..]. destruct (H i o Ho j n Hn) as [E|E]; [|done].
    rewrite Hb, andb_true_r, negb_false_iff, Nat.eqb_eq in E. done.
  - intros H i o Ho j n Hn. left. apply andb_false_iff. destruct (Nat.eqb_spec i j) as [->|Hij]; [by left|]. right.
    apply not_true_iff_false. intros Hb. apply H. exists i, j, o, n. do 3 (split; [done|]).
    apply bounces_spec; [by eapply Hv..|done].
Qed.

Lemma pair_clean a b : valid_bridge a → valid_bridge b → clean (pair_loops quote a b) ↔ ¬ shares_traffic a b.
Proof.
  intros Ha Hb. unfold pair_loops, shares_traffic. rewrite <-sameAddress_spec. destruct (_ || _) eqn:E.
  - split; [|done]. intros _ (Hs & _). rewrite Hs in E. apply bool_decide_eq_true in E. destruct (vb_address _ Ha) as (? & ? & H & _). by rewrite E in H.
  - apply orb_false_iff in E as [Es Ea]. apply negb_false_iff in Es. apply bool_decide_eq_false in Ea.
    assert (∀ ra rb, ra ∈ br_topics a → rb ∈ br_topics b → forwards ra rb = true ↔
      filters_overlap (local_filter ra) (local_filter rb) ∧ (sends ra ∨ sends rb) ∧ (receives ra ∨ receives rb)) as Hfw.
    { intros ra rb Hra Hrb. pose proof (vb_rules _ Ha) as Va. pose proof (vb_rules _ Hb) as Vb. rewrite Forall_forall in Va, Vb. apply forwards_spec; auto. }
    rewrite clean_bind, Forall_forall. setoid_rewrite clean_bind. setoid_rewrite Forall_forall. setoid_rewrite clean_when. split.
    + intros H (_ & ra & rb & Hra & Hrb & Hf). apply Hfw in Hf; [|done..]. destruct (H ra Hra rb Hrb); [congruence|done].
    + intros H ra Hra rb Hrb. left. apply not_true_iff_false. intros Hf%Hfw; [|done..]. apply H. split; [done|]. by exists ra, rb.
Qed.

Lemma shared_clean doc : Forall valid_bridge doc → clean (shared_loops quote doc) ↔ List.ForallOrdPairs (λ a b, ¬ shares_traffic a b) doc.
Proof.
  induction 1 as [|a doc Ha Hdoc IH]; cbn [shared_loops]; [by split; [constructor|]|]. rewrite clean_app, clean_bind, IH.
  assert (Forall (λ x, clean (pair_loops quote a x)) doc ↔ Forall (λ x, ¬ shares_traffic a x) doc) as ->.
  { rewrite !Forall_forall. rewrite Forall_forall in Hdoc. split; intros H x Hx; apply (pair_clean a x); auto. }
  split.
  - intros [? ?]. by constructor.
  - intros H. by inversion H.
Qed.

(** *** Identifiers *)
Definition fresh (ids : list string) (seen : gset string) : Prop := distinct_ids ids ∧ ∀ id, id ∈ ids → id ≠ "" → id ∉ seen.
Lemma fresh_cons id ids seen :
  fresh (id :: ids) seen ↔ (id = "" ∨ id ∉ seen) ∧ fresh ids (if decide (id = "") then seen else {[id]} ∪ seen).
Proof.
  unfold fresh, distinct_ids. destruct (decide (id = "")) as [->|Hne].
  - rewrite filter_cons_False by tauto. split; intros [? H]; (split; [tauto|]) || (split; [done|]); naive_solver set_solver.
  - rewrite filter_cons_True, NoDup_cons, list_elem_of_filter by done. setoid_rewrite fresh_union. setoid_rewrite elem_of_cons. naive_solver.
Qed.

Lemma id_clean b field what id (seen : gmap string string) : clean (id_issue quote b field what id seen) ↔ id = "" ∨ id ∉ dom seen.
Proof.
  unfold id_issue. rewrite clean_if, not_elem_of_dom. unfold HasBridgeErrors. destruct (seen !! id); cbn; naive_solver.
Qed.
Lemma dom_see_id b id (seen : gmap string string) : dom (see_id b id seen) = if decide (id = "") then dom seen else {[id]} ∪ dom seen.
Proof. unfold see_id. case_decide; [done|]. apply dom_insert_L. Qed.

Lemma step_clean s b : clean (va_issues (validate_step quote s b)) ↔
  clean (va_issues s) ∧ valid_bridge b ∧ (br_name b = "" ∨ br_name b ∉ va_seen s)
  ∧ (br_remote_id b = "" ∨ br_remote_id b ∉ dom (va_remote s)) ∧ (br_local_id b = "" ∨ br_local_id b ∉ dom (va_local s)).
Proof.
  unfold validate_step. cbn [va_issues]. rewrite !clean_app, bridge_clean, clean_when, clean_error, !id_clean.
  rewrite andb_false_iff, set_string_false, bool_decide_eq_false. naive_solver.
Qed.

Lemma fresh_nil seen : fresh [] seen.
Proof. split; [constructor|]. intros id Hin. by apply elem_of_nil in Hin. Qed.

Lemma steps_clean doc s : clean (va_issues (foldl (validate_step quote) s doc)) ↔
  clean (va_issues s) ∧ Forall valid_bridge doc ∧ fresh (br_name <$> doc) (va_seen s)
  ∧ fresh (br_remote_id <$> doc) (dom (va_remote s)) ∧ fresh (br_local_id <$> doc) (dom (va_local s)).
Proof.
  revert s. induction doc as [|b doc IH]; intros s; cbn [foldl fmap list_fmap].
  - split; [|tauto]. intros H. split_and!; [done|constructor|..]; apply fresh_nil.
  - rewrite IH, step_clean, Forall_cons, !fresh_cons. cbn [validate_step va_seen va_remote va_local]. rewrite !dom_see_id. tauto.
Qed.

Lemma fresh_empty ids : fresh ids ∅ ↔ distinct_ids ids.
Proof. unfold fresh. split; [tauto|]. intros H. split; [done|]. intros id _ _. apply not_elem_of_empty. Qed.

Lemma valid_name_set b : valid_bridge b → br_name b ≠ "".
Proof. intros [(c & rest & -> & _) _ _ _ _ _ _ _ _ _ _ _ _ _]. done. Qed.
Lemma distinct_names doc : Forall valid_bridge doc → distinct_ids (br_name <$> doc) ↔ NoDup (br_name <$> doc).
Proof.
  intros H. unfold distinct_ids. assert (filter (λ id, id ≠ "") (br_name <$> doc) = br_name <$> doc) as ->; [|done].
  induction H as [|b doc Hb _ IH]; [done|]. cbn [fmap list_fmap]. rewrite filter_cons_True by by apply valid_name_set. by f_equal.
Qed.

(** What the validation finds no error in. *)
Lemma document_clean doc locals : clean (ValidateBridges quote doc locals) ↔ valid_document doc locals.
Proof.
  unfold ValidateBridges, validateLoops. rewrite clean_sort, !clean_app, steps_clean, !clean_bind.
  cbn [va_issues va_seen va_remote va_local]. rewrite !dom_empty_L, !fresh_empty. setoid_rewrite self_clean.
  assert (Forall valid_bridge doc → Forall (λ b, clean (rule_loops quote b)) doc ↔ Forall (λ b, ¬ bounces_rules b) doc) as Hbounce.
  { rewrite !Forall_forall. intros Hv. split; intros H b Hb; apply bounce_clean; auto; by apply vb_rules, Hv. }
  split.
  - intros ((_ & Hb & Hn & ? & ?) & ? & ? & ?). constructor; try done; [by apply distinct_names|by apply Hbounce|by apply shared_clean].
  - intros []. split_and!; try done; [by apply distinct_names|by apply Hbounce|by apply shared_clean].
Qed.

(** [C10] The validation finds no error exactly for the documents that satisfy
    the rules: every bridge is well formed; names and client ids do not clash; no
    listener among the local addresses accepts the connection of a bridge; no two
    rules of a bridge, one that sends and one that receives, overlap on both
    sides; and no two bridges to the same address have rules that overlap on the
    local side and together send and receive.  The rules are stated on the texts:
    a host is accepted by its own address, by [0.0.0.0] when it is no IPv6 literal
    and by [::]; filters overlap level by level, as they are written (which for well placed
    wildcards is a topic that both match: [overlapping_topic]).  Three loops
    of a real broker are outside of them: a listener on [::] or in a braced block
    is not given to the check as such ([ipv6_wildcard_missed],
    [braced_listener_missed]), and a prefix that ends in a slash is joined with a
    second one ([prefix_slash_doubled]). *)
Theorem ValidateBridges_clean doc locals : HasBridgeErrors (ValidateBridges quote doc locals) = false ↔ valid_document doc locals.
Proof. apply document_clean. Qed.
End clean.

(** ** Properties *)

(** The overlap test of the loop detection is exact: for filters with
    ["#"] only at the end it says yes exactly when some topic, given by its
    levels, matches both.  (That a wildcard at the start does not match a topic
    that begins with ["$"] is left aside, as the code does.) *)
Theorem TopicsOverlap_exact a b : hash_last (split "/" a) → hash_last (split "/" b) →
  TopicsOverlap a b = true ↔ ∃ ts, a_topic ts ∧ matches (split "/" a) ts ∧ matches (split "/" b) ts.
Proof.
  intros Ha Hb. setoid_rewrite <-match_levels_spec. unfold TopicsOverlap. split.
  - intros H. assert (∃ ts, match_levels (split "/" a) ts = true ∧ match_levels (split "/" b) ts = true
      ∧ Forall (λ x, free_of "/" x = true) ts) as (ts & H1 & H2 & Hf).
    { destruct (decide (a = b)) as [->|]; [|apply overlap_complete; [done..|apply split_all_free|apply split_all_free|done]].
      destruct (hash_last_instance (split "/" b)) as (ts & ? & ?); [done|apply split_all_free|]. by exists ts. }
    destruct (match_nonempty _ _ _ H1 H2 (split_not_nil "/" a) (split_not_nil "/" b) Hf) as (ts' & ? & ? & ?). by exists ts'.
  - intros (ts & _ & H1 & H2). case_decide; [done|]. by eapply overlap_sound.
Qed.

(** So the overlap of two such filters, level by level, is a topic of both. *)
Lemma overlapping_topic a b : hash_last (split "/" a) → hash_last (split "/" b) →
  overlapping (split "/" a) (split "/" b) ↔ ∃ ts, a_topic ts ∧ matches (split "/" a) ts ∧ matches (split "/" b) ts.
Proof. intros Ha Hb. rewrite <-TopicsOverlap_spec. by apply TopicsOverlap_exact. Qed.

(** A pattern that [ValidateTopicPattern] accepts has its wildcards in place,
    unless it begins with ["$"]. *)
Lemma pattern_ok_hash p : pattern_ok p → has_prefix "$" p = false → hash_last (split "/" p).
Proof.
  intros H%pattern_spec Hd. unfold ValidateTopicPattern in H. rewrite Hd in H. repeat case_match; try done. by apply pattern_levels_hash.
Qed.

(** ** Examples *)
Lemma TopicsOverlap_exact_witness :
  hash_last (split "/" "a/+/c") ∧ hash_last (split "/" "a/b/#")
  ∧ ∃ ts, a_topic ts ∧ matches (split "/" "a/+/c") ts ∧ matches (split "/" "a/b/#") ts.
Proof.
  assert (hash_last (split "/" "a/+/c")) as H1 by (vm_compute; repeat split; intros ?; discriminate).
  assert (hash_last (split "/" "a/b/#")) as H2 by (vm_compute; repeat split; intros ?; discriminate).
  split; [exact H1|]. split; [exact H2|]. apply (TopicsOverlap_exact "a/+/c" "a/b/#" H1 H2). vm_compute. reflexivity.
Defined.

(** The listener on the IPv6 wildcard is written without brackets, so its
    address does not split into the wildcard and the port. *)
Lemma ipv6_wildcard_missed :
  match Conf.Parse ("listener 8883 ::" +:+ nl) "m.conf" with Ok f => SplitAddress <$> LocalAddresses f | Err _ => [] end = [Ok (":::8883", 1883%Z)]
  ∧ bindMatches ":::8883" "localhost" = false ∧ bindMatches "::" "localhost" = true.
Proof. vm_compute. done. Qed.

(** A prefix that ends in a slash is joined with a second one, so the overlap
    with the topic that is really used goes unseen. *)
Lemma prefix_slash_doubled :
  localTopic (mkTopicRule "x" "out" 0 "local/" "") = "local//x" ∧ TopicsOverlap "local//x" "local/x" = false.
Proof. vm_compute. done. Qed.

(** An example with every kind of rule, and one with a loop. *)
Example uplink_is_valid : HasBridgeErrors (ValidateBridges id [uplink] ["0.0.0.0:1883"]) = false.
Proof. vm_compute. reflexivity. Qed.
Example self_bridge_refused :
  bi_kind <$> ValidateBridges id [with_topics [mkTopicRule "a/#" "both" 0 "" ""] (set_secrets "" false "" false "" false (newBridge "b"))] []
  = ["address"].
Proof. vm_compute. reflexivity. Qed.
