(* ===== verification/BridgesText.v ===== *)
(** * Bridges that survive the text of mosquitto.conf

    [Bridges] reads and writes parsed files.  Here the written file is rendered
    and parsed again, as the next request and the broker do: the connections
    that were applied are read back, if their values are plain. *)
From S2P Require Import Prelude Unicode GoStrings GoStrconv Conf ConfEdit Bridges.

(** ** Specification *)
Definition plain_value (v : string) : Prop := v ≠ "" ∧ no_space v = true ∧ free_of quote_char v = true.
#[export] Instance plain_value_dec v : Decision (plain_value v).
Proof. unfold plain_value. apply _. Defined.
Definition pair_value (v : string) : Prop := fields v ≠ [] ∧ Forall plain_value (fields v) ∧ join " " (fields v) = v.
#[export] Instance pair_value_dec v : Decision (pair_value v).
Proof. unfold pair_value. apply _. Defined.

(** An option whose line holds its value: one token, or the fields of a restart
    timeout. *)
Definition plain_option (p : string * string) : Prop := p.2 = "" ∨ if String.eqb p.1 "restart_timeout" then pair_value p.2 else plain_value p.2.
#[export] Instance plain_option_dec p : Decision (plain_option p).
Proof. unfold plain_option. case_match; apply _. Defined.
Record plain_topic (t : TopicRule) : Prop := {
  pt_topic : plain_value (tr_topic t);
  pt_direction : tr_direction t = "" ∨ ValidDirection (tr_direction t) = true;
  pt_qos : int64_range (tr_qos t);
  pt_local : tr_local_prefix t = "" ∨ plain_value (tr_local_prefix t);
  pt_remote : tr_remote_prefix t = "" ∨ plain_value (tr_remote_prefix t)
}.
Record plain_bridge (b : Bridge) : Prop := {
  pb_name : plain_value (br_name b);
  pb_options : Forall plain_option (bridge_options b);
  pb_ints : int_field (br_keepalive b) ∧ int_field (br_threshold b) ∧ int_field (br_idle_timeout b) ∧ int_field (tl_max_packet_size (br_tls b));
  pb_topics : Forall plain_topic (br_topics b)
}.

(** No line reaches the limit of the scanner. *)
Definition short_lines (doc : BridgeDocument) : Prop :=
  Forall (λ it, line_too_long (spaces (it_indent it) +:+ join " " (it_key it :: it_values it)) = false) (renderDocument doc).

(** Items a scan cannot tell apart. *)
Definition scan_equiv (a b : Item) : Prop := ∀ s, scan_item s a = scan_item s b.

(** ** Lemmas *)
Lemma same_scan a b : same_item a b → scan_equiv a b.
Proof. intros (Hk & Hkey & Hv) s. unfold scan_item, applyOption. by rewrite Hk, Hkey, Hv. Qed.

Lemma scan_related items items' s : Forall2 scan_equiv items items' → foldl scan_item s items = foldl scan_item s items'.
Proof. intros H. revert s. induction H as [|a b items items' Hab _ IH]; intros s; [done|]. cbn [foldl]. by rewrite Hab. Qed.

Lemma plain_unquote v : plain_value v → unquote v = v.
Proof. intros (_ & _ & Hq). by apply unquote_free. Qed.

Lemma plain_good v : plain_value v → good_token v = true.
Proof.
  intros (Hne & Hs & Hq). unfold good_token. rewrite bool_decide_false by done. cbn [negb andb].
  assert (free_of space_char v = true ∧ free_of tab_char v = true) as [H1 H2] by (split; by apply no_space_free).
  clear Hne Hs. induction v as [|c v IH]; [done|]. unfold free_of in *. cbn [all_bytes token_ok] in *.
  apply andb_true_iff in Hq as [Hc Hq], H1 as [Hc1 H1], H2 as [Hc2 H2]. apply bool_decide_eq_true in Hc, Hc1, Hc2.
  rewrite decide_False by done. rewrite IH by done. unfold is_blank. by rewrite !bool_decide_false.
Qed.

Lemma plain_word v : plain_value v → v ≠ "" ∧ no_space v = true.
Proof. by intros (? & ? & _). Qed.

Lemma plain_itoa z : plain_value (itoa z).
Proof. split_and!; [apply itoa_not_empty|apply itoa_no_space|by apply itoa_free]. Qed.

(** A directive with a key of a connection and plain tokens. *)
Lemma plain_directive key values ws indent :
  key = "connection" ∨ IsConnectionKey key = true → Forall plain_value ws → join " " (key :: values) = join " " (key :: ws) →
  line_too_long (spaces indent +:+ join " " (key :: values)) = false → directive_line (conf_item key values indent) ws.
Proof.
  intros Hkey Hws Hj Hsh. assert (plain_value key ∧ to_lower key = key ∧ isBlockDirective key = false ∧ has_prefix "#" key = false) as (Hk & Hlow & Hbl & Hc).
  { assert (key ∈ "connection" :: connectionKeys) as Hin.
    { rewrite elem_of_cons. destruct Hkey as [->|Hkey]; [by left|right]. unfold IsConnectionKey in Hkey.
      apply existsb_exists in Hkey as (x & Hx & ->%String.eqb_eq). by apply list_elem_of_In. }
    clear Hkey Hj Hsh. revert key Hin. apply Forall_forall. repeat (constructor; [by vm_compute|]). constructor. }
  assert (Forall plain_value (key :: ws)) as Hall by by constructor.
  assert (Forall (λ w, w ≠ "" ∧ no_space w = true) (key :: ws)) as Hwords by (eapply Forall_impl; [exact Hall|]; apply plain_word).
  constructor; cbn [conf_item it_kind it_text it_key it_values it_indent].
  - done.
  - done.
  - split_and!; try done. apply word_spec. by apply plain_word.
  - eapply Forall_impl; [exact Hall|]. apply plain_good.
  - done.
  - by apply trim_space_join.
  - destruct ws as [|w ws]; [done|]. rewrite join_app_word by done. change "#" with (chr_str "#") in *. rewrite has_prefix_byte; [done|by apply plain_word].
  - split; [by apply words_free_nl|by apply words_free].
  - by rewrite <-Hj.
Qed.

Lemma option_scan key value it' : plain_option (key, value) → value ≠ "" →
  it_kind it' = ItemDirective → it_key it' = key →
  it_values it' = (if String.eqb key "restart_timeout" then fields value else [value]) → scan_equiv (option_item key value) it'.
Proof.
  intros [?|Hp] Hne Hk Hkey Hv; [done|]. cbn [fst snd] in Hp. destruct (String.eqb_spec key "restart_timeout") as [->|Hr].
  - destruct Hp as (_ & _ & Hj). intros s. unfold scan_item. rewrite Hk, Hkey. cbn [option_item conf_item it_kind it_key].
    repeat case_match; try done. do 2 f_equal. unfold applyOption. rewrite Hkey, Hv. cbn [option_item conf_item it_key it_values].
    cbn [String.eqb Ascii.eqb Bool.eqb]. by rewrite Hj.
  - apply same_scan. by repeat split.
Qed.

Lemma directives_readable items : Forall (λ it, it_kind it = ItemDirective ∧ ∃ line, reads_back scan_equiv false it line) items →
  rereadable scan_equiv false items ∧ block_run false items = Some false.
Proof.
  induction 1 as [|it items [Hk Hl] _ [IH1 IH2]]; [done|]. cbn [rereadable block_run].
  assert (block_step false it = Some false) as -> by (unfold block_step; by rewrite Hk). split; [|done]. split; [done|]. by intros b [= <-].
Qed.

Lemma plain_same it ws : directive_line it ws → it_values it = ws → ∃ line, reads_back scan_equiv false it line.
Proof.
  intros Hd Hv. eapply directive_reads; [exact Hd|]. intros it' Hk Hkey Hv'. apply same_scan. repeat split; [|done|congruence].
  by rewrite (dl_kind _ _ Hd).
Qed.

Lemma topic_values t : plain_topic t → Forall plain_value (it_values (renderTopic t)).
Proof.
  intros [Ht Hd Hq Hl Hr]. assert (plain_value (EffectiveDirection t)) as He.
  { unfold EffectiveDirection, ValidDirection in *. destruct (decide (tr_direction t = "")); [by vm_compute|]. destruct Hd as [|Hd]; [done|].
    apply bool_decide_eq_true in Hd. by destruct Hd as [->|[->| ->]]. }
  unfold renderTopic. cbn [conf_item it_values app]. repeat (constructor; [first [done|apply plain_itoa]|]).
  destruct (decide (tr_local_prefix t = "")); [constructor|]. destruct Hl as [|Hl]; [done|]. constructor; [done|].
  destruct (decide (tr_remote_prefix t = "")); [constructor|]. destruct Hr as [|Hr]; [done|]. by constructor.
Qed.

Lemma bridge_readable b : plain_bridge b →
  Forall (λ it, line_too_long (spaces (it_indent it) +:+ join " " (it_key it :: it_values it)) = false) (renderBridge b) →
  Forall (λ it, it_kind it = ItemDirective ∧ ∃ line, reads_back scan_equiv false it line) (renderBridge b).
Proof.
  intros [Hn Ho _ Ht] Hs. unfold renderBridge in *. apply Forall_cons in Hs as [Hs1 Hs]. apply Forall_app in Hs as [Hs2 Hs3].
  constructor; [split; [done|]|apply Forall_app; split].
  - apply (plain_same _ [br_name b]); [|done]. apply plain_directive; [by left|by apply Forall_singleton|done|exact Hs1].
  - apply Forall_bind. apply Forall_bind in Hs2. assert (Forall (λ p, IsConnectionKey p.1 = true) (bridge_options b)) as Hkeys by by repeat constructor.
    rewrite !Forall_forall in Ho, Hs2, Hkeys |- *. intros [key value] Hin. specialize (Ho _ Hin). specialize (Hs2 _ Hin). specialize (Hkeys _ Hin).
    cbn [fst] in Hkeys. change (Forall (λ it, it_kind it = ItemDirective ∧ ∃ line, reads_back scan_equiv false it line) (bridge_option key value)).
    change (Forall (λ it, line_too_long (spaces (it_indent it) +:+ join " " (it_key it :: it_values it)) = false) (bridge_option key value)) in Hs2.
    unfold bridge_option in *. destruct (String.eqb_spec value "") as [->|Hv]; [constructor|]. apply Forall_cons in Hs2 as [Hsh _].
    constructor; [|constructor]. split; [done|].
    pose proof (option_scan key value) as Hscan. pose proof Ho as [|Hp]; [done|]. cbn [fst snd] in Hp.
    eapply (directive_reads _ _ (if String.eqb key "restart_timeout" then fields value else [value])).
    + apply plain_directive; [by right| | |exact Hsh].
      * destruct (String.eqb_spec key "restart_timeout"); [by destruct Hp as (_ & ? & _)|by apply Forall_singleton].
      * destruct (String.eqb_spec key "restart_timeout"); [|done]. destruct Hp as (Hf & _ & Hj).
        rewrite (join_app_word key (fields value)), Hj by done. done.
    + intros it' Hk Hkey Hval. by apply Hscan.
  - apply Forall_fmap. apply Forall_fmap in Hs3. rewrite !Forall_forall in Ht, Hs3 |- *. intros t Hin. split; [done|].
    apply (plain_same _ (it_values (renderTopic t))); [|done]. apply (plain_directive "topic"); [by right|by apply topic_values, Ht|done|exact (Hs3 _ Hin)].
Qed.

Lemma document_readable doc : Forall plain_bridge doc → short_lines doc →
  rereadable scan_equiv false (renderDocument doc) ∧ block_run false (renderDocument doc) = Some false.
Proof.
  intros Hp Hs. apply directives_readable. unfold short_lines, renderDocument in *. apply Forall_bind. apply Forall_bind in Hs.
  rewrite !Forall_forall in Hp, Hs |- *. intros b Hb. by apply bridge_readable; [apply Hp|apply Hs].
Qed.

Lemma block_run_app inb a b : block_run inb (a ++ b) = c ← block_run inb a; block_run c b.
Proof. revert inb. induction a as [|it a IH]; intros inb; cbn; [done|]. destruct (block_step inb it); [apply IH|done]. Qed.

Lemma foreign_readable before items inb c : block_depth before = Z.b2z inb → rereadable scan_equiv inb items → block_run inb items = Some c →
  rereadable scan_equiv inb (foreign before items) ∧ block_run inb (foreign before items) = Some c.
Proof.
  revert before inb. induction items as [|it items IH]; intros before inb Hd; cbn [foreign rereadable block_run]; [done|].
  intros [Hl Hr]. destruct (block_step inb it) as [d|] eqn:E; [|done]. cbn. intros Hc.
  assert (block_depth (before ++ [it]) = Z.b2z d) as Hd'.
  { rewrite block_depth_snoc, Hd. unfold block_step in E. destruct (it_kind it), inb; by simplify_eq. }
  destruct (IH (before ++ [it]) d Hd' (Hr d eq_refl) Hc) as [H1 H2].
  destruct (decide (belongs before it)) as [[[Hk _] _]|_]; cbn [app rereadable block_run].
  - unfold block_step in E. rewrite Hk in E. by injection E as <-.
  - rewrite E. cbn. split; [|done]. split; [done|]. by intros e [= <-].
Qed.

Lemma blank_reads : ∃ line, reads_back scan_equiv false blank_item line.
Proof.
  exists "". constructor; [done..|]. intros s Hs. exists (comment_item "" (p_line s + 1) 0). split_and!; [by apply same_scan|done|].
  unfold parse_step. by vm_compute.
Qed.

(** A prefix that ends outside blocks, as the block structure sees it. *)
Lemma prefix_closed a b : block_run false (a ++ b) = Some false → block_depth a = 0%Z → block_run false a = Some false ∧ block_run false b = Some false.
Proof.
  rewrite block_run_app. destruct (block_run false a) as [c|] eqn:E; [|done]. cbn. intros Hb Hd.
  apply block_run_depth in E. rewrite Hd in E. by destruct c.
Qed.

Lemma applied_readable body path f doc : Conf.Parse body path = Ok f → Forall plain_bridge doc → short_lines doc →
  rereadable scan_equiv false (f_items (ApplyDocument f doc)) ∧ block_run false (f_items (ApplyDocument f doc)) = Some false.
Proof.
  intros Hf Hp Hs. pose proof (parsed_readable scan_equiv same_scan body path f Hf) as Hr.
  apply Parse_inv in Hf as (_ & _ & _ & Hb). destruct (document_readable doc Hp Hs) as [Hdr Hdb].
  destruct (ApplyDocument_items f doc) as [(pre & it & post & [E Ho _] & ->)|(_ & ->)].
  - pose proof Ho as [[Hk Hd] _]. rewrite E in Hb, Hr. destruct (prefix_closed _ _ Hb Hd) as [Hpre Hpost].
    destruct (readable_split _ _ _ _ _ Hr Hpre) as [Hr1 [_ Hr2]].
    assert (block_step false it = Some false) as Hit by (unfold block_step; by rewrite Hk). specialize (Hr2 _ Hit).
    cbn [block_run] in Hpost. rewrite Hit in Hpost. cbn in Hpost.
    destruct (foreign_readable (pre ++ [it]) post false false) as [H1 H2]; [by rewrite connection_directive|done..|].
    rewrite block_run_app, Hpre. cbn [mbind option_bind]. rewrite block_run_app, Hdb. cbn [mbind option_bind]. rewrite H2. split; [|done].
    apply readable_app; [done|]. rewrite Hpre. intros c [= <-]. apply readable_app; [done|]. rewrite Hdb. by intros c [= <-].
  - set (blank := if decide _ then [] else [blank_item]). assert (rereadable scan_equiv false blank ∧ block_run false blank = Some false) as [H1 H2].
    { unfold blank. case_decide; [done|]. split; [|done]. split; [apply blank_reads|done]. }
    rewrite block_run_app, Hb. cbn [mbind option_bind]. rewrite block_run_app, H2. cbn [mbind option_bind]. rewrite Hdb. split; [|done].
    apply readable_app; [done|]. rewrite Hb. intros c [= <-]. apply readable_app; [done|]. rewrite H2. by intros c [= <-].
Qed.

Lemma plain_writable b : plain_bridge b → writable b.
Proof.
  intros [Hn Ho Hi Ht]. constructor; [by apply plain_unquote| |done|].
  - eapply Forall_impl; [exact Ho|]. intros [key value] [Hv|Hv]; cbn [fst snd] in Hv; [right; by rewrite Hv|].
    destruct (String.eqb key "restart_timeout"); [by left|right]. by apply plain_unquote.
  - eapply Forall_impl; [exact Ht|]. intros t [H1 H2 H3 H4 H5]. constructor; try done; [by apply plain_unquote|..].
    + destruct H4 as [-> |H4]; [done|]. by apply plain_unquote.
    + destruct H5 as [-> |H5]; [done|]. by apply plain_unquote.
Qed.

(** Bridges survive the text.  When the values are plain (no white space,
    no quotes) and no line reaches the limit of the scanner, the file with the
    bridges is rendered, the text is parsed, and the connections read from it
    are the ones that were applied. *)
Lemma document_reread body path f doc : Conf.Parse body path = Ok f → Forall plain_bridge doc → short_lines doc →
  ∃ text f', RenderConf (ApplyDocument f doc) = Ok text ∧ Conf.Parse text path = Ok f' ∧ ParseBridges f' = written <$> doc.
Proof.
  intros Hf Hp Hs. destruct (applied_readable body path f doc Hf Hp Hs) as [Hr Hb].
  destruct (edited_read scan_equiv (f_items (ApplyDocument f doc)) path Hr Hb) as (text & f' & Ht & Hf' & _ & Hi).
  exists text, f'. split_and!; [|done|].
  - destruct (Parse_inv _ _ _ Hf) as (Hpath & _). unfold ApplyDocument in *. by rewrite Hpath.
  - rewrite <-(written_read body path f doc Hf) by (eapply Forall_impl; [exact Hp|]; apply plain_writable).
    unfold ParseBridges. by rewrite (scan_related _ _ _ Hi).
Qed.

(** ** Example *)
Lemma uplink_plain : plain_bridge uplink.
Proof.
  constructor; [by vm_compute| |by vm_compute|].
  - apply (bool_decide_unpack (Forall plain_option (bridge_options uplink))). vm_compute. exact I.
  - repeat (apply Forall_cons; split; [constructor; try (by vm_compute); (by left) || (by right; vm_compute)|]). constructor.
Qed.
Lemma document_reread_uplink : short_lines [uplink] ∧ ∃ text f', RenderConf (ApplyDocument bridged_file [uplink]) = Ok text
  ∧ Conf.Parse text "m.conf" = Ok f' ∧ ParseBridges f' = [written uplink].
Proof.
  assert (short_lines [uplink]) as H by (repeat (apply Forall_cons; split; [by vm_compute|]); constructor).
  split; [exact H|]. apply (document_reread bridged_body "m.conf" bridged_file [uplink]); [by vm_compute| |exact H].
  constructor; [exact uplink_plain|constructor].
Qed.
