(* ===== verification/Listeners.v ===== *)
(** * [internal/mosquitto/listeners]: the listeners of the broker

    [spec.go] (normalisation, rendering and parsing of a listener block) and
    [validator.go].  A nil map of options is the empty one.  [Normalize] writes
    through its pointer: it returns what it leaves and whether it succeeded.
    [Render] calls it on a copy that shares the list of protocols with the caller,
    who then sees them in lower case; that effect is left out.
    [print] is [unicode.IsPrint] beyond ASCII, for the quoted values. *)
From S2P Require Import Prelude Unicode GoStrings GoStrconv GoQuote GoNet Catalog Conf.

(** ** The data *)
Definition ProtocolMQTT : string := "mqtt".
Definition ProtocolWebSocket : string := "websockets".
Definition IsValidProtocol (p : string) : bool := bool_decide (p = ProtocolMQTT ∨ p = ProtocolWebSocket).

Record ListenerSpec := mkSpec {
  ls_id : string; ls_port : Z; ls_bind : string; ls_protocols : list string; ls_options : gmap string string;
  ls_tls : string; ls_restart : bool
}.
Definition set_protocols (l : list string) (s : ListenerSpec) : ListenerSpec :=
  mkSpec (ls_id s) (ls_port s) (ls_bind s) l (ls_options s) (ls_tls s) (ls_restart s).
Definition set_bind (b : string) (s : ListenerSpec) : ListenerSpec :=
  mkSpec (ls_id s) (ls_port s) b (ls_protocols s) (ls_options s) (ls_tls s) (ls_restart s).
Definition set_options (o : gmap string string) (s : ListenerSpec) : ListenerSpec :=
  mkSpec (ls_id s) (ls_port s) (ls_bind s) (ls_protocols s) o (ls_tls s) (ls_restart s).

Record Issue := mkListenerIssue { is_kind : string; is_listener : string; is_directive : string; is_message : string }.
Record OptionWarning := mkWarning { ow_kind : string; ow_listener : string; ow_key : string; ow_message : string }.
Inductive spec_error := ErrInvalidSpec | ScanTooLong.

(** ** [Normalize] *)

(** The loop stops at the first protocol that is not supported, which it has
    written in lower case. *)
Fixpoint normalize_protocols (l : list string) : list string * bool :=
  match l with
  | [] => ([], true)
  | p :: rest =>
      let q := to_lower p in
      if IsValidProtocol q then let '(out, ok) := normalize_protocols rest in (q :: out, ok) else (q :: rest, false)
  end.
Definition Normalize (spec : ListenerSpec) : ListenerSpec * bool :=
  let '(protocols, ok) := normalize_protocols (ls_protocols spec) in
  (set_protocols protocols (set_bind (if decide (ls_bind spec = "") then "0.0.0.0" else ls_bind spec) spec), ok).

(** ** [Validate] *)
Definition optionWhitelist : list string :=
  ["max_connections"; "http_dir"; "tls_version"; "cafile"; "certfile"; "keyfile"; "require_certificate"; "allow_anonymous"; "acl_file";
   "listener_allow_anonymous"; "password_file"].
Definition sortedOptionKeys (options : gmap string string) : list string := sort_strings ((map_to_list options).*1).
Definition optionEnabled (options : gmap string string) (key : string) : bool :=
  bool_decide (to_lower (trim_space (default "" (options !! key))) ∈ ["true"; "yes"; "on"; "1"]).
Definition has_option (key : string) (options : gmap string string) : bool := bool_decide (is_Some (options !! key)).

Definition tlsIssues (spec : ListenerSpec) : list Issue :=
  let o := ls_options spec in
  (if decide (has_option "certfile" o ≠ has_option "keyfile" o)
   then [mkListenerIssue "tls_options" (ls_id spec) "certfile" "certfile and keyfile must be configured together"] else [])
  ++ (if optionEnabled o "require_certificate" && negb (has_option "cafile" o)
      then [mkListenerIssue "tls_options" (ls_id spec) "require_certificate" "require_certificate needs a cafile"] else []).

(** The order of issues and of warnings; two that neither precedes are equal, so
    that any sort gives the same list. *)
Definition issue_less (a b : Issue) : bool :=
  if decide (is_listener a ≠ is_listener b) then string_less (is_listener a) (is_listener b)
  else if decide (is_kind a ≠ is_kind b) then string_less (is_kind a) (is_kind b)
  else string_less (is_message a) (is_message b).
Definition warning_less (a b : OptionWarning) : bool :=
  if decide (ow_listener a ≠ ow_listener b) then string_less (ow_listener a) (ow_listener b)
  else if decide (ow_key a ≠ ow_key b) then string_less (ow_key a) (ow_key b)
  else string_less (ow_message a) (ow_message b).

(** A port, an address and a protocol; the key the code builds from them tells
    them apart. *)
Abbreviation endpoint := (Z * string * string)%type (only parsing).

Section texts.
Context (print : Z → bool).
Local Abbreviation quote := (Quote print).

Definition protocol_step (spec : ListenerSpec) (st : gset endpoint * list Issue) (p : string) : gset endpoint * list Issue :=
  let '(seen, issues) := st in
  if negb (IsValidProtocol p) then (seen, issues ++ [mkListenerIssue "protocols_unknown" (ls_id spec) "protocol" ("unknown protocol " +:+ quote p)])
  else if decide ((ls_port spec, ls_bind spec, p) ∈ seen) then
    (seen, issues ++ [mkListenerIssue "duplicate" (ls_id spec) "listener"
      ("duplicate listener for port " +:+ itoa (ls_port spec) +:+ ", bind " +:+ ls_bind spec +:+ ", protocol " +:+ p)])
  else ({[(ls_port spec, ls_bind spec, p)]} ∪ seen, issues).
Definition spec_issues (spec : ListenerSpec) : list Issue :=
  (if ParseIP (ls_bind spec) then [] else [mkListenerIssue "bind" (ls_id spec) "" "bind must be an IP address"])
  ++ (if decide (1 ≤ ls_port spec ≤ 65535)%Z then [] else [mkListenerIssue "port_range" (ls_id spec) "" "port must be between 1 and 65535"])
  ++ (if decide (ls_protocols spec = []) then [mkListenerIssue "protocols_required" (ls_id spec) "protocol" "at least one protocol is required"] else []).
Definition option_warnings (spec : ListenerSpec) : list OptionWarning :=
  (λ key, mkWarning "options_unknown_key" (ls_id spec) key ("unknown option key " +:+ quote key))
    <$> filter (λ key, key ∉ optionWhitelist) (sortedOptionKeys (ls_options spec)).
Definition spec_step (st : gset endpoint * list Issue * list OptionWarning) (spec : ListenerSpec) : gset endpoint * list Issue * list OptionWarning :=
  let '(seen, issues, warnings) := st in
  let '(seen, issues) := foldl (protocol_step spec) (seen, issues ++ spec_issues spec) (ls_protocols spec) in
  (seen, issues ++ tlsIssues spec, warnings ++ option_warnings spec).
Definition Validate (specs : list ListenerSpec) : list Issue * list OptionWarning :=
  let '(_, issues, warnings) := foldl spec_step (∅, [], []) specs in
  (sort_stable issue_less issues, sort_stable warning_less warnings).

(** ** [Render] *)
Definition special_byte (c : ascii) : bool := bool_decide (c ∈ [space_char; tab_char; nl_char; cr_char; quote_char]).
Definition renderOptionValue (value : string) : string :=
  if all_bytes (λ c, negb (special_byte c)) value then value else quote value.
Definition protocol_line (p : string) : string := "    protocol " +:+ p.
Definition option_line (options : gmap string string) (key : string) : string :=
  "    " +:+ key +:+ " " +:+ renderOptionValue (default "" (options !! key)).
Definition block_lines (spec : ListenerSpec) : list string :=
  ("listener " +:+ itoa (ls_port spec) +:+ " " +:+ ls_bind spec)
  :: (protocol_line <$> sort_strings (ls_protocols spec)) ++ (option_line (ls_options spec) <$> sortedOptionKeys (ls_options spec)).
Definition Render (spec : ListenerSpec) : result spec_error string :=
  match Normalize spec with
  | (_, false) => Err ErrInvalidSpec
  | (spec, true) => match (Validate [spec]).1 with [] => Ok (unlines (block_lines spec)) | _ => Err ErrInvalidSpec end
  end.

Definition spec_less (a b : ListenerSpec) : bool :=
  if decide (ls_bind a = ls_bind b) then (ls_port a <? ls_port b)%Z else string_less (ls_bind a) (ls_bind b).
Fixpoint render_blocks (specs : list ListenerSpec) : result spec_error (list string) :=
  match specs with
  | [] => Ok []
  | spec :: rest => block ← Render spec; blocks ← render_blocks rest; Ok (trim_suffix nl block :: blocks)
  end.
Definition no_listeners : string := "# no listeners configured" +:+ nl.
Definition RenderAll (specs : list ListenerSpec) : result spec_error string :=
  match specs with
  | [] => Ok no_listeners
  | _ => blocks ← render_blocks (sort_stable spec_less specs); Ok (join (nl +:+ nl) blocks +:+ nl)
  end.

(** ** [ParseSpec] *)
Definition parseOptionValue (value : string) : option string :=
  if has_prefix (chr_str quote_char) value then Unquote value
  else if contains_byte space_char value || contains_byte tab_char value then None
  else Some value.
(** The specification so far, and whether its header was found. *)
Definition parse_spec_line (st : ListenerSpec * bool) (raw : string) : result spec_error (ListenerSpec * bool) :=
  let '(spec, headerFound) := st in
  let line := trim_space raw in
  if decide (line = "") then Ok st else if has_prefix "#" line then Ok st
  else match fields line with
  | [] => Ok st
  | key :: rest =>
      if decide (key = "listener") then
        match headerFound, rest with
        | false, [port; bind] =>
            match atoi port with
            | Some port => Ok (mkSpec (ls_id spec) port bind (ls_protocols spec) (ls_options spec) (ls_tls spec) (ls_restart spec), true)
            | None => Err ErrInvalidSpec
            end
        | _, _ => Err ErrInvalidSpec
        end
      else if decide (headerFound = false ∨ rest = []) then Err ErrInvalidSpec
      else if decide (key = "protocol") then
        match rest with
        | [p] => if IsValidProtocol (to_lower p) then Ok (set_protocols (ls_protocols spec ++ [to_lower p]) spec, headerFound) else Err ErrInvalidSpec
        | _ => Err ErrInvalidSpec
        end
      else match parseOptionValue (trim_space (trim_prefix key line)) with
      | Some value =>
          if decide (is_Some (ls_options spec !! key)) then Err ErrInvalidSpec
          else Ok (set_options (<[key := value]> (ls_options spec)) spec, headerFound)
      | None => Err ErrInvalidSpec
      end
  end.

(** [bufio.Scanner] with its default limit: the lines, until one is too long. *)
Definition scan_limit : Z := 64 * 1024.
Fixpoint parse_spec_lines (st : ListenerSpec * bool) (lines : list string) : result spec_error (ListenerSpec * bool) :=
  match lines with
  | [] => Ok st
  | l :: rest => if (scan_limit <=? Z.of_nat (String.length l))%Z then Err ScanTooLong else st ← parse_spec_line st l; parse_spec_lines st rest
  end.
Definition zero_spec : ListenerSpec := mkSpec "" 0 "" [] ∅ "" false.
Definition ParseSpec (text : string) : result spec_error ListenerSpec :=
  '(spec, headerFound) ← parse_spec_lines (zero_spec, false) (raw_lines text);
  if headerFound : bool then
    match Normalize spec with
    | (_, false) => Err ErrInvalidSpec
    | (spec, true) => match (Validate [spec]).1 with [] => Ok spec | _ => Err ErrInvalidSpec end
    end
  else Err ErrInvalidSpec.
End texts.

Definition secured : ListenerSpec :=
  mkSpec "tls" 8883 "" ["MQTT"; "websockets"] {["certfile" := "/c/cert.pem"; "keyfile" := "/c/my key.pem"; "max_connections" := "10"]} "" false.
Example secured_rendered :
  (t ← Render (λ _, true) secured; s ← ParseSpec (λ _, true) t; Ok (t, bool_decide (ls_options s = ls_options secured), ls_protocols s))
  = Ok (unlines ["listener 8883 0.0.0.0"; "    protocol mqtt"; "    protocol websockets"; "    certfile /c/cert.pem";
                 "    keyfile " +:+ Quote (λ _, true) "/c/my key.pem"; "    max_connections 10"], true, ["mqtt"; "websockets"]).
Proof. vm_compute. reflexivity. Qed.

(** ** Validation is exact *)
Record spec_ok (spec : ListenerSpec) : Prop := {
  so_bind : ParseIP (ls_bind spec) = true;
  so_port : (1 ≤ ls_port spec ≤ 65535)%Z;
  so_protocols : ls_protocols spec ≠ [] ∧ Forall (λ p, p = ProtocolMQTT ∨ p = ProtocolWebSocket) (ls_protocols spec);
  so_certificate : is_Some (ls_options spec !! "certfile") ↔ is_Some (ls_options spec !! "keyfile");
  so_authority : optionEnabled (ls_options spec) "require_certificate" = true → is_Some (ls_options spec !! "cafile")
}.
Definition endpoints (spec : ListenerSpec) : list endpoint := (λ p, (ls_port spec, ls_bind spec, p)) <$> ls_protocols spec.

Lemma protocol_steps print spec ps seen issues :
  let '(seen', issues') := foldl (protocol_step print spec) (seen, issues) ps in
  let new := (λ p, (ls_port spec, ls_bind spec, p)) <$> ps in
  (issues' = [] ↔ issues = [] ∧ Forall (λ p, p = ProtocolMQTT ∨ p = ProtocolWebSocket) ps ∧ NoDup new ∧ ∀ e, e ∈ new → e ∉ seen)
  ∧ (issues' = [] → seen' = list_to_set new ∪ seen).
Proof.
  revert seen issues. induction ps as [|p ps IH]; intros seen issues.
  { cbn. split; [|intros _; set_solver]. rewrite Forall_nil, NoDup_nil. split; [intros ->|by intros (? & _)]. split_and!; [done..|]. by intros e ?%elem_of_nil. }
  cbn [foldl]. set (e := (ls_port spec, ls_bind spec, p)). unfold protocol_step at 2. unfold IsValidProtocol. fold e.
  assert (∀ st : gset endpoint * list Issue, st.2 ≠ [] → let '(seen', issues') := foldl (protocol_step print spec) st ps in issues' ≠ []) as Hbad.
  { intros [sn iss] Hne. specialize (IH sn iss). destruct (foldl _ (sn, iss) ps) as [s' i']. cbv zeta in IH. intros ->. by destruct (proj1 (proj1 IH) eq_refl). }
  case_bool_decide as Hp; cbn [negb].
  2: { specialize (Hbad (seen, issues ++ [mkListenerIssue "protocols_unknown" (ls_id spec) "protocol" ("unknown protocol " +:+ Quote print p)])).
       destruct (foldl _ _ ps) as [s' i']. specialize (Hbad ltac:(cbn; by destruct issues)). cbn [fmap list_fmap]. rewrite Forall_cons. split; [tauto|done]. }
  destruct (decide (e ∈ seen)) as [Hin|Hin].
  { match goal with |- context [foldl _ ?st ps] => specialize (Hbad st) end. destruct (foldl _ _ ps) as [s' i']. specialize (Hbad ltac:(cbn; by destruct issues)).
    split; [|done]. split; [done|]. intros (_ & _ & _ & Hd). destruct (Hd e); [by left|done]. }
  specialize (IH ({[e]} ∪ seen) issues). destruct (foldl _ _ ps) as [s' i']. cbv zeta in IH. destruct IH as [IH1 IH2]. cbn [fmap list_fmap]. rewrite Forall_cons, NoDup_cons. fold e. split.
  - rewrite IH1. clear -Hp Hin. split.
    + intros (? & ? & ? & Hd). split_and!; [done..| |done|]. { intros He. apply (Hd e He). set_solver. }
      intros e' [->|He']%elem_of_cons; [done|]. specialize (Hd e' He'). set_solver.
    + intros (? & [_ ?] & [Hn ?] & Hd). split_and!; [done..|]. intros e' He'. assert (e' ∉ seen) by (apply Hd; by right). set_solver.
  - intros Hi. rewrite (IH2 Hi). cbn [list_to_set]. set_solver.
Qed.

Lemma spec_issues_nil spec : spec_issues spec ++ tlsIssues spec = [] ↔
  ParseIP (ls_bind spec) = true ∧ (1 ≤ ls_port spec ≤ 65535)%Z ∧ ls_protocols spec ≠ []
  ∧ (is_Some (ls_options spec !! "certfile") ↔ is_Some (ls_options spec !! "keyfile"))
  ∧ (optionEnabled (ls_options spec) "require_certificate" = true → is_Some (ls_options spec !! "cafile")).
Proof.
  unfold spec_issues, tlsIssues, has_option. rewrite !app_nil. split.
  - intros ([Hb [Hp Hl]] & Hc & Ha). destruct (ParseIP _); [|done]. destruct (decide (1 ≤ _ ≤ _)%Z) in Hp; [|done]. destruct (decide (_ = [])) in Hl; [done|].
    do 3 (split; [done|]). split.
    + destruct (decide _) as [|Hd] in Hc; [done|]. apply dec_stable in Hd.
      rewrite <-(bool_decide_eq_true (is_Some (ls_options spec !! "certfile"))), <-(bool_decide_eq_true (is_Some (ls_options spec !! "keyfile"))). by rewrite Hd.
    + intros He. rewrite He in Ha. by destruct (bool_decide_reflect (is_Some (ls_options spec !! "cafile"))) in Ha.
  - intros (-> & Hp & Hl & Hc & Ha). rewrite (decide_True _ _ Hp), (decide_False _ _ Hl). split; [done|]. split.
    + rewrite decide_False; [done|]. intros Hd. apply Hd. by apply bool_decide_ext.
    + destruct (optionEnabled _ _); [|done]. by rewrite bool_decide_true by auto.
Qed.
Lemma spec_steps print specs seen issues warnings :
  let '(seen', issues', _) := foldl (spec_step print) (seen, issues, warnings) specs in
  issues' = [] ↔ issues = [] ∧ Forall spec_ok specs ∧ NoDup (specs ≫= endpoints) ∧ ∀ e, e ∈ specs ≫= endpoints → e ∉ seen.
Proof.
  revert seen issues warnings. induction specs as [|spec specs IH]; intros seen issues warnings.
  { cbn. rewrite Forall_nil, NoDup_nil. split; [intros ->|by intros (? & _)]. split_and!; [done..|]. by intros e ?%elem_of_nil. }
  cbn [foldl mbind list_bind]. unfold spec_step at 2. pose proof (protocol_steps print spec (ls_protocols spec) seen (issues ++ spec_issues spec)) as Hp.
  destruct (foldl (protocol_step print spec) _ _) as [s1 i1]. cbv zeta in Hp. destruct Hp as [Hi Hs].
  specialize (IH s1 (i1 ++ tlsIssues spec) (warnings ++ option_warnings print spec)). destruct (foldl _ _ specs) as [[s2 i2] w2].
  rewrite IH, Forall_cons, NoDup_app, app_nil, Hi, app_nil. pose proof (spec_issues_nil spec) as Hspec. rewrite app_nil in Hspec.
  assert (spec_ok spec ↔ (ParseIP (ls_bind spec) = true ∧ (1 ≤ ls_port spec ≤ 65535)%Z ∧ ls_protocols spec ≠ []
    ∧ (is_Some (ls_options spec !! "certfile") ↔ is_Some (ls_options spec !! "keyfile"))
    ∧ (optionEnabled (ls_options spec) "require_certificate" = true → is_Some (ls_options spec !! "cafile")))
    ∧ Forall (λ p, p = ProtocolMQTT ∨ p = ProtocolWebSocket) (ls_protocols spec)) as ->.
  { split; [intros [? ? [? ?] ? ?]; tauto|]. intros ((? & ? & ? & ? & ?) & ?). by constructor. }
  rewrite <-Hspec. fold (endpoints spec) in *. setoid_rewrite elem_of_app. clear -Hi Hs. split.
  - intros ((((-> & Hsi) & Hval & Hnd & Hseen) & Htls) & Hok & Hnd' & Hseen').
    assert (s1 = list_to_set (endpoints spec) ∪ seen) as -> by (apply Hs, Hi; by rewrite Hsi).
    split_and!; try done.
    + intros e He He'. specialize (Hseen' e He'). set_solver.
    + intros e [He|He]; [by apply Hseen|]. specialize (Hseen' e He). set_solver.
  - intros (-> & (((Hsi & Htls) & Hval) & Hok) & (Hnd & Hdis & Hnd') & Hseen).
    assert (s1 = list_to_set (endpoints spec) ∪ seen) as -> by (apply Hs, Hi; rewrite Hsi; split_and!; auto).
    split_and!; auto. intros e He. rewrite not_elem_of_union, elem_of_list_to_set. split; [|by apply Hseen; right]. intros He'. by apply (Hdis e).
Qed.
Lemma sort_nil {A} (less : A → A → bool) l : sort_stable less l = [] ↔ l = [].
Proof. split; [|by intros ->]. intros Hs. pose proof (sort_stable_perm less l) as Hp. rewrite Hs in Hp. by apply Permutation_nil in Hp. Qed.

Lemma Validate_nil print specs : (Validate print specs).1 = [] ↔ Forall spec_ok specs ∧ NoDup (specs ≫= endpoints).
Proof.
  unfold Validate. pose proof (spec_steps print specs ∅ [] []) as Hs. destruct (foldl _ _ specs) as [[s i] w]. cbn [fst]. rewrite sort_nil, Hs.
  split; [tauto|]. intros [? ?]. split_and!; [done..|]. intros e _. set_solver.
Qed.
Lemma Validate_one print spec : (Validate print [spec]).1 = [] ↔ spec_ok spec ∧ NoDup (ls_protocols spec).
Proof.
  rewrite Validate_nil, Forall_singleton. cbn [mbind list_bind]. rewrite app_nil_r. unfold endpoints. split; (intros [? Hn]; split; [done|]).
  - by apply NoDup_fmap_1 in Hn.
  - apply NoDup_fmap_2; [|done]. by intros p q [= ->].
Qed.
Lemma normalize_supported l : Forall (λ p, p = ProtocolMQTT ∨ p = ProtocolWebSocket) l → normalize_protocols l = (l, true).
Proof. induction 1 as [|p l Hp Hl IH]; [done|]. cbn [normalize_protocols]. rewrite IH. by destruct Hp as [->| ->]. Qed.
Lemma Normalize_ok spec : spec_ok spec → Normalize spec = (spec, true).
Proof.
  intros [Hb _ [_ Hp] _ _]. unfold Normalize. rewrite normalize_supported by done. rewrite decide_False; [by destruct spec|]. intros E. by rewrite E in Hb.
Qed.

(** The validation of listeners finds no issue exactly for listeners with an
    IP address, a port, supported protocols and a complete certificate, no two of
    which serve the same protocol at the same place. *)
Theorem ValidateListeners_exact print specs :
  (Validate print specs).1 = [] ↔ Forall spec_ok specs ∧ NoDup (specs ≫= endpoints).
Proof. apply Validate_nil. Qed.
