(* ===== verification/ListenerText.v ===== *)
(** * Listener blocks as text: what is rendered is read back

    The lines of a block, their words, and the round trip of [Render] and
    [ParseSpec]. *)
From S2P Require Import Prelude Unicode GoStrings GoStrconv GoQuote GoNet Catalog Conf Listeners.

(** ** Trimming *)
Lemma trim_right_last m c : is_ascii c = true → is_space (byte_val c) = false → trim_right_space (m +:+ chr_str c) = m +:+ chr_str c.
Proof.
  intros Ha Hs. induction m as [|x m IH].
  - change ("" +:+ chr_str c) with (chr_str c). cbn [trim_right_space chr_str]. change (String c "") with ("" +:+ String c ""). rewrite all_space_app by done. by rewrite Hs.
  - rewrite app_cons_string. cbn [trim_right_space]. change (String x (m +:+ chr_str c)) with (String x m +:+ String c ""). rewrite all_space_app by done.
    rewrite Hs, andb_false_r. cbn [andb]. by rewrite IH.
Qed.
Lemma trimmed_not_space s : s ≠ "" → trim_right_space s = s → all_space s = false.
Proof. destruct s as [|c s]; [done|]. intros _. cbn [trim_right_space]. by destruct (all_space (String c s)). Qed.
Lemma trim_right_sep a b : b ≠ "" → trim_right_space b = b → trim_right_space (a +:+ String space_char b) = a +:+ String space_char b.
Proof.
  intros Hb Ht. pose proof (trimmed_not_space b Hb Ht) as Hall. induction a as [|x a IH].
  - change ("" +:+ ?y) with y. cbn [trim_right_space]. change (String space_char b) with ("" +:+ String space_char b). rewrite all_space_app by done.
    rewrite Hall, andb_false_r. by rewrite Ht.
  - rewrite app_cons_string. cbn [trim_right_space]. change (String x (a +:+ String space_char b)) with (String x a +:+ String space_char b).
    rewrite all_space_app by done. by rewrite Hall, andb_false_r, IH.
Qed.
(** A line of an option: blanks, a word, and a trimmed value. *)
Lemma trim_option n k v : word k = true → v ≠ "" → trim_space v = v → trim_space (spaces n +:+ k +:+ String space_char v) = k +:+ String space_char v.
Proof.
  intros [Hk Hn]%word_spec Hv Ht. unfold trim_space. rewrite trim_left_spaces, trim_left_app by done. apply trim_right_sep; [done|].
  unfold trim_space in Ht. rewrite <-Ht at 2. rewrite <-Ht at 1. apply trim_right_idem.
Qed.

Lemma substring_all n s : String.length s ≤ n → String.substring 0 n s = s.
Proof. revert n. induction s as [|c s IH]; intros [|n] Hn; cbn in *; [done..|lia|]. by rewrite IH by lia. Qed.
Lemma substring_tail a b : String.substring (String.length a) (String.length (a +:+ b)) (a +:+ b) = b.
Proof.
  rewrite length_app_string. generalize (String.length a) at 2 as m. induction a as [|c a IH]; intros m; [apply substring_all; lia|].
  rewrite app_cons_string. apply IH.
Qed.

(** ** Words *)
Lemma address_word s : all_bytes address_byte s = true → no_space s = true.
Proof.
  intros Hs. apply no_space_ascii. eapply all_bytes_impl; [|exact Hs]. intros c Hc.
  assert (implb (address_byte c) (is_ascii c && negb (is_space (byte_val c))) = true) as Hall by (destruct c as [[] [] [] [] [] [] [] []]; vm_compute; reflexivity).
  by rewrite Hc in Hall.
Qed.
Lemma hex_run_bytes s : ∃ a b, s = a +:+ b ∧ String.length a = hex_run s ∧ all_bytes is_hex_digit a = true.
Proof.
  induction s as [|c s (a & b & Hs & Hl & Ha)]; [by exists "", ""|]. cbn [hex_run]. destruct (is_hex_digit c) eqn:Hc; [|by exists "", (String c s)].
  exists (String c a), b. rewrite Hs at 1. split_and!; [done|cbn; by rewrite Hl|cbn; by rewrite Hc].
Qed.
Lemma hex_address s : all_bytes is_hex_digit s = true → all_bytes address_byte s = true.
Proof. apply all_bytes_impl. intros c Hc. unfold address_byte. by rewrite Hc. Qed.
Lemma ipv4_address s : ipv4_ok s = true → all_bytes address_byte s = true.
Proof.
  unfold ipv4_ok. intros [_ Hf]%andb_true_iff. rewrite <-(join_split "."%char s). rewrite forallb_forall in Hf.
  assert (Forall (λ x, all_bytes address_byte x = true) (split "."%char s)) as Hall.
  { apply Forall_forall. intros x Hx%list_elem_of_In%Hf. destruct x as [|c x]; [done|]. unfold octet_ok in Hx. apply andb_true_iff in Hx as [[Hx _]%andb_true_iff _].
    eapply all_bytes_impl; [|exact Hx]. intros d Hd. unfold address_byte, is_hex_digit. unfold is_digit in Hd. by rewrite Hd. }
  clear Hf. induction Hall as [|x l Hx Hl IH]; [done|]. destruct l as [|y l]; [done|]. rewrite join_cons by done. rewrite !all_bytes_app, Hx, IH. by vm_compute.
Qed.
Lemma ipv6_address fuel bytes e s : ipv6_loop fuel bytes e s = true → all_bytes address_byte s = true.
Proof.
  revert bytes e s. induction fuel as [|fuel IH]; intros bytes e s; cbn [ipv6_loop].
  { intros [Hs _]%andb_true_iff. by apply bool_decide_eq_true in Hs as ->. }
  cbv zeta. destruct (bool_decide _); [done|].
  destruct (hex_run_bytes s) as (a & b & -> & Hl & Ha). rewrite <-Hl, drop_bytes_app. pose proof (hex_address _ Ha) as Hadd.
  destruct b as [|c b]; [intros _; rewrite app_nil_r_string; done|]. destruct (decide (c = "."%char)) as [->|].
  { intros H4. apply ipv4_address. by repeat apply andb_true_iff in H4 as [H4 ?]. }
  destruct (decide (c = ":"%char)) as [->|]; [|done]. rewrite all_bytes_app, Hadd. destruct b as [|c' b]; [done|]. destruct (decide (c' = ":"%char)) as [->|].
  - destruct e; [done|]. destruct (decide (b = "")) as [->|]; [done|]. intros Hb%IH. exact Hb.
  - intros Hb%IH. exact Hb.
Qed.
Lemma ParseIP_address s : ParseIP s = true → all_bytes address_byte s = true.
Proof.
  intros Hp. unfold ParseIP in Hp. destruct (first_mark s) as [c|]; [|done].
  destruct (decide _); [by apply ipv4_address|]. destruct (decide _); [|done]. apply andb_true_iff in Hp as [_ Hp]. unfold ipv6_ok in Hp.
  repeat case_match; subst; try (by eapply ipv6_address); try done. exact (ipv6_address _ _ _ _ Hp).
Qed.
Lemma ParseIP_word s : ParseIP s = true → word s = true.
Proof. intros Hp. apply word_spec. split; [by intros ->|]. by apply address_word, ParseIP_address. Qed.

(** ** The value of an option *)
Section text.
Context (print : Z → bool).

(** A value that is written as it is has to survive the trimming of its line. *)
Definition plain_value (v : string) : Prop := all_bytes (λ c, negb (special_byte c)) v = true → v ≠ "" ∧ trim_space v = v.
Definition plain_key (k : string) : Prop := word k = true ∧ has_prefix "#" k = false.
Record plain_option (k v : string) : Prop := { po_key : plain_key k; po_name : k ∉ ["listener"; "protocol"]; po_value : plain_value v }.

Lemma special_free c s : special_byte c = true → all_bytes (λ c, negb (special_byte c)) s = true → contains_byte c s = false ∧ free_of c s = true.
Proof.
  intros Hc Hs. assert (free_of c s = true) as Hf; [|unfold contains_byte; fold (free_of c s); by rewrite Hf].
  eapply all_bytes_impl; [|exact Hs]. intros x Hx. apply bool_decide_eq_true. intros ->. by rewrite Hc in Hx.
Qed.
Lemma rendered_value v : plain_value v →
  let text := renderOptionValue print v in text ≠ "" ∧ trim_space text = text ∧ free_of nl_char text = true ∧ parseOptionValue text = Some v.
Proof.
  intros Hv. cbv zeta. unfold renderOptionValue, parseOptionValue. destruct (all_bytes _ v) eqn:Hs.
  - destruct (Hv Hs) as [Hne Ht]. split_and!; [done|done|by apply special_free|]. destruct v as [|c v]; [done|].
    assert (has_prefix (chr_str quote_char) (String c v) = false) as ->.
    { unfold has_prefix, chr_str. cbn [String.prefix]. destruct (ascii_dec quote_char c) as [<-|]; [done|done]. }
    by rewrite (proj1 (special_free space_char _ eq_refl Hs)), (proj1 (special_free tab_char _ eq_refl Hs)).
  - split; [done|]. split; [|split; [apply Quote_free|]].
    + assert (Quote print v = String quote_char (quote_go print 0 v) +:+ chr_str quote_char) as -> by done. unfold trim_space.
      rewrite app_cons_string, trim_left_no_space by (by rewrite decode_rune_ascii). rewrite <-app_cons_string. by apply trim_right_last.
    + assert (has_prefix (chr_str quote_char) (Quote print v) = true) as -> by apply has_prefix_app. apply Unquote_Quote.
Qed.

(** ** The lines of a block *)
Definition parses_to (st : ListenerSpec * bool) (line : string) (st' : ListenerSpec * bool) : Prop := parse_spec_line st line = Ok st'.
Lemma option_line_spaces o k : option_line print o k = spaces 4 +:+ k +:+ String space_char (renderOptionValue print (default "" (o !! k))).
Proof. done. Qed.
Lemma option_line_parsed spec o k v : o !! k = Some v → plain_option k v → ls_options spec !! k = None →
  parse_spec_line (spec, true) (option_line print o k) = Ok (set_options (<[k := v]> (ls_options spec)) spec, true).
Proof.
  intros Ho [[Hw Hh] Hk Hv] Hnew. rewrite option_line_spaces, Ho. cbn [default from_option id]. destruct (rendered_value v Hv) as (Hne & Ht & _ & Hp).
  set (text := renderOptionValue print v) in *. unfold parse_spec_line. rewrite trim_option by done. pose proof Hw as [Hk0 Hns]%word_spec.
  assert (fields (k +:+ String space_char text) = k :: fields text) as -> by by apply fields_cons.
  assert (has_prefix "#" (k +:+ String space_char text) = false) as ->.
  { destruct k as [|c k]; [done|]. unfold has_prefix in *. rewrite app_cons_string. cbn [String.prefix] in *. revert Hh. destruct (ascii_dec "#" c); [|done].
    intros Hd. by destruct k. }
  rewrite decide_False by (by destruct k). rewrite !not_elem_of_cons in Hk. destruct Hk as (Hk1 & Hk2 & _). rewrite decide_False by done.
  rewrite decide_False by (intros [?|Hf]; [done|]; revert Hf; apply fields_nonblank; by rewrite Ht). rewrite decide_False by done.
  assert (trim_prefix k (k +:+ String space_char text) = String space_char text) as ->.
  { unfold trim_prefix. rewrite has_prefix_app. apply substring_tail. }
  change (String space_char text) with (spaces 1 +:+ text). assert (trim_space (spaces 1 +:+ text) = text) as ->.
  { unfold trim_space. rewrite trim_left_spaces. exact Ht. }
  rewrite Hp. rewrite decide_False; [done|]. rewrite Hnew. by intros [? ?].
Qed.
Lemma header_parsed spec p b : int64_range p → word b = true →
  parse_spec_line (spec, false) ("listener " +:+ itoa p +:+ " " +:+ b) =
  Ok (mkSpec (ls_id spec) p b (ls_protocols spec) (ls_options spec) (ls_tls spec) (ls_restart spec), true).
Proof.
  intros Hp [Hb Hns]%word_spec. change ("listener " +:+ itoa p +:+ " " +:+ b) with (join " " ["listener"; itoa p; b]). unfold parse_spec_line.
  assert (Forall (λ w, w ≠ "" ∧ no_space w = true) ["listener"; itoa p; b]) as Hw.
  { repeat constructor; [done|..|done|done]; [apply itoa_not_empty|apply itoa_no_space]. }
  rewrite trim_space_join, fields_join by done. by rewrite decide_False, atoi_itoa by done.
Qed.
Lemma protocol_parsed spec p : p = ProtocolMQTT ∨ p = ProtocolWebSocket →
  parse_spec_line (spec, true) (protocol_line p) = Ok (set_protocols (ls_protocols spec ++ [p]) spec, true).
Proof. by intros [->| ->]. Qed.

Definition short_line (l : string) : Prop := (Z.of_nat (String.length l) < scan_limit)%Z.
Lemma parse_lines_app st a b : parse_spec_lines st (a ++ b) = st ← parse_spec_lines st a; parse_spec_lines st b.
Proof.
  revert st. induction a as [|l a IH]; intros st; [done|]. cbn [app parse_spec_lines]. destruct (_ <=? _)%Z; [done|].
  destruct (parse_spec_line st l) as [st'|e]; [apply IH|done].
Qed.
Lemma parse_lines_cons st l rest : short_line l → parse_spec_lines st (l :: rest) = st' ← parse_spec_line st l; parse_spec_lines st' rest.
Proof. intros Hl. cbn [parse_spec_lines]. by rewrite (proj2 (Z.leb_gt _ _)). Qed.
Lemma protocols_parsed spec l : Forall (λ p, p = ProtocolMQTT ∨ p = ProtocolWebSocket) l →
  parse_spec_lines (spec, true) (protocol_line <$> l) = Ok (set_protocols (ls_protocols spec ++ l) spec, true).
Proof.
  intros Hl. revert spec. induction Hl as [|p l Hp Hl IH]; intros spec; [by destruct spec; rewrite app_nil_r|]. cbn [fmap list_fmap].
  rewrite parse_lines_cons by (by destruct Hp as [->| ->]). rewrite protocol_parsed by done. change (?x ≫= ?f) with (f (set_protocols (ls_protocols spec ++ [p]) spec, true)). cbv beta.
  rewrite IH. cbn [ls_protocols set_protocols]. by rewrite <-app_assoc.
Qed.
Definition gathered (o acc : gmap string string) (keys : list string) : gmap string string := foldl (λ m k, <[k := default "" (o !! k)]> m) acc keys.
Lemma options_parsed o spec keys : NoDup keys → (∀ k, k ∈ keys → ls_options spec !! k = None ∧ ∃ v, o !! k = Some v ∧ plain_option k v) →
  Forall short_line (option_line print o <$> keys) →
  parse_spec_lines (spec, true) (option_line print o <$> keys) = Ok (set_options (gathered o (ls_options spec) keys) spec, true).
Proof.
  intros Hnd. revert spec. induction Hnd as [|k keys Hk Hnd IH]; intros spec Hkeys Hshort; [by destruct spec|]. cbn [fmap list_fmap] in *.
  apply Forall_cons in Hshort as [Hl Hshort]. destruct (Hkeys k) as (Hnew & v & Hv & Hplain); [by left|].
  rewrite parse_lines_cons, (option_line_parsed _ _ _ _ Hv) by done. change (?x ≫= ?f) with (f (set_options (<[k := v]> (ls_options spec)) spec, true)). cbv beta.
  rewrite IH; [|intros k' Hk'; destruct (Hkeys k') as [? ?]; [by right|]; split; [|done]|done].
  - cbn [gathered foldl]. unfold gathered. cbn [ls_options set_options foldl]. by rewrite Hv.
  - cbn [ls_options set_options]. rewrite lookup_insert_ne; [done|]. by intros ->.
Qed.
Lemma gathered_lookup o acc keys k : gathered o acc keys !! k = if decide (k ∈ keys) then Some (default "" (o !! k)) else acc !! k.
Proof.
  revert acc. induction keys as [|x keys IH]; intros acc; [done|]. cbn [gathered foldl]. fold (gathered o (<[x := default "" (o !! x)]> acc) keys). rewrite IH.
  destruct (decide (k ∈ keys)); [by rewrite decide_True by by right|]. destruct (decide (x = k)) as [->|Hx].
  - rewrite lookup_insert_eq, decide_True; [done|by left].
  - rewrite lookup_insert_ne, decide_False; [done| |done]. intros [?|?]%elem_of_cons; congruence.
Qed.
Lemma elem_of_option_keys o k : k ∈ sortedOptionKeys o ↔ is_Some (o !! k).
Proof.
  unfold sortedOptionKeys. rewrite elem_of_sort_strings, list_elem_of_fmap. split.
  - intros ([k' v] & -> & Hin%elem_of_map_to_list). by exists v.
  - intros [v Hv]. exists (k, v). split; [done|]. by apply elem_of_map_to_list.
Qed.
Lemma NoDup_option_keys o : NoDup (sortedOptionKeys o).
Proof. unfold sortedOptionKeys, sort_strings. rewrite sort_stable_perm. apply NoDup_fst_map_to_list. Qed.
Lemma gathered_all o : gathered o ∅ (sortedOptionKeys o) = o.
Proof.
  apply map_eq. intros k. rewrite gathered_lookup. destruct (decide _) as [[v Hv]%elem_of_option_keys|Hn].
  - by rewrite Hv.
  - rewrite elem_of_option_keys in Hn. symmetry. by apply eq_None_not_Some.
Qed.

Lemma Render_ok spec text : Render print spec = Ok text →
  let norm := (Normalize spec).1 in spec_ok norm ∧ NoDup (ls_protocols norm) ∧ text = unlines (block_lines print norm).
Proof.
  unfold Render. destruct (Normalize spec) as [norm []]; [|done]. destruct (Validate print [norm]).1 eqn:Hv; [|done]. intros [= <-]. cbn [fst].
  apply Validate_one in Hv as [? ?]. done.
Qed.
Definition plain_options (spec : ListenerSpec) : Prop := ∀ k v, ls_options spec !! k = Some v → plain_option k v.
Lemma block_lines_free spec : spec_ok spec → plain_options spec → Forall (λ l, free_of nl_char l = true) (block_lines print spec).
Proof.
  intros [Hb _ [_ Hp] _ _] Ho. apply ParseIP_word, word_spec in Hb as [_ Hb]. unfold block_lines. constructor; [|apply Forall_app; split].
  - assert (free_of nl_char (itoa (ls_port spec)) = true) as Hi by by apply itoa_free. rewrite !free_of_app, Hi. by apply word_free_nl.
  - apply Forall_fmap, Forall_forall. intros p Hin. rewrite elem_of_sort_strings in Hin. rewrite Forall_forall in Hp. by destruct (Hp p Hin) as [->| ->].
  - apply Forall_fmap, Forall_forall. intros k [v Hv]%elem_of_option_keys. destruct (Ho k v Hv) as [[[_ Hk]%word_spec _] _ Hpv].
    cbn. rewrite option_line_spaces, Hv, !free_of_app. cbn [default from_option id]. rewrite (free_of_spaces nl_char 4), (word_free_nl k) by done.
    change (String space_char ?x) with (chr_str space_char +:+ x). rewrite free_of_app. by apply rendered_value.
Qed.

(** A rendered listener is parsed back: the block gives the normalised
    listener, with its protocols in order, and without what is not written (its
    id, its certificate profile).  The options have to be words, their values to
    survive the trimming of a line or to be quoted, and the lines to fit the
    scanner. *)
Theorem ParseSpec_Render spec text :
  Render print spec = Ok text → plain_options spec → Forall short_line (block_lines print (Normalize spec).1) →
  let norm := (Normalize spec).1 in
  ParseSpec print text = Ok (mkSpec "" (ls_port norm) (ls_bind norm) (sort_strings (ls_protocols norm)) (ls_options spec) "" false).
Proof.
  intros (Hok & Hnd & ->)%Render_ok Ho Hshort. cbv zeta. set (norm := (Normalize spec).1) in *.
  assert (ls_options norm = ls_options spec) as Hopt. { unfold norm, Normalize. by destruct (normalize_protocols _). }
  assert (plain_options norm) as Hn by (intros k v; rewrite Hopt; apply Ho). pose proof Hok as [Hb Hport [Hne Hp] Hc Ha].
  unfold ParseSpec. rewrite raw_lines_unlines by by apply block_lines_free. unfold block_lines in *. apply Forall_cons in Hshort as [Hh Hshort].
  apply Forall_app in Hshort as [_ Hs]. rewrite parse_lines_cons by done.
  rewrite header_parsed; [|unfold int64_range; lia|by apply ParseIP_word]. cbn [mbind result_bind]. rewrite parse_lines_app, protocols_parsed.
  2: { apply Forall_forall. intros p Hin. rewrite elem_of_sort_strings in Hin. rewrite Forall_forall in Hp. by apply Hp. }
  cbn [mbind result_bind]. rewrite options_parsed; [|apply NoDup_option_keys| |done].
  2: { intros k [v Hv]%elem_of_option_keys. split; [done|]. exists v. split; [done|by apply Hn]. }
  unfold set_options, set_protocols. cbn [mbind result_bind ls_options ls_id ls_port ls_bind ls_protocols ls_tls ls_restart zero_spec app]. rewrite gathered_all, Hopt.
  set (spec' := mkSpec _ _ _ _ _ _ _). assert (spec_ok spec') as Hok'.
  { constructor; try done; [|by rewrite Hopt in Hc|by rewrite Hopt in Ha]. cbn [ls_protocols spec']. split.
    - intros E. change (sort_stable string_less (ls_protocols norm) = []) in E. apply sort_nil in E. done.
    - rewrite sort_strings_perm. done. }
  rewrite Normalize_ok by done. assert ((Validate print [spec']).1 = []) as ->; [|done]. apply Validate_one. split; [done|].
  cbn [ls_protocols spec']. by rewrite sort_strings_perm.
Qed.
End text.
