(* ===== verification/ComposePorts.v ===== *)
(** * [deploy/compose_ports.go]: the host ports a Compose service publishes

    The line parser and its cache.  [parseComposePorts] reads the lines with an
    early exit: an element of [compose_state] is what the loop keeps, and a step
    says whether the loop goes on.  The code walks the text by runes and by
    offsets in bytes; the characters it looks for are ASCII, so the walk by
    bytes is the same. *)
From S2P Require Import Prelude IO Unicode GoStrings GoStrconv GoTime Conf ListenerText.

(** ** Lines *)
Definition apostrophe : ascii := "'".
Definition is_quote (c : ascii) : bool := bool_decide (c = quote_char ∨ c = apostrophe).
Definition trim_quotes (s : string) : string := trim_right_bytes is_quote (trim_left_bytes is_quote s).
Fixpoint strip_comment_go (inQuote : option ascii) (s : string) : string :=
  match s with
  | EmptyString => ""
  | String c s' =>
      if is_quote c && bool_decide (inQuote = None ∨ inQuote = Some c)
      then String c (strip_comment_go (match inQuote with None => Some c | Some _ => None end) s')
      else if decide (c = "#"%char ∧ inQuote = None) then "" else String c (strip_comment_go inQuote s')
  end.
Definition stripComment (line : string) : string := strip_comment_go None line.
Fixpoint leading_spaces (s : string) : nat :=
  match s with String c s' => if decide (c = space_char) then S (leading_spaces s') else 0 | EmptyString => 0 end.

(** ** Ports *)
Definition valid_port (port : Z) : bool := bool_decide (1 ≤ port ≤ 65535)%Z.
Definition parsePort (raw : string) : option Z :=
  match atoi (trim_quotes (trim_space raw)) with Some port => if valid_port port then Some port else None | None => None end.
Definition parseHostFromComposePortEntry (entry : string) : option Z :=
  let entry := default "" (head (split "/" (trim_quotes (trim_space entry)))) in
  let parts := split ":" entry in
  if decide (length parts = 1) then parsePort (default "" (head parts)) else parsePort (default "" (parts !! (length parts - 2))).
Fixpoint compose_field_in (field : string) (parts : list string) : option string :=
  match parts with
  | [] => None
  | part :: rest =>
      match cut_at ":" part with
      | Some (key, value) => if decide (trim_space key = field) then Some (trim_quotes (trim_space value)) else compose_field_in field rest
      | None => compose_field_in field rest
      end
  end.
Definition composeField (entry field : string) : option string :=
  compose_field_in field (split "," (trim_space (trim_suffix "}" (trim_prefix "{" entry)))).

(** ** The loop *)
Record compose_state := mkComposeState {
  cs_services : option nat; cs_service : option nat; cs_ports : option nat; cs_out : list Z; cs_long : string
}.
Definition with_out (out : list Z) (long : string) (s : compose_state) : compose_state :=
  mkComposeState (cs_services s) (cs_service s) (cs_ports s) out long.
Definition flushLong (s : compose_state) : compose_state :=
  with_out (match parsePort (cs_long s) with Some port => cs_out s ++ [port] | None => cs_out s end) "" s.

Definition entry_step (entry : string) (s : compose_state) : compose_state :=
  if has_prefix "{" entry then
    match composeField entry "published" with Some published => with_out (cs_out s) published s | None => s end
  else if has_prefix "target:" entry then s
  else match parseHostFromComposePortEntry entry with Some port => with_out (cs_out s ++ [port]) (cs_long s) s | None => s end.
(** A line of the list of ports. *)
Definition ports_step (trimmed : string) (s : compose_state) : compose_state :=
  if has_prefix "- " trimmed then entry_step (trim_space (trim_prefix "- " trimmed)) (flushLong s)
  else if has_prefix "published:" trimmed then with_out (cs_out s) (trim_space (trim_prefix "published:" trimmed)) s
  else s.
Definition compose_step (service : string) (s : compose_state) (line : string) : compose_state * bool :=
  let trimmed := trim_space (stripComment line) in
  if decide (trimmed = "") then (s, true)
  else
    let indent := leading_spaces line in
    match cs_services s with
    | None => (if decide (trimmed = "services:") then mkComposeState (Some indent) (cs_service s) (cs_ports s) (cs_out s) (cs_long s) else s, true)
    | Some servicesIndent =>
        if decide (indent ≤ servicesIndent) then (s, false)
        else match cs_service s with
        | None => (if decide (trimmed = service +:+ ":") then mkComposeState (cs_services s) (Some indent) (cs_ports s) (cs_out s) (cs_long s) else s, true)
        | Some serviceIndent =>
            if decide (indent ≤ serviceIndent) then (flushLong s, false)
            else match cs_ports s with
            | None => (if decide (trimmed = "ports:") then mkComposeState (cs_services s) (cs_service s) (Some indent) (cs_out s) (cs_long s) else s, true)
            | Some portsIndent => if decide (indent ≤ portsIndent) then (flushLong s, false) else (ports_step trimmed s, true)
            end
        end
    end.

Inductive compose_error := ComposeScanTooLong | ComposeReadFailed | ComposeCancelled.
(** The scanner fails on a line of 64 KiB that the loop reaches. *)
Definition compose_line_limit : Z := 64 * 1024.
Fixpoint compose_lines (service : string) (s : compose_state) (lines : list string) : result compose_error compose_state :=
  match lines with
  | [] => Ok s
  | line :: rest =>
      if (compose_line_limit <=? Z.of_nat (String.length line))%Z then Err ComposeScanTooLong
      else let '(s', continue) := compose_step service s (drop_cr line) in
           if continue : bool then compose_lines service s' rest else Ok s'
  end.
Definition int_less (a b : Z) : bool := (a <? b)%Z.
Definition sort_ports : list Z → list Z := sort_stable int_less.
Definition compose_start : compose_state := mkComposeState None None None [] "".
Definition parseComposePorts (text service : string) : result compose_error (list Z) :=
  s ← compose_lines service compose_start (raw_lines text);
  Ok (sort_ports (dedup (cs_out (flushLong s)))).

(** ** The reader and its cache *)
Definition composePortsCacheTTL : Z := 5 * second.
Record composePortsReader := mkReader { cr_path : string; cr_service : string; cr_cached : list Z; cr_cachedAt : Z }.
Definition Configure (path service : string) (r : composePortsReader) : composePortsReader := mkReader path service [] time_zero.
Definition Disabled (r : composePortsReader) : bool := bool_decide (trim_space (cr_path r) = "").
Definition IsConfigured (r : composePortsReader) : bool := negb (Disabled r).
(** [cancelled] is the state of the context, [now] the clock and [read] what the
    file reader answers. *)
Definition HostPorts (cancelled : bool) (now : Z) (read : string → option string) : io composePortsReader compose_error (list Z) := λ r,
  if cancelled then (r, Err ComposeCancelled)
  else if Disabled r then (r, Ok [])
  else if bool_decide (cr_cachedAt r ≠ time_zero) && (now - cr_cachedAt r <? composePortsCacheTTL)%Z then (r, Ok (cr_cached r))
  else match read (cr_path r) with
  | None => (r, Err ComposeReadFailed)
  | Some data =>
      match parseComposePorts data (cr_service r) with
      | Err e => (r, Err e)
      | Ok ports => (mkReader (cr_path r) (cr_service r) ports now, Ok ports)
      end
  end.

(** ** Examples *)
Definition compose_sample : string := unlines [
  "# the stack"; "version: '3'"; "services:"; "  db:"; "    ports:"; "      - 5432:5432"; "  broker:   # the broker"; "    image: mosquitto"; "    ports:";
  "      - '1883:1883'"; "      - 127.0.0.1:8883:8883/tcp # tls"; "      - {target: 9001, published: '9001'}"; "      - target: 1884";
  "        published: 1884"; "      - 1883:1883"; "    restart: always"; "  web:"; "    ports:"; "      - 80:80"].
Example sample_ports : parseComposePorts compose_sample "broker" = Ok [1883; 1884; 8883; 9001]%Z.
Proof. vm_compute. reflexivity. Qed.

(** The list may stand at the indentation of its key, as YAML allows: the ports
    are not found.  A long entry that starts with its published port is read
    as a text with a colon, and a port of the container alone is reported as a
    port of the host. *)
Example same_indent_missed :
  parseComposePorts (unlines ["services:"; "  broker:"; "    ports:"; "    - 1883:1883"]) "broker" = Ok [].
Proof. vm_compute. reflexivity. Qed.
Example published_first :
  parseComposePorts (unlines ["services:"; "  broker:"; "    ports:"; "      - published: 1884"; "        target: 1883"]) "broker" = Ok [].
Proof. vm_compute. reflexivity. Qed.
Example container_only :
  parseComposePorts (unlines ["services:"; "  broker:"; "    ports:"; "      - 1883"]) "broker" = Ok [1883%Z].
Proof. vm_compute. reflexivity. Qed.

(** ** The ports that are reported *)
Definition published (l : list Z) : Prop := StronglySorted Z.lt l ∧ Forall (λ p, 1 ≤ p ≤ 65535)%Z l.

Lemma parsePort_valid raw p : parsePort raw = Some p → (1 ≤ p ≤ 65535)%Z.
Proof. unfold parsePort, valid_port. destruct (atoi _) as [q|]; [|done]. case_bool_decide; [by intros [= <-]|done]. Qed.
Lemma parseHost_valid entry p : parseHostFromComposePortEntry entry = Some p → (1 ≤ p ≤ 65535)%Z.
Proof. unfold parseHostFromComposePortEntry. destruct (decide _); apply parsePort_valid. Qed.

Abbreviation valid_out s := (Forall (λ p, 1 ≤ p ≤ 65535)%Z (cs_out s)) (only parsing).
Lemma flushLong_valid s : valid_out s → valid_out (flushLong s).
Proof.
  intros Hs. cbn. destruct (parsePort _) eqn:E; [|done]. apply Forall_app. split; [done|]. constructor; [|done]. by eapply parsePort_valid.
Qed.
Lemma ports_step_valid trimmed s : valid_out s → valid_out (ports_step trimmed s).
Proof.
  intros Hs. unfold ports_step, entry_step. pose proof (flushLong_valid s Hs) as Hf.
  repeat case_match; try done. cbn [cs_out with_out]. apply Forall_app. split; [done|]. constructor; [|done]. by eapply parseHost_valid.
Qed.
Lemma compose_step_valid service s line : valid_out s → valid_out (compose_step service s line).1.
Proof.
  intros Hs. unfold compose_step. repeat case_match; try done; cbn [fst]; [by apply flushLong_valid..|by apply ports_step_valid].
Qed.
Lemma compose_lines_valid service lines s s' : valid_out s → compose_lines service s lines = Ok s' → valid_out s'.
Proof.
  revert s. induction lines as [|l lines IH]; intros s Hs; cbn [compose_lines]; [by intros [= <-]|]. destruct (_ <=? _)%Z; [done|].
  pose proof (compose_step_valid service s (drop_cr l) Hs) as Hv. destruct (compose_step _ _ _) as [s1 []]; [by apply IH|by intros [= <-]].
Qed.

Lemma sort_ports_sorted l : NoDup l → StronglySorted Z.lt (sort_ports l).
Proof.
  intros Hn. assert (sorted_by int_less (sort_ports l)) as Hs.
  { apply sort_stable_sorted; unfold int_less; [intros x y; lia|intros x y z; lia]. }
  assert (NoDup (sort_ports l)) as Hd by (unfold sort_ports; by rewrite sort_stable_perm).
  induction Hs as [|x m Hm IH Hx]; [constructor|]. apply NoDup_cons in Hd as [Hxm Hd]. constructor; [by apply IH|].
  rewrite Forall_forall in Hx |- *. intros y Hy. specialize (Hx y Hy). unfold int_less in Hx. assert (x ≠ y) by (by intros ->). lia.
Qed.
Lemma parse_published text service l : parseComposePorts text service = Ok l → published l.
Proof.
  unfold parseComposePorts. intros (s & Hs & [= <-])%result_bind_ok. split; [apply sort_ports_sorted, NoDup_dedup|].
  apply Forall_forall. intros p. unfold sort_ports. rewrite elem_of_sort_stable, elem_of_dedup. revert p. apply Forall_forall, flushLong_valid.
  eapply compose_lines_valid; [|exact Hs]. constructor.
Qed.

Definition reader_ok (r : composePortsReader) : Prop := published (cr_cached r).
Lemma HostPorts_ok cancelled now read r : reader_ok r →
  wp (HostPorts cancelled now read) (λ r' res, reader_ok r' ∧ cr_path r' = cr_path r ∧ cr_service r' = cr_service r ∧ match res with
    | Err _ => r' = r
    | Ok l => published l ∧
        (Disabled r = true ∧ l = []
         ∨ r' = r ∧ l = cr_cached r ∧ cr_cachedAt r ≠ time_zero ∧ (now - cr_cachedAt r < composePortsCacheTTL)%Z
         ∨ cr_cachedAt r' = now ∧ cr_cached r' = l ∧ ∃ data, read (cr_path r) = Some data ∧ parseComposePorts data (cr_service r) = Ok l)
    end) r.
Proof.
  intros Hr. unfold wp, HostPorts. destruct cancelled; [done|]. destruct (Disabled r) eqn:Hd.
  { cbn. split_and!; try done; [split; constructor|by left]. }
   destruct (bool_decide _ && _) eqn:Hc; cbn [fst snd].
  { apply andb_true_iff in Hc as [Hz%bool_decide_eq_true Ht]. split_and!; try done. right; left. split_and!; try done. lia. }
  destruct (read (cr_path r)) as [data|] eqn:Hread; [|done]. destruct (parseComposePorts data (cr_service r)) as [l|e] eqn:Hl; [|done]. cbn [fst snd].
  apply parse_published in Hl as Hp. split_and!; try done. right; right. split_and!; eauto.
Qed.

(** ** A document that is read back *)
Definition plain_byte (c : ascii) : bool := negb (is_quote c) && bool_decide (c ≠ "#"%char).
Lemma strip_plain q s t : all_bytes plain_byte s = true → strip_comment_go q (s +:+ t) = s +:+ strip_comment_go q t.
Proof.
  induction s as [|c s IH]; [done|]. cbn [all_bytes]. unfold plain_byte at 1. intros [[Hq%negb_true_iff Hh%bool_decide_eq_true]%andb_true_iff Hs]%andb_true_iff.
  rewrite app_cons_string. cbn [strip_comment_go]. rewrite Hq. cbn [andb]. rewrite decide_False by tauto. by rewrite IH.
Qed.
Lemma strip_all s : all_bytes plain_byte s = true → stripComment s = s.
Proof. intros Hs. unfold stripComment. rewrite <-(app_nil_r_string s) at 1. rewrite strip_plain by done. cbn. apply app_nil_r_string. Qed.
Lemma leading_spaces_app n s : leading_spaces s = 0 → leading_spaces (spaces n +:+ s) = n.
Proof.
  intros Hs. induction n as [|n IH]; [done|]. change (spaces (S n)) with (String space_char (spaces n)). rewrite app_cons_string. cbn [leading_spaces].
  rewrite decide_True by done. by rewrite IH.
Qed.

Definition quoted (s : string) : string := chr_str quote_char +:+ s +:+ chr_str quote_char.
Definition mapping (m : Z * Z) : string := itoa m.1 +:+ String ":" (itoa m.2).
Definition mapping_line (m : Z * Z) : string := spaces 6 +:+ "-" +:+ String space_char (quoted (mapping m)).
Definition compose_document (before : list string) (service : string) (mappings : list (Z * Z)) (after : list string) : list string :=
  before ++ ["services:"; spaces 2 +:+ service +:+ ":"; spaces 4 +:+ "ports:"] ++ (mapping_line <$> mappings) ++ after.

Definition mapping_byte (c : ascii) : bool := is_digit c || bool_decide (c = "-"%char) || bool_decide (c = ":"%char).
Lemma mapping_byte_spec c : mapping_byte c = true →
  plain_byte c = true ∧ is_quote c = false ∧ is_ascii c = true ∧ is_space (byte_val c) = false ∧ c ≠ "/"%char ∧ c ≠ nl_char ∧ c ≠ cr_char.
Proof.
  intros Hc. assert (implb (mapping_byte c) (plain_byte c && negb (is_quote c) && is_ascii c && negb (is_space (byte_val c))
    && bool_decide (c ≠ "/"%char ∧ c ≠ nl_char ∧ c ≠ cr_char)) = true) as Hall by (destruct c as [[] [] [] [] [] [] [] []]; vm_compute; reflexivity).
  rewrite Hc in Hall. cbn [implb] in Hall. rewrite !andb_true_iff, !negb_true_iff, bool_decide_eq_true in Hall. tauto.
Qed.
Lemma mapping_bytes m : all_bytes mapping_byte (mapping m) = true.
Proof.
  unfold mapping. change (String ":" (itoa m.2)) with (chr_str ":" +:+ itoa m.2). rewrite !all_bytes_app, !itoa_bytes; try done;
    intros c Hc; unfold mapping_byte; by rewrite Hc.
Qed.
Lemma trim_quotes_quoted s : s ≠ "" → all_bytes mapping_byte s = true → trim_quotes (quoted s) = s.
Proof.
  intros Hne Hs. unfold quoted, trim_quotes. rewrite chr_str_app. cbn [trim_left_bytes is_quote]. 
  assert (∀ t, all_bytes mapping_byte t = true → trim_right_bytes is_quote (t +:+ chr_str quote_char) = t) as Hr.
  { induction t as [|c t IH]; [done|]. cbn [all_bytes]. intros [(_ & Hc & _)%mapping_byte_spec Ht]%andb_true_iff. rewrite app_cons_string. cbn [trim_right_bytes all_bytes].
    rewrite Hc. cbn [andb]. by rewrite IH. }
  destruct s as [|c s]; [done|]. pose proof Hs as [(_ & Hc & _)%mapping_byte_spec _]%andb_true_iff. rewrite app_cons_string. cbn [trim_left_bytes]. rewrite Hc.
  rewrite <-app_cons_string. by apply Hr.
Qed.

Definition short (l : string) : Prop := (Z.of_nat (String.length l) < compose_line_limit)%Z ∧ free_of nl_char l = true.
(** The first line behind the ports ends their list. *)
Definition ends_ports (l : string) : Prop := trim_space (stripComment (drop_cr l)) ≠ "" ∧ leading_spaces (drop_cr l) ≤ 4.
Record document_ok (before : list string) (service : string) (mappings : list (Z * Z)) (after : list string) : Prop := {
  do_before : Forall (λ l, trim_space (stripComment (drop_cr l)) ≠ "services:") before;
  do_service : all_bytes plain_byte service = true ∧ no_space service = true;
  do_mappings : Forall (λ m, 1 ≤ m.1 ≤ 65535 ∧ 1 ≤ m.2 ≤ 65535)%Z mappings;
  do_after : match after with [] => True | l :: _ => ends_ports l end;
  do_short : Forall short (compose_document before service mappings after)
}.

Lemma drop_cr_free l : free_of cr_char l = true → drop_cr l = l.
Proof.
  unfold drop_cr. intros Hl. destruct (trim_suffix_chr cr_char l) as [->|E]; [done|]. rewrite E in Hl. unfold free_of in Hl. rewrite all_bytes_app in Hl.
  apply andb_true_iff in Hl as [_ Hl]. vm_compute in Hl. done.
Qed.
Lemma mapping_free c m : mapping_byte c = false → free_of c (mapping m) = true.
Proof. intros Hc. eapply all_bytes_impl; [|apply mapping_bytes]. intros d Hd. apply bool_decide_eq_true. intros ->. congruence. Qed.
Lemma itoa_mapping z : all_bytes mapping_byte (itoa z) = true.
Proof. apply itoa_bytes; [|done]. intros c Hc. unfold mapping_byte. by rewrite Hc. Qed.
Lemma trim_quotes_mapping s : all_bytes mapping_byte s = true → trim_quotes s = s.
Proof.
  intros Hs. unfold trim_quotes. assert (∀ t, all_bytes mapping_byte t = true → trim_right_bytes is_quote t = t) as Hr.
  { induction t as [|c t IH]; [done|]. cbn [all_bytes trim_right_bytes]. intros [(_ & Hc & _)%mapping_byte_spec Ht]%andb_true_iff. rewrite Hc. cbn [andb]. by rewrite IH. }
  destruct s as [|c s]; [done|]. pose proof Hs as [(_ & Hc & _)%mapping_byte_spec _]%andb_true_iff. cbn [trim_left_bytes]. rewrite Hc. by apply Hr.
Qed.
Lemma mapping_no_space s : all_bytes mapping_byte s = true → no_space s = true.
Proof.
  intros Hs. apply no_space_ascii. eapply all_bytes_impl; [|exact Hs]. intros c (_ & _ & -> & -> & _)%mapping_byte_spec. done.
Qed.
Lemma parse_port_itoa z : (1 ≤ z ≤ 65535)%Z → parsePort (itoa z) = Some z.
Proof.
  intros Hz. unfold parsePort, valid_port. rewrite trim_space_word by apply itoa_no_space. rewrite trim_quotes_mapping by apply itoa_mapping.
  rewrite atoi_itoa by (unfold int64_range; lia). by rewrite bool_decide_eq_true_2.
Qed.
Lemma quoted_trimmed m : trim_space (quoted (mapping m)) = quoted (mapping m) ∧ quoted (mapping m) ≠ "".
Proof.
  split; [|done]. apply trim_space_word. unfold quoted. rewrite chr_str_app.
  apply no_space_ascii. cbn [all_bytes]. rewrite all_bytes_app. apply andb_true_iff. split; [done|]. apply andb_true_iff. split; [|done].
  eapply all_bytes_impl; [|apply mapping_bytes]. by intros c (_ & _ & -> & -> & _)%mapping_byte_spec.
Qed.
Lemma mapping_host m : (1 ≤ m.1 ≤ 65535)%Z → parseHostFromComposePortEntry (quoted (mapping m)) = Some m.1.
Proof.
  intros Hm. unfold parseHostFromComposePortEntry. rewrite (proj1 (quoted_trimmed m)), trim_quotes_quoted by (apply mapping_bytes || by unfold mapping; destruct (itoa m.1)).
  rewrite (split_free "/") by by apply mapping_free. change (default "" (head [mapping m])) with (mapping m). unfold mapping.
  rewrite split_app by (apply itoa_free; done). rewrite split_free by (apply itoa_free; done). cbn. by apply parse_port_itoa.
Qed.
Lemma mapping_line_strip m : stripComment (mapping_line m) = mapping_line m.
Proof.
  unfold stripComment, mapping_line. rewrite strip_plain by done. f_equal. unfold quoted. rewrite chr_str_app.
  change ("-" +:+ ?x) with (String "-" x). cbn [strip_comment_go]. cbn. do 3 f_equal.
  rewrite strip_plain; [done|]. eapply all_bytes_impl; [|apply mapping_bytes]. by intros c (? & _)%mapping_byte_spec.
Qed.
Lemma mapping_line_trim m : trim_space (mapping_line m) = "- " +:+ quoted (mapping m).
Proof. unfold mapping_line. by apply trim_option; [|apply quoted_trimmed..]. Qed.
Lemma mapping_line_step service m out : (1 ≤ m.1 ≤ 65535)%Z →
  compose_step service (mkComposeState (Some 0) (Some 2) (Some 4) out "") (drop_cr (mapping_line m))
  = (mkComposeState (Some 0) (Some 2) (Some 4) (out ++ [m.1]) "", true).
Proof.
  intros Hm. rewrite drop_cr_free. 2: { unfold mapping_line, quoted, free_of. rewrite !all_bytes_app. cbn [all_bytes]. rewrite !all_bytes_app. cbn.
    repeat (rewrite bool_decide_eq_true_2 by done). cbn [andb]. rewrite andb_true_r. by apply (mapping_free cr_char). }
  unfold compose_step. rewrite mapping_line_strip, mapping_line_trim. rewrite decide_False by done. cbn [cs_services cs_service cs_ports].
  unfold mapping_line. rewrite leading_spaces_app by done. cbn [decide decide_rel Nat.le_dec]. 
  repeat (rewrite decide_False by lia). unfold ports_step. rewrite has_prefix_app.
  unfold trim_prefix. rewrite has_prefix_app, substring_tail, (proj1 (quoted_trimmed m)). unfold entry_step.
  change (has_prefix "{" (quoted (mapping m))) with false. change (has_prefix "target:" (quoted (mapping m))) with false. cbv iota. by rewrite mapping_host.
Qed.

Lemma compose_lines_cons service s l rest : short l → compose_lines service s (l :: rest) =
  let '(s', continue) := compose_step service s (drop_cr l) in if continue : bool then compose_lines service s' rest else Ok s'.
Proof. intros [Hl _]. cbn [compose_lines]. by rewrite (proj2 (Z.leb_gt _ _)). Qed.
Lemma before_lines service lines rest : Forall (λ l, trim_space (stripComment (drop_cr l)) ≠ "services:") lines → Forall short lines →
  compose_lines service compose_start (lines ++ rest) = compose_lines service compose_start rest.
Proof.
  induction 1 as [|l lines Hl _ IH]; intros Hs; [done|]. apply Forall_cons in Hs as [Hsl Hs]. cbn [app]. rewrite compose_lines_cons by done. unfold compose_step.
  destruct (decide _); [by apply IH|]. cbn [cs_services compose_start]. rewrite decide_False by done. by apply IH.
Qed.
Lemma mapping_lines service mappings out rest : Forall (λ m, 1 ≤ m.1 ≤ 65535 ∧ 1 ≤ m.2 ≤ 65535)%Z mappings → Forall short (mapping_line <$> mappings) →
  compose_lines service (mkComposeState (Some 0) (Some 2) (Some 4) out "") ((mapping_line <$> mappings) ++ rest)
  = compose_lines service (mkComposeState (Some 0) (Some 2) (Some 4) (out ++ mappings.*1) "") rest.
Proof.
  revert out. induction mappings as [|m mappings IH]; intros out Hm Hs; cbn [fmap list_fmap app] in *; [by rewrite app_nil_r|].
  apply Forall_cons in Hm as [[Hm _] Hms]. apply Forall_cons in Hs as [Hsl Hs]. rewrite compose_lines_cons, mapping_line_step by done. cbv beta iota.
  rewrite IH by done. by rewrite <-app_assoc.
Qed.
Lemma after_lines service out after : match after with [] => True | l :: _ => ends_ports l end → Forall short after →
  ∃ s, compose_lines service (mkComposeState (Some 0) (Some 2) (Some 4) out "") after = Ok s ∧ cs_out (flushLong s) = out.
Proof.
  destruct after as [|l after]; [by eexists|]. intros [Ht Hn] [Hs _]%Forall_cons. rewrite compose_lines_cons by done. unfold compose_step.
  rewrite decide_False by done. cbn [cs_services cs_service cs_ports]. destruct (decide (leading_spaces _ ≤ 0)); [by eexists|].
  destruct (decide (leading_spaces _ ≤ 2)); [by eexists|]. rewrite decide_True by done. by eexists.
Qed.
Lemma service_line_step service : all_bytes plain_byte service = true → no_space service = true →
  compose_step service (mkComposeState (Some 0) None None [] "") (drop_cr (spaces 2 +:+ service +:+ ":"))
  = (mkComposeState (Some 0) (Some 2) None [] "", true).
Proof.
  intros Hp Hn. assert (no_space (service +:+ ":") = true) as Hns by (change ":" with (String ":" ""); by rewrite no_space_app, Hn).
  assert (free_of cr_char service = true) as Hcr by (by apply no_space_free).
  rewrite drop_cr_free. 2: { unfold free_of in *. rewrite !all_bytes_app, Hcr. done. }
  assert (all_bytes plain_byte (spaces 2 +:+ service +:+ ":") = true) as Hall by (rewrite !all_bytes_app, Hp; done).
  assert (trim_space (stripComment (spaces 2 +:+ service +:+ ":")) = service +:+ ":") as Ht.
  { rewrite strip_all by done. unfold trim_space. rewrite trim_left_spaces. fold (trim_space (service +:+ ":")). by apply trim_space_word. }
  unfold compose_step. rewrite Ht. rewrite decide_False by by destruct service. cbn [cs_services cs_service cs_ports].
  rewrite leading_spaces_app. 2: { destruct service as [|c service]; [done|]. rewrite app_cons_string. cbn [leading_spaces]. rewrite decide_False; [done|]. intros ->.
    apply (no_space_free space_char) in Hn; [|done..]. done. }
  rewrite decide_False by lia. by rewrite decide_True.
Qed.

Lemma compose_document_ports before service mappings after : document_ok before service mappings after →
  parseComposePorts (unlines (compose_document before service mappings after)) service = Ok (sort_ports (dedup mappings.*1)).
Proof.
  intros [Hb [Hsp Hsn] Hm Ha Hs]. unfold parseComposePorts. rewrite raw_lines_unlines by (eapply Forall_impl; [exact Hs|]; by intros l []).
  unfold compose_document in *. apply Forall_app in Hs as [Hs1 Hs]. apply Forall_app in Hs as [Hs2 Hs]. apply Forall_app in Hs as [Hs3 Hs4].
  rewrite before_lines by done. cbn [app]. apply Forall_cons in Hs2 as [H1 Hs2]. apply Forall_cons in Hs2 as [H2 Hs2]. apply Forall_cons in Hs2 as [H3 _].
  rewrite compose_lines_cons by done. change (compose_step service compose_start _) with (mkComposeState (Some 0) None None [] "", true). cbv beta iota.
  rewrite compose_lines_cons, service_line_step by done. cbv beta iota. rewrite compose_lines_cons by done.
  change (compose_step service _ _) with (mkComposeState (Some 0) (Some 2) (Some 4) [] "", true) at 1. cbv beta iota.
  rewrite mapping_lines by done. destruct (after_lines service ([] ++ mappings.*1) after Ha Hs4) as (s & -> & Hout). cbn. unfold flushLong in Hout. cbn in Hout. by rewrite Hout.
Qed.

(** A reader whose cache is not fresh answers the distinct host ports that
    the service of the Compose file publishes, in increasing order, and goes on
    answering them without the file until the cache expires. *)
Theorem HostPorts_document now read r before mappings after :
  Disabled r = false → (cr_cachedAt r = time_zero ∨ composePortsCacheTTL ≤ now - cr_cachedAt r)%Z → now ≠ time_zero →
  read (cr_path r) = Some (unlines (compose_document before (cr_service r) mappings after)) →
  document_ok before (cr_service r) mappings after →
  ∃ r' l, HostPorts false now read r = (r', Ok l) ∧ published l ∧ (∀ p, p ∈ l ↔ ∃ container, (p, container) ∈ mappings)
    ∧ ∀ now' read', (now' - now < composePortsCacheTTL)%Z → HostPorts false now' read' r' = (r', Ok l).
Proof.
  intros Hd Hc Hn Hread Hdoc. apply compose_document_ports in Hdoc as Hp. unfold HostPorts. rewrite Hd.
  assert (bool_decide (cr_cachedAt r ≠ time_zero) && (now - cr_cachedAt r <? composePortsCacheTTL)%Z = false) as ->.
  { destruct Hc as [->|Hc]; [by rewrite bool_decide_eq_false_2 by auto|]. rewrite (proj2 (Z.ltb_ge _ _)) by done. apply andb_false_r. }
  rewrite Hread, Hp. do 2 eexists. split; [done|]. split; [by eapply parse_published|]. split.
  - intros p. unfold sort_ports. rewrite elem_of_sort_stable, elem_of_dedup, list_elem_of_fmap. split.
    + intros ([q c] & -> & Hin). by exists c.
    + intros [c Hin]. by exists (p, c).
  - intros now' read' Ht. unfold Disabled in *. cbn [cr_path cr_cachedAt cr_cached]. rewrite Hd, bool_decide_eq_true_2 by done.
    by rewrite (proj2 (Z.ltb_lt _ _)).
Qed.
Definition example_reader : composePortsReader := Configure "/srv/docker-compose.yml" "broker" (mkReader "" "" [] 7).
Definition example_before : list string := ["# the stack"; "version: '3'"].
Definition example_after : list string := ["    restart: always"; "  web:"].
Definition example_mappings : list (Z * Z) := [(8883, 8883); (1883, 1883); (8883, 8884)]%Z.
Lemma HostPorts_document_witness :
  ∃ r' l, HostPorts false 0 (λ _, Some (unlines (compose_document example_before "broker" example_mappings example_after))) example_reader = (r', Ok l) ∧ published l
    ∧ (∀ p, p ∈ l ↔ ∃ container, (p, container) ∈ example_mappings)
    ∧ ∀ now' read', (now' - 0 < composePortsCacheTTL)%Z → HostPorts false now' read' r' = (r', Ok l).
Proof.
  apply (HostPorts_document 0 (λ _, Some (unlines (compose_document example_before "broker" example_mappings example_after))) example_reader
    example_before example_mappings example_after); [reflexivity|left; reflexivity|discriminate|reflexivity|].
  split.
  - refine (bool_decide_unpack _ _). vm_compute. exact I.
  - split; reflexivity.
  - repeat (constructor; [cbn; lia|]). constructor.
  - split; [vm_compute; discriminate|vm_compute; lia].
  - repeat (constructor; [split; [vm_compute; reflexivity|vm_compute; reflexivity]|]). constructor.
Defined.
