(* ===== verification/Plugins.v ===== *)
(** * [internal/mosquitto/plugins]: the plugins of mosquitto.conf

    [plugins.go] and [catalog.go] (the catalog of the plugins MCM manages) and
    [document.go] (the plugins of a parsed file as a document, its validation,
    and writing an edited document back).  A map is a [gmap]; where the code
    ranges over the map of the catalog the order is the one of [map_to_list], and
    [MatchModule_any_order] says when the order does not matter.  The callers
    always pass a file and a catalog, so the [nil] ones are left out. *)
From S2P Require Import Prelude Unicode GoStrings GoStrconv Catalog CatalogLoad Conf Settings.

(** ** The catalog *)
Definition ReloadRestart : string := "restart".
Record OptionSpec := mkOption { op_name : string; op_required : bool; op_default : string; op_placeholder : bool }.
Record PluginSpec := mkPluginSpec {
  ps_id : string; ps_title : string; ps_module : string; ps_modules : list string;
  ps_since : string; ps_reload : string; ps_options : list OptionSpec
}.
#[export] Instance OptionSpec_eq_dec : EqDecision OptionSpec.
Proof. solve_decision. Defined.
#[export] Instance PluginSpec_eq_dec : EqDecision PluginSpec.
Proof. solve_decision. Defined.

Definition FindOption (p : PluginSpec) (name : string) : option OptionSpec :=
  List.find (λ opt, equal_fold (op_name opt) name) (ps_options p).
Definition ManagedOptionNames (p : PluginSpec) : list string := op_name <$> ps_options p.

Record PluginCatalog := mkPluginCatalog { pc_version : string; pc_specs : gmap string PluginSpec; pc_order : list string }.

Definition LookupPlugin (c : PluginCatalog) (id : string) : option PluginSpec := pc_specs c !! to_lower (trim_space id).
Definition plugin_less (a b : PluginSpec) : bool := string_less (ps_id a) (ps_id b).
Definition PluginSpecs (c : PluginCatalog) : list PluginSpec := sort_stable plugin_less (map_to_list (pc_specs c)).*2.
Definition ModuleOf (c : PluginCatalog) (id : string) : string := from_option ps_module "" (LookupPlugin c id).

(** The file name of a path. *)
Definition moduleName (path : string) : string :=
  let trimmed := trim_space path in
  if decide (trimmed = "") then "" else default "" (last (split "/" trimmed)).
Definition has_module (name : string) (spec : PluginSpec) : bool :=
  existsb (λ candidate, bool_decide (moduleName candidate = name)) (ps_module spec :: ps_modules spec).
Definition match_module (specs : list PluginSpec) (path : string) : option PluginSpec :=
  let name := moduleName path in
  if decide (name = "") then None else List.find (has_module name) specs.
Definition MatchModule (c : PluginCatalog) (path : string) : option PluginSpec := match_module (map_to_list (pc_specs c)).*2 path.

Definition OptionPrefix : string := "plugin_opt_".
Definition OptionName (option : string) : string :=
  let option := trim_space option in if has_prefix OptionPrefix option then option else OptionPrefix +:+ option.
Definition StripOptionPrefix (name : string) : string := trim_prefix OptionPrefix (trim_space name).

Inductive plugin_spec_error := PluginNoID | PluginNoTitle | PluginNoModule | PluginNoReload | PluginReload | OptionNoName | OptionPrefixed | OptionTwice.
Definition option_check (seen : gset string) (opt : OptionSpec) : result plugin_spec_error (gset string) :=
  let name := trim_space (op_name opt) in
  if decide (name = "") then Err OptionNoName
  else if has_prefix OptionPrefix name then Err OptionPrefixed
  else if decide (to_lower name ∈ seen) then Err OptionTwice
  else Ok ({[to_lower name]} ∪ seen).
Definition ValidatePluginSpec (p : PluginSpec) : option plugin_spec_error :=
  if decide (trim_space (ps_id p) = "") then Some PluginNoID
  else if decide (trim_space (ps_title p) = "") then Some PluginNoTitle
  else if decide (trim_space (ps_module p) = "") then Some PluginNoModule
  else if decide (ps_reload p = "") then Some PluginNoReload
  else if decide (ps_reload p ≠ ReloadRestart) then Some PluginReload
  else match fold_result option_check ∅ (ps_options p) with Err e => Some e | Ok _ => None end.

(** [LoadVersion] over the decoded files. *)
Definition plugin_blank (p : PluginSpec) : bool := bool_decide (ps_id p = "" ∧ ps_title p = "" ∧ ps_module p = "").
Definition assemble_plugins (version : string) (parent : option PluginCatalog) (entries : list PluginSpec) (own : gmap string PluginSpec) : PluginCatalog :=
  let specs := own ∪ from_option pc_specs ∅ parent in
  mkPluginCatalog version specs (sort_strings (elements (dom specs))).
Definition LoadPlugins {Y} (files : gmap string (list (string * PluginSpec) * option Y)) : string → result (load_error plugin_spec_error Y) PluginCatalog :=
  LoadVersion ps_id plugin_blank ValidatePluginSpec assemble_plugins files.

(** ** The document *)
Record Plugin := mkPlugin { pl_id : string; pl_module : string; pl_options : gmap string string; pl_unknown : gmap string string }.
#[export] Instance Plugin_eq_dec : EqDecision Plugin.
Proof. solve_decision. Defined.
Definition PluginDocument := list Plugin.
Definition Known (p : Plugin) : bool := negb (bool_decide (trim_space (pl_id p) = "")).
Definition FindPlugin (doc : PluginDocument) (id : string) : option Plugin := List.find (λ p, equal_fold (pl_id p) id) doc.
Definition ManagedPlugins (doc : PluginDocument) : list Plugin := filter (λ p, Known p = true) doc.
Definition sortedKeys (m : gmap string string) : list string := sort_strings (elements (dom m)).

(** A [plugin] line and the [plugin_opt_] lines that belong to it, by their
    positions; of a repeated option the first line counts. *)
Record plugin_group := mkGroup { gr_index : nat; gr_module : string; gr_options : list (string * nat) }.
Definition option_index (g : plugin_group) (name : string) : option nat := snd <$> List.find (λ o, bool_decide (o.1 = name)) (gr_options g).
Definition optionOrder (g : plugin_group) : list string := (gr_options g).*1.
Definition lastOptionIndex (g : plugin_group) : nat := foldl (λ last o, Nat.max last o.2) (gr_index g) (gr_options g).

Record group_scan := mkGroups { gs_done : list plugin_group; gs_active : option plugin_group }.
Definition all_groups (s : group_scan) : list plugin_group := gs_done s ++ match gs_active s with Some g => [g] | None => [] end.
Definition group_item (s : group_scan) (x : nat * Item) : group_scan :=
  let '(i, it) := x in
  match it_kind it with
  | ItemDirective =>
      if String.eqb (it_key it) "plugin" then
        mkGroups (all_groups s) (match it_values it with [] => None | m :: _ => Some (mkGroup i m []) end)
      else if has_prefix OptionPrefix (it_key it) then
        match gs_active s with
        | None => s
        | Some g =>
            let name := StripOptionPrefix (it_key it) in
            match option_index g name with
            | Some _ => s
            | None => mkGroups (gs_done s) (Some (mkGroup (gr_index g) (gr_module g) (gr_options g ++ [(name, i)])))
            end
        end
      else s
  | _ => s
  end.
Definition groups (items : list Item) : list plugin_group := all_groups (foldl group_item (mkGroups [] None) (imap pair items)).

Definition optionValue (items : list Item) (g : plugin_group) (name : string) : string :=
  from_option (join " " ∘ it_values) "" (option_index g name ≫= (items !!.)).

(** ** [Extract] *)
Definition extract_option (cat : PluginCatalog) (items : list Item) (g : plugin_group) (entry : Plugin) (name : string) : Plugin :=
  let value := optionValue items g name in
  let managed := Known entry && from_option (λ spec, bool_decide (is_Some (FindOption spec name))) false (LookupPlugin cat (pl_id entry)) in
  if managed then mkPlugin (pl_id entry) (pl_module entry) (<[name := value]> (pl_options entry)) (pl_unknown entry)
  else mkPlugin (pl_id entry) (pl_module entry) (pl_options entry) (<[name := value]> (pl_unknown entry)).
Definition extract_group (cat : PluginCatalog) (items : list Item) (g : plugin_group) : Plugin :=
  foldl (extract_option cat items g) (mkPlugin (from_option ps_id "" (MatchModule cat (gr_module g))) (gr_module g) ∅ ∅) (optionOrder g).
Definition ExtractPlugins (f : File) (cat : PluginCatalog) : PluginDocument := extract_group cat (f_items f) <$> groups (f_items f).

(** ** [Validate] *)
Inductive plugin_message :=
  | ModuleMissing | ModuleLines | OptionInvalidName | OptionLines | NotSupported | ListedTwice | OptionMissing.
Record PluginIssue := mkPluginIssue { pi_kind : string; pi_plugin : string; pi_option : string; pi_message : plugin_message }.
#[export] Instance plugin_message_eq_dec : EqDecision plugin_message.
Proof. solve_decision. Defined.
#[export] Instance PluginIssue_eq_dec : EqDecision PluginIssue.
Proof. solve_decision. Defined.
Definition IssueUnknownPlugin : string := "unknown_plugin".
Definition IssueDuplicate : string := "duplicate".
Definition IssueMissingOption : string := "missing_option".
Definition IssueValue : string := "value".

(** [strings.ContainsAny(s, "\n\r")] *)
Definition multi_line (s : string) : bool := negb (free_of nl_char s && free_of cr_char s).
(** The loop of the code over the runes: every rune past the ASCII range is
    refused, so the bytes decide. *)
Definition option_char (c : ascii) : bool :=
  in_range 97 122 (byte_val c) || in_range 65 90 (byte_val c) || in_range 48 57 (byte_val c) || bool_decide (c = "_"%char).
Definition validOptionName (name : string) : bool :=
  let name := trim_space (StripOptionPrefix name) in negb (bool_decide (name = "")) && all_bytes option_char name.

Definition plugin_issue_if (b : bool) (issue : PluginIssue) : list PluginIssue := if b then [issue] else [].
Definition unknown_option_issues (p : Plugin) (name : string) : list PluginIssue :=
  plugin_issue_if (negb (validOptionName name)) (mkPluginIssue IssueValue (pl_module p) name OptionInvalidName)
  ++ plugin_issue_if (multi_line (default "" (pl_unknown p !! name))) (mkPluginIssue IssueValue (pl_module p) name OptionLines).
Definition unknown_issues (p : Plugin) : list PluginIssue :=
  plugin_issue_if (bool_decide (trim_space (pl_module p) = "")) (mkPluginIssue IssueValue "" "" ModuleMissing)
  ++ plugin_issue_if (multi_line (pl_module p)) (mkPluginIssue IssueValue "" "" ModuleLines)
  ++ (sortedKeys (pl_unknown p) ≫= unknown_option_issues p).

(** The value of an option that is not blank. *)
Definition set_value (options : gmap string string) (name : string) : option string :=
  match options !! name with Some v => if decide (trim_space v = "") then None else Some v | None => None end.
Definition plugin_option_issues (spec : PluginSpec) (p : Plugin) (opt : OptionSpec) : list PluginIssue :=
  match set_value (pl_options p) (op_name opt) with
  | None => plugin_issue_if (op_required opt) (mkPluginIssue IssueMissingOption (ps_id spec) (op_name opt) OptionMissing)
  | Some v => plugin_issue_if (multi_line v) (mkPluginIssue IssueValue (ps_id spec) (op_name opt) OptionLines)
  end.
Definition plugin_issues (cat : PluginCatalog) (s : list PluginIssue * gset string) (p : Plugin) : list PluginIssue * gset string :=
  let '(issues, seen) := s in
  if negb (Known p) then (issues ++ unknown_issues p, seen)
  else match LookupPlugin cat (pl_id p) with
  | None => (issues ++ [mkPluginIssue IssueUnknownPlugin (pl_id p) "" NotSupported], seen)
  | Some spec =>
      let id := to_lower (ps_id spec) in
      if decide (id ∈ seen) then (issues ++ [mkPluginIssue IssueDuplicate (ps_id spec) "" ListedTwice], seen)
      else (issues ++ plugin_issue_if (bool_decide (trim_space (pl_module p) = "")) (mkPluginIssue IssueValue (ps_id spec) "" ModuleMissing)
                   ++ (ps_options spec ≫= plugin_option_issues spec p), {[id]} ∪ seen)
  end.
Definition ValidatePlugins (doc : PluginDocument) (cat : PluginCatalog) : list PluginIssue := (foldl (plugin_issues cat) ([], ∅) doc).1.
Definition HasPluginErrors (issues : list PluginIssue) : bool := match issues with [] => false | _ => true end.

(** ** [Apply]: matching *)
Inductive plugin_error := PluginsInvalid (issues : list PluginIssue) | PluginNotSupported (id : string).
(** The group a desired plugin is matched to, [None] for a new plugin, and the
    path its [plugin] line must carry. *)
Record pluginMatch := mkMatch { pm_group : option nat; pm_module : string }.
Definition first_group (existing : list plugin_group) (claimed : gset nat) (P : plugin_group → bool) : option (nat * plugin_group) :=
  List.find (λ '(gi, g), negb (bool_decide (gi ∈ claimed)) && P g) (imap pair existing).
Definition same_plugin (cat : PluginCatalog) (spec : PluginSpec) (g : plugin_group) : bool :=
  match MatchModule cat (gr_module g) with Some matched => equal_fold (ps_id matched) (ps_id spec) | None => false end.
Definition claim (claimed : gset nat) (found : option (nat * plugin_group)) (module : plugin_group → string) (new_module : string) : pluginMatch * gset nat :=
  match found with
  | Some (gi, g) => (mkMatch (Some gi) (module g), {[gi]} ∪ claimed)
  | None => (mkMatch None new_module, claimed)
  end.
Definition match_plugin (cat : PluginCatalog) (existing : list plugin_group) (claimed : gset nat) (p : Plugin) : result plugin_error (pluginMatch * gset nat) :=
  let module := trim_space (pl_module p) in
  if negb (Known p) then
    Ok (claim claimed (first_group existing claimed (λ g, bool_decide (gr_module g = module))) gr_module module)
  else match LookupPlugin cat (pl_id p) with
  | None => Err (PluginNotSupported (pl_id p))
  | Some spec =>
      let module := if decide (module = "") then ps_module spec else module in
      Ok (claim claimed (first_group existing claimed (same_plugin cat spec)) (λ _, module) module)
  end.
Fixpoint match_plugins (cat : PluginCatalog) (existing : list plugin_group) (claimed : gset nat) (doc : PluginDocument)
    : result plugin_error (list (Plugin * pluginMatch) * gset nat) :=
  match doc with
  | [] => Ok ([], claimed)
  | p :: doc =>
      '(m, claimed) ← match_plugin cat existing claimed p;
      '(ms, claimed) ← match_plugins cat existing claimed doc;
      Ok ((p, m) :: ms, claimed)
  end.

(** ** [Apply]: the changes to the existing lines *)
Record plugin_edits := mkPluginEdits {
  pe_changed : gset string; pe_rewrite : gmap nat Item; pe_remove : gset nat; pe_insert : gmap nat (list Item)
}.
Definition no_edits : plugin_edits := mkPluginEdits ∅ ∅ ∅ ∅.
Definition rewrite_line (items : list Item) (i : nat) (name value : string) (x : plugin_edits) : plugin_edits :=
  match items !! i with
  | None => x
  | Some it =>
      let it' := mkItem (it_kind it) (it_key it) [value] (renderDirective (directiveName (it_text it) name) [value] (it_indent it)) (it_line it) (it_indent it) in
      mkPluginEdits ({[name]} ∪ pe_changed x) (<[i := it']> (pe_rewrite x)) (pe_remove x) (pe_insert x)
  end.
Definition remove_line (i : nat) (name : string) (x : plugin_edits) : plugin_edits :=
  mkPluginEdits ({[name]} ∪ pe_changed x) (pe_rewrite x) ({[i]} ∪ pe_remove x) (pe_insert x).
Definition new_line (name value : string) : Item := mkItem ItemDirective name [value] (renderDirective name [value] 0) (-1) 0.
Definition insert_line (i : nat) (name value : string) (x : plugin_edits) : plugin_edits :=
  mkPluginEdits ({[name]} ∪ pe_changed x) (pe_rewrite x) (pe_remove x) (<[i := default [] (pe_insert x !! i) ++ [new_line name value]]> (pe_insert x)).

Definition desired_options (spec : PluginSpec) (p : Plugin) : gmap string string :=
  foldl (λ m opt, match set_value (pl_options p) (op_name opt) with Some v => <[op_name opt := v]> m | None => m end) ∅ (ps_options spec).
(** The managed options that are not desired any more. *)
Definition drop_option (spec : PluginSpec) (desired : gmap string string) (x : plugin_edits) (o : string * nat) : plugin_edits :=
  match FindOption spec o.1 with
  | None => x
  | Some _ => match desired !! o.1 with Some _ => x | None => remove_line o.2 (OptionName o.1) x end
  end.
Definition write_option (items : list Item) (g : plugin_group) (desired : gmap string string) (x : plugin_edits) (opt : OptionSpec) : plugin_edits :=
  let name := op_name opt in
  match desired !! name with
  | None => x
  | Some value =>
      match option_index g name with
      | Some i => if String.eqb (optionValue items g name) value then x else rewrite_line items i (OptionName name) value x
      | None => insert_line (lastOptionIndex g) (OptionName name) value x
      end
  end.
Definition edit_group (cat : PluginCatalog) (items : list Item) (g : plugin_group) (p : Plugin) (module : string) (x : plugin_edits) : plugin_edits :=
  let x := if String.eqb module (gr_module g) then x else rewrite_line items (gr_index g) "plugin" module x in
  if negb (Known p) then x
  else match LookupPlugin cat (pl_id p) with
  | None => x
  | Some spec =>
      let desired := desired_options spec p in
      foldl (write_option items g desired) (foldl (drop_option spec desired) x (gr_options g)) (ps_options spec)
  end.
Definition edit_match (cat : PluginCatalog) (items : list Item) (existing : list plugin_group) (x : plugin_edits) (pm : Plugin * pluginMatch) : plugin_edits :=
  match pm_group pm.2 ≫= (existing !!.) with
  | None => x
  | Some g => edit_group cat items g pm.1 (pm_module pm.2) x
  end.
(** The groups that no plugin of the document claims, as far as the catalog
    knows them. *)
Definition drop_group (cat : PluginCatalog) (claimed : gset nat) (x : plugin_edits) (gg : nat * plugin_group) : plugin_edits :=
  let '(gi, g) := gg in
  if decide (gi ∈ claimed) then x
  else match MatchModule cat (gr_module g) with
  | None => x
  | Some _ => foldl (λ x o, remove_line o.2 (OptionName o.1) x) (remove_line (gr_index g) "plugin" x) (gr_options g)
  end.

(** ** [Apply]: the new plugins *)
Definition new_options (cat : PluginCatalog) (p : Plugin) : list (string * string) :=
  if Known p then
    match LookupPlugin cat (pl_id p) with
    | None => []
    | Some spec => omap (λ opt, pair (op_name opt) <$> set_value (pl_options p) (op_name opt)) (ps_options spec)
    end
  else omap (λ name, pair name <$> set_value (pl_unknown p) name) (sortedKeys (pl_unknown p)).
Definition new_block (cat : PluginCatalog) (pm : Plugin * pluginMatch) : list Item :=
  match pm_group pm.2 with
  | Some _ => []
  | None => new_line "plugin" (pm_module pm.2) :: ((λ o, new_line (OptionName o.1) o.2) <$> new_options cat pm.1)
  end.

(** The edited items.  A line that is removed takes what would be inserted after
    it along. *)
Definition edit_item (x : plugin_edits) (i : nat) (it : Item) : list Item :=
  if decide (i ∈ pe_remove x) then [] else default it (pe_rewrite x !! i) :: default [] (pe_insert x !! i).
Definition edit_items (x : plugin_edits) (items : list Item) : list Item := imap pair items ≫= λ '(i, it), edit_item x i it.
Definition insert_blocks (items added : list Item) : list Item :=
  match added with [] => items | _ => take (insertionIndex items) items ++ added ++ drop (insertionIndex items) items end.
Definition ApplyPluginDocument (f : File) (cat : PluginCatalog) (doc : PluginDocument) : result plugin_error (File * list string) :=
  let issues := ValidatePlugins doc cat in
  if HasPluginErrors issues then Err (PluginsInvalid issues)
  else
    let items := f_items f in
    let existing := groups items in
    '(matches, claimed) ← match_plugins cat existing ∅ doc;
    let x := foldl (drop_group cat claimed) (foldl (edit_match cat items existing) no_edits matches) (imap pair existing) in
    let added := matches ≫= new_block cat in
    let changed := pe_changed x ∪ list_to_set (it_key <$> added) in
    Ok (mkFile (insert_blocks (edit_items x items) added) (f_path f), sort_strings (elements changed)).

(** ** Specification: the lines of the plugins *)
Definition plugin_line (it : Item) : Prop := it_kind it = ItemDirective ∧ (it_key it = "plugin" ∨ has_prefix OptionPrefix (it_key it) = true).
#[export] Instance plugin_line_dec it : Decision (plugin_line it) := _.
Definition group_positions (g : plugin_group) : list nat := gr_index g :: (gr_options g).*2.
(** The lines of the plugins that the catalog knows. *)
Definition managed_line (cat : PluginCatalog) (items : list Item) (i : nat) : Prop :=
  Exists (λ g, is_Some (MatchModule cat (gr_module g)) ∧ i ∈ group_positions g) (groups items).
#[export] Instance managed_line_dec cat items i : Decision (managed_line cat items i) := _.
Definition unmanaged_items (cat : PluginCatalog) (items : list Item) : list Item :=
  (filter (λ x, ¬ managed_line cat items x.1) (imap pair items)).*2.

(** ** Lemmas: groups *)
Lemma elem_of_imap_pair {A} (l : list A) x : x ∈ imap pair l ↔ l !! x.1 = Some x.2.
Proof.
  rewrite list_elem_of_lookup. setoid_rewrite list_lookup_imap. split.
  - intros (i & (y & Hy & ->)%fmap_Some). done.
  - intros H. exists x.1. rewrite H. by destruct x.
Qed.
Lemma imap_pair_snd {A} (l : list A) : (imap pair l).*2 = l.
Proof. apply list_eq. intros i. rewrite list_lookup_fmap, list_lookup_imap. by destruct (l !! i). Qed.

Lemma option_index_elem g name i : option_index g name = Some i → (name, i) ∈ gr_options g.
Proof.
  unfold option_index. intros ([n j] & [Hin Hn]%find_some & ->)%fmap_Some. apply bool_decide_eq_true in Hn. cbn in *. subst n.
  by apply list_elem_of_In.
Qed.
Lemma option_index_position g name i : option_index g name = Some i → i ∈ group_positions g.
Proof. intros H%option_index_elem. right. by apply (list_elem_of_fmap_2 snd) in H. Qed.
Lemma last_position g : lastOptionIndex g ∈ group_positions g.
Proof.
  unfold lastOptionIndex, group_positions. generalize (gr_index g). induction (gr_options g) as [|o l IH]; intros n; cbn; [by left|].
  specialize (IH (Nat.max n o.2)). apply elem_of_cons in IH as [->|IH]; [|by do 2 right].
  destruct (Nat.max_spec n o.2) as [[_ ->]|[_ ->]]; [right; by left|by left].
Qed.

Lemma groups_inv (P : plugin_group → Prop) items :
  (∀ i it m ms, items !! i = Some it → it_kind it = ItemDirective → it_key it = "plugin" → it_values it = m :: ms → P (mkGroup i m [])) →
  (∀ g i it, P g → items !! i = Some it → it_kind it = ItemDirective → has_prefix OptionPrefix (it_key it) = true →
     option_index g (StripOptionPrefix (it_key it)) = None →
     P (mkGroup (gr_index g) (gr_module g) (gr_options g ++ [(StripOptionPrefix (it_key it), i)]))) →
  Forall P (groups items).
Proof.
  intros Hnew Hopt. unfold groups.
  assert (∀ l s, (∀ x, x ∈ l → items !! x.1 = Some x.2) → Forall P (all_groups s) → Forall P (all_groups (foldl group_item s l))) as H.
  { induction l as [|[i it] l IH]; intros s Hl Hs; [done|]. cbn [foldl]. apply IH; [intros x Hx; apply Hl; by right|].
    pose proof (Hl (i, it) ltac:(by left)) as Hi. cbn in Hi. unfold group_item. destruct (it_kind it) eqn:Ek; try done.
    destruct (String.eqb_spec (it_key it) "plugin") as [Ep|].
    - unfold all_groups at 1. cbn. apply Forall_app. split; [done|]. destruct (it_values it) as [|m ms] eqn:Ev; [constructor|].
      apply Forall_singleton. by eapply Hnew.
    - destruct (has_prefix _ _) eqn:Eh; [|done]. unfold all_groups in Hs. destruct (gs_active s) as [g|] eqn:Ea; [|by unfold all_groups; rewrite Ea].
      destruct (option_index g _) eqn:Eo; [by unfold all_groups; rewrite Ea|].
      unfold all_groups. cbn. apply Forall_app in Hs as [Hd Hg]. apply Forall_app. split; [done|]. apply Forall_singleton.
      rewrite Forall_singleton in Hg. exact (Hopt g i it Hg Hi Ek Eh Eo). }
  apply H; [|constructor]. intros x Hx. by apply elem_of_imap_pair.
Qed.
Lemma groups_lines items : Forall (λ g, ∀ i, i ∈ group_positions g → ∃ it, items !! i = Some it ∧ plugin_line it) (groups items).
Proof.
  apply groups_inv.
  - intros i it m ms Hi Hk Hp _ j. unfold group_positions. cbn. intros ->%list_elem_of_singleton. exists it. split; [done|]. split; [done|by left].
  - intros g i it Hg Hi Hk Hp _ j. unfold group_positions in *. cbn. rewrite fmap_app, elem_of_cons, elem_of_app. cbn.
    rewrite list_elem_of_singleton. intros [->|[?| ->]]; [apply Hg; by left|apply Hg; by right|]. exists it. split; [done|]. split; [done|by right].
Qed.

(** ** Lemmas: the edits *)
Lemma OptionName_prefix name : has_prefix OptionPrefix (OptionName name) = true.
Proof.
  unfold OptionName. cbv zeta. destruct (has_prefix OptionPrefix (trim_space name)) eqn:E; [done|]. apply has_prefix_app.
Qed.
Definition plugin_key (name : string) : Prop := name = "plugin" ∨ has_prefix OptionPrefix name = true.
Lemma new_line_plugin name value : plugin_key name → plugin_line (new_line name value).
Proof. by split. Qed.

Section edits.
Context (cat : PluginCatalog) (items : list Item).
Local Abbreviation managed := (managed_line cat items).
Record edits_ok (x : plugin_edits) : Prop := {
  eo_remove : ∀ i, i ∈ pe_remove x → managed i;
  eo_rewrite : ∀ i it, pe_rewrite x !! i = Some it → managed i ∧ plugin_line it;
  eo_insert : ∀ i l, pe_insert x !! i = Some l → managed i ∧ Forall plugin_line l;
  eo_changed : pe_changed x = ∅ → x = no_edits;
  eo_names : ∀ name, name ∈ pe_changed x → plugin_key name
}.

Lemma managed_group g i : g ∈ groups items → is_Some (MatchModule cat (gr_module g)) → i ∈ group_positions g → managed i.
Proof. intros Hg Hm Hi. apply Exists_exists. by exists g. Qed.
Lemma managed_plugin_line i it : managed i → items !! i = Some it → plugin_line it.
Proof.
  intros (g & Hg & _ & Hi)%Exists_exists Hit. pose proof (groups_lines items) as Hl. rewrite Forall_forall in Hl.
  destruct (Hl g Hg i Hi) as (it' & Hit' & Hp). congruence.
Qed.
Lemma union_not_empty (name : string) (X : gset string) : {[name]} ∪ X ≠ ∅.
Proof. set_solver. Qed.

Lemma no_edits_ok : edits_ok no_edits.
Proof. by split. Qed.
Lemma rewrite_line_ok i name value x : plugin_key name → managed i → edits_ok x → edits_ok (rewrite_line items i name value x).
Proof.
  intros Hname Hi Hx. unfold rewrite_line. destruct (items !! i) as [it|] eqn:E; [|done]. destruct Hx as [H1 H2 H3 H4 H5]. split; cbn.
  - done.
  - intros j it'. destruct (decide (i = j)) as [<-|Hne]; [rewrite lookup_insert_eq|rewrite lookup_insert_ne by done; apply H2].
    intros [= <-]. split; [done|]. by apply (managed_plugin_line i it).
  - done.
  - intros H. by apply union_not_empty in H.
  - intros n [->%elem_of_singleton|?]%elem_of_union; [done|by apply H5].
Qed.
Lemma remove_line_ok i name x : plugin_key name → managed i → edits_ok x → edits_ok (remove_line i name x).
Proof.
  intros Hname Hi [H1 H2 H3 H4 H5]. split; cbn; [|done|done| |].
  - intros j [->%elem_of_singleton|?]%elem_of_union; [done|by apply H1].
  - intros H. by apply union_not_empty in H.
  - intros n [->%elem_of_singleton|?]%elem_of_union; [done|by apply H5].
Qed.
Lemma insert_line_ok i name value x : plugin_key name → managed i → edits_ok x → edits_ok (insert_line i name value x).
Proof.
  intros Hname Hi [H1 H2 H3 H4 H5]. split; cbn; [done|done| | |].
  - intros j l. destruct (decide (i = j)) as [<-|Hne]; [rewrite lookup_insert_eq|rewrite lookup_insert_ne by done; apply H3].
    intros [= <-]. split; [done|]. apply Forall_app. rewrite Forall_singleton. split; [|by apply new_line_plugin].
    destruct (pe_insert x !! i) as [l|] eqn:E; [by eapply H3|constructor].
  - intros H. by apply union_not_empty in H.
  - intros n [->%elem_of_singleton|?]%elem_of_union; [done|by apply H5].
Qed.
End edits.
#[export] Hint Resolve rewrite_line_ok remove_line_ok insert_line_ok no_edits_ok : mcm.

Section apply.
Context (cat : PluginCatalog) (items : list Item).
Local Abbreviation managed := (managed_line cat items).
Local Abbreviation existing := (groups items).
Local Abbreviation ok := (edits_ok cat items).

(** *** Matching *)
Lemma first_group_found claimed P gi g : first_group existing claimed P = Some (gi, g) →
  existing !! gi = Some g ∧ (gi ∉ claimed) ∧ P g = true.
Proof.
  unfold first_group. intros [Hin H]%find_some. apply list_elem_of_In, elem_of_imap_pair in Hin. cbn in *.
  apply andb_true_iff in H as [Hc HP]. by apply negb_true_iff, bool_decide_eq_false in Hc.
Qed.
(** A plugin that is matched to a group is edited only when the catalog knows
    the group. *)
Definition match_ok (pm : Plugin * pluginMatch) : Prop :=
  ∀ gi, pm_group pm.2 = Some gi → ∃ g, existing !! gi = Some g
    ∧ (Known pm.1 = false ∧ pm_module pm.2 = gr_module g ∨ Known pm.1 = true ∧ is_Some (MatchModule cat (gr_module g))).
Lemma match_plugin_ok claimed p m claimed' : match_plugin cat existing claimed p = Ok (m, claimed') → match_ok (p, m).
Proof.
  unfold match_plugin. cbv zeta. destruct (Known p) eqn:Ek; cbn [negb].
  - destruct (LookupPlugin cat (pl_id p)) as [spec|]; [|done]. unfold claim.
    destruct (first_group _ _ _) as [[gi g]|] eqn:Ef; intros [= <- <-] gi'; cbn; [|done]. intros [= <-].
    apply first_group_found in Ef as (Hg & _ & Hs). exists g. split; [done|]. right. split; [done|].
    unfold same_plugin in Hs. by destruct (MatchModule cat (gr_module g)).
  - unfold claim. destruct (first_group _ _ _) as [[gi g]|] eqn:Ef; intros [= <- <-] gi'; cbn; [|done]. intros [= <-].
    apply first_group_found in Ef as (Hg & _ & _). exists g. split; [done|]. by left.
Qed.
Lemma match_plugins_ok claimed doc ms claimed' : match_plugins cat existing claimed doc = Ok (ms, claimed') → Forall match_ok ms ∧ ms.*1 = doc.
Proof.
  revert claimed ms. induction doc as [|p doc IH]; intros claimed ms; cbn [match_plugins]; [by intros [= <- _]|].
  intros ([m c1] & Hm & H)%result_bind_ok. apply result_bind_ok in H as ([ms1 c2] & Hms & [= <- <-]).
  apply match_plugin_ok in Hm. destruct (IH _ _ Hms) as [Ho <-]. by split; [constructor|].
Qed.

(** *** Edits *)
Lemma plugin_key_plugin : plugin_key "plugin".
Proof. by left. Qed.
Lemma plugin_key_option name : plugin_key (OptionName name).
Proof. right. apply OptionName_prefix. Qed.
#[local] Hint Resolve plugin_key_plugin plugin_key_option option_index_position last_position : mcm.

Lemma option_position g o : o ∈ gr_options g → o.2 ∈ group_positions g.
Proof. intros H. right. by apply list_elem_of_fmap_2. Qed.
#[local] Hint Resolve option_position : mcm.

Lemma edit_group_ok g p module x : g ∈ existing →
  Known p = false ∧ module = gr_module g ∨ Known p = true ∧ is_Some (MatchModule cat (gr_module g)) →
  ok x → ok (edit_group cat items g p module x).
Proof.
  intros Hg Hp Hx. unfold edit_group. cbv zeta. destruct Hp as [[-> ->]|[-> Hm]]; [by rewrite String.eqb_refl|]. cbn [negb].
  assert (∀ i, i ∈ group_positions g → managed i) as Hpos by (intros i; by apply managed_group).
  assert (ok (if String.eqb module (gr_module g) then x else rewrite_line items (gr_index g) "plugin" module x)) as Hx'.
  { destruct (String.eqb _ _); [done|]. apply rewrite_line_ok; [auto with mcm| |done]. apply Hpos. by left. }
  destruct (LookupPlugin cat (pl_id p)) as [spec|]; [|done]. apply foldl_inv; [apply foldl_inv; [done|]|].
  - intros y o Ho Hy. unfold drop_option. destruct (FindOption spec o.1); [|done]. destruct (_ !! o.1); [done|]. auto with mcm.
  - intros y opt _ Hy. unfold write_option. cbv zeta. destruct (_ !! op_name opt); [|done].
    destruct (option_index g (op_name opt)) eqn:E; [|auto with mcm].
    destruct (String.eqb (optionValue _ _ _) _); [exact Hy|]. eauto with mcm.
Qed.
Lemma edit_matches_ok ms x : Forall match_ok ms → ok x → ok (foldl (edit_match cat items existing) x ms).
Proof.
  intros Hms Hx. apply foldl_inv; [done|]. intros y pm Hpm Hy. unfold edit_match.
  destruct (pm_group pm.2) as [gi|] eqn:Eg; [|done]. cbn. destruct (existing !! gi) as [g|] eqn:E; [|done].
  rewrite Forall_forall in Hms. destruct (Hms pm Hpm gi Eg) as (g' & Hg' & Hcase). rewrite E in Hg'. injection Hg' as <-.
  apply edit_group_ok; [by eapply list_elem_of_lookup_2|done|done].
Qed.
Lemma drop_groups_ok claimed x : ok x → ok (foldl (drop_group cat claimed) x (imap pair existing)).
Proof.
  intros Hx. apply foldl_inv; [done|]. intros y [gi g] Hg%elem_of_imap_pair Hy. cbn in Hg. unfold drop_group.
  destruct (decide (gi ∈ claimed)); [done|]. destruct (MatchModule cat (gr_module g)) as [spec|] eqn:Em; [|done].
  apply list_elem_of_lookup_2 in Hg. assert (∀ i, i ∈ group_positions g → managed i) as Hpos by (intros i; apply managed_group; [done|by rewrite Em]).
  apply foldl_inv; [apply remove_line_ok; [auto with mcm|apply Hpos; by left|done]|]. intros z o Ho Hz. auto with mcm.
Qed.

Lemma new_block_lines pm : Forall plugin_line (new_block cat pm).
Proof.
  unfold new_block. destruct (pm_group pm.2); [constructor|]. constructor; [apply new_line_plugin; auto with mcm|].
  apply Forall_fmap, Forall_true. intros o. apply new_line_plugin. auto with mcm.
Qed.

(** *** The edited items *)
Lemma filter_bind {A B} (P : B → Prop) `{!∀ y, Decision (P y)} (f : A → list B) l : filter P (l ≫= f) = l ≫= λ x, filter P (f x).
Proof. induction l as [|x l IH]; [done|]. cbn. by rewrite filter_app, IH. Qed.
Lemma bind_ext_elem {A B} (f g : A → list B) l : (∀ x, x ∈ l → f x = g x) → l ≫= f = l ≫= g.
Proof.
  induction l as [|x l IH]; intros H; [done|]. cbn. rewrite (H x) by left. f_equal. apply IH. intros y Hy. apply H. by right.
Qed.
Lemma filter_plugin_lines l : Forall plugin_line l → filter (λ it, ¬ plugin_line it) l = [].
Proof. intros H. apply filter_nil_iff. rewrite Forall_forall in H. intros it Hit Hn. by apply Hn, H. Qed.

Lemma edit_unmanaged x i it : ok x → ¬ managed i → edit_item x i it = [it].
Proof.
  intros Hx Hi. unfold edit_item. rewrite decide_False by (intros H; by apply Hi, (eo_remove _ _ _ Hx)).
  destruct (pe_rewrite x !! i) eqn:Er; [by destruct (eo_rewrite _ _ _ Hx _ _ Er)|].
  destruct (pe_insert x !! i) eqn:Ei; [by destruct (eo_insert _ _ _ Hx _ _ Ei)|]. done.
Qed.
Lemma edit_managed x i it : ok x → managed i → items !! i = Some it → Forall plugin_line (edit_item x i it).
Proof.
  intros Hx Hi Hit. unfold edit_item. destruct (decide _); [constructor|]. constructor.
  - destruct (pe_rewrite x !! i) eqn:Er; [by destruct (eo_rewrite _ _ _ Hx _ _ Er)|]. by eapply managed_plugin_line.
  - destruct (pe_insert x !! i) eqn:Ei; [by destruct (eo_insert _ _ _ Hx _ _ Ei)|]. constructor.
Qed.
Lemma edit_items_others x : ok x → filter (λ it, ¬ plugin_line it) (edit_items x items) = filter (λ it, ¬ plugin_line it) items.
Proof.
  intros Hx. unfold edit_items. rewrite filter_bind. rewrite <-(imap_pair_snd items) at 2.
  rewrite (bind_ext_elem _ (λ y, filter (λ it, ¬ plugin_line it) [y.2])).
  - rewrite <-filter_bind. f_equal.
  - intros [i it] Hin%elem_of_imap_pair. cbn [fst snd] in *. destruct (decide (managed i)) as [Hm|Hm]; [|by rewrite edit_unmanaged].
    rewrite (filter_plugin_lines _ (edit_managed x i it Hx Hm Hin)). symmetry. apply filter_plugin_lines, Forall_singleton.
    by eapply managed_plugin_line.
Qed.
Lemma edit_items_kept x : ok x → unmanaged_items cat items `sublist_of` edit_items x items.
Proof.
  intros Hx. unfold unmanaged_items, edit_items. generalize (imap pair items). intros l. induction l as [|[i it] l IH]; [done|].
  cbn [mbind list_bind]. destruct (decide (managed i)) as [Hm|Hm].
  - rewrite filter_cons_False by (cbn; intros H; by apply H). by apply sublist_inserts_l.
  - rewrite filter_cons_True by done. rewrite edit_unmanaged by done. by apply sublist_skip.
Qed.
Lemma edit_items_none : edit_items no_edits items = items.
Proof.
  unfold edit_items. rewrite <-(imap_pair_snd items) at 2. induction (imap pair items) as [|[i it] l IH]; [done|].
  cbn [mbind list_bind]. rewrite IH. done.
Qed.
Lemma insert_blocks_others l added : Forall plugin_line added →
  filter (λ it, ¬ plugin_line it) (insert_blocks l added) = filter (λ it, ¬ plugin_line it) l.
Proof.
  intros Ha. unfold insert_blocks. destruct added as [|a added]; [done|].
  rewrite !filter_app, (filter_plugin_lines (a :: added)) by done. cbn. by rewrite <-filter_app, take_drop.
Qed.
Lemma insert_blocks_sublist l added : l `sublist_of` insert_blocks l added.
Proof.
  unfold insert_blocks. destruct added as [|a added]; [done|]. rewrite <-(take_drop (insertionIndex l) l) at 1.
  apply sublist_app; [done|]. by apply sublist_inserts_l.
Qed.
End apply.

(** ** Lemmas: what was read is written back *)

(** The specs of a catalog are found under their ids. *)
Definition coherent (cat : PluginCatalog) : Prop :=
  ∀ path spec, MatchModule cat path = Some spec → LookupPlugin cat (ps_id spec) = Some spec ∧ trim_space (ps_id spec) ≠ "".
(** The managed options of the file have a value and are spelled as in the
    catalog; no module is padded with blanks. *)
Definition settled (cat : PluginCatalog) (items : list Item) : Prop :=
  Forall (λ g, trim_space (gr_module g) = gr_module g ∧ ∀ spec, MatchModule cat (gr_module g) = Some spec →
    Forall (λ o, ∀ opt, FindOption spec o.1 = Some opt → op_name opt = o.1 ∧ trim_space (optionValue items g o.1) ≠ "") (gr_options g)) (groups items).

Section reread.
Context (cat : PluginCatalog) (Hcat : coherent cat) (items : list Item).
Local Abbreviation existing := (groups items).

Lemma extract_fold g names e :
  let e' := foldl (extract_option cat items g) e names in
  pl_id e' = pl_id e ∧ pl_module e' = pl_module e
  ∧ ∀ spec, Known e = true → LookupPlugin cat (pl_id e) = Some spec → ∀ name,
      pl_options e' !! name = if decide (name ∈ names ∧ is_Some (FindOption spec name)) then Some (optionValue items g name) else pl_options e !! name.
Proof.
  revert e. induction names as [|n names IH]; intros e; cbn zeta; cbn [foldl].
  { split_and!; [done..|]. intros spec _ _ name. rewrite decide_False; [done|]. by intros [?%elem_of_nil _]. }
  specialize (IH (extract_option cat items g e n)). cbv zeta in IH. destruct IH as (Hi & Hm & Ho).
  assert (pl_id (extract_option cat items g e n) = pl_id e ∧ pl_module (extract_option cat items g e n) = pl_module e) as [Ei Em].
  { unfold extract_option. cbv zeta. by destruct (_ && _). }
  rewrite Hi, Hm, Ei, Em. split_and!; [done..|]. intros spec Hk Hl name. rewrite (Ho spec); [|unfold Known; by rewrite Ei|by rewrite Ei].
  clear Ho Hi Hm. unfold extract_option. cbv zeta. rewrite Hk, Hl. cbn [andb from_option].
  destruct (decide (name ∈ names ∧ is_Some (FindOption spec name))) as [[Hin Hs]|Hnin].
  { rewrite decide_True; [done|]. split; [by right|done]. }
  destruct (decide (name = n)) as [->|Hne].
  - destruct (bool_decide (is_Some (FindOption spec n))) eqn:Eb; cbn [pl_options].
    + rewrite lookup_insert_eq, decide_True; [done|]. split; [by left|]. by apply bool_decide_eq_true in Eb.
    + rewrite decide_False; [done|]. intros [_ H]. by apply bool_decide_eq_false in Eb.
  - rewrite (decide_False _ _ (P := name ∈ n :: names ∧ _)).
    + destruct (bool_decide _); cbn [pl_options]; [by rewrite lookup_insert_ne|done].
    + intros [[?|?]%elem_of_cons Hs]; [done|]. by apply Hnin.
Qed.
Lemma extract_group_spec g :
  pl_id (extract_group cat items g) = from_option ps_id "" (MatchModule cat (gr_module g))
  ∧ pl_module (extract_group cat items g) = gr_module g
  ∧ ∀ spec, MatchModule cat (gr_module g) = Some spec → Known (extract_group cat items g) = true
      ∧ LookupPlugin cat (pl_id (extract_group cat items g)) = Some spec
      ∧ ∀ name, pl_options (extract_group cat items g) !! name =
          if decide (name ∈ optionOrder g ∧ is_Some (FindOption spec name)) then Some (optionValue items g name) else None.
Proof.
  unfold extract_group. set (e := mkPlugin _ _ _ _). destruct (extract_fold g (optionOrder g) e) as (Hi & Hm & Ho). cbv zeta in *.
  split_and!; [done..|]. intros spec Hs. destruct (Hcat _ _ Hs) as [Hl Hne].
  assert (pl_id e = ps_id spec) as Ee by (unfold e; cbn; by rewrite Hs).
  unfold Known at 1. rewrite Hi, Ee. split; [by rewrite bool_decide_false|]. split; [done|]. intros name.
  rewrite (Ho spec); [done|unfold Known; by rewrite Ee, bool_decide_false|by rewrite Ee].
Qed.
Lemma extract_group_unknown g : MatchModule cat (gr_module g) = None → Known (extract_group cat items g) = false.
Proof. intros H. destruct (extract_group_spec g) as (Hi & _). unfold Known. rewrite Hi, H. done. Qed.

Lemma first_unclaimed claimed (P : plugin_group → bool) k g :
  existing !! k = Some g → P g = true → (∀ i, i ∈ claimed ↔ i < k) → first_group existing claimed P = Some (k, g).
Proof.
  intros Hg HP Hc. unfold first_group. rewrite <-(take_drop_middle existing k g Hg) at 1. rewrite imap_app.
  assert (∀ l n, n + length l ≤ k → ∀ rest, List.find (λ '(gi, g), negb (bool_decide (gi ∈ claimed)) && P g) (imap (λ i, pair (n + i)) l ++ rest)
    = List.find (λ '(gi, g), negb (bool_decide (gi ∈ claimed)) && P g) rest) as Hskip.
  { induction l as [|x l IH]; intros n Hn rest; [done|]. rewrite imap_cons. cbn [app List.find length] in *.
    rewrite (bool_decide_true (n + 0 ∈ claimed)) by (apply Hc; lia). cbn [negb andb].
    rewrite (imap_ext _ (λ i, pair (S n + i))) by (intros; cbn; f_equal; lia). apply IH. lia. }
  assert (length (take k existing) = k) as Hk by (rewrite length_take; apply lookup_lt_Some in Hg; lia).
  rewrite (imap_ext pair (λ i, pair (0 + i))) by done. rewrite Hskip by lia.
  rewrite imap_cons. cbn [List.find]. cbn. rewrite Hk, Nat.add_0_r. rewrite bool_decide_false by (rewrite Hc; lia). by rewrite HP.
Qed.

Lemma equal_fold_self s : equal_fold s s = true.
Proof. unfold equal_fold. by apply bool_decide_eq_true. Qed.

(** Every plugin that was read claims its own group. *)
Lemma match_read rest k claimed : rest = drop k existing → (∀ i, i ∈ claimed ↔ i < k) → settled cat items →
  ∃ claimed', match_plugins cat existing claimed (extract_group cat items <$> rest)
    = Ok (imap (λ i g, (extract_group cat items g, mkMatch (Some (k + i)) (gr_module g))) rest, claimed')
  ∧ ∀ i, i ∈ claimed' ↔ i < k + length rest.
Proof.
  intros Hrest Hc Hs. revert k claimed Hrest Hc. induction rest as [|g rest IH]; intros k claimed Hrest Hc.
  { exists claimed. split; [done|]. intros i. rewrite Hc. cbn. lia. }
  assert (existing !! k = Some g) as Hg by (rewrite <-(Nat.add_0_r k), <-lookup_drop, <-Hrest; done).
  assert (trim_space (gr_module g) = gr_module g) as Htrim.
  { unfold settled in Hs. rewrite Forall_forall in Hs. apply (Hs g). by eapply list_elem_of_lookup_2. }
  assert (match_plugin cat existing claimed (extract_group cat items g) = Ok (mkMatch (Some k) (gr_module g), {[k]} ∪ claimed)) as Hm.
  { destruct (extract_group_spec g) as (_ & Hmod & Hknown). unfold match_plugin. cbv zeta. rewrite Hmod, Htrim.
    destruct (MatchModule cat (gr_module g)) as [spec|] eqn:Em.
    - destruct (Hknown spec eq_refl) as (-> & -> & _). cbn [negb]. rewrite (first_unclaimed _ _ k g Hg); [|unfold same_plugin; rewrite Em; apply equal_fold_self|done].
      cbn. destruct (decide (gr_module g = "")) as [E|]; [|done]. exfalso. rewrite E in Em. discriminate Em.
    - rewrite extract_group_unknown by done. cbn [negb]. rewrite (first_unclaimed _ _ k g Hg); [done|by apply bool_decide_eq_true|done]. }
  destruct (IH (S k) ({[k]} ∪ claimed)) as (claimed' & Hms & Hc').
  - rewrite <-(Nat.add_1_r k), <-drop_drop, <-Hrest. done.
  - intros i. rewrite elem_of_union, elem_of_singleton, Hc. lia.
  - exists claimed'. cbn [fmap list_fmap match_plugins]. rewrite Hm. cbn [mbind result_bind]. rewrite Hms. cbn [mbind result_bind].
    rewrite imap_cons, Nat.add_0_r. split; [|intros i; rewrite Hc'; cbn; lia]. do 3 f_equal.
    apply imap_ext. intros i g' _. cbn. do 3 f_equal. lia.
Qed.

Lemma desired_fold (opts : list OptionSpec) options (m : gmap string string) name :
  foldl (λ (m : gmap string string) opt, match set_value options (op_name opt) with Some v => <[op_name opt := v]> m | None => m end) m opts !! name
  = match (if decide (name ∈ op_name <$> opts) then set_value options name else None) with Some v => Some v | None => m !! name end.
Proof.
  revert m. induction opts as [|opt opts IH]; intros m; [done|]. cbn [foldl]. rewrite IH. cbn [fmap list_fmap].
  destruct (decide (name ∈ op_name <$> opts)) as [Hin|Hnin].
  - rewrite (decide_True _ _ (P := name ∈ _ :: _)) by by right. destruct (set_value options name) as [v|] eqn:E; [done|].
    destruct (set_value options (op_name opt)) as [v|] eqn:E'; [|done]. rewrite lookup_insert_ne; [done|]. intros Hn. congruence.
  - destruct (decide (name = op_name opt)) as [->|Hne].
    + rewrite (decide_True _ _ (P := op_name opt ∈ _ :: _)) by by left. destruct (set_value options (op_name opt)); [by rewrite lookup_insert_eq|done].
    + rewrite (decide_False _ _ (P := name ∈ _ :: _)) by (by intros [?|?]%elem_of_cons). destruct (set_value options (op_name opt)); [by rewrite lookup_insert_ne|done].
Qed.

(** Such a match asks for no edit. *)
Lemma edit_read g x : g ∈ existing → settled cat items → edit_group cat items g (extract_group cat items g) (gr_module g) x = x.
Proof.
  intros Hg Hs. unfold edit_group. cbv zeta. rewrite String.eqb_refl. destruct (MatchModule cat (gr_module g)) as [spec|] eqn:Em;
    [|by rewrite extract_group_unknown].
  destruct (extract_group_spec g) as (_ & _ & Hknown). destruct (Hknown spec Em) as (-> & -> & Hopts). cbn [negb].
  unfold settled in Hs. rewrite Forall_forall in Hs. destruct (Hs g Hg) as [_ Hvals]. specialize (Hvals spec Em). rewrite Forall_forall in Hvals.
  assert (∀ l y, (∀ o, o ∈ l → o ∈ gr_options g) → foldl (drop_option spec (desired_options spec (extract_group cat items g))) y l = y) as Hdrop.
  { induction l as [|o l IH]; intros y Hl; [done|]. cbn [foldl]. rewrite IH by (intros o' Ho'; apply Hl; by right).
    unfold drop_option. destruct (FindOption spec o.1) as [opt|] eqn:Ef; [|done].
    assert (o ∈ gr_options g) as Hin by (apply Hl; by left). destruct (Hvals o Hin opt Ef) as [Hname Hval].
    unfold desired_options. rewrite desired_fold. rewrite decide_True.
    2:{ rewrite <-Hname. apply list_elem_of_fmap_2. unfold FindOption in Ef. apply find_some in Ef as [Hin' _]. by apply list_elem_of_In. }
    unfold set_value. rewrite Hopts, decide_True; [by rewrite decide_False|]. split; [by apply list_elem_of_fmap_2|by rewrite Ef]. }
  rewrite Hdrop by done.
  enough (∀ l y, foldl (write_option items g (desired_options spec (extract_group cat items g))) y l = y) as H by apply H.
  induction l as [|opt l IH]; intros y; [done|]. cbn [foldl]. rewrite IH. unfold write_option. cbv zeta.
  destruct (desired_options spec (extract_group cat items g) !! op_name opt) as [value|] eqn:Ed; [|done].
  unfold desired_options in Ed. rewrite desired_fold in Ed. case_decide; [|done]. unfold set_value in Ed. rewrite Hopts in Ed.
  case_decide as Hn; [|done]. destruct (decide _); [done|]. injection Ed as <-. destruct Hn as [Hn _].
  assert (is_Some (option_index g (op_name opt))) as [i ->]; [|by rewrite String.eqb_refl].
  unfold option_index. apply list_elem_of_fmap in Hn as (o & Ho & Hin%list_elem_of_In).
  destruct (List.find _ (gr_options g)) eqn:Ef; [by eexists|]. apply (find_none _ _ Ef) in Hin. by rewrite Ho, bool_decide_eq_false in Hin.
Qed.
End reread.

(** ** Lemmas: catalogs *)

(** Two plugins of the catalog do not share the file name of a module. *)
Definition disjoint_modules (specs : list PluginSpec) : Prop :=
  ∀ a b name, a ∈ specs → b ∈ specs → has_module name a = true → has_module name b = true → a = b.
Theorem MatchModule_any_order cat specs path :
  specs ≡ₚ (map_to_list (pc_specs cat)).*2 → disjoint_modules specs → match_module specs path = MatchModule cat path.
Proof.
  intros Hp Hd. unfold MatchModule, match_module. cbv zeta. destruct (decide _); [done|]. set (l := (map_to_list (pc_specs cat)).*2) in *.
  destruct (List.find _ specs) as [a|] eqn:Ea, (List.find _ l) as [b|] eqn:Eb; [| | |done].
  - apply find_some in Ea as [Ha%list_elem_of_In Hna], Eb as [Hb%list_elem_of_In Hnb]. f_equal. eapply Hd; [done|by rewrite Hp|done..].
  - apply find_some in Ea as [Ha%list_elem_of_In Hna]. rewrite Hp in Ha. apply list_elem_of_In in Ha. apply (find_none _ _ Eb) in Ha. congruence.
  - apply find_some in Eb as [Hb%list_elem_of_In Hnb]. rewrite <-Hp in Hb. apply list_elem_of_In in Hb. apply (find_none _ _ Ea) in Hb. congruence.
Qed.

(** What an edited file is made of. *)
Lemma apply_shape f cat doc f' changed : ApplyPluginDocument f cat doc = Ok (f', changed) →
  ∃ ms claimed x, match_plugins cat (groups (f_items f)) ∅ doc = Ok (ms, claimed) ∧ ms.*1 = doc ∧ edits_ok cat (f_items f) x
    ∧ Forall plugin_line (ms ≫= new_block cat)
    ∧ f' = mkFile (insert_blocks (edit_items x (f_items f)) (ms ≫= new_block cat)) (f_path f)
    ∧ changed = sort_strings (elements (pe_changed x ∪ list_to_set (it_key <$> (ms ≫= new_block cat)))).
Proof.
  unfold ApplyPluginDocument. cbv zeta. destruct (HasPluginErrors _); [done|].
  intros ([ms claimed] & Hms & [= <- <-])%result_bind_ok. pose proof (match_plugins_ok _ _ _ _ _ _ Hms) as [Hok Hdoc].
  eexists ms, claimed, _. split_and!; [done|done| | |reflexivity|reflexivity].
  - apply drop_groups_ok, edit_matches_ok; [done|auto with mcm].
  - clear. induction ms as [|m ms IH]; [constructor|]. cbn. apply Forall_app. split; [apply new_block_lines|done].
Qed.
Lemma apply_others f cat doc f' changed : ApplyPluginDocument f cat doc = Ok (f', changed) →
  filter (λ it, ¬ plugin_line it) (f_items f') = filter (λ it, ¬ plugin_line it) (f_items f).
Proof.
  intros (ms & claimed & x & _ & _ & Hx & Ha & -> & _)%apply_shape. cbn [f_items].
  rewrite insert_blocks_others by done. by apply (edit_items_others cat).
Qed.
Lemma insert_blocks_added l added it : it ∈ added → it ∈ insert_blocks l added.
Proof. unfold insert_blocks. destruct added; [by intros ?%elem_of_nil|]. rewrite !elem_of_app. tauto. Qed.

(** ** Properties *)

(** [C12] Writing a plugin document back: the lines that are no plugin lines
    stay, in order; so do the lines of the plugins that the catalog does not
    know; the changed directives are [plugin] or [plugin_opt_] ones, and when
    there is none the file is the one that was read. *)
Theorem ApplyPluginDocument_preserves f cat doc f' changed :
  ApplyPluginDocument f cat doc = Ok (f', changed) →
  filter (λ it, ¬ plugin_line it) (f_items f') = filter (λ it, ¬ plugin_line it) (f_items f)
  ∧ unmanaged_items cat (f_items f) `sublist_of` f_items f'
  ∧ Forall plugin_key changed
  ∧ (changed = [] → f' = f).
Proof.
  intros H. split; [by eapply apply_others|]. apply apply_shape in H as (ms & claimed & x & _ & _ & Hx & Ha & -> & ->). cbn [f_items].
  set (added := ms ≫= new_block cat) in *. split.
  { etrans; [by apply edit_items_kept|apply insert_blocks_sublist]. }
  split.
  - apply Forall_forall. intros name. rewrite elem_of_sort_strings, elem_of_elements, elem_of_union, elem_of_list_to_set.
    intros [H|(it & -> & Hit)%list_elem_of_fmap]; [by apply (eo_names _ _ _ Hx)|]. rewrite Forall_forall in Ha. by apply (Ha it Hit).
  - intros E. assert (pe_changed x ∪ list_to_set (it_key <$> added) = ∅) as He.
    { apply set_eq. intros name. split; [|by intros ?%elem_of_empty].
      intros Hin. rewrite <-elem_of_elements, <-elem_of_sort_strings, E in Hin. by apply elem_of_nil in Hin. }
    apply empty_union_L in He as [Hc Hadd]. rewrite (eo_changed _ _ _ Hx Hc), edit_items_none.
    destruct added as [|it added]; [by destruct f|]. cbn in Hadd. set_solver.
Qed.

(** Saving what was read changes nothing: when the catalog finds its
    plugins under their ids, the managed options of the file have values and are
    spelled as in the catalog, and the document that was read validates, writing
    it back gives the very same file and no changed directive. *)
Theorem ApplyPluginDocument_Extract f cat :
  coherent cat → settled cat (f_items f) → ValidatePlugins (ExtractPlugins f cat) cat = [] →
  ApplyPluginDocument f cat (ExtractPlugins f cat) = Ok (f, []).
Proof.
  intros Hcat Hs Hv. unfold ApplyPluginDocument. cbv zeta. rewrite Hv. cbn [HasPluginErrors]. unfold ExtractPlugins.
  destruct (match_read cat Hcat (f_items f) (groups (f_items f)) 0 ∅) as (claimed & -> & Hc); [done|set_solver by lia|done|].
  cbn [mbind result_bind]. set (ms := imap _ _).
  assert (∀ pm, pm ∈ ms → ∃ g, g ∈ groups (f_items f) ∧ pm.1 = extract_group cat (f_items f) g ∧ pm_module pm.2 = gr_module g
    ∧ pm_group pm.2 ≫= (groups (f_items f) !!.) = Some g) as Hms.
  { intros pm (i & Hi)%list_elem_of_lookup. unfold ms in Hi. rewrite list_lookup_imap in Hi.
    apply fmap_Some in Hi as (g & Hg & ->). exists g. split; [by eapply list_elem_of_lookup_2|]. by split_and!. }
  assert (ms ≫= new_block cat = []) as ->.
  { apply bind_nil. intros pm (g & _ & _ & _ & Hg)%Hms. unfold new_block. destruct (pm_group pm.2); [done|]. discriminate Hg. }
  assert (∀ l, (∀ pm, pm ∈ l → pm ∈ ms) → foldl (edit_match cat (f_items f) (groups (f_items f))) no_edits l = no_edits) as He.
  { induction l as [|pm l IH]; intros Hl; [done|]. cbn [foldl]. destruct (Hms pm) as (g & Hg & H1 & H2 & H3); [apply Hl; by left|].
    unfold edit_match at 2. rewrite H1, H2, H3, edit_read by done. apply IH. intros pm' Hpm'. apply Hl. by right. }
  rewrite He by done.
  assert (∀ l, (∀ x, x ∈ l → x.1 ∈ claimed) → foldl (drop_group cat claimed) no_edits l = no_edits) as Hd.
  { induction l as [|[gi g] l IH]; intros Hl; [done|]. cbn [foldl]. unfold drop_group at 2. rewrite decide_True by (apply (Hl (gi, g)); by left).
    apply IH. intros x Hx. apply Hl. by right. }
  rewrite Hd by (intros x Hx%elem_of_imap_pair%lookup_lt_Some; by apply Hc).
  rewrite edit_items_none. cbn. rewrite union_empty_l_L, elements_empty. by destruct f.
Qed.
