(* ===== verification/Store.v ===== *)
(** * The SQLite store ([internal/storage])

    One record holds the tables the deploy service reads and writes, with the
    clock and the list of the faults to come: every statement takes the next
    element, and fails without an effect when it is [true].  An [AUTOINCREMENT]
    table is a list of rows in the order of their ids with the next id.  The
    mutation lock orders the operations, which here run one after another; the
    timestamps no query reads back are left out. *)
From S2P Require Import Prelude IO Unicode GoStrings GoStrconv GoTime Passwd Acl.

(** ** Rows *)
Record MQTTUser := mkUser {
  u_id : Z; u_username : string; u_hash : string; u_disabled : bool; u_created : Z; u_updated : Z
}.
Record ACLSourceRow := mkSource { as_path : string; as_body : string; as_updated : Z }.
Record ManagedACLFileRow := mkManaged { mf_path : string; mf_listener : string; mf_created : Z; mf_updated : Z }.
(** A JSON object of strings; the empty object stands for the empty payload. *)
Abbreviation payload := (gmap string string) (only parsing).
Record PreviewRevision := mkRevision {
  pr_id : string; pr_actor : string;
  pr_base_acl : string; pr_base_passwd : string; pr_rendered_acl : string; pr_rendered_passwd : string;
  pr_acl : string; pr_passwd : string; pr_listener : payload; pr_files_hash : string;
  pr_created : Z; pr_applied : option Z
}.
Record LoginAttempt := mkAttempt { la_username : string; la_ip : string; la_success : bool; la_at : Z }.

Section deployments.
(** [M] is what a status message says; the service builds the text. *)
Context {M : Type}.
Record Deployment := mkDeployment {
  dp_id : Z; dp_revision : string; dp_actor : string; dp_status : string; dp_kind : string; dp_reload : string;
  dp_acl_snapshot : string; dp_passwd_snapshot : string; dp_acl : string; dp_passwd : string;
  dp_listener_snapshot : payload; dp_listener : payload; dp_conf : string; dp_base_conf : string;
  dp_message : M; dp_created : Z; dp_updated : Z
}.
End deployments.
Arguments Deployment : clear implicits.
Arguments mkDeployment {M}.

Record db (M : Type) := mkDb {
  db_users : list MQTTUser; db_next_user : Z;
  db_rules : list (Z * Rule); db_next_rule : Z;
  db_sources : gmap string ACLSourceRow;
  db_managed : gmap string ManagedACLFileRow;
  db_revisions : gmap string PreviewRevision;
  db_deployments : list (Deployment M); db_next_deployment : Z;
  db_attempts : list LoginAttempt;
  db_now : Z; db_ticks : list N; db_faults : list bool
}.
Arguments mkDb {M}.
Arguments db_users {M}. Arguments db_next_user {M}. Arguments db_rules {M}. Arguments db_next_rule {M}.
Arguments db_sources {M}. Arguments db_managed {M}. Arguments db_revisions {M}. Arguments db_deployments {M}.
Arguments db_next_deployment {M}. Arguments db_attempts {M}. Arguments db_now {M}. Arguments db_ticks {M}. Arguments db_faults {M}.

Inductive store_error :=
  | QueryFailed | UniqueFailed
  | InvalidUsername (problems : list username_problem) | UsernameMissing
  | ErrMQTTUserServiceReserved | ErrMQTTUserNotFound | ErrMQTTUserConflict
  | InvalidRule (problems : list problem) | ErrRuleNotFound
  | PathRequired | ErrACLSourceNotFound | ErrManagedACLFileNotFound
  | RevisionIDRequired | ErrPreviewRevisionNotFound | ErrPreviewRevisionConsumed
  | InvalidStatus (status : string) | ErrDeploymentNotFound.

Section store.
Context {M : Type}.
Implicit Types s : db M.
Local Abbreviation op A := (io (db M) store_error A).

Definition with_users l n s : db M := mkDb l n (db_rules s) (db_next_rule s) (db_sources s) (db_managed s) (db_revisions s) (db_deployments s) (db_next_deployment s) (db_attempts s) (db_now s) (db_ticks s) (db_faults s).
Definition with_rules l n s : db M := mkDb (db_users s) (db_next_user s) l n (db_sources s) (db_managed s) (db_revisions s) (db_deployments s) (db_next_deployment s) (db_attempts s) (db_now s) (db_ticks s) (db_faults s).
Definition with_sources m s : db M := mkDb (db_users s) (db_next_user s) (db_rules s) (db_next_rule s) m (db_managed s) (db_revisions s) (db_deployments s) (db_next_deployment s) (db_attempts s) (db_now s) (db_ticks s) (db_faults s).
Definition with_managed m s : db M := mkDb (db_users s) (db_next_user s) (db_rules s) (db_next_rule s) (db_sources s) m (db_revisions s) (db_deployments s) (db_next_deployment s) (db_attempts s) (db_now s) (db_ticks s) (db_faults s).
Definition with_revisions m s : db M := mkDb (db_users s) (db_next_user s) (db_rules s) (db_next_rule s) (db_sources s) (db_managed s) m (db_deployments s) (db_next_deployment s) (db_attempts s) (db_now s) (db_ticks s) (db_faults s).
Definition with_deployments l n s : db M := mkDb (db_users s) (db_next_user s) (db_rules s) (db_next_rule s) (db_sources s) (db_managed s) (db_revisions s) l n (db_attempts s) (db_now s) (db_ticks s) (db_faults s).
Definition with_attempts l s : db M := mkDb (db_users s) (db_next_user s) (db_rules s) (db_next_rule s) (db_sources s) (db_managed s) (db_revisions s) (db_deployments s) (db_next_deployment s) l (db_now s) (db_ticks s) (db_faults s).
Definition with_clock now ticks s : db M := mkDb (db_users s) (db_next_user s) (db_rules s) (db_next_rule s) (db_sources s) (db_managed s) (db_revisions s) (db_deployments s) (db_next_deployment s) (db_attempts s) now ticks (db_faults s).
Definition with_faults f s : db M := mkDb (db_users s) (db_next_user s) (db_rules s) (db_next_rule s) (db_sources s) (db_managed s) (db_revisions s) (db_deployments s) (db_next_deployment s) (db_attempts s) (db_now s) (db_ticks s) f.

(** ** Statements *)
(** [time.Now()]: the clock never goes back. *)
Definition now {E} : io (db M) E Z := λ s,
  match db_ticks s with
  | [] => (s, Ok (db_now s))
  | tick :: rest => let t := (db_now s + Z.of_N tick)%Z in (with_clock t rest s, Ok t)
  end.

(** A statement is a partial function on the tables; it can be refused by a
    constraint, and can fail. *)
Definition statement {A} (f : db M → result store_error (db M * A)) : op A := λ s,
  let '(failed, s) := match db_faults s with [] => (false, s) | x :: rest => (x, with_faults rest s) end in
  if failed : bool then (s, Err QueryFailed)
  else match f s with Ok (s', a) => (s', Ok a) | Err e => (s, Err e) end.
Definition select {A} (f : db M → A) : op A := statement (λ s, Ok (s, f s)).
(** The update and the number of the rows it affects. *)
Definition exec (affected : db M → nat) (f : db M → db M) : op nat := statement (λ s, Ok (f s, affected s)).

(** [tx.Rollback()]: the tables of [s], the clock and the faults of [s']. *)
Definition rolled_back_to (s s' : db M) : db M := with_faults (db_faults s') (with_clock (db_now s') (db_ticks s') s).
(** Between [BeginTx] and [Commit], which can fail as well. *)
Definition begin_commit {A} (m : op A) : op A := select (λ _, tt) ;; a ← m; select (λ _, tt) ;; mret a.
Definition transaction {A} (m : op A) : op A := λ s,
  match begin_commit m s with
  | (s', Err e) => (rolled_back_to s s', Err e)
  | r => r
  end.

Definition found {A} (e : store_error) (o : option A) : op A := match o with Some a => mret a | None => fail e end.
Definition affects (e : store_error) (m : op nat) : op unit := n ← m; if decide (n = 0) then fail e else mret tt.

(** ** [mqtt_users.go] *)
Definition user_by_id (id : Z) s : option MQTTUser := head (filter (λ u, u_id u = id) (db_users s)).
Definition user_named (name : string) s : option MQTTUser := head (filter (λ u, u_username u = name) (db_users s)).

Definition GetMQTTUser (id : Z) : op MQTTUser := u ← select (user_by_id id); found ErrMQTTUserNotFound u.
Definition GetMQTTUserByUsername (username : string) : op MQTTUser :=
  u ← select (user_named (trim_space username)); found ErrMQTTUserNotFound u.
Definition ListMQTTUsers : op (list MQTTUser) :=
  select (λ s, sort_stable (λ a b, string_less (u_username a) (u_username b)) (db_users s)).

Definition is_reserved (reserved name : string) : bool :=
  negb (bool_decide (trim_space reserved = "")) && bool_decide (name = trim_space reserved).

Definition insert_user (username hash : string) (t : Z) s : result store_error (db M * Z) :=
  if decide (username ∈ u_username <$> db_users s) then Err UniqueFailed
  else let id := db_next_user s in
    Ok (with_users (db_users s ++ [mkUser id username hash false t t]) (id + 1)%Z s, id).

Definition CreateMQTTUser (username hash reserved : string) : op MQTTUser :=
  match ValidateMQTTUsername username with
  | (_ :: _) as problems => fail (InvalidUsername problems)
  | [] =>
      let username := trim_space username in
      if is_reserved reserved username then fail ErrMQTTUserServiceReserved
      else t ← now; id ← statement (insert_user username hash t); GetMQTTUser id
  end.

Record UpdateMQTTUserParams := mkUpdate {
  up_username : option string; up_hash : option string; up_disabled : option bool; up_reserved : string
}.
Definition set_user (id : Z) (username hash : string) (disabled : bool) (t : Z) (u : MQTTUser) : MQTTUser :=
  if decide (u_id u = id) then mkUser id username hash disabled (u_created u) t else u.
Definition update_user (id : Z) (username hash : string) (disabled : bool) (t : Z) s : result store_error (db M * unit) :=
  if existsb (λ u, negb (bool_decide (u_id u = id)) && bool_decide (u_username u = username)) (db_users s) then Err UniqueFailed
  else Ok (with_users (set_user id username hash disabled t <$> db_users s) (db_next_user s) s, tt).

(** [UPDATE acl_rules SET principal = ? WHERE principal = ? AND selector = 'user'] *)
Definition rename_principal (old new : string) (r : Rule) : Rule :=
  if decide (r_principal r = old ∧ r_selector r = SelectorUser)
  then mkRule (r_id r) (r_selector r) (r_scope r) (r_listener_id r) new (r_topic_filter r) (r_permission r) (r_description r)
  else r.
Definition cascade_rename (old new : string) s : db M := with_rules (prod_map id (rename_principal old new) <$> db_rules s) (db_next_rule s) s.

Definition conflict_of (e : store_error) : store_error := match e with UniqueFailed => ErrMQTTUserConflict | _ => e end.

Definition updateMQTTUser_tx (id : Z) (p : UpdateMQTTUserParams) : op unit :=
  u ← (u ← select (user_by_id id); found ErrMQTTUserNotFound u);
  match up_username p with
  | Some name => if is_reserved (up_reserved p) (trim_space name) then fail ErrMQTTUserServiceReserved else mret tt
  | None => mret tt
  end ;;
  let username := match up_username p with Some name => trim_space name | None => u_username u end in
  let hash := default (u_hash u) (up_hash p) in
  match up_disabled p with
  | Some true => if is_reserved (up_reserved p) (u_username u) then fail ErrMQTTUserServiceReserved else mret tt
  | _ => mret tt
  end ;;
  let disabled := default (u_disabled u) (up_disabled p) in
  t ← now;
  wrap conflict_of (statement (update_user id username hash disabled t)) ;;
  if decide (username = u_username u) then mret tt
  else now ;; exec (λ _, 0) (cascade_rename (u_username u) username) ;; mret tt.

Definition updateMQTTUser (id : Z) (p : UpdateMQTTUserParams) : op MQTTUser :=
  match ValidateMQTTUsername <$> up_username p with
  | Some ((_ :: _) as problems) => fail (InvalidUsername problems)
  | _ => transaction (updateMQTTUser_tx id p) ;; GetMQTTUser id
  end.

Definition delete_users (P : MQTTUser → Prop) `{!∀ u, Decision (P u)} : op unit :=
  affects ErrMQTTUserNotFound (exec (λ s, length (filter P (db_users s)))
    (λ s, with_users (filter (λ u, ¬ P u) (db_users s)) (db_next_user s) s)).
Definition DeleteMQTTUser (id : Z) : op unit := delete_users (λ u, u_id u = id).
Definition DeleteMQTTUserByUsername (username : string) : op unit := delete_users (λ u, u_username u = trim_space username).

Definition RenameMQTTUser (id : Z) (newUsername : string) : op unit :=
  let newUsername := trim_space newUsername in
  if decide (newUsername = "") then fail UsernameMissing
  else updateMQTTUser id (mkUpdate (Some newUsername) None None "") ;; mret tt.

(** ** [acl.go], [acls.go] *)
Definition with_id (row : Z * Rule) : Rule :=
  let '(id, r) := row in
  mkRule (itoa id) (r_selector r) (r_scope r) (r_listener_id r) (r_principal r) (r_topic_filter r) (r_permission r) (r_description r).

Definition ListRules : op (list Rule) := select (λ s, with_id <$> db_rules s).

Definition insert_rule (r : Rule) s : result store_error (db M * Z) :=
  let id := db_next_rule s in Ok (with_rules (db_rules s ++ [(id, r)]) (id + 1)%Z s, id).
Definition CreateRule (rule : Rule) : op Rule :=
  match ValidateRule rule with
  | (_ :: _) as problems => fail (InvalidRule problems)
  | [] => let rule := Normalize rule in now ;; id ← statement (insert_rule rule); mret (with_id (id, rule))
  end.

Definition set_rule (id : Z) (r : Rule) (row : Z * Rule) : Z * Rule := if decide (row.1 = id) then (id, r) else row.
Definition UpdateRule (id : string) (rule : Rule) : op Rule :=
  match ValidateRule rule with
  | (_ :: _) as problems => fail (InvalidRule problems)
  | [] =>
      let rule := Normalize rule in
      match atoi id with
      | None => fail ErrRuleNotFound
      | Some n =>
          now ;;
          affects ErrRuleNotFound (exec (λ s, length (filter (λ row, row.1 = n) (db_rules s)))
            (λ s, with_rules (set_rule n rule <$> db_rules s) (db_next_rule s) s)) ;;
          mret (mkRule id (r_selector rule) (r_scope rule) (r_listener_id rule) (r_principal rule) (r_topic_filter rule)
                  (r_permission rule) (r_description rule))
      end
  end.
Definition DeleteRule (id : string) : op unit :=
  match atoi id with
  | None => fail ErrRuleNotFound
  | Some n =>
      affects ErrRuleNotFound (exec (λ s, length (filter (λ row, row.1 = n) (db_rules s)))
        (λ s, with_rules (filter (λ row, row.1 ≠ n) (db_rules s)) (db_next_rule s) s))
  end.
Definition GetRule (id : string) : op Rule :=
  match atoi id with
  | None => fail ErrRuleNotFound
  | Some n =>
      row ← select (λ s, head (filter (λ row, row.1 = n) (db_rules s)));
      r ← found ErrRuleNotFound row;
      mret (mkRule id (r_selector r.2) (r_scope r.2) (r_listener_id r.2) (r_principal r.2) (r_topic_filter r.2)
              (r_permission r.2) (r_description r.2))
  end.

(** The user rules whose principal is no enabled user. *)
Definition is_orphan s (r : Rule) : Prop :=
  r_selector r = SelectorUser ∧ (r_principal r ∉ u_username <$> filter (λ u, u_disabled u = false) (db_users s)).
#[export] Instance is_orphan_dec s r : Decision (is_orphan s r). Proof. unfold is_orphan. apply _. Defined.
Definition FindOrphanRules : op (list Rule) := select (λ s, filter (is_orphan s) (with_id <$> db_rules s)).

(** ** [acl_sources.go], [managed_acl_files.go] *)
Definition GetACLSource (path : string) : op ACLSourceRow :=
  row ← select (λ s, db_sources s !! path); found ErrACLSourceNotFound row.
Definition SaveACLSource (path body : string) : op ACLSourceRow :=
  if decide (path = "") then fail PathRequired
  else t ← now; exec (λ _, 1) (λ s, with_sources (<[path := mkSource path body t]> (db_sources s)) s) ;; GetACLSource path.
Definition DeleteACLSource (path : string) : op unit :=
  affects ErrACLSourceNotFound (exec (λ s, if decide (is_Some (db_sources s !! path)) then 1 else 0)
    (λ s, with_sources (delete path (db_sources s)) s)).

Definition RecordManagedACLFile (path listenerID : string) : op unit :=
  if decide (path = "") then fail PathRequired
  else t ← now;
    exec (λ _, 1) (λ s, with_managed (<[path := mkManaged path listenerID
      (match db_managed s !! path with Some row => mf_created row | None => t end) t]> (db_managed s)) s) ;; mret tt.
(** A primary key orders its rows. *)
Definition ListManagedACLFiles : op (list ManagedACLFileRow) :=
  select (λ s, sort_stable (λ a b, string_less (mf_path a) (mf_path b)) (snd <$> map_to_list (db_managed s))).
Definition DeleteManagedACLFile (path : string) : op unit :=
  affects ErrManagedACLFileNotFound (exec (λ s, if decide (is_Some (db_managed s !! path)) then 1 else 0)
    (λ s, with_managed (delete path (db_managed s)) s)).
Definition ManagedACLFileExists (path : string) : op bool :=
  select (λ s, bool_decide (is_Some (db_managed s !! path))).

(** ** [revisions.go] *)
Definition insert_revision (r : PreviewRevision) s : result store_error (db M * unit) :=
  if decide (is_Some (db_revisions s !! pr_id r)) then Err UniqueFailed
  else Ok (with_revisions (<[pr_id r := r]> (db_revisions s)) s, tt).
Definition created_at (t : Z) (applied : option Z) (r : PreviewRevision) : PreviewRevision :=
  mkRevision (pr_id r) (pr_actor r) (pr_base_acl r) (pr_base_passwd r) (pr_rendered_acl r) (pr_rendered_passwd r)
    (pr_acl r) (pr_passwd r) (pr_listener r) (pr_files_hash r) t applied.
Definition InsertPreviewRevision (r : PreviewRevision) : op unit :=
  if decide (pr_id r = "") then fail RevisionIDRequired
  else
    t ← (if decide (pr_created r = time_zero) then now else mret (pr_created r));
    statement (insert_revision (created_at t None r)).
Definition GetPreviewRevision (id : string) : op PreviewRevision :=
  r ← select (λ s, db_revisions s !! id); found ErrPreviewRevisionNotFound r.

Definition is_pending s (id : string) : bool :=
  match db_revisions s !! id with Some r => bool_decide (pr_applied r = None) | None => false end.
Definition consume (id : string) (t : Z) s : db M :=
  if is_pending s id then with_revisions (alter (λ r, created_at (pr_created r) (Some t) r) id (db_revisions s)) s else s.
Definition ConsumePreviewRevision (id : string) (appliedAt : Z) : op unit :=
  affected ← exec (λ s, if is_pending s id then 1 else 0) (consume id appliedAt);
  if decide (affected = 1) then mret tt
  else
    r ← GetPreviewRevision id;
    fail (if decide (pr_applied r = None) then ErrPreviewRevisionNotFound else ErrPreviewRevisionConsumed).

(** ** [deployments.go] *)
Definition validDeploymentStatuses : list string :=
  ["applied"; "applying"; "active_verified"; "failed"; "pending"; "pending_activation"; "rollback_failed"; "rolled_back"; "saved"].
Definition kind_passwd_acl : string := "passwd_acl".

Definition GetDeployment (id : Z) : op (Deployment M) :=
  d ← select (λ s, head (filter (λ d, dp_id d = id) (db_deployments s))); found ErrDeploymentNotFound d.

Definition insert_deployment (d : Deployment M) (t : Z) s : result store_error (db M * Z) :=
  let id := db_next_deployment s in
  let d := mkDeployment id (dp_revision d) (dp_actor d) (dp_status d) (if decide (dp_kind d = "") then kind_passwd_acl else dp_kind d)
    (dp_reload d) (dp_acl_snapshot d) (dp_passwd_snapshot d) (dp_acl d) (dp_passwd d) (dp_listener_snapshot d) (dp_listener d)
    (dp_conf d) (dp_base_conf d) (dp_message d) t t in
  Ok (with_deployments (db_deployments s ++ [d]) (id + 1)%Z s, id).
(** The record with its id, as [*d = got] leaves it. *)
Definition InsertDeployment (d : Deployment M) : op (Deployment M) :=
  if decide (dp_status d ∈ validDeploymentStatuses) then t ← now; id ← statement (insert_deployment d t); GetDeployment id
  else fail (InvalidStatus (dp_status d)).

Definition set_status (id : Z) (status : string) (message : M) (t : Z) (d : Deployment M) : Deployment M :=
  if decide (dp_id d = id) then
    mkDeployment (dp_id d) (dp_revision d) (dp_actor d) status (dp_kind d) (dp_reload d) (dp_acl_snapshot d) (dp_passwd_snapshot d)
      (dp_acl d) (dp_passwd d) (dp_listener_snapshot d) (dp_listener d) (dp_conf d) (dp_base_conf d) message (dp_created d) t
  else d.
Definition UpdateDeploymentStatus (id : Z) (status : string) (message : M) : op unit :=
  if decide (status ∈ validDeploymentStatuses) then
    t ← now;
    affects ErrDeploymentNotFound (exec (λ s, length (filter (λ d, dp_id d = id) (db_deployments s)))
      (λ s, with_deployments (set_status id status message t <$> db_deployments s) (db_next_deployment s) s))
  else fail (InvalidStatus status).

(** [ORDER BY created_at DESC, id DESC], on the text of the column. *)
Definition listed_before (a b : Deployment M) : bool :=
  let ta := rfc3339nano (dp_created a) in
  let tb := rfc3339nano (dp_created b) in
  string_less tb ta || bool_decide (ta = tb) && bool_decide (dp_id b < dp_id a)%Z.
Definition ListDeployments (limit offset : Z) : op (list (Deployment M)) :=
  let limit := if decide (limit ≤ 0 ∨ 100 < limit)%Z then 20%Z else limit in
  let offset := if decide (offset < 0)%Z then 0%Z else offset in
  select (λ s, take (Z.to_nat limit) (drop (Z.to_nat offset) (sort_stable listed_before (db_deployments s)))).

(** ** [login_attempts.go] *)
Definition RecordLoginAttempt (a : LoginAttempt) : op unit :=
  t ← (if decide (la_at a = time_zero) then now else mret (la_at a));
  exec (λ _, 1) (λ s, with_attempts (db_attempts s ++
    [mkAttempt (trim_space (la_username a)) (trim_space (la_ip a)) (la_success a) t]) s) ;; mret tt.

(** [attempted_at >= ?] compares texts. *)
Definition text_before (a b : Z) : bool := string_less (rfc3339nano a) (rfc3339nano b).
Definition failed_since (P : LoginAttempt → Prop) `{!∀ a, Decision (P a)} (since : Z) s : list LoginAttempt :=
  filter (λ a, P a ∧ la_success a = false ∧ text_before (la_at a) since = false) (db_attempts s).
(** The count and the oldest attempt, the zero time without one. *)
Definition failedLoginAttemptStats (P : LoginAttempt → Prop) `{!∀ a, Decision (P a)} (since : Z) : op (nat * Z) :=
  select (λ s, let rows := failed_since P since s in
    (length rows, default time_zero (la_at <$> head (sort_stable (λ a b, text_before (la_at a) (la_at b)) rows)))).
Definition CountFailedLoginAttemptsByIP (ip : string) (since : Z) : op (nat * Z) :=
  let ip := trim_space ip in
  if decide (ip = "") then mret (0, time_zero) else failedLoginAttemptStats (λ a, la_ip a = ip) since.
Definition CountFailedLoginAttemptsByUsername (username : string) (since : Z) : op (nat * Z) :=
  let username := trim_space username in
  if decide (username = "") then mret (0, time_zero) else failedLoginAttemptStats (λ a, la_username a = username) since.

Definition delete_attempts (P : LoginAttempt → Prop) `{!∀ a, Decision (P a)} : op nat :=
  exec (λ s, length (filter P (db_attempts s))) (λ s, with_attempts (filter (λ a, ¬ P a) (db_attempts s)) s).
Definition PruneLoginAttempts (cutoff : Z) : op nat := delete_attempts (λ a, text_before (la_at a) cutoff = true).
Definition ResetFailedLoginAttempts (username ip : string) : op nat :=
  let username := trim_space username in
  let ip := trim_space ip in
  if decide (username = "" ∧ ip = "") then mret 0
  else delete_attempts (λ a, la_success a = false
    ∧ ((username ≠ "" ∧ la_username a = username) ∨ (ip ≠ "" ∧ la_ip a = ip))).
End store.

(** ** The tables *)
Definition empty_db (M : Type) (start : Z) (ticks : list N) (faults : list bool) : db M :=
  mkDb [] 1%Z [] 1%Z ∅ ∅ ∅ [] 1%Z [] start ticks faults.

Definition ids_ok (ids : list Z) (next : Z) : Prop := NoDup ids ∧ Forall (λ id, id < next)%Z ids.
Definition username_ok (u : string) : Prop := ValidateMQTTUsername u = [] ∧ trim_space u = u.
Definition rule_ok (r : Rule) : Prop := ValidateRule r = [] ∧ Normalize r = r.

Record db_ok {M} (s : db M) : Prop := {
  ok_usernames : NoDup (u_username <$> db_users s);
  ok_users : Forall (λ u, username_ok (u_username u)) (db_users s);
  ok_user_ids : ids_ok (u_id <$> db_users s) (db_next_user s);
  ok_rules : Forall (λ row, rule_ok row.2) (db_rules s);
  ok_rule_ids : ids_ok (db_rules s).*1 (db_next_rule s);
  ok_sources : map_Forall (λ path row, as_path row = path ∧ path ≠ "") (db_sources s);
  ok_managed : map_Forall (λ path row, mf_path row = path ∧ path ≠ "") (db_managed s);
  ok_revisions : map_Forall (λ id r, pr_id r = id ∧ id ≠ "") (db_revisions s);
  ok_statuses : Forall (λ d, dp_status d ∈ validDeploymentStatuses) (db_deployments s);
  ok_deployment_ids : ids_ok (dp_id <$> db_deployments s) (db_next_deployment s)
}.

Lemma ids_ok_snoc ids next : ids_ok ids next → ids_ok (ids ++ [next]) (next + 1).
Proof.
  intros [Hn Hl]. split.
  - apply NoDup_app. split; [done|]. split; [|apply NoDup_singleton]. intros x Hx ->%list_elem_of_singleton.
    rewrite Forall_forall in Hl. apply Hl in Hx. lia.
  - apply Forall_app. split; [|constructor; [lia|done]]. eapply Forall_impl; [done|]. cbn. lia.
Qed.

Lemma sublist_filter_fmap {A B} (f : A → B) (P : A → Prop) `{!∀ x, Decision (P x)} (l : list A) :
  f <$> filter P l `sublist_of` f <$> l.
Proof.
  induction l as [|x l IH]; [constructor|]. rewrite filter_cons, fmap_cons. destruct (decide (P x)); [by constructor|].
  by constructor.
Qed.

Lemma ids_ok_filter {A} (f : A → Z) (P : A → Prop) `{!∀ x, Decision (P x)} (l : list A) next :
  ids_ok (f <$> l) next → ids_ok (f <$> filter P l) next.
Proof.
  intros [Hn Hl]. pose proof (sublist_filter_fmap f P l) as Hs. split; [by eapply sublist_NoDup|].
  rewrite Forall_forall in *. intros x Hx. apply Hl. by eapply elem_of_sublist.
Qed.

Lemma Forall_kept {A} (Q : A → Prop) (P : A → Prop) `{!∀ x, Decision (P x)} (l : list A) : Forall Q l → Forall Q (filter P l).
Proof. rewrite !Forall_forall. intros Hl x [_ Hx]%list_elem_of_filter. by apply Hl. Qed.

Section invariant.
Context {M : Type}.
Implicit Types s : db M.

Lemma db_ok_faults f s : db_ok s → db_ok (with_faults f s).
Proof. intros []. by constructor. Qed.
Lemma db_ok_clock t ticks s : db_ok s → db_ok (with_clock t ticks s).
Proof. intros []. by constructor. Qed.
Hint Resolve db_ok_faults db_ok_clock : core.

(** ** Operations that keep the invariant *)
Definition keeps {E A} (m : io (db M) E A) : Prop := ∀ s, db_ok s → db_ok (m s).1.
(** What a computation returns, in a state that has the invariant. *)
Definition returns {E A} (m : io (db M) E A) (P : A → Prop) : Prop :=
  ∀ s a, db_ok s → (m s).2 = Ok a → P a.

Lemma keeps_ret {E A} (a : A) : keeps (mret (M := io (db M) E) a).
Proof. by intros s. Qed.
Lemma keeps_fail {E A} (e : E) : keeps (fail (A := A) e : io (db M) E A).
Proof. by intros s. Qed.
Lemma keeps_bind_with {E A B} (P : A → Prop) (m : io (db M) E A) (k : A → io (db M) E B) :
  keeps m → returns m P → (∀ a, P a → keeps (k a)) → keeps (m ≫= k).
Proof.
  intros Hm HP Hk s Hs. unfold mbind, io_bind. pose proof (Hm s Hs) as Hs'. pose proof (HP s) as Ha.
  destruct (m s) as [s' [a|e]]; [|done]. apply (Hk a); [by apply Ha|done].
Qed.
Lemma keeps_bind {E A B} (m : io (db M) E A) (k : A → io (db M) E B) : keeps m → (∀ a, keeps (k a)) → keeps (m ≫= k).
Proof. intros Hm Hk. by apply (keeps_bind_with (λ _, True)). Qed.
Lemma keeps_wrap {E E' A} (f : E → E') (m : io (db M) E A) : keeps m → keeps (wrap f m).
Proof. intros Hm s Hs. by apply Hm. Qed.
Lemma keeps_now {E} : keeps (now : io (db M) E Z).
Proof. intros s Hs. unfold now. destruct (db_ticks s); cbn; auto. Qed.

Lemma keeps_statement {A} (f : db M → result store_error (db M * A)) :
  (∀ s s' a, db_ok s → f s = Ok (s', a) → db_ok s') → keeps (statement f).
Proof.
  intros Hf s Hs. unfold statement. destruct (match db_faults s with [] => _ | _ :: _ => _ end) as [failed s0] eqn:E.
  assert (db_ok s0) as Hs0 by (destruct (db_faults s); injection E as _ <-; auto).
  destruct failed; [done|]. destruct (f s0) as [[s' a]|e] eqn:Ef; [by eapply Hf|done].
Qed.
Lemma keeps_select {A} (f : db M → A) : keeps (select f).
Proof. apply keeps_statement. intros s s' a Hs [= <- _]. done. Qed.
Lemma keeps_exec n (f : db M → db M) : (∀ s, db_ok s → db_ok (f s)) → keeps (exec n f).
Proof. intros Hf. apply keeps_statement. intros s s' a Hs [= <- _]. auto. Qed.
Lemma keeps_found {A} e (o : option A) : keeps (found (M := M) e o).
Proof. destruct o; [apply keeps_ret|apply keeps_fail]. Qed.
Lemma keeps_affects e m : keeps m → keeps (affects (M := M) e m).
Proof. intros Hm. apply keeps_bind; [done|]. intros n. destruct (decide _); [apply keeps_fail|apply keeps_ret]. Qed.
Lemma keeps_transaction {A} (m : io (db M) store_error A) : keeps m → keeps (transaction m).
Proof.
  intros Hm s Hs. unfold transaction. assert (keeps (begin_commit m)) as H.
  { repeat (apply keeps_bind; [|intros ?]); auto using keeps_select, keeps_ret. }
  specialize (H s Hs). destruct (begin_commit m s) as [s' [a|e]]; [done|]. unfold rolled_back_to. cbn. auto.
Qed.
Hint Resolve keeps_ret keeps_fail keeps_wrap keeps_now keeps_select keeps_found keeps_affects keeps_transaction : core.
Ltac keeps_step :=
  lazymatch goal with
  | |- keeps (_ ≫= _) => apply keeps_bind; [|intros ?]
  | |- keeps (if ?b then _ else _) => destruct b
  | |- keeps (match ?x with _ => _ end) => destruct x
  | |- keeps _ => solve [auto]
  end.

Lemma keeps_GetMQTTUser id : keeps (GetMQTTUser (M := M) id).
Proof. unfold GetMQTTUser. repeat keeps_step. Qed.
Lemma keeps_GetDeployment id : keeps (GetDeployment (M := M) id).
Proof. unfold GetDeployment. repeat keeps_step. Qed.
Lemma keeps_GetPreviewRevision id : keeps (GetPreviewRevision (M := M) id).
Proof. unfold GetPreviewRevision. repeat keeps_step. Qed.
Hint Resolve keeps_GetMQTTUser keeps_GetDeployment keeps_GetPreviewRevision : core.

Lemma username_ok_trim u : ValidateMQTTUsername u = [] → username_ok (trim_space u).
Proof.
  unfold username_ok, ValidateMQTTUsername. rewrite trim_space_idem. destruct (decide (trim_space u = "")); [done|].
  destruct (contains_control u) eqn:E; [done|]. by rewrite (contains_control_trim _ E).
Qed.

Lemma insert_user_ok name hash t s s' id :
  username_ok name → db_ok s → insert_user name hash t s = Ok (s', id) → db_ok s'.
Proof.
  unfold insert_user. intros Hn []. destruct (decide _) as [|Hnew]; [done|]. intros [= <- _]. constructor; cbn; try done.
  - rewrite fmap_app. apply NoDup_app. split; [done|]. split; [|apply NoDup_singleton].
    intros x Hx ->%list_elem_of_singleton. done.
  - apply Forall_app. split; [done|]. by constructor.
  - rewrite fmap_app. by apply ids_ok_snoc.
Qed.

Lemma keeps_CreateMQTTUser name hash reserved : keeps (CreateMQTTUser (M := M) name hash reserved).
Proof.
  unfold CreateMQTTUser. destruct (ValidateMQTTUsername name) eqn:E; [|auto]. destruct (is_reserved _ _); [auto|].
  repeat (apply keeps_bind; [|intros ?]); auto. apply keeps_statement. intros s s' id.
  by apply insert_user_ok, username_ok_trim.
Qed.

Lemma find_user_returns id :
  returns (u ← select (user_by_id id); found ErrMQTTUserNotFound u) (λ u, username_ok (u_username u)).
Proof.
  intros s u Hs. unfold select, statement, mbind, io_bind.
  destruct (match db_faults s with [] => _ | _ :: _ => _ end) as [failed s0] eqn:E.
  assert (db_users s0 = db_users s) as Hu by (destruct (db_faults s); injection E as _ <-; done).
  destruct failed; [done|]. unfold user_by_id. rewrite Hu. destruct (head _) as [v|] eqn:Ev; [|done]. intros [= <-].
  destruct (filter _ _) as [|w l] eqn:Ef; [done|]. injection Ev as <-.
  assert (w ∈ db_users s) as Hin by (apply (list_elem_of_filter (λ u, u_id u = id)); rewrite Ef; by left).
  pose proof (ok_users _ Hs) as H. rewrite Forall_forall in H. by apply H.
Qed.

Lemma set_user_names id name hash disabled t (l : list MQTTUser) :
  u_username <$> (set_user id name hash disabled t <$> l) = (λ u, if decide (u_id u = id) then name else u_username u) <$> l.
Proof. rewrite <-list_fmap_compose. apply list_fmap_ext. intros i u _. unfold compose, set_user. by destruct (decide _). Qed.

Lemma set_user_ids id name hash disabled t (l : list MQTTUser) : u_id <$> (set_user id name hash disabled t <$> l) = u_id <$> l.
Proof. rewrite <-list_fmap_compose. apply list_fmap_ext. intros i u _. unfold compose, set_user. by destruct (decide _). Qed.

Lemma NoDup_renamed id name (l : list MQTTUser) :
  NoDup (u_id <$> l) → NoDup (u_username <$> l) →
  (∀ u, u ∈ l → u_id u ≠ id → u_username u ≠ name) →
  NoDup ((λ u, if decide (u_id u = id) then name else u_username u) <$> l).
Proof.
  induction l as [|u l IH]; [constructor|]. rewrite !fmap_cons, !NoDup_cons. intros [Hi Hids] [Hn Hnames] Hname.
  split; [|apply IH; [done|done|]; intros v Hv; apply Hname; by right].
  rewrite list_elem_of_fmap. intros (v & Hv & Hin).
  assert (u_id v ≠ u_id u) as Hne by (intros Heq; apply Hi; rewrite <-Heq; by apply list_elem_of_fmap_2).
  assert (u_username v ≠ u_username u) as Hnu by (intros Heq; apply Hn; rewrite <-Heq; by apply list_elem_of_fmap_2).
  pose proof (Hname v ltac:(by right)). pose proof (Hname u ltac:(by left)).
  destruct (decide (u_id u = id)), (decide (u_id v = id)); naive_solver congruence.
Qed.

Lemma update_user_ok id name hash disabled t s s' u :
  username_ok name → db_ok s → update_user id name hash disabled t s = Ok (s', u) → db_ok s'.
Proof.
  unfold update_user. intros Hn []. destruct (existsb _ _) eqn:E; [done|]. intros [= <- _]. constructor; cbn; try done.
  - rewrite set_user_names. apply NoDup_renamed; [by destruct ok_user_ids0|done|]. intros v Hv Hne Heq.
    apply not_true_iff_false in E. apply E, existsb_exists. exists v. rewrite <-list_elem_of_In. split; [done|].
    by rewrite bool_decide_false, bool_decide_true.
  - apply Forall_fmap. eapply Forall_impl; [done|]. intros v Hv. cbn. unfold set_user. by destruct (decide _).
  - by rewrite set_user_ids.
Qed.

Lemma rename_principal_ok old new r : username_ok new → rule_ok r → rule_ok (rename_principal old new r).
Proof.
  unfold rename_principal. intros [Hn Ht] [Hv Hr]. destruct (decide _) as [[_ Hs]|]; [|done]. split.
  - unfold ValidateRule, ValidateRuleForMosquittoVersion in *. apply app_eq_nil in Hv as [_ Hv].
    assert (∀ r', r_selector r' = SelectorUser → r_principal r' = new → principal_problems r' = []) as Hp.
    { intros r' Hs' Hp'. unfold principal_problems. assert (EffectiveSelector r' = SelectorUser) as -> by by unfold EffectiveSelector; rewrite Hs'.
      rewrite decide_True, Hp' by done. unfold ValidateMQTTUsername in Hn.
      destruct (decide (trim_space new = "")); [done|]. by destruct (contains_control new). }
    by rewrite Hp.
  - unfold Normalize, EffectiveSelector, EffectiveScope in *. cbn. destruct r; cbn in *. congruence.
Qed.

Lemma cascade_rename_ok old new s : username_ok new → db_ok s → db_ok (cascade_rename old new s).
Proof.
  intros Hn []. constructor; cbn; try done.
  - apply Forall_fmap. eapply Forall_impl; [done|]. intros row Hrow. by apply rename_principal_ok.
  - rewrite <-list_fmap_compose. done.
Qed.

Lemma keeps_updateMQTTUser id p : keeps (updateMQTTUser (M := M) id p).
Proof.
  unfold updateMQTTUser.
  assert (∀ name, up_username p = Some name → ValidateMQTTUsername name = [] → username_ok (trim_space name)) as Hname
    by (intros name _; apply username_ok_trim).
  assert ((∀ name, up_username p = Some name → ValidateMQTTUsername name = []) →
    keeps (transaction (updateMQTTUser_tx (M := M) id p) ;; GetMQTTUser id)) as H.
  { intros Hok. apply keeps_bind; [|auto]. apply keeps_transaction. unfold updateMQTTUser_tx.
    eapply keeps_bind_with; [repeat keeps_step|apply find_user_returns|]. intros u Hu.
    assert (username_ok (match up_username p with Some name => trim_space name | None => u_username u end)) as Hnew.
    { destruct (up_username p) eqn:E; [apply Hname; auto|done]. }
    apply keeps_bind; [repeat keeps_step|intros _]. cbv zeta. apply keeps_bind; [repeat keeps_step|intros _].
    apply keeps_bind; [auto|intros t]. apply keeps_bind.
    { apply keeps_wrap, keeps_statement. intros s s' x. by apply update_user_ok. }
    intros _. destruct (decide _); [auto|]. apply keeps_bind; [auto|intros _]. apply keeps_bind; [|auto].
    apply keeps_exec. intros s. by apply cascade_rename_ok. }
  destruct (up_username p) as [name|]; [|by apply H]. cbn. destruct (ValidateMQTTUsername name) eqn:E; [|auto].
  apply H. by intros ? [= <-].
Qed.

Lemma keeps_delete_users (P : MQTTUser → Prop) `{!∀ u, Decision (P u)} : keeps (delete_users (M := M) P).
Proof.
  apply keeps_affects, keeps_exec. intros s []. constructor; cbn; try done.
  - by eapply sublist_NoDup, sublist_filter_fmap.
  - by apply Forall_kept.
  - by apply ids_ok_filter.
Qed.

Lemma with_rules_ok l n s : db_ok s → Forall (λ row, rule_ok row.2) l → ids_ok l.*1 n → db_ok (with_rules l n s).
Proof. intros []. by constructor. Qed.

Lemma rule_ok_Normalize r : ValidateRule r = [] → rule_ok (Normalize r).
Proof.
  intros Hv. pose proof (EffectiveSelector_Normalize r) as Hsel. pose proof (EffectiveScope_Normalize r) as Hsc. split.
  - unfold ValidateRule, ValidateRuleForMosquittoVersion in *. apply app_eq_nil in Hv as [H1 Hv]. apply app_eq_nil in Hv as [H2 Hv].
    apply app_eq_nil in Hv as [H3 H4].
    assert (principal_problems (Normalize r) = []) as -> by (unfold principal_problems; by rewrite Hsel).
    assert (topic_problems (Normalize r) = []) as -> by (unfold topic_problems; by rewrite Hsel).
    assert (permission_problems (Normalize r) SupportedMosquittoVersion = []) as -> by done.
    rewrite !app_nil_r. unfold scope_problems in *. rewrite Hsc. cbn [r_listener_id Normalize].
    destruct (decide (EffectiveScope r = ScopeGlobal)) as [->|]; [done|]. by destruct (decide _).
  - unfold Normalize at 1. rewrite Hsel, Hsc. unfold Normalize. cbn. by destruct (decide _).
Qed.

Lemma keeps_CreateRule r : keeps (CreateRule (M := M) r).
Proof.
  unfold CreateRule. destruct (ValidateRule r) eqn:E; [|auto]. repeat (apply keeps_bind; [|intros ?]); auto.
  apply keeps_statement. intros s s' id Hs [= <- _]. destruct Hs. apply with_rules_ok; [by constructor| |].
  - apply Forall_app. split; [done|]. constructor; [by apply rule_ok_Normalize|done].
  - rewrite fmap_app. by apply ids_ok_snoc.
Qed.

Lemma keeps_UpdateRule id r : keeps (UpdateRule (M := M) id r).
Proof.
  unfold UpdateRule. destruct (ValidateRule r) eqn:E; [|auto]. destruct (atoi id) as [n|]; [|auto].
  apply keeps_bind; [auto|intros t]. apply keeps_bind; [|auto]. apply keeps_affects, keeps_exec. intros s Hs. apply with_rules_ok; [done| |].
  - apply Forall_fmap. eapply Forall_impl; [apply ok_rules; exact Hs|]. intros row Hrow. cbn. unfold set_rule.
    destruct (decide _); [by apply rule_ok_Normalize|done].
  - assert ((set_rule n (Normalize r) <$> db_rules s).*1 = (db_rules s).*1) as ->; [|by apply ok_rule_ids].
    rewrite <-list_fmap_compose. apply list_fmap_ext. intros i row _. unfold compose, set_rule. by destruct (decide _) as [->|].
Qed.

Lemma keeps_DeleteRule id : keeps (DeleteRule (M := M) id).
Proof.
  unfold DeleteRule. destruct (atoi id) as [n|]; [|auto]. apply keeps_affects, keeps_exec. intros s Hs.
  apply with_rules_ok; [done|apply Forall_kept, ok_rules, Hs|apply ids_ok_filter, ok_rule_ids, Hs].
Qed.

Lemma keeps_SaveACLSource path body : keeps (SaveACLSource (M := M) path body).
Proof.
  unfold SaveACLSource, GetACLSource. destruct (decide (path = "")); [auto|]. repeat (apply keeps_bind; [|intros ?]); auto.
  apply keeps_exec. intros s []. constructor; try done. cbn. by apply map_Forall_insert_2.
Qed.
Lemma keeps_DeleteACLSource path : keeps (DeleteACLSource (M := M) path).
Proof. apply keeps_affects, keeps_exec. intros s []. constructor; try done. cbn. by apply map_Forall_delete. Qed.
Lemma keeps_RecordManagedACLFile path listener : keeps (RecordManagedACLFile (M := M) path listener).
Proof.
  unfold RecordManagedACLFile. destruct (decide (path = "")); [auto|]. repeat (apply keeps_bind; [|intros ?]); auto.
  apply keeps_exec. intros s []. constructor; try done. cbn. by apply map_Forall_insert_2.
Qed.
Lemma keeps_DeleteManagedACLFile path : keeps (DeleteManagedACLFile (M := M) path).
Proof. apply keeps_affects, keeps_exec. intros s []. constructor; try done. cbn. by apply map_Forall_delete. Qed.

Lemma keeps_InsertPreviewRevision r : keeps (InsertPreviewRevision (M := M) r).
Proof.
  unfold InsertPreviewRevision. destruct (decide (pr_id r = "")); [auto|]. apply keeps_bind; [by destruct (decide _); auto|].
  intros t. apply keeps_statement. unfold insert_revision. intros s s' x Hs. destruct (decide _); [done|]. intros [= <- _].
  destruct Hs. constructor; try done. cbn. by apply map_Forall_insert_2.
Qed.
Lemma keeps_ConsumePreviewRevision id t : keeps (ConsumePreviewRevision (M := M) id t).
Proof.
  unfold ConsumePreviewRevision. apply keeps_bind.
  - apply keeps_exec. intros s Hs. unfold consume. destruct (is_pending s id); [|done]. destruct Hs. constructor; try done. cbn.
    intros k r. rewrite lookup_alter_Some. intros [(<- & r' & Hr & ->)|[_ Hr]]; [|by apply ok_revisions0].
    by apply (ok_revisions0 _ _ Hr).
  - intros n. destruct (decide _); [auto|]. apply keeps_bind; auto.
Qed.

Lemma keeps_InsertDeployment d : keeps (InsertDeployment (M := M) d).
Proof.
  unfold InsertDeployment. destruct (decide _) as [Hst|]; [|auto]. repeat (apply keeps_bind; [|intros ?]); auto.
  apply keeps_statement. intros s s' id Hs [= <- _]. destruct Hs. constructor; cbn; try done.
  - apply Forall_app. split; [done|]. by constructor.
  - rewrite fmap_app. by apply ids_ok_snoc.
Qed.
Lemma keeps_UpdateDeploymentStatus id status message : keeps (UpdateDeploymentStatus (M := M) id status message).
Proof.
  unfold UpdateDeploymentStatus. destruct (decide _) as [Hst|]; [|auto]. apply keeps_bind; [auto|intros t].
  apply keeps_affects, keeps_exec. intros s []. constructor; cbn; try done.
  - apply Forall_fmap. eapply Forall_impl; [done|]. intros d Hd. cbn. unfold set_status. by destruct (decide _).
  - assert (dp_id <$> (set_status id status message t <$> db_deployments s) = dp_id <$> db_deployments s) as ->; [|done].
    rewrite <-list_fmap_compose. apply list_fmap_ext. intros i d _. unfold compose, set_status. by destruct (decide _).
Qed.
End invariant.

(** ** The operations as steps *)
Inductive store_step {M} : db M → db M → Prop :=
  | StepCreateMQTTUser name hash reserved s : store_step s (CreateMQTTUser name hash reserved s).1
  | StepUpdateMQTTUser id p s : store_step s (updateMQTTUser id p s).1
  | StepRenameMQTTUser id name s : store_step s (RenameMQTTUser id name s).1
  | StepDeleteMQTTUser id s : store_step s (DeleteMQTTUser id s).1
  | StepDeleteMQTTUserByUsername name s : store_step s (DeleteMQTTUserByUsername name s).1
  | StepCreateRule r s : store_step s (CreateRule r s).1
  | StepUpdateRule id r s : store_step s (UpdateRule id r s).1
  | StepDeleteRule id s : store_step s (DeleteRule id s).1
  | StepSaveACLSource path body s : store_step s (SaveACLSource path body s).1
  | StepDeleteACLSource path s : store_step s (DeleteACLSource path s).1
  | StepRecordManagedACLFile path listener s : store_step s (RecordManagedACLFile path listener s).1
  | StepDeleteManagedACLFile path s : store_step s (DeleteManagedACLFile path s).1
  | StepInsertPreviewRevision r s : store_step s (InsertPreviewRevision r s).1
  | StepConsumePreviewRevision id t s : store_step s (ConsumePreviewRevision id t s).1
  | StepInsertDeployment d s : store_step s (InsertDeployment d s).1
  | StepUpdateDeploymentStatus id status message s : store_step s (UpdateDeploymentStatus id status message s).1.

Lemma store_step_ok {M} (s s' : db M) : store_step s s' → db_ok s → db_ok s'.
Proof.
  destruct 1; intros Hs.
  - by apply keeps_CreateMQTTUser.
  - by apply keeps_updateMQTTUser.
  - revert s Hs. unfold RenameMQTTUser. destruct (decide _); [apply keeps_fail|]. apply keeps_bind; [apply keeps_updateMQTTUser|].
    intros _. apply keeps_ret.
  - by apply keeps_delete_users.
  - by apply keeps_delete_users.
  - by apply keeps_CreateRule.
  - by apply keeps_UpdateRule.
  - by apply keeps_DeleteRule.
  - by apply keeps_SaveACLSource.
  - by apply keeps_DeleteACLSource.
  - by apply keeps_RecordManagedACLFile.
  - by apply keeps_DeleteManagedACLFile.
  - by apply keeps_InsertPreviewRevision.
  - by apply keeps_ConsumePreviewRevision.
  - by apply keeps_InsertDeployment.
  - by apply keeps_UpdateDeploymentStatus.
Qed.

Lemma store_steps_ok {M} (s s' : db M) : rtc store_step s s' → db_ok s → db_ok s'.
Proof. induction 1 as [|s1 s2 s3 H12 _ IH]; [done|]. intros H1. by apply IH, (store_step_ok s1). Qed.

Lemma empty_db_ok M t ticks faults : db_ok (empty_db M t ticks faults).
Proof. 
  constructor; cbn; [constructor|constructor|split; constructor|constructor|split; constructor|apply map_Forall_empty..
    |constructor|split; constructor].
Qed.

(** ** Renaming *)
Section rename.
Context {M : Type}.
Implicit Types s : db M.

(** The tables but not the clock and the faults. *)
Definition same_tables s s' : Prop := rolled_back_to s s' = s'.
Lemma same_tables_refl s : same_tables s s.
Proof. by destruct s. Qed.
Lemma same_tables_trans s1 s2 s3 : same_tables s1 s2 → same_tables s2 s3 → same_tables s1 s3.
Proof. unfold same_tables, rolled_back_to. by intros <- <-. Qed.
Lemma same_tables_rolled_back s s' : same_tables s (rolled_back_to s s').
Proof. done. Qed.

Lemma wp_now {E} (Q : db M → result E Z → Prop) s : (∀ s' t, same_tables s s' → Q s' (Ok t)) → wp now Q s.
Proof. intros H. unfold wp, now. destruct (db_ticks s) as [|tick rest]; cbn; apply H; [apply same_tables_refl|by destruct s]. Qed.

Lemma wp_statement {A} (f : db M → result store_error (db M * A)) (Q : db M → result store_error A → Prop) s :
  (∀ s0, same_tables s s0 → Q s0 (Err QueryFailed)) →
  (∀ s0, same_tables s s0 → match f s0 with Ok (s', a) => Q s' (Ok a) | Err e => Q s0 (Err e) end) →
  wp (statement f) Q s.
Proof.
  intros Hq Hf. unfold wp, statement. destruct (match db_faults s with [] => _ | _ :: _ => _ end) as [failed s0] eqn:E.
  assert (same_tables s s0) as Hs by (destruct (db_faults s); injection E as _ <-; [apply same_tables_refl|by destruct s]).
  destruct failed; [by apply Hq|]. specialize (Hf s0 Hs). by destruct (f s0) as [[s' a]|e].
Qed.

(** What the statements of the transaction do, for the user [u] that is updated. *)
Definition renamed (p : UpdateMQTTUserParams) (u : MQTTUser) : string :=
  match up_username p with Some name => trim_space name | None => u_username u end.
Record updated (id : Z) (p : UpdateMQTTUserParams) (u : MQTTUser) (s s' : db M) : Prop := {
  up_found : user_by_id id s = Some u;
  up_users : ∃ t, db_users s' = set_user id (renamed p u) (default (u_hash u) (up_hash p)) (default (u_disabled u) (up_disabled p)) t
                    <$> db_users s;
  up_rules : db_rules s' = prod_map (λ i, i) (rename_principal (u_username u) (renamed p u)) <$> db_rules s;
  up_others : same_tables (with_rules (db_rules s') (db_next_rule s) (with_users (db_users s') (db_next_user s) s)) s'
}.

Lemma rename_same name r : rename_principal name name r = r.
Proof. unfold rename_principal. destruct (decide _) as [[<- _]|]; [by destruct r|done]. Qed.

Lemma wp_updateMQTTUser_tx id p s :
  wp (updateMQTTUser_tx id p) (λ s' r, match r with Ok _ => ∃ u, updated id p u s s' | Err _ => True end) s.
Proof.
  unfold updateMQTTUser_tx. apply wp_bind, wp_bind. unfold select. apply wp_statement; [done|]. intros s1 H1.
  assert (user_by_id id s1 = user_by_id id s) as -> by by rewrite <-H1.
  destruct (user_by_id id s) as [u|] eqn:Hu; [|done]. unfold found. apply wp_ret, wp_bind.
  assert (∀ (b : bool) (Q : db M → result store_error unit → Prop) s, Q s (Ok tt) → (∀ e, Q s (Err e)) →
    wp (if b then fail ErrMQTTUserServiceReserved else mret tt) Q s) as Hguard by (intros [] Q s0 HQ He; [apply wp_fail, He|by apply wp_ret]).
  fold (renamed p u).
  assert (∀ (Q : db M → result store_error unit → Prop) s, Q s (Ok tt) → (∀ e, Q s (Err e)) → wp (match up_username p with
    | Some name => if is_reserved (up_reserved p) (trim_space name) then fail ErrMQTTUserServiceReserved else mret tt
    | None => mret tt end) Q s) as Hg1 by (intros; destruct (up_username p); [by apply Hguard|done]).
  apply Hg1; [|done]. cbv zeta. apply wp_bind. assert (∀ (Q : db M → result store_error unit → Prop) s, Q s (Ok tt) → (∀ e, Q s (Err e)) →
    wp (match up_disabled p with Some true => if is_reserved (up_reserved p) (u_username u) then fail ErrMQTTUserServiceReserved
        else mret tt | _ => mret tt end) Q s) as Hg2 by (intros; destruct (up_disabled p) as [[]|]; [by apply Hguard|done..]).
  apply Hg2; [|done]. clear Hguard Hg1 Hg2. apply wp_bind, wp_now. intros s2 t H2.
  apply wp_bind, wp_wrap, wp_statement; [done|]. intros s3 H3. unfold update_user. destruct (existsb _ _); [done|].
  assert (same_tables s s3) as Hs by eauto using same_tables_trans.
  assert (db_users s3 = db_users s ∧ db_rules s3 = db_rules s) as [Hus Hrs] by (by rewrite <-Hs).
  set (s4 := with_users _ _ s3). assert (∃ t, db_users s4 = set_user id (renamed p u) (default (u_hash u) (up_hash p))
    (default (u_disabled u) (up_disabled p)) t <$> db_users s) as Hu4 by (exists t; by rewrite <-Hus).
  assert (same_tables (with_users (db_users s4) (db_next_user s) s) s4) as H4 by (unfold s4; rewrite <-Hs; by destruct s).
  assert (db_rules s4 = db_rules s) as Hr4 by done. clearbody s4.
  destruct (decide (renamed p u = u_username u)) as [Heq|Hne].
  - apply wp_ret. exists u. constructor; [done|done| |].
    + rewrite Heq, Hr4. symmetry. rewrite <-(list_fmap_id (db_rules s)) at 2. apply list_fmap_ext. intros i [j r] _.
      unfold prod_map. cbn. by rewrite rename_same.
    + rewrite Hr4. by destruct s.
  - apply wp_bind, wp_now. intros s5 t5 H5. apply wp_bind. unfold exec. apply wp_statement; [done|]. intros s6 H6.
    apply wp_ret. assert (same_tables s4 s6) as H46 by eauto using same_tables_trans.
    exists u. constructor; [done|by rewrite <-H46| |].
    + unfold cascade_rename. cbn. by rewrite <-H46, <-Hr4.
    + unfold cascade_rename. rewrite <-H46, <-H4. by destruct s.
Qed.

Lemma updateMQTTUser_cases id p s :
  let '(s', r) := updateMQTTUser id p s in
  (same_tables s s' ∧ is_ok r = false) ∨ (∃ u s0, updated id p u s s0 ∧ same_tables s0 s').
Proof.
  unfold updateMQTTUser.
  assert (let '(s', r) := (transaction (updateMQTTUser_tx id p) ;; GetMQTTUser id) s in
    (same_tables s s' ∧ is_ok r = false) ∨ (∃ u s0, updated id p u s s0 ∧ same_tables s0 s')) as H.
  { pose proof (wp_updateMQTTUser_tx id p) as Htx.
    assert (wp (begin_commit (updateMQTTUser_tx id p)) (λ s' r, match r with Ok _ =>
      ∃ u s0, updated id p u s s0 ∧ same_tables s0 s' | Err _ => True end) s) as Hb.
    { unfold begin_commit. apply wp_bind. unfold select. apply wp_statement; [done|]. intros s1 H1. apply wp_bind.
      eapply wp_mono; [apply Htx|]. intros s2 [[]|e]; [|done]. intros (u & Hu). apply wp_bind, wp_statement; [done|].
      intros s3 H3. apply wp_ret. exists u, s2. split; [|done]. destruct Hu. rewrite <-H1 in *. by constructor. }
    unfold transaction, mbind, io_bind. unfold wp in Hb. destruct (begin_commit _ s) as [s1 [[]|e]]; cbn in Hb.
    - destruct Hb as (u & s0 & Hu & Hs). assert (wp (GetMQTTUser id) (λ s' _, same_tables s1 s') s1) as Hget.
      { unfold GetMQTTUser. apply wp_bind. unfold select. apply wp_statement; [done|]. intros s2 H2.
        unfold found. by destruct (user_by_id id s2). }
      unfold wp in Hget. destruct (GetMQTTUser id s1) as [s' r]. right. exists u, s0. eauto using same_tables_trans.
    - left. split; [apply same_tables_rolled_back|done]. }
  destruct (ValidateMQTTUsername <$> up_username p) as [[|]|]; [exact H| |exact H]. left. split; [apply same_tables_refl|done].
Qed.
End rename.

(** ** Properties *)

(** [C15] Whatever the sequence of operations and of faults, every reachable
    database is well-formed: usernames are unique, trimmed and valid, every ACL
    rule passes validation and is normalized, the rows of the file registry, of
    the adopted sources and of the revisions sit under their own key, statuses
    are lifecycle statuses, and ids are unique and below the next one. *)
Theorem store_invariant {M} start ticks faults (s : db M) :
  rtc store_step (empty_db M start ticks faults) s → db_ok s.
Proof.
  intros H. by apply (store_steps_ok _ _ H), empty_db_ok.
Qed.

(** An update of a user is atomic and renames its ACL rules along: either
    nothing but the clock changed and an error is reported, or the row has its
    new values, and exactly the user rules of the old name carry the new one.
    When the user is enabled and stays so, no rule becomes an orphan. *)
Theorem updateMQTTUser_cascades {M} id p (s : db M) :
  db_ok s →
  let '(s', r) := updateMQTTUser id p s in
  (same_tables s s' ∧ is_ok r = false)
  ∨ ∃ u, user_by_id id s = Some u
    ∧ (∃ t, db_users s' = set_user id (renamed p u) (default (u_hash u) (up_hash p)) (default (u_disabled u) (up_disabled p)) t <$> db_users s)
    ∧ db_rules s' = prod_map (λ i, i) (rename_principal (u_username u) (renamed p u)) <$> db_rules s
    ∧ (u_disabled u = false → default false (up_disabled p) = false →
       ∀ row, row ∈ db_rules s → is_orphan s' (rename_principal (u_username u) (renamed p u) row.2) → is_orphan s row.2).
Proof.
  intros Hok. pose proof (updateMQTTUser_cases id p s) as H. destruct (updateMQTTUser id p s) as [s' r].
  destruct H as [H|(u & s0 & [Hu (t & Hus) Hrs Ho] & Hs)]; [by left|right]. exists u.
  assert (db_users s' = db_users s0 ∧ db_rules s' = db_rules s0) as [Hus' Hrs'] by (by rewrite <-Hs).
  rewrite Hus', Hrs'. split; [done|]. split; [by exists t|]. split; [done|]. intros Hen Hstay row _ [Hsel Hno].
  assert (r_selector (rename_principal (u_username u) (renamed p u) row.2) = r_selector row.2) as Hselr
    by (unfold rename_principal; by destruct (decide _)).
  rewrite Hselr in Hsel. split; [done|]. intros Hin. apply Hno. rewrite Hus', Hus.
  apply list_elem_of_fmap in Hin as (w & Hw & Hin). apply list_elem_of_filter in Hin as [Hwe Hin].
  assert (user_by_id id s = Some u) as Hu0 by done. unfold user_by_id in Hu0.
  assert (u_id u = id ∧ u ∈ db_users s) as [Huid Huin].
  { destruct (filter _ (db_users s)) as [|v l] eqn:Ef; [done|]. injection Hu0 as ->.
    apply (list_elem_of_filter (λ u, u_id u = id)). rewrite Ef. by left. }
  set (upd := set_user _ _ _ _ _). apply list_elem_of_fmap. exists (upd w). split.
  - unfold upd, set_user, rename_principal. destruct (decide (u_id w = id)) as [Hwid|Hwid].
    + assert (w = u) as -> by (eapply NoDup_key; [apply (ok_user_ids _ Hok)|..]; by rewrite ?Huid).
      by rewrite decide_True.
    + rewrite decide_False; [done|]. intros [Hp _]. apply Hwid. rewrite <-Huid. f_equal.
      eapply NoDup_key; [apply (ok_usernames _ Hok)|..]; [done|done|]. by rewrite <-Hw.
  - apply list_elem_of_filter. split; [|by apply list_elem_of_fmap_2]. unfold upd, set_user.
    destruct (decide (u_id w = id)) as [Hwid|]; [|done]. cbn. destruct (up_disabled p); cbn in *; congruence.
Qed.

(** [ListDeployments] promises the newest first, but orders by the text of
    the timestamp: a deployment created on a whole second is listed before one
    that was created later within that second. *)
Theorem ListDeployments_second_boundary {M} (older newer : Deployment M) s :
  db_deployments s = [older; newer] → db_faults s = [] →
  (dp_created older `mod` second = 0)%Z → (dp_created older < dp_created newer < dp_created older + second)%Z →
  (ListDeployments 20 0 s).2 = Ok [older; newer].
Proof.
  intros Hd Hf Hsec Hlt. unfold ListDeployments, select, statement. rewrite Hf, Hd. cbn [snd].
  rewrite !decide_False by lia. unfold sort_stable. cbn [foldr sort_insert].
  assert (listed_before newer older = false) as ->; [|done]. unfold listed_before.
  pose proof (rfc3339nano_boundary (dp_created older) (dp_created newer - dp_created older) Hsec ltac:(lia)) as Hb.
  replace (dp_created older + (dp_created newer - dp_created older))%Z with (dp_created newer) in Hb by lia.
  revert Hb. cbv zeta. generalize (rfc3339nano (dp_created newer)) (rfc3339nano (dp_created older)). intros tn to Hb.
  rewrite (string_less_asym _ _ Hb). cbn [orb]. rewrite bool_decide_false; [done|]. intros ->. by rewrite string_less_irrefl in Hb.
Qed.

(** ** Example *)
Definition example_rule (principal : string) : Rule := mkRule "" "user" "" "" principal "plant/+" "read" "".
(** A user with a rule, and a deployment of the next second. *)
Definition example_db : db unit :=
  let s := empty_db unit (1700000000 * second) [] [] in
  let s := (CreateMQTTUser "alice" "$7$h" "mcm" s).1 in
  let s := (CreateRule (example_rule "alice") s).1 in
  let d id t := mkDeployment id "r" "op" "saved" "" "" "" "" "" "" ∅ ∅ "" "" tt t t in
  let s := (InsertDeployment (d 0%Z 0%Z) s).1 in
  let s := with_clock (1700000000 * second + 5)%Z [] s in
  (InsertDeployment (d 0%Z 0%Z) s).1.

Lemma example_steps : rtc store_step (empty_db unit (1700000000 * second) [] []) (CreateRule (example_rule "alice")
  (CreateMQTTUser "alice" "$7$h" "mcm" (empty_db unit (1700000000 * second) [] [])).1).1.
Proof. eapply rtc_l; [apply StepCreateMQTTUser|]. eapply rtc_l; [apply StepCreateRule|]. constructor. Qed.

Lemma store_invariant_witness :
  db_ok (CreateRule (example_rule "alice") (CreateMQTTUser "alice" "$7$h" "mcm" (empty_db unit (1700000000 * second) [] [])).1).1.
Proof. exact (store_invariant _ _ _ _ example_steps). Defined.

Lemma updateMQTTUser_cascades_witness :
  let s := (CreateRule (example_rule "alice") (CreateMQTTUser "alice" "$7$h" "mcm" (empty_db unit (1700000000 * second) [] [])).1).1 in
  r_principal <$> (db_rules (updateMQTTUser 1 (mkUpdate (Some " bob ") None None "mcm") s).1).*2 = ["bob"]
  ∧ ∃ u, user_by_id 1 s = Some u
    ∧ db_rules (updateMQTTUser 1 (mkUpdate (Some " bob ") None None "mcm") s).1
      = prod_map (λ i, i) (rename_principal (u_username u) "bob") <$> db_rules s.
Proof.
  intros s. assert (db_ok s) as Hok by exact (store_steps_ok _ _ example_steps (empty_db_ok _ _ _ _)).
  pose proof (updateMQTTUser_cascades 1 (mkUpdate (Some " bob ") None None "mcm") s Hok) as H.
  assert (r_principal <$> (db_rules (updateMQTTUser 1 (mkUpdate (Some " bob ") None None "mcm") s).1).*2 = ["bob"]) as E by by vm_compute.
  destruct (updateMQTTUser 1 _ s) as [s' r]. split; [exact E|]. cbn [fst] in *.
  destruct H as [[Hs _]|(u & Hu & _ & Hr & _)]; [rewrite <-Hs in E; by vm_compute in E|by exists u].
Defined.

Lemma ListDeployments_second_boundary_witness :
  dp_id <$> default [] (match (ListDeployments 20 0 example_db).2 with Ok l => Some l | Err _ => None end) = [1; 2]%Z.
Proof.
  destruct (db_deployments example_db) as [|a [|b [|]]] eqn:E; [by vm_compute in E| by vm_compute in E| |by vm_compute in E].
  assert (a = nth 0 (db_deployments example_db) a ∧ b = nth 1 (db_deployments example_db) a) as [Ha Hb] by by rewrite E.
  rewrite (ListDeployments_second_boundary a b example_db E).
  - rewrite Ha, Hb. by vm_compute.
  - by vm_compute.
  - rewrite Ha. by vm_compute.
  - rewrite Ha, Hb. split; by vm_compute.
Defined.
