(* ===== verification/ListenerStore.v ===== *)
(** * [internal/storage/listener_store.go] and [internal/server/acl_scope_sync.go]

    The table of the listeners, with the statements of [Store]: each takes the
    next fault, and fails without an effect when it is [true].  The JSON columns
    hold the values they decode to, and a nil map or list is the empty one.  The
    mutation lock orders the operations.  [Sync] points the listeners that own
    scoped ACL rules at the files MCM writes for them. *)
From S2P Require Import Prelude IO GoStrings GoTime Acl AclDoc Store.

Record ListenerSpecRow := mkListenerRow {
  lr_id : string; lr_port : Z; lr_bind : string; lr_protocols : list string; lr_options : gmap string string;
  lr_tls : string; lr_created : Z; lr_updated : Z
}.
Definition with_times (created updated : Z) (r : ListenerSpecRow) : ListenerSpecRow :=
  mkListenerRow (lr_id r) (lr_port r) (lr_bind r) (lr_protocols r) (lr_options r) (lr_tls r) created updated.
Definition with_listener_options (o : gmap string string) (r : ListenerSpecRow) : ListenerSpecRow :=
  mkListenerRow (lr_id r) (lr_port r) (lr_bind r) (lr_protocols r) o (lr_tls r) (lr_created r) (lr_updated r).
#[export] Instance row_eq_dec : EqDecision ListenerSpecRow.
Proof. solve_decision. Defined.

Inductive listener_store_error := ListenerStatementFailed | ErrListenerNotFound | ErrListenerConflict | ListenerIDChanged | MutateRefused.

Record listener_tables (M : Type) := mkListenerTables { lt_db : db M; lt_rows : list ListenerSpecRow }.
Arguments mkListenerTables {M}. Arguments lt_db {M}. Arguments lt_rows {M}.

Section store.
Context {M : Type}.
Implicit Types s : listener_tables M.
Local Abbreviation op A := (io (listener_tables M) listener_store_error A).

Definition listener_statement {A} (f : list ListenerSpecRow → result listener_store_error (list ListenerSpecRow * A)) : op A := λ s,
  let '(failed, d) := match db_faults (lt_db s) with [] => (false, lt_db s) | x :: rest => (x, with_faults rest (lt_db s)) end in
  if failed : bool then (mkListenerTables d (lt_rows s), Err ListenerStatementFailed)
  else match f (lt_rows s) with Ok (l, a) => (mkListenerTables d l, Ok a) | Err e => (mkListenerTables d (lt_rows s), Err e) end.
Definition listener_select {A} (f : list ListenerSpecRow → A) : op A := listener_statement (λ l, Ok (l, f l)).
Definition listener_now : op Z := zoom lt_db (λ d s, mkListenerTables d (lt_rows s)) (λ e, e) now.
(** A transaction: an error gives the table back as it was. *)
Definition listener_transaction {A} (m : op A) : op A := λ s,
  match (listener_select (λ _, tt) ;; a ← m; listener_select (λ _, tt) ;; mret a) s with
  | (s', Err e) => (mkListenerTables (lt_db s') (lt_rows s), Err e)
  | r => r
  end.

Definition stamped (t : Z) (r : ListenerSpecRow) : ListenerSpecRow :=
  with_times (if decide (lr_created r = time_zero) then t else lr_created r) (if decide (lr_updated r = time_zero) then t else lr_updated r) r.
Definition binds_at (port : Z) (bind : string) (r : ListenerSpecRow) : Prop := lr_port r = port ∧ lr_bind r = bind.
#[export] Instance binds_at_dec port bind r : Decision (binds_at port bind r).
Proof. apply _. Defined.
Definition listenerSpecBindingAvailable (id : string) (port : Z) (bind : string) : op unit :=
  taken ← listener_select (λ l, filter (λ r, binds_at port bind r ∧ lr_id r ≠ id) l);
  match taken with [] => mret tt | _ => fail ErrListenerConflict end.
Definition insert_row (r : ListenerSpecRow) (l : list ListenerSpecRow) : result listener_store_error (list ListenerSpecRow * unit) :=
  if decide (lr_id r ∈ lr_id <$> l) then Err ErrListenerConflict else Ok (l ++ [r], tt).
Definition insertListenerSpec (r : ListenerSpecRow) : op unit :=
  listenerSpecBindingAvailable (lr_id r) (lr_port r) (lr_bind r) ;; listener_statement (insert_row r).
Definition InsertListenerSpec (r : ListenerSpecRow) : op ListenerSpecRow :=
  t ← listener_now; let r := stamped t r in insertListenerSpec r ;; mret r.

Definition listener_by_id (id : string) (l : list ListenerSpecRow) : option ListenerSpecRow := head (filter (λ r, lr_id r = id) l).
Definition GetListenerSpec (id : string) : op ListenerSpecRow :=
  r ← listener_select (listener_by_id id); match r with Some r => mret r | None => fail ErrListenerNotFound end.
Definition row_less (a b : ListenerSpecRow) : bool :=
  if decide (lr_bind a = lr_bind b) then (lr_port a <? lr_port b)%Z else string_less (lr_bind a) (lr_bind b).
Definition ListListenerSpecs : op (list ListenerSpecRow) := listener_select (sort_stable row_less).

(** The update leaves the time of creation in the table. *)
Definition updated_row (new old : ListenerSpecRow) : ListenerSpecRow :=
  if decide (lr_id old = lr_id new) then with_times (lr_created old) (lr_updated new) new else old.
Definition updateListenerSpec (r : ListenerSpecRow) : op unit :=
  listenerSpecBindingAvailable (lr_id r) (lr_port r) (lr_bind r) ;; listener_statement (λ l, Ok (updated_row r <$> l, tt)).
Definition UpdateListenerSpec (id : string) (mutate : ListenerSpecRow → option ListenerSpecRow) : op ListenerSpecRow :=
  listener_transaction (
    row ← GetListenerSpec id;
    match mutate row with
    | None => fail MutateRefused
    | Some row =>
        if decide (lr_id row = id) then t ← listener_now; let row := with_times (lr_created row) t row in updateListenerSpec row ;; mret row
        else fail ListenerIDChanged
    end).
Definition DeleteListenerSpec (id : string) : op unit :=
  affected ← listener_statement (λ l, Ok (filter (λ r, lr_id r ≠ id) l, length (filter (λ r, lr_id r = id) l)));
  if decide (affected = 0) then fail ErrListenerNotFound else mret tt.
Definition ReplaceAllListenerSpecs (rows : list ListenerSpecRow) : op unit :=
  listener_transaction (
    listener_statement (λ _, Ok ([], tt)) ;;
    t ← listener_now;
    for_each (λ r, insertListenerSpec (stamped t r)) rows).

(** ** [acl_scope_sync.go] *)
Inductive sync_error := RulesUnavailable (e : store_error) | SyncFailed (e : listener_store_error).
Definition aclFileOption : string := "acl_file".
Definition set_acl_file (path : string) (r : ListenerSpecRow) : ListenerSpecRow :=
  with_listener_options (if decide (path = "") then delete aclFileOption (lr_options r) else <[aclFileOption := path]> (lr_options r)) r.
Definition setACLFile (listenerID path : string) : op unit := λ s,
  match UpdateListenerSpec listenerID (λ r, Some (set_acl_file path r)) s with
  | (s', Err ErrListenerNotFound) => (s', Ok tt)
  | (s', Err e) => (s', Err e)
  | (s', Ok _) => (s', Ok tt)
  end.
Definition scoped_listeners (rules : list Rule) : list string := r_listener_id <$> filter (λ r, IsListenerScoped r = true) rules.
Definition wanted_file (aclPath : string) (scoped : list string) (id : string) : string :=
  if decide (id ∈ scoped) then ListenerACLPath aclPath id else "".
Definition declared_file (r : ListenerSpecRow) : string := trim_space (default "" (lr_options r !! aclFileOption)).
Definition sync_row (aclPath : string) (scoped : list string) (r : ListenerSpecRow) : op unit :=
  let want := wanted_file aclPath scoped (lr_id r) in
  if decide (declared_file r = want) then mret tt else setACLFile (lr_id r) want.
(** [aclPath = ""] stands for the missing synchroniser too. *)
Definition Sync (aclPath : string) : io (listener_tables M) sync_error unit :=
  if decide (aclPath = "") then mret tt
  else
    rules ← zoom lt_db (λ d s, mkListenerTables d (lt_rows s)) RulesUnavailable ListRules;
    specs ← wrap SyncFailed ListListenerSpecs;
    wrap SyncFailed (for_each (sync_row aclPath (scoped_listeners rules)) specs).

(** ** The invariant of the table *)
Definition row_endpoint (r : ListenerSpecRow) : Z * string := (lr_port r, lr_bind r).
Definition rows_ok (l : list ListenerSpecRow) : Prop := NoDup (lr_id <$> l) ∧ NoDup (row_endpoint <$> l).

Lemma wp_listener_statement {A} (f : list ListenerSpecRow → result listener_store_error (list ListenerSpecRow * A)) (Φ : listener_tables M → result listener_store_error A → Prop) s :
  (∀ d, Φ (mkListenerTables d (lt_rows s)) (Err ListenerStatementFailed)) →
  (∀ d, match f (lt_rows s) with Ok (l, a) => Φ (mkListenerTables d l) (Ok a) | Err e => Φ (mkListenerTables d (lt_rows s)) (Err e) end) →
  wp (listener_statement f) Φ s.
Proof.
  intros He Hf. unfold wp, listener_statement.
  destruct (db_faults (lt_db s)) as [|[] rest]; [specialize (Hf (lt_db s))|apply He|specialize (Hf (with_faults rest (lt_db s)))];
    by destruct (f (lt_rows s)) as [[l a]|e].
Qed.
Lemma wp_listener_now (Φ : listener_tables M → result listener_store_error Z → Prop) s :
  (∀ d t, Φ (mkListenerTables d (lt_rows s)) (Ok t)) → wp listener_now Φ s.
Proof. intros H. unfold listener_now. apply wp_zoom. unfold wp, now. destruct (db_ticks _); apply H. Qed.
Lemma wp_listener_transaction {A} (m : op A) (Φ : listener_tables M → result listener_store_error A → Prop) s :
  (∀ d, Φ (mkListenerTables d (lt_rows s)) (Err ListenerStatementFailed)) →
  (∀ d, wp m (λ s' r, match r with Ok a => ∀ d', Φ (mkListenerTables d' (lt_rows s')) (Ok a) | Err e => ∀ d', Φ (mkListenerTables d' (lt_rows s)) (Err e) end)
     (mkListenerTables d (lt_rows s))) →
  wp (listener_transaction m) Φ s.
Proof.
  intros He Hm. enough (wp (listener_select (λ _, tt) ;; a ← m; listener_select (λ _, tt) ;; mret a)
    (λ s' r, match r with Ok a => Φ s' (Ok a) | Err e => ∀ d, Φ (mkListenerTables d (lt_rows s)) (Err e) end) s) as H.
  { unfold wp, listener_transaction in *. destruct ((listener_select _ ≫= _) s) as [s' [a|e]]; [done|]. apply H. }
  apply wp_bind, wp_listener_statement; [done|]. intros d. apply wp_bind. eapply wp_mono; [apply Hm|]. intros s' [a|e] Hr; [|done].
  apply wp_bind, wp_listener_statement; [done|]. intros d'. apply wp_ret, Hr.
Qed.

Lemma wp_insertListenerSpec r (Φ : listener_tables M → result listener_store_error unit → Prop) s :
  (∀ d, Φ (mkListenerTables d (lt_rows s)) (Err ListenerStatementFailed)) →
  (∀ d, lr_id r ∈ lr_id <$> lt_rows s ∨ row_endpoint r ∈ row_endpoint <$> lt_rows s → Φ (mkListenerTables d (lt_rows s)) (Err ErrListenerConflict)) →
  (∀ d, lr_id r ∉ lr_id <$> lt_rows s → row_endpoint r ∉ row_endpoint <$> lt_rows s → Φ (mkListenerTables d (lt_rows s ++ [r])) (Ok tt)) →
  wp (insertListenerSpec r) Φ s.
Proof.
  intros He Hc Hok. unfold insertListenerSpec, listenerSpecBindingAvailable. apply wp_bind, wp_bind, wp_listener_statement; [done|]. intros d.
  destruct (filter _ (lt_rows s)) as [|x l] eqn:Hf.
  2: { apply wp_fail, Hc. right. assert (x ∈ filter (λ r0, binds_at (lr_port r) (lr_bind r) r0 ∧ lr_id r0 ≠ lr_id r) (lt_rows s)) as [[[Hp Hb] _] Hx]%list_elem_of_filter
         by (rewrite Hf; by left). apply list_elem_of_fmap. exists x. unfold row_endpoint. by rewrite Hp, Hb. }
  apply wp_ret, wp_listener_statement; [done|]. cbn [lt_rows]. intros d'. unfold insert_row. destruct (decide _) as [Hin|Hin]; [by apply Hc; left|].
  apply Hok; [done|]. intros (x & Hx & Hxl)%list_elem_of_fmap. injection Hx as Hp Hb.
  apply filter_nil_iff with (x := x) in Hf; [|done]. apply Hf. split; [by rewrite Hp, Hb|]. intros Hid. apply Hin, list_elem_of_fmap. by exists x.
Qed.

Lemma row_endpoint_stamped t r : row_endpoint (stamped t r) = row_endpoint r.
Proof. done. Qed.
Lemma rows_ok_snoc l r : rows_ok (l ++ [r]) ↔ (rows_ok l ∧ (lr_id r ∉ (lr_id <$> l)) ∧ (row_endpoint r ∉ (row_endpoint <$> l))).
Proof.
  unfold rows_ok. rewrite !fmap_app. cbn [fmap list_fmap]. rewrite !NoDup_app. split.
  - intros [(? & Hi & _) (? & He & _)]. split_and!; [done..| |]; intros Hin; [apply (Hi _ Hin); by left|apply (He _ Hin); by left].
  - intros ([? ?] & Hi & He). split_and!; try done; try apply NoDup_singleton; by intros x Hx ->%list_elem_of_singleton.
Qed.
Lemma rows_ok_prefix l l' : rows_ok (l ++ l') → rows_ok l.
Proof. unfold rows_ok. rewrite !fmap_app, !NoDup_app. tauto. Qed.
Lemma rows_ok_stamped t l : rows_ok (stamped t <$> l) ↔ rows_ok l.
Proof. unfold rows_ok. by rewrite <-!list_fmap_compose. Qed.

(** Replacing the rows is all or nothing, and is refused exactly for two rows
    of one name or of one address and port. *)
Lemma wp_ReplaceAllListenerSpecs rows (Φ : listener_tables M → result listener_store_error unit → Prop) s :
  (∀ d, Φ (mkListenerTables d (lt_rows s)) (Err ListenerStatementFailed)) →
  (∀ d, ¬ rows_ok rows → Φ (mkListenerTables d (lt_rows s)) (Err ErrListenerConflict)) →
  (∀ d t, rows_ok rows → Φ (mkListenerTables d (stamped t <$> rows)) (Ok tt)) →
  wp (ReplaceAllListenerSpecs rows) Φ s.
Proof.
  intros He Hc Hok. unfold ReplaceAllListenerSpecs. apply wp_listener_transaction; [done|]. intros d.
  apply wp_bind, wp_listener_statement; [done|]. intros d1. apply wp_bind, wp_listener_now. intros d2 t. cbn [lt_rows].
  apply (wp_for_each _ (λ done s, lt_rows s = stamped t <$> done ∧ rows_ok done)); [split; [done|split; constructor]| |].
  - intros done x rest s1 Hl [Hrows Hdone]. apply wp_insertListenerSpec; [naive_solver| |].
    + intros d3 Hx d4. apply Hc. rewrite Hl. intros Hall. change (x :: rest) with ([x] ++ rest) in Hall. rewrite app_assoc in Hall. apply rows_ok_prefix, rows_ok_snoc in Hall as (_ & Hi & Hend).
      rewrite Hrows, <-!list_fmap_compose in Hx. destruct Hx; done.
    + intros d3 Hi Hend. rewrite Hrows, <-!list_fmap_compose in Hi, Hend. rewrite Hrows, fmap_app. split; [done|]. by apply rows_ok_snoc.
  - intros s1 [-> Hall] d3. by apply Hok.
Qed.

Lemma listener_by_id_Some id l r : listener_by_id id l = Some r → r ∈ l ∧ lr_id r = id.
Proof. unfold listener_by_id. intros H%head_Some_elem_of. by apply list_elem_of_filter in H as [? ?]. Qed.
Lemma listener_by_id_None id l : listener_by_id id l = None ↔ id ∉ (lr_id <$> l).
Proof.
  unfold listener_by_id. split.
  - intros H (r & -> & Hr)%list_elem_of_fmap. apply head_None in H. apply (filter_nil_iff _ _) with (x := r) in H; done.
  - intros H. apply head_None, filter_nil_iff. intros r Hr <-. by apply H, list_elem_of_fmap_2.
Qed.
Definition conflicts (r : ListenerSpecRow) (l : list ListenerSpecRow) : Prop :=
  ∃ x, x ∈ l ∧ row_endpoint x = row_endpoint r ∧ lr_id x ≠ lr_id r.
Lemma wp_UpdateListenerSpec id mutate (Φ : listener_tables M → result listener_store_error ListenerSpecRow → Prop) s :
  (∀ d, Φ (mkListenerTables d (lt_rows s)) (Err ListenerStatementFailed)) →
  (∀ d, id ∉ (lr_id <$> lt_rows s) → Φ (mkListenerTables d (lt_rows s)) (Err ErrListenerNotFound)) →
  (∀ d row, listener_by_id id (lt_rows s) = Some row → mutate row = None → Φ (mkListenerTables d (lt_rows s)) (Err MutateRefused)) →
  (∀ d row row', listener_by_id id (lt_rows s) = Some row → mutate row = Some row' → lr_id row' ≠ id → Φ (mkListenerTables d (lt_rows s)) (Err ListenerIDChanged)) →
  (∀ d row row', listener_by_id id (lt_rows s) = Some row → mutate row = Some row' → lr_id row' = id → conflicts row' (lt_rows s) →
     Φ (mkListenerTables d (lt_rows s)) (Err ErrListenerConflict)) →
  (∀ d row row' t, listener_by_id id (lt_rows s) = Some row → mutate row = Some row' → lr_id row' = id → ¬ conflicts row' (lt_rows s) →
     let new := with_times (lr_created row') t row' in Φ (mkListenerTables d (updated_row new <$> lt_rows s)) (Ok new)) →
  wp (UpdateListenerSpec id mutate) Φ s.
Proof.
  intros He Hn Hm Hi Hc Hok. unfold UpdateListenerSpec. apply wp_listener_transaction; [done|]. intros d. apply wp_bind. unfold GetListenerSpec.
  apply wp_bind, wp_listener_statement; [done|]. intros d1. cbn [lt_rows]. destruct (listener_by_id id (lt_rows s)) as [row|] eqn:Hrow.
  2: { apply wp_fail. intros d2. apply Hn. by apply listener_by_id_None. }
  apply wp_ret. destruct (mutate row) as [row'|] eqn:Hmut; [|apply wp_fail; intros d2; by eapply Hm]. destruct (decide (lr_id row' = id)) as [Hid|Hid].
  2: { apply wp_fail. intros d2. by eapply Hi. }
  apply wp_bind, wp_listener_now. intros d2 t. cbn [lt_rows]. apply wp_bind. unfold updateListenerSpec, listenerSpecBindingAvailable.
  apply wp_bind, wp_bind, wp_listener_statement; [done|]. intros d3. cbn [lt_rows]. set (new := with_times (lr_created row') t row').
  destruct (filter _ (lt_rows s)) as [|x l] eqn:Hf.
  - apply wp_ret, wp_listener_statement; [done|]. intros d4. cbn [lt_rows]. apply wp_ret. intros d5. cbn [lt_rows]. eapply Hok; [done..|].
    intros (x & Hx & Hend & Hxid). injection Hend as Hp Hb. apply (filter_nil_iff _ _) with (x := x) in Hf; [|done]. by apply Hf.
  - apply wp_fail. intros d4. eapply Hc; [done..|].
    assert (x ∈ filter (λ r0, binds_at (lr_port new) (lr_bind new) r0 ∧ lr_id r0 ≠ lr_id new) (lt_rows s)) as [[[Hp Hb] Hx] Hxl]%list_elem_of_filter by (rewrite Hf; by left).
    exists x. unfold row_endpoint. split_and!; [done| |done]. rewrite Hp, Hb. done.
Qed.

Lemma updated_row_id new r : lr_id (updated_row new r) = lr_id r.
Proof. unfold updated_row. destruct (decide _); done. Qed.
Lemma rows_ok_updated new l : rows_ok l → ¬ conflicts new l → rows_ok (updated_row new <$> l).
Proof.
  intros [Hi He] Hc. split.
  - rewrite <-list_fmap_compose. erewrite list_fmap_ext; [exact Hi|]. intros i x _. apply updated_row_id.
  - assert (∀ x, x ∈ l → row_endpoint (updated_row new x) = row_endpoint new ↔ lr_id x = lr_id new) as Hnew.
    { intros x Hx. unfold updated_row. destruct (decide _) as [E|E]; [done|]. split; [|done]. intros Hend. destruct Hc. by exists x. }
    clear Hc. induction l as [|x l IH]; [constructor|]. cbn [fmap list_fmap] in *. apply NoDup_cons in Hi as [Hxi Hi]. apply NoDup_cons in He as [Hxe He].
    apply NoDup_cons. split; [|apply IH; [done..|]; intros y Hy; apply Hnew; by right].
    intros (y' & Hy' & (y & -> & Hy)%list_elem_of_fmap)%list_elem_of_fmap.
    assert (lr_id x ≠ lr_id y) as Hne by (intros E; apply Hxi; rewrite E; by apply list_elem_of_fmap_2).
    destruct (decide (lr_id x = lr_id new)) as [Ex|Ex].
    + destruct (Hnew y ltac:(by right)) as [Hn _]. rewrite <-Hy' in Hn. rewrite (proj2 (Hnew x ltac:(by left)) Ex) in Hn. specialize (Hn eq_refl). congruence.
    + destruct (decide (lr_id y = lr_id new)) as [Ey|Ey].
      * destruct (Hnew x ltac:(by left)) as [Hn _]. rewrite Hy' in Hn. rewrite (proj2 (Hnew y ltac:(by right)) Ey) in Hn. by specialize (Hn eq_refl).
      * unfold updated_row in Hy'. rewrite !decide_False in Hy' by done. apply Hxe. rewrite Hy'. by apply list_elem_of_fmap_2.
Qed.

Definition keeps_rows {E A} (m : io (listener_tables M) E A) : Prop := ∀ s, rows_ok (lt_rows s) → wp m (λ s' _, rows_ok (lt_rows s')) s.
Lemma Insert_keeps r : keeps_rows (InsertListenerSpec r).
Proof.
  intros s Hs. unfold InsertListenerSpec. apply wp_bind, wp_listener_now. intros d t. apply wp_bind, wp_insertListenerSpec; [done..|].
  intros d' Hi He. by apply rows_ok_snoc.
Qed.
Lemma Update_keeps id mutate : keeps_rows (UpdateListenerSpec id mutate).
Proof.
  intros s Hs. apply wp_UpdateListenerSpec; [done..|]. intros d row row' t _ _ _ Hc. by apply rows_ok_updated.
Qed.
Lemma rows_ok_filter (P : ListenerSpecRow → Prop) `{!∀ r, Decision (P r)} l : rows_ok l → rows_ok (filter P l).
Proof. intros [Hi He]. split; [eapply sublist_NoDup; [exact Hi|]|eapply sublist_NoDup; [exact He|]]; apply fmap_sublist, sublist_filter. Qed.
Lemma Delete_keeps id : keeps_rows (DeleteListenerSpec id).
Proof.
  intros s Hs. unfold DeleteListenerSpec. apply wp_bind, wp_listener_statement; [done|]. intros d.
  destruct (decide _); [apply wp_fail|apply wp_ret]; by apply rows_ok_filter.
Qed.
Lemma Replace_keeps rows : keeps_rows (ReplaceAllListenerSpecs rows).
Proof. intros s Hs. apply wp_ReplaceAllListenerSpecs; [done..|]. intros d t Ht. by apply rows_ok_stamped. Qed.

(** ** What [Sync] leaves *)
Record resynced (old new : ListenerSpecRow) : Prop := {
  rs_id : lr_id new = lr_id old; rs_endpoint : row_endpoint new = row_endpoint old; rs_protocols : lr_protocols new = lr_protocols old;
  rs_tls : lr_tls new = lr_tls old; rs_created : lr_created new = lr_created old;
  rs_options : delete aclFileOption (lr_options new) = delete aclFileOption (lr_options old)
}.
#[export] Instance resynced_refl : Reflexive resynced.
Proof. by intros r. Qed.
#[export] Instance resynced_trans : Transitive resynced.
Proof. intros a b c [] []. constructor; congruence. Qed.
Definition points (aclPath : string) (scoped : list string) (r : ListenerSpecRow) : Prop :=
  declared_file r = trim_space (wanted_file aclPath scoped (lr_id r)).

Lemma set_acl_file_resynced path created t r : created = lr_created r → resynced r (with_times created t (set_acl_file path r)).
Proof.
  intros ->. constructor; try done. cbn [lr_options with_times set_acl_file with_listener_options]. unfold set_acl_file. cbn [lr_options with_listener_options].
  destruct (decide _); [by rewrite delete_delete_eq|by rewrite delete_insert_eq].
Qed.
Lemma set_acl_file_declared path created t r : declared_file (with_times created t (set_acl_file path r)) = trim_space path.
Proof.
  unfold declared_file, set_acl_file. cbn [lr_options with_times with_listener_options]. destruct (decide _) as [->|]; [by rewrite lookup_delete_eq|].
  by rewrite lookup_insert_eq.
Qed.

Lemma Forall2_impl_r {A B} (P Q : A → B → Prop) l k : Forall2 P l k → (∀ a b, b ∈ k → P a b → Q a b) → Forall2 Q l k.
Proof. induction 1; intros H'; constructor; [apply H'; [by left|done]|]. apply IHForall2. intros a b Hb. apply H'. by right. Qed.

Record sync_inv (aclPath : string) (scoped : list string) (rows0 done : list ListenerSpecRow) (s : listener_tables M) : Prop := {
  si_ok : rows_ok (lt_rows s);
  si_rows : Forall2 resynced rows0 (lt_rows s);
  si_done : ∀ r, r ∈ lt_rows s → lr_id r ∈ lr_id <$> done → points aclPath scoped r;
  si_todo : ∀ r, r ∈ lt_rows s → lr_id r ∉ (lr_id <$> done) → r ∈ rows0
}.
Lemma sync_row_step aclPath scoped rows0 done x s : rows_ok rows0 → sync_inv aclPath scoped rows0 done s → x ∈ rows0 → lr_id x ∉ (lr_id <$> done) →
  wp (sync_row aclPath scoped x) (λ s' r, rows_ok (lt_rows s') ∧ Forall2 resynced rows0 (lt_rows s') ∧
    match r with Ok _ => sync_inv aclPath scoped rows0 (done ++ [x]) s' | Err e => e = ListenerStatementFailed end) s.
Proof.
  intros Hok0 [Hok Hrs Hd Ht] Hx Hxd.
  assert (x ∈ lt_rows s) as Hxs.
  { apply list_elem_of_lookup in Hx as [i Hi]. destruct (Forall2_lookup_l _ _ _ _ _ Hrs Hi) as (y & Hy & Hr). apply list_elem_of_lookup_2 in Hy as Hys.
    assert (y ∈ rows0) as Hy0 by (apply Ht; [done|]; by rewrite (rs_id _ _ Hr)).
    replace x with y; [done|]. apply list_elem_of_lookup_2 in Hi. eapply (NoDup_key lr_id rows0); [apply Hok0|done..|]. apply Hr. }
  assert (∀ r, r ∈ lt_rows s → lr_id r = lr_id x → r = x) as Huniq by (intros r Hr E; by eapply (NoDup_key lr_id (lt_rows s)); [apply Hok|..]).
  unfold sync_row. destruct (decide _) as [Hw|Hw].
  - apply wp_ret. split_and!; [done..|]. constructor; [done..| |].
    + intros r Hr. rewrite fmap_app. intros [Hin|Hin%list_elem_of_singleton]%elem_of_app; [by apply Hd|]. rewrite (Huniq r Hr Hin). unfold points.
      rewrite <-Hw. unfold declared_file. by rewrite trim_space_idem.
    + intros r Hr. rewrite fmap_app, not_elem_of_app. intros [? _]. by apply Ht.
  - unfold wp, setACLFile. match goal with |- context [UpdateListenerSpec ?i ?f s] => enough (wp (UpdateListenerSpec i f)
      (λ s' r, match r with Ok _ => rows_ok (lt_rows s') ∧ Forall2 resynced rows0 (lt_rows s') ∧ sync_inv aclPath scoped rows0 (done ++ [x]) s'
        | Err e => e = ListenerStatementFailed ∧ lt_rows s' = lt_rows s end) s) as H end.
    { unfold wp in H. destruct (UpdateListenerSpec _ _ s) as [s' [row|e]]; cbn [fst snd] in *; [tauto|]. destruct H as [-> Hr]. cbn [fst snd]. by rewrite Hr. }
    assert (listener_by_id (lr_id x) (lt_rows s) = Some x) as Hby.
    { destruct (listener_by_id _ _) as [y|] eqn:E; [apply listener_by_id_Some in E as [? ?]; f_equal; by apply Huniq|].
      apply listener_by_id_None in E. destruct E. by apply list_elem_of_fmap_2. }
    apply wp_UpdateListenerSpec; [done|..].
    + intros d Hn. destruct Hn. by apply list_elem_of_fmap_2.
    + done.
    + intros d row row' Hrow [= <-] Hne. rewrite Hby in Hrow. injection Hrow as <-. done.
    + intros d row row' Hrow [= <-] _ (y & Hy & Hend & Hyid). rewrite Hby in Hrow. injection Hrow as <-. destruct Hyid.
      rewrite (NoDup_key row_endpoint (lt_rows s) y x); [done|apply Hok|done..].
    + intros d row row' t Hrow [= <-] _ Hc new. rewrite Hby in Hrow. injection Hrow as <-.
      set (want := wanted_file aclPath scoped (lr_id x)) in *.
      assert (∀ r, r ∈ lt_rows s → lr_id r = lr_id x → updated_row new r = with_times (lr_created x) t (set_acl_file want x)) as Hnew.
      { intros r Hr E. rewrite (Huniq r Hr E). unfold updated_row. by rewrite decide_True. }
      assert (∀ r, lr_id r ≠ lr_id x → updated_row new r = r) as Hold by (intros r E; unfold updated_row; by rewrite decide_False).
      assert (rows_ok (updated_row new <$> lt_rows s)) as Hok' by (by apply rows_ok_updated).
      assert (Forall2 resynced rows0 (updated_row new <$> lt_rows s)) as Hrs'.
      { apply Forall2_fmap_r. eapply Forall2_impl_r; [exact Hrs|]. intros a b Hb Hab. change (resynced a (updated_row new b)). transitivity b; [done|].
        destruct (decide (lr_id b = lr_id x)) as [E|E]; [|by rewrite Hold]. rewrite Hnew by done. rewrite (Huniq b Hb E). by apply set_acl_file_resynced. }
      split; [done|]. split; [done|]. constructor; [done..| |]; cbn [lt_rows].
      * intros r' (r & -> & Hr)%list_elem_of_fmap. rewrite updated_row_id, fmap_app. destruct (decide (lr_id r = lr_id x)) as [E|E].
        -- intros _. rewrite Hnew by done. unfold points. by rewrite set_acl_file_declared.
        -- rewrite Hold by done. intros [Hin|Hin%list_elem_of_singleton]%elem_of_app; [by apply Hd|done].
      * intros r' (r & -> & Hr)%list_elem_of_fmap. rewrite updated_row_id, fmap_app, not_elem_of_app. intros [Hn1 Hn2].
        assert (lr_id r ≠ lr_id x) by (intros E; apply Hn2; rewrite E; by left). rewrite Hold by done. by apply Ht.
Qed.

Definition sync_rules s : list string := scoped_listeners (with_id <$> db_rules (lt_db s)).
Lemma Sync_points aclPath s : rows_ok (lt_rows s) → aclPath ≠ "" →
  wp (Sync aclPath) (λ s' r, rows_ok (lt_rows s') ∧ Forall2 resynced (lt_rows s) (lt_rows s') ∧ match r with
    | Ok _ => Forall (points aclPath (sync_rules s)) (lt_rows s')
    | Err e => e = RulesUnavailable QueryFailed ∨ e = SyncFailed ListenerStatementFailed
    end) s.
Proof.
  intros Hs Ha. unfold Sync. rewrite decide_False by done. apply wp_bind, wp_zoom.
  assert (Forall2 resynced (lt_rows s) (lt_rows s)) as Hrefl by (by apply Forall_Forall2_diag, Forall_true).
  unfold ListRules, select. apply wp_statement; cbn [lt_rows]; [intros; split_and!; [done..|by left]|]. intros d Hd. cbn [lt_rows].
  assert (db_rules d = db_rules (lt_db s)) as -> by (by rewrite <-Hd). fold (sync_rules s).
  apply wp_bind, wp_wrap, wp_listener_statement; [intros; split_and!; [done..|by right]|]. intros d1. cbn [lt_rows].
  set (specs := sort_stable row_less (lt_rows s)). assert (specs ≡ₚ lt_rows s) as Hperm by apply sort_stable_perm.
  apply wp_wrap, (wp_for_each _ (sync_inv aclPath (sync_rules s) (lt_rows s))).
  - constructor; [done..| |done]. intros r _ Hr. by apply elem_of_nil in Hr.
  - intros done x rest s1 Hl Hinv. eapply wp_mono.
    + apply (sync_row_step _ _ (lt_rows s)); [done..| |].
      * rewrite <-Hperm, Hl, elem_of_app. right. by left.
      * assert (NoDup (lr_id <$> specs)) as Hn by (rewrite Hperm; apply Hs). rewrite Hl, fmap_app, NoDup_app in Hn. destruct Hn as (_ & Hn & _).
        intros Hx. apply (Hn _ Hx). by left.
    + intros s2 [u|e] (? & ? & Hr); [done|]. split_and!; [done..|]. right. by rewrite Hr.
  - intros s1 [Hok Hrs Hd1 _]. split_and!; [done..|]. apply Forall_forall. intros r Hr. apply Hd1; [done|].
    apply list_elem_of_lookup in Hr as [i Hi]. destruct (Forall2_lookup_r _ _ _ _ _ Hrs Hi) as (y & Hy & Hry). rewrite (rs_id _ _ Hry), Hperm.
    apply list_elem_of_fmap_2. by eapply list_elem_of_lookup_2.
Qed.
End store.

(** ** Examples *)
Definition example_row (id : string) (port : Z) (o : gmap string string) : ListenerSpecRow := mkListenerRow id port "0.0.0.0" ["mqtt"] o "" 7 7.
Definition example_rule : Rule := mkRule "1" "user" "listener" "plant" "alice" "plant/+" "read" "".
Definition example_listener_tables : listener_tables unit :=
  mkListenerTables (with_rules [(1%Z, example_rule)] 2 (empty_db unit 100 [] []))
    [example_row "plant" 1884 ∅; example_row "office" 1885 {["acl_file" := "/srv/own.acl"]}].

(** A file of the operator's own is removed from a listener without scoped
    rules, although nothing that MCM wrote is left in it. *)
Example sync_example :
  (λ r, (lr_id r, lr_options r !! "acl_file")) <$> lt_rows (Sync "/m/acl" example_listener_tables).1
  = [("plant", Some "/m/acl.plant"); ("office", None)].
Proof. vm_compute. reflexivity. Qed.
Example replace_refused :
  (ReplaceAllListenerSpecs [example_row "a" 1884 ∅; example_row "b" 1884 ∅] example_listener_tables).2 = Err ErrListenerConflict.
Proof. vm_compute. reflexivity. Qed.

(** A synchronisation that succeeds leaves every listener with the ACL file
    of its scoped rules and without one when it has none; it changes nothing
    else of a listener, and only a statement that fails stops it. *)
Theorem Sync_declares_scoped_files {M} aclPath (s : listener_tables M) : rows_ok (lt_rows s) → aclPath ≠ "" →
  let '(s', r) := Sync aclPath s in
  rows_ok (lt_rows s') ∧ Forall2 resynced (lt_rows s) (lt_rows s') ∧ match r with
    | Ok _ => Forall (points aclPath (scoped_listeners (with_id <$> db_rules (lt_db s)))) (lt_rows s')
    | Err e => e = RulesUnavailable QueryFailed ∨ e = SyncFailed ListenerStatementFailed
    end.
Proof. intros Hs Ha. pose proof (Sync_points aclPath s Hs Ha) as H. unfold wp in H. by destruct (Sync aclPath s). Qed.
Lemma Sync_declares_scoped_files_witness :
  let '(s', r) := Sync "/m/acl" example_listener_tables in
  rows_ok (lt_rows s') ∧ Forall2 resynced (lt_rows example_listener_tables) (lt_rows s') ∧ match r with
    | Ok _ => Forall (points "/m/acl" (scoped_listeners (with_id <$> db_rules (lt_db example_listener_tables)))) (lt_rows s')
    | Err e => e = RulesUnavailable QueryFailed ∨ e = SyncFailed ListenerStatementFailed
    end.
Proof.
  apply (Sync_declares_scoped_files "/m/acl" example_listener_tables); [|discriminate].
  split; refine (bool_decide_unpack _ _); vm_compute; exact I.
Defined.
