(* ===== verification/BrokerStore.v ===== *)
(** * [internal/storage/broker_config.go], [broker_config_history.go]

    The revisions and the adoptions of [mosquitto.conf], next to the tables of
    [Store].  A statement takes the next fault of that store.  The JSON text of
    an include snapshot is the snapshot itself; the empty text is [None]. *)
From S2P Require Import Prelude IO Unicode GoStrings GoTime Catalog Conf Include Store.

Record BrokerConfigRevision := mkBrokerRevision {
  br_id : string; br_actor : string; br_base_hash : string; br_rendered_hash : string;
  br_base_path : string; br_conf : string; br_includes : option IncludeSnapshot; br_changed : option string;
  br_created : Z; br_applied : option Z
}.
Record BrokerConfigAdoption := mkAdoption { ba_id : Z; ba_path : string; ba_by : string; ba_at : Z }.

Inductive bstore_error :=
  | BQueryFailed | BUniqueFailed | BrokerRevisionIDRequired
  | ErrBrokerConfigRevisionNotFound | ErrBrokerConfigRevisionConsumed.

Record tables (M : Type) := mkTables {
  tb_db : db M; tb_revisions : gmap string BrokerConfigRevision;
  tb_adoptions : list BrokerConfigAdoption; tb_next_adoption : Z
}.
Arguments mkTables {M}. Arguments tb_db {M}. Arguments tb_revisions {M}. Arguments tb_adoptions {M}. Arguments tb_next_adoption {M}.

Section broker_store.
Context {M : Type}.
Implicit Types s : tables M.
Local Abbreviation op A := (io (tables M) bstore_error A).

Definition with_db d s : tables M := mkTables d (tb_revisions s) (tb_adoptions s) (tb_next_adoption s).
Definition with_broker_revisions m s : tables M := mkTables (tb_db s) m (tb_adoptions s) (tb_next_adoption s).
Definition with_adoptions l n s : tables M := mkTables (tb_db s) (tb_revisions s) l n.

Definition broker_now : op Z := zoom tb_db with_db (λ e, e) now.
Definition broker_statement {A} (f : tables M → result bstore_error (tables M * A)) : op A := λ s,
  let '(failed, s) := match db_faults (tb_db s) with [] => (false, s) | x :: rest => (x, with_db (with_faults rest (tb_db s)) s) end in
  if failed : bool then (s, Err BQueryFailed)
  else match f s with Ok (s', a) => (s', Ok a) | Err e => (s, Err e) end.
Definition broker_select {A} (f : tables M → A) : op A := broker_statement (λ s, Ok (s, f s)).

(** ** Revisions *)
Definition broker_created_at (t : Z) (applied : option Z) (r : BrokerConfigRevision) : BrokerConfigRevision :=
  mkBrokerRevision (br_id r) (br_actor r) (br_base_hash r) (br_rendered_hash r) (br_base_path r) (br_conf r) (br_includes r)
    (br_changed r) t applied.
Definition insert_broker_revision (r : BrokerConfigRevision) s : result bstore_error (tables M * unit) :=
  if decide (is_Some (tb_revisions s !! br_id r)) then Err BUniqueFailed
  else Ok (with_broker_revisions (<[br_id r := r]> (tb_revisions s)) s, tt).
Definition InsertBrokerConfigRevision (r : BrokerConfigRevision) : op unit :=
  if decide (br_id r = "") then fail BrokerRevisionIDRequired
  else
    t ← (if decide (br_created r = time_zero) then broker_now else mret (br_created r));
    broker_statement (insert_broker_revision (broker_created_at t None r)).

Definition GetBrokerConfigRevision (id : string) : op BrokerConfigRevision :=
  r ← broker_select (λ s, tb_revisions s !! id);
  match r with Some r => mret r | None => fail ErrBrokerConfigRevisionNotFound end.

Definition broker_pending s (id : string) : bool :=
  match tb_revisions s !! id with Some r => bool_decide (br_applied r = None) | None => false end.
(** The update and the number of the rows it affects. *)
Definition consume_broker_revision (id : string) (t : Z) s : result bstore_error (tables M * nat) :=
  if broker_pending s id
  then Ok (with_broker_revisions (alter (λ r, broker_created_at (br_created r) (Some t) r) id (tb_revisions s)) s, 1)
  else Ok (s, 0).
Definition ConsumeBrokerConfigRevision (id : string) (appliedAt : Z) : op unit :=
  affected ← broker_statement (consume_broker_revision id appliedAt);
  if decide (affected = 1) then mret tt
  else
    r ← GetBrokerConfigRevision id;
    fail (if decide (br_applied r = None) then ErrBrokerConfigRevisionNotFound else ErrBrokerConfigRevisionConsumed).

(** ** Adoptions *)
Definition insert_adoption (path by_ : string) (t : Z) s : result bstore_error (tables M * Z) :=
  let id := tb_next_adoption s in
  Ok (with_adoptions (tb_adoptions s ++ [mkAdoption id path by_ t]) (id + 1)%Z s, id).
Definition InsertBrokerConfigAdoption (sourcePath adoptedBy : string) : op BrokerConfigAdoption :=
  t ← broker_now;
  id ← broker_statement (insert_adoption sourcePath adoptedBy t);
  mret (mkAdoption id sourcePath adoptedBy t).

(** [ORDER BY adopted_at DESC, id DESC], on the text of the column. *)
Definition adopted_after (a b : BrokerConfigAdoption) : bool :=
  let ta := rfc3339nano (ba_at a) in
  let tb := rfc3339nano (ba_at b) in
  string_less tb ta || bool_decide (ta = tb) && bool_decide (ba_id b < ba_id a)%Z.
Definition LatestBrokerConfigAdoption (sourcePath : string) : op (option BrokerConfigAdoption) :=
  broker_select (λ s, head (sort_stable adopted_after (filter (λ a, ba_path a = sourcePath) (tb_adoptions s)))).

(** ** The history *)
Record BrokerConfigRevisionSummary := mkSummary {
  su_id : string; su_actor : string; su_hash : string; su_created : Z; su_consumed : option Z;
  su_status : string; su_deployment : Z; su_message : option M
}.
(** The left join: a revision with its deployments, or alone. *)
Definition summaries s (r : BrokerConfigRevision) : list BrokerConfigRevisionSummary :=
  let row status id message := mkSummary (br_id r) (br_actor r) (br_rendered_hash r) (br_created r) (br_applied r) status id message in
  match filter (λ d, dp_revision d = br_id r) (db_deployments (tb_db s)) with
  | [] => [row "preview" 0%Z None]
  | ds => (λ d, row (dp_status d) (dp_id d) (Some (dp_message d))) <$> ds
  end.
Definition created_after (a b : BrokerConfigRevisionSummary) : bool := string_less (rfc3339nano (su_created b)) (rfc3339nano (su_created a)).
Definition ListBrokerConfigRevisions : op (list BrokerConfigRevisionSummary) :=
  broker_select (λ s, take 100 (sort_stable created_after (map_to_list (tb_revisions s) ≫= λ '(_, r), summaries s r))).
End broker_store.
Arguments BrokerConfigRevisionSummary : clear implicits.
