(* ===== verification/Probe.v ===== *)
(** * The activation probe of a deploy ([internal/deploy/service.go])

    After an apply the service proves that the broker serves the new
    configuration by publishing and subscribing as one identity on one topic.
    This file models how the identity and the topic are chosen from the
    rendered files. *)
From S2P Require Import Prelude Unicode GoStrings Acl AclDoc Passwd.

(** ** Choosing the topic *)
Definition probeTopicSegment : string := "mcm-verify".
Definition serviceHealthcheckTopic : string := "mcm/healthcheck".

Definition validProbeTopicLevel (level : string) : bool :=
  negb (bool_decide (level = ""))
  && negb (contains_byte "/" level || contains_byte "+" level || contains_byte "#" level)
  && negb (contains_byte "000" level).

(** One level of the filter; [lst] says whether it is the last one. *)
Definition concrete_level (identity : string) (patternRule lst : bool) (level : string) : option string :=
  if decide (level = "#") then if lst then Some probeTopicSegment else None
  else if decide (level = "+") then Some probeTopicSegment
  else if patternRule && bool_decide (level = "%u") then if validProbeTopicLevel identity then Some identity else None
  else if patternRule && (contains "%u" level || contains "%c" level) then None
  else if contains_byte "+" level || contains_byte "#" level then None
  else Some level.

Fixpoint concrete_levels (identity : string) (patternRule : bool) (levels : list string) : option (list string) :=
  match levels with
  | [] => Some []
  | level :: rest =>
      match concrete_level identity patternRule (bool_decide (rest = [])) level with
      | None => None
      | Some l => match concrete_levels identity patternRule rest with Some ls => Some (l :: ls) | None => None end
      end
  end.

Definition concreteProbeTopic (filter identity : string) (patternRule : bool) : option string :=
  if decide (filter = "") then None
  else match concrete_levels identity patternRule (split "/" filter) with
  | None => None
  | Some out => let topic := join "/" out in if decide (topic = "") then None else Some topic
  end.

(** ** Choosing the identity *)
Inductive verificationProbeKind := probeKindUserGrant | probeKindPatternGrant | probeKindServiceGrant.
Record verificationProbe := mkProbe {
  vp_username : string; vp_password : string; vp_allowed : string; vp_denied : string; vp_kind : verificationProbeKind
}.

Definition of_user (identity : string) (r : Rule) : Prop := EffectiveSelector r = SelectorUser ∧ r_principal r = identity.
#[export] Instance of_user_dec identity r : Decision (of_user identity r). Proof. unfold of_user. apply _. Defined.

Definition deniedTopicFor (rules : list Rule) (identity : string) : string :=
  default "" (r_topic_filter <$> head (filter (λ r, of_user identity r ∧ r_permission r = PermissionDeny) rules)).

Definition hasNonDenyGrant (rules : list Rule) (identity : string) : bool :=
  existsb (λ r, bool_decide (of_user identity r ∧ r_permission r ≠ PermissionDeny)) rules.
Definition userScopedGrants (rules : list Rule) (identity : string) : bool * option Rule :=
  let readwrite := head (filter (λ r, of_user identity r ∧ r_permission r = PermissionReadWrite) rules) in
  (bool_decide (is_Some readwrite) || hasNonDenyGrant rules identity, readwrite).

(** The rules MCM always renders for its own account. *)
Definition service_rule (username topic permission : string) : Rule := mkRule "" "" "" "" username topic permission "".
Definition serviceUserACL (username : string) : list Rule :=
  [service_rule username "#" PermissionRead; service_rule username "$SYS/#" PermissionRead;
   service_rule username serviceHealthcheckTopic PermissionReadWrite].

Section pick.
Context (service_username service_password : string) (CleartextPassword : string → option string).

Definition isServiceAccount (username : string) : bool :=
  negb (bool_decide (username = "")) && bool_decide (username = service_username).
Definition lookupCleartextPassword (username : string) : option string :=
  if decide (username = "") then None else CleartextPassword username.
(** A password that can be used: known and not empty. *)
Definition usable_password (username : string) : option string :=
  match lookupCleartextPassword username with Some p => if decide (p = "") then None else Some p | None => None end.

(** The first loop.  [Some None] is the early return without a probe, [None]
    goes on with the next entry. *)
Definition user_probe (rules : list Rule) (e : PasswdEntry) : option (option verificationProbe) :=
  let username := pe_username e in
  if isServiceAccount username then None
  else
    let '(hasGrant, readwrite) := userScopedGrants rules username in
    if hasGrant then
      match usable_password username with
      | None => Some None
      | Some password =>
          match readwrite with
          | None => None
          | Some r =>
              match concreteProbeTopic (r_topic_filter r) username false with
              | None => None
              | Some topic => Some (Some (mkProbe username password topic (deniedTopicFor rules username) probeKindUserGrant))
              end
          end
      end
    else None.

Definition pattern_probe (rules : list Rule) (r : Rule) (e : PasswdEntry) : option verificationProbe :=
  let username := pe_username e in
  if isServiceAccount username then None
  else match usable_password username with
  | None => None
  | Some password =>
      match concreteProbeTopic (r_topic_filter r) username true with
      | None => None
      | Some topic => Some (mkProbe username password topic (deniedTopicFor rules username) probeKindPatternGrant)
      end
  end.

Definition serviceVerificationProbe (entries : list PasswdEntry) (rules : list Rule) : option verificationProbe :=
  if decide (service_username = "" ∨ service_password = "") then None
  else if decide (service_username ∈ pe_username <$> entries) then
    head (omap (λ r, if decide (of_user service_username r ∧ r_permission r = PermissionReadWrite
                                ∧ r_topic_filter r = serviceHealthcheckTopic)
                     then match concreteProbeTopic (r_topic_filter r) service_username false with
                          | Some topic => Some (mkProbe service_username service_password topic
                                                  (deniedTopicFor rules service_username) probeKindServiceGrant)
                          | None => None
                          end
                     else None) rules)
  else None.

Definition pickVerificationProbe (aclBody passwdBody : string) : option verificationProbe :=
  let entries := ParsePasswdFile passwdBody in
  let rules := ParseACLFile aclBody in
  match entries with
  | [] => None
  | _ =>
      match head (omap (user_probe rules) entries) with
      | Some p => p
      | None =>
          let patterns := filter (λ r, EffectiveSelector r = SelectorPattern ∧ r_permission r = PermissionReadWrite) rules in
          match head (patterns ≫= λ r, omap (pattern_probe rules r) entries) with
          | Some p => Some p
          | None => serviceVerificationProbe entries rules
          end
      end
  end.
End pick.

(** ** The topic belongs to the filter *)
Definition no_wildcard (level : string) : Prop := contains_byte "+" level = false ∧ contains_byte "#" level = false.

Lemma contains_byte_free c s : contains_byte c s = false ↔ free_of c s = true.
Proof. unfold contains_byte, free_of. by rewrite negb_false_iff. Qed.

Lemma valid_level level : validProbeTopicLevel level = true → no_wildcard level ∧ free_of "/" level = true ∧ level ≠ "".
Proof.
  unfold validProbeTopicLevel. intros [[H1 H2]%andb_true_iff _]%andb_true_iff.
  rewrite negb_true_iff, !orb_false_iff in H2. destruct H2 as [[H2 H3] H4]. bool_hyps.
  by rewrite <-contains_byte_free.
Qed.

(** [f'] is the level the broker matches: the identity for a placeholder. *)
Definition broker_level (identity : string) (patternRule : bool) (level : string) : string :=
  if patternRule && bool_decide (level = "%u") then identity else level.

Lemma concrete_level_spec identity pat lst level l :
  free_of "/" level = true → concrete_level identity pat lst level = Some l →
  no_wildcard l ∧ free_of "/" l = true
  ∧ (level = "#" ∧ lst = true ∨ broker_level identity pat level = "+" ∨ broker_level identity pat level = l ∧ l ≠ "#")
  ∧ (level ≠ "#" → broker_level identity pat level ≠ "#").
Proof.
  intros Hf. unfold concrete_level, broker_level. destruct (decide (level = "#")) as [->|Hh].
  { destruct lst; [|done]. intros [= <-]. rewrite andb_false_r. repeat split; try done. by left. }
  destruct (decide (level = "+")) as [->|Hp].
  { intros [= <-]. rewrite andb_false_r. repeat split; try done. by right; left. }
  destruct (pat && bool_decide (level = "%u")).
  { destruct (validProbeTopicLevel identity) eqn:Hv; [|done]. intros [= <-]. apply valid_level in Hv as ([Hv1 Hv2] & Hs & Hne).
    assert (identity ≠ "#") as Hid by (by intros ->). repeat split; try done. by right; right. }
  destruct (pat && _); [done|]. destruct (contains_byte "+" level) eqn:H1; [done|].
  destruct (contains_byte "#" level) eqn:H2; [done|]. intros [= <-]. repeat split; try done. by right; right.
Qed.

Lemma concrete_levels_spec identity pat levels out :
  Forall (λ l, free_of "/" l = true) levels → concrete_levels identity pat levels = Some out →
  match_levels (broker_level identity pat <$> levels) out = true ∧ Forall no_wildcard out ∧ Forall (λ l, free_of "/" l = true) out.
Proof.
  intros Hf. revert out. induction Hf as [|level levels Hl Hf IH]; intros out; cbn [concrete_levels].
  { intros [= <-]. repeat split; constructor. }
  destruct (concrete_level _ _ _ level) as [l|] eqn:E; [|done].
  destruct (concrete_levels _ _ levels) as [ls|]; [|done]. intros [= <-]. destruct (IH ls eq_refl) as (Hm & Hw & Hs).
  apply concrete_level_spec in E as (Hw1 & Hs1 & Hcase & Hne); [|done]. split; [|split; by constructor].
  rewrite fmap_cons. cbn [match_levels]. destruct Hcase as [[-> Hlst]|Hcase].
  - apply bool_decide_eq_true in Hlst as ->. unfold broker_level. rewrite andb_false_r. by rewrite decide_True.
  - destruct (decide (level = "#")) as [->|Hh].
    + unfold broker_level in *. rewrite andb_false_r in *. destruct Hcase as [?|[<- ?]]; done.
    + rewrite decide_False by auto. rewrite Hm, andb_true_r. apply orb_true_iff. rewrite !bool_decide_eq_true. tauto.
Qed.

(** The level Mosquitto matches, for the levels a probe can be built from. *)
Definition substituted (identity : string) (level : string) : string :=
  if decide (level = "%u") then replace_byte "/" "_" identity
  else if decide (level = "%c") then replace_byte "/" "_" "" else level.

Lemma replace_byte_free c d s : free_of c s = true → replace_byte c d s = s.
Proof.
  induction s as [|x s IH]; [done|]. unfold free_of in *. cbn. intros [Hx Hs]%andb_true_iff. bool_hyps.
  rewrite decide_False by done. by rewrite IH.
Qed.

Lemma substituted_level identity lst level l :
  concrete_level identity true lst level = Some l → substituted identity level = broker_level identity true level.
Proof.
  unfold concrete_level, substituted, broker_level. cbn [andb]. intros H.
  destruct (decide (level = "%u")) as [->|Hu].
  - rewrite bool_decide_true by done. cbn in H. destruct (validProbeTopicLevel identity) eqn:Hv; [|done].
    apply valid_level in Hv as (_ & Hs & _). by rewrite replace_byte_free.
  - rewrite bool_decide_false by done. destruct (decide (level = "%c")) as [->|]; [|done]. exfalso. by vm_compute in H.
Qed.

Lemma substituted_levels identity levels out :
  concrete_levels identity true levels = Some out → substituted identity <$> levels = broker_level identity true <$> levels.
Proof.
  revert out. induction levels as [|level levels IH]; intros out; cbn [concrete_levels]; [done|].
  destruct (concrete_level _ _ _ level) as [l|] eqn:E; [|done].
  destruct (concrete_levels _ _ levels) as [ls|] eqn:El; [|done]. intros _.
  rewrite !fmap_cons, (IH ls) by done. f_equal. by eapply substituted_level.
Qed.

Lemma contains_app sub a s b : contains sub s = true → contains sub (a +:+ s +:+ b) = true.
Proof.
  intros H. induction a as [|c a IH].
  - change ("" +:+ s +:+ b) with (s +:+ b). induction s as [|c s IHs].
    + cbn in H. rewrite orb_false_r in H. destruct sub; [by destruct b|done].
    + rewrite app_cons_string. cbn [contains] in *. apply orb_true_iff in H as [H|H]; apply orb_true_iff; [left|by right; apply IHs].
      unfold has_prefix in *. rewrite <-app_cons_string. clear -H. revert H. generalize (String c s). clear.
      induction sub as [|x sub IH]; intros [|y t] H; [by destruct b|done|done|]. cbn in H. rewrite app_cons_string. cbn.
      destruct (ascii_dec x y); [by apply IH|done].
  - rewrite app_cons_string. cbn [contains]. apply orb_true_iff. by right.
Qed.

Lemma contains_level sub sep s l : l ∈ split sep s → contains sub l = true → contains sub s = true.
Proof.
  intros Hl Hc. rewrite <-(join_split sep s). revert Hl. generalize (split sep s). induction l0 as [|x ls IH]; intros Hl.
  { by apply elem_of_nil in Hl. }
  destruct ls as [|y ls].
  - apply list_elem_of_singleton in Hl as ->. done.
  - rewrite join_cons by done. apply elem_of_cons in Hl as [->|Hl].
    + apply (contains_app _ "" x). done.
    + rewrite (app_assoc_string x). rewrite <-(app_nil_r_string (join _ _)). apply contains_app. by apply IH.
Qed.

Lemma SubstitutePlaceholders_levels f identity :
  SubstitutePlaceholders f (mkIdentity identity "") = join "/" (substituted identity <$> split "/" f).
Proof.
  unfold SubstitutePlaceholders. destruct (contains "%u" f) eqn:Eu; [done|]. destruct (contains "%c" f) eqn:Ec; [done|]. cbn [negb andb].
  assert (substituted identity <$> split "/" f = split "/" f) as ->; [|symmetry; apply (join_split "/")].
  rewrite <-(list_fmap_id (split "/" f)) at 2. apply list_fmap_ext. intros i level Hi.
  apply list_elem_of_lookup_2 in Hi. unfold substituted.
  destruct (decide (level = "%u")) as [->|]; [by rewrite (contains_level "%u" _ _ _ Hi) in Eu|].
  by destruct (decide (level = "%c")) as [->|]; [by rewrite (contains_level "%c" _ _ _ Hi) in Ec|].
Qed.

(** [pattern] says which section of the ACL file the filter is in. *)
Definition broker_filter (f identity : string) (patternRule : bool) : string :=
  if patternRule then SubstitutePlaceholders f (mkIdentity identity "") else f.

Lemma broker_levels_free identity pat levels out :
  Forall (λ l, free_of "/" l = true) levels → concrete_levels identity pat levels = Some out →
  Forall (λ l, free_of "/" l = true) (broker_level identity pat <$> levels).
Proof.
  intros Hf. revert out. induction Hf as [|level levels Hl Hf IH]; intros out; cbn [concrete_levels]; [constructor|].
  destruct (concrete_level _ _ _ level) as [l|] eqn:E; [|done].
  destruct (concrete_levels _ _ levels) as [ls|]; [|done]. intros _. rewrite fmap_cons. constructor; [|by apply (IH ls)].
  unfold broker_level. destruct pat; [|done]. destruct (decide (level = "%u")) as [->|]; [|by rewrite (bool_decide_false (level = "%u"))].
  rewrite bool_decide_true by done. unfold concrete_level in E. cbn in E |- *. destruct (validProbeTopicLevel identity) eqn:Hv; [|done].
  by apply valid_level in Hv as (_ & ? & _).
Qed.

Lemma join_empty ls : join "/" ls = "" → ls = [] ∨ ls = [""].
Proof.
  destruct ls as [|l [|l' ls]]; [by left|cbn; intros ->; by right|]. rewrite join_cons by done. by destruct l.
Qed.

Lemma concrete_topic_spec f identity pat topic :
  concreteProbeTopic f identity pat = Some topic →
  TopicMatchesFilter (broker_filter f identity pat) topic = true ∧ Forall no_wildcard (split "/" topic).
Proof.
  unfold concreteProbeTopic. destruct (decide (f = "")) as [|Hf]; [done|].
  destruct (concrete_levels identity pat (split "/" f)) as [out|] eqn:E; [|done]. cbv zeta.
  destruct (decide (join "/" out = "")) as [|Ht]; [done|]. intros [= <-].
  assert (out ≠ []) as Hout by (intros ->; by apply Ht).
  destruct (concrete_levels_spec _ _ _ _ (split_all_free "/" f) E) as (Hm & Hw & Hs).
  pose proof (broker_levels_free _ _ _ _ (split_all_free "/" f) E) as Hfree.
  set (ls := broker_level identity pat <$> split "/" f) in *.
  assert (broker_filter f identity pat = join "/" ls) as Hbf.
  { unfold ls. destruct pat; cbn [broker_filter].
    - by rewrite SubstitutePlaceholders_levels, (substituted_levels _ _ _ E).
    - change (broker_level identity false <$> split "/" f) with ((λ x, x) <$> split "/" f). rewrite list_fmap_id.
      symmetry. apply (join_split "/"). }
  assert (ls ≠ []) as Hls by (intros E0; unfold ls in E0; apply fmap_nil_inv in E0; by apply split_not_nil in E0).
  assert (join "/" ls ≠ "") as Hne.
  { intros E0. apply join_empty in E0 as [->|E0]; [done|]. rewrite E0 in Hm. destruct out as [|t out]; [done|].
    cbn in Hm. apply andb_true_iff in Hm as [H1 H2]. destruct out; [|done]. apply bool_decide_eq_true in H1 as <-. done. }
  rewrite (split_join "/") by done. split; [|done]. unfold TopicMatchesFilter.
  rewrite !bool_decide_false by (rewrite ?Hbf; done). cbn [orb]. rewrite Hbf, !(split_join "/") by done. exact Hm.
Qed.

(** ** The grant behind a probe *)
Record exercises (rules : list Rule) (username topic : string) (r : Rule) : Prop := {
  ex_rule : r ∈ rules;
  ex_applies : applies (mkIdentity username "") r = true;
  ex_permission : r_permission r = PermissionReadWrite;
  ex_matches : TopicMatchesFilter (ruleFilter r (mkIdentity username "")) topic = true;
  ex_concrete : Forall no_wildcard (split "/" topic)
}.

Lemma exercises_user rules username topic r :
  username ≠ "" → r ∈ rules → of_user username r → r_permission r = PermissionReadWrite →
  concreteProbeTopic (r_topic_filter r) username false = Some topic → exercises rules username topic r.
Proof.
  intros Hne Hr [Hsel Hpr] Hp Ht. apply concrete_topic_spec in Ht as [Hm Hc]. constructor; try done.
  - unfold applies, IsAnonymous. rewrite Hsel. cbn. rewrite Hpr. by rewrite bool_decide_false, bool_decide_true.
  - unfold ruleFilter. by rewrite Hsel.
Qed.

Lemma exercises_pattern rules username topic r :
  r ∈ rules → EffectiveSelector r = SelectorPattern → r_permission r = PermissionReadWrite →
  concreteProbeTopic (r_topic_filter r) username true = Some topic → exercises rules username topic r.
Proof.
  intros Hr Hsel Hp Ht. apply concrete_topic_spec in Ht as [Hm Hc]. constructor; try done.
  - unfold applies. by rewrite Hsel.
  - unfold ruleFilter. by rewrite Hsel.
Qed.

Lemma head_elem {A} (x : A) l : head l = Some x → x ∈ l.
Proof. destruct l; [done|]. intros [= ->]. by left. Qed.

Lemma head_omap {A B} (f : A → option B) l y : head (omap f l) = Some y → ∃ x, x ∈ l ∧ f x = Some y.
Proof. intros H%head_elem. by apply list_elem_of_omap in H. Qed.

Section probes.
Context (service_username service_password : string) (CleartextPassword : string → option string).
Local Abbreviation usable := (usable_password CleartextPassword).

Lemma usable_spec username p : usable username = Some p → username ≠ "" ∧ p ≠ "" ∧ CleartextPassword username = Some p.
Proof.
  unfold usable_password, lookupCleartextPassword. destruct (decide (username = "")); [done|].
  destruct (CleartextPassword username) as [q|]; [|done]. by destruct (decide (q = "")); [|intros [= ->]].
Qed.

(** The password is the one of the account the probe logs in with: the service
    account's for a probe of the service account, else the one the service has
    generated for the user. *)
Definition account_password (p : verificationProbe) : Prop :=
  vp_password p ≠ "" ∧ match vp_kind p with
  | probeKindServiceGrant => vp_username p = service_username ∧ vp_password p = service_password
  | _ => vp_username p ≠ service_username ∧ CleartextPassword (vp_username p) = Some (vp_password p)
  end.
(** The rule is of the section the kind of the probe says. *)
Definition kind_of_grant (p : verificationProbe) (r : Rule) : Prop := match vp_kind p with
  | probeKindUserGrant => of_user (vp_username p) r
  | probeKindPatternGrant => EffectiveSelector r = SelectorPattern
  | probeKindServiceGrant => of_user (vp_username p) r ∧ r_topic_filter r = "mcm/healthcheck"
  end.
Definition denied_rule (rules : list Rule) (username : string) (r : Rule) : Prop :=
  r ∈ rules ∧ of_user username r ∧ r_permission r = PermissionDeny.
(** The denied topic is the filter of a deny rule of the user, if there is one. *)
Definition denied_topic (rules : list Rule) (p : verificationProbe) : Prop :=
  (∃ r, denied_rule rules (vp_username p) r ∧ vp_denied p = r_topic_filter r)
  ∨ vp_denied p = "" ∧ ∀ r, ¬ denied_rule rules (vp_username p) r.

Definition sound_probe (rules : list Rule) (entries : list PasswdEntry) (p : verificationProbe) : Prop :=
  (vp_username p ∈ pe_username <$> entries) ∧ account_password p ∧ denied_topic rules p
  ∧ ∃ r, exercises rules (vp_username p) (vp_allowed p) r ∧ kind_of_grant p r.

Lemma denied_topic_for rules u pw topic kind : denied_topic rules (mkProbe u pw topic (deniedTopicFor rules u) kind).
Proof.
  unfold denied_topic, denied_rule, deniedTopicFor. cbn [vp_username vp_denied].
  destruct (head (filter _ rules)) as [r|] eqn:E.
  - left. apply head_elem, list_elem_of_filter in E as [[? ?] ?]. by exists r.
  - right. split; [done|]. intros r (Hr & Ho & Hd). rewrite head_None, filter_nil_iff in E. by apply (E r).
Qed.

Lemma other_account username : username ≠ "" → isServiceAccount service_username username = false → username ≠ service_username.
Proof. unfold isServiceAccount. intros Hne H ->. by rewrite bool_decide_false, bool_decide_true in H. Qed.

Lemma user_probe_sound rules entries e p : e ∈ entries →
  user_probe service_username CleartextPassword rules e = Some (Some p) → sound_probe rules entries p.
Proof.
  intros He. unfold user_probe. destruct (isServiceAccount _ _) eqn:Es; [done|]. cbv zeta.
  destruct (userScopedGrants rules (pe_username e)) as [has rw] eqn:Eg. destruct has; [|done].
  destruct (usable _) as [pw|] eqn:Eu; [|done]. destruct rw as [r|]; [|done].
  destruct (concreteProbeTopic _ _ _) as [topic|] eqn:Et; [|done]. intros [= <-].
  apply usable_spec in Eu as (Hu & Hpw & Hc). unfold userScopedGrants in Eg. injection Eg as _ Hr.
  apply head_elem, list_elem_of_filter in Hr as [[Hof Hperm] Hr].
  split; [by apply (list_elem_of_fmap_2 pe_username)|]. split; [split; [done|split; [by apply other_account|done]]|].
  split; [apply denied_topic_for|]. exists r. split; [by apply exercises_user|done].
Qed.

Lemma pattern_probe_sound rules entries r e p : e ∈ entries → r ∈ rules →
  EffectiveSelector r = SelectorPattern → r_permission r = PermissionReadWrite →
  pattern_probe service_username CleartextPassword rules r e = Some p → sound_probe rules entries p.
Proof.
  intros He Hr Hsel Hperm. unfold pattern_probe. destruct (isServiceAccount _ _) eqn:Es; [done|].
  destruct (usable _) as [pw|] eqn:Eu; [|done]. destruct (concreteProbeTopic _ _ _) as [topic|] eqn:Et; [|done].
  intros [= <-]. apply usable_spec in Eu as (Hu & Hpw & Hc).
  split; [by apply (list_elem_of_fmap_2 pe_username)|]. split; [split; [done|split; [by apply other_account|done]]|].
  split; [apply denied_topic_for|]. exists r. split; [by apply exercises_pattern|done].
Qed.

Lemma service_probe_sound rules entries p :
  serviceVerificationProbe service_username service_password entries rules = Some p → sound_probe rules entries p.
Proof.
  unfold serviceVerificationProbe. destruct (decide (_ ∨ _)) as [|Hn]; [done|]. destruct (decide (_ ∈ _)) as [Hin|]; [|done].
  intros (r & Hr & Hp)%head_omap. destruct (decide _) as [(Hof & Hperm & Hf)|]; [|done].
  destruct (concreteProbeTopic _ _ _) as [topic|] eqn:Et; [|done]. injection Hp as <-.
  split; [done|]. split; [split; [naive_solver|done]|]. split; [apply denied_topic_for|].
  exists r. split; [|done]. apply exercises_user; try done. naive_solver.
Qed.

Lemma pick_sound aclBody passwdBody p :
  pickVerificationProbe service_username service_password CleartextPassword aclBody passwdBody = Some p →
  sound_probe (ParseACLFile aclBody) (ParsePasswdFile passwdBody) p.
Proof.
  unfold pickVerificationProbe. set (entries := ParsePasswdFile _). set (rules := ParseACLFile _).
  destruct entries as [|e0 es] eqn:Ee; [done|]. rewrite <-Ee. clear Ee e0 es. destruct (head (omap _ _)) as [q|] eqn:E1.
  { intros ->. apply head_omap in E1 as (e & He & Hp). by eapply user_probe_sound. }
  destruct (head (_ ≫= _)) as [q|] eqn:E2; [|apply service_probe_sound]. intros [= <-].
  apply head_elem, list_elem_of_bind in E2 as (r & Hp & Hr). apply list_elem_of_filter in Hr as [[Hsel Hperm] Hr].
  apply list_elem_of_omap in Hp as (e & He & Hp). by eapply pattern_probe_sound.
Qed.
End probes.

(** ** Properties *)

(** [C32] The probe exercises a grant of the rendered file.  Its identity is in
    the rendered password file and its password is exactly the one of that
    account: the service account's own for a probe of the service account, and for
    any other user the one the service generated, which is not empty.  The topic
    has no wildcard; a readwrite rule of the section the kind of the probe says
    applies to the identity and matches it, so the broker grants both accesses
    unless a deny rule matches the topic; the denied topic is the filter of a deny
    rule of the user, or empty when the user has none. *)
Theorem pickVerificationProbe_granted service_username service_password CleartextPassword aclBody passwdBody p :
  pickVerificationProbe service_username service_password CleartextPassword aclBody passwdBody = Some p →
  let rules := ParseACLFile aclBody in
  let identity := mkIdentity (vp_username p) "" in
  (vp_username p ∈ pe_username <$> ParsePasswdFile passwdBody)
  ∧ account_password service_username service_password CleartextPassword p
  ∧ Forall no_wildcard (split "/" (vp_allowed p))
  ∧ denied_topic rules p
  ∧ (∃ r, r ∈ rules ∧ kind_of_grant p r ∧ applies identity r = true ∧ r_permission r = PermissionReadWrite
          ∧ TopicMatchesFilter (ruleFilter r identity) (vp_allowed p) = true)
  ∧ (¬ deny_matches rules identity (vp_allowed p) →
     d_allowed (EffectivePermission rules identity (vp_allowed p) AccessRead) = true
     ∧ d_allowed (EffectivePermission rules identity (vp_allowed p) AccessWrite) = true).
Proof.
  intros (Hu & Hpw & Hd & r & [Hr Ha Hp Hm Hc] & Hk)%pick_sound. cbv zeta. do 4 (split; [done|]). split; [by exists r|]. intros Hn.
  rewrite !allowed_iff. assert (∀ access, PermissionGrants PermissionReadWrite access = true → grant_matches
    (ParseACLFile aclBody) (mkIdentity (vp_username p) "") (vp_allowed p) access) as Hg.
  { intros access Hacc. exists r. rewrite Hp. done. }
  by split; (split; [apply Hg|]).
Qed.

(** ** Example *)
Definition example_acl_body : string := "user app
topic readwrite plant/+/temp
topic deny plant/secret
".

Lemma pickVerificationProbe_granted_witness :
  let pick := pickVerificationProbe "svc" "pw" (λ u, if decide (u = "app") then Some "s3" else None) example_acl_body "app:hash" in
  pick = Some (mkProbe "app" "s3" "plant/mcm-verify/temp" "plant/secret" probeKindUserGrant)
  ∧ d_allowed (EffectivePermission (ParseACLFile example_acl_body) (mkIdentity "app" "") "plant/mcm-verify/temp" AccessWrite) = true.
Proof.
  assert (pickVerificationProbe "svc" "pw" (λ u, if decide (u = "app") then Some "s3" else None) example_acl_body "app:hash"
    = Some (mkProbe "app" "s3" "plant/mcm-verify/temp" "plant/secret" probeKindUserGrant)) as E by by vm_compute.
  split; [exact E|]. refine (proj2 (proj2 (proj2 (proj2 (proj2 (proj2 (pickVerificationProbe_granted _ _ _ _ _ _ E))))) _)).
  enough (Forall (λ r, ¬ (applies (mkIdentity "app" "") r = true ∧ rule_matches (mkIdentity "app" "") "plant/mcm-verify/temp" r
    ∧ r_permission r = PermissionDeny)) (ParseACLFile example_acl_body)) as H
    by (intros (r & Hr & Hd); rewrite Forall_forall in H; exact (H r Hr Hd)).
  refine (bool_decide_unpack _ _). by vm_compute.
Defined.
