(* ===== verification/Applier.v ===== *)
(** * [internal/mosquitto/applier.go]: the transactional write of the broker files

    An apply stages every file in a temporary file next to it, renames them
    into place, removes the retired files and signals the broker; when a step
    after the first rename fails, the snapshots are written back.

    The state is a file system with the temporary files by number, the files
    the broker loaded last, and the list of the faults to come: every system
    call takes the next element, and fails when it is [true].  The theorems
    quantify over the state, so over every sequence of faults.  A failed call
    has no effect, which is what the kernel documents for [rename]; a failed
    write can leave a partial temporary file, which the code then removes.
    The deadline of the fresh context of a rollback is not modelled. *)
From S2P Require Import Prelude IO Unicode GoStrings GoStrconv.

Record fs := mkFs {
  fs_files : gmap string string;
  fs_temps : gmap nat string;
  fs_next : nat;
  fs_loaded : gmap string string;
  fs_faults : list bool
}.
Definition set_faults (s : fs) (f : list bool) : fs := mkFs (fs_files s) (fs_temps s) (fs_next s) (fs_loaded s) f.
Definition set_files (s : fs) (m : gmap string string) : fs := mkFs m (fs_temps s) (fs_next s) (fs_loaded s) (fs_faults s).
Definition set_temps (s : fs) (m : gmap nat string) : fs := mkFs (fs_files s) m (fs_next s) (fs_loaded s) (fs_faults s).
Definition set_loaded (s : fs) (m : gmap string string) : fs := mkFs (fs_files s) (fs_temps s) (fs_next s) m (fs_faults s).

(** ** System calls *)
Inductive cause :=
  | CreateTemp | WriteTemp | ChmodTemp | SyncTemp | CloseTemp | RenameTemp | RemoveFile
  | ReadFile | StatFile | MakeDir | OpenFile | WriteFile | ChmodFile | ReadPID | ParsePID | SendSignal | RunCommand | ReloadNotSignaled | ContextDone.

Definition syscall (c : cause) : io fs cause unit := λ s,
  match fs_faults s with
  | [] => (s, Ok tt)
  | failed :: rest => (set_faults s rest, if failed : bool then Err c else Ok tt)
  end.

(** [cleanupTempFile]: an error is only logged. *)
Definition cleanupTempFile (t : nat) : io fs cause unit := λ s,
  match syscall RemoveFile s with
  | (s', Ok _) => (set_temps s' (delete t (fs_temps s')), Ok tt)
  | (s', Err _) => (s', Ok tt)
  end.

Definition new_temp : io fs cause nat := λ s,
  (mkFs (fs_files s) (<[fs_next s := ""]> (fs_temps s)) (S (fs_next s)) (fs_loaded s) (fs_faults s), Ok (fs_next s)).

Definition writeStage (path content : string) : io fs cause nat :=
  syscall CreateTemp ;;
  t ← new_temp;
  cleanup
    (syscall WriteTemp ;; modify (λ s, set_temps s (<[t := content]> (fs_temps s))) ;;
     syscall ChmodTemp ;; syscall SyncTemp ;; syscall CloseTemp)
    (cleanupTempFile t) ;;
  mret t.

Definition rename (t : nat) (path : string) : io fs cause unit := λ s,
  match fs_temps s !! t with
  | Some content => (set_files (set_temps s (delete t (fs_temps s))) (<[path := content]> (fs_files s)), Ok tt)
  | None => (s, Err RenameTemp)
  end.

Definition commitStage (t : nat) (path : string) : io fs cause unit :=
  cleanup (syscall RenameTemp ;; rename t path) (cleanupTempFile t).

Definition atomicWrite (path content : string) : io fs cause unit :=
  t ← writeStage path content; commitStage t path.

(** [os.Remove], where a file that is not there is no error. *)
Definition remove_file (path : string) : io fs cause unit :=
  syscall RemoveFile ;; modify (λ s, set_files s (delete path (fs_files s))).

(** ** The request *)
Record ACLFile := mkACLFile { af_path : string; af_body : string; af_snapshot : string }.
Record ApplyRequest := mkApplyRequest {
  rq_acl_body : string; rq_acl_snapshot : string; rq_listener : list ACLFile; rq_removed : list ACLFile;
  rq_passwd_body : string; rq_passwd_snapshot : string
}.

Inductive apply_error :=
  | Cancelled | NotSignaled | NoContainer | Staging (c : cause)
  | ErrApplyRestored (stage : string) (c : cause)
  | ErrRollbackFailed (stage : string) (c : cause) (rollback : cause)
  | ErrRestartNotSupported | RestartFailed (c : cause) | ReloadFailed (c : cause).

Definition rollbackFromSnapshot (files removed : list ACLFile) (passwdPath passwdSnapshot : string) : io fs cause unit :=
  for_each (λ f, atomicWrite (af_path f) (af_snapshot f)) files ;;
  for_each (λ f, atomicWrite (af_path f) (af_snapshot f)) removed ;;
  atomicWrite passwdPath passwdSnapshot.

(** The loop that stages the ACL files; [staged] are the temporary files so far. *)
Fixpoint stage_acl (staged : list nat) (files : list ACLFile) : io fs cause (list nat) :=
  match files with
  | [] => mret staged
  | f :: rest =>
      t ← cleanup (writeStage (af_path f) (af_body f)) (for_each cleanupTempFile staged);
      stage_acl (staged ++ [t]) rest
  end.

(** The loop that renames them; on a failure the temporary files that are left
    are cleaned up. *)
Fixpoint commit_acl (passwdTmp : nat) (files : list ACLFile) (tmps : list nat) : io fs cause unit :=
  match files, tmps with
  | f :: files', t :: tmps' =>
      cleanup (commitStage t (af_path f)) (cleanupTempFile passwdTmp ;; for_each cleanupTempFile tmps') ;;
      commit_acl passwdTmp files' tmps'
  | _, _ => mret tt
  end.

Section transaction.
Context (aclPath passwdPath : string).

Definition request_files (req : ApplyRequest) : list ACLFile :=
  mkACLFile aclPath (rq_acl_body req) (rq_acl_snapshot req) :: rq_listener req.

Definition rollbackAfterPartialApply (stage : string) (c : cause) (req : ApplyRequest) : io fs apply_error unit :=
  r ← attempt (rollbackFromSnapshot (request_files req) (rq_removed req) passwdPath (rq_passwd_snapshot req));
  match r with
  | Ok _ => fail (ErrApplyRestored stage c)
  | Err e => fail (ErrRollbackFailed stage c e)
  end.

(** A step after the first rename: its failure is answered with a rollback. *)
Definition guarded (req : ApplyRequest) (stage : string) (m : io fs cause unit) : io fs apply_error unit :=
  r ← attempt m;
  match r with Ok _ => mret tt | Err c => rollbackAfterPartialApply stage c req end.

(** The four stages, the same for the two appliers but for the reload. *)
Definition apply_stages (reload_stage : string) (reload : io fs cause unit) (req : ApplyRequest) : io fs apply_error unit :=
  tmps ← wrap Staging (stage_acl [] (request_files req));
  passwdTmp ← wrap Staging (cleanup (writeStage passwdPath (rq_passwd_body req)) (for_each cleanupTempFile tmps));
  guarded req "rename acl" (commit_acl passwdTmp (request_files req) tmps) ;;
  guarded req "rename passwd" (commitStage passwdTmp passwdPath) ;;
  guarded req "remove acl" (for_each (λ f, remove_file (af_path f)) (rq_removed req)) ;;
  guarded req reload_stage reload.
End transaction.

(** ** The broker is told to reload *)
Definition load : io fs cause unit := modify (λ s, set_loaded s (fs_files s)).

Record FileApplier := mkFileApplier {
  fa_acl : string; fa_passwd : string; fa_pid : string; fa_command : list string
}.

Definition signalReload (f : FileApplier) : io fs cause unit :=
  syscall ReadPID ;;
  s ← get;
  match fs_files s !! fa_pid f with
  | None => fail ReadPID
  | Some data =>
      match atoi (trim_space data) with
      | None => fail ParsePID
      | Some _ => syscall SendSignal ;; load
      end
  end.
Definition reloadViaCommand (f : FileApplier) : io fs cause unit := syscall RunCommand ;; load.
Definition reloadBroker (f : FileApplier) : io fs cause unit :=
  match fa_command f with
  | _ :: _ => reloadViaCommand f
  | [] => if decide (fa_pid f = "") then fail ReloadNotSignaled else signalReload f
  end.

(** [ctx.Err()]: the next element says whether the context is done. *)
Definition check_context : io fs apply_error unit := wrap (λ _, Cancelled) (syscall ContextDone).

Definition FileApply (f : FileApplier) (req : ApplyRequest) : io fs apply_error unit :=
  check_context ;;
  if decide (fa_pid f = "" ∧ fa_command f = []) then fail NotSignaled
  else apply_stages (fa_acl f) (fa_passwd f) "signal reload" (reloadBroker f) req.

Definition CanRestart (f : FileApplier) : bool := negb (bool_decide (fa_command f = [])).
Definition RestartBroker (f : FileApplier) : io fs apply_error unit :=
  match fa_command f with [] => fail ErrRestartNotSupported | _ => wrap RestartFailed (reloadViaCommand f) end.

Record DockerApplier := mkDockerApplier { dk_acl : string; dk_passwd : string; dk_container : string }.
Definition DockerApply (d : DockerApplier) (req : ApplyRequest) : io fs apply_error unit :=
  if decide (dk_container d = "") then fail NoContainer
  else check_context ;; apply_stages (dk_acl d) (dk_passwd d) "docker exec" (syscall RunCommand ;; load) req.

(** ** One file and the broker alone: the deploy of [mosquitto.conf] *)
Definition AtomicWriteConf (path content : string) : io fs cause unit := atomicWrite path content.
Definition FileReloadBrokerOnly (f : FileApplier) : io fs apply_error unit :=
  if decide (fa_pid f = "" ∧ fa_command f = []) then fail NotSignaled else wrap ReloadFailed (reloadBroker f).
Definition DockerReloadBrokerOnly (d : DockerApplier) : io fs apply_error unit :=
  if decide (dk_container d = "") then fail NoContainer else wrap ReloadFailed (syscall RunCommand ;; load).
Definition DockerRestartBroker (d : DockerApplier) : io fs apply_error unit :=
  if decide (dk_container d = "") then fail NoContainer else wrap RestartFailed (syscall RunCommand ;; load).
Definition DockerCanRestart (d : DockerApplier) : bool := negb (bool_decide (dk_container d = "")).

(** ** What the steps do to the files *)
Definition writes (l : list (string * string)) (m : gmap string string) : gmap string string :=
  foldl (λ m x, <[x.1 := x.2]> m) m l.
Definition bodies (l : list ACLFile) : list (string * string) := (λ f, (af_path f, af_body f)) <$> l.
Definition snapshots (l : list ACLFile) : list (string * string) := (λ f, (af_path f, af_snapshot f)) <$> l.

Lemma writes_app a b m : writes (a ++ b) m = writes b (writes a m).
Proof. apply foldl_app. Qed.

Lemma writes_other l m p : p ∉ l.*1 → writes l m !! p = m !! p.
Proof.
  revert m. induction l as [|[q c] l IH]; intros m Hp; [done|]. rewrite fmap_cons, not_elem_of_cons in Hp.
  destruct Hp as [Hne Hp]. change (writes l (<[q:=c]> m) !! p = m !! p). rewrite IH by done. by apply lookup_insert_ne.
Qed.

Lemma writes_elem l m p c : NoDup l.*1 → (p, c) ∈ l → writes l m !! p = Some c.
Proof.
  revert m. induction l as [|[q d] l IH]; intros m Hnd Hin; [by apply elem_of_nil in Hin|].
  rewrite fmap_cons, NoDup_cons in Hnd. destruct Hnd as [Hq Hnd]. change (writes l (<[q:=d]> m) !! p = Some c).
  apply elem_of_cons in Hin as [[= -> ->]|Hin]; [|by apply IH].
  rewrite writes_other by done. apply lookup_insert_eq.
Qed.

(** Only the temporary file [t] may differ. *)
Definition only_temp (t : nat) (s s' : fs) : Prop :=
  fs_files s' = fs_files s ∧ fs_loaded s' = fs_loaded s ∧ fs_next s ≤ fs_next s'
  ∧ ∀ u, u ≠ t → fs_temps s' !! u = fs_temps s !! u.

Lemma only_temp_refl t s : only_temp t s s.
Proof. done. Qed.

Lemma only_temp_trans t s1 s2 s3 : only_temp t s1 s2 → only_temp t s2 s3 → only_temp t s1 s3.
Proof.
  intros (H1 & H2 & H3 & H4) (K1 & K2 & K3 & K4). repeat split; [congruence|congruence|lia|].
  intros u Hu. by rewrite K4, H4.
Qed.

Lemma wp_syscall c (Q : fs → result cause unit → Prop) s :
  (∀ f, Q (set_faults s f) (Ok tt)) → (∀ f, Q (set_faults s f) (Err c)) → wp (syscall c) Q s.
Proof.
  intros H1 H2. unfold wp, syscall. destruct (fs_faults s) as [|[] rest] eqn:E; cbn; [|apply H2|apply H1].
  specialize (H1 []). unfold set_faults in H1. rewrite <-E in H1. by destruct s.
Qed.

Lemma wp_cleanupTempFile t (Q : fs → result cause unit → Prop) s :
  (∀ s', only_temp t s s' → Q s' (Ok tt)) → wp (cleanupTempFile t) Q s.
Proof.
  intros HQ. pose proof (wp_syscall RemoveFile (λ s' r, ∃ f, s' = set_faults s f) s) as H. unfold wp in *.
  unfold cleanupTempFile. destruct (syscall RemoveFile s) as [s' r]. cbn in H. destruct H as [f ->]; [by eexists..|].
  destruct r; cbn; apply HQ; repeat split; cbn; try done. intros u Hu. by rewrite lookup_delete_ne.
Qed.

Lemma wp_writeStage p c (Q : fs → result cause nat → Prop) s :
  (∀ s' e, only_temp (fs_next s) s s' → Q s' (Err e)) →
  (∀ s', only_temp (fs_next s) s s' → fs_temps s' !! fs_next s = Some c → fs_next s < fs_next s' → Q s' (Ok (fs_next s))) →
  wp (writeStage p c) Q s.
Proof.
  intros HE HO. unfold writeStage. apply wp_bind, wp_syscall; [|intros f; by apply HE].
  intros f. apply wp_bind. unfold new_temp, wp at 1. cbn [fst snd].
  set (s1 := mkFs _ _ _ _ _). assert (only_temp (fs_next s) s s1) as H1.
  { repeat split; cbn; [lia|]. intros u Hu. by rewrite lookup_insert_ne. }
  assert (fs_next s < fs_next s1) as Hlt by (cbn; lia). change (fs_next (set_faults s f)) with (fs_next s).
  clearbody s1. apply wp_bind, wp_cleanup.
  apply (wp_mono _ (λ s' r, only_temp (fs_next s) s s' ∧ fs_next s < fs_next s'
    ∧ match r with Ok _ => fs_temps s' !! fs_next s = Some c | Err _ => True end)).
  - assert (∀ s' f, only_temp (fs_next s) s s' → only_temp (fs_next s) s (set_faults s' f)) as Hf by done.
    apply wp_bind, wp_syscall; [|intros g; by split; [apply Hf|]].
    intros g. apply wp_bind. unfold modify, wp at 1. cbn [fst snd].
    set (s2 := set_temps _ _). assert (only_temp (fs_next s) s s2) as H2.
    { eapply only_temp_trans; [done|]. repeat split; cbn; [lia|]. intros u Hu. by rewrite lookup_insert_ne. }
    assert (fs_next s < fs_next s2 ∧ fs_temps s2 !! fs_next s = Some c) as [Hlt2 Ht]
      by (cbn; split; [done|apply lookup_insert_eq]).
    clearbody s2. apply wp_bind, wp_syscall; intros f1; [|done].
    apply wp_bind, wp_syscall; intros f2; [|done]. apply wp_syscall; intros f3; done.
  - intros s' [u|e] (Ho & Hn & Hr).
    + apply wp_ret. by apply HO.
    + apply wp_cleanupTempFile. intros s'' Hc. apply HE. by eapply only_temp_trans.
Qed.

(** The files and what the broker loaded. *)
Definition has_files (s : fs) (m l : gmap string string) : Prop := fs_files s = m ∧ fs_loaded s = l.

Lemma only_temp_has t s s' m l : only_temp t s s' → has_files s m l → has_files s' m l.
Proof. intros (H1 & H2 & _) [<- <-]. done. Qed.

Lemma wp_cleanup_all ts m l (Q : fs → result cause unit → Prop) s :
  has_files s m l → (∀ s', has_files s' m l → Q s' (Ok tt)) → wp (for_each cleanupTempFile ts) Q s.
Proof.
  intros Hs HQ. apply (wp_for_each _ (λ _ s', has_files s' m l)); [done| |done].
  intros dn t rest s1 _ H1. apply wp_cleanupTempFile. intros s2 H2. by eapply only_temp_has.
Qed.

Lemma wp_commitStage t p c (Q : fs → result cause unit → Prop) s :
  fs_temps s !! t = Some c →
  (∀ s' e, only_temp t s s' → Q s' (Err e)) →
  (∀ s', fs_files s' = <[p := c]> (fs_files s) → fs_loaded s' = fs_loaded s →
     (∀ u, u ≠ t → fs_temps s' !! u = fs_temps s !! u) → Q s' (Ok tt)) →
  wp (commitStage t p) Q s.
Proof.
  intros Ht HE HO. unfold commitStage. apply wp_cleanup, wp_bind, wp_syscall; intros f.
  - unfold rename, wp. cbn [set_faults fs_temps]. rewrite Ht. cbn [fst snd].
    apply HO; cbn; [done|done|]. intros u Hu. by rewrite lookup_delete_ne.
  - apply wp_cleanupTempFile. intros s' H. by apply HE.
Qed.

Lemma wp_atomicWrite p c m l (Q : fs → result cause unit → Prop) s :
  has_files s m l →
  (∀ s' e, has_files s' m l → Q s' (Err e)) → (∀ s', has_files s' (<[p := c]> m) l → Q s' (Ok tt)) →
  wp (atomicWrite p c) Q s.
Proof.
  intros Hs HE HO. unfold atomicWrite. apply wp_bind, wp_writeStage.
  - intros s' e H. apply HE. by eapply only_temp_has.
  - intros s' H Ht _. apply (only_temp_has _ _ _ _ _ H) in Hs as Hs'. eapply wp_commitStage; [done|..].
    + intros s'' e H'. apply HE. by eapply only_temp_has.
    + intros s'' Hf Hl _. apply HO. destruct Hs' as [<- <-]. done.
Qed.

(** Writing a list of files: all of them, or a prefix. *)
Lemma wp_write_all fl m l (Q : fs → result cause unit → Prop) s :
  has_files s m l →
  (∀ s', has_files s' (writes (snapshots fl) m) l → Q s' (Ok tt)) →
  (∀ s' e k, has_files s' (writes (take k (snapshots fl)) m) l → Q s' (Err e)) →
  wp (for_each (λ f, atomicWrite (af_path f) (af_snapshot f)) fl) Q s.
Proof.
  intros Hs HO HE. apply (wp_for_each _ (λ dn s', has_files s' (writes (snapshots dn) m) l)); [done| |done].
  intros dn f rest s1 Hl H1. eapply wp_atomicWrite; [done|..].
  - intros s2 e H2. apply (HE s2 e (length dn)). unfold snapshots. rewrite <-fmap_take, Hl.
    by rewrite take_app_length.
  - intros s2 H2. unfold snapshots. by rewrite fmap_app, writes_app.
Qed.

Definition restored (files removed : list ACLFile) (passwdPath passwdSnapshot : string) : list (string * string) :=
  snapshots files ++ snapshots removed ++ [(passwdPath, passwdSnapshot)].

Lemma take_min {A} k (l : list A) : take (k `min` length l) l = take k l.
Proof. destruct (decide (k ≤ length l)); [by rewrite Nat.min_l|]. rewrite Nat.min_r, !take_ge by lia. done. Qed.

Lemma wp_rollbackFromSnapshot files removed pp ps m l (Q : fs → result cause unit → Prop) s :
  has_files s m l →
  (∀ s', has_files s' (writes (restored files removed pp ps) m) l → Q s' (Ok tt)) →
  (∀ s' e k, has_files s' (writes (take k (restored files removed pp ps)) m) l → Q s' (Err e)) →
  wp (rollbackFromSnapshot files removed pp ps) Q s.
Proof.
  intros Hs HO HE. unfold rollbackFromSnapshot. apply wp_bind. eapply wp_write_all; [done|..].
  2: { intros s' e k H. apply (HE s' e (k `min` length (snapshots files))).
       unfold restored. rewrite take_app_le by lia. by rewrite take_min. }
  intros s1 H1. apply wp_bind. eapply wp_write_all; [done|..].
  2: { intros s' e k H. apply (HE s' e (length (snapshots files) + k `min` length (snapshots removed))).
       unfold restored. rewrite take_app_add', take_app_le by (done || lia).
       by rewrite take_min, writes_app. }
  intros s2 H2. eapply wp_atomicWrite; [done|..].
  - intros s3 e H3. apply (HE s3 e (length (snapshots files) + length (snapshots removed))).
    unfold restored. rewrite take_app_add', take_app_length by done. by rewrite writes_app.
  - intros s3 H3. apply HO. unfold restored. by rewrite !writes_app.
Qed.

(** The staged files. *)
Definition staged_as (s : fs) (fl : list ACLFile) (ts : list nat) : Prop :=
  Forall2 (λ f t, fs_temps s !! t = Some (af_body f) ∧ t < fs_next s) fl ts ∧ NoDup ts.

Lemma staged_only s s' fl ts : only_temp (fs_next s) s s' → staged_as s fl ts → staged_as s' fl ts.
Proof.
  intros (_ & _ & Hn & Ht) [H Hnd]. split; [|done]. eapply Forall2_impl; [done|]. intros f t [Hf Hlt].
  rewrite Ht by lia. split; [done|lia].
Qed.

Lemma staged_lt s fl ts t : staged_as s fl ts → t ∈ ts → t < fs_next s.
Proof.
  intros [H _] Hin. apply list_elem_of_lookup_1 in Hin as [i Hi].
  destruct (Forall2_lookup_r _ _ _ _ _ H Hi) as (f & _ & _ & Hlt). done.
Qed.

Lemma wp_stage_acl fl pre ts m l (Q : fs → result cause (list nat) → Prop) s :
  has_files s m l → staged_as s pre ts →
  (∀ s' e, has_files s' m l → Q s' (Err e)) →
  (∀ s' ts', has_files s' m l → staged_as s' (pre ++ fl) ts' → Q s' (Ok ts')) →
  wp (stage_acl ts fl) Q s.
Proof.
  intros Hs Hst HE HO. revert pre ts s Hs Hst HO. induction fl as [|f fl IH]; intros pre ts s Hs Hst HO; cbn [stage_acl].
  { apply wp_ret. apply HO; [done|]. by rewrite app_nil_r. }
  apply wp_bind, wp_cleanup, wp_writeStage.
  - intros s' e H. eapply wp_cleanup_all; [by eapply only_temp_has|]. intros s'' H''. by apply HE.
  - intros s' H Ht Hlt. apply (IH (pre ++ [f])).
    + by eapply only_temp_has.
    + split.
      * apply Forall2_app; [by apply (staged_only s s' pre ts)|]. by constructor; [|constructor].
      * apply NoDup_app. split; [apply Hst|]. split; [|apply NoDup_singleton]. intros t Hin Hx.
        apply list_elem_of_singleton in Hx as ->. apply (staged_lt s pre) in Hin; [lia|done].
    + intros s'' ts' H1 H2. apply HO; [done|]. by rewrite <-app_assoc in H2.
Qed.

Lemma wp_commit_acl pt fl ts m l c (Q : fs → result cause unit → Prop) s :
  has_files s m l → Forall2 (λ f t, fs_temps s !! t = Some (af_body f)) fl ts → NoDup ts → pt ∉ ts → fs_temps s !! pt = Some c →
  (∀ s' e k, has_files s' (writes (take k (bodies fl)) m) l → Q s' (Err e)) →
  (∀ s', has_files s' (writes (bodies fl) m) l → fs_temps s' !! pt = Some c → Q s' (Ok tt)) →
  wp (commit_acl pt fl ts) Q s.
Proof.
  revert ts m s. induction fl as [|f fl IH]; intros ts m s Hs Hst Hnd Hpt Hc HE HO.
  { apply Forall2_nil_inv_l in Hst as ->. apply wp_ret. by apply HO. }
  apply Forall2_cons_inv_l in Hst as (t & ts' & Hf & Hst & ->). cbn [commit_acl].
  apply NoDup_cons in Hnd as [Ht Hnd]. apply not_elem_of_cons in Hpt as [Hne Hpt].
  apply wp_bind, wp_cleanup. eapply wp_commitStage; [done|..].
  - intros s' e H. apply wp_bind, wp_cleanupTempFile. intros s1 H1. eapply (wp_cleanup_all ts' m l).
    + eapply only_temp_has; [done|]. by eapply only_temp_has.
    + intros s2 H2. by apply (HE s2 e 0).
  - intros s' Hfiles Hl Htemps. apply (IH ts' (<[af_path f := af_body f]> m)); [|..|done|done| | |].
    + destruct Hs as [<- <-]. done.
    + apply Forall2_same_length_lookup. apply Forall2_same_length_lookup in Hst as [Hlen Hst]. split; [done|].
      intros i g u Hg Hu. rewrite Htemps; [by eapply Hst|]. intros ->. apply Ht. by eapply list_elem_of_lookup_2.
    + by rewrite Htemps.
    + intros s'' e k H. by apply (HE s'' e (S k)).
    + intros s'' H Hp. by apply HO.
Qed.

Definition removes (fl : list ACLFile) (m : gmap string string) : gmap string string := foldl (λ m f, delete (af_path f) m) m fl.
Definition same_outside (paths : list string) (m m' : gmap string string) : Prop := ∀ p, p ∉ paths → m' !! p = m !! p.

Lemma removes_other fl m p : p ∉ af_path <$> fl → removes fl m !! p = m !! p.
Proof.
  revert m. induction fl as [|f fl IH]; intros m Hp; [done|]. rewrite fmap_cons, not_elem_of_cons in Hp.
  destruct Hp as [Hne Hp]. change (removes fl (delete (af_path f) m) !! p = m !! p). rewrite IH by done. by apply lookup_delete_ne.
Qed.

Lemma removes_elem fl m p : p ∈ af_path <$> fl → removes fl m !! p = None.
Proof.
  revert m. induction fl as [|f fl IH]; intros m Hp; [by apply elem_of_nil in Hp|]. rewrite fmap_cons in Hp.
  change (removes fl (delete (af_path f) m) !! p = None). destruct (decide (p ∈ af_path <$> fl)); [by apply IH|].
  apply elem_of_cons in Hp as [->|Hp]; [|done]. rewrite removes_other by done. apply lookup_delete_eq.
Qed.

Lemma writes_outside paths l m m' : same_outside paths m m' → l.*1 ⊆ paths → same_outside paths m (writes l m').
Proof. intros H Hl p Hp. rewrite writes_other by set_solver. by apply H. Qed.

Section apply_stages.
Context (aclPath passwdPath reload_stage : string) (reload : io fs cause unit) (req : ApplyRequest).

Definition touched : list string :=
  (af_path <$> request_files aclPath req) ++ (af_path <$> rq_removed req) ++ [passwdPath].
(** What the files are after the rollback and after the whole request. *)
Definition rolled_back : list (string * string) :=
  restored (request_files aclPath req) (rq_removed req) passwdPath (rq_passwd_snapshot req).
Definition requested (m : gmap string string) : gmap string string :=
  removes (rq_removed req) (writes (bodies (request_files aclPath req) ++ [(passwdPath, rq_passwd_body req)]) m).

Lemma rolled_back_paths : rolled_back.*1 = touched.
Proof.
  unfold rolled_back, touched, restored, snapshots. rewrite !fmap_app, <-!list_fmap_compose. done.
Qed.

(** How an apply of the request can end, from the files [m] and with [l] the
    files the broker runs on. *)
Definition outcome (m l : gmap string string) (s' : fs) (r : result apply_error unit) : Prop :=
  match r with
  | Ok _ => has_files s' (requested m) (requested m)
  | Err (ErrApplyRestored _ _) => ∃ m1, same_outside touched m m1 ∧ has_files s' (writes rolled_back m1) l
  | Err (ErrRollbackFailed _ _ _) => ∃ m1, same_outside touched m m1 ∧ has_files s' m1 l
  | Err _ => has_files s' m l
  end.

Lemma wp_rollback stage c m m1 l s :
  has_files s m1 l → same_outside touched m m1 →
  wp (rollbackAfterPartialApply aclPath passwdPath stage c req)
    (λ s' r, match r with Ok _ => False | Err e => outcome m l s' (Err e) end) s.
Proof.
  intros Hs Hm. unfold rollbackAfterPartialApply. apply wp_bind, wp_attempt. eapply wp_rollbackFromSnapshot; [done|..].
  - intros s' H. apply wp_fail. by exists m1.
  - intros s' e k H. apply wp_fail. exists (writes (take k rolled_back) m1). split; [|done].
    apply writes_outside; [done|]. rewrite <-rolled_back_paths, fmap_take.
    intros p Hp. rewrite <-(take_drop k rolled_back.*1). set_solver.
Qed.

Lemma wp_guarded stage (m0 : io fs cause unit) m l (R : fs → Prop) s :
  wp m0 (λ s' r, match r with Ok _ => R s' | Err _ => ∃ m1, same_outside touched m m1 ∧ has_files s' m1 l end) s →
  wp (guarded aclPath passwdPath req stage m0) (λ s' r, match r with Ok _ => R s' | Err e => outcome m l s' (Err e) end) s.
Proof.
  intros H. unfold guarded. apply wp_bind, wp_attempt. eapply wp_mono; [exact H|]. intros s' [u|c] Hr.
  - exact Hr.
  - destruct Hr as (m1 & Hm & Hs). eapply wp_mono; [by eapply wp_rollback|]. by intros s'' [u|e] Ho.
Qed.

Lemma wp_remove_all m l s : has_files s m l →
  wp (for_each (λ f, remove_file (af_path f)) (rq_removed req))
    (λ s' r, match r with
             | Ok _ => has_files s' (removes (rq_removed req) m) l
             | Err _ => ∃ k, has_files s' (removes (take k (rq_removed req)) m) l
             end) s.
Proof.
  intros Hs. apply (wp_for_each _ (λ dn s', has_files s' (removes dn m) l)); [done| |done].
  intros dn f rest s1 Hl [H1 H2]. unfold remove_file. apply wp_bind, wp_syscall; intros g.
  - unfold modify, wp, has_files. cbn. rewrite H1. unfold removes. by rewrite foldl_app.
  - exists (length dn). by rewrite Hl, take_app_length.
Qed.

Hypothesis reload_spec : ∀ m l s, has_files s m l →
  wp reload (λ s' r, match r with Ok _ => has_files s' m m | Err _ => has_files s' m l end) s.

Lemma wp_apply_stages m l s : has_files s m l →
  wp (apply_stages aclPath passwdPath reload_stage reload req) (outcome m l) s.
Proof.
  intros Hs. unfold apply_stages. cbv zeta. apply wp_bind, wp_wrap.
  eapply (wp_stage_acl _ [] []); [done|by split; constructor|done|]. intros s1 ts H1 [Hst Hnd]. cbn [app] in Hst.
  apply wp_bind, wp_wrap, wp_cleanup, wp_writeStage.
  { intros s' e H. eapply wp_cleanup_all; [by eapply only_temp_has|done]. }
  intros s2 H2 Ht2 _. apply (only_temp_has _ _ _ _ _ H2) in H1 as Hs2.
  assert (fs_next s1 ∉ ts) as Hpt by (intros Hin; apply (staged_lt s1 _ _ _ (conj Hst Hnd)) in Hin; lia).
  set (all := bodies (request_files aclPath req)).
  assert (∀ k, (take k all).*1 ⊆ touched) as Hall.
  { intros k p Hp. unfold touched. rewrite fmap_take in Hp. apply elem_of_app. left.
    unfold all, bodies in Hp. rewrite <-list_fmap_compose in Hp. change (fst ∘ _) with af_path in Hp.
    eapply elem_of_submseteq; [exact Hp|]. apply sublist_submseteq, sublist_take. }
  apply wp_bind. eapply wp_mono; [apply (wp_guarded _ _ m l
    (λ s', has_files s' (writes all m) l ∧ fs_temps s' !! fs_next s1 = Some (rq_passwd_body req)))|].
  { eapply wp_commit_acl; [exact Hs2| |done|done|done| |].
    - apply Forall2_same_length_lookup. apply Forall2_same_length_lookup in Hst as [Hlen Hst]. split; [done|].
      intros i f t Hf Ht. destruct (Hst i f t Hf Ht) as [Hb Hlt]. destruct H2 as (_ & _ & _ & H2). rewrite H2 by lia. done.
    - intros s' e k H. exists (writes (take k all) m). split; [|done]. by apply writes_outside.
    - done. }
  intros s3 [u|e]; [|done]. intros [Hs3 Ht3]. apply wp_bind.
  eapply wp_mono; [apply (wp_guarded _ _ m l (λ s', has_files s' (writes (all ++ [(passwdPath, rq_passwd_body req)]) m) l))|].
  { eapply wp_commitStage; [done|..].
    - intros s' e H. exists (writes all m). split; [|by eapply only_temp_has].
      apply writes_outside; [done|]. rewrite <-(firstn_all all). apply Hall.
    - intros s' Hf Hl _. destruct Hs3 as [Hf3 Hl3]. split; [|congruence]. rewrite writes_app, <-Hf3. done. }
  intros s4 [u'|e]; [|done]. intros Hs4. apply wp_bind.
  set (m4 := writes (all ++ [(passwdPath, rq_passwd_body req)]) m) in *.
  assert (same_outside touched m m4) as Hm4.
  { apply writes_outside; [done|]. rewrite fmap_app. intros p [Hp|Hp]%elem_of_app.
    - rewrite <-(firstn_all all) in Hp. by apply (Hall (length all) p).
    - unfold touched. set_solver. }
  assert (∀ k, same_outside touched m (removes (take k (rq_removed req)) m4)) as Hrem.
  { intros k p Hp. rewrite removes_other; [by apply Hm4|]. intros Hin. apply Hp. unfold touched.
    apply elem_of_app. right. apply elem_of_app. left. rewrite fmap_take in Hin.
    eapply elem_of_submseteq; [exact Hin|]. apply sublist_submseteq, sublist_take. }
  eapply wp_mono; [apply (wp_guarded _ _ m l (λ s', has_files s' (requested m) l))|].
  { eapply wp_mono; [by apply wp_remove_all|]. intros s' [u''|e] Hr; [done|]. destruct Hr as [k Hk]. eexists. split; [apply Hrem|exact Hk]. }
  intros s5 [u''|e]; [|done]. intros Hs5.
  eapply wp_mono; [apply (wp_guarded _ _ m l (λ s', has_files s' (requested m) (requested m)))|].
  { eapply wp_mono; [by apply reload_spec|]. intros s' [v|e] Hr; [done|]. exists (requested m). split; [|done].
    unfold requested. rewrite <-(firstn_all (rq_removed req)). apply Hrem. }
  by intros s6 [v|e].
Qed.
End apply_stages.

(** ** What a reader sees *)

(** A file that is not there reads as an empty one, as in [defaultFileReader]. *)
Definition reads (m : gmap string string) (p : string) : string := default "" (m !! p).

(** The request names every file once, with what is on disk. *)
Record faithful (aclPath passwdPath : string) (req : ApplyRequest) (m : gmap string string) : Prop := {
  ff_nodup : NoDup (touched aclPath passwdPath req);
  ff_files : Forall (λ f, reads m (af_path f) = af_snapshot f) (request_files aclPath req ++ rq_removed req);
  ff_passwd : reads m passwdPath = rq_passwd_snapshot req
}.

(** Everything is in place, and the broker runs on it. *)
Record applied (aclPath passwdPath : string) (req : ApplyRequest) (m : gmap string string) (s' : fs) : Prop := {
  ap_files : ∀ f, f ∈ request_files aclPath req → fs_files s' !! af_path f = Some (af_body f);
  ap_passwd : fs_files s' !! passwdPath = Some (rq_passwd_body req);
  ap_removed : ∀ f, f ∈ rq_removed req → fs_files s' !! af_path f = None;
  ap_other : same_outside (touched aclPath passwdPath req) m (fs_files s');
  ap_loaded : fs_loaded s' = fs_files s'
}.

Definition transactional (aclPath passwdPath : string) (req : ApplyRequest) (s s' : fs) (r : result apply_error unit) : Prop :=
  match r with
  | Ok _ => applied aclPath passwdPath req (fs_files s) s'
  | Err (ErrRollbackFailed _ _ _) =>
      same_outside (touched aclPath passwdPath req) (fs_files s) (fs_files s') ∧ fs_loaded s' = fs_loaded s
  | Err _ => (∀ p, reads (fs_files s') p = reads (fs_files s) p) ∧ fs_loaded s' = fs_loaded s
  end.

Section outcomes.
Context (aclPath passwdPath : string) (req : ApplyRequest) (m : gmap string string).
Hypothesis Hreq : faithful aclPath passwdPath req m.
Let files := request_files aclPath req.
Let removed := rq_removed req.

Lemma faithful_split :
  NoDup (af_path <$> files) ∧ NoDup (af_path <$> removed) ∧ (passwdPath ∉ af_path <$> files)
  ∧ (passwdPath ∉ af_path <$> removed) ∧ ∀ p, p ∈ af_path <$> files → p ∉ af_path <$> removed.
Proof.
  destruct Hreq as [Hnd _ _]. unfold touched in Hnd. apply NoDup_app in Hnd as (H1 & H2 & H3).
  apply NoDup_app in H3 as (H4 & H5 & _). split; [done|]. split; [done|]. split; [|split].
  - intros Hp. apply (H2 _ Hp). set_solver.
  - intros Hp. apply (H5 _ Hp). set_solver.
  - intros p Hp Hq. apply (H2 _ Hp). set_solver.
Qed.

Lemma requested_applied s' : has_files s' (requested aclPath passwdPath req m) (requested aclPath passwdPath req m) →
  applied aclPath passwdPath req m s'.
Proof.
  intros [Hf Hl]. destruct faithful_split as (Hnf & Hnr & Hpf & Hpr & Hdis).
  assert ((bodies files ++ [(passwdPath, rq_passwd_body req)]).*1 = (af_path <$> files) ++ [passwdPath]) as Hpaths.
  { unfold bodies. rewrite fmap_app, <-list_fmap_compose. done. }
  assert (NoDup (bodies files ++ [(passwdPath, rq_passwd_body req)]).*1) as Hnd.
  { rewrite Hpaths. apply NoDup_app. split; [done|]. split; [|apply NoDup_singleton]. intros p Hp ->%list_elem_of_singleton. done. }
  constructor.
  - intros f Hin. rewrite Hf. unfold requested. rewrite removes_other by (apply Hdis; by apply list_elem_of_fmap_2).
    apply writes_elem; [done|]. apply elem_of_app. left. by apply (list_elem_of_fmap_2 (λ f, (af_path f, af_body f))).
  - rewrite Hf. unfold requested. rewrite removes_other by done. apply writes_elem; [done|]. set_solver.
  - intros f Hin. rewrite Hf. unfold requested. apply removes_elem. by apply list_elem_of_fmap_2.
  - intros p Hp. rewrite Hf. unfold requested. unfold touched in Hp. fold files removed in Hp.
    rewrite removes_other by set_solver. apply writes_other. fold files. rewrite Hpaths. set_solver.
  - congruence.
Qed.

Lemma rolled_back_reads m1 : same_outside (touched aclPath passwdPath req) m m1 →
  ∀ p, reads (writes (rolled_back aclPath passwdPath req) m1) p = reads m p.
Proof.
  intros Hm p. destruct Hreq as [Hnd Hfiles Hpasswd]. unfold reads at 1.
  destruct (decide (p ∈ touched aclPath passwdPath req)) as [Hp|Hp].
  - assert ((p, reads m p) ∈ rolled_back aclPath passwdPath req) as Hin.
    { unfold rolled_back, restored. rewrite app_assoc. unfold snapshots. rewrite <-fmap_app.
      unfold touched in Hp. rewrite app_assoc, <-fmap_app in Hp. apply elem_of_app in Hp as [Hp|Hp]; apply elem_of_app; [left|right].
      - apply list_elem_of_fmap in Hp as (f & -> & Hf). rewrite Forall_forall in Hfiles. rewrite (Hfiles f Hf).
        by apply (list_elem_of_fmap_2 (λ f, (af_path f, af_snapshot f))).
      - apply list_elem_of_singleton in Hp as ->. rewrite Hpasswd. by left. }
    by rewrite (writes_elem _ _ _ _ (eq_ind_r NoDup Hnd (rolled_back_paths _ _ _)) Hin).
  - rewrite writes_other by by rewrite rolled_back_paths. by rewrite Hm.
Qed.

Lemma outcome_transactional s s' r : fs_files s = m →
  outcome aclPath passwdPath req (fs_files s) (fs_loaded s) s' r → transactional aclPath passwdPath req s s' r.
Proof.
  intros Hs Ho. destruct r as [u|e]; cbn in *; [rewrite Hs in *; by apply requested_applied|].
  destruct e; try (destruct Ho as [-> ->]; done).
  - destruct Ho as (m1 & Hm & -> & ->). rewrite Hs in *. split; [by apply rolled_back_reads|done].
  - destruct Ho as (m1 & Hm & -> & ->). done.
Qed.
End outcomes.

(** The two ways to reload. *)
Lemma wp_load m l s : has_files s m l → wp load (λ s' r, match r with Ok _ => has_files s' m m | Err _ => has_files s' m l end) s.
Proof. by intros [<- <-]. Qed.

Lemma wp_command_reload m l s : has_files s m l →
  wp (syscall RunCommand ;; load) (λ s' r, match r with Ok _ => has_files s' m m | Err _ => has_files s' m l end) s.
Proof. intros H. apply wp_bind, wp_syscall; intros f; [by apply (wp_load m l)|done]. Qed.

Lemma wp_reloadBroker f m l s : has_files s m l →
  wp (reloadBroker f) (λ s' r, match r with Ok _ => has_files s' m m | Err _ => has_files s' m l end) s.
Proof.
  intros H. unfold reloadBroker. destruct (fa_command f); [|by apply wp_command_reload].
  destruct (decide (fa_pid f = "")); [by apply wp_fail|]. unfold signalReload. apply wp_bind, wp_syscall; intros g; [|done].
  apply wp_bind. unfold get, wp at 1. cbn [fst snd]. destruct (fs_files _ !! _) as [data|]; [|by apply wp_fail].
  destruct (atoi _); [|by apply wp_fail]. apply wp_bind, wp_syscall; intros g'; [by apply (wp_load m l)|done].
Qed.

(** ** Without faults every step succeeds *)
Definition calm (s : fs) : Prop := fs_faults s = [].
Definition succeeds {E A} (m : io fs E A) (s : fs) : Prop := ∃ s' a, m s = (s', Ok a) ∧ calm s'.

Lemma succeeds_bind {E A B} (m : io fs E A) (k : A → io fs E B) s s' a :
  m s = (s', Ok a) → succeeds (k a) s' → succeeds (m ≫= k) s.
Proof. intros Hm (s2 & b & Hk & Hc). exists s2, b. unfold mbind, io_bind. by rewrite Hm. Qed.

Lemma syscall_calm c s : calm s → syscall c s = (s, Ok tt).
Proof. unfold calm, syscall. by intros ->. Qed.

Lemma writeStage_calm p c s : calm s → ∃ s', writeStage p c s = (s', Ok (fs_next s)) ∧ calm s'.
Proof. destruct s as [files temps next loaded faults]. unfold calm. cbn. intros ->. by eexists. Qed.

Lemma commitStage_calm t p c s : calm s → fs_temps s !! t = Some c →
  commitStage t p s = (set_files (set_temps s (delete t (fs_temps s))) (<[p := c]> (fs_files s)), Ok tt).
Proof.
  intros Hc Ht. unfold commitStage, cleanup, mbind, io_bind. rewrite (syscall_calm _ _ Hc). unfold rename. by rewrite Ht.
Qed.

Lemma stage_acl_calm fl ts s : calm s → succeeds (stage_acl ts fl) s.
Proof.
  revert ts s. induction fl as [|f fl IH]; intros ts s Hc; cbn [stage_acl]; [by exists s, ts|].
  destruct (writeStage_calm (af_path f) (af_body f) s Hc) as (s1 & Hw & Hc1).
  eapply succeeds_bind; [eapply cleanup_ok; exact Hw|]. by apply IH.
Qed.

Lemma commit_acl_calm pt fl ts s : calm s → Forall2 (λ f t, fs_temps s !! t = Some (af_body f)) fl ts → NoDup ts →
  succeeds (commit_acl pt fl ts) s.
Proof.
  revert ts s. induction fl as [|f fl IH]; intros ts s Hc Hst Hnd.
  { apply Forall2_nil_inv_l in Hst as ->. by exists s, tt. }
  apply Forall2_cons_inv_l in Hst as (t & ts' & Hf & Hst & ->). apply NoDup_cons in Hnd as [Ht Hnd]. cbn [commit_acl].
  eapply succeeds_bind; [unfold cleanup; by rewrite (commitStage_calm _ _ _ _ Hc Hf)|]. apply IH; [done| |done].
  apply Forall2_same_length_lookup. apply Forall2_same_length_lookup in Hst as [Hlen Hst]. split; [done|].
  intros i g u Hg Hu. cbn. rewrite lookup_delete_ne; [by eapply Hst|]. intros ->. apply Ht. by eapply list_elem_of_lookup_2.
Qed.

Lemma remove_all_calm fl s : calm s → succeeds (for_each (λ f, remove_file (af_path f)) fl) s.
Proof.
  revert s. induction fl as [|f fl IH]; intros s Hc; cbn [for_each]; [by exists s, tt|].
  eapply succeeds_bind; [unfold remove_file, mbind, io_bind; by rewrite (syscall_calm _ _ Hc)|]. by apply IH.
Qed.

Lemma guarded_ok ap pp req stage (m : io fs cause unit) s s' u :
  m s = (s', Ok u) → guarded ap pp req stage m s = (s', Ok tt).
Proof. intros H. unfold guarded, attempt, mbind, io_bind. by rewrite H. Qed.

Lemma apply_stages_calm ap pp stage reload req s :
  calm s → (∀ s, calm s → succeeds reload s) → succeeds (apply_stages ap pp stage reload req) s.
Proof.
  intros Hc Hr. unfold apply_stages. destruct (stage_acl_calm (request_files ap req) [] s Hc) as (s1 & ts & Hst & Hc1).
  eapply succeeds_bind; [eapply wrap_ok; exact Hst|].
  assert (staged_as s1 (request_files ap req) ts) as [Hstaged Hnd].
  { pose proof (wp_stage_acl (request_files ap req) [] [] (fs_files s) (fs_loaded s)
      (λ s' r, match r with Ok ts' => staged_as s' (request_files ap req) ts' | Err _ => True end) s) as H.
    unfold wp in H. rewrite Hst in H. apply H; try done. by split; constructor. }
  destruct (writeStage_calm pp (rq_passwd_body req) s1 Hc1) as (s2 & Hw & Hc2).
  eapply succeeds_bind; [eapply wrap_ok, cleanup_ok; exact Hw|].
  assert (only_temp (fs_next s1) s1 s2 ∧ fs_temps s2 !! fs_next s1 = Some (rq_passwd_body req)) as [Ho Hpt].
  { pose proof (wp_writeStage pp (rq_passwd_body req)
      (λ s' r, match r with Ok _ => only_temp (fs_next s1) s1 s' ∧ fs_temps s' !! fs_next s1 = Some (rq_passwd_body req) | Err _ => True end) s1) as H.
    unfold wp in H. rewrite Hw in H. by apply H. }
  assert (Forall2 (λ f t, fs_temps s2 !! t = Some (af_body f)) (request_files ap req) ts) as Hst2.
  { eapply Forall2_impl; [exact Hstaged|]. intros f t [Hf Hlt]. destruct Ho as (_ & _ & _ & Ho). rewrite Ho by lia. done. }
  destruct (commit_acl_calm (fs_next s1) _ _ _ Hc2 Hst2 Hnd) as (s3 & u & Hcm & Hc3).
  eapply succeeds_bind; [by eapply guarded_ok|].
  assert (fs_temps s3 !! fs_next s1 = Some (rq_passwd_body req)) as Hpt3.
  { pose proof (wp_commit_acl (fs_next s1) (request_files ap req) ts (fs_files s2) (fs_loaded s2) (rq_passwd_body req)
      (λ s' r, match r with Ok _ => fs_temps s' !! fs_next s1 = Some (rq_passwd_body req) | Err _ => True end) s2) as H.
    unfold wp in H. rewrite Hcm in H. apply H; try done. intros Hin. apply (staged_lt s1 _ _ _ (conj Hstaged Hnd)) in Hin. lia. }
  eapply succeeds_bind; [eapply guarded_ok; by apply commitStage_calm|].
  set (s4 := set_files (set_temps s3 (delete (fs_next s1) (fs_temps s3))) (<[pp := rq_passwd_body req]> (fs_files s3))).
  destruct (remove_all_calm (rq_removed req) s4 Hc3) as (s5 & u5 & Hrm & Hc5).
  eapply succeeds_bind; [by eapply guarded_ok|].
  destruct (Hr s5 Hc5) as (s6 & u6 & Hrl & Hc6). exists s6, tt. split; [by eapply guarded_ok|done].
Qed.

Lemma check_context_calm s : calm s → check_context s = (s, Ok tt).
Proof. intros Hc. unfold check_context, wrap. by rewrite (syscall_calm _ _ Hc). Qed.

Lemma command_reload_calm s : calm s → succeeds (syscall RunCommand ;; load) s.
Proof.
  intros Hc. eapply succeeds_bind; [by apply syscall_calm|]. by eexists _, _.
Qed.

Lemma wp_check_context {A} (k : io fs apply_error A) (Q : fs → result apply_error A → Prop) s :
  (∀ f, wp k Q (set_faults s f)) → (∀ f, Q (set_faults s f) (Err Cancelled)) → wp (check_context ;; k) Q s.
Proof. intros Hk HQ. apply wp_bind, wp_wrap, wp_syscall; intros f; [apply Hk|apply HQ]. Qed.

Lemma FileApply_outcome f req s :
  wp (FileApply f req) (outcome (fa_acl f) (fa_passwd f) req (fs_files s) (fs_loaded s)) s.
Proof.
  apply wp_check_context; intros g; [|done]. destruct (decide _); [by apply wp_fail|].
  apply wp_apply_stages; [intros m l s'; apply wp_reloadBroker|done].
Qed.

Lemma DockerApply_outcome d req s :
  wp (DockerApply d req) (outcome (dk_acl d) (dk_passwd d) req (fs_files s) (fs_loaded s)) s.
Proof.
  unfold DockerApply. destruct (decide _); [by apply wp_fail|]. apply wp_check_context; intros g; [|done].
  apply wp_apply_stages; [intros m l s'; apply wp_command_reload|done].
Qed.

(** ** Properties *)

(** [C4] An apply is a transaction, for both appliers and every sequence of
    faults: when it succeeds every file holds its new content, the retired files
    are gone and the broker runs on what is on disk; when it fails every file
    reads as before and the broker still runs on what it had loaded, unless the
    restore failed too, which the error says, and then only the files of the
    request are concerned.  Without faults, and with a way to reload, it
    succeeds. *)
Theorem Apply_transactional file docker req s :
  (faithful (fa_acl file) (fa_passwd file) req (fs_files s) →
     let '(s', r) := FileApply file req s in
     transactional (fa_acl file) (fa_passwd file) req s s' r
     ∧ (fs_faults s = [] → fa_command file ≠ [] → r = Ok tt))
  ∧ (faithful (dk_acl docker) (dk_passwd docker) req (fs_files s) →
     let '(s', r) := DockerApply docker req s in
     transactional (dk_acl docker) (dk_passwd docker) req s s' r
     ∧ (fs_faults s = [] → dk_container docker ≠ "" → r = Ok tt)).
Proof.
  split; intros Hf.
  - pose proof (FileApply_outcome file req s) as H. unfold wp in H. destruct (FileApply file req s) as [s' r] eqn:E.
    split; [by eapply outcome_transactional|]. intros Hc Hcmd. unfold FileApply in E.
    rewrite (bind_ok _ _ _ _ _ (check_context_calm _ Hc)), decide_False in E by naive_solver.
    destruct (apply_stages_calm (fa_acl file) (fa_passwd file) "signal reload" (reloadBroker file) req s Hc)
      as (s1 & [] & Ha & _); [|by rewrite Ha in E; injection E].
    unfold reloadBroker. destruct (fa_command file); [done|]. apply command_reload_calm.
  - pose proof (DockerApply_outcome docker req s) as H. unfold wp in H. destruct (DockerApply docker req s) as [s' r] eqn:E.
    split; [by eapply outcome_transactional|]. intros Hc Hcmd. unfold DockerApply in E.
    rewrite decide_False in E by done. rewrite (bind_ok _ _ _ _ _ (check_context_calm _ Hc)) in E.
    destruct (apply_stages_calm (dk_acl docker) (dk_passwd docker) "docker exec" (syscall RunCommand ;; load) req s Hc)
      as (s1 & [] & Ha & _); [apply command_reload_calm|by rewrite Ha in E; injection E].
Qed.

(** ** Example *)
Definition example_applier : FileApplier := mkFileApplier "/m/acl" "/m/passwd" "" ["reload"].
Definition example_docker : DockerApplier := mkDockerApplier "/m/acl" "/m/passwd" "broker".
Definition example_request : ApplyRequest :=
  mkApplyRequest "topic read a" "old" [mkACLFile "/m/acl.one" "topic read b" ""] [mkACLFile "/m/acl.two" "" "gone"] "u:new" "u:old".
(** [n] system calls that succeed, then one that fails. *)
Definition example_fs (n : nat) : fs :=
  let files := list_to_map [("/m/acl", "old"); ("/m/acl.two", "gone"); ("/m/passwd", "u:old")] in
  mkFs files ∅ 0 files (replicate n false ++ [true]).

Lemma example_faithful n : faithful "/m/acl" "/m/passwd" example_request (fs_files (example_fs n)).
Proof. constructor; [refine (bool_decide_unpack _ _); by vm_compute|repeat constructor|done]. Qed.

(** The reload fails after the files are in place, and everything is restored. *)
Lemma Apply_transactional_witness :
  (FileApply example_applier example_request (example_fs 20)).2 = Err (ErrApplyRestored "signal reload" RunCommand)
  ∧ (∀ p, reads (fs_files (FileApply example_applier example_request (example_fs 20)).1) p = reads (fs_files (example_fs 20)) p)
  ∧ (FileApply example_applier example_request (set_faults (example_fs 20) [])).2 = Ok tt.
Proof.
  pose proof (proj1 (Apply_transactional example_applier example_docker example_request (example_fs 20)) (example_faithful 20)) as H.
  pose proof (proj1 (Apply_transactional example_applier example_docker example_request (set_faults (example_fs 20) []))
    (example_faithful 20)) as H'.
  assert ((FileApply example_applier example_request (example_fs 20)).2 = Err (ErrApplyRestored "signal reload" RunCommand)) as E
    by by vm_compute.
  destruct (FileApply example_applier example_request (example_fs 20)) as [s' r]. cbn in E |- *. subst r.
  destruct (FileApply _ _ (set_faults _ _)) as [s2 r2]. split; [done|]. split; [apply H|by apply H'].
Defined.
