(* ===== verification/ListenerWriter.v ===== *)
(** * [internal/listener/writer]: the listeners in mosquitto.conf

    [writer.go] and [per_listener.go] over the file system of [Applier].  The
    writer reads the file, drops the listeners of its items, resolves the access
    control of the listeners, and writes the file with the rendered listeners
    behind the rest.  [stat_dir] is what [os.Stat] answers for a directory:
    nothing, or whether the path is one.  The errors keep the sentinel. *)
From S2P Require Import Prelude IO Unicode GoStrings GoStrconv GoPath Acl AclDoc Conf Listeners Applier.

Record Rendered := mkRendered { rd_path : string; rd_head : string; rd_listeners : string; rd_full : string }.
Inductive writer_error :=
  | ErrConfigPathEmpty | StatDirFailed | ErrConfigPathNotDirectory | ReadConfFailed | ParseConfFailed | RenderConfFailed
  | ErrSpecRender (e : spec_error) | WriteConfFailed (c : cause) | RemoveConfFailed
  | ErrPerListenerSettingsDisabled | ErrACLFileNotWritten (id : string) | ErrDefaultListenerScope (id : string).

(** ** [renderHead] *)
Definition is_comment (it : Item) : bool := bool_decide (it_kind it = ItemComment).
(** [before] is what precedes the item, the nearest first. *)
Definition precedesListener (before : list Item) : bool :=
  match filter (λ it, is_comment it = false) before with it :: _ => bool_decide (it_key it = "listener") | [] => false end.
Fixpoint filter_items (before : list Item) (skipBlock skipOptions : bool) (items : list Item) : list Item :=
  match items with
  | [] => []
  | it :: rest =>
      let go := filter_items (it :: before) in
      match it_kind it with
      | ItemBlockOpen => if decide (it_key it = "listener") then go true skipOptions rest else it :: go false skipOptions rest
      | ItemBlockClose => if skipBlock then go false skipOptions rest else it :: go skipBlock skipOptions rest
      | ItemDirective =>
          if skipBlock then go skipBlock skipOptions rest
          else if skipOptions && (0 <? it_indent it)%nat then go skipBlock skipOptions rest
          else if decide (it_key it = "listener") then go skipBlock true rest
          else if decide (it_key it = "protocol") then
            if precedesListener before then go skipBlock false rest else it :: go skipBlock false rest
          else it :: go skipBlock false rest
      | ItemComment => it :: go skipBlock skipOptions rest
      end
  end.
Definition filterListenerItems (items : list Item) : list Item := filter_items [] false false items.
Definition trim_nl (s : string) : string := trim_right_bytes is_nl s.
Definition head_of (body path : string) : result writer_error string :=
  if decide (body = "") then Ok ""
  else match Parse body path with
  | Err _ => Err ParseConfFailed
  | Ok parsed => match RenderConf (mkFile (filterListenerItems (f_items parsed)) (f_path parsed)) with Ok out => Ok (trim_nl out) | Err _ => Err RenderConfFailed end
  end.
Definition composeBody (head listenersBlock : string) : string :=
  let head := trim_nl head in
  let listenersBlock := trim_nl listenersBlock in
  if decide (head = "") then listenersBlock +:+ nl
  else if decide (listenersBlock = "") then head +:+ nl
  else head +:+ nl +:+ nl +:+ listenersBlock +:+ nl.

(** ** [per_listener.go] *)
Definition perListenerSettingsDirective : string := "per_listener_settings".
Definition aclFileOption : string := "acl_file".
Definition passwordFileOption : string := "password_file".
Definition securityDirectives : list string := ["allow_anonymous"; "password_file"; "acl_file"; "psk_file"; "auth_plugin"].
Definition defaultListenerPort : Z := 1883.

Definition acl_option (spec : ListenerSpec) : string := trim_space (default "" (ls_options spec !! aclFileOption)).
Fixpoint dropDefaultListenerSpec (specs : list ListenerSpec) : result writer_error (list ListenerSpec) :=
  match specs with
  | [] => Ok []
  | spec :: rest =>
      if decide (ls_port spec ≠ defaultListenerPort) then out ← dropDefaultListenerSpec rest; Ok (spec :: out)
      else if decide (acl_option spec ≠ "") then Err (ErrDefaultListenerScope (ls_id spec))
      else dropDefaultListenerSpec rest
  end.
Definition specsDeclareACLFile (specs : list ListenerSpec) : bool := existsb (λ spec, bool_decide (acl_option spec ≠ "")) specs.

(** The first value of each wanted directive of the head. *)
Definition global_step (wanted : list string) (values : gmap string string) (it : Item) : gmap string string :=
  if decide (it_kind it = ItemDirective ∧ it_key it ∈ wanted ∧ values !! it_key it = None) then
    match it_values it with [] => values | v :: _ => <[it_key it := v]> values end
  else values.
Definition globalDirectiveValues (head : string) (wanted : list string) : gmap string string :=
  if decide (trim_space head = "") then ∅
  else match Parse head "" with Ok parsed => foldl (global_step wanted) ∅ (f_items parsed) | Err _ => ∅ end.

Definition inherit_option (values options : gmap string string) (key : string) : gmap string string :=
  if decide (is_Some (options !! key)) then options
  else match values !! key with Some value => if decide (value = "") then options else <[key := value]> options | None => options end.
Definition inheritGlobalAccessControl (specs : list ListenerSpec) (head : string) : list ListenerSpec :=
  let values := globalDirectiveValues head [passwordFileOption; aclFileOption] in
  if decide (values = ∅) then specs
  else (λ spec, set_options (foldl (inherit_option values) (ls_options spec) [passwordFileOption; aclFileOption]) spec) <$> specs.

Definition is_security (it : Item) : Prop := it_kind it = ItemDirective ∧ it_key it ∈ securityDirectives.
#[export] Instance is_security_dec it : Decision (is_security it).
Proof. unfold is_security. apply _. Defined.
Definition is_per_listener (it : Item) : Prop := it_kind it = ItemDirective ∧ it_key it = perListenerSettingsDirective.
#[export] Instance is_per_listener_dec it : Decision (is_per_listener it).
Proof. unfold is_per_listener. apply _. Defined.
Definition per_listener_item : Item := mkItem ItemDirective perListenerSettingsDirective ["true"] "" (-1) 0.
Fixpoint insertPerListenerSettings (items : list Item) : list Item :=
  match items with
  | [] => [per_listener_item]
  | it :: rest => if decide (is_security it) then per_listener_item :: it :: rest else it :: insertPerListenerSettings rest
  end.
Definition render_head (items : list Item) : result writer_error string :=
  match RenderConf (mkFile items "") with Ok out => Ok (trim_nl out) | Err _ => Err RenderConfFailed end.
Definition movePerListenerSettings (items : list Item) : result writer_error string :=
  render_head (insertPerListenerSettings (filter (λ it, ¬ is_per_listener it) items)).
Definition ensurePerListenerSettings (head : string) : result writer_error string :=
  if decide (trim_space head = "") then Ok "per_listener_settings true"
  else match Parse head "" with
  | Err _ => Err ParseConfFailed
  | Ok parsed =>
      match filter is_per_listener (f_items parsed) with
      | [] => render_head (insertPerListenerSettings (f_items parsed))
      | it :: _ =>
          match it_values it with
          | [] => Err ErrPerListenerSettingsDisabled
          | v :: _ => if decide (to_lower (trim_space v) ∈ ["true"; "yes"; "on"; "1"]) then movePerListenerSettings (f_items parsed) else Err ErrPerListenerSettingsDisabled
          end
      end
  end.

Definition global_acl_file (head : string) : string := trim_space (default "" (globalDirectiveValues head [aclFileOption] !! aclFileOption)).
Definition resolve_spec (globalACLFile : string) (spec : ListenerSpec) : ListenerSpec :=
  let '(brokerPath, managed) := BrokerACLPath (acl_option spec) globalACLFile (ls_id spec) in
  if managed : bool then set_options (<[aclFileOption := brokerPath]> (ls_options spec)) spec else spec.
Definition resolveBrokerACLPaths (specs : list ListenerSpec) (head : string) : list ListenerSpec :=
  let globalACLFile := global_acl_file head in
  if decide (globalACLFile = "") then specs else resolve_spec globalACLFile <$> specs.

(** ** The operations *)
Section writer.
Context (print : Z → bool) (stat_dir : string → option bool).
Local Abbreviation op A := (io fs writer_error A).
Definition of_result {A} (r : result writer_error A) : op A := match r with Ok a => mret a | Err e => fail e end.

(** [os.Stat] of a file; a directory is there too. *)
Definition stat_path (path : string) : io fs cause unit :=
  syscall StatFile ;; s ← get;
  if decide (is_Some (fs_files s !! path) ∨ is_Some (stat_dir path)) then mret tt else fail StatFile.
(** The paths whose file the deploy has to write first, with their listeners. *)
Definition required_files (specs : list ListenerSpec) (head : string) : list (string * string) :=
  let globalACLFile := global_acl_file head in
  if decide (globalACLFile = "") then []
  else omap (λ spec, if decide (acl_option spec = "") then None
    else if (BrokerACLPath (acl_option spec) globalACLFile (ls_id spec)).2 then Some (ls_id spec, acl_option spec) else None) specs.
Definition requireWrittenACLFiles (specs : list ListenerSpec) (head : string) : op unit :=
  for_each (λ x : string * string, wrap (λ _, ErrACLFileNotWritten x.1) (stat_path x.2)) (required_files specs head).

(** The bytes of the file, nothing when it does not exist. *)
Definition read_conf_file (path : string) : op (option string) :=
  wrap (λ _, ReadConfFailed) (syscall ReadFile) ;; s ← get; mret (fs_files s !! path).
Definition renderHead (path : string) : op string :=
  body ← read_conf_file path; match body with None => mret "" | Some body => of_result (head_of body path) end.
Definition Snapshot (path : string) : op string :=
  if decide (trim_space path = "") then fail ErrConfigPathEmpty
  else body ← read_conf_file path; mret (default "" body).
Definition RestoreConf (path snapshot : string) : op unit :=
  if decide (trim_space path = "") then fail ErrConfigPathEmpty
  else if decide (snapshot = "") then wrap (λ _, RemoveConfFailed) (remove_file path)
  else wrap WriteConfFailed (AtomicWriteConf path snapshot).
Definition check_dir (path : string) : op unit :=
  wrap (λ _, StatDirFailed) (syscall StatFile) ;;
  match stat_dir (dir path) with None => fail StatDirFailed | Some false => fail ErrConfigPathNotDirectory | Some true => mret tt end.
(** The head and the specifications that are rendered. *)
Definition scoped_access (specs : list ListenerSpec) (head : string) : op (string * list ListenerSpec) :=
  if specsDeclareACLFile specs then
    head ← of_result (ensurePerListenerSettings head);
    specs ← of_result (dropDefaultListenerSpec specs);
    let specs := inheritGlobalAccessControl specs head in
    requireWrittenACLFiles specs head ;;
    mret (head, resolveBrokerACLPaths specs head)
  else mret (head, specs).
Definition render_specs (specs : list ListenerSpec) : result writer_error string :=
  match RenderAll print specs with Ok text => Ok text | Err e => Err (ErrSpecRender e) end.
Definition WriteListeners (path : string) (specs : list ListenerSpec) : op Rendered :=
  if decide (trim_space path = "") then fail ErrConfigPathEmpty
  else
    check_dir path ;;
    head ← renderHead path;
    '(head, specs) ← scoped_access specs head;
    rendered ← of_result (render_specs specs);
    let full := composeBody head rendered in
    wrap WriteConfFailed (AtomicWriteConf path full) ;;
    mret (mkRendered path head rendered full).
End writer.
