(* ===== verification/ListenerWriterProofs.v ===== *)
(** * The writer of the listeners is idempotent

    The head that is written back holds no listener, so that reading the written
    file gives the head again: the second write of the same listeners gives the
    same bytes. *)
From S2P Require Import Prelude IO Unicode GoStrings GoStrconv GoQuote GoNet GoPath Acl AclDoc Conf ConfLines Listeners ListenerText Applier ListenerWriter.

(** ** Items without listeners *)
Definition quiet (it : Item) : Prop := it_kind it = ItemComment ∨ it_key it ≠ "listener".
Lemma precedes_quiet before : Forall quiet before → precedesListener before = false.
Proof.
  intros Hb. unfold precedesListener. destruct (filter _ before) as [|it l] eqn:E; [done|].
  assert (it ∈ filter (λ it, is_comment it = false) before) as [Hc Hin]%list_elem_of_filter by (rewrite E; by left).
  rewrite Forall_forall in Hb. destruct (Hb it Hin) as [Hk|Hk]; [|by apply bool_decide_eq_false_2]. unfold is_comment in Hc. by rewrite bool_decide_eq_true_2 in Hc.
Qed.
Lemma filter_quiet items before rest : Forall quiet items → Forall quiet before →
  filter_items before false false (items ++ rest) = items ++ filter_items (reverse items ++ before) false false rest.
Proof.
  intros Hi. revert before. induction Hi as [|it items Hit Hi IH]; intros before Hb; [done|]. cbn [app filter_items].
  rewrite reverse_cons, <-app_assoc. cbn [app]. rewrite <-IH by by constructor. pose proof (precedes_quiet before Hb) as Hp.
  assert (it_kind it ≠ ItemComment → it_key it ≠ "listener") as Hk by (destruct Hit; [done|done]). destruct (it_kind it); [done| |by rewrite decide_False by by apply Hk|done].
  cbn [andb]. rewrite decide_False by by apply Hk. destruct (decide _); [by rewrite Hp|done].
Qed.
Lemma filter_is_quiet before sb so items : Forall (λ it, it_kind it = ItemBlockClose → it_key it = "") items → Forall quiet (filter_items before sb so items).
Proof.
  intros Hi. revert before sb so. induction Hi as [|it items Hit Hi IH]; intros before sb so; [constructor|]. cbn [filter_items]. unfold quiet in *.
  destruct (it_kind it) eqn:Hk; [constructor; [by left|done]| | |].
  - destruct sb; [done|]. destruct (_ && _); [done|]. destruct (decide _); [done|]. destruct (decide _); [destruct (precedesListener _); [done|]|];
      constructor; [by right|done|by right|done].
  - destruct (decide _); [done|]. constructor; [by right|done].
  - destruct sb; [done|]. constructor; [right; by rewrite Hit|done].
Qed.
Lemma filter_clear before sb so items : filter_items (clear_line <$> before) sb so (clear_line <$> items) = clear_line <$> filter_items before sb so items.
Proof.
  revert before sb so. induction items as [|it items IH]; intros before sb so; [done|]. cbn [fmap list_fmap filter_items].
  assert (precedesListener (clear_line <$> before) = precedesListener before) as Hp.
  { unfold precedesListener. clear. induction before as [|x before IH]; [done|]. cbn [fmap list_fmap]. rewrite !filter_cons. change (is_comment (clear_line x)) with (is_comment x).
    by destruct (decide (is_comment x = false)). }
  rewrite Hp. change (it_kind (clear_line it)) with (it_kind it). change (it_key (clear_line it)) with (it_key it). change (it_indent (clear_line it)) with (it_indent it).
  specialize (IH (it :: before)). cbn [fmap list_fmap] in IH. fold (clear_line <$> before) in *. fold (clear_line <$> items) in *.
  repeat case_match; cbn [fmap list_fmap]; by rewrite ?IH.
Qed.

(** The kept items are those of a part of the lines. *)
Lemma filter_lines lines before inb sb so : (sb = true → inb = true) →
  ∃ ks, Forall (λ l, l ∈ lines) ks ∧ filter_items before sb so (read_lines inb lines) = read_lines (inb && negb sb) ks
    ∧ (lines_end inb lines = false → lines_end (inb && negb sb) ks = false).
Proof.
  revert before inb sb so. induction lines as [|l lines IH]; intros before inb sb so Hsb.
  { exists []. split_and!; [constructor|done|]. cbn. by intros ->. }
  cbn [read_lines filter_items lines_end]. destruct (line_item_cases inb l) as (_ & Hstep & Hcase & _). set (it := line_item inb l) in *.
  assert (∀ so' sb', (sb' = true → line_end inb l = true) → line_end inb l && negb sb' = inb && negb sb →
    ∃ ks, Forall (λ x, x ∈ l :: lines) ks ∧ filter_items (it :: before) sb' so' (read_lines (line_end inb l) lines) = read_lines (inb && negb sb) ks
      ∧ (lines_end (line_end inb l) lines = false → lines_end (inb && negb sb) ks = false)) as Hdrop.
  { intros so' sb' H1 H2. destruct (IH (it :: before) (line_end inb l) sb' so' H1) as (ks & Hin & Hf & He). exists ks. rewrite H2 in Hf, He. split_and!; [|done..].
    eapply Forall_impl; [exact Hin|]. intros x Hx. by right. }
  assert (∀ so' sb' b, (sb' = true → line_end inb l = true) → line_item (inb && negb sb) l = it → b = inb && negb sb → line_end b l = line_end inb l && negb sb' →
    ∃ ks, Forall (λ x, x ∈ l :: lines) ks ∧ it :: filter_items (it :: before) sb' so' (read_lines (line_end inb l) lines) = read_lines b ks
      ∧ (lines_end (line_end inb l) lines = false → lines_end b ks = false)) as Hkeep.
  { intros so' sb' b H1 H2 -> H3. destruct (IH (it :: before) (line_end inb l) sb' so' H1) as (ks & Hin & Hf & He). exists (l :: ks).
    rewrite <-H3 in Hf, He. split_and!; [|cbn [read_lines]; by rewrite H2, Hf|done]. constructor; [by left|]. eapply Forall_impl; [exact Hin|]. intros x Hx. by right. }
  unfold block_step in Hstep. destruct (it_kind it) eqn:Hk.
  - injection Hstep as Hend. apply Hkeep; [by rewrite <-Hend|apply Hcase|done|]. unfold line_end at 1. rewrite Hcase. unfold block_step. rewrite Hk. by rewrite <-Hend.
  - injection Hstep as Hend. destruct sb; [apply Hdrop; [by rewrite <-Hend|by rewrite <-Hend]|].
    assert (∀ so', ∃ ks, Forall (λ x, x ∈ l :: lines) ks ∧ it :: filter_items (it :: before) false so' (read_lines (line_end inb l) lines) = read_lines (inb && negb false) ks
      ∧ (lines_end (line_end inb l) lines = false → lines_end (inb && negb false) ks = false)) as Hkeep'.
    { intros so'. apply Hkeep; [done|cbn [negb]; by rewrite andb_true_r|done|cbn [negb]; by rewrite !andb_true_r]. }
    assert (∀ so', ∃ ks, Forall (λ x, x ∈ l :: lines) ks ∧ filter_items (it :: before) false so' (read_lines (line_end inb l) lines) = read_lines (inb && negb false) ks
      ∧ (lines_end (line_end inb l) lines = false → lines_end (inb && negb false) ks = false)) as Hdrop' by (intros so'; apply Hdrop; [done|by rewrite <-Hend]).
    destruct (so && _); [by apply Hdrop'|]. destruct (decide _); [by apply Hdrop'|]. destruct (decide _); [destruct (precedesListener _); [by apply Hdrop'|by apply Hkeep']|by apply Hkeep'].
  - subst inb. injection Hstep as Hend. destruct sb; [by specialize (Hsb eq_refl)|]. destruct (decide _).
    + apply Hdrop; [by rewrite <-Hend|by rewrite <-Hend].
    + apply Hkeep; [done|done|done|]. cbn [andb negb]. by rewrite andb_true_r.
  - destruct Hcase as [-> _]. injection Hstep as Hend. destruct sb.
    + apply Hdrop; [done|by rewrite <-Hend].
    + apply Hkeep; [done|done|done|]. cbn [andb negb]. by rewrite andb_true_r.
Qed.

(** ** Texts without blank lines at the end *)
Fixpoint strip (lines : list string) : list string :=
  match lines with
  | [] => []
  | l :: rest => match strip rest with [] => if decide (l = "") then [] else [l] | r => l :: r end
  end.
Lemma strip_spec lines : ∃ n, lines = strip lines ++ replicate n "".
Proof.
  induction lines as [|l lines [n IH]]; [by exists 0|]. cbn [strip]. destruct (strip lines) as [|x r] eqn:E.
  - destruct (decide (l = "")) as [->|]; [exists (S n); by rewrite IH|]. exists n. by rewrite IH.
  - exists n. by rewrite IH at 1.
Qed.
Lemma strip_last lines : last (strip lines) ≠ Some "".
Proof.
  induction lines as [|l lines IH]; [done|]. cbn [strip]. destruct (strip lines) as [|x r] eqn:E; [|by rewrite last_cons_cons].
  destruct (decide (l = "")); [done|]. cbn. congruence.
Qed.
Lemma strip_blanks lines n : strip (lines ++ replicate n "") = strip lines.
Proof. induction lines as [|l lines IH]; [induction n as [|n IH]; [done|]; cbn in *; by rewrite IH|]. cbn [app strip]. by rewrite IH. Qed.
Lemma strip_id lines : last lines ≠ Some "" → strip lines = lines.
Proof.
  induction lines as [|l lines IH]; [done|]. intros Hl. cbn [strip]. destruct lines as [|x lines].
  - cbn in *. rewrite decide_False; [done|]. congruence.
  - rewrite last_cons_cons in Hl. rewrite IH by done. done.
Qed.
Lemma unlines_app a b : unlines (a ++ b) = unlines a +:+ unlines b.
Proof.
  induction a as [|x a IH]; [done|]. change (unlines ((x :: a) ++ b)) with (x +:+ nl +:+ unlines (a ++ b)). rewrite IH.
  change (unlines (x :: a)) with (x +:+ nl +:+ unlines a). by rewrite !app_assoc_string.
Qed.
Lemma trim_nl_unlines lines : Forall (λ l, free_of nl_char l = true) lines → trim_nl (unlines lines) = join nl (strip lines).
Proof.
  intros Hf. destruct (strip_spec lines) as [n Hn]. rewrite Hn at 1. assert (Forall (λ l, free_of nl_char l = true) (strip lines)) as Hfs by (rewrite Hn in Hf; by apply Forall_app in Hf as [? _]).
  assert (all_bytes is_nl (unlines (replicate n "")) = true) as Hb by (clear; induction n as [|n IH]; [done|exact IH]).
  rewrite unlines_app. unfold trim_nl. rewrite trim_right_bytes_suffix by done. pose proof (strip_last lines) as Hl. destruct (strip lines) as [|x r] eqn:E; [done|].
  rewrite unlines_join by done. rewrite trim_right_bytes_suffix by done. clear -Hfs Hl. revert x Hl Hfs. induction r as [|y r IH]; intros x Hl Hfs.
  - cbn [join]. cbn in Hl. apply Forall_cons in Hfs as [Hfs _]. rewrite <-(trim_right_bytes_suffix is_nl x nl) by done. by apply trim_nl_text.
  - rewrite last_cons_cons in Hl. apply Forall_cons in Hfs as [Hx Hfs]. specialize (IH y Hl Hfs). rewrite join_cons by done.
    assert (join nl (y :: r) ≠ "") as Hne.
    { destruct r; [|rewrite join_cons by done; intros E; apply (f_equal String.length) in E; rewrite !length_app_string in E; cbn in E; lia].
      cbn in *. congruence. }
    assert (∀ a s, trim_right_bytes is_nl s = s → s ≠ "" → trim_right_bytes is_nl (a +:+ s) = a +:+ s) as Hpre.
    { clear. intros a s Hs Hne. assert (all_bytes is_nl s = false) as Hall by (destruct s as [|c s]; [done|]; cbn [trim_right_bytes] in Hs; by destruct (all_bytes is_nl (String c s))).
      induction a as [|c a IH]; [done|]. rewrite app_cons_string. cbn [trim_right_bytes]. rewrite <-app_cons_string, all_bytes_app, Hall, andb_false_r. by rewrite IH. }
    apply Hpre; [|done]. by apply Hpre.
Qed.
Lemma join_nonempty lines : lines ≠ [] → last lines ≠ Some "" → join nl lines ≠ "".
Proof.
  destruct lines as [|l [|x r]]; [done|cbn; congruence|]. intros _ _. rewrite join_cons by done. intros E.
  apply (f_equal String.length) in E. rewrite !length_app_string in E. cbn in E. lia.
Qed.
Lemma trim_nl_join lines : Forall (λ l, free_of nl_char l = true) lines → last lines ≠ Some "" → trim_nl (join nl lines) = join nl lines.
Proof.
  intros Hf Hl. destruct lines as [|l r]; [done|]. pose proof (trim_nl_unlines _ Hf) as H. rewrite strip_id, unlines_join in H by done.
  unfold trim_nl in *. by rewrite trim_right_bytes_suffix in H.
Qed.

(** ** A head: lines without listeners that are read as they are *)
Record clean (hd : list string) : Prop := {
  cl_free : Forall (λ l, free_of nl_char l = true) hd;
  cl_scanned : Forall (λ l, scan_line l = l) hd;
  cl_short : short_lines hd;
  cl_last : last hd ≠ Some "";
  cl_quiet : Forall quiet (read_lines false hd);
  cl_end : lines_end false hd = false
}.
Lemma clean_nil : clean [].
Proof. constructor; try done; constructor. Qed.
Lemma read_scan inb lines : read_lines inb (scan_line <$> lines) = read_lines inb lines ∧ lines_end inb (scan_line <$> lines) = lines_end inb lines.
Proof.
  revert inb. induction lines as [|l lines IH]; intros inb; [done|]. cbn [fmap list_fmap read_lines lines_end]. unfold line_end. rewrite line_item_scan.
  by destruct (IH (default inb (block_step inb (line_item inb l)))) as [-> ->].
Qed.
Lemma blank_lines inb n : lines_end inb (replicate n "") = inb ∧ Forall quiet (read_lines inb (replicate n "")).
Proof. induction n as [|n [IH1 IH2]]; [done|]. by destruct inb; (split; [done|]; constructor; [by left|]). Qed.

(** The lines of items that are rendered and trimmed. *)
Lemma clean_strip lines : Forall (λ l, free_of nl_char l = true) lines → short_lines lines → Forall quiet (read_lines false lines) → lines_end false lines = false →
  clean (strip (scan_line <$> lines)).
Proof.
  intros Hf Hs Hq He. destruct (read_scan false lines) as [Hr1 Hr2]. rewrite <-Hr1 in Hq. rewrite <-Hr2 in He. clear Hr1 Hr2.
  assert (Forall (λ l, free_of nl_char l = true) (scan_line <$> lines)) as Hf' by (apply Forall_fmap; eapply Forall_impl; [exact Hf|]; intros l; apply scan_line_free).
  assert (Forall (λ l, scan_line l = l) (scan_line <$> lines)) as Hsc by (apply Forall_fmap, Forall_forall; intros l _; apply scan_line_idem).
  assert (short_lines (scan_line <$> lines)) as Hs'.
  { apply Forall_fmap. eapply Forall_impl; [exact Hs|]. unfold line_too_long. intros l Hl. cbn. rewrite Z.leb_gt in *. pose proof (length_scan_line l). lia. }
  pose proof (strip_last (scan_line <$> lines)) as Hl. destruct (strip_spec (scan_line <$> lines)) as [n Hn]. set (hd := strip _) in *.
  rewrite Hn in Hf', Hsc, Hs', Hq, He. unfold short_lines in Hs'. rewrite read_lines_app in Hq. rewrite lines_end_app in He.
  apply Forall_app in Hf' as [? _], Hsc as [? _], Hs' as [? _], Hq as [? _]. rewrite (proj1 (blank_lines _ n)) in He. by constructor.
Qed.

Lemma raw_lines_join lines : Forall (λ l, free_of nl_char l = true) lines → last lines ≠ Some "" → raw_lines (join nl lines) = lines.
Proof.
  intros Hf Hl. destruct lines as [|l r]; [done|]. assert (split nl_char (join nl (l :: r)) = l :: r) as Hs by by apply (split_join nl_char).
  unfold raw_lines. rewrite Hs. by rewrite decide_False.
Qed.
Lemma head_of_clean body path h : head_of body path = Ok h → ∃ hd, clean hd ∧ h = join nl hd.
Proof.
  unfold head_of. destruct (decide (body = "")); [intros [= <-]; exists []; by split; [apply clean_nil|]|]. destruct (Parse body path) as [f|] eqn:Hp; [|done].
  apply Parse_lines in Hp as (Hs & He & Hc & _). unfold RenderConf. cbn [f_items].
  destruct (filter_lines (raw_lines body) [] false false false) as (ks & Hin & Hf & Hend); [done|]. cbn [andb negb] in Hf, Hend.
  assert (clear_line <$> filterListenerItems (f_items f) = read_lines false ks) as Hk.
  { unfold filterListenerItems. rewrite <-filter_clear, Hc. exact Hf. }
  assert (Forall (λ l, free_of nl_char l = true) ks) as Hfree.
  { pose proof (raw_lines_free body) as Hr. rewrite !Forall_forall in *. auto. }
  assert (short_lines ks) as Hsk. { unfold short_lines in *. rewrite !Forall_forall in *. auto. }
  rewrite (render_read_lines false ks) by done. intros [= <-]. eexists. split; [|apply trim_nl_unlines, Forall_fmap; eapply Forall_impl; [exact Hfree|]; intros l; apply scan_line_free].
  apply clean_strip; [done|done| |by apply Hend]. rewrite <-Hf. apply filter_is_quiet. clear. generalize false as b. induction (raw_lines body) as [|l ls IH]; intros b; [constructor|].
  cbn [read_lines]. constructor; [|done]. destruct (line_item_cases b l) as (_ & _ & Hk & _). intros E. rewrite E in Hk. apply Hk.
Qed.

(** ** The rendered listeners are dropped again *)
Inductive listed_lines : bool → list string → Prop :=
  | listing_nil b : listed_lines b []
  | listing_blank b ls : listed_lines b ls → listed_lines b ("" :: ls)
  | listing_header b l ls : let it := line_item false l in
      it_kind it = ItemDirective → it_key it = "listener" → it_indent it = 0 → listed_lines true ls → listed_lines b (l :: ls)
  | listing_option l ls : let it := line_item false l in
      it_kind it = ItemDirective → 0 < it_indent it → listed_lines true ls → listed_lines true (l :: ls).
Lemma directive_end l : it_kind (line_item false l) = ItemDirective → line_end false l = false.
Proof. intros Hk. unfold line_end, block_step. by rewrite Hk. Qed.
Lemma listing_dropped b ls : listed_lines b ls → lines_end false ls = false ∧
  ∃ n, ∀ before, filter_items before false b (read_lines false ls) = read_lines false (replicate n "").
Proof.
  induction 1 as [b|b ls _ [He [n Hn]]|b l ls it Hk Hkey Hind _ [He [n Hn]]|l ls it Hk Hind _ [He [n Hn]]].
  - split; [done|]. by exists 0.
  - split; [done|]. exists (S n). intros before. cbn [read_lines replicate]. change (line_item false "") with (comment_item "" 0 0).
    change (line_end false "") with false. cbn [filter_items it_kind comment_item]. by rewrite Hn.
  - cbn [lines_end read_lines]. rewrite directive_end by done. split; [done|]. exists n. intros before. cbn [filter_items]. fold it. rewrite Hk, Hkey, Hind.
    rewrite andb_false_r. rewrite decide_True by done. apply Hn.
  - cbn [lines_end read_lines]. rewrite directive_end by done. split; [done|]. exists n. intros before. cbn [filter_items]. fold it. rewrite Hk.
    rewrite (proj2 (Nat.ltb_lt _ _)) by done. apply Hn.
Qed.

Record rendered_lines (ls : list string) : Prop := {
  rl_free : Forall (λ l, free_of nl_char l = true) ls;
  rl_short : short_lines ls;
  rl_last : ls ≠ [] ∧ last ls ≠ Some "";
  rl_listing : listed_lines false ls
}.
Lemma composed_lines hd ls : clean hd → rendered_lines ls →
  composeBody (join nl hd) (unlines ls) = unlines (match hd with [] => [] | _ => hd ++ [""] end ++ ls).
Proof.
  intros [Hf _ _ Hl _ _] [Hfl _ [Hne Hll] _]. unfold composeBody. rewrite trim_nl_join, trim_nl_unlines, strip_id by done. destruct hd as [|l r].
  - cbn [join]. rewrite decide_True by done. by rewrite <-unlines_join.
  - rewrite decide_False by by apply join_nonempty. rewrite decide_False by by apply join_nonempty. rewrite <-app_assoc.
    rewrite unlines_app. change (unlines ([""] ++ ls)) with (nl +:+ unlines ls). rewrite (unlines_join ls), (unlines_join (l :: r)) by done.
    by rewrite !app_assoc_string.
Qed.
Lemma composed_head hd ls path : clean hd → rendered_lines ls → head_of (composeBody (join nl hd) (unlines ls)) path = Ok (join nl hd).
Proof.
  intros Hc Hr. rewrite composed_lines by done. destruct Hc as [Hf Hsc Hs Hl Hq He]. destruct Hr as [Hfl Hsl [Hne Hll] [Hel [n Hn]]%listing_dropped].
  set (mid := match hd with [] => [] | _ => hd ++ [""] end).
  assert (∃ k, mid = hd ++ replicate k "") as [k Hk] by (unfold mid; destruct hd; [by exists 0|by exists 1]). unfold head_of.
  rewrite decide_False by (destruct ls as [|x r]; [done|]; rewrite unlines_join by (by destruct mid); by destruct (join nl (mid ++ x :: r))).
  assert (Forall (λ l, free_of nl_char l = true) (mid ++ ls)) as Hfree.
  { rewrite Hk. repeat (apply Forall_app; split); try done. apply Forall_replicate. done. }
  assert (raw_lines (unlines (mid ++ ls)) = mid ++ ls) as Hraw by by apply raw_lines_unlines.
  assert (short_lines (mid ++ ls)) as Hshort. { unfold short_lines in *. rewrite Hk. repeat (apply Forall_app; split); try done. by apply Forall_replicate. }
  assert (lines_end false mid = false) as Hem by (rewrite Hk, lines_end_app, He; apply blank_lines).
  assert (lines_end false (mid ++ ls) = false) as Hend by (by rewrite lines_end_app, Hem).
  destruct (Parse_read (unlines (mid ++ ls)) path) as (f & -> & Hitems & _); [by rewrite Hraw..|]. rewrite Hraw in Hitems.
  assert (Forall quiet (read_lines false mid)) as Hqm. { rewrite Hk, read_lines_app, He. apply Forall_app. split; [done|]. apply blank_lines. }
  assert (clear_line <$> filterListenerItems (f_items f) = read_lines false (mid ++ replicate n "")) as Hkept.
  { unfold filterListenerItems. rewrite <-filter_clear, Hitems, !read_lines_app, Hem. cbn [fmap list_fmap]. rewrite filter_quiet by done. by rewrite Hn. }
  unfold RenderConf. cbn [f_items]. rewrite (render_read_lines false (mid ++ replicate n "")); [|done|].
  2: { apply Forall_app in Hfree as [? _]. apply Forall_app. split; [done|]. by apply Forall_replicate. }
  assert (scan_line <$> (mid ++ replicate n "") = hd ++ replicate (k + n) "") as ->.
  { rewrite Hk, <-app_assoc, <-replicate_add, fmap_app, fmap_replicate. f_equal. clear -Hsc. induction Hsc as [|l hd Hl _ IH]; [done|]. cbn. by rewrite Hl, IH. }
  rewrite trim_nl_unlines. 2: { apply Forall_app. split; [done|]. by apply Forall_replicate. } by rewrite strip_blanks, strip_id.
Qed.

(** ** The per-listener settings *)
Definition pl_line : string := "per_listener_settings true".
Definition pl_read : Item := line_item false pl_line.
Lemma pl_line_item b : line_item b pl_line = pl_read.
Proof. by destruct b; vm_compute. Qed.
Lemma pl_line_end b : line_end b pl_line = b.
Proof. by destruct b; vm_compute. Qed.

(** The changes on lines that are read from a state. *)
Fixpoint remove_pl (b : bool) (lines : list string) : list string :=
  match lines with
  | [] => []
  | l :: rest => if decide (is_per_listener (line_item b l)) then remove_pl (line_end b l) rest else l :: remove_pl (line_end b l) rest
  end.
Fixpoint insert_pl (b : bool) (lines : list string) : list string :=
  match lines with
  | [] => [pl_line]
  | l :: rest => if decide (is_security (line_item b l)) then pl_line :: l :: rest else l :: insert_pl (line_end b l) rest
  end.
Lemma remove_pl_read b lines : read_lines b (remove_pl b lines) = filter (λ it, ¬ is_per_listener it) (read_lines b lines)
  ∧ lines_end b (remove_pl b lines) = lines_end b lines ∧ Forall (λ l, l ∈ lines) (remove_pl b lines).
Proof.
  revert b. induction lines as [|l lines IH]; intros b; [by split_and!|]. cbn [remove_pl read_lines lines_end]. rewrite filter_cons.
  destruct (IH (line_end b l)) as (H1 & H2 & H3). assert (Forall (λ x, x ∈ l :: lines) (remove_pl (line_end b l) lines)) as H3'.
  { eapply Forall_impl; [exact H3|]. intros x Hx. by right. }
  destruct (decide (is_per_listener (line_item b l))) as [Hp|Hp].
  - rewrite (decide_False (P := ¬ ¬ _)) || rewrite decide_False by tauto. assert (line_end b l = b) as Hb by (unfold line_end, block_step; by rewrite (proj1 Hp)).
    rewrite Hb in *. done.
  - rewrite decide_True by done. cbn [read_lines lines_end]. rewrite H1, H2. split_and!; [done..|]. constructor; [by left|done].
Qed.
Lemma insert_pl_read b lines : Forall (λ it, it = pl_read ∨ it ∈ read_lines b lines) (read_lines b (insert_pl b lines))
  ∧ lines_end b (insert_pl b lines) = lines_end b lines ∧ Forall (λ l, l = pl_line ∨ l ∈ lines) (insert_pl b lines).
Proof.
  revert b. induction lines as [|l lines IH]; intros b.
  { cbn [insert_pl read_lines lines_end]. rewrite pl_line_item, pl_line_end. split_and!; [|done|]; repeat constructor. }
  cbn [insert_pl]. destruct (decide _).
  - cbn [read_lines lines_end]. rewrite pl_line_item, !pl_line_end. split_and!; [|done|]; (constructor; [by left|]; apply Forall_forall; tauto).
  - cbn [read_lines lines_end]. destruct (IH (line_end b l)) as (H1 & H2 & H3). split_and!; [|done|].
    + constructor; [right; by left|]. eapply Forall_impl; [exact H1|]. intros it [?|?]; [by left|right; by right].
    + constructor; [right; by left|]. eapply Forall_impl; [exact H3|]. intros x [?|?]; [by left|right; by right].
Qed.
Lemma insert_pl_render b lines items : clear_line <$> items = read_lines b lines → Forall (λ l, free_of nl_char l = true) lines →
  render_items (insertPerListenerSettings items) = Ok (unlines (scan_line <$> insert_pl b lines)).
Proof.
  intros Hc Hf. revert b items Hc. induction Hf as [|l lines Hl Hf IH]; intros b [|it items] Hc; try done.
  cbn [fmap list_fmap read_lines] in Hc. fold (clear_line <$> items) in Hc. pose proof Hc as Hall. apply (inj2 cons) in Hc as [H1 H2].
  cbn [insertPerListenerSettings insert_pl]. assert (is_security it ↔ is_security (line_item b l)) as Hsec by by rewrite <-H1.
  destruct (decide (is_security it)) as [Hs|Hs].
  - rewrite decide_True by tauto. change (render_items (per_listener_item :: it :: items)) with (t ← render_item per_listener_item; ts ← render_items (it :: items); Ok (t +:+ ts)).
    rewrite (render_read_lines b (l :: lines)) by (done || by constructor). done.
  - rewrite decide_False by tauto. cbn [render_items]. rewrite (render_line_item b l) by done. rewrite (IH (line_end b l)) by done. cbn [mbind result_bind fmap list_fmap].
    f_equal. cbn. by rewrite !app_assoc_string.
Qed.

(** Inserting after removing, where the directive stands already. *)
Lemma strip_cons l lines : strip (l :: lines) = match strip lines with [] => if decide (l = "") then [] else [l] | r => l :: r end.
Proof. done. Qed.
Lemma strip_insert b lines : strip (insert_pl b lines) ≠ [].
Proof.
  revert b. induction lines as [|l lines IH]; intros b; [done|]. cbn [insert_pl]. destruct (decide _).
  - rewrite (strip_cons pl_line). by destruct (strip (l :: lines)).
  - rewrite strip_cons. specialize (IH (line_end b l)). by destruct (strip (insert_pl _ _)).
Qed.
Lemma pl_read_pl : is_per_listener pl_read.
Proof. by vm_compute. Qed.
Lemma remove_pl_none b lines : Forall (λ it, ¬ is_per_listener it) (read_lines b lines) → remove_pl b lines = lines.
Proof.
  revert b. induction lines as [|l lines IH]; intros b; [done|]. cbn [read_lines remove_pl]. intros [Hl Hr]%Forall_cons. rewrite decide_False by done. by rewrite IH.
Qed.
Lemma read_strip (P : Item → Prop) b lines : Forall P (read_lines b lines) → Forall P (read_lines b (strip lines)).
Proof. destruct (strip_spec lines) as [n Hn]. rewrite Hn at 1. rewrite read_lines_app. by intros [? _]%Forall_app. Qed.
Lemma insert_remove b lines : Forall (λ it, ¬ is_per_listener it) (read_lines b lines) →
  let il := strip (insert_pl b lines) in insert_pl b (remove_pl b il) = il ∧ filter is_per_listener (read_lines b il) = [pl_read].
Proof.
  revert b. induction lines as [|l lines IH]; intros b Hn; cbv zeta.
  { cbn [insert_pl strip]. rewrite decide_False by done. cbn [read_lines remove_pl]. rewrite pl_line_item.
    rewrite decide_True by apply pl_read_pl. rewrite filter_cons_True by apply pl_read_pl. done. }
  cbn [insert_pl]. destruct (decide (is_security (line_item b l))) as [Hs|Hs].
  - assert (l ≠ "") as Hl by (intros ->; destruct b; vm_compute in Hs; by destruct Hs). pose proof (read_strip _ _ _ Hn) as Hns.
    assert (∃ r, strip (l :: lines) = l :: r) as [r Hr]. { rewrite strip_cons. destruct (strip lines); [rewrite decide_False by done|]; eauto. }
    rewrite Hr in Hns. assert (strip (pl_line :: l :: lines) = pl_line :: l :: r) as -> by by rewrite (strip_cons pl_line), Hr.
    cbn [remove_pl]. rewrite pl_line_item, pl_line_end. rewrite decide_True by apply pl_read_pl.
    change (read_lines b (pl_line :: l :: r)) with (line_item b pl_line :: read_lines (line_end b pl_line) (l :: r)). rewrite pl_line_item, pl_line_end.
    rewrite filter_cons_True by apply pl_read_pl. pose proof (remove_pl_none _ _ Hns) as Hrm. cbn [remove_pl] in Hrm. rewrite Hrm. split.
    + cbn [insert_pl]. by rewrite decide_True.
    + f_equal. apply filter_nil_iff. intros x Hx. rewrite Forall_forall in Hns. by apply Hns.
  - cbn [read_lines] in Hn. apply Forall_cons in Hn as [Hnl Hn]. destruct (IH _ Hn) as [H1 H2].
    pose proof (strip_insert (line_end b l) lines) as Hne. set (il := strip (insert_pl (line_end b l) lines)) in *.
    assert (strip (l :: insert_pl (line_end b l) lines) = l :: il) as -> by (rewrite strip_cons; fold il; by destruct il).
    cbn [remove_pl read_lines]. rewrite (decide_False (P := is_per_listener _)) by done. rewrite filter_cons_False by done. split; [|done].
    cbn [insert_pl]. rewrite decide_False by done. by rewrite H1.
Qed.

Lemma ensure_render hd items : clean hd → clear_line <$> items = read_lines false hd →
  render_head (insertPerListenerSettings (filter (λ it, ¬ is_per_listener it) items)) = Ok (join nl (strip (insert_pl false (remove_pl false hd))))
  ∧ clean (strip (insert_pl false (remove_pl false hd))).
Proof.
  intros [Hf Hsc Hs Hl Hq He] Hc. destruct (remove_pl_read false hd) as (Hr & Hre & Hrin). set (rl := remove_pl false hd) in *.
  destruct (insert_pl_read false rl) as (Hi & Hie & Hiin). set (il := insert_pl false rl) in *.
  assert (clear_line <$> filter (λ it, ¬ is_per_listener it) items = read_lines false rl) as Hcr.
  { rewrite Hr, <-Hc. clear. induction items as [|it items IH]; [done|]. cbn [fmap list_fmap]. rewrite !filter_cons.
    change (is_per_listener (clear_line it)) with (is_per_listener it). fold (clear_line <$> items). by destruct (decide _); cbn [fmap list_fmap]; rewrite <-IH. }
  assert (∀ P : string → Prop, P pl_line → Forall P hd → Forall P rl ∧ Forall P il) as Hall.
  { intros P H1 H2. rewrite !Forall_forall in *. assert (∀ x, x ∈ rl → P x) by auto. split; [done|]. intros x Hx. destruct (Hiin x Hx) as [->|]; auto. }
  assert (Forall (λ l, free_of nl_char l = true) rl ∧ Forall (λ l, free_of nl_char l = true) il) as [Hfr Hfi] by by apply Hall.
  assert (scan_line <$> il = il) as Hscan.
  { destruct (Hall (λ l, scan_line l = l)) as [_ H]; [done|done|]. clear -H. induction H as [|x l Hx _ IH]; [done|]. cbn. by rewrite Hx, IH. }
  unfold render_head, RenderConf. cbn [f_items]. rewrite (insert_pl_render false rl) by done. fold il. rewrite Hscan. split; [by rewrite trim_nl_unlines|].
  rewrite <-Hscan at 1. apply clean_strip; [done| | |by rewrite Hie, Hre].
  - destruct (Hall (λ l, line_too_long l = false)) as [_ H]; done.
  - rewrite Forall_forall in *. intros it Hit. destruct (Hi it Hit) as [->|Hin]; [right; by vm_compute|]. apply Hq. rewrite Hr in Hin. by apply list_elem_of_filter in Hin as [_ ?].
Qed.
Lemma pl_line_kept b lines : pl_line ∈ strip (insert_pl b lines).
Proof.
  assert (pl_line ∈ insert_pl b lines) as Hin.
  { revert b. induction lines as [|l lines IH]; intros b; [by left|]. cbn [insert_pl]. destruct (decide _); [by left|by right]. }
  destruct (strip_spec (insert_pl b lines)) as [n Hn]. rewrite Hn in Hin. apply elem_of_app in Hin as [?|[? _]%elem_of_replicate]; done.
Qed.
Lemma blank_runes s : trim_space s = "" → forallb is_space (runes s) = true.
Proof.
  unfold trim_space. intros Ht. destruct (trim_left_runes 0 s) as (l & Hl & Hs). unfold runes at 1. rewrite Hl, forallb_app, Hs. cbn [andb].
  change (trim_left_go 0 s) with (trim_left_space s). destruct (trim_right_split (trim_left_space s)) as (t & He & Hb). rewrite Ht in He.
  change ("" +:+ t) with t in He. rewrite He. exact Hb.
Qed.
Lemma pl_line_not_blank hd : pl_line ∈ hd → trim_space (join nl hd) ≠ "".
Proof.
  intros (a & b & ->)%list_elem_of_split Ht%blank_runes.
  assert (∃ x y, join nl (a ++ pl_line :: b) = x +:+ String "p" y) as (x & y & E).
  { clear Ht. induction a as [|l a (x & y & IH)].
    - destruct b as [|z b]; [by exists "", "er_listener_settings true"|]. exists "", ("er_listener_settings true" +:+ nl +:+ join nl (z :: b)). done.
    - exists (l +:+ nl +:+ x), y. cbn [app]. rewrite join_cons by by destruct a. by rewrite IH, !app_assoc_string. }
  rewrite E, runes_app, forallb_app in Ht by done. apply andb_true_iff in Ht as [_ Ht]. done.
Qed.
Lemma filter_clear_pl (items : list Item) : clear_line <$> filter is_per_listener items = filter is_per_listener (clear_line <$> items).
Proof.
  induction items as [|it items IH]; [done|]. cbn [fmap list_fmap]. rewrite !filter_cons. change (is_per_listener (clear_line it)) with (is_per_listener it).
  fold (clear_line <$> items). by destruct (decide _); cbn [fmap list_fmap]; rewrite <-IH.
Qed.
Lemma ensure_ok hd h : clean hd → ensurePerListenerSettings (join nl hd) = Ok h →
  ∃ hd', clean hd' ∧ h = join nl hd' ∧ ensurePerListenerSettings h = Ok h.
Proof.
  intros Hcl. unfold ensurePerListenerSettings at 1. destruct (decide (trim_space _ = "")).
  { intros [= <-]. exists [pl_line]. split_and!; [|done|by vm_compute]. constructor; try done; repeat (constructor; [try done; by right|]); constructor. }
  assert (∀ hd, clean hd → ∃ f, Parse (join nl hd) "" = Ok f ∧ clear_line <$> f_items f = read_lines false hd) as Hparse.
  { clear. intros hd [Hf _ Hs Hl _ He]. assert (raw_lines (join nl hd) = hd) as Hr by by apply raw_lines_join.
    destruct (Parse_read (join nl hd) "") as (f & ? & Hc & _); [by rewrite Hr..|]. rewrite Hr in Hc. eauto. }
  destruct (Hparse hd Hcl) as (f & -> & Hc). destruct (ensure_render hd (f_items f) Hcl Hc) as [Hren Hcl'].
  set (hd' := strip (insert_pl false (remove_pl false hd))) in *. intros Hres. assert (h = join nl hd') as ->.
  { destruct (filter is_per_listener (f_items f)) as [|it rest] eqn:Hpl.
    - assert (filter (λ it, ¬ is_per_listener it) (f_items f) = f_items f) as Hall.
      { pose proof (proj1 (filter_nil_iff _ _) Hpl) as Hnone. clear -Hnone. induction (f_items f) as [|x l IH]; [done|]. rewrite filter_cons_True by (apply Hnone; by left).
        f_equal. apply IH. intros y Hy. apply Hnone. by right. }
      rewrite Hall, Hres in Hren. by injection Hren.
    - destruct (it_values it); [done|]. destruct (decide _); [|done]. unfold movePerListenerSettings in Hres. rewrite Hres in Hren. by injection Hren. }
  exists hd'. split; [done|]. split; [done|].
  assert (Forall (λ it, ¬ is_per_listener it) (read_lines false (remove_pl false hd))) as Hno.
  { rewrite (proj1 (remove_pl_read false hd)). apply Forall_forall. by intros x [? _]%list_elem_of_filter. }
  destruct (insert_remove false _ Hno) as [Hins Hfil]. fold hd' in Hins, Hfil. destruct (Hparse hd' Hcl') as (f' & Hp' & Hc').
  destruct (ensure_render hd' (f_items f') Hcl' Hc') as [Hren' _]. rewrite Hins in Hren'. unfold ensurePerListenerSettings.
  rewrite decide_False by apply pl_line_not_blank, pl_line_kept. rewrite Hp'. assert (clear_line <$> filter is_per_listener (f_items f') = [pl_read]) as Hpl by by rewrite filter_clear_pl, Hc'.
  destruct (filter is_per_listener (f_items f')) as [|it rest]; [done|]. apply (inj2 cons) in Hpl as [Hit _].
  change (it_values it) with (it_values (clear_line it)). rewrite Hit. change (it_values pl_read) with ["true"]. cbv beta iota. rewrite decide_True by by vm_compute; left.
  unfold movePerListenerSettings. rewrite Hren'. f_equal. f_equal. apply strip_id, Hcl'.
Qed.

(** ** The lines of the rendered listeners *)
Lemma trim_right_bytes_app cut a c b : cut c = false → trim_right_bytes cut (a +:+ String c b) = a +:+ String c (trim_right_bytes cut b).
Proof.
  intros Hc. induction a as [|x a IH].
  - change ("" +:+ ?s) with s. cbn [trim_right_bytes all_bytes]. by rewrite Hc.
  - rewrite !app_cons_string. cbn [trim_right_bytes]. rewrite <-app_cons_string, all_bytes_app. cbn [all_bytes]. rewrite Hc, andb_false_r. by rewrite IH.
Qed.
Lemma line_item_directive l (k rest : string) n : word k = true → has_prefix "#" k = false → isBlockDirective (to_lower k) = false →
  l = spaces n +:+ k +:+ String space_char rest → it_kind (line_item false l) = ItemDirective ∧ n ≤ it_indent (line_item false l).
Proof.
  intros [Hk Hns]%word_spec Hh Hb ->. assert (scan_line (spaces n +:+ k +:+ String space_char rest) = spaces n +:+ k +:+ String space_char (trim_right_bytes is_cr rest)) as Hscan.
  { rewrite scan_line_trim, (app_assoc_string (spaces n)), trim_right_bytes_app by done. by rewrite <-app_assoc_string. }
  unfold line_item. rewrite Hscan. set (t := trim_right_bytes is_cr rest).
  assert (all_space k = false) as Hall by by apply no_space_not_all.
  assert (∃ c k' y, k = String c k' ∧ trim_space (spaces n +:+ k +:+ String space_char t) = String c y) as (c & k' & y & Hkc & Ht).
  { destruct k as [|c k']; [done|]. eexists c, k', _. split; [done|]. unfold trim_space. rewrite trim_left_spaces, trim_left_app by done.
    rewrite app_cons_string. cbn [trim_right_space]. rewrite <-app_cons_string, all_space_app by done. rewrite Hall. done. }
  rewrite Ht. rewrite decide_False by done. assert (has_prefix "#" (String c y) = false) as Hc.
  { subst k. unfold has_prefix in *. cbn [String.prefix] in *. destruct (ascii_dec "#" c); [|done]. by destruct k'. }
  rewrite Hc. rewrite fields_spaces, fields_cons by done. rewrite Hb. cbn [andb]. unfold line_directive.
  destruct (parseDirectiveLine_ok (spaces n +:+ k +:+ String space_char t) 0 (line_indent (spaces n +:+ k +:+ String space_char t)) true) as (key & vs & _ & ->); [by rewrite Ht..|].
  split; [done|]. cbn [fst it_indent]. unfold line_indent. rewrite trim_left_blanks_spaces, !length_app_string, length_spaces.
  assert (∀ s, String.length (trim_left_bytes is_blank s) ≤ String.length s) as Hle.
  { clear. induction s as [|c s IH]; [done|]. cbn [trim_left_bytes]. destruct (is_blank c); cbn; lia. }
  specialize (Hle (k +:+ String space_char t)). rewrite length_app_string in Hle. lia.
Qed.
Lemma not_suffix_brace s : free_of "{" s = true → has_suffix "{" s = false.
Proof.
  induction s as [|c s IH]; [done|]. unfold free_of. cbn [all_bytes]. intros [Hc%bool_decide_eq_true Hs]%andb_true_iff. cbn [has_suffix]. rewrite IH by done.
  rewrite bool_decide_eq_false_2; [done|]. by intros [= -> _].
Qed.
Lemma good_bytes s : s ≠ "" → all_bytes (λ c, negb (is_blank c) && bool_decide (c ≠ quote_char)) s = true → good_token s = true.
Proof.
  intros Hs Hb. unfold good_token. rewrite bool_decide_eq_false_2 by done. cbn [negb andb]. clear Hs. induction s as [|c s IH]; [done|].
  cbn [all_bytes token_ok] in *. apply andb_true_iff in Hb as [[Hc Hq%bool_decide_eq_true]%andb_true_iff Hb]. rewrite decide_False by done. rewrite Hc. by apply IH.
Qed.
Lemma header_item port bind : ParseIP bind = true → let it := line_item false ("listener " +:+ itoa port +:+ " " +:+ bind) in
  it_kind it = ItemDirective ∧ it_key it = "listener" ∧ it_values it = [itoa port; bind] ∧ it_indent it = 0.
Proof.
  intros Hip. apply ParseIP_word in Hip as Hw. apply ParseIP_address in Hip as Hadd. pose proof Hw as [Hbne Hbns]%word_spec.
  change ("listener " +:+ itoa port +:+ " " +:+ bind) with (join " " ["listener"; itoa port; bind]). set (l := join " " _).
  assert (Forall (λ w, w ≠ "" ∧ no_space w = true) ["listener"; itoa port; bind]) as Hwords.
  { repeat constructor; try done; [apply itoa_not_empty|apply itoa_no_space]. }
  assert (scan_line l = l) as Hscan by by apply scan_line_free_cr, words_free.
  assert (trim_space l = l) as Ht by by apply trim_space_join.
  assert (tokenise l = ["listener"; itoa port; bind]) as Htok.
  { apply tokenise_join. constructor; [done|]. constructor; [|constructor; [|constructor]]; (apply good_bytes; [done || apply itoa_not_empty|]).
    - apply itoa_bytes; [|done]. intros c Hc. assert (implb (is_digit c) (negb (is_blank c) && bool_decide (c ≠ quote_char)) = true) as H
        by (destruct c as [[] [] [] [] [] [] [] []]; vm_compute; reflexivity). by rewrite Hc in H.
    - eapply all_bytes_impl; [|exact Hadd]. intros c Hc.
      assert (implb (address_byte c) (negb (is_blank c) && bool_decide (c ≠ quote_char)) = true) as H by (destruct c as [[] [] [] [] [] [] [] []]; vm_compute; reflexivity).
      by rewrite Hc in H. }
  assert (free_of "{" l = true) as Hbrace.
  { apply free_of_join; [done|]. constructor; [done|]. constructor; [by apply itoa_free|]. constructor; [|constructor]. eapply all_bytes_impl; [|exact Hadd]. intros c Hc. apply bool_decide_eq_true. by intros ->. }
  unfold line_item. rewrite Hscan, Ht. rewrite decide_False by done. change (has_prefix "#" l) with false.
  assert (fields l = ["listener"; itoa port; bind]) as -> by by apply fields_join.
  assert (isBlockStart l [itoa port; bind] = false) as ->.
  { unfold isBlockStart. rewrite Ht, not_suffix_brace by done. cbn [orb last]. apply bool_decide_eq_false_2. intros [= ->]. done. }
  rewrite andb_false_r. unfold line_directive. destruct (parseDirectiveLine_ok l 0 (line_indent l) true) as (key & vs & Hkv & ->); [by rewrite Ht|by rewrite Ht|].
  rewrite Ht, Htok in Hkv. injection Hkv as <- <-. split_and!; try done. cbn [fst it_indent]. unfold line_indent. rewrite trim_left_blanks_id by done. lia.
Qed.

(** Names of options that start a line of their own: a word that is neither a
    comment nor the name of a block. *)
Definition writable (spec : ListenerSpec) : Prop :=
  ∀ k, is_Some (ls_options spec !! k) → word k = true ∧ has_prefix "#" k = false ∧ isBlockDirective (to_lower k) = false.

Section rendered.
Context (print : Z → bool).
Lemma option_value_free v : free_of nl_char (renderOptionValue print v) = true.
Proof. unfold renderOptionValue. destruct (all_bytes _ v) eqn:Hs; [by apply special_free|apply Quote_free]. Qed.
Lemma block_listing spec rest : spec_ok spec → writable spec → listed_lines true rest →
  (∀ b, listed_lines b (block_lines print spec ++ rest)) ∧ Forall (λ l, free_of nl_char l = true) (block_lines print spec)
  ∧ block_lines print spec ≠ [] ∧ last (block_lines print spec) ≠ Some "".
Proof.
  intros [Hb _ [_ Hp] _ _] Ho Hr. set (opts := (protocol_line <$> sort_strings (ls_protocols spec)) ++ (option_line print (ls_options spec) <$> sortedOptionKeys (ls_options spec))).
  assert (∀ l, l ∈ opts → ∃ k v, l = spaces 4 +:+ k +:+ String space_char v ∧ word k = true ∧ has_prefix "#" k = false ∧ isBlockDirective (to_lower k) = false ∧ free_of nl_char v = true) as Hopts.
  { intros l [(p & -> & Hin)%list_elem_of_fmap|(k & -> & Hin)%list_elem_of_fmap]%elem_of_app.
    - exists "protocol", p. split_and!; try done. rewrite elem_of_sort_strings in Hin. rewrite Forall_forall in Hp. by destruct (Hp p Hin) as [->| ->].
    - rewrite elem_of_option_keys in Hin. destruct (Ho k Hin) as (? & ? & ?). exists k, (renderOptionValue print (default "" (ls_options spec !! k))).
      split_and!; try done. apply option_value_free. }
  assert (free_of nl_char (itoa (ls_port spec)) = true) as Hi by by apply itoa_free. apply ParseIP_word in Hb as Hw. apply word_spec in Hw as [Hwne Hwns].
  change (block_lines print spec) with (("listener " +:+ itoa (ls_port spec) +:+ " " +:+ ls_bind spec) :: opts). split_and!; [| |done|].
  - assert (listed_lines true (opts ++ rest)) as Hl.
    { clear -Hopts Hr. induction opts as [|l opts IH]; [done|]. destruct (Hopts l ltac:(by left)) as (k & v & -> & Hk & Hh & Hbl & _).
      destruct (line_item_directive _ k v 4 Hk Hh Hbl eq_refl) as [Hkind Hind]. apply listing_option; [done|lia|]. apply IH. intros x Hx. apply Hopts. by right. }
    intros b. destruct (header_item (ls_port spec) (ls_bind spec) Hb) as (H1 & H2 & _ & H4). by apply listing_header.
  - constructor; [rewrite !free_of_app, Hi; by apply word_free_nl|]. apply Forall_forall. intros l Hl. destruct (Hopts l Hl) as (k & v & -> & [_ Hk]%word_spec & _ & _ & Hv).
    rewrite !free_of_app, free_of_spaces, (word_free_nl k) by done. change (String space_char v) with (chr_str space_char +:+ v). by rewrite free_of_app, Hv.
  - intros E. destruct opts as [|o opts]; [by injection E|]. rewrite last_cons_cons in E. apply last_Some_elem_of in E.
    by destruct (Hopts "" E) as (k & v & Hx & _).
Qed.

Lemma join_listener_blocks (blocks : list (list string)) : blocks ≠ [] → Forall (λ b, b ≠ []) blocks →
  join (nl +:+ nl) (join nl <$> blocks) +:+ nl = unlines (tail (blocks ≫= λ b, "" :: b)).
Proof.
  intros Hne H. destruct H as [|b blocks Hb H]; [done|]. cbn [mbind list_bind tail app fmap list_fmap]. clear Hne. revert b Hb.
  induction H as [|b' blocks Hb' H IH]; intros b Hb; [cbn [fmap list_fmap mbind list_bind]; by rewrite app_nil_r, unlines_join|].
  cbn [fmap list_fmap]. rewrite join_cons by done. rewrite unlines_app, (unlines_join b) by done. cbn [mbind list_bind app].
  change (unlines ("" :: b' ++ (blocks ≫= λ b0, "" :: b0))) with (nl +:+ unlines (b' ++ (blocks ≫= λ b0, "" :: b0))). rewrite <-(IH b' Hb').
  by rewrite !app_assoc_string.
Qed.

Lemma render_blocks_lines specs blocks : render_blocks print specs = Ok blocks → Forall writable specs →
  ∃ norms, blocks = (λ n, join nl (block_lines print n)) <$> norms ∧ Forall spec_ok norms ∧ Forall writable norms
    ∧ norms = (λ s, (Normalize s).1) <$> specs.
Proof.
  revert blocks. induction specs as [|spec specs IH]; intros blocks; cbn [render_blocks].
  { intros [= <-] _. exists []. split_and!; constructor. }
  intros (t & Ht & (bs & Hbs & [= <-])%result_bind_ok)%result_bind_ok [Hw Hws]%Forall_cons. destruct (IH bs Hbs Hws) as (norms & -> & Hok & Hwn & ->).
  apply Render_ok in Ht as (Hspec & _ & ->). exists ((Normalize spec).1 :: ((λ s, (Normalize s).1) <$> specs)). split_and!; [|by constructor|constructor; [|done]|done].
  - cbn [fmap list_fmap]. f_equal. rewrite unlines_join by done. by apply trim_suffix_app.
  - unfold Normalize. by destruct (normalize_protocols _).
Qed.
Lemma RenderAll_lines specs text : RenderAll print specs = Ok text → specs ≠ [] → Forall writable specs → short_lines (raw_lines text) →
  ∃ ls, text = unlines ls ∧ rendered_lines ls.
Proof.
  intros Hr Hne Hw Hs. destruct specs as [|s0 specs0]; [done|]. cbn [RenderAll] in Hr. set (specs := sort_stable spec_less (s0 :: specs0)) in *.
  assert (Forall writable specs) as Hws by (unfold specs; by rewrite sort_stable_perm).
  apply result_bind_ok in Hr as (blocks & Hb & [= <-]). destruct (render_blocks_lines _ _ Hb Hws) as (norms & -> & Hok & Hwn & Hnorms).
  assert (norms ≠ []) as Hnn. { rewrite Hnorms. intros E%fmap_nil_inv. unfold specs in E. by apply sort_nil in E. }
  clear Hnorms. destruct norms as [|n norms]; [done|]. apply Forall_cons in Hok as [Hn Hok]. apply Forall_cons in Hwn as [Hwn Hwns].
  set (rest := (block_lines print <$> norms) ≫= λ b, "" :: b).
  assert (join (nl +:+ nl) ((λ n, join nl (block_lines print n)) <$> n :: norms) +:+ nl = unlines (block_lines print n ++ rest)) as Htext.
  { rewrite (list_fmap_compose (block_lines print) (join nl)). etrans; [apply (join_listener_blocks (block_lines print <$> n :: norms)); [done|]; apply Forall_fmap, Forall_forall; done|]. done. }
  assert (listed_lines true rest ∧ Forall (λ l, free_of nl_char l = true) rest ∧ last rest ≠ Some "") as (Hlist & Hfree & Hlast).
  { clear -Hok Hwns. unfold rest. clear rest. induction norms as [|n norms IH]; [split_and!; [constructor..|done]|].
    apply Forall_cons in Hok as [Hn Hok]. apply Forall_cons in Hwns as [Hwn Hwns]. destruct (IH Hok Hwns) as (Hl & Hf & Hla).
    destruct (block_listing n _ Hn Hwn Hl) as (H1 & H2 & H3 & H4). cbn [fmap list_fmap mbind list_bind app]. split_and!.
    - apply listing_blank. apply H1.
    - constructor; [done|]. apply Forall_app. by split.
    - rewrite last_cons, last_app. destruct (last (_ ≫= _)) as [x|]; [done|]. destruct (last (block_lines print n)) eqn:E; [done|]. by apply last_None in E. }
  destruct (block_listing n rest Hn Hwn Hlist) as (H1 & H2 & H3 & H4). exists (block_lines print n ++ rest). split; [done|].
  assert (Forall (λ l, free_of nl_char l = true) (block_lines print n ++ rest)) as Hfl by by apply Forall_app.
  constructor; [done| | |by apply H1].
  - unfold short_lines in *. rewrite Htext, raw_lines_unlines in Hs; done.
  - split; [done|]. rewrite last_app. by destruct (last rest).
Qed.
End rendered.

(** ** What a write does *)
Section write.
Context (print : Z → bool) (stat_dir : string → option bool).

(** The decisions of [WriteListeners], from the content of the file: the result,
    and the files that have to be there. *)
Definition scoped_plan (specs : list ListenerSpec) (head : string) : result writer_error (string * list ListenerSpec * list (string * string)) :=
  if specsDeclareACLFile specs then
    head ← ensurePerListenerSettings head; specs ← dropDefaultListenerSpec specs;
    let specs := inheritGlobalAccessControl specs head in Ok (head, resolveBrokerACLPaths specs head, required_files specs head)
  else Ok (head, specs, []).
Definition head_plan (path : string) (body : option string) : result writer_error string := match body with None => Ok "" | Some body => head_of body path end.
Definition write_plan (path : string) (body : option string) (specs : list ListenerSpec) : result writer_error (Rendered * list (string * string)) :=
  head ← head_plan path body;
  '(head, specs, files) ← scoped_plan specs head;
  rendered ← render_specs print specs;
  Ok (mkRendered path head rendered (composeBody head rendered), files).

Definition present (m : gmap string string) (files : list (string * string)) : Prop := Forall (λ x, is_Some (m !! x.2) ∨ is_Some (stat_dir x.2)) files.
Definition io_fault (e : writer_error) : Prop :=
  match e with StatDirFailed | ReadConfFailed | ErrACLFileNotWritten _ | WriteConfFailed _ => True | _ => False end.

Lemma wp_of_result {A} (r : result writer_error A) (Φ : fs → result writer_error A → Prop) s : Φ s r → wp (of_result r) Φ s.
Proof. by destruct r. Qed.
Lemma wp_scoped specs head m l (Φ : fs → result writer_error (string * list ListenerSpec) → Prop) s :
  has_files s m l →
  (∀ s' e, has_files s' m l → (io_fault e ∨ scoped_plan specs head = Err e) → Φ s' (Err e)) →
  (∀ s' h specs' files, has_files s' m l → scoped_plan specs head = Ok (h, specs', files) → present m files → Φ s' (Ok (h, specs'))) →
  wp (scoped_access stat_dir specs head) Φ s.
Proof.
  intros Hs He Hok. unfold scoped_access, scoped_plan in *. destruct (specsDeclareACLFile specs); [|apply wp_ret; by eapply Hok; [..|constructor]].
  apply wp_bind, wp_of_result. destruct (ensurePerListenerSettings head) as [h|e]; [|apply He; [done|auto]]. cbn [mbind result_bind] in *.
  apply wp_bind, wp_of_result. destruct (dropDefaultListenerSpec specs) as [sp|e]; [|apply He; [done|auto]]. cbn [mbind result_bind] in *.
  apply wp_bind. unfold requireWrittenACLFiles. set (files := required_files _ _) in *.
  apply (wp_for_each _ (λ done s', has_files s' m l ∧ present m done)); [by split; [|constructor]| |].
  - intros done x rest s1 Hl [H1 Hd]. apply wp_wrap. unfold stat_path. apply wp_bind, wp_syscall; intros f; [|apply He; [done|by left]].
    apply wp_bind. unfold get, wp at 1. cbn [fst snd]. destruct (decide _) as [Hx|Hx]; [|apply wp_fail, He; [done|by left]].
    apply wp_ret. split; [done|]. apply Forall_app. split; [done|]. constructor; [|constructor]. destruct H1 as [<- _]. exact Hx.
  - intros s1 [H1 Hp]. apply wp_ret. by eapply Hok.
Qed.

Lemma wp_WriteListeners path specs m l (Φ : fs → result writer_error Rendered → Prop) s :
  has_files s m l →
  (∀ s' e, has_files s' m l → (io_fault e ∨ trim_space path = "" ∨ stat_dir (dir path) ≠ Some true ∨ write_plan path (m !! path) specs = Err e) → Φ s' (Err e)) →
  (∀ s' rd files, write_plan path (m !! path) specs = Ok (rd, files) → present m files → trim_space path ≠ "" → stat_dir (dir path) = Some true →
     has_files s' (<[path := rd_full rd]> m) l → Φ s' (Ok rd)) →
  wp (WriteListeners print stat_dir path specs) Φ s.
Proof.
  intros Hs He Hok. unfold WriteListeners. destruct (decide (trim_space path = "")) as [Hp|Hp]; [apply wp_fail, He; [done|auto]|].
  unfold check_dir. apply wp_bind, wp_bind, wp_wrap, wp_syscall; intros f1; [|apply He; [done|by left]].
  destruct (stat_dir (dir path)) as [[]|] eqn:Hd; [|apply wp_fail, He; [done|by right; right; left]..]. apply wp_ret.
  unfold renderHead, read_conf_file. apply wp_bind, wp_bind, wp_bind, wp_wrap, wp_syscall; intros f2; [|apply He; [done|by left]].
  apply wp_bind. unfold get, wp at 1. cbn [fst snd]. apply wp_ret. cbn [fs_files set_faults]. destruct Hs as [<- <-].
  assert (∀ h s1, has_files s1 (fs_files s) (fs_loaded s) → head_plan path (fs_files s !! path) = Ok h →
    wp ('(head, specs) ← scoped_access stat_dir specs h; rendered ← of_result (render_specs print specs);
        wrap WriteConfFailed (AtomicWriteConf path (composeBody head rendered)) ;; mret (mkRendered path head rendered (composeBody head rendered))) Φ s1) as Hrest.
  { intros h s1 H1 Hh. unfold write_plan in *. rewrite Hh in *. cbn [mbind result_bind] in *. apply wp_bind. eapply wp_scoped; [exact H1|..].
    - intros s2 e H2 [Hf|Hpl]; (apply He; [done|]); [by left|]. right; right; right. by rewrite Hpl.
    - intros s2 h' specs' files H2 Hpl Hpr. rewrite Hpl in *. cbn [mbind result_bind] in *. apply wp_bind, wp_of_result.
      destruct (render_specs print specs') as [text|e]; [|apply He; [done|auto]]. cbn [mbind result_bind] in *.
      apply wp_bind, wp_wrap. unfold AtomicWriteConf. eapply wp_atomicWrite; [exact H2|..].
      + intros s3 e H3. apply He; [done|]. by left.
      + intros s3 H3. apply wp_ret. by eapply Hok. }
  destruct (fs_files s !! path) as [body|] eqn:Hb; [|apply wp_ret; by apply Hrest].
  apply wp_of_result. cbn [head_plan] in Hrest. unfold write_plan in He. cbn [head_plan] in He. destruct (head_of body path) as [h|e]; [by apply Hrest|apply He; [done|auto]].
Qed.

Lemma writable_inherit values spec keys : writable spec → Forall (λ k, k ∈ [passwordFileOption; aclFileOption]) keys →
  writable (set_options (foldl (inherit_option values) (ls_options spec) keys) spec).
Proof.
  unfold writable. cbn [ls_options set_options]. generalize (ls_options spec) as o. induction keys as [|key keys IH]; intros o Ho Hk; [done|].
  apply Forall_cons in Hk as [Hkey Hk]. cbn [foldl]. apply IH; [|done]. intros k. unfold inherit_option. destruct (decide _); [apply Ho|].
  destruct (values !! key) as [v|]; [|apply Ho]. destruct (decide _); [apply Ho|]. destruct (decide (k = key)) as [->|Hne]; [|rewrite lookup_insert_ne by done; apply Ho].
  intros _. rewrite !elem_of_cons in Hkey. by destruct Hkey as [->|[->|?%elem_of_nil]].
Qed.
Lemma drop_default specs specs' : dropDefaultListenerSpec specs = Ok specs' → Forall (λ s, s ∈ specs) specs' ∧ ∀ s, s ∈ specs → acl_option s ≠ "" → s ∈ specs'.
Proof.
  revert specs'. induction specs as [|spec specs IH]; intros specs'; cbn [dropDefaultListenerSpec]; [intros [= <-]; by split|].
  destruct (decide (ls_port spec ≠ _)) as [Hp|Hp].
  - intros (out & Ho & [= <-])%result_bind_ok. destruct (IH out Ho) as [H1 H2]. split.
    + constructor; [by left|]. eapply Forall_impl; [exact H1|]. intros s Hs. by right.
    + intros s [->|Hs]%elem_of_cons Ha; [by left|right; by apply H2].
  - destruct (decide (acl_option spec ≠ "")) as [|Ha]; [done|]. intros Ho. destruct (IH specs' Ho) as [H1 H2]. split.
    + eapply Forall_impl; [exact H1|]. intros s Hs. by right.
    + intros s [->|Hs]%elem_of_cons Has; [done|by apply H2].
Qed.
Lemma scoped_plan_spec specs head h specs' files : scoped_plan specs head = Ok (h, specs', files) → Forall writable specs → specs ≠ [] →
  Forall writable specs' ∧ specs' ≠ [].
Proof.
  unfold scoped_plan. destruct (specsDeclareACLFile specs) eqn:Hd; [|by intros [= <- <- <-]].
  intros (h' & _ & (sp & Hsp & [= <- <- <-])%result_bind_ok)%result_bind_ok Hw _. apply drop_default in Hsp as [Hin Hkeep].
  assert (Forall writable sp) as Hwsp by (rewrite !Forall_forall in *; auto).
  assert (sp ≠ []) as Hne.
  { unfold specsDeclareACLFile in Hd. apply existsb_exists in Hd as (s & Hs%list_elem_of_In & Ha%bool_decide_eq_true). intros ->. by apply (Hkeep s Hs), elem_of_nil in Ha. }
  set (inh := inheritGlobalAccessControl sp h'). assert (Forall writable inh ∧ inh ≠ []) as [Hwi Hni].
  { unfold inh, inheritGlobalAccessControl. destruct (decide _); [done|]. split; [|by destruct sp]. apply Forall_fmap. eapply Forall_impl; [exact Hwsp|].
    intros s Hs. apply writable_inherit; [done|]. repeat constructor. }
  unfold resolveBrokerACLPaths. destruct (decide _); [done|]. split; [|by destruct inh]. apply Forall_fmap. eapply Forall_impl; [exact Hwi|].
  intros s Hs. unfold compose, resolve_spec. destruct (BrokerACLPath _ _ _) as [p []]; [|done]. intros k. cbn [ls_options set_options].
  destruct (decide (k = aclFileOption)) as [->|Hne']; [done|]. rewrite lookup_insert_ne by done. apply Hs.
Qed.
Lemma write_plan_again path body specs rd files : write_plan path body specs = Ok (rd, files) → specs ≠ [] → Forall writable specs → short_lines (raw_lines (rd_listeners rd)) →
  write_plan path (Some (rd_full rd)) specs = Ok (rd, files).
Proof.
  unfold write_plan at 1. intros (h0 & Hh & ([[h sp] fl] & Hsc & (text & Ht & [= <- <-])%result_bind_ok)%result_bind_ok)%result_bind_ok Hne Hw Hs. cbn [rd_listeners rd_full] in *.
  destruct (scoped_plan_spec _ _ _ _ _ Hsc Hw Hne) as [Hwsp Hnsp].
  assert (∃ hd0, clean hd0 ∧ h0 = join nl hd0) as (hd0 & Hc0 & ->).
  { destruct body as [body|]; cbn [head_plan] in Hh; [by eapply head_of_clean|]. injection Hh as <-. exists []. by split; [apply clean_nil|]. }
  assert (∃ hd, clean hd ∧ h = join nl hd ∧ scoped_plan specs h = Ok (h, sp, fl)) as (hd & Hc & -> & Hsc').
  { unfold scoped_plan in *. destruct (specsDeclareACLFile specs).
    - apply result_bind_ok in Hsc as (h' & He & Hrest). destruct (ensure_ok hd0 h' Hc0 He) as (hd & Hc & -> & He'). exists hd.
      apply result_bind_ok in Hrest as (sp0 & Hsp0 & [= <- <- <-]). split; [done|]. split; [done|]. rewrite He'. cbn [mbind result_bind]. by rewrite Hsp0.
    - injection Hsc as <- <- <-. by exists hd0. }
  unfold render_specs in *. destruct (RenderAll print sp) as [text'|] eqn:Hr; [|done]. injection Ht as ->.
  destruct (RenderAll_lines print sp text Hr Hnsp Hwsp Hs) as (ls & -> & Hls). unfold write_plan. cbn [head_plan].
  rewrite composed_head by done. cbn [mbind result_bind]. rewrite Hsc'. cbn [mbind result_bind]. unfold render_specs. by rewrite Hr.
Qed.

Lemma scoped_calm specs head h specs' files m s : fs_faults s = [] → fs_files s = m → scoped_plan specs head = Ok (h, specs', files) → present m files →
  scoped_access stat_dir specs head s = (s, Ok (h, specs')).
Proof.
  intros Hf Hm. unfold scoped_access, scoped_plan. destruct (specsDeclareACLFile specs); [|by intros [= <- <- <-]].
  intros (h' & He & (sp & Hsp & [= <- <- <-])%result_bind_ok)%result_bind_ok Hp. unfold of_result. rewrite He, Hsp.
  assert (requireWrittenACLFiles stat_dir (inheritGlobalAccessControl sp h') h' s = (s, Ok tt)) as Hreq.
  { unfold requireWrittenACLFiles. induction Hp as [|x l Hx _ IH]; [done|]. cbn [for_each].
    assert (wrap (λ _, ErrACLFileNotWritten x.1) (stat_path stat_dir x.2) s = (s, Ok tt)) as Hst.
    { unfold wrap, stat_path, mbind, io_bind. rewrite (syscall_calm _ _ Hf). unfold get. rewrite Hm. by destruct (decide _). }
    unfold mbind, io_bind. by rewrite Hst. }
  cbv [mbind io_bind mret io_ret]. by rewrite Hreq.
Qed.
Lemma write_calm path specs s rd files : fs_faults s = [] → trim_space path ≠ "" → stat_dir (dir path) = Some true →
  write_plan path (fs_files s !! path) specs = Ok (rd, files) → present (fs_files s) files → ∃ s', WriteListeners print stat_dir path specs s = (s', Ok rd).
Proof.
  intros Hf Hp Hd Hpl Hpr. unfold write_plan in Hpl. apply result_bind_ok in Hpl as (h0 & Hh & ([[h sp] fl] & Hsc & (text & Ht & [= <- <-])%result_bind_ok)%result_bind_ok).
  assert (renderHead path s = (s, Ok h0)) as Hhead.
  { unfold renderHead, read_conf_file, wrap, mbind, io_bind. rewrite (syscall_calm _ _ Hf). cbn. destruct (fs_files s !! path); cbn [head_plan] in Hh; [by rewrite Hh|by injection Hh as <-]. }
  assert (check_dir stat_dir path s = (s, Ok tt)) as Hdir. { unfold check_dir, wrap, mbind, io_bind. rewrite (syscall_calm _ _ Hf). cbn. by rewrite Hd. }
  pose proof (scoped_calm _ _ _ _ _ _ s Hf eq_refl Hsc Hpr) as Hacc.
  destruct (writeStage_calm path (composeBody h text) s Hf) as (s1 & Hw & Hc1).
  assert (fs_temps s1 !! fs_next s = Some (composeBody h text)) as Htmp.
  { pose proof (wp_writeStage path (composeBody h text) (λ s' r, match r with Ok _ => fs_temps s' !! fs_next s = Some (composeBody h text) | Err _ => True end) s) as H.
    unfold wp in H. rewrite Hw in H. by apply H. }
  eexists. unfold WriteListeners. rewrite decide_False by done. unfold mbind at 1, io_bind at 1. rewrite Hdir. unfold mbind at 1, io_bind at 1. rewrite Hhead.
  unfold mbind at 1, io_bind at 1. rewrite Hacc. unfold of_result. rewrite Ht. unfold mbind at 1, io_bind at 1, mret at 1, io_ret at 1.
  unfold mbind at 1, io_bind at 1, wrap. unfold AtomicWriteConf, atomicWrite, mbind, io_bind. rewrite Hw, (commitStage_calm _ _ _ _ Hc1 Htmp). cbn. done.
Qed.

Lemma WriteListeners_again path specs s s1 rd :
  WriteListeners print stat_dir path specs s = (s1, Ok rd) → specs ≠ [] → Forall writable specs → short_lines (raw_lines (rd_listeners rd)) →
  fs_files s1 = <[path := rd_full rd]> (fs_files s) ∧ ∀ s2, fs_files s2 = fs_files s1 →
    let '(s3, r) := WriteListeners print stat_dir path specs s2 in
    fs_files s3 = fs_files s1 ∧ match r with Ok rd' => rd' = rd | Err e => io_fault e ∧ fs_faults s2 ≠ [] end.
Proof.
  intros Hw Hne Hws Hs. pose proof (wp_WriteListeners path specs (fs_files s) (fs_loaded s) (λ s' r, match r with
    | Ok rd' => fs_files s' = <[path := rd_full rd']> (fs_files s) ∧ trim_space path ≠ "" ∧ stat_dir (dir path) = Some true
        ∧ ∃ files, write_plan path (fs_files s !! path) specs = Ok (rd', files) ∧ present (fs_files s) files | Err _ => True end) s) as H.
  unfold wp in H. rewrite Hw in H. cbn [fst snd] in H. destruct H as (Hfiles & Hp & Hd & files & Hpl & Hpr); [done|done| |].
  { intros s' rd' files Hpl Hpr Hp Hd [Hf _]. split_and!; eauto. }
  split; [done|]. intros s2 H2. pose proof (write_plan_again _ _ _ _ _ Hpl Hne Hws Hs) as Hagain.
  assert (fs_files s2 !! path = Some (rd_full rd)) as Hcur by (rewrite H2, Hfiles; apply lookup_insert_eq).
  assert (present (fs_files s2) files) as Hpr2.
  { eapply Forall_impl; [exact Hpr|]. intros x [Hx|Hx]; [left|by right]. rewrite H2, Hfiles. destruct (decide (x.2 = path)) as [->|Hxp]; [by rewrite lookup_insert_eq|].
    by rewrite lookup_insert_ne. }
  rewrite <-Hcur in Hagain. pose proof (wp_WriteListeners path specs (fs_files s2) (fs_loaded s2) (λ s' r, fs_files s' = fs_files s1 ∧ match r with
    | Ok rd' => rd' = rd | Err e => io_fault e end) s2) as H'. unfold wp in H'.
  destruct (WriteListeners print stat_dir path specs s2) as [s3 r] eqn:Hw2. cbn [fst snd] in H'. destruct H' as [Hf3 Hr]; [done| | |].
  - intros s' e [Hf _] [Hio|[Hx|[Hx|Hx]]]; [by rewrite Hf|done|done|congruence].
  - intros s' rd' files' Hpl' _ _ _ [Hf _]. assert (rd' = rd) as -> by congruence. split; [|done]. rewrite Hf, H2, Hfiles. by rewrite insert_insert_eq.
  - split; [done|]. destruct r as [rd'|e]; [done|]. split; [done|]. intros Hfl.
    destruct (write_calm path specs s2 rd files Hfl Hp Hd Hagain Hpr2) as (s' & Hs'). congruence.
Qed.
End write.

(** Writing the same listeners twice changes nothing: a write that succeeds
    changes only mosquitto.conf, and any later write of the same listeners leaves
    the files as they are and gives the same text, unless a system call fails. *)
Theorem WriteListeners_idempotent print stat_dir path specs s s1 rd :
  WriteListeners print stat_dir path specs s = (s1, Ok rd) → specs ≠ [] → Forall writable specs → short_lines (raw_lines (rd_listeners rd)) →
  fs_files s1 = <[path := rd_full rd]> (fs_files s) ∧ ∀ s2, fs_files s2 = fs_files s1 →
    let '(s3, r) := WriteListeners print stat_dir path specs s2 in
    fs_files s3 = fs_files s1 ∧ match r with Ok rd' => rd' = rd | Err e => io_fault e ∧ fs_faults s2 ≠ [] end.
Proof. apply WriteListeners_again. Qed.

(** ** Examples *)
Definition writer_conf : string := unlines
  ["# broker"; "listener 1884 0.0.0.0"; "    protocol mqtt"; "persistence true"; "allow_anonymous false"; ""; "acl_file /m/acl"; "password_file /m/passwd"; "log_type all"; ""; ""].
Definition writer_fs (conf : string) : fs :=
  mkFs {["/m/mosquitto.conf" := conf; "/m/acl" := ""; "/data/acl.plant" := ""]} ∅ 0 ∅ [].
Definition plant : ListenerSpec := mkSpec "plant" 1884 "" ["mqtt"] {["acl_file" := "/data/acl.plant"]} "" false.
Definition office : ListenerSpec := mkSpec "office" 1885 "127.0.0.1" ["websockets"; "mqtt"] {["max_connections" := "10"]} "" false.
Definition default_listener : ListenerSpec := mkSpec "default" 1883 "" ["mqtt"] ∅ "" false.
Definition all_dirs : string → option bool := λ p, if decide (p ∈ ["/m"; "/data"]) then Some true else None.
Definition write_example (specs : list ListenerSpec) (conf : string) : fs * result writer_error Rendered :=
  WriteListeners (λ _, true) all_dirs "/m/mosquitto.conf" specs (writer_fs conf).
Definition written_conf (r : fs * result writer_error Rendered) : string := default "" (fs_files r.1 !! "/m/mosquitto.conf").

Example write_example_text : written_conf (write_example [office; default_listener; plant] writer_conf) = unlines
  ["# broker"; "persistence true"; "per_listener_settings true"; "allow_anonymous false"; ""; "acl_file /m/acl"; "password_file /m/passwd"; "log_type all"; "";
   "listener 1884 0.0.0.0"; "    protocol mqtt"; "    acl_file /m/acl.plant"; "    password_file /m/passwd"; "";
   "listener 1885 127.0.0.1"; "    protocol mqtt"; "    protocol websockets"; "    acl_file /m/acl"; "    max_connections 10"; "    password_file /m/passwd"].
Proof. vm_compute. reflexivity. Qed.

(** Without listeners every write adds a line. *)
Example no_listeners_accumulate :
  let once := written_conf (write_example [] writer_conf) in
  once ≠ written_conf (write_example [] once) ∧ contains ("# no listeners configured" +:+ nl +:+ nl +:+ "# no listeners configured") (written_conf (write_example [] once)) = true.
Proof. vm_compute. split; [discriminate|reflexivity]. Qed.
(** The options of a removed listener that are not indented stay, and then
    configure the default listener of the broker. *)
Example flat_options_stay :
  let conf := unlines ["listener 8883"; "certfile /c/cert.pem"; "keyfile /c/key.pem"] in
  head_of conf "/m/mosquitto.conf" = Ok ("certfile /c/cert.pem" +:+ nl +:+ "keyfile /c/key.pem").
Proof. vm_compute. reflexivity. Qed.
(** The indented lines of a block behind a removed listener go with it. *)
Example bridge_emptied :
  let conf := unlines ["listener 1883"; "bridge b {"; "  address other:1883"; "  topic # both"; "}"] in
  head_of conf "/m/mosquitto.conf" = Ok ("bridge b {" +:+ nl +:+ "}").
Proof. vm_compute. reflexivity. Qed.
(** The name of an option is written as it is: a newline in it starts a
    directive of its own. *)
Example option_injects :
  let spec := mkSpec "x" 1884 "" ["mqtt"] {["a" +:+ nl +:+ "allow_anonymous" := "true"]} "" false in
  contains (nl +:+ "allow_anonymous true" +:+ nl) (written_conf (write_example [spec] "")) = true.
Proof. vm_compute. reflexivity. Qed.

Lemma WriteListeners_idempotent_witness : ∃ s1 rd,
  write_example [office; default_listener; plant] writer_conf = (s1, Ok rd)
  ∧ fs_files s1 = <["/m/mosquitto.conf" := rd_full rd]> (fs_files (writer_fs writer_conf)) ∧ ∀ s2, fs_files s2 = fs_files s1 →
    let '(s3, r) := WriteListeners (λ _, true) all_dirs "/m/mosquitto.conf" [office; default_listener; plant] s2 in
    fs_files s3 = fs_files s1 ∧ match r with Ok rd' => rd' = rd | Err e => io_fault e ∧ fs_faults s2 ≠ [] end.
Proof.
  destruct (write_example [office; default_listener; plant] writer_conf) as [s1 [rd|e]] eqn:E; [|vm_compute in E; discriminate].
  exists s1, rd. split; [reflexivity|]. apply (WriteListeners_idempotent (λ _, true) all_dirs "/m/mosquitto.conf" [office; default_listener; plant] (writer_fs writer_conf)).
  - exact E.
  - discriminate.
  - repeat (constructor; [intros k [v Hk]|]); [| | |constructor].
    + change (({["max_connections" := "10"]} : gmap string string) !! k = Some v) in Hk. apply lookup_singleton_Some in Hk as [<- _]. vm_compute. split_and!; reflexivity.
    + change ((∅ : gmap string string) !! k = Some v) in Hk. rewrite lookup_empty in Hk. discriminate.
    + change (({["acl_file" := "/data/acl.plant"]} : gmap string string) !! k = Some v) in Hk. apply lookup_singleton_Some in Hk as [<- _]. vm_compute. split_and!; reflexivity.
  - assert (rd_listeners rd = match (write_example [office; default_listener; plant] writer_conf).2 with Ok r => rd_listeners r | Err _ => "" end) as -> by (rewrite E; reflexivity).
    unfold short_lines. refine (bool_decide_unpack _ _). vm_compute. exact I.
Defined.
