(* ===== verification/DeployRender.v ===== *)
(** * What a deploy writes ([internal/deploy/service.go], [internal/deploy/acl_scope.go])

    The world of the deploy service, and the render of the broker files from
    the store: the managed rules by scope, the adopted ACL sources, the password
    file with the service account, and the files of the listeners. *)
From S2P Require Import Prelude IO Unicode GoStrings GoPath Sha256 Hash Passwd Acl AclDoc Conf Store Applier Probe.

(** ** The world *)
Inductive verify_message := VNoProbe | VCancelled (attempts : nat) | VFailed (text : string) (kind : verificationProbeKind).
(** What a status message says. *)
Inductive message :=
  | NoMessage
  | MsgConsume (consumed : bool) (e : store_error)
  | MsgApply (e : apply_error)
  | MsgProbe (kind : verificationProbeKind) (attempts : nat)
  | MsgVerify (attempts : nat) (v : verify_message)
  | MsgStore (what : string) (e : store_error)
  | MsgText (text : string)
  | MsgJoin (a b : message).

(** An answer of the active verifier; [vd_done] says that the context is done
    during the wait after it. *)
Record verdict := mkVerdict { vd_ok : bool; vd_message : string; vd_done : bool }.
Record audit_event := mkAudit { au_actor : string; au_action : string; au_id : option Z; au_result : string }.
Record ListenerSpecRow := mkSpec { ls_id : string; ls_options : gmap string string }.

Record world := mkWorld {
  w_fs : fs; w_db : db message; w_specs : list ListenerSpecRow;
  w_random : list string; w_verdicts : list verdict; w_locked : bool; w_audit : list audit_event
}.
Definition set_fs f w := mkWorld f (w_db w) (w_specs w) (w_random w) (w_verdicts w) (w_locked w) (w_audit w).
Definition set_db d w := mkWorld (w_fs w) d (w_specs w) (w_random w) (w_verdicts w) (w_locked w) (w_audit w).
Definition set_random l w := mkWorld (w_fs w) (w_db w) (w_specs w) l (w_verdicts w) (w_locked w) (w_audit w).
Definition set_verdicts l w := mkWorld (w_fs w) (w_db w) (w_specs w) (w_random w) l (w_locked w) (w_audit w).
Definition set_locked b w := mkWorld (w_fs w) (w_db w) (w_specs w) (w_random w) (w_verdicts w) b (w_audit w).
Definition set_audit l w := mkWorld (w_fs w) (w_db w) (w_specs w) (w_random w) (w_verdicts w) (w_locked w) l.

Inductive scope_issue :=
  | ConfNotManaged | ListenerMissing (id : string) | ACLFileNotDeclared (id path : string)
  | ACLFileDiffers (id declared path : string).

Inductive deploy_error :=
  | ErrDeployDisabled | ErrDeployInProgress
  | ErrRevisionMissing | ErrRevisionMismatch | ErrRevisionExpired | ErrRevisionConsumed
  | ErrACLScopeNotWired (issues : list scope_issue) | ErrUnmanagedACLContent (entries : list string)
  | StoreError (what : string) (e : store_error) | ReadError (path : string) | ConfParseError (path : string) | RandomError | DiffError
  | ConsumeFailed (consumed : bool) (e : store_error) | ApplyFailed (e : apply_error) | VerificationRollbackFailed (e : apply_error)
  (** Another error after [e]: the status could not be stored, the record not read back. *)
  | StatusLost (e : deploy_error) (status : store_error) | RecordLost (e : deploy_error) (get : store_error)
  | ErrDeploymentPersistence (e : deploy_error)
  | ErrDeploymentStateIndeterminate (persistence rollback : deploy_error)
  (** The record that is returned along with the error. *)
  | WithRecord (d : Deployment message) (e : deploy_error).

Abbreviation deploy := (io world deploy_error).
Definition on_fs {A} (f : cause → deploy_error) (m : io fs cause A) : deploy A := zoom w_fs set_fs f m.
Definition on_db {A} (what : string) (m : io (db message) store_error A) : deploy A := zoom w_db set_db (StoreError what) m.
Definition raw_db {A} (m : io (db message) store_error A) : io world store_error A := zoom w_db set_db (λ e, e) m.

(** [os.ReadFile], where a missing file is empty. *)
Definition read_file (path : string) : io fs cause string :=
  syscall ReadFile ;; s ← get; mret (default "" (fs_files s !! path)).
Definition readFile (path : string) : deploy string := on_fs (λ _, ReadError path) (read_file path).

(** [crypto/rand.Read]: the next bytes. *)
Definition random_bytes : deploy string := λ w,
  match w_random w with [] => (w, Err RandomError) | b :: rest => (set_random rest w, Ok b) end.

(** ** Configuration *)
Inductive Applier := AppFile (f : FileApplier) | AppDocker (d : DockerApplier).
Record config := mkConfig {
  cf_mode : string; cf_acl : string; cf_passwd : string; cf_conf : string;
  cf_username : string; cf_password : string; cf_applier : Applier;
  cf_cleartext : string → option string
}.

(** ** [renderConfig] *)
Record ACLFileRender := mkRender { fr_scope : string; fr_listener : string; fr_path : string; fr_body : string }.
Record renderedConfig := mkRendered {
  rc_acl : string; rc_files : list ACLFileRender; rc_passwd : string; rc_orphans : list Rule;
  rc_warnings : list warning; rc_source : option ACLSourceRow
}.

Definition splitRulesByScope (rules : list Rule) : list Rule * gmap string (list Rule) :=
  foldl (λ '(global, byListener) rule,
    if IsListenerScoped rule
    then (global, <[r_listener_id rule := default [] (byListener !! r_listener_id rule) ++ [rule]]> byListener)
    else (global ++ [rule], byListener)) ([], ∅) rules.
Definition sortedListenerIDs (byListener : gmap string (list Rule)) : list string := sort_strings (elements (dom byListener)).

Definition adoptedACLSourceForPath (path : string) : deploy (option ACLSourceRow) :=
  if decide (path = "") then mret None
  else
    r ← attempt (raw_db (GetACLSource path));
    match r with
    | Ok row => mret (Some row)
    | Err ErrACLSourceNotFound => mret None
    | Err e => fail (StoreError "read adopted acl source" e)
    end.

(** The body of an ACL file: the rules alone, or composed into the source. *)
Definition compose_source (source : option ACLSourceRow) (rules : list Rule) : string * list warning :=
  match source with
  | None => (RenderACLFile rules, [])
  | Some row => let '(doc, warnings) := ComposeACLDocument (ParseACLDocument (as_body row)) rules in (Render doc, warnings)
  end.

Definition is_listener_file (f : ACLFileRender) : bool := bool_decide (fr_scope f = ScopeListener).

Section render.
Context (cfg : config) (pbkdf2 : string → string → Z → string).

Definition service_rules : list Rule := if decide (cf_username cfg = "") then [] else serviceUserACL (cf_username cfg).

Definition render_listener (byListener : gmap string (list Rule)) (listenerID : string) : deploy (ACLFileRender * list warning) :=
  let scoped := default [] (byListener !! listenerID) ++ service_rules in
  let path := ListenerACLPath (cf_acl cfg) listenerID in
  source ← adoptedACLSourceForPath path;
  let '(body, warnings) := compose_source source scoped in
  mret (mkRender ScopeListener listenerID path body, warnings).

(** The hash of the service account: the one on disk when it matches. *)
Definition service_hash (existing : string) : deploy string :=
  let matches_configured := negb (bool_decide (existing = ""))
    && match VerifyPassword pbkdf2 existing (cf_password cfg) with Ok b => b | Err _ => false end in
  if matches_configured then mret existing
  else salt ← random_bytes; mret (HashPassword pbkdf2 (cf_password cfg) DefaultIterations salt).

Definition active_rules (rules orphans : list Rule) : list Rule :=
  filter (λ r, ¬ (IsUserScoped r = true ∧ r_principal r ∈ r_principal <$> orphans)) rules.
Definition user_entries (users : list MQTTUser) : list PasswdEntry :=
  (λ u, mkPasswd (u_username u) (u_hash u)) <$> filter (λ u, u_disabled u = false) users.

Definition renderConfig : deploy renderedConfig :=
  rules ← on_db "list acl rules" ListRules;
  orphans ← on_db "find orphan acl rules" FindOrphanRules;
  users ← on_db "list mqtt users" ListMQTTUsers;
  existingPasswd ← readFile (cf_passwd cfg);
  let existingHash := pe_hash <$> map_by pe_username (ParsePasswdFile existingPasswd) !! cf_username cfg in
  let '(globalRules, listenerRules) := splitRulesByScope (active_rules rules orphans) in
  let allRules := globalRules ++ service_rules in
  source ← adoptedACLSourceForPath (cf_acl cfg);
  let '(aclBody, warnings) := compose_source source allRules in
  listeners ← collect (render_listener listenerRules) (sortedListenerIDs listenerRules);
  service ← (if decide (cf_username cfg = "" ∨ cf_password cfg = "") then mret []
             else hash ← service_hash (default "" existingHash); mret [mkPasswd (cf_username cfg) hash]);
  mret (mkRendered aclBody (mkRender ScopeGlobal "" (cf_acl cfg) aclBody :: listeners.*1)
          (RenderPasswdFile (user_entries users ++ service)) orphans (warnings ++ concat listeners.*2) source).

(** ** Content MCM cannot reproduce *)
Definition aclKeyPrincipal (key : string) : option string :=
  if has_prefix "user " key then
    let rest := trim_prefix "user " key in
    match String.index 0 " | " rest with Some i => Some (take_bytes i rest) | None => None end
  else None.
Definition baseCarriesACLContent (doc : ACLDocument) : bool :=
  existsb (λ e, match e_kind e with ACLEntryUser | ACLEntryTopic | ACLEntryPattern => true | _ => false end) (doc_entries doc).

Definition knownPrincipals : deploy (gset string) :=
  users ← on_db "list mqtt users" ListMQTTUsers;
  rules ← on_db "list acl rules" ListRules;
  orphans ← on_db "find orphan acl rules" FindOrphanRules;
  mret (list_to_set ((u_username <$> users)
    ++ (if decide (cf_username cfg = "") then [] else [cf_username cfg])
    ++ (r_principal <$> filter (λ r, IsUserScoped r = true ∧ r_principal r ≠ "") rules)
    ++ (r_principal <$> filter (λ r, r_principal r ≠ "") orphans))).

Definition blocks_apply (base : ACLDocument) (known : gset string) (key : string) : bool :=
  if has_prefix "unknown | " key then baseCarriesACLContent base
  else match aclKeyPrincipal key with Some principal => negb (bool_decide (principal ∈ known)) | None => false end.
Definition blockingACLEntries (base : ACLDocument) (atRisk : list string) : deploy (list string) :=
  match atRisk with
  | [] => mret []
  | _ => known ← knownPrincipals; mret (filter (λ key, blocks_apply base known key = true) atRisk)
  end.

(** ** The plan of the files *)
Record aclFilePlan := mkPlan { pl_global : ACLFile; pl_listener : list ACLFile; pl_remove : list ACLFile }.

Definition managedACLFiles : deploy (list ManagedACLFileRow) := on_db "list managed acl files" ListManagedACLFiles.

Definition plan_file (bodies : gmap string string) (f : ACLFileRender) : deploy ACLFile :=
  snapshot ← readFile (fr_path f);
  mret (mkACLFile (fr_path f) (default (fr_body f) (bodies !! fr_path f)) snapshot).
Definition plan_removal (row : ManagedACLFileRow) : deploy ACLFile :=
  snapshot ← readFile (mf_path row); mret (mkACLFile (mf_path row) "" snapshot).
Definition retired (rendered : renderedConfig) (rows : list ManagedACLFileRow) : list ManagedACLFileRow :=
  filter (λ row, mf_path row ∉ fr_path <$> rc_files rendered) rows.

Definition planACLFiles (rendered : renderedConfig) (bodies : gmap string string) : deploy aclFilePlan :=
  entries ← collect (plan_file bodies) (rc_files rendered);
  managed ← managedACLFiles;
  removed ← collect plan_removal (retired rendered managed);
  let pairs := zip (rc_files rendered) entries in
  mret (mkPlan (default (mkACLFile "" "" "") (last (snd <$> filter (λ p, is_listener_file p.1 = false) pairs)))
          (snd <$> filter (λ p, is_listener_file p.1 = true) pairs)
          (sort_stable (λ a b, string_less (af_path a) (af_path b)) removed)).

(** [aclFilesHash]: the paths and the bodies in the order of the paths. *)
Definition aclFilesHash (files : list ACLFileRender) : string :=
  contentHash (foldr (λ f acc, fr_path f +:+ chr_str "000" +:+ fr_body f +:+ chr_str "000" +:+ acc) ""
    (sort_stable (λ a b, string_less (fr_path a) (fr_path b)) files)).

(** ** JSON objects of strings

    [json.Marshal] writes the entries in the order of the keys and replaces the
    bytes that are not UTF-8 by U+FFFD; [json.Unmarshal] keeps the last of two
    equal keys. *)
Definition sanitize (s : string) : string := foldr (λ r acc, encode_rune r +:+ acc) "" (runes s).
Definition json_object (m : gmap string string) : payload :=
  foldl (λ acc k, match m !! k with Some v => <[sanitize k := sanitize v]> acc | None => acc end) ∅ (sort_strings (elements (dom m))).
Definition by_path (body : ACLFile → string) (files : list ACLFile) : gmap string string :=
  foldl (λ m f, <[af_path f := body f]> m) ∅ files.

Definition listenerACLRenderedJSON (files : list ACLFileRender) : payload :=
  json_object (foldl (λ m f, <[fr_listener f := fr_body f]> m) ∅ (filter (λ f, is_listener_file f = true) files)).
Definition listenerSnapshotJSON (plan : aclFilePlan) : payload := json_object (by_path af_snapshot (pl_listener plan ++ pl_remove plan)).
Definition listenerRenderedJSON (plan : aclFilePlan) : payload := json_object (by_path af_body (pl_listener plan)).

(** ** The wiring of the listeners *)
Definition listener_files (rendered : renderedConfig) : list ACLFileRender := filter (λ f, is_listener_file f = true) (rc_files rendered).

Definition wiring_issue (specs : gmap string ListenerSpecRow) (f : ACLFileRender) : option scope_issue :=
  match specs !! fr_listener f with
  | None => Some (ListenerMissing (fr_listener f))
  | Some spec =>
      let declared := trim_space (default "" (ls_options spec !! "acl_file")) in
      if decide (declared = "") then Some (ACLFileNotDeclared (fr_listener f) (fr_path f))
      else if decide (declared ≠ fr_path f) then Some (ACLFileDiffers (fr_listener f) declared (fr_path f))
      else None
  end.
(** [ListListenerSpecs]: a query. *)
Definition listenerSpecs : deploy (list ListenerSpecRow) :=
  on_db "list listener specs" (select (λ _, tt)) ;; w ← get; mret (w_specs w).
Definition scopeWiringIssues (rendered : renderedConfig) : deploy (list scope_issue) :=
  match listener_files rendered with
  | [] => mret []
  | files =>
      specs ← listenerSpecs;
      mret ((if decide (cf_conf cfg = "") then [ConfNotManaged] else []) ++ omap (wiring_issue (map_by ls_id specs)) files)
  end.

Definition brokerGlobalACLFile (body : string) : string :=
  match Parse body (cf_conf cfg) with
  | Err _ => ""
  | Ok file =>
      match head (filter (λ i, it_kind i = ItemDirective ∧ it_key i = "acl_file") (f_items file)) with
      | Some i => match it_values i with v :: _ => trim_space v | [] => "" end
      | None => ""
      end
  end.
(** The listener and the path that the broker configuration does not name yet. *)
Definition pending_file (body globalACLFile : string) (f : ACLFileRender) : option (string * string) :=
  let brokerPath := (BrokerACLPath (fr_path f) globalACLFile (fr_listener f)).1 in
  if negb (bool_decide (globalACLFile = "")) && contains brokerPath body then None else Some (fr_listener f, brokerPath).
Definition scopeActivationPending (rendered : renderedConfig) : deploy (list (string * string)) :=
  match listener_files rendered with
  | [] => mret []
  | files =>
      if decide (cf_conf cfg = "") then mret []
      else body ← readFile (cf_conf cfg); mret (omap (pending_file body (brokerGlobalACLFile body)) files)
  end.

Definition perListenerSettingsEnabled : deploy bool :=
  if decide (cf_conf cfg = "") then mret true
  else
    body ← readFile (cf_conf cfg);
    if decide (trim_space body = "") then mret true
    else match Parse body (cf_conf cfg) with
    | Err _ => fail (ConfParseError (cf_conf cfg))
    | Ok file =>
        mret match head (filter (λ i, it_kind i = ItemDirective ∧ it_key i = "per_listener_settings") (f_items file)) with
        | Some i => match it_values i with
                    | v :: _ => bool_decide (to_lower (trim_space v) ∈ ["true"; "yes"; "on"; "1"])
                    | [] => false
                    end
        | None => false
        end
    end.

(** ** The registry of the listener files *)
Definition release (path : string) : deploy unit :=
  r ← attempt (raw_db (DeleteManagedACLFile path));
  match r with
  | Ok _ | Err ErrManagedACLFileNotFound => mret tt
  | Err e => fail (StoreError "release managed acl file" e)
  end.

(** The order in which Go visits the map is not fixed; here it is that of the keys. *)
Definition recordManagedACLFiles (rendered : renderedConfig) : deploy unit :=
  let current := foldl (λ m f, <[fr_path f := fr_listener f]> m) ∅ (listener_files rendered) : gmap string string in
  existing ← managedACLFiles;
  for_each (λ row, if decide (is_Some (current !! mf_path row)) then mret tt else release (mf_path row)) existing ;;
  for_each (λ '(path, listenerID), on_db "record managed acl file" (RecordManagedACLFile path listenerID)) (map_to_list current).

Definition restoreManagedACLFiles (previous : list ManagedACLFileRow) : deploy unit :=
  current ← managedACLFiles;
  for_each (λ row, if decide (mf_path row ∈ mf_path <$> previous) then mret tt else release (mf_path row)) current ;;
  for_each (λ row, on_db "restore managed acl file" (RecordManagedACLFile (mf_path row) (mf_listener row))) previous.
End render.
