(* ===== verification/Deploy.v ===== *)
(** * Preview, apply and rollback of a deploy ([internal/deploy/service.go])

    A preview stores an immutable revision: the rendered files and the hashes
    of what they were rendered from.  An apply consumes one revision, hands the
    files to the applier, probes the broker, and rolls back when the probe or
    the bookkeeping fails.  Every step is recorded in the status of the
    deployment.  [pbkdf2] and the diff library are third-party code. *)
From S2P Require Import Prelude IO Unicode GoStrings GoTime Sha256 Passwd Acl AclDoc Conf Store Applier Probe DeployRender.

Definition previewRevisionTTL : Z := hour.
Definition verifyAttempts : nat := 3.
Definition maxDiffLines : nat := 500.

(** ** Diffs *)

(** [strings.SplitAfter(s, "\n")]. *)
Fixpoint split_after (s : string) : list string :=
  match s with
  | "" => [""]
  | String c s' =>
      if decide (c = nl_char) then chr_str c :: split_after s'
      else match split_after s' with l :: rest => String c l :: rest | [] => [String c ""] end
  end.
Definition truncated_note : string := nl +:+ "[... diff truncated at 500 lines ...]" +:+ nl.
Definition clamp_diff (diff : string) : string :=
  let lines := split_after diff in
  join "" (if decide (maxDiffLines < length lines) then take maxDiffLines lines ++ [truncated_note] else lines).

(** ** Results of a preview *)
Record ListenerACLPreview := mkListenerPreview {
  lp_listener : string; lp_path : string; lp_body : string; lp_diff : string;
  lp_at_risk : list string; lp_preserved : list string
}.
Record PreviewResult := mkPreview {
  pv_revision : string; pv_base_acl : string; pv_base_passwd : string; pv_rendered_acl : string; pv_rendered_passwd : string;
  pv_orphans : list Rule; pv_acl_diff : string; pv_passwd_diff : string; pv_acl : string; pv_passwd : string;
  pv_at_risk : list string; pv_preserved : list string; pv_warnings : list warning;
  pv_listener : list ListenerACLPreview; pv_removed : list string;
  pv_issues : list scope_issue; pv_pending : list (string * string); pv_summary : ChangeSummary; pv_changes : bool
}.

(** The lines of the source that MCM does not model and the render keeps; every
    rendered line counts once. *)
Fixpoint remove_one (x : string) (l : list string) : option (list string) :=
  match l with [] => None | y :: l' => if decide (x = y) then Some l' else cons y <$> remove_one x l' end.
Fixpoint preserved_lines (rendered unknown : list string) : list string :=
  match unknown with
  | [] => []
  | x :: rest => match remove_one x rendered with
                 | Some rendered' => x :: preserved_lines rendered' rest
                 | None => preserved_lines rendered rest
                 end
  end.
Definition preservedACLEntries (source : option ACLSourceRow) (rendered : ACLDocument) : list string :=
  match source with
  | None => []
  | Some row => preserved_lines (e_raw <$> doc_entries rendered)
                  (e_raw <$> filter (λ e, e_kind e = ACLEntryUnknown) (doc_entries (ParseACLDocument (as_body row))))
  end.

Definition emitAudit (actor action : string) (id : option Z) (outcome : string) : deploy unit :=
  modify (λ w, set_audit (w_audit w ++ [mkAudit actor action id outcome]) w).

Section service.
Context (cfg : config) (pbkdf2 : string → string → Z → string) (difflib : string → string → option string).

Definition unifiedDiff (current rendered : string) : deploy string :=
  match difflib current rendered with Some diff => mret (clamp_diff diff) | None => fail DiffError end.

(** ** [Preview] *)
Definition preview_listener (f : ACLFileRender) : deploy ListenerACLPreview :=
  current ← readFile (fr_path f);
  diff ← unifiedDiff current (fr_body f);
  source ← adoptedACLSourceForPath (fr_path f);
  mret (mkListenerPreview (fr_listener f) (fr_path f) (fr_body f) diff
    (MissingSemanticEntries (ParseACLDocument current) (ParseACLDocument (fr_body f)))
    (preservedACLEntries source (ParseACLDocument (fr_body f)))).
Definition previewListenerACLFiles (rendered : renderedConfig) : deploy (list ListenerACLPreview * list string * bool) :=
  previews ← collect preview_listener (listener_files rendered);
  managed ← managedACLFiles;
  let removed := mf_path <$> retired rendered managed in
  mret (previews, sort_strings removed,
    existsb (λ p, negb (bool_decide (lp_diff p = ""))) previews || negb (bool_decide (removed = []))).

Definition db_now_utc : deploy Z := on_db "" now.

Definition previewLocked (actor : string) : deploy PreviewResult :=
  rendered ← renderConfig cfg pbkdf2;
  let aclBody := rc_acl rendered in
  let passwdBody := rc_passwd rendered in
  currentACL ← readFile (cf_acl cfg);
  currentPasswd ← readFile (cf_passwd cfg);
  aclDiff ← unifiedDiff currentACL aclBody;
  passwdDiff ← unifiedDiff (redactPasswdHashes currentPasswd) (redactPasswdHashes passwdBody);
  bytes ← random_bytes;
  let revisionID := hex_encode (bytes_of bytes) in
  created ← db_now_utc;
  let revision := mkRevision revisionID actor (contentHash currentACL) (contentHash currentPasswd)
    (contentHash aclBody) (contentHash passwdBody) aclBody passwdBody
    (listenerACLRenderedJSON (rc_files rendered)) (aclFilesHash (rc_files rendered)) created None in
  on_db "store preview revision" (InsertPreviewRevision revision) ;;
  let summary := summarizeChanges currentPasswd passwdBody currentACL aclBody in
  let base := ParseACLDocument currentACL in
  let next := ParseACLDocument aclBody in
  listeners ← previewListenerACLFiles rendered;
  issues ← scopeWiringIssues cfg rendered;
  pending ← scopeActivationPending cfg rendered;
  let '(previews, removed, listenerChanged) := listeners in
  mret (mkPreview revisionID (pr_base_acl revision) (pr_base_passwd revision) (pr_rendered_acl revision) (pr_rendered_passwd revision)
    (rc_orphans rendered) aclDiff passwdDiff aclBody passwdBody
    (MissingSemanticEntries base next) (preservedACLEntries (rc_source rendered) next) (rc_warnings rendered)
    previews removed issues pending summary
    (negb (bool_decide (aclDiff = "")) || negb (bool_decide (passwdDiff = ""))
     || cs_passwd_changes summary || cs_acl_changes summary || listenerChanged)).

Definition Preview (actor : string) : deploy PreviewResult :=
  if decide (cf_mode cfg = "") then fail ErrDeployDisabled
  else preview ← previewLocked actor; emitAudit actor "deployment.preview" None "success" ;; mret preview.

(** ** The applier *)
Definition applier_apply (req : ApplyRequest) : io world apply_error unit :=
  zoom w_fs set_fs (λ e, e) (match cf_applier cfg with AppFile f => FileApply f req | AppDocker d => DockerApply d req end).

(** ** [runVerifier] *)
Definition next_verdict : deploy verdict := λ w,
  match w_verdicts w with
  | [] => (w, Ok (mkVerdict false "" false))
  | v :: rest => (set_verdicts rest w, Ok v)
  end.
(** The attempts [attempt], [attempt + 1], ... of which [left_] remain. *)
Fixpoint verify_loop (left_ attempt : nat) (kind : verificationProbeKind) : deploy (option verify_message * nat) :=
  v ← next_verdict;
  if vd_ok v then mret (None, attempt)
  else match left_ with
  | O => mret (Some (VFailed (vd_message v) kind), verifyAttempts)
  | S left_ => if vd_done v then mret (Some (VCancelled attempt), attempt) else verify_loop left_ (S attempt) kind
  end.
(** [None] is an OK result; the probe kind is that of the picked probe. *)
Definition runVerifier (aclBody passwdBody : string) : deploy (option verify_message * nat * option verificationProbeKind) :=
  match pickVerificationProbe (cf_username cfg) (cf_password cfg) (cf_cleartext cfg) aclBody passwdBody with
  | None => mret (Some VNoProbe, 0, None)
  | Some probe => r ← verify_loop (pred verifyAttempts) 1 (vp_kind probe); mret (r, Some (vp_kind probe))
  end.

(** ** Rollbacks *)

(** The request that restores the record's snapshots; its own snapshots are
    left empty. *)
Definition rollbackRequest (d : Deployment message) (aclSnapshot passwdSnapshot : string) : ApplyRequest :=
  mkApplyRequest aclSnapshot ""
    ((λ path, mkACLFile path (default "" (dp_listener_snapshot d !! path)) "") <$> sort_strings (elements (dom (dp_listener_snapshot d))))
    [] passwdSnapshot "".

Definition updateDeploymentStatus (id : Z) (status : string) (m : message) : io world store_error unit :=
  raw_db (UpdateDeploymentStatus id status m).
Definition getDeployment (id : Z) : io world store_error (Deployment message) := raw_db (GetDeployment id).

Definition audit_record (actor action : string) (d : Deployment message) (outcome : string) : deploy unit :=
  emitAudit actor action (Some (dp_id d)) outcome.

(** What is returned after the error [e]: the record with it, or the failure
    of the bookkeeping. *)
Definition report (e : deploy_error) (status : result store_error unit) (get : result store_error (Deployment message)) :
    deploy (Deployment message) :=
  match status, get with
  | Err se, _ => fail (StatusLost e se)
  | Ok _, Err ge => fail (RecordLost e ge)
  | Ok _, Ok d => fail (WithRecord d e)
  end.

Definition rollbackAfterVerifyFailure (actor : string) (d : Deployment message) (aclSnapshot passwdSnapshot : string)
    (msg : message) (previousManaged : list ManagedACLFileRow) : deploy (Deployment message) :=
  r ← attempt (applier_apply (rollbackRequest d aclSnapshot passwdSnapshot));
  match r with
  | Err e =>
      status ← attempt (updateDeploymentStatus (dp_id d) "rollback_failed" (MsgJoin msg (MsgApply e)));
      audit_record actor "deployment.rollback_failed" d "failure" ;;
      get ← attempt (getDeployment (dp_id d));
      report (VerificationRollbackFailed e) status get
  | Ok _ =>
      restored ← attempt (restoreManagedACLFiles previousManaged);
      let msg := match restored with
                 | Ok _ => msg
                 | Err (StoreError what e) => MsgJoin msg (MsgStore what e)
                 | Err _ => msg
                 end in
      wrap (StoreError "persist rolled_back status") (updateDeploymentStatus (dp_id d) "rolled_back" msg) ;;
      audit_record actor "deployment.rolled_back" d "failure" ;;
      wrap (StoreError "get deployment after rollback") (getDeployment (dp_id d))
  end.

Definition rollbackAfterPersistenceFailure (actor : string) (d : Deployment message) (aclSnapshot passwdSnapshot : string)
    (msg : message) (e : deploy_error) (previousManaged : list ManagedACLFileRow) : deploy (Deployment message) :=
  r ← attempt (rollbackAfterVerifyFailure actor d aclSnapshot passwdSnapshot msg previousManaged);
  match r with
  | Err (WithRecord d' rollback) => fail (WithRecord d' (ErrDeploymentStateIndeterminate e rollback))
  | Err rollback => fail (ErrDeploymentStateIndeterminate e rollback)
  | Ok d' => fail (WithRecord d' (ErrDeploymentPersistence e))
  end.

Definition rollback_failed (e : apply_error) : bool := match e with ErrRollbackFailed _ _ _ => true | _ => false end.
Definition recordApplyFailure (actor : string) (d : Deployment message) (e : apply_error) : deploy (Deployment message) :=
  let status := if rollback_failed e then "rollback_failed" else "failed" in
  let action := if rollback_failed e then "deployment.rollback_failed" else "deployment.failed" in
  stored ← attempt (updateDeploymentStatus (dp_id d) status (MsgApply e));
  audit_record actor action d "failure" ;;
  match stored with
  | Err se => fail (StatusLost (ApplyFailed e) se)
  | Ok _ => get ← attempt (getDeployment (dp_id d)); report (ApplyFailed e) stored get
  end.

(** ** [applyRevision] *)
Definition consumePreviewRevision (id : string) (t : Z) : io world store_error unit := raw_db (ConsumePreviewRevision id t).

(** The checks that come before the record is created: the revision and the
    plan of the files, with the snapshots and the render they were made from. *)
Definition validate_revision (revisionID : string) : deploy (PreviewRevision * string * string * renderedConfig * aclFilePlan) :=
  r ← attempt (raw_db (GetPreviewRevision revisionID));
  revision ← match r with
    | Ok revision => mret revision
    | Err ErrPreviewRevisionNotFound => fail ErrRevisionMissing
    | Err e => fail (StoreError "get preview revision" e)
    end;
  if decide (pr_applied revision ≠ None) then fail ErrRevisionConsumed
  else
    now ← db_now_utc;
    if decide (pr_created revision + previewRevisionTTL < now)%Z then fail ErrRevisionExpired
    else
      aclSnapshot ← readFile (cf_acl cfg);
      passwdSnapshot ← readFile (cf_passwd cfg);
      if decide (contentHash aclSnapshot ≠ pr_base_acl revision ∨ contentHash passwdSnapshot ≠ pr_base_passwd revision)
      then fail ErrRevisionMismatch
      else
        current ← renderConfig cfg pbkdf2;
        if decide (contentHash (rc_acl current) ≠ pr_rendered_acl revision
                   ∨ contentHash (rc_passwd current) ≠ pr_rendered_passwd revision
                   ∨ aclFilesHash (rc_files current) ≠ pr_files_hash revision)
        then fail ErrRevisionMismatch
        else
          plan ← planACLFiles current (pr_listener revision ∪ {[cf_acl cfg := pr_acl revision]});
          issues ← scopeWiringIssues cfg current;
          if decide (issues ≠ []) then fail (ErrACLScopeNotWired issues)
          else
            let base := ParseACLDocument aclSnapshot in
            blocking ← blockingACLEntries cfg base (MissingSemanticEntries base (ParseACLDocument (rc_acl current)));
            if decide (blocking ≠ []) then fail (ErrUnmanagedACLContent blocking)
            else mret (revision, aclSnapshot, passwdSnapshot, current, plan).

Definition is_consumed (e : store_error) : bool := match e with ErrPreviewRevisionConsumed => true | _ => false end.
Definition consume_revision (d : Deployment message) (revisionID : string) : deploy unit :=
  t ← db_now_utc;
  r ← attempt (consumePreviewRevision revisionID t);
  match r with
  | Ok _ => mret tt
  | Err e =>
      status ← attempt (updateDeploymentStatus (dp_id d) "failed" (MsgConsume (is_consumed e) e));
      match status with
      | Err se => fail (StatusLost (ConsumeFailed (is_consumed e) e) se)
      | Ok _ => fail (ConsumeFailed (is_consumed e) e)
      end
  end.

Definition apply_request (plan : aclFilePlan) (passwdRendered passwdSnapshot : string) : ApplyRequest :=
  mkApplyRequest (af_body (pl_global plan)) (af_snapshot (pl_global plan)) (pl_listener plan) (pl_remove plan)
    passwdRendered passwdSnapshot.

(** After the applier succeeded: the registry, the verification and its outcome. *)
Definition activate (actor : string) (d : Deployment message) (revision : PreviewRevision) (aclSnapshot passwdSnapshot : string)
    (rendered : renderedConfig) (previousManaged : list ManagedACLFileRow) : deploy (Deployment message) :=
  recorded ← attempt (recordManagedACLFiles rendered);
  match recorded with
  | Err e =>
      rollbackAfterVerifyFailure actor d aclSnapshot passwdSnapshot
        (match e with StoreError what se => MsgStore what se | _ => NoMessage end) previousManaged
  | Ok _ =>
      pending ← attempt (updateDeploymentStatus (dp_id d) "pending_activation" NoMessage);
      match pending with Ok _ => audit_record actor "deployment.pending_activation" d "success" | Err _ => mret tt end ;;
      verified ← runVerifier (pr_acl revision) (pr_passwd revision);
      let lost := "persist pending_activation status" in
      match verified with
      | (None, attempts, kind) =>
          let msg := MsgProbe (default probeKindServiceGrant kind) attempts in
          match pending with
          | Err se => rollbackAfterPersistenceFailure actor d aclSnapshot passwdSnapshot (MsgStore lost se) (StoreError lost se) previousManaged
          | Ok _ =>
              stored ← attempt (updateDeploymentStatus (dp_id d) "active_verified" msg);
              match stored with
              | Err se =>
                  let lost := "persist active_verified status" in
                  rollbackAfterPersistenceFailure actor d aclSnapshot passwdSnapshot (MsgStore lost se) (StoreError lost se) previousManaged
              | Ok _ =>
                  audit_record actor "deployment.active_verified" d "success" ;;
                  wrap (StoreError "get deployment after active verification") (getDeployment (dp_id d))
              end
          end
      | (Some failure, attempts, _) =>
          let msg := MsgVerify attempts failure in
          match pending with
          | Err se =>
              rollbackAfterPersistenceFailure actor d aclSnapshot passwdSnapshot (MsgJoin msg (MsgStore lost se)) (StoreError lost se) previousManaged
          | Ok _ => rollbackAfterVerifyFailure actor d aclSnapshot passwdSnapshot msg previousManaged
          end
      end
  end.

Definition apply_locked (actor revisionID : string) : deploy (Deployment message) :=
  valid ← validate_revision revisionID;
  let '(revision, aclSnapshot, passwdSnapshot, current, plan) := valid in
  d ← on_db "insert deployment" (InsertDeployment (mkDeployment 0 revisionID actor "saved" "" ""
        aclSnapshot passwdSnapshot (pr_acl revision) (pr_passwd revision)
        (listenerSnapshotJSON plan) (listenerRenderedJSON plan) "" "" NoMessage 0 0));
  audit_record actor "deployment.saved" d "success" ;;
  wrap (StoreError "update deployment status to applying") (updateDeploymentStatus (dp_id d) "applying" NoMessage) ;;
  audit_record actor "deployment.applying" d "success" ;;
  consume_revision d revisionID ;;
  previousManaged ← managedACLFiles;
  applied ← attempt (applier_apply (apply_request plan (pr_passwd revision) passwdSnapshot));
  match applied with
  | Err e => recordApplyFailure actor d e
  | Ok _ => activate actor d revision aclSnapshot passwdSnapshot current previousManaged
  end.

(** [s.mu.TryLock()] and the deferred unlock. *)
Definition applyRevision (actor revisionID : string) : deploy (Deployment message) := λ w,
  if decide (revisionID = "") then (w, Err ErrRevisionMissing)
  else if w_locked w then (w, Err ErrDeployInProgress)
  else let '(w', r) := apply_locked actor revisionID (set_locked true w) in (set_locked false w', r).

Definition Apply (actor revisionID : string) : deploy (Deployment message) :=
  if decide (cf_mode cfg = "") then fail ErrDeployDisabled
  else if decide (revisionID = "") then fail ErrRevisionMissing
  else applyRevision actor revisionID.

Definition List_deployments (limit offset : Z) : deploy (list (Deployment message)) :=
  if decide (cf_mode cfg = "") then fail ErrDeployDisabled else on_db "" (ListDeployments limit offset).
End service.
