(* ===== verification/DeployFrame.v ===== *)
(** * What the operations of a deploy leave alone

    Most of an apply only reads.  A computation is quiet when it changes at
    most the clock, the sources of faults, random bytes and verdicts; the
    render, the plan of the files and the checks of an apply are quiet. *)
From S2P Require Import Prelude IO Unicode GoStrings Sha256 Hash Passwd Acl AclDoc Conf Store Applier Probe DeployRender Deploy.

Definition same_fs (f f' : fs) : Prop := f' = set_faults f (fs_faults f').
Lemma same_fs_refl f : same_fs f f.
Proof. by destruct f. Qed.
Lemma same_fs_trans a b c : same_fs a b → same_fs b c → same_fs a c.
Proof. unfold same_fs. intros -> ->. done. Qed.

Record quiet (w w' : world) : Prop := {
  qu_fs : same_fs (w_fs w) (w_fs w');
  qu_db : same_tables (w_db w) (w_db w');
  qu_specs : w_specs w' = w_specs w;
  qu_locked : w_locked w' = w_locked w;
  qu_audit : w_audit w' = w_audit w
}.
Lemma quiet_refl w : quiet w w.
Proof. constructor; [apply same_fs_refl|apply same_tables_refl|done..]. Qed.
Lemma quiet_trans a b c : quiet a b → quiet b c → quiet a c.
Proof.
  intros [] []. constructor; [by eapply same_fs_trans|by eapply same_tables_trans|congruence..].
Qed.
#[export] Instance quiet_preorder : PreOrder quiet.
Proof. split; [exact quiet_refl|exact quiet_trans]. Qed.
#[export] Hint Resolve quiet_refl same_fs_refl same_tables_refl : mcm.

Definition quietly {E A} (m : io world E A) : Prop := ∀ w, quiet w (m w).1.
(** Reading parts of the state. *)
Definition db_reads {E A} (m : io (db message) E A) : Prop := ∀ s, same_tables s (m s).1.
Definition fs_reads {E A} (m : io fs E A) : Prop := ∀ s, same_fs s (m s).1.

Section preorder_combinators.
Context {S : Type} (R : S → S → Prop) `{!PreOrder R}.
Definition moves {E A} (m : io S E A) : Prop := ∀ s, R s (m s).1.
Lemma moves_ret {E A} (a : A) : moves (mret (M := io S E) a).
Proof. intros s. reflexivity. Qed.
Lemma moves_fail {E A} (e : E) : moves (fail e : io S E A).
Proof. intros s. reflexivity. Qed.
Lemma moves_get {E} : moves (get : io S E S).
Proof. intros s. reflexivity. Qed.
Lemma moves_bind {E A B} (m : io S E A) (k : A → io S E B) : moves m → (∀ a, moves (k a)) → moves (m ≫= k).
Proof.
  intros Hm Hk s. unfold mbind, io_bind. pose proof (Hm s) as H. destruct (m s) as [s' [a|e]]; [|done].
  etrans; [exact H|apply Hk].
Qed.
Lemma moves_attempt {E E' A} (m : io S E A) : moves m → moves (attempt m : io S E' _).
Proof. intros Hm s. apply Hm. Qed.
Lemma moves_wrap {E E' A} (f : E → E') (m : io S E A) : moves m → moves (wrap f m).
Proof. intros Hm s. apply Hm. Qed.
Lemma moves_collect {E A B} (f : A → io S E B) l : (∀ x, moves (f x)) → moves (collect f l).
Proof.
  intros Hf. induction l as [|x l IH]; cbn [collect]; [apply moves_ret|]. apply moves_bind; [done|]. intros y.
  apply moves_bind; [done|]. intros ys. apply moves_ret.
Qed.
Lemma moves_for_each {E A} (f : A → io S E unit) l : (∀ x, moves (f x)) → moves (for_each f l).
Proof.
  intros Hf. induction l as [|x l IH]; cbn [for_each]; [apply moves_ret|]. apply moves_bind; [done|]. by intros _.
Qed.
Lemma wp_moves {E A} (m : io S E A) (Q : S → result E A → Prop) s : moves m → (∀ s' r, R s s' → Q s' r) → wp m Q s.
Proof. intros Hm HQ. apply HQ, Hm. Qed.
End preorder_combinators.
#[export] Hint Resolve moves_ret moves_fail moves_get moves_attempt moves_wrap moves_collect : mcm.

#[export] Instance same_fs_preorder : PreOrder same_fs.
Proof. split; [exact same_fs_refl|exact same_fs_trans]. Qed.
#[export] Instance same_tables_preorder {M} : PreOrder (@same_tables M).
Proof. split; [exact same_tables_refl|exact same_tables_trans]. Qed.

Ltac moves_step :=
  lazymatch goal with
  | |- moves _ (_ ≫= _) => apply moves_bind; [try apply _..|intros ?]
  | |- moves _ (collect _ _) => apply moves_collect; try apply _; intros ?
  | |- moves _ (for_each _ _) => apply moves_for_each; try apply _; intros ?
  | |- moves _ (attempt _) => apply moves_attempt
  | |- moves _ (wrap _ _) => apply moves_wrap
  | |- moves _ (mret _) => apply moves_ret; try apply _
  | |- moves _ (fail _) => apply moves_fail; try apply _
  | |- moves _ get => apply moves_get; try apply _
  | |- moves _ (if ?b then _ else _) => destruct b
  | |- moves _ (let '(_, _) := ?x in _) => destruct x
  | |- moves _ (match ?x with _ => _ end) => destruct x
  | |- moves _ _ => solve [eauto with mcm]
  end.

(** ** The store *)
Lemma select_reads {A} (f : db message → A) : moves same_tables (select f).
Proof.
  intros s. unfold select, statement. destruct (db_faults s) as [|[] rest]; cbn; [apply same_tables_refl|by destruct s..].
Qed.
Lemma now_reads {E} : moves same_tables (now : io (db message) E Z).
Proof. intros s. unfold now. destruct (db_ticks s); cbn; [apply same_tables_refl|by destruct s]. Qed.
#[export] Hint Resolve select_reads now_reads : mcm.
Lemma found_reads {A} e (o : option A) : moves same_tables (found (M := message) e o).
Proof. unfold found. repeat moves_step. Qed.
#[export] Hint Resolve found_reads : mcm.
Lemma GetACLSource_reads path : moves same_tables (GetACLSource (M := message) path).
Proof. unfold GetACLSource. repeat moves_step. Qed.
Lemma GetPreviewRevision_reads id : moves same_tables (GetPreviewRevision (M := message) id).
Proof. unfold GetPreviewRevision. repeat moves_step. Qed.
Lemma GetDeployment_reads id : moves same_tables (GetDeployment (M := message) id).
Proof. unfold GetDeployment. repeat moves_step. Qed.
#[export] Hint Resolve GetACLSource_reads GetPreviewRevision_reads GetDeployment_reads : mcm.

(** ** The world *)
Lemma on_db_quiet {A} what (m : io (db message) store_error A) : moves same_tables m → moves quiet (on_db what m).
Proof. intros Hm w. constructor; [apply same_fs_refl|apply Hm|done..]. Qed.
Lemma raw_db_quiet {A} (m : io (db message) store_error A) : moves same_tables m → moves quiet (raw_db m).
Proof. intros Hm w. constructor; [apply same_fs_refl|apply Hm|done..]. Qed.
Lemma on_fs_quiet {A} f (m : io fs cause A) : moves same_fs m → moves quiet (on_fs f m).
Proof. intros Hm w. constructor; [apply Hm|apply same_tables_refl|done..]. Qed.

Lemma syscall_reads c : moves same_fs (syscall c).
Proof. intros s. unfold syscall. destruct (fs_faults s); cbn; [apply same_fs_refl|done]. Qed.
#[export] Hint Resolve on_db_quiet raw_db_quiet on_fs_quiet syscall_reads : mcm.

Lemma readFile_quiet path : moves quiet (readFile path).
Proof. unfold readFile, read_file. apply on_fs_quiet. repeat moves_step. Qed.
Lemma random_quiet : moves quiet random_bytes.
Proof. intros w. unfold random_bytes. destruct (w_random w); cbn; [apply quiet_refl|]. constructor; [apply same_fs_refl|apply same_tables_refl|done..]. Qed.
Lemma next_verdict_quiet : moves quiet next_verdict.
Proof. intros w. unfold next_verdict. destruct (w_verdicts w); cbn; [apply quiet_refl|]. constructor; [apply same_fs_refl|apply same_tables_refl|done..]. Qed.
#[export] Hint Resolve readFile_quiet random_quiet next_verdict_quiet : mcm.

Lemma adopted_quiet path : moves quiet (adoptedACLSourceForPath path).
Proof. unfold adoptedACLSourceForPath. repeat moves_step. Qed.
#[export] Hint Resolve adopted_quiet : mcm.
Lemma ListRules_reads : moves same_tables (ListRules (M := message)). Proof. apply select_reads. Qed.
Lemma FindOrphanRules_reads : moves same_tables (FindOrphanRules (M := message)). Proof. apply select_reads. Qed.
Lemma ListMQTTUsers_reads : moves same_tables (ListMQTTUsers (M := message)). Proof. apply select_reads. Qed.
Lemma ListManagedACLFiles_reads : moves same_tables (ListManagedACLFiles (M := message)). Proof. apply select_reads. Qed.
#[export] Hint Resolve ListRules_reads FindOrphanRules_reads ListMQTTUsers_reads ListManagedACLFiles_reads : mcm.

Section quiet.
Context (cfg : config) (pbkdf2 : string → string → Z → string).

Lemma service_hash_quiet existing : moves quiet (service_hash cfg pbkdf2 existing).
Proof. unfold service_hash. cbv zeta. repeat moves_step. Qed.
Lemma render_listener_quiet by_id id : moves quiet (render_listener cfg by_id id).
Proof. unfold render_listener. cbv zeta. repeat moves_step. Qed.
Hint Resolve service_hash_quiet render_listener_quiet : mcm.
Lemma renderConfig_quiet : moves quiet (renderConfig cfg pbkdf2).
Proof. unfold renderConfig. cbv zeta. repeat moves_step. Qed.

Lemma managed_quiet : moves quiet managedACLFiles.
Proof. unfold managedACLFiles. repeat moves_step. Qed.
Hint Resolve managed_quiet : mcm.
Lemma plan_quiet rendered bodies : moves quiet (planACLFiles rendered bodies).
Proof. unfold planACLFiles, plan_file, plan_removal. cbv zeta. repeat moves_step. Qed.
Lemma issues_quiet rendered : moves quiet (scopeWiringIssues cfg rendered).
Proof. unfold scopeWiringIssues, listenerSpecs. repeat moves_step. Qed.
Lemma blocking_quiet base atRisk : moves quiet (blockingACLEntries cfg base atRisk).
Proof. unfold blockingACLEntries, knownPrincipals. repeat moves_step. Qed.
Hint Resolve renderConfig_quiet plan_quiet issues_quiet blocking_quiet : mcm.

Lemma validate_quiet id : moves quiet (validate_revision cfg pbkdf2 id).
Proof. unfold validate_revision, db_now_utc. cbv zeta. repeat moves_step. Qed.

Lemma verify_loop_quiet n a k : moves quiet (verify_loop n a k).
Proof.
  revert a. induction n as [|n IH]; intros a; cbn [verify_loop]; repeat moves_step.
Qed.
Hint Resolve verify_loop_quiet : mcm.
Lemma runVerifier_quiet acl passwd : moves quiet (runVerifier cfg acl passwd).
Proof. unfold runVerifier. repeat moves_step. Qed.
End quiet.
#[export] Hint Resolve managed_quiet validate_quiet runVerifier_quiet renderConfig_quiet plan_quiet : mcm.
