(* ===== verification/DeployPlan.v ===== *)
(** * What an apply is about to write

    The files of a render, the plan with the content on disk, and the request
    that the applier gets: every file is named once, with what it holds now. *)
From S2P Require Import Prelude IO Unicode GoStrings GoPath Sha256 Hash Passwd Acl AclDoc Conf Store Applier Probe DeployRender Deploy DeployFrame.

(** ** Reading *)
Lemma quiet_files w w' : quiet w w' → fs_files (w_fs w') = fs_files (w_fs w) ∧ fs_loaded (w_fs w') = fs_loaded (w_fs w).
Proof. intros [H _ _ _ _]. by rewrite H. Qed.

Lemma quiet_tables {A} (f : db message → A) w w' :
  (∀ s now ticks faults, f (with_faults faults (with_clock now ticks s)) = f s) → quiet w w' → f (w_db w') = f (w_db w).
Proof. intros Hf [_ H _ _ _]. rewrite <-H. apply Hf. Qed.

Lemma wp_quiet {E A} (m : io world E A) (Q : world → result E A → Prop) w :
  moves quiet m → (∀ w' r, quiet w w' → Q w' r) → wp m Q w.
Proof. apply wp_moves. Qed.

(** A quiet computation with a specification of its result. *)
Lemma wp_quiet_with {E A} (m : io world E A) (P : result E A → Prop) (Q : world → result E A → Prop) w :
  moves quiet m → wp m (λ _ r, P r) w → (∀ w' r, quiet w w' → P r → Q w' r) → wp m Q w.
Proof. intros Hm HP HQ. apply HQ; [apply Hm|exact HP]. Qed.

Lemma wp_readFile path (P : result deploy_error string → Prop) w :
  P (Ok (reads (fs_files (w_fs w)) path)) → P (Err (ReadError path)) → wp (readFile path) (λ _ r, P r) w.
Proof.
  intros HOk HErr. unfold readFile, on_fs. apply wp_zoom. unfold read_file. apply wp_bind, wp_syscall; intros f; [|done].
  apply wp_bind. unfold get, wp at 1. cbn [fst snd]. by apply wp_ret.
Qed.

Lemma wp_select {A} (f : db message → A) what (P : result deploy_error A → Prop) w :
  (∀ s now ticks faults, f (with_faults faults (with_clock now ticks s)) = f s) →
  P (Ok (f (w_db w))) → (∀ e, P (Err (StoreError what e))) → wp (on_db what (select f)) (λ _ r, P r) w.
Proof.
  intros Hf HOk HErr. unfold on_db. apply wp_zoom. unfold select. apply wp_statement; [done|]. intros s0 H0.
  assert (f s0 = f (w_db w)) as -> by (rewrite <-H0; apply Hf). done.
Qed.

(** ** The files of a render *)
Definition listener_rules (rules : list Rule) : list Rule := filter (λ r, IsListenerScoped r = true) rules.

Lemma split_go_dom rules global (m : gmap string (list Rule)) id :
  is_Some ((foldl (λ '(global, byListener) rule,
    if IsListenerScoped rule
    then (global, <[r_listener_id rule := default [] (byListener !! r_listener_id rule) ++ [rule]]> byListener)
    else (global ++ [rule], byListener)) (global, m) rules).2 !! id) →
  is_Some (m !! id) ∨ id ∈ r_listener_id <$> listener_rules rules.
Proof.
  revert global m. induction rules as [|r rules IH]; intros global m; [by left|]. cbn [foldl]. unfold listener_rules. rewrite filter_cons.
  destruct (IsListenerScoped r) eqn:E.
  - intros [H|H]%IH; [|right; rewrite decide_True by done; by right].
    destruct (decide (r_listener_id r = id)) as [<-|Hne]; [right; rewrite decide_True by done; by left|].
    rewrite lookup_insert_ne in H by done. by left.
  - intros [H|H]%IH; [by left|]. right. by rewrite decide_False.
Qed.

Lemma sortedListenerIDs_spec rules :
  let ids := sortedListenerIDs (splitRulesByScope rules).2 in
  NoDup ids ∧ ∀ id, id ∈ ids → id ∈ r_listener_id <$> listener_rules rules.
Proof.
  cbv zeta. unfold sortedListenerIDs. split.
  - rewrite sort_strings_perm. apply NoDup_elements.
  - intros id. rewrite elem_of_sort_strings, elem_of_elements, elem_of_dom. intros H.
    apply split_go_dom in H as [H|H]; [|done]. rewrite lookup_empty in H. by destruct H.
Qed.

Section plan.
Context (cfg : config) (pbkdf2 : string → string → Z → string).

(** The files of a render: the broker-wide one, then one of every listener. *)
Definition files_of (ids : list string) (rc : renderedConfig) : Prop :=
  ∃ ls, rc_files rc = mkRender ScopeGlobal "" (cf_acl cfg) (rc_acl rc) :: ls
    ∧ fr_listener <$> ls = ids
    ∧ Forall (λ f, fr_scope f = ScopeListener ∧ fr_path f = ListenerACLPath (cf_acl cfg) (fr_listener f)) ls.

Lemma wp_render_listener by_id id w :
  wp (render_listener cfg by_id id) (λ _ r, match r with
    | Ok (f, _) => fr_listener f = id ∧ fr_scope f = ScopeListener ∧ fr_path f = ListenerACLPath (cf_acl cfg) id
    | Err _ => True end) w.
Proof.
  unfold render_listener. cbv zeta. apply wp_bind, wp_quiet; [apply adopted_quiet|]. intros w' [source|e] _; [|done].
  destruct (compose_source _ _) as [body warnings]. by apply wp_ret.
Qed.

Lemma wp_renderConfig w :
  wp (renderConfig cfg pbkdf2) (λ _ r, match r with
    | Ok rc => ∃ ids, files_of ids rc ∧ NoDup ids ∧ (∀ id, id ∈ ids → id ∈ r_listener_id <$> listener_rules (with_id <$> db_rules (w_db w)))
    | Err _ => True end) w.
Proof.
  unfold renderConfig. apply wp_bind. unfold ListRules.
  eapply wp_quiet_with with (P := λ r, match r with Ok rules => rules = with_id <$> db_rules (w_db w) | Err _ => True end);
    [auto with mcm|by apply wp_select|]. intros w1 [rules|e] H1 HP; [|done]. rewrite <-HP. clear HP.
  apply wp_bind, wp_quiet; [auto with mcm|]. intros w2 [orphans|e] _; [|done].
  apply wp_bind, wp_quiet; [auto with mcm|]. intros w3 [users|e] _; [|done].
  apply wp_bind, wp_quiet; [auto with mcm|]. intros w4 [existing|e] _; [|done]. cbv zeta.
  destruct (splitRulesByScope _) as [global listeners] eqn:Es.
  pose proof (sortedListenerIDs_spec (active_rules rules orphans)) as [Hnd Hids]. rewrite Es in Hnd, Hids. cbn [snd] in Hnd, Hids.
  apply wp_bind, wp_quiet; [auto with mcm|]. intros w5 [source|e] _; [|done].
  destruct (compose_source _ _) as [aclBody warnings].
  set (ids := sortedListenerIDs listeners) in *. apply wp_bind.
  apply (wp_collect _ (λ done _, fr_listener <$> done.*2.*1 = done.*1 ∧ Forall (λ f, fr_scope f = ScopeListener
    ∧ fr_path f = ListenerACLPath (cf_acl cfg) (fr_listener f)) done.*2.*1)); [by split|..].
  - intros done x rest w6 Hl [Hd1 Hd2]. eapply wp_mono; [apply wp_render_listener|]. intros w7 [[f ws]|e]; [|done].
    intros (Hf1 & Hf2 & Hf3). rewrite !fmap_app. cbn. split; [by rewrite Hd1, Hf1|]. apply Forall_app. split; [done|].
    by rewrite Hf1 || (constructor; [by rewrite Hf1|done]).
  - intros done w6 Hl [Hd1 Hd2]. apply wp_bind.
    assert (∀ service, wp (mret (mkRendered aclBody (mkRender ScopeGlobal "" (cf_acl cfg) aclBody :: done.*2.*1)
          (RenderPasswdFile (user_entries users ++ service)) orphans (warnings ++ concat done.*2.*2) source) : deploy _)
      (λ _ r, match r with Ok rc => ∃ ids, files_of ids rc ∧ NoDup ids ∧ (∀ id, id ∈ ids → id ∈ r_listener_id <$> listener_rules rules)
              | Err _ => True end) w6) as Hret.
    { intros service. apply wp_ret. exists ids. split; [|split; [done|]].
      - exists done.*2.*1. split; [done|]. by rewrite Hd1, Hl.
      - intros id Hid. apply Hids in Hid. unfold listener_rules, active_rules in *.
        apply list_elem_of_fmap in Hid as (r & -> & Hr). apply list_elem_of_fmap. exists r. split; [done|].
        apply list_elem_of_filter in Hr as [? Hr]. apply list_elem_of_filter in Hr as [_ Hr]. by apply list_elem_of_filter. }
    destruct (decide _); [apply wp_ret, Hret|]. apply wp_bind, wp_quiet; [auto using service_hash_quiet|].
    intros w7 [hash|e] _; [|done]. apply wp_ret, Hret.
Qed.

(** ** The plan *)
Definition planned (bodies m : gmap string string) (f : ACLFileRender) : ACLFile :=
  mkACLFile (fr_path f) (default (fr_body f) (bodies !! fr_path f)) (reads m (fr_path f)).
Definition removal (m : gmap string string) (row : ManagedACLFileRow) : ACLFile := mkACLFile (mf_path row) "" (reads m (mf_path row)).
Definition managed_rows (s : db message) : list ManagedACLFileRow :=
  sort_stable (λ a b, string_less (mf_path a) (mf_path b)) (snd <$> map_to_list (db_managed s)).

Record plan_of (rc : renderedConfig) (bodies m : gmap string string) (rows : list ManagedACLFileRow) (plan : aclFilePlan) : Prop := {
  po_global : pl_global plan = planned bodies m (mkRender ScopeGlobal "" (cf_acl cfg) (rc_acl rc));
  po_listener : pl_listener plan = planned bodies m <$> listener_files rc;
  po_remove : pl_remove plan ≡ₚ removal m <$> retired rc rows
}.

(** Reading the files one by one. *)
Lemma wp_read_all {A B} (path : A → string) (build : A → string → B) l w :
  wp (collect (λ x, snapshot ← readFile (path x); mret (build x snapshot)) l) (λ _ r, match r with
    | Ok ys => ys = (λ x, build x (reads (fs_files (w_fs w)) (path x))) <$> l | Err _ => True end) w.
Proof.
  apply (wp_collect _ (λ done w', quiet w w' ∧ done.*2 = (λ x, build x (reads (fs_files (w_fs w)) (path x))) <$> done.*1)); [by split|..].
  - intros done x rest w1 Hl [H1 Hd]. apply wp_bind.
    eapply wp_quiet_with with (P := λ r, match r with Ok c => c = reads (fs_files (w_fs w1)) (path x) | Err _ => True end);
      [auto with mcm|by apply wp_readFile|]. intros w2 [c|e] H2 HP; [|done]. subst c. apply wp_ret. split; [by etrans|].
    rewrite !fmap_app, Hd. cbn. by rewrite (proj1 (quiet_files _ _ H1)).
  - intros done w' -> [_ Hd]. done.
Qed.

Lemma zip_filter {A B} (P : A → bool) (f : A → B) (l : list A) (b : bool) :
  snd <$> filter (λ p : A * B, P p.1 = b) (zip l (f <$> l)) = f <$> filter (λ x, P x = b) l.
Proof.
  induction l as [|x l IH]; [done|]. cbn [fmap list_fmap zip_with zip]. rewrite !filter_cons. cbn [fst].
  destruct (decide (P x = b)); cbn; by rewrite IH.
Qed.

Lemma listener_files_of ids rc : files_of ids rc →
  ∃ ls, rc_files rc = mkRender ScopeGlobal "" (cf_acl cfg) (rc_acl rc) :: ls ∧ listener_files rc = ls
    ∧ fr_listener <$> ls = ids ∧ Forall (λ f, fr_path f = ListenerACLPath (cf_acl cfg) (fr_listener f)) ls
    ∧ filter (λ f, is_listener_file f = false) (rc_files rc) = [mkRender ScopeGlobal "" (cf_acl cfg) (rc_acl rc)].
Proof.
  intros (ls & Hf & Hi & Hls). exists ls. split; [done|]. unfold listener_files. rewrite Hf.
  rewrite !filter_cons. rewrite decide_False, decide_True by done.
  assert (Forall (λ f, is_listener_file f = true) ls) as Hall.
  { eapply Forall_impl; [exact Hls|]. intros f [Hs _]. unfold is_listener_file. rewrite Hs. by apply bool_decide_eq_true. }
  split; [|split; [done|split]].
  - clear -Hall. induction Hall as [|f ls Hf _ IH]; [done|]. rewrite filter_cons, decide_True by done. by rewrite IH.
  - eapply Forall_impl; [exact Hls|]. by intros f [].
  - f_equal. clear -Hall. induction Hall as [|f ls Hf _ IH]; [done|]. rewrite filter_cons, decide_False by by rewrite Hf. done.
Qed.

Lemma wp_planACLFiles ids rc bodies w : files_of ids rc →
  wp (planACLFiles rc bodies) (λ _ r, match r with
    | Ok plan => plan_of rc bodies (fs_files (w_fs w)) (managed_rows (w_db w)) plan | Err _ => True end) w.
Proof.
  intros Hrc. unfold planACLFiles. apply wp_bind. eapply wp_quiet_with; [|exact (wp_read_all fr_path
    (λ f c, mkACLFile (fr_path f) (default (fr_body f) (bodies !! fr_path f)) c) (rc_files rc) w)|].
  { apply moves_collect; [apply _|]. intros f. apply moves_bind; [apply _|auto with mcm|]. intros c. apply moves_ret, _. }
  intros w1 [entries|e] H1 He; [|done]. apply wp_bind. unfold managedACLFiles, ListManagedACLFiles.
  eapply wp_quiet_with with (P := λ r, match r with Ok rows => rows = managed_rows (w_db w1) | Err _ => True end);
    [auto with mcm|by apply wp_select|]. intros w2 [rows|e] H2 HP; [|done]. subst rows.
  rewrite (quiet_tables managed_rows w w1) by done.
  apply wp_bind. eapply wp_quiet_with; [|exact (wp_read_all mf_path (λ row c, mkACLFile (mf_path row) "" c) _ w2)|].
  { apply moves_collect; [apply _|]. intros row. apply moves_bind; [apply _|auto with mcm|]. intros c. apply moves_ret, _. }
  intros w3 [removed|e] _ Hr; [|done]. cbv zeta. apply wp_ret.
  assert (fs_files (w_fs w2) = fs_files (w_fs w)) as Hfiles by (apply quiet_files; by etrans). rewrite Hfiles in Hr.
  destruct (listener_files_of ids rc Hrc) as (ls & Hf & Hl & _ & _ & Hg). subst entries removed. constructor; cbn.
  - rewrite (zip_filter is_listener_file). by rewrite Hg.
  - by rewrite (zip_filter is_listener_file).
  - rewrite sort_stable_perm. done.
Qed.
End plan.

(** ** Where the files are *)
(** The applier was built for the files of the service. *)
Definition applier_paths (cfg : config) : string * string :=
  match cf_applier cfg with AppFile f => (fa_acl f, fa_passwd f) | AppDocker d => (dk_acl d, dk_passwd d) end.
Record well_placed (cfg : config) (w : world) : Prop := {
  pl_db : db_ok (w_db w);
  pl_acl : cf_acl cfg ≠ "";
  pl_distinct : cf_passwd cfg ≠ cf_acl cfg;
  pl_acl_name : has_prefix "acl." (base_name (cf_acl cfg)) = false;
  pl_passwd_name : has_prefix "acl." (base_name (cf_passwd cfg)) = false;
  pl_managed : db_managed (w_db w) !! cf_passwd cfg = None;
  pl_applier : applier_paths cfg = (cf_acl cfg, cf_passwd cfg)
}.

Section placed.
Context (cfg : config) (w : world).
Hypothesis Hw : well_placed cfg w.
Let m := fs_files (w_fs w).
Let rows := managed_rows (w_db w).

Lemma listener_id_valid id : id ∈ r_listener_id <$> listener_rules (with_id <$> db_rules (w_db w)) → ValidateListenerID id = None.
Proof.
  intros (r & -> & Hr)%list_elem_of_fmap. unfold listener_rules in Hr. apply list_elem_of_filter in Hr as [Hs Hr].
  apply list_elem_of_fmap in Hr as ([i r0] & -> & Hr). pose proof (ok_rules _ (pl_db _ _ Hw)) as Hok.
  rewrite Forall_forall in Hok. destruct (Hok _ Hr) as [Hv _]. unfold ValidateRule, ValidateRuleForMosquittoVersion in Hv.
  apply app_eq_nil in Hv as [_ Hv]. apply app_eq_nil in Hv as [Hv _]. cbn in Hs, Hv |- *.
  unfold scope_problems in Hv. unfold IsListenerScoped in Hs. apply bool_decide_eq_true in Hs. unfold EffectiveScope in *. cbn in Hs.
  rewrite Hs in Hv. rewrite decide_False, decide_True in Hv by done. by destruct (ValidateListenerID _).
Qed.

Lemma listener_path_ne id p : ValidateListenerID id = None → has_prefix "acl." (base_name p) = false → ListenerACLPath (cf_acl cfg) id ≠ p.
Proof.
  intros Hid Hp <-. rewrite ListenerACLPath_base in Hp by (done || apply Hw). unfold ListenerACLFileName in Hp.
  by rewrite has_prefix_app in Hp.
Qed.

Lemma listener_paths_NoDup ids : NoDup ids → (∀ id, id ∈ ids → ValidateListenerID id = None) → NoDup (ListenerACLPath (cf_acl cfg) <$> ids).
Proof.
  intros Hnd Hv. induction Hnd as [|id ids Hid Hnd IH]; [constructor|]. rewrite fmap_cons. constructor.
  - intros (id' & Heq & Hin)%list_elem_of_fmap. apply (f_equal base_name) in Heq.
    rewrite !ListenerACLPath_base in Heq; [|apply Hv; by right|apply Hw|apply Hv; by left|apply Hw].
    unfold ListenerACLFileName in Heq. simplify_eq. congruence.
  - apply IH. intros id' Hin. apply Hv. by right.
Qed.

Lemma managed_paths : NoDup (mf_path <$> rows) ∧ (cf_passwd cfg ∉ mf_path <$> rows).
Proof.
  pose proof (ok_managed _ (pl_db _ _ Hw)) as Hok.
  assert (mf_path <$> rows ≡ₚ (map_to_list (db_managed (w_db w))).*1) as Hperm.
  { unfold rows, managed_rows. rewrite sort_stable_perm. rewrite <-list_fmap_compose. apply Permutation_refl'.
    apply list_fmap_ext. intros i [k row] Hi. apply list_elem_of_lookup_2, elem_of_map_to_list in Hi. by destruct (Hok _ _ Hi). }
  rewrite Hperm. split; [apply NoDup_fst_map_to_list|]. intros ([k row] & Heq & Hin)%list_elem_of_fmap. cbn in Heq. subst k.
  apply elem_of_map_to_list in Hin. by rewrite (pl_managed _ _ Hw) in Hin.
Qed.

Context (rc : renderedConfig) (ids : list string) (bodies : gmap string string) (plan : aclFilePlan) (passwd : string).
Hypothesis Hrc : files_of cfg ids rc.
Hypothesis Hids : NoDup ids.
Hypothesis Hvalid : ∀ id, id ∈ ids → ValidateListenerID id = None.
Hypothesis Hplan : plan_of cfg rc bodies m rows plan.
Let req := apply_request plan passwd (reads m (cf_passwd cfg)).

Lemma plan_paths :
  af_path <$> request_files (cf_acl cfg) req = cf_acl cfg :: (ListenerACLPath (cf_acl cfg) <$> ids)
  ∧ af_path <$> rq_removed req ≡ₚ mf_path <$> retired rc rows.
Proof.
  destruct (listener_files_of cfg ids rc Hrc) as (ls & Hf & Hl & Hi & Hpaths & _). destruct Hplan as [Hg Hpl Hpr].
  split; cbn.
  - f_equal. rewrite Hpl, Hl, <-Hi, <-!list_fmap_compose. apply list_fmap_ext. intros i f Hlk.
    rewrite Forall_forall in Hpaths. apply Hpaths. by eapply list_elem_of_lookup_2.
  - rewrite Hpr, <-list_fmap_compose. done.
Qed.

Lemma retired_paths p : p ∈ mf_path <$> retired rc rows → p ∈ mf_path <$> rows ∧ p ≠ cf_acl cfg ∧ (p ∉ ListenerACLPath (cf_acl cfg) <$> ids).
Proof.
  destruct (listener_files_of cfg ids rc Hrc) as (ls & Hf & Hl & Hi & Hpaths & _).
  intros (row & -> & Hr)%list_elem_of_fmap. unfold retired in Hr. apply list_elem_of_filter in Hr as [Hn Hr].
  split; [by apply list_elem_of_fmap_2|]. rewrite Hf, fmap_cons, not_elem_of_cons in Hn. destruct Hn as [Hn1 Hn2]. split; [done|].
  assert (fr_path <$> ls = ListenerACLPath (cf_acl cfg) <$> ids) as <-; [|done]. rewrite <-Hi, <-list_fmap_compose.
  apply list_fmap_ext. intros i f Hlk. rewrite Forall_forall in Hpaths. apply Hpaths. by eapply list_elem_of_lookup_2.
Qed.

Lemma plan_faithful : faithful (cf_acl cfg) (cf_passwd cfg) req m.
Proof.
  destruct plan_paths as [Hp1 Hp2]. destruct managed_paths as [Hm1 Hm2].
  pose proof (λ p Hp, listener_path_ne p (cf_acl cfg) Hp (pl_acl_name _ _ Hw)) as Hne1.
  pose proof (λ p Hp, listener_path_ne p (cf_passwd cfg) Hp (pl_passwd_name _ _ Hw)) as Hne2.
  constructor.
  - unfold touched. rewrite Hp1, Hp2. change (NoDup ((cf_acl cfg :: (ListenerACLPath (cf_acl cfg) <$> ids)) ++ (mf_path <$> retired rc rows) ++ [cf_passwd cfg])).
    apply NoDup_app. split; [|split].
    + constructor; [|by apply listener_paths_NoDup]. intros (id & Heq & Hin)%list_elem_of_fmap. by apply (Hne1 id); auto.
    + intros p Hp Hq. apply elem_of_app in Hq as [Hq|Hq%list_elem_of_singleton].
      * apply retired_paths in Hq as (_ & H1 & H2). apply elem_of_cons in Hp as [|]; done.
      * subst p. apply elem_of_cons in Hp as [Hp|Hp]; [by apply (pl_distinct _ _ Hw)|].
        apply list_elem_of_fmap in Hp as (id & Heq & Hin). by apply (Hne2 id); auto.
    + apply NoDup_app. split; [|split; [|apply NoDup_singleton]].
      * unfold retired. eapply sublist_NoDup; [exact Hm1|]. apply sublist_filter_fmap.
      * intros p Hp ->%list_elem_of_singleton. by apply retired_paths in Hp as [Hp _].
  - destruct Hplan as [Hg Hpl Hpr]. apply Forall_app. split.
    + constructor; [cbn; by rewrite Hg|]. cbn. rewrite Hpl. apply Forall_fmap, Forall_true. done.
    + cbn. rewrite Hpr. apply Forall_fmap, Forall_true. done.
  - done.
Qed.
End placed.
