(* ===== verification/DeployProofs.v ===== *)
(** * The contract of an apply

    What an apply leaves on disk and in the broker, for every state of the
    store, every sequence of faults and every answer of the verifier. *)
From S2P Require Import Prelude IO Unicode GoStrings GoPath GoTime Sha256 Hash Passwd Acl AclDoc Conf Store Applier Probe.
From S2P Require Import DeployRender Deploy DeployFrame DeployPlan.

(** ** The contract *)

(** Every file reads as before, and the broker runs on what it ran on or on
    what is on disk now. *)
Definition restored_to (f f' : fs) : Prop :=
  (∀ p, reads (fs_files f') p = reads (fs_files f) p) ∧ (fs_loaded f' = fs_loaded f ∨ fs_loaded f' = fs_files f').
(** The error tells that a rollback failed. *)
Fixpoint lost (e : deploy_error) : bool :=
  match e with
  | ApplyFailed a => rollback_failed a
  | VerificationRollbackFailed _ => true
  | StatusLost e _ | RecordLost e _ | WithRecord _ e | ErrDeploymentPersistence e | ErrDeploymentStateIndeterminate _ e => lost e
  | _ => false
  end.

Section contract.
Context (cfg : config) (pbkdf2 : string → string → Z → string).

(** The broker runs on the files on disk, which are those of the revision. *)
Record serves (rev : PreviewRevision) (s : db message) (f' : fs) : Prop := {
  sv_acl : fs_files f' !! cf_acl cfg = Some (default (pr_acl rev) (pr_listener rev !! cf_acl cfg));
  sv_passwd : fs_files f' !! cf_passwd cfg = Some (pr_passwd rev);
  sv_listeners : ∃ rc, contentHash (rc_acl rc) = pr_rendered_acl rev ∧ contentHash (rc_passwd rc) = pr_rendered_passwd rev
    ∧ aclFilesHash (rc_files rc) = pr_files_hash rev
    ∧ (∀ f, f ∈ listener_files rc → fs_files f' !! fr_path f = Some (default (fr_body f) (pr_listener rev !! fr_path f)))
    ∧ (∀ row, row ∈ retired rc (managed_rows s) → fs_files f' !! mf_path row = None);
  sv_loaded : fs_loaded f' = fs_files f'
}.

(** The files an apply may touch. *)
Definition listener_paths (w : world) : list string :=
  (ListenerACLPath (cf_acl cfg) <$> (r_listener_id <$> listener_rules (with_id <$> db_rules (w_db w)))) ++ (mf_path <$> managed_rows (w_db w)).
Definition deploy_paths (w : world) : list string := cf_acl cfg :: cf_passwd cfg :: listener_paths w.
(** Snapshots that JSON carries unchanged. *)
Definition utf8_snapshots (w : world) : Prop :=
  Forall (λ p, sanitize p = p ∧ sanitize (reads (fs_files (w_fs w)) p) = reads (fs_files (w_fs w)) p) (listener_paths w).

Definition pending (rev : PreviewRevision) (id : string) (w : world) : Prop :=
  db_revisions (w_db w) !! id = Some rev ∧ pr_applied rev = None.

(** ** The applier *)
Lemma wp_applier req Q w : applier_paths cfg = (cf_acl cfg, cf_passwd cfg) →
  (∀ f' r, outcome (cf_acl cfg) (cf_passwd cfg) req (fs_files (w_fs w)) (fs_loaded (w_fs w)) f' r → Q (set_fs f' w) r) →
  wp (applier_apply cfg req) Q w.
Proof.
  intros Hap HQ. unfold applier_apply. apply wp_zoom. unfold applier_paths in Hap.
  revert HQ. destruct (cf_applier cfg) as [f|d]; injection Hap as <- <-; intros HQ; (eapply wp_mono; [first [apply FileApply_outcome|apply DockerApply_outcome]|]);
    intros s' [u|e] H; apply HQ; done.
Qed.

(** ** Bookkeeping *)
Definition same_broker (w w' : world) : Prop := same_fs (w_fs w) (w_fs w').
#[export] Instance same_broker_preorder : PreOrder same_broker.
Proof. split; [intros ?; apply same_fs_refl|intros ???; apply same_fs_trans]. Qed.
Lemma quiet_broker w w' : quiet w w' → same_broker w w'.
Proof. by intros []. Qed.
Lemma broker_quiet {E A} (m : io world E A) : moves quiet m → moves same_broker m.
Proof. intros H w. apply quiet_broker, H. Qed.
Lemma db_broker {A} what (m : io (db message) store_error A) : moves same_broker (on_db what m).
Proof. intros w. apply same_fs_refl. Qed.
Lemma raw_broker {A} (m : io (db message) store_error A) : moves same_broker (raw_db m).
Proof. intros w. apply same_fs_refl. Qed.
Lemma audit_broker actor action id r : moves same_broker (emitAudit actor action id r).
Proof. intros w. apply same_fs_refl. Qed.
#[local] Hint Resolve broker_quiet db_broker raw_broker audit_broker : mcm.

Definition has_status (id : Z) (status : string) (w : world) : Prop :=
  ∀ d, d ∈ db_deployments (w_db w) → dp_id d = id → dp_status d = status.

Lemma wp_update id status msg Q w :
  (∀ w', same_broker w w' → has_status id status w' → Q w' (Ok tt)) → (∀ w' e, same_broker w w' → Q w' (Err e)) →
  wp (updateDeploymentStatus id status msg) Q w.
Proof.
  intros HOk HErr. unfold updateDeploymentStatus, raw_db. apply wp_zoom. unfold UpdateDeploymentStatus.
  destruct (decide _); [|apply wp_fail, HErr; apply same_fs_refl]. apply wp_bind, wp_now. intros s1 t H1. unfold affects.
  apply wp_bind. unfold exec. apply wp_statement; [intros; apply HErr, same_fs_refl|]. intros s2 H2.
  destruct (decide _); [apply wp_fail, HErr, same_fs_refl|]. apply wp_ret, HOk; [apply same_fs_refl|].
  intros d Hd Hid. cbn in Hd. apply list_elem_of_fmap in Hd as (d0 & -> & _). unfold set_status in *.
  destruct (decide (dp_id d0 = id)); [done|]. done.
Qed.

Lemma wp_audit actor action d outcome Q w :
  (∀ a, Q (set_audit a w) (Ok tt)) → wp (audit_record actor action d outcome) Q w.
Proof. intros H. apply H. Qed.

Lemma wp_get id status Q w : has_status id status w →
  (∀ w' d, same_broker w w' → dp_status d = status → Q w' (Ok d)) → (∀ w' e, same_broker w w' → Q w' (Err e)) →
  wp (getDeployment id) Q w.
Proof.
  intros Hst HOk HErr. unfold getDeployment, raw_db. apply wp_zoom. unfold GetDeployment. apply wp_bind. unfold select.
  apply wp_statement; [intros; apply HErr, same_fs_refl|]. intros s H. unfold found.
  assert (db_deployments s = db_deployments (w_db w)) as -> by (by rewrite <-H).
  destruct (filter _ _) as [|d l] eqn:E; cbn [head]; [apply wp_fail, HErr, same_fs_refl|]. apply wp_ret, HOk; [apply same_fs_refl|].
  assert (d ∈ filter (λ d, dp_id d = id) (db_deployments (w_db w))) as [Hid Hd]%list_elem_of_filter by (rewrite E; by left).
  by apply Hst.
Qed.

(** ** The snapshots of the listener files *)
Lemma json_fold_lookup (m acc : gmap string string) l k :
  (∀ k v, m !! k = Some v → sanitize k = k ∧ sanitize v = v) → (∀ k, k ∈ l → is_Some (m !! k)) →
  foldl (λ acc k, match m !! k with Some v => <[sanitize k := sanitize v]> acc | None => acc end) acc l !! k
  = if decide (k ∈ l) then m !! k else acc !! k.
Proof.
  intros Hm. revert acc. induction l as [|x l IH]; intros acc Hl; [by rewrite decide_False by apply not_elem_of_nil|].
  cbn [foldl]. rewrite IH by (intros y Hy; apply Hl; by right). destruct (Hl x ltac:(by left)) as [v Hv].
  rewrite Hv. destruct (Hm _ _ Hv) as [-> ->]. destruct (decide (k ∈ l)) as [Hk|Hk]; [by rewrite decide_True by by right|].
  destruct (decide (x = k)) as [->|Hne].
  - rewrite lookup_insert_eq, decide_True by by left. done.
  - rewrite lookup_insert_ne by done. rewrite decide_False; [done|]. rewrite elem_of_cons. naive_solver.
Qed.

Lemma json_object_id m : (∀ k v, m !! k = Some v → sanitize k = k ∧ sanitize v = v) → json_object m = m.
Proof.
  intros Hm. apply map_eq. intros k. unfold json_object. rewrite json_fold_lookup; [|done|].
  - destruct (decide _) as [|Hk]; [done|]. transitivity (@None string); [done|]. symmetry. apply not_elem_of_dom.
    by rewrite elem_of_sort_strings, elem_of_elements in Hk.
  - intros x Hx. by rewrite elem_of_sort_strings, elem_of_elements, elem_of_dom in Hx.
Qed.

Lemma by_path_fold body files (acc : gmap string string) p :
  NoDup (af_path <$> files) →
  foldl (λ m f, <[af_path f := body f]> m) acc files !! p
  = match head (filter (λ f, af_path f = p) files) with Some f => Some (body f) | None => acc !! p end.
Proof.
  revert acc. induction files as [|f files IH]; intros acc Hnd; [done|]. rewrite fmap_cons, NoDup_cons in Hnd. destruct Hnd as [Hf Hnd].
  cbn [foldl]. rewrite IH by done. rewrite filter_cons. destruct (decide (af_path f = p)) as [<-|Hne]; cbn [head].
  - destruct (filter (λ g, af_path g = af_path f) files) as [|g gs] eqn:E; [by rewrite lookup_insert_eq|]. exfalso. apply Hf.
    assert (g ∈ filter (λ g, af_path g = af_path f) files) as [<- Hg]%list_elem_of_filter by (rewrite E; by left).
    by apply list_elem_of_fmap_2.
  - destruct (head _); [done|]. by rewrite lookup_insert_ne.
Qed.

(** The map of the snapshots, when they all are what is on disk. *)
Lemma by_path_snapshots files (m : gmap string string) p v :
  NoDup (af_path <$> files) → Forall (λ f, reads m (af_path f) = af_snapshot f) files →
  by_path af_snapshot files !! p = Some v ↔ p ∈ af_path <$> files ∧ v = reads m p.
Proof.
  intros Hnd Hf. unfold by_path. rewrite by_path_fold, lookup_empty by done. rewrite Forall_forall in Hf.
  destruct (filter (λ f, af_path f = p) files) as [|g gs] eqn:E; cbn [head].
  - split; [done|]. intros [Hp _]. apply list_elem_of_fmap in Hp as (f & -> & Hin).
    assert (f ∈ filter (λ g, af_path g = af_path f) files) as H by by apply list_elem_of_filter. rewrite E in H. by apply elem_of_nil in H.
  - assert (g ∈ filter (λ f, af_path f = p) files) as [<- Hg]%list_elem_of_filter by (rewrite E; by left). rewrite (Hf g Hg).
    split; [intros [= <-]; split; [by apply list_elem_of_fmap_2|done]|]. by intros [_ ->].
Qed.

(** ** A validated apply *)
Section validated.
Context (w : world) (rev : PreviewRevision) (rc : renderedConfig) (ids : list string) (plan : aclFilePlan).
Hypothesis Hw : well_placed cfg w.
Hypothesis Hutf8 : utf8_snapshots w.
Hypothesis Hrc : files_of cfg ids rc.
Hypothesis Hids : NoDup ids.
Hypothesis Hin : ∀ id, id ∈ ids → id ∈ r_listener_id <$> listener_rules (with_id <$> db_rules (w_db w)).
Let m := fs_files (w_fs w).
Hypothesis Hplan : plan_of cfg rc (pr_listener rev ∪ {[cf_acl cfg := pr_acl rev]}) m (managed_rows (w_db w)) plan.
Let req := apply_request plan (pr_passwd rev) (reads m (cf_passwd cfg)).
Let files := pl_listener plan ++ pl_remove plan.
Let m2 := requested (cf_acl cfg) (cf_passwd cfg) req m.

Lemma ids_valid id : id ∈ ids → ValidateListenerID id = None.
Proof. intros H. by apply (listener_id_valid cfg w Hw), Hin. Qed.

Lemma req_faithful : faithful (cf_acl cfg) (cf_passwd cfg) req m.
Proof. exact (plan_faithful cfg w Hw rc ids _ plan _ Hrc Hids ids_valid Hplan). Qed.

Lemma plan_global : pl_global plan = mkACLFile (cf_acl cfg) (default (pr_acl rev) (pr_listener rev !! cf_acl cfg)) (reads m (cf_acl cfg)).
Proof.
  rewrite (po_global _ _ _ _ _ _ Hplan). unfold planned. cbn [fr_path fr_body]. f_equal. rewrite lookup_union, lookup_singleton_eq.
  by destruct (pr_listener rev !! cf_acl cfg).
Qed.

Lemma touched_files : touched (cf_acl cfg) (cf_passwd cfg) req = (cf_acl cfg :: (af_path <$> files)) ++ [cf_passwd cfg].
Proof. unfold touched, files. rewrite fmap_app. cbn. by rewrite <-app_assoc. Qed.

Lemma touched_deploy : touched (cf_acl cfg) (cf_passwd cfg) req ⊆ deploy_paths w.
Proof.
  destruct (plan_paths cfg w rc ids _ plan (pr_passwd rev) Hrc Hplan) as [Hp1 Hp2].
  fold m in Hp1, Hp2. fold req in Hp1, Hp2. unfold touched. intros p Hp. unfold deploy_paths, listener_paths.
  apply elem_of_app in Hp as [Hp|Hp].
  - rewrite Hp1 in Hp. apply elem_of_cons in Hp as [->|Hp]; [by left|]. right. right. apply elem_of_app. left.
    apply list_elem_of_fmap in Hp as (id & -> & Hid). apply list_elem_of_fmap_2. by apply Hin.
  - apply elem_of_app in Hp as [Hp|Hp%list_elem_of_singleton]; [|subst p; right; by left]. rewrite Hp2 in Hp.
    apply (retired_paths cfg w rc ids Hrc) in Hp as [Hp _]. right. right. apply elem_of_app. by right.
Qed.

Lemma files_distinct : NoDup (af_path <$> files) ∧ (cf_acl cfg ∉ af_path <$> files) ∧ (cf_passwd cfg ∉ af_path <$> files).
Proof.
  pose proof (ff_nodup _ _ _ _ req_faithful) as H. rewrite touched_files in H. apply NoDup_app in H as (H1 & H2 & _).
  apply NoDup_cons in H1 as [H1 H3]. split; [done|]. split; [done|]. intros Hp. apply (H2 (cf_passwd cfg)); [by right|by left].
Qed.

Lemma files_snapshots : Forall (λ f, reads m (af_path f) = af_snapshot f) files.
Proof.
  pose proof (ff_files _ _ _ _ req_faithful) as H. unfold files. apply Forall_app in H as [H1 H2]. apply Forall_cons in H1 as [_ H1].
  by apply Forall_app.
Qed.

Lemma snapshots_lookup p v : listenerSnapshotJSON plan !! p = Some v ↔ p ∈ af_path <$> files ∧ v = reads m p.
Proof.
  unfold listenerSnapshotJSON. fold files. rewrite json_object_id.
  - apply by_path_snapshots; [apply files_distinct|apply files_snapshots].
  - intros k x Hk. apply by_path_snapshots with (m := m) in Hk as [Hk ->]; [|apply files_distinct|apply files_snapshots].
    unfold utf8_snapshots in Hutf8. rewrite Forall_forall in Hutf8. apply Hutf8.
    assert (k ∈ deploy_paths w) as Hd by (apply touched_deploy; rewrite touched_files; apply elem_of_app; left; by right).
    destruct files_distinct as (_ & Ha & Hp). apply elem_of_cons in Hd as [->|Hd]; [done|]. by apply elem_of_cons in Hd as [->|Hd].
Qed.

Context (d : Deployment message).
Hypothesis Hd : dp_listener_snapshot d = listenerSnapshotJSON plan.
Let rb := rollbackRequest d (reads m (cf_acl cfg)) (reads m (cf_passwd cfg)).

Lemma rollback_keys p : p ∈ sort_strings (elements (dom (dp_listener_snapshot d))) ↔ p ∈ af_path <$> files.
Proof.
  rewrite elem_of_sort_strings, elem_of_elements, elem_of_dom, Hd. split.
  - intros [v Hv]. by apply snapshots_lookup in Hv as [? _].
  - intros Hp. exists (reads m p). by apply snapshots_lookup.
Qed.

Lemma rollback_touched p : p ∈ touched (cf_acl cfg) (cf_passwd cfg) rb ↔ p ∈ touched (cf_acl cfg) (cf_passwd cfg) req.
Proof.
  rewrite touched_files. unfold touched, rb, rollbackRequest, request_files. cbn [rq_listener rq_removed rq_acl_body rq_acl_snapshot].
  rewrite fmap_cons. cbn [af_path]. rewrite <-list_fmap_compose. change (af_path ∘ _) with (λ x : string, x). rewrite list_fmap_id.
  cbn. rewrite !elem_of_cons, !elem_of_app, rollback_keys. cbn. done.
Qed.

Lemma rollback_reads p : reads (requested (cf_acl cfg) (cf_passwd cfg) rb m2) p = reads m p.
Proof.
  unfold requested at 1. cbn [rq_removed rollbackRequest rb removes foldl]. unfold reads at 1.
  set (l := bodies (request_files (cf_acl cfg) rb) ++ [(cf_passwd cfg, rq_passwd_body rb)]).
  assert (l.*1 = (cf_acl cfg :: sort_strings (elements (dom (dp_listener_snapshot d)))) ++ [cf_passwd cfg]) as Hl.
  { unfold l, bodies, rb, rollbackRequest, request_files. rewrite fmap_app, <-list_fmap_compose. cbn. do 2 f_equal.
    rewrite <-list_fmap_compose. apply list_fmap_id. }
  destruct files_distinct as (Hn & Ha & Hp).
  assert (NoDup l.*1) as Hnd.
  { rewrite Hl. apply NoDup_app. split; [|split; [|apply NoDup_singleton]].
    - constructor; [by rewrite rollback_keys|]. rewrite sort_strings_perm. apply NoDup_elements.
    - intros q Hq ->%list_elem_of_singleton. apply elem_of_cons in Hq as [Hq|Hq]; [by apply (pl_distinct _ _ Hw)|].
      by apply rollback_keys in Hq. }
  destruct (decide (p ∈ l.*1)) as [Hin'|Hout].
  - assert ((p, reads m p) ∈ l) as Hel.
    { rewrite Hl in Hin'. unfold l. apply elem_of_app in Hin' as [Hin'|Hin'%list_elem_of_singleton]; apply elem_of_app.
      - left. unfold bodies, rb, rollbackRequest, request_files. cbn. apply elem_of_cons in Hin' as [->|Hk]; [by left|]. right.
        pose proof Hk as Hk'. apply rollback_keys in Hk'. apply list_elem_of_fmap. exists (mkACLFile p (reads m p) ""). split; [done|].
        apply list_elem_of_fmap. exists p. split; [|done]. f_equal. rewrite Hd.
        by rewrite (proj2 (snapshots_lookup p (reads m p)) (conj Hk' eq_refl)).
      - right. subst p. by left. }
    by rewrite (writes_elem _ _ _ _ Hnd Hel).
  - rewrite writes_other by done. unfold m2, requested.
    assert (p ∉ touched (cf_acl cfg) (cf_passwd cfg) req) as Ht.
    { rewrite touched_files. rewrite Hl in Hout. rewrite elem_of_app, elem_of_cons, <-rollback_keys. rewrite elem_of_app, elem_of_cons in Hout. done. }
    unfold touched in Ht. rewrite !not_elem_of_app in Ht. destruct Ht as (Ht1 & Ht2 & Ht3). rewrite removes_other by done.
    rewrite writes_other; [done|]. unfold bodies. rewrite fmap_app, <-list_fmap_compose, not_elem_of_app. done.
Qed.

(** ** Rolling back *)
Definition outside (f' : fs) : Prop := same_outside (deploy_paths w) m (fs_files f').
Definition rolled (w' : world) (r : result deploy_error (Deployment message)) : Prop :=
  match r with
  | Ok d' => dp_status d' = "rolled_back" ∧ restored_to (w_fs w) (w_fs w')
  | Err e => restored_to (w_fs w) (w_fs w') ∨ lost e = true ∧ outside (w_fs w')
  end.

Lemma same_broker_restored w1 w2 : restored_to (w_fs w) (w_fs w1) → same_broker w1 w2 → restored_to (w_fs w) (w_fs w2).
Proof. unfold same_broker, same_fs. intros H ->. exact H. Qed.
Lemma same_broker_outside w1 w2 : outside (w_fs w1) → same_broker w1 w2 → outside (w_fs w2).
Proof. unfold same_broker, same_fs. intros H ->. exact H. Qed.

Lemma outside_touched p : p ∉ deploy_paths w → p ∉ touched (cf_acl cfg) (cf_passwd cfg) req.
Proof. intros Hp Ht. by apply Hp, touched_deploy. Qed.

Lemma m2_outside : same_outside (deploy_paths w) m m2.
Proof.
  intros p Hp. apply outside_touched in Hp. unfold m2, requested, touched in *. rewrite !not_elem_of_app in Hp. destruct Hp as (H1 & H2 & H3).
  rewrite removes_other by done. apply writes_other. unfold bodies. rewrite fmap_app, <-list_fmap_compose, not_elem_of_app. done.
Qed.

Lemma rollback_outside m1 :
  same_outside (touched (cf_acl cfg) (cf_passwd cfg) rb) m2 m1 → same_outside (deploy_paths w) m m1.
Proof. intros H p Hp. rewrite H; [by apply m2_outside|]. rewrite rollback_touched. by apply outside_touched. Qed.

Lemma wp_rollbackAfterVerifyFailure actor msg previous w2 :
  fs_files (w_fs w2) = m2 →
  wp (rollbackAfterVerifyFailure cfg actor d (reads m (cf_acl cfg)) (reads m (cf_passwd cfg)) msg previous) rolled w2.
Proof.
  intros Hw2. unfold rollbackAfterVerifyFailure. fold rb. apply wp_bind, wp_attempt, wp_applier; [apply Hw|].
  intros f' r Ho. rewrite Hw2 in Ho. cbv beta.
  assert (match r with Ok _ => True | Err _ => outside f' end) as Hout.
  { destruct r as [u|e]; [done|]. unfold outcome in Ho. unfold outside. destruct e; try (destruct Ho as [-> _]; apply m2_outside).
    - destruct Ho as (m1 & Hm1 & [-> _]). apply rollback_outside, writes_outside; [exact Hm1|].
      by rewrite rolled_back_paths.
    - destruct Ho as (m1 & Hm1 & [-> _]). by apply rollback_outside. }
  destruct r as [u|e].
  - unfold outcome in Ho. destruct Ho as [Hf Hl]. assert (restored_to (w_fs w) f') as Hres.
    { split; [|right; congruence]. intros p. rewrite Hf. apply rollback_reads. }
    apply wp_bind, wp_attempt. eapply (wp_moves same_broker).
    { unfold restoreManagedACLFiles, release. repeat moves_step. }
    intros w3 restored H3. cbv zeta. apply wp_bind, wp_wrap, wp_update.
    + intros w4 H4 Hst. apply wp_bind, wp_audit. intros a. apply wp_wrap. apply (wp_get _ "rolled_back"); [exact Hst|..].
      * intros w5 d' H5 Hd'. split; [done|]. eapply same_broker_restored; [|exact H5].
        apply (same_broker_restored w3 w4); [|exact H4]. by eapply same_broker_restored; [|exact H3].
      * intros w5 e H5. left. eapply same_broker_restored; [|exact H5].
        apply (same_broker_restored w3 w4); [|exact H4]. by eapply same_broker_restored; [|exact H3].
    + intros w4 e H4. left. eapply same_broker_restored; [|exact H4]. by eapply same_broker_restored; [|exact H3].
  - apply wp_bind, wp_attempt. eapply (wp_moves same_broker); [apply raw_broker|]. intros w3 status H3.
    apply wp_bind, wp_audit. intros a.
    apply wp_bind, wp_attempt. eapply (wp_moves same_broker); [apply raw_broker|]. intros w5 get H5.
    assert (outside (w_fs w5)) as H.
    { eapply same_broker_outside; [|exact H5]. exact (same_broker_outside (set_fs f' w2) w3 Hout H3). }
    unfold report. destruct status; [destruct get|]; apply wp_fail; right; done.
Qed.

(** ** Activation *)
Hypothesis Hhash : contentHash (rc_acl rc) = pr_rendered_acl rev ∧ contentHash (rc_passwd rc) = pr_rendered_passwd rev
  ∧ aclFilesHash (rc_files rc) = pr_files_hash rev.

Lemma serves_m2 f' : fs_files f' = m2 → fs_loaded f' = m2 → serves rev (w_db w) f'.
Proof.
  intros Hf Hl. pose proof (requested_applied _ _ req m req_faithful f' (conj Hf Hl)) as [Hap Hpw Hrm _ Hld]. constructor; [| | |done].
  - pose proof (Hap (mkACLFile (cf_acl cfg) (rq_acl_body req) (rq_acl_snapshot req)) ltac:(by left)) as H. cbn in H.
    by rewrite H, plan_global.
  - exact Hpw.
  - destruct Hhash as (H1 & H2 & H3). exists rc. split; [done|]. split; [done|]. split; [done|].
    destruct (listener_files_of cfg ids rc Hrc) as (ls & _ & Hls & Hi & Hpaths & _). split.
    + intros f Hfl. assert (planned (pr_listener rev ∪ {[cf_acl cfg := pr_acl rev]}) m f ∈ request_files (cf_acl cfg) req) as Hreq.
      { unfold request_files. right. cbn. rewrite (po_listener _ _ _ _ _ _ Hplan). by apply list_elem_of_fmap_2. }
      apply Hap in Hreq. cbn in Hreq. rewrite Hreq. do 2 f_equal. rewrite lookup_union, lookup_singleton_ne.
      * by destruct (pr_listener rev !! fr_path f).
      * intros Heq. rewrite Hls in Hfl. rewrite Forall_forall in Hpaths. rewrite (Hpaths f Hfl) in Heq. symmetry in Heq. revert Heq.
        apply (listener_path_ne cfg w Hw); [|apply Hw]. apply ids_valid. rewrite <-Hi. by apply list_elem_of_fmap_2.
    + intros row Hrow. apply (Hrm (removal m row)). cbn. rewrite (po_remove _ _ _ _ _ _ Hplan). by apply list_elem_of_fmap_2.
Qed.

Definition ended (w' : world) (r : result deploy_error (Deployment message)) : Prop :=
  match r with
  | Ok d' => dp_status d' = "active_verified" ∧ serves rev (w_db w) (w_fs w') ∨ dp_status d' = "rolled_back" ∧ restored_to (w_fs w) (w_fs w')
  | Err e => restored_to (w_fs w) (w_fs w') ∨ serves rev (w_db w) (w_fs w') ∨ lost e = true ∧ outside (w_fs w')
  end.
Lemma rolled_ended w' r : rolled w' r → ended w' r.
Proof. destruct r; cbn; tauto. Qed.

Definition in_place (w2 : world) : Prop := fs_files (w_fs w2) = m2 ∧ fs_loaded (w_fs w2) = m2.
Lemma same_broker_in_place w1 w2 : in_place w1 → same_broker w1 w2 → in_place w2.
Proof. unfold same_broker, same_fs, in_place. by intros H ->. Qed.

Lemma wp_rollbackAfterPersistenceFailure actor msg e previous w2 : in_place w2 →
  wp (rollbackAfterPersistenceFailure cfg actor d (reads m (cf_acl cfg)) (reads m (cf_passwd cfg)) msg e previous) ended w2.
Proof.
  intros [H2 _]. unfold rollbackAfterPersistenceFailure. apply wp_bind, wp_attempt.
  eapply wp_mono; [by apply wp_rollbackAfterVerifyFailure|]. intros w3 [d'|e'] H; cbn in H.
  - apply wp_fail. left. apply H.
  - destruct e'; apply wp_fail; cbn in *; tauto.
Qed.

Lemma wp_activate actor previous w2 : in_place w2 →
  wp (activate cfg actor d rev (reads m (cf_acl cfg)) (reads m (cf_passwd cfg)) rc previous) ended w2.
Proof.
  intros H2. unfold activate. apply wp_bind, wp_attempt. eapply (wp_moves same_broker).
  { unfold recordManagedACLFiles, release. cbv zeta. repeat moves_step. }
  intros w3 recorded H3. apply (same_broker_in_place _ w3) in H2; [|done]. clear H3.
  assert (∀ msg w', in_place w' → wp (rollbackAfterVerifyFailure cfg actor d (reads m (cf_acl cfg)) (reads m (cf_passwd cfg)) msg previous)
    ended w') as Hrb.
  { intros msg w' [H _]. eapply wp_mono; [by apply wp_rollbackAfterVerifyFailure|]. apply rolled_ended. }
  pose proof (λ msg e w', wp_rollbackAfterPersistenceFailure actor msg e previous w') as Hrp.
  destruct recorded as [u|e]; [|by apply Hrb]. apply wp_bind, wp_attempt. eapply (wp_moves same_broker); [apply raw_broker|].
  intros w4 pend H4. apply (same_broker_in_place _ w4) in H2; [|done]. clear H4. apply wp_bind.
  eapply (wp_moves same_broker); [destruct pend; [apply audit_broker|apply moves_ret, _]|]. intros w5 started H5.
  apply (same_broker_in_place _ w5) in H2; [|done]. clear H5.
  destruct started as [_|e]; [|right; left; destruct H2; by apply serves_m2].
  apply wp_bind. eapply (wp_moves same_broker); [auto with mcm|]. intros w6 verified H6.
  apply (same_broker_in_place _ w6) in H2; [|done]. clear H6. cbv zeta. destruct verified as [[[[failure|] attempts] kind]|e].
  - destruct pend; [by apply Hrb|by apply Hrp].
  - destruct pend as [[]|se]; [|by apply Hrp]. apply wp_bind, wp_attempt, wp_update.
    + intros w7 H7 Hst. apply (same_broker_in_place _ w7) in H2; [|done]. apply wp_bind, wp_audit. intros a. apply wp_wrap.
      apply (wp_get _ "active_verified"); [exact Hst|..].
      * intros w8 d' H8 Hd'. left. split; [done|]. apply (same_broker_in_place _ w8) in H2 as [??]; [|done]. by apply serves_m2.
      * intros w8 e H8. right. left. apply (same_broker_in_place _ w8) in H2 as [??]; [|done]. by apply serves_m2.
    + intros w7 e H7. apply (same_broker_in_place _ w7) in H2; [|done]. by apply Hrp.
  - right. left. destruct H2. by apply serves_m2.
Qed.
End validated.

(** ** Validation *)
Record valid_apply (id : string) (w : world) (rev : PreviewRevision) (acl passwd : string) (rc : renderedConfig) (plan : aclFilePlan)
    (ids : list string) : Prop := {
  va_pending : pending rev id w;
  va_fresh : (db_now (w_db w) ≤ pr_created rev + previewRevisionTTL)%Z;
  va_base : contentHash acl = pr_base_acl rev ∧ contentHash passwd = pr_base_passwd rev;
  va_acl : acl = reads (fs_files (w_fs w)) (cf_acl cfg);
  va_passwd : passwd = reads (fs_files (w_fs w)) (cf_passwd cfg);
  va_files : files_of cfg ids rc;
  va_distinct : NoDup ids;
  va_ids : ∀ id, id ∈ ids → id ∈ r_listener_id <$> listener_rules (with_id <$> db_rules (w_db w));
  va_plan : plan_of cfg rc (pr_listener rev ∪ {[cf_acl cfg := pr_acl rev]}) (fs_files (w_fs w)) (managed_rows (w_db w)) plan;
  va_hash : contentHash (rc_acl rc) = pr_rendered_acl rev ∧ contentHash (rc_passwd rc) = pr_rendered_passwd rev
    ∧ aclFilesHash (rc_files rc) = pr_files_hash rev
}.

Lemma wp_readFile_quiet {B} path (k : string → deploy B) Q w :
  (∀ w', quiet w w' → wp (k (reads (fs_files (w_fs w)) path)) Q w') → (∀ w' e, quiet w w' → Q w' (Err e)) → wp (readFile path ≫= k) Q w.
Proof.
  intros Hk HE. apply wp_bind. eapply wp_quiet_with with (P := λ r, match r with Ok c => c = reads (fs_files (w_fs w)) path | Err _ => True end);
    [auto with mcm|by apply wp_readFile|]. intros w' [c|e] H HP; [subst c; by apply Hk|by apply HE].
Qed.

Lemma wp_validate id w :
  wp (validate_revision cfg pbkdf2 id) (λ _ r, match r with
    | Ok (rev, acl, passwd, rc, plan) => ∃ ids, valid_apply id w rev acl passwd rc plan ids
    | Err _ => True end) w.
Proof.
  unfold validate_revision. apply wp_bind, wp_attempt. unfold raw_db, GetPreviewRevision.
  assert (∀ s : db message, db_now (select (λ s, db_revisions s !! id) s).1 = db_now s) as Hnow
    by (intros s; unfold select, statement; by destruct (db_faults s) as [|[]]).
  eapply (wp_mono _ (λ w1 r, (quiet w w1 ∧ db_now (w_db w1) = db_now (w_db w))
    ∧ match r with Ok rev => db_revisions (w_db w) !! id = Some rev | Err _ => True end)).
  { split; [split; [apply raw_db_quiet, GetPreviewRevision_reads|]|].
    - cbn. unfold mbind, io_bind. pose proof (Hnow (w_db w)) as H. destruct (select _ _) as [s' [[r|]|e]]; exact H.
    - lazymatch goal with |- match (?m w).2 with _ => _ end =>
        change (wp m (λ _ r, match r with Ok rev => db_revisions (w_db w) !! id = Some rev | Err _ => True end) w) end.
      apply wp_zoom, wp_bind. unfold select. apply wp_statement; [done|]. intros s0 H0. rewrite <-H0. cbn.
      by destruct (db_revisions (w_db w) !! id) eqn:E. }
  intros w1 r [[H1 Hnow1] Hr]. apply wp_bind. destruct r as [rev|e]; [|by destruct e]. apply wp_ret. rename Hr into Hrev.
  destruct (decide (pr_applied rev ≠ None)) as [|Happ]; [done|]. apply dec_stable in Happ.
  apply wp_bind. eapply wp_quiet_with with (P := λ r, match r with Ok t => db_now (w_db w1) ≤ t | Err _ => True end%Z);
    [unfold db_now_utc; auto with mcm|unfold db_now_utc; apply wp_zoom; unfold wp, now; destruct (db_ticks _); cbn; lia|].
  intros w2 [t|e] H2 Ht; [|done]. destruct (decide (_ < _)%Z) as [|Hfresh]; [done|]. assert (quiet w w2) as Hq2 by by etrans.
  apply wp_readFile_quiet; [|done]. intros w3 H3. rewrite (proj1 (quiet_files _ _ Hq2)).
  apply wp_readFile_quiet; [|done]. intros w4 H4. rewrite (proj1 (quiet_files _ _ (quiet_trans _ _ _ Hq2 H3))).
  destruct (decide (_ ∨ _)) as [|Hbase]; [done|].
  apply wp_bind. eapply wp_quiet_with; [apply renderConfig_quiet|apply wp_renderConfig|]. intros w5 [rc|e] H5 Hrc; [|done].
  destruct Hrc as (ids & Hf & Hnd & Hids). destruct (decide (_ ∨ _)) as [|Hh]; [done|].
  assert (quiet w w4) as Hq4 by (do 2 (etrans; [|eassumption]); done). assert (quiet w w5) as Hq5 by by etrans.
  apply wp_bind. eapply wp_quiet_with; [apply plan_quiet|by apply (wp_planACLFiles cfg ids)|]. intros w6 [plan|e] H6 Hplan; [|done].
  apply wp_bind, wp_quiet; [apply issues_quiet|]. intros w7 [issues|e] H7; [|done]. destruct (decide _); [done|]. cbv zeta.
  apply wp_bind, wp_quiet; [apply blocking_quiet|]. intros w8 [blocking|e] H8; [|done]. destruct (decide _); [done|].
  apply wp_ret. exists ids. rewrite (proj1 (quiet_files _ _ Hq5)), (quiet_tables managed_rows w w5) in Hplan by done.
  rewrite (quiet_tables db_rules w w4) in Hids by done. constructor; try done; [lia|..];
    repeat split; apply dec_stable; naive_solver.
Qed.

Lemma db_ok_same s s' : same_tables (M := message) s s' → db_ok s → db_ok s'.
Proof. unfold same_tables, rolled_back_to. intros <- H. by apply db_ok_faults, db_ok_clock. Qed.

Lemma wp_insert d0 what w : db_ok (w_db w) →
  wp (on_db what (InsertDeployment d0)) (λ w' r, same_broker w w'
    ∧ match r with Ok d => dp_listener_snapshot d = dp_listener_snapshot d0 | Err _ => True end) w.
Proof.
  intros Hok. unfold on_db. apply wp_zoom. unfold InsertDeployment. destruct (decide _); [|by split; [apply same_fs_refl|]].
  apply wp_bind, wp_now. intros s1 t H1. apply wp_bind, wp_statement; [intros; by split; [apply same_fs_refl|]|]. intros s2 H2.
  assert (db_ok s2) as Hok2 by (eapply db_ok_same; [exact H2|]; by eapply db_ok_same).
  unfold insert_deployment. unfold GetDeployment. apply wp_bind. unfold select. apply wp_statement; [intros; by split; [apply same_fs_refl|]|].
  intros s3 H3. unfold found. rewrite <-H3. unfold rolled_back_to, with_clock, with_faults, with_deployments. cbn [db_deployments].
  destruct (ok_deployment_ids _ Hok2) as [_ Hlt]. rewrite filter_app, filter_cons. cbn [dp_id]. rewrite decide_True by done.
  assert (filter (λ d, dp_id d = db_next_deployment s2) (db_deployments s2) = []) as ->.
  { apply filter_nil_iff. intros d Hd Heq. rewrite Forall_forall in Hlt. specialize (Hlt (dp_id d) (list_elem_of_fmap_2 dp_id _ _ Hd)). lia. }
  cbn [app head]. split; [apply same_fs_refl|done].
Qed.

(** ** The whole apply *)
Definition finished (id : string) (w w' : world) (r : result deploy_error (Deployment message)) : Prop :=
  let active := ∃ rev, pending rev id w ∧ serves rev (w_db w) (w_fs w') in
  match r with
  | Ok d => dp_status d = "active_verified" ∧ active ∨ dp_status d = "rolled_back" ∧ restored_to (w_fs w) (w_fs w')
  | Err e => restored_to (w_fs w) (w_fs w') ∨ active ∨ lost e = true ∧ same_outside (deploy_paths w) (fs_files (w_fs w)) (fs_files (w_fs w'))
  end.

Lemma broker_restored w w' : same_broker w w' → restored_to (w_fs w) (w_fs w').
Proof. unfold same_broker, same_fs. intros ->. split; [done|by left]. Qed.

Lemma wp_recordApplyFailure actor d e w :
  wp (recordApplyFailure actor d e) (λ w' r, same_broker w w' ∧ match r with Ok _ => False | Err e' => lost e' = rollback_failed e end) w.
Proof.
  unfold recordApplyFailure. cbv zeta. apply wp_bind, wp_attempt. eapply (wp_moves same_broker); [apply raw_broker|]. intros w1 stored H1.
  apply wp_bind, wp_audit. intros a. destruct stored as [[]|se]; [|by apply wp_fail].
  apply wp_bind, wp_attempt. eapply (wp_moves same_broker); [apply raw_broker|]. intros w2 get H2. unfold report.
  assert (same_broker w w2) by (transitivity w1; [done|exact H2]). by destruct get; apply wp_fail.
Qed.

Lemma wp_apply_locked actor id w : well_placed cfg w → utf8_snapshots w →
  wp (apply_locked cfg pbkdf2 actor id) (finished id w) w.
Proof.
  intros Hw Hutf8. unfold apply_locked. apply wp_bind. eapply wp_quiet_with; [apply validate_quiet|apply wp_validate|].
  intros w1 r H1 Hr. apply quiet_broker in H1 as Hb1.
  destruct r as [[[[[rev acl] passwd] rc] plan]|e]; [|left; by apply broker_restored].
  destruct Hr as (ids & [Hpend _ _ -> -> Hf Hnd Hids Hplan Hhash]).
  apply wp_bind. eapply wp_mono; [apply wp_insert; eapply db_ok_same; [apply H1|apply Hw]|].
  intros w2 r [H2 Hd]. assert (same_broker w w2) as Hb2 by by transitivity w1.
  destruct r as [d|e]; [|left; by apply broker_restored]. cbn [dp_listener_snapshot] in Hd.
  apply wp_bind, wp_audit. intros a. apply wp_bind, wp_wrap. eapply (wp_moves same_broker); [apply raw_broker|]. intros w3 r3 H3.
  assert (same_broker w w3) as Hb3 by (transitivity w2; [done|exact H3]). destruct r3 as [[]|e]; [|left; by apply broker_restored].
  apply wp_bind, wp_audit. intros a'. apply wp_bind. eapply (wp_moves same_broker).
  { unfold consume_revision, consumePreviewRevision, updateDeploymentStatus, db_now_utc. repeat moves_step. }
  intros w4 r4 H4. assert (same_broker w w4) as Hb4 by (transitivity w3; [done|exact H4]). destruct r4 as [[]|e]; [|left; by apply broker_restored].
  apply wp_bind. eapply (wp_moves same_broker); [auto with mcm|]. intros w5 r5 H5.
  assert (same_broker w w5) as Hb5 by (by transitivity w4). destruct r5 as [previous|e]; [|left; by apply broker_restored].
  apply wp_bind, wp_attempt, wp_applier; [apply Hw|]. intros f' r Ho.
  assert (fs_files (w_fs w5) = fs_files (w_fs w) ∧ fs_loaded (w_fs w5) = fs_loaded (w_fs w)) as [Hff Hfl] by by (unfold same_broker, same_fs in Hb5; rewrite Hb5).
  rewrite Hff, Hfl in Ho. cbv beta. destruct r as [u|e].
  - eapply wp_mono; [eapply (wp_activate w rev rc ids plan Hw Hutf8 Hf Hnd Hids Hplan d Hd Hhash); exact Ho|].
    intros w' [d'|e] H; cbn in H |- *.
    + destruct H as [[? ?]|[? ?]]; [left|right]; eauto.
    + destruct H as [H|[H|H]]; eauto.
  - eapply wp_mono; [apply wp_recordApplyFailure|]. intros w' [d'|e'] [H He]; [done|].
    pose proof (outcome_transactional _ _ _ _ (plan_faithful cfg w Hw rc ids _ plan (pr_passwd rev) Hf Hnd (λ id Hid, listener_id_valid cfg w Hw id (Hids id Hid)) Hplan)
      (w_fs w) f' (Err e) eq_refl Ho) as Ht.
    assert (w_fs w' = set_faults f' (fs_faults (w_fs w'))) as Hw' by exact H. unfold finished. rewrite Hw'. unfold transactional in Ht.
    destruct (rollback_failed e) eqn:Er.
    + destruct e; try done. right. right. split; [done|]. destruct Ht as [Ht _]. intros p Hp. apply Ht. intros Hp'. apply Hp.
      by apply (touched_deploy w rev rc ids plan Hf Hids Hplan).
    + left. assert ((∀ p, reads (fs_files f') p = reads (fs_files (w_fs w)) p) ∧ fs_loaded f' = fs_loaded (w_fs w)) as [Ht1 Ht2] by by destruct e.
      split; [exact Ht1|by left].
Qed.
End contract.

(** ** Property *)

(** [C1] What an apply leaves behind, whatever fails: a deployment reported as
    [active_verified] means that the broker runs on the files on disk and that
    these are the files of the revision; [rolled_back] means that every file
    reads as before; and with an error every file reads as before, or the
    revision serves, or the error names the failed rollback and only files of
    the deploy changed. *)
Theorem Apply_contract cfg pbkdf2 actor id w :
  well_placed cfg w → utf8_snapshots cfg w →
  let '(w', r) := Apply cfg pbkdf2 actor id w in finished cfg id w w' r.
Proof.
  intros Hw Hutf8. assert (∀ e, finished cfg id w w (Err e)) as Herr by (intros e; left; apply broker_restored, same_fs_refl).
  unfold Apply. destruct (decide _); [apply Herr|]. destruct (decide _); [apply Herr|]. unfold applyRevision.
  destruct (decide _); [apply Herr|]. destruct (w_locked w); [apply Herr|].
  assert (well_placed cfg (set_locked true w)) as Hw' by by destruct Hw.
  pose proof (wp_apply_locked cfg pbkdf2 actor id (set_locked true w) Hw' Hutf8) as H. unfold wp in H.
  destruct (apply_locked _ _ _ _ _) as [w' r]. exact H.
Qed.
