(* ===== verification/DeployOnce.v ===== *)
(** * A revision is applied at most once

    An apply consumes its revision before it touches the broker, a consumed
    revision stays consumed, and an apply of a consumed revision is refused
    before anything is changed. *)
From S2P Require Import Prelude IO Unicode GoStrings GoStrconv GoTime Sha256 Hash Passwd Acl AclDoc Conf Store Applier Probe.
From S2P Require Import DeployRender Deploy DeployFrame DeployPlan DeployProofs.

(** ** Revisions only move from pending to applied *)
Definition revs_grow {M} (s s' : db M) : Prop :=
  ∀ id r, db_revisions s !! id = Some r → is_Some (pr_applied r) → db_revisions s' !! id = Some r.
Definition same_revs {M} (s s' : db M) : Prop := db_revisions s' = db_revisions s.
#[export] Instance revs_grow_preorder {M} : PreOrder (@revs_grow M).
Proof. split; [by intros s id r|]. intros a b c Hab Hbc id r Hr Ha. apply Hbc; [by apply Hab|done]. Qed.
#[export] Instance same_revs_preorder {M} : PreOrder (@same_revs M).
Proof. split; [done|]. intros a b c. unfold same_revs. congruence. Qed.

(** Statements and a relation that does not see the clock and the faults. *)
Section statements.
Context {M : Type} (R : db M → db M → Prop) `{!PreOrder R}.
Hypothesis HR : ∀ s s', same_tables s s' → R s s'.

Lemma statement_moves {A} (f : db M → result store_error (db M * A)) :
  (∀ s s' a, f s = Ok (s', a) → R s s') → moves R (statement f).
Proof.
  intros Hf s. unfold statement. destruct (match db_faults s with [] => _ | _ :: _ => _ end) as [failed s0] eqn:E.
  assert (R s s0) as Hs by (destruct (db_faults s); injection E as _ <-; [reflexivity|apply HR; by destruct s]).
  destruct failed; [done|]. destruct (f s0) as [[s' a]|e] eqn:Ef; [|done]. cbn. etrans; [exact Hs|by eapply Hf].
Qed.
Lemma select_moves {A} (f : db M → A) : moves R (select f).
Proof. apply statement_moves. intros s s' a [= <- _]. reflexivity. Qed.
Lemma exec_moves n (f : db M → db M) : (∀ s, R s (f s)) → moves R (exec n f).
Proof. intros Hf. apply statement_moves. intros s s' a [= <- _]. apply Hf. Qed.
Lemma now_moves {E} : moves R (now : io (db M) E Z).
Proof. intros s. unfold now. destruct (db_ticks s); cbn; [reflexivity|apply HR; by destruct s]. Qed.
Lemma found_moves {A} e (o : option A) : moves R (found (M := M) e o).
Proof. unfold found. destruct o; [by apply moves_ret|by apply moves_fail]. Qed.
Lemma affects_moves e m : moves R m → moves R (affects (M := M) e m).
Proof. intros Hm. apply moves_bind; [done..|]. intros n. destruct (decide _); [by apply moves_fail|by apply moves_ret]. Qed.
Lemma transaction_moves {A} (m : io (db M) store_error A) : moves R m → moves R (transaction m).
Proof.
  intros Hm s. unfold transaction. assert (moves R (begin_commit m)) as H.
  { unfold begin_commit. apply moves_bind; [done|apply select_moves|]. intros _. apply moves_bind; [done..|]. intros a.
    apply moves_bind; [done|apply select_moves|]. intros _. by apply moves_ret. }
  specialize (H s). destruct (begin_commit m s) as [s' [a|e]]; [done|]. apply HR, same_tables_rolled_back.
Qed.
End statements.

Lemma same_tables_revs {M} (s s' : db M) : same_tables s s' → same_revs s s'.
Proof. unfold same_tables, same_revs. by intros <-. Qed.
Lemma same_revs_grow {M} (s s' : db M) : same_revs s s' → revs_grow s s'.
Proof. unfold same_revs, revs_grow. intros ->. done. Qed.
Lemma moves_weaken {S E A} (R R' : S → S → Prop) (m : io S E A) : (∀ s s', R s s' → R' s s') → moves R m → moves R' m.
Proof. intros HR Hm s. apply HR, Hm. Qed.

Section revisions.
Context {M : Type}.
Ltac revs_step :=
  lazymatch goal with
  | |- moves _ (_ ≫= _) => apply moves_bind; [try apply _..|intros ?]
  | |- moves _ (mret _) => apply moves_ret; try apply _
  | |- moves _ (fail _) => apply moves_fail; try apply _
  | |- moves _ (wrap _ _) => apply moves_wrap
  | |- moves _ now => apply now_moves; [try apply _..|exact same_tables_revs]
  | |- moves _ (select _) => apply select_moves; [try apply _..|exact same_tables_revs]
  | |- moves _ (found _ _) => apply found_moves; try apply _
  | |- moves _ (affects _ _) => apply affects_moves; [try apply _..|]
  | |- moves _ (transaction _) => apply transaction_moves; [try apply _..|exact same_tables_revs|]
  | |- moves _ (exec _ _) => apply exec_moves; [try apply _..|exact same_tables_revs|done]
  | |- moves _ (statement _) => apply statement_moves; [try apply _..|exact same_tables_revs|]
  | |- moves _ (if ?b then _ else _) => destruct b
  | |- moves _ (match ?x with _ => _ end) => destruct x
  end.

Lemma GetMQTTUser_revs id : moves same_revs (GetMQTTUser (M := M) id).
Proof. unfold GetMQTTUser. repeat revs_step. Qed.
Lemma CreateMQTTUser_revs name hash reserved : moves same_revs (CreateMQTTUser (M := M) name hash reserved).
Proof.
  unfold CreateMQTTUser. cbv zeta. repeat first [apply GetMQTTUser_revs|revs_step].
  unfold insert_user. intros s s' x. by destruct (decide _); [|intros [= <- _]].
Qed.
Lemma updateMQTTUser_revs id p : moves same_revs (updateMQTTUser (M := M) id p).
Proof.
  unfold updateMQTTUser, updateMQTTUser_tx. cbv zeta. repeat first [apply GetMQTTUser_revs|revs_step];
    unfold update_user; intros s s' x; by destruct (existsb _ _); [|intros [= <- _]].
Qed.
Lemma CreateRule_revs r : moves same_revs (CreateRule (M := M) r).
Proof. unfold CreateRule. cbv zeta. repeat revs_step. by intros s s' x [= <- _]. Qed.
Lemma UpdateRule_revs id r : moves same_revs (UpdateRule (M := M) id r).
Proof. unfold UpdateRule. cbv zeta. repeat revs_step. Qed.
Lemma DeleteRule_revs id : moves same_revs (DeleteRule (M := M) id).
Proof. unfold DeleteRule. repeat revs_step. Qed.
Lemma delete_users_revs (P : MQTTUser → Prop) `{!∀ u, Decision (P u)} : moves same_revs (delete_users (M := M) P).
Proof. unfold delete_users. repeat revs_step. Qed.
Lemma SaveACLSource_revs path body : moves same_revs (SaveACLSource (M := M) path body).
Proof. unfold SaveACLSource, GetACLSource. repeat revs_step. Qed.
Lemma DeleteACLSource_revs path : moves same_revs (DeleteACLSource (M := M) path).
Proof. unfold DeleteACLSource. repeat revs_step. Qed.
Lemma RecordManagedACLFile_revs path listener : moves same_revs (RecordManagedACLFile (M := M) path listener).
Proof. unfold RecordManagedACLFile. repeat revs_step. Qed.
Lemma DeleteManagedACLFile_revs path : moves same_revs (DeleteManagedACLFile (M := M) path).
Proof. unfold DeleteManagedACLFile. repeat revs_step. Qed.
Lemma InsertDeployment_revs d : moves same_revs (InsertDeployment (M := M) d).
Proof. unfold InsertDeployment, GetDeployment. repeat revs_step. by intros s s' x [= <- _]. Qed.
Lemma UpdateDeploymentStatus_revs id status msg : moves same_revs (UpdateDeploymentStatus (M := M) id status msg).
Proof. unfold UpdateDeploymentStatus. repeat revs_step. Qed.

Lemma tables_grow (s s' : db M) : same_tables s s' → revs_grow s s'.
Proof. intros H. by apply same_revs_grow, same_tables_revs. Qed.

Lemma InsertPreviewRevision_grow r : moves revs_grow (InsertPreviewRevision (M := M) r).
Proof.
  unfold InsertPreviewRevision. destruct (decide _); [by apply moves_fail, _|]. apply moves_bind; [apply _|..].
  - destruct (decide _); [apply now_moves, tables_grow; apply _|by apply moves_ret, _].
  - intros t. apply statement_moves; [apply _|exact tables_grow|]. intros s s' a. unfold insert_revision.
    destruct (decide _) as [|Hnew]; [done|]. intros [= <- _] id r' Hr' Ha. cbn. rewrite lookup_insert_ne; [done|].
    intros <-. apply Hnew. cbn. by exists r'.
Qed.
Lemma ConsumePreviewRevision_grow id t : moves revs_grow (ConsumePreviewRevision (M := M) id t).
Proof.
  unfold ConsumePreviewRevision, GetPreviewRevision. apply moves_bind; [apply _|..].
  - apply exec_moves; [apply _|exact tables_grow|]. intros s. unfold consume. destruct (is_pending s id) eqn:E; [|reflexivity].
    intros id' r Hr Ha. cbn. rewrite lookup_alter_ne; [done|]. intros <-. unfold is_pending in E. rewrite Hr in E.
    apply bool_decide_eq_true in E. rewrite E in Ha. by destruct Ha.
  - intros n. destruct (decide _); [by apply moves_ret, _|]. apply (moves_weaken same_revs); [apply same_revs_grow|]. repeat revs_step.
Qed.

Lemma store_step_grow (s s' : db M) : store_step s s' → revs_grow s s'.
Proof.
  destruct 1.
  - apply same_revs_grow, CreateMQTTUser_revs.
  - apply same_revs_grow, updateMQTTUser_revs.
  - apply same_revs_grow. revert s. change (moves same_revs (RenameMQTTUser (M := M) id name)). unfold RenameMQTTUser. cbv zeta.
    repeat first [apply updateMQTTUser_revs|revs_step].
  - apply same_revs_grow, delete_users_revs.
  - apply same_revs_grow, delete_users_revs.
  - apply same_revs_grow, CreateRule_revs.
  - apply same_revs_grow, UpdateRule_revs.
  - apply same_revs_grow, DeleteRule_revs.
  - apply same_revs_grow, SaveACLSource_revs.
  - apply same_revs_grow, DeleteACLSource_revs.
  - apply same_revs_grow, RecordManagedACLFile_revs.
  - apply same_revs_grow, DeleteManagedACLFile_revs.
  - by apply InsertPreviewRevision_grow.
  - by apply ConsumePreviewRevision_grow.
  - apply same_revs_grow, InsertDeployment_revs.
  - apply same_revs_grow, UpdateDeploymentStatus_revs.
Qed.
End revisions.

(** ** The service *)
Definition world_revs (R : db message → db message → Prop) (w w' : world) : Prop := R (w_db w) (w_db w').
#[export] Instance world_revs_preorder R `{!PreOrder R} : PreOrder (world_revs R).
Proof. unfold world_revs. split; [intros w; reflexivity|]. intros a b c H1 H2. etrans; [exact H1|exact H2]. Qed.

Lemma on_db_moves R {A} what (m : io (db message) store_error A) : moves R m → moves (world_revs R) (on_db what m).
Proof. intros Hm w. apply Hm. Qed.
Lemma raw_db_moves R {A} (m : io (db message) store_error A) : moves R m → moves (world_revs R) (raw_db m).
Proof. intros Hm w. apply Hm. Qed.
Lemma quiet_revs w w' : quiet w w' → world_revs same_revs w w'.
Proof. intros [_ H _ _ _]. by apply same_tables_revs. Qed.
Lemma quiet_moves_revs {E A} (m : io world E A) : moves quiet m → moves (world_revs same_revs) m.
Proof. apply moves_weaken, quiet_revs. Qed.
Lemma audit_revs actor action id r : moves (world_revs same_revs) (emitAudit actor action id r).
Proof. by intros w. Qed.

Section service.
Context (cfg : config) (pbkdf2 : string → string → Z → string) (difflib : string → string → option string).
Hint Resolve on_db_moves raw_db_moves quiet_moves_revs audit_revs DeleteManagedACLFile_revs RecordManagedACLFile_revs
  UpdateDeploymentStatus_revs InsertDeployment_revs GetDeployment_reads : mcm.

Lemma update_revs id status msg : moves (world_revs same_revs) (updateDeploymentStatus id status msg).
Proof. apply raw_db_moves, UpdateDeploymentStatus_revs. Qed.
Lemma get_revs id : moves (world_revs same_revs) (getDeployment id).
Proof. apply quiet_moves_revs, raw_db_quiet, GetDeployment_reads. Qed.
Lemma record_revs actor action d o : moves (world_revs same_revs) (audit_record actor action d o).
Proof. by intros w. Qed.
Lemma applier_revs req : moves (world_revs same_revs) (applier_apply cfg req).
Proof. by intros w. Qed.
Hint Resolve update_revs get_revs record_revs applier_revs : mcm.

Lemma report_revs e status get : moves (world_revs same_revs) (report e status get).
Proof. unfold report. repeat moves_step. Qed.
Hint Resolve report_revs : mcm.
Lemma restore_revs previous : moves (world_revs same_revs) (restoreManagedACLFiles previous).
Proof. unfold restoreManagedACLFiles, release. repeat moves_step. Qed.
Lemma recordManaged_revs rc : moves (world_revs same_revs) (recordManagedACLFiles rc).
Proof. unfold recordManagedACLFiles, release. cbv zeta. repeat moves_step. Qed.
Hint Resolve restore_revs recordManaged_revs : mcm.
Lemma rollback_revs actor d acl passwd msg previous :
  moves (world_revs same_revs) (rollbackAfterVerifyFailure cfg actor d acl passwd msg previous).
Proof. unfold rollbackAfterVerifyFailure. cbv zeta. repeat moves_step. Qed.
Hint Resolve rollback_revs : mcm.
Lemma persistence_revs actor d acl passwd msg e previous :
  moves (world_revs same_revs) (rollbackAfterPersistenceFailure cfg actor d acl passwd msg e previous).
Proof. unfold rollbackAfterPersistenceFailure. repeat moves_step. Qed.
Hint Resolve persistence_revs : mcm.
Lemma failure_revs actor d e : moves (world_revs same_revs) (recordApplyFailure actor d e).
Proof. unfold recordApplyFailure. cbv zeta. repeat moves_step. Qed.
Lemma activate_revs actor d rev acl passwd rc previous :
  moves (world_revs same_revs) (activate cfg actor d rev acl passwd rc previous).
Proof. unfold activate. cbv zeta. repeat moves_step. Qed.
Hint Resolve failure_revs activate_revs : mcm.

(** The revision is used up. *)
Definition consumed (id : string) (w : world) : Prop := ∃ r, db_revisions (w_db w) !! id = Some r ∧ is_Some (pr_applied r).

Lemma consumed_revs id w w' : world_revs same_revs w w' → consumed id w → consumed id w'.
Proof. unfold world_revs, same_revs, consumed. by intros ->. Qed.

Lemma wp_consume d id w :
  wp (consume_revision d id) (λ w' r, same_broker w w' ∧ match r with Ok _ => consumed id w' | Err _ => True end) w.
Proof.
  unfold consume_revision. apply wp_bind. eapply (wp_moves same_broker); [apply db_broker|]. intros w1 [t|e] H1; [|done].
  apply wp_bind, wp_attempt. unfold consumePreviewRevision, raw_db. apply wp_zoom. unfold ConsumePreviewRevision, exec.
  assert (∀ w2 r, same_broker w1 w2 → wp (status ← attempt (updateDeploymentStatus (dp_id d) "failed" (MsgConsume (is_consumed r) r));
    match status with
    | Err se => fail (StatusLost (ConsumeFailed (is_consumed r) r) se)
    | Ok _ => fail (ConsumeFailed (is_consumed r) r)
    end) (λ w' r, same_broker w w' ∧ match r : result deploy_error () with Ok _ => consumed id w' | Err _ => True end) w2) as Herr.
  { intros w2 e H2. apply wp_bind, wp_attempt. eapply (wp_moves same_broker); [apply raw_broker|]. intros w3 status H3.
    assert (same_broker w w3) by (apply (same_fs_trans _ (w_fs w2)); [apply (same_fs_trans _ (w_fs w1)); [exact H1|exact H2]|exact H3]). by destruct status; apply wp_fail. }
  apply wp_bind, wp_statement; [intros s0 H0; apply Herr, same_fs_refl|]. intros s0 H0. cbv beta.
  destruct (is_pending s0 id) eqn:Ep.
  - rewrite decide_True by done. apply wp_ret. apply wp_ret. split; [exact H1|].
    unfold consumed. cbn. unfold consume. rewrite Ep. cbn. unfold is_pending in Ep.
    destruct (db_revisions s0 !! id) as [r|] eqn:Er; [|done]. exists (created_at (pr_created r) (Some t) r). split; [|by eexists].
    by rewrite lookup_alter_eq, Er.
  - rewrite decide_False by done. apply wp_bind. unfold GetPreviewRevision. apply wp_bind. unfold select.
    apply wp_statement; [intros s1 H1'; apply Herr, same_fs_refl|]. intros s1 H1'. unfold found.
    destruct (db_revisions s1 !! id); [|apply wp_fail, Herr, same_fs_refl]. apply wp_ret. apply wp_fail, Herr, same_fs_refl.
Qed.

(** The broker is only touched after the revision is consumed. *)
Lemma wp_apply_locked_consumes actor id w :
  wp (apply_locked cfg pbkdf2 actor id) (λ w' _, same_broker w w' ∨ consumed id w') w.
Proof.
  unfold apply_locked. apply wp_bind, wp_quiet; [apply validate_quiet|]. intros w1 r H1. apply quiet_broker in H1 as Hb1.
  destruct r as [[[[[rev acl] passwd] rc] plan]|e]; [|by left].
  apply wp_bind. eapply (wp_moves same_broker); [apply db_broker|]. intros w2 r2 H2.
  assert (same_broker w w2) as Hb2 by by etrans. destruct r2 as [d|e]; [|by left].
  apply wp_bind, wp_audit. intros a. apply wp_bind, wp_wrap. eapply (wp_moves same_broker); [apply raw_broker|]. intros w3 r3 H3.
  assert (same_broker w w3) as Hb3 by (etrans; [exact Hb2|exact H3]). destruct r3 as [[]|e]; [|by left].
  apply wp_bind, wp_audit. intros a'. apply wp_bind. eapply wp_mono; [apply wp_consume|]. intros w4 r4 [H4 Hc].
  assert (same_broker w w4) as Hb4 by (etrans; [exact Hb3|exact H4]). destruct r4 as [[]|e]; [|by left].
  apply wp_bind. eapply (wp_moves (world_revs same_revs)); [auto with mcm|]. intros w5 r5 H5.
  assert (consumed id w5) as Hc5 by by eapply consumed_revs. destruct r5 as [previous|e]; [|by right].
  apply wp_bind, wp_attempt. eapply (wp_moves (world_revs same_revs)); [auto with mcm|]. intros w6 r6 H6.
  assert (consumed id w6) as Hc6 by by eapply consumed_revs.
  eapply (wp_moves (world_revs same_revs)); [destruct r6; auto with mcm|]. intros w7 r7 H7. right. by eapply consumed_revs.
Qed.

(** What an apply requires. *)
Record applicable (id : string) (w : world) : Prop := {
  ab_mode : cf_mode cfg ≠ "";
  ab_id : id ≠ "";
  ab_unlocked : w_locked w = false;
  ab_revision : ∃ rev, pending rev id w ∧ (db_now (w_db w) ≤ pr_created rev + previewRevisionTTL)%Z
    ∧ contentHash (reads (fs_files (w_fs w)) (cf_acl cfg)) = pr_base_acl rev
    ∧ contentHash (reads (fs_files (w_fs w)) (cf_passwd cfg)) = pr_base_passwd rev
}.

Lemma Apply_not_applicable actor id w : ¬ applicable id w →
  quiet w (Apply cfg pbkdf2 actor id w).1 ∧ is_ok (Apply cfg pbkdf2 actor id w).2 = false.
Proof.
  intros Hn. unfold Apply. destruct (decide (cf_mode cfg = "")); [done|]. destruct (decide (id = "")); [done|].
  unfold applyRevision. rewrite decide_False by done. destruct (w_locked w) eqn:El; [done|].
  enough (wp (apply_locked cfg pbkdf2 actor id) (λ w' r, quiet (set_locked true w) w' ∧ is_ok r = false) (set_locked true w)) as H.
  { unfold wp in H. destruct (apply_locked _ _ _ _ _) as [w' r]. destruct H as [[H1 H2 H3 H4 H5] H]. split; [|done]. by constructor. }
  unfold apply_locked. apply wp_bind.
  eapply wp_quiet_with; [apply validate_quiet|apply (wp_validate cfg pbkdf2 id)|]. intros w1 r H1 Hr.
  destruct r as [[[[[rev acl] passwd] rc] plan]|e]; [|done]. destruct Hr as (ids & [Hpend Hfresh [Hb1 Hb2] -> -> _ _ _ _ _]).
  exfalso. apply Hn. constructor; [done..|]. by exists rev.
Qed.

(** ** Interleaving with everything else that happens *)
Inductive service_step : world → world → Prop :=
  | StepPreview actor w : service_step w (Preview cfg pbkdf2 difflib actor w).1
  | StepApply actor id w : service_step w (Apply cfg pbkdf2 actor id w).1
  (** An operation of the API on the store. *)
  | StepStore d w : store_step (w_db w) d → service_step w (set_db d w)
  (** The operator or the broker changes files, a client takes the lock. *)
  | StepFiles f w : service_step w (set_fs f w)
  | StepListeners specs random verdicts locked w :
      service_step w (mkWorld (w_fs w) (w_db w) specs random verdicts locked (w_audit w)).

Lemma apply_locked_grow actor id : moves (world_revs revs_grow) (apply_locked cfg pbkdf2 actor id).
Proof.
  assert (∀ E A (m : io world E A), moves (world_revs same_revs) m → moves (world_revs revs_grow) m) as Hweak.
  { intros E A m. apply moves_weaken. intros w w'. apply same_revs_grow. }
  unfold apply_locked. apply moves_bind; [apply _|apply Hweak; auto with mcm|]. intros [[[[rev acl] passwd] rc] plan].
  apply moves_bind; [apply _|apply Hweak; auto with mcm|]. intros d. apply moves_bind; [apply _|apply Hweak; auto with mcm|]. intros _.
  apply moves_bind; [apply _|apply moves_wrap, Hweak; auto with mcm|]. intros _. apply moves_bind; [apply _|apply Hweak; auto with mcm|]. intros _.
  apply moves_bind; [apply _| |].
  { unfold consume_revision. apply moves_bind; [apply _|apply Hweak; unfold db_now_utc; auto with mcm|]. intros t. apply moves_bind; [apply _| |].
    - apply moves_attempt, raw_db_moves, ConsumePreviewRevision_grow.
    - intros [u|e]; [apply moves_ret, _|]. apply Hweak. repeat moves_step. }
  intros _. apply Hweak. repeat moves_step.
Qed.

Lemma Preview_grow actor : moves (world_revs revs_grow) (Preview cfg pbkdf2 difflib actor).
Proof.
  assert (∀ E A (m : io world E A), moves quiet m → moves (world_revs revs_grow) m) as Hweak.
  { intros E A m. apply moves_weaken. intros w w' H. by apply same_revs_grow, quiet_revs. }
  assert (∀ a b, moves quiet (unifiedDiff difflib a b)) as Hdiff by (intros a b; unfold unifiedDiff; repeat moves_step).
  assert (∀ rc, moves quiet (scopeWiringIssues cfg rc)) as Hiss by (intros; apply issues_quiet).
  unfold Preview. destruct (decide _); [apply moves_fail, _|]. apply moves_bind; [apply _| |].
  - unfold previewLocked. cbv zeta. apply moves_bind; [apply _|apply Hweak; auto with mcm|]. intros rc.
    apply moves_bind; [apply _|apply Hweak; auto with mcm|]. intros acl. apply moves_bind; [apply _|apply Hweak; auto with mcm|]. intros passwd.
    apply moves_bind; [apply _|apply Hweak; auto with mcm|]. intros d1. apply moves_bind; [apply _|apply Hweak; auto with mcm|]. intros d2.
    apply moves_bind; [apply _|apply Hweak; auto with mcm|]. intros bytes.
    apply moves_bind; [apply _|apply Hweak; unfold db_now_utc; auto with mcm|]. intros t.
    apply moves_bind; [apply _|apply on_db_moves, InsertPreviewRevision_grow|]. intros _. apply Hweak.
    unfold previewListenerACLFiles, preview_listener, scopeActivationPending. cbv zeta. repeat moves_step.
  - intros p. apply (moves_weaken (world_revs same_revs)); [intros w w'; apply same_revs_grow|]. repeat moves_step.
Qed.

Lemma applyRevision_grow actor id : moves (world_revs revs_grow) (applyRevision cfg pbkdf2 actor id).
Proof.
  intros w. unfold applyRevision. destruct (decide _); [reflexivity|]. destruct (w_locked w); [reflexivity|].
  pose proof (apply_locked_grow actor id (set_locked true w)) as H. by destruct (apply_locked _ _ _ _ _) as [w' r].
Qed.

Lemma service_step_grow w w' : service_step w w' → revs_grow (w_db w) (w_db w').
Proof.
  destruct 1 as [actor w|actor id w|d w H| |].
  - apply Preview_grow.
  - revert w. change (moves (world_revs revs_grow) (Apply cfg pbkdf2 actor id)). unfold Apply.
    destruct (decide _); [apply moves_fail, _|]. destruct (decide _); [apply moves_fail, _|]. apply applyRevision_grow.
  - by apply store_step_grow.
  - reflexivity.
  - reflexivity.
Qed.

Lemma steps_consumed id w w' : rtc service_step w w' → consumed id w → consumed id w'.
Proof.
  induction 1 as [|a b c Hab _ IH]; [done|]. intros (r & Hr & Ha). apply IH. exists r.
  split; [by apply (service_step_grow _ _ Hab)|done].
Qed.

Lemma Apply_consumes actor id w :
  let w' := (Apply cfg pbkdf2 actor id w).1 in same_broker w w' ∨ consumed id w'.
Proof.
  cbv zeta. unfold Apply. destruct (decide _); [by left|]. destruct (decide _); [by left|]. unfold applyRevision.
  destruct (decide _); [by left|]. destruct (w_locked w); [by left|].
  pose proof (wp_apply_locked_consumes actor id (set_locked true w)) as H. unfold wp in H.
  destruct (apply_locked _ _ _ _ _) as [w' r]. destruct H as [H|H]; [left|right]; exact H.
Qed.
End service.

(** ** Properties *)

(** [C5] An apply whose preconditions do not hold touches nothing: deploys are
    enabled, no other apply runs, the revision exists, was not applied, is not
    older than an hour, and the ACL and password files still are what the
    preview saw.  Otherwise an error is returned and files, broker, store and
    audit trail are as before. *)
Theorem Apply_refused cfg pbkdf2 actor id w :
  ¬ applicable cfg id w →
  let '(w', r) := Apply cfg pbkdf2 actor id w in quiet w w' ∧ is_ok r = false.
Proof. intros H. pose proof (Apply_not_applicable cfg pbkdf2 actor id w H). by destruct (Apply _ _ _ _ _). Qed.

(** [C2] A revision is applied at most once: after an apply that touched the
    files or the broker, whatever previews, applies, edits of the store and of
    the files come in between, a second apply of the same revision touches
    nothing and returns an error. *)
Theorem revision_applied_once cfg pbkdf2 difflib actor actor' id w1 w2 :
  ¬ same_broker w1 (Apply cfg pbkdf2 actor id w1).1 →
  rtc (service_step cfg pbkdf2 difflib) (Apply cfg pbkdf2 actor id w1).1 w2 →
  let '(w3, r) := Apply cfg pbkdf2 actor' id w2 in quiet w2 w3 ∧ is_ok r = false.
Proof.
  intros Htouched Hsteps. destruct (Apply_consumes cfg pbkdf2 actor id w1) as [H|H]; [done|].
  apply (steps_consumed _ _ _ _ _ _ Hsteps) in H as (rev & Hrev & Happ).
  enough (¬ applicable cfg id w2) as Hn.
  { pose proof (Apply_not_applicable cfg pbkdf2 actor' id w2 Hn). by destruct (Apply cfg pbkdf2 actor' id w2). }
  intros [_ _ _ (rev' & [Hrev' Hnone] & _)]. rewrite Hrev in Hrev'. injection Hrev' as <-. rewrite Hnone in Happ. by destruct Happ.
Qed.
