(* ===== verification/DeployLife.v ===== *)
(** * The lifecycle of a deployment record

    [saved], [applying], [pending_activation] and the final states are the
    states of a machine.  An apply adds one record, moves it along the edges of
    the machine, leaves the other records alone and writes one audit event for
    every state it reports. *)
From S2P Require Import Prelude IO Unicode GoStrings GoStrconv GoTime Sha256 Hash Passwd Acl AclDoc Conf Store Applier Probe.
From S2P Require Import DeployRender Deploy DeployFrame DeployPlan DeployProofs DeployOnce.

(** ** The machine *)
Inductive lifecycle : string → string → Prop :=
  | SavedApplying : lifecycle "saved" "applying"
  | ApplyingPending : lifecycle "applying" "pending_activation"
  | ApplyingFailed : lifecycle "applying" "failed"
  | ApplyingRolledBack : lifecycle "applying" "rolled_back"
  | ApplyingRollbackFailed : lifecycle "applying" "rollback_failed"
  | PendingVerified : lifecycle "pending_activation" "active_verified"
  | PendingRolledBack : lifecycle "pending_activation" "rolled_back"
  | PendingRollbackFailed : lifecycle "pending_activation" "rollback_failed".

(** A run of the machine from its first state. *)
Inductive lifecycle_run : list string → Prop :=
  | RunSaved : lifecycle_run ["saved"]
  | RunStep trail a b : lifecycle_run trail → last trail = Some a → lifecycle a b → lifecycle_run (trail ++ [b]).

Definition outcome_of (status : string) : string :=
  if decide (status ∈ ["failed"; "rolled_back"; "rollback_failed"]) then "failure" else "success".
Definition events (actor : string) (id : Z) (trail : list string) : list audit_event :=
  (λ status, mkAudit actor ("deployment." +:+ status) (Some id) (outcome_of status)) <$> trail.

(** ** Where an apply is *)
Section tracking.
Context (actor : string) (w0 : world).

(** The record [id] is stored with [status], and [trail] is reported. *)
Definition track (id : Z) (revision status : string) (trail : list string) (w : world) : Prop :=
  (∃ d, db_deployments (w_db w) = db_deployments (w_db w0) ++ [d] ∧ dp_id d = id ∧ dp_revision d = revision ∧ dp_status d = status)
  ∧ (id ∉ dp_id <$> db_deployments (w_db w0))
  ∧ w_audit w = w_audit w0 ++ events actor id trail.

Definition same_deps (s s' : db message) : Prop := db_deployments s' = db_deployments s.
#[local] Instance same_deps_preorder : PreOrder same_deps.
Proof. split; [done|]. intros a b c. unfold same_deps. congruence. Qed.
Definition same_track (w w' : world) : Prop := same_deps (w_db w) (w_db w') ∧ w_audit w' = w_audit w.
#[local] Instance same_track_preorder : PreOrder same_track.
Proof.
  unfold same_track. split; [intros w; split; [reflexivity|done]|]. intros a b c [H1 H2] [H3 H4].
  split; [etrans; [exact H1|exact H3]|congruence].
Qed.

Lemma track_same id rev st trail w w' : track id rev st trail w → same_track w w' → track id rev st trail w'.
Proof. unfold track, same_track, same_deps. by intros H [-> ->]. Qed.

Lemma quiet_track w w' : quiet w w' → same_track w w'.
Proof. intros [_ H _ _ Ha]. split; [|done]. unfold same_deps. by rewrite <-H. Qed.
Lemma moves_quiet_track {E A} (m : io world E A) : moves quiet m → moves same_track m.
Proof. apply moves_weaken, quiet_track. Qed.
Lemma tables_deps (s s' : db message) : same_tables s s' → same_deps s s'.
Proof. unfold same_deps. by intros <-. Qed.
Lemma on_db_track {A} what (m : io (db message) store_error A) : moves same_deps m → moves same_track (on_db what m).
Proof. intros Hm w. split; [apply Hm|done]. Qed.
Lemma raw_db_track {A} (m : io (db message) store_error A) : moves same_deps m → moves same_track (raw_db m).
Proof. intros Hm w. split; [apply Hm|done]. Qed.
Lemma applier_track cfg req : moves same_track (applier_apply cfg req).
Proof. by intros w. Qed.
Lemma DeleteManaged_deps path : moves same_deps (DeleteManagedACLFile path).
Proof. apply affects_moves; [apply _|]. by apply exec_moves; [apply _|exact tables_deps|]. Qed.
Lemma RecordManaged_deps path listener : moves same_deps (RecordManagedACLFile path listener).
Proof.
  unfold RecordManagedACLFile. destruct (decide _); [apply moves_fail, _|]. apply moves_bind; [apply _|apply now_moves; [apply _|exact tables_deps]|].
  intros t. apply moves_bind; [apply _|by apply exec_moves; [apply _|exact tables_deps|]|]. intros _. apply moves_ret, _.
Qed.
Lemma Consume_deps id t : moves same_deps (ConsumePreviewRevision id t).
Proof.
  unfold ConsumePreviewRevision. apply moves_bind; [apply _|..].
  - apply exec_moves; [apply _|exact tables_deps|]. intros s. unfold consume. by destruct (is_pending s id).
  - intros n. destruct (decide _); [apply moves_ret, _|]. apply moves_bind; [apply _|..].
    + apply (moves_weaken same_tables); [exact tables_deps|apply GetPreviewRevision_reads].
    + intros r. apply moves_fail, _.
Qed.
Hint Resolve moves_quiet_track on_db_track raw_db_track applier_track DeleteManaged_deps RecordManaged_deps Consume_deps : mcm.

Lemma restore_track previous : moves same_track (restoreManagedACLFiles previous).
Proof. unfold restoreManagedACLFiles, release. repeat moves_step. Qed.
Lemma recordManaged_track rc : moves same_track (recordManagedACLFiles rc).
Proof. unfold recordManagedACLFiles, release. cbv zeta. repeat moves_step. Qed.
Lemma getDeployment_track id : moves same_track (getDeployment id).
Proof. apply moves_quiet_track, raw_db_quiet, GetDeployment_reads. Qed.

Lemma set_status_at id status (msg : message) t d : dp_id d = id →
  set_status id status msg t d = mkDeployment (dp_id d) (dp_revision d) (dp_actor d) status (dp_kind d) (dp_reload d)
    (dp_acl_snapshot d) (dp_passwd_snapshot d) (dp_acl d) (dp_passwd d) (dp_listener_snapshot d) (dp_listener d) (dp_conf d)
    (dp_base_conf d) msg (dp_created d) t.
Proof. intros H. unfold set_status. by rewrite decide_True. Qed.
Lemma set_status_others id status (msg : message) t (l : list (Deployment message)) : id ∉ dp_id <$> l → set_status id status msg t <$> l = l.
Proof.
  intros Hfresh. rewrite <-(list_fmap_id l) at 2. apply list_fmap_ext. intros i x Hx. unfold set_status.
  rewrite decide_False; [done|]. intros Heq. apply Hfresh. rewrite <-Heq. apply list_elem_of_fmap_2. by eapply list_elem_of_lookup_2.
Qed.

(** The rules of the two operations that move. *)
Lemma wp_update_track id rev st trail st' msg Q w : track id rev st trail w →
  (∀ w', track id rev st' trail w' → Q w' (Ok tt)) → (∀ w' e, track id rev st trail w' → Q w' (Err e)) →
  wp (updateDeploymentStatus id st' msg) Q w.
Proof.
  intros Ht HOk HErr. unfold updateDeploymentStatus, raw_db. apply wp_zoom. unfold UpdateDeploymentStatus.
  assert (∀ s, same_tables (w_db w) s → track id rev st trail (set_db s w)) as Hsame.
  { intros s Hs. eapply track_same; [exact Ht|]. split; [by apply tables_deps|done]. }
  destruct (decide _); [|apply wp_fail, HErr, Hsame; reflexivity]. apply wp_bind, wp_now. intros s1 t H1. unfold affects. apply wp_bind. unfold exec.
  apply wp_statement; [intros s2 H2; apply HErr, Hsame; by etrans|]. intros s2 H2.
  destruct (decide _) as [Hz|Hn]; [apply wp_fail, HErr|apply wp_ret, HOk].
  - exfalso. destruct Ht as ((d & Hd & Hid & _) & _). rewrite <-H2 in Hz. cbn in Hz. rewrite <-H1 in Hz. cbn in Hz.
    rewrite Hd in Hz. rewrite filter_app, length_app, filter_cons in Hz. rewrite decide_True in Hz by done. cbn in Hz. lia.
  - destruct Ht as ((d & Hd & Hid & Hr & Hs) & Hfresh & Ha). split; [|done]. exists (set_status id st' msg t d). cbn.
    rewrite <-H2. cbn. rewrite <-H1. cbn. rewrite Hd, fmap_app, set_status_others by done.
    cbn [fmap list_fmap]. by rewrite set_status_at.
Qed.

Lemma wp_audit_track id rev st trail status d o Q w : track id rev st trail w → dp_id d = id → o = outcome_of status →
  (∀ w', track id rev st (trail ++ [status]) w' → Q w' (Ok tt)) → wp (audit_record actor ("deployment." +:+ status) d o) Q w.
Proof.
  intros (Hd & Hf & Ha) <- -> HQ. apply HQ. split; [exact Hd|]. split; [exact Hf|]. cbn. rewrite Ha. unfold events.
  by rewrite fmap_app, <-app_assoc.
Qed.

Lemma wp_read_back id rev st trail (Q : db message → result store_error (Deployment message) → Prop) w : track id rev st trail w →
  (∀ s r, track id rev st trail (set_db s w) →
    match r with Ok d => dp_status d = st ∧ dp_id d = id ∧ dp_revision d = rev | Err _ => True end → Q s r) →
  wp (GetDeployment id) Q (w_db w).
Proof.
  intros Ht HQ. unfold GetDeployment. apply wp_bind. unfold select.
  assert (∀ s, same_tables (w_db w) s → track id rev st trail (set_db s w)) as Hsame.
  { intros s Hs. eapply track_same; [exact Ht|]. split; [by apply tables_deps|done]. }
  apply wp_statement; [intros s Hs; by apply HQ; [apply Hsame|]|]. intros s Hs. apply Hsame in Hs as Ht'.
  destruct Ht' as ((d & Hd & Hid & Hr & Hst) & Hfresh & Ha). cbn in Hd. rewrite Hd. unfold found.
  rewrite filter_app, filter_cons, decide_True by done.
  assert (filter (λ d, dp_id d = id) (db_deployments (w_db w0)) = []) as ->.
  { apply filter_nil_iff. intros x Hx Heq. apply Hfresh. rewrite <-Heq. by apply list_elem_of_fmap_2. }
  cbn [app head]. apply wp_ret, HQ; [by apply Hsame|done].
Qed.
Lemma wp_get_track id rev st trail Q w : track id rev st trail w → (∀ w' r, track id rev st trail w' → Q w' r) →
  wp (getDeployment id) Q w.
Proof.
  intros Ht HQ. unfold getDeployment, raw_db. apply wp_zoom. eapply wp_read_back; [exact Ht|]. intros s [d|e] H _; by apply HQ.
Qed.

(** ** The stages of an apply *)

(** The stored status, and the trail that reports it. *)
Record live (st : string) (trail : list string) : Prop := {
  lv_reached : rtc lifecycle "saved" st; lv_run : lifecycle_run trail; lv_last : last trail = Some st
}.
Lemma live_step st st' trail : live st trail → lifecycle st st' → live st' (trail ++ [st']).
Proof. intros [] Hl. constructor; [by eapply rtc_r|by econstructor|by rewrite last_snoc]. Qed.
Lemma live_saved : live "saved" ["saved"].
Proof. by repeat constructor. Qed.

(** The stored and the last reported status are the same or one edge apart. *)
Definition in_step (status : string) (trail : list string) : Prop :=
  match last trail with None => status = "saved" | Some a => a = status ∨ lifecycle a status ∨ lifecycle status a end.
Definition lived (rev : string) (w : world) : Prop := ∃ id st trail,
  track id rev st trail w ∧ rtc lifecycle "saved" st ∧ (trail = [] ∨ lifecycle_run trail) ∧ in_step st trail.

Lemma lived_stored id rev st trail w : track id rev st trail w → live st trail → lived rev w.
Proof. intros Ht []. exists id, st, trail. unfold in_step. rewrite lv_last0. tauto. Qed.
Lemma lived_unreported id rev st st' trail w : track id rev st' trail w → live st trail → lifecycle st st' → lived rev w.
Proof.
  intros Ht [] Hl. exists id, st', trail. unfold in_step. rewrite lv_last0. split; [done|]. split; [by eapply rtc_r|tauto].
Qed.
Lemma lived_unstored id rev st st' trail w : track id rev st (trail ++ [st']) w → live st trail → lifecycle st st' → lived rev w.
Proof.
  intros Ht [] Hl. exists id, st, (trail ++ [st']). unfold in_step. rewrite last_snoc.
  split; [done|]. split; [done|]. split; [right; by econstructor|tauto].
Qed.

Section stages.
Context (cfg : config) (id : Z) (rev : string) (d : Deployment message) (Hd : dp_id d = id).

Lemma wp_same_track {E A} (m : io world E A) (Q : world → result E A → Prop) st trail w : moves same_track m → track id rev st trail w →
  (∀ w' r, track id rev st trail w' → Q w' r) → wp m Q w.
Proof. intros Hm Ht HQ. eapply (wp_moves same_track); [exact Hm|]. intros w' r H. by eapply HQ, track_same. Qed.

Lemma wp_report_track e status get st trail w : track id rev st trail w → wp (report e status get) (λ w' _, track id rev st trail w') w.
Proof. intros H. unfold report. by destruct status, get. Qed.

Lemma wp_rollback_track acl passwd msg previous st trail w : track id rev st trail w → live st trail →
  lifecycle st "rolled_back" → lifecycle st "rollback_failed" →
  wp (rollbackAfterVerifyFailure cfg actor d acl passwd msg previous) (λ w' _, lived rev w') w.
Proof.
  intros Ht Hl Hback Hfail. unfold rollbackAfterVerifyFailure. apply wp_bind, wp_attempt.
  apply (wp_same_track _ _ st trail); [apply applier_track|done|]. intros w1 [u|e] H1; cbv zeta.
  - apply wp_bind, wp_attempt. apply (wp_same_track _ _ st trail); [apply restore_track|done|]. intros w2 restored H2.
    apply wp_bind, wp_wrap. rewrite Hd. apply (wp_update_track id rev st trail); [done| |intros; by eapply lived_stored]. intros w3 H3.
    apply wp_bind, (wp_audit_track id rev "rolled_back" trail); [done..|]. intros w4 H4. apply wp_wrap.
    eapply wp_get_track; [done|]. intros w5 r H5. eapply lived_stored; [done|by eapply live_step].
  - apply wp_bind, wp_attempt. rewrite Hd. apply (wp_update_track id rev st trail); [done|..].
    + intros w2 H2. apply wp_bind, (wp_audit_track id rev "rollback_failed" trail); [done..|]. intros w3 H3.
      apply wp_bind, wp_attempt. eapply wp_get_track; [done|]. intros w4 r H4. eapply wp_mono; [by apply wp_report_track|].
      intros w5 r5 H5. eapply lived_stored; [exact H5|by eapply live_step].
    + intros w2 se H2. apply wp_bind, (wp_audit_track id rev st trail); [done..|]. intros w3 H3.
      apply wp_bind, wp_attempt. eapply wp_get_track; [done|]. intros w4 r H4. eapply wp_mono; [by apply wp_report_track|].
      intros w5 r5 H5. eapply lived_unstored; [exact H5|done..].
Qed.

Lemma wp_persistence_track acl passwd msg e previous st trail w : track id rev st trail w → live st trail →
  lifecycle st "rolled_back" → lifecycle st "rollback_failed" →
  wp (rollbackAfterPersistenceFailure cfg actor d acl passwd msg e previous) (λ w' _, lived rev w') w.
Proof.
  intros Ht Hl Hback Hfail. unfold rollbackAfterPersistenceFailure. apply wp_bind, wp_attempt.
  eapply wp_mono; [by eapply wp_rollback_track|]. intros w' r H. destruct r as [|[]]; by apply wp_fail.
Qed.

Lemma wp_failure_track e trail w : track id rev "applying" trail w → live "applying" trail →
  wp (recordApplyFailure actor d e) (λ w' _, lived rev w') w.
Proof.
  intros Ht Hl. unfold recordApplyFailure. cbv zeta.
  assert (∃ st, (if rollback_failed e then "rollback_failed" else "failed") = st
    ∧ (if rollback_failed e then "deployment.rollback_failed" else "deployment.failed") = "deployment." +:+ st
    ∧ lifecycle "applying" st ∧ "failure" = outcome_of st) as (st & -> & -> & Hst & Ho).
  { destruct (rollback_failed e); eexists; repeat split; constructor. }
  apply wp_bind, wp_attempt. rewrite Hd. apply (wp_update_track id rev "applying" trail); [done|..].
  - intros w1 H1. apply wp_bind, (wp_audit_track id rev st trail); [done..|]. intros w2 H2. apply wp_bind, wp_attempt.
    eapply wp_get_track; [done|]. intros w3 r H3. eapply wp_mono; [by apply wp_report_track|].
    intros w4 r4 H4. eapply lived_stored; [exact H4|by eapply live_step].
  - intros w1 se H1. apply wp_bind, (wp_audit_track id rev "applying" trail); [done..|]. intros w2 H2. apply wp_fail.
    by eapply lived_unstored.
Qed.

Lemma wp_activate_track revision acl passwd rc previous trail w : track id rev "applying" trail w → live "applying" trail →
  wp (activate cfg actor d revision acl passwd rc previous) (λ w' _, lived rev w') w.
Proof.
  intros Ht Hl. unfold activate. apply wp_bind, wp_attempt.
  apply (wp_same_track _ _ "applying" trail); [apply recordManaged_track|done|]. intros w1 [u|e] H1;
    [|eapply wp_rollback_track; [done|done|constructor..]].
  apply wp_bind, wp_attempt. rewrite Hd. apply (wp_update_track id rev "applying" trail); [done|..].
  - intros w2 H2. apply wp_bind, (wp_audit_track id rev "pending_activation" trail); [done..|]. intros w3 H3.
    assert (live "pending_activation" (trail ++ ["pending_activation"])) as Hl' by (eapply live_step; [done|constructor]).
    apply wp_bind. eapply wp_same_track; [apply moves_quiet_track, runVerifier_quiet|done|]. intros w4 r H4. cbv zeta.
    destruct r as [[[[failure|] attempts] kind]|e]; [eapply wp_rollback_track; [done|done|constructor..]| |by eapply lived_stored].
    apply wp_bind, wp_attempt. apply (wp_update_track id rev "pending_activation" (trail ++ ["pending_activation"])); [done|..].
    + intros w5 H5. apply wp_bind, (wp_audit_track id rev "active_verified" (trail ++ ["pending_activation"])); [done..|]. intros w6 H6. apply wp_wrap.
      eapply wp_get_track; [done|]. intros w7 r7 H7. eapply lived_stored; [done|]. eapply live_step; [done|constructor].
    + intros w5 e H5. eapply wp_persistence_track; [done|done|constructor..].
  - intros w2 e H2. apply wp_bind, wp_ret. apply wp_bind.
    eapply wp_same_track; [apply moves_quiet_track, runVerifier_quiet|done|]. intros w4 r H4. cbv zeta.
    destruct r as [[[[failure|] attempts] kind]|e']; [eapply wp_persistence_track; [done|done|constructor..]..|by eapply lived_stored].
Qed.
End stages.
End tracking.

(** ** The whole apply *)
Section apply.
Context (cfg : config) (pbkdf2 : string → string → Z → string) (actor rev : string) (w0 : world).
Hypothesis Hok : db_ok (w_db w0).

(** No record yet, or the record of this apply. *)
Definition begun (w : world) : Prop := same_track w0 w ∨ lived actor w0 rev w.

Lemma wp_insert_track d0 what Q w : same_track w0 w → db_ok (w_db w) → dp_status d0 = "saved" → dp_revision d0 = rev →
  (∀ w' d, track actor w0 (dp_id d) rev "saved" [] w' → Q w' (Ok d)) → (∀ w' e, begun w' → Q w' (Err e)) →
  wp (on_db what (InsertDeployment d0)) Q w.
Proof.
  intros [Hs Ha] Hdb Hst Hrev HQ HE. unfold on_db. apply wp_zoom. unfold InsertDeployment.
  destruct (decide _); [|apply wp_fail, HE; by left].
  assert (∀ s, same_tables (w_db w) s → begun (set_db s w)) as Hsame.
  { intros s H. left. split; [|done]. apply tables_deps in H. unfold same_deps in *. cbn. congruence. }
  apply wp_bind, wp_now. intros s1 t H1. apply wp_bind, wp_statement; [intros s2 H2; apply HE, Hsame; by etrans|].
  intros s2 H2. assert (same_tables (w_db w) s2) as H by by etrans.
  assert (db_ok s2) as Hok2 by by eapply db_ok_same. destruct (ok_deployment_ids _ Hok2) as [_ Hlt].
  assert (db_deployments s2 = db_deployments (w_db w0)) as Hd2 by by rewrite <-H.
  unfold insert_deployment. set (s3 := with_deployments _ _ _).
  assert (track actor w0 (db_next_deployment s2) rev "saved" [] (set_db s3 w)) as Htrack.
  { split; [|split].
    - eexists. cbn. rewrite Hd2. split; [done|]. by rewrite <-Hst.
    - rewrite <-Hd2. intros Hin. rewrite Forall_forall in Hlt. specialize (Hlt _ Hin). lia.
    - cbn. by rewrite app_nil_r. }
  change s3 with (w_db (set_db s3 w)). eapply wp_read_back; [exact Htrack|]. intros s4 [d|e'] H4 Hr.
  - destruct Hr as (_ & Hid & _). apply HQ. by rewrite Hid.
  - apply HE. right. exists (db_next_deployment s2), "saved", []. split; [exact H4|]. split; [done|]. split; [by left|done].
Qed.

Lemma wp_consume_track d id trail w : track actor w0 (dp_id d) rev "applying" trail w → live "applying" trail →
  wp (consume_revision d id) (λ w' r, match r with Ok _ => track actor w0 (dp_id d) rev "applying" trail w' | Err _ => lived actor w0 rev w' end) w.
Proof.
  intros Ht Hl. unfold consume_revision. apply wp_bind.
  eapply wp_same_track; [apply moves_quiet_track; unfold db_now_utc; auto with mcm|done|]. intros w1 [t|e] H1; [|by eapply lived_stored].
  apply wp_bind, wp_attempt. eapply wp_same_track; [apply raw_db_track, Consume_deps|done|]. intros w2 [u|e] H2; [by apply wp_ret|].
  apply wp_bind, wp_attempt. eapply wp_update_track; [done|..].
  - intros w3 H3. apply wp_fail. eapply lived_unreported; [done..|constructor].
  - intros w3 se H3. apply wp_fail. by eapply lived_stored.
Qed.

Lemma wp_apply_locked_track : wp (apply_locked cfg pbkdf2 actor rev) (λ w' _, begun w') w0.
Proof.
  unfold apply_locked. apply wp_bind, wp_quiet; [apply validate_quiet|]. intros w1 r H1.
  assert (same_track w0 w1) as Hs1 by by apply quiet_track.
  destruct r as [[[[[revision acl] passwd] rc] plan]|e]; [|by left]. apply wp_bind.
  apply wp_insert_track; [done|eapply db_ok_same; [apply H1|done]|done..| |done]. intros w2 d H2.
  eapply (wp_mono _ (λ w' _, lived actor w0 rev w')); [|intros w' r H; by right].
  apply wp_bind, (wp_audit_track actor w0 (dp_id d) rev "saved" []); [done..|]. intros w3 H3. pose proof live_saved as Hl.
  apply wp_bind, wp_wrap. eapply wp_update_track; [exact H3|..]; [|intros; by eapply lived_stored]. intros w4 H4.
  assert (live "applying" ["saved"; "applying"]) as Hl' by (eapply (live_step _ _ ["saved"]); [done|constructor]).
  apply wp_bind, (wp_audit_track actor w0 (dp_id d) rev "applying" ["saved"]); [done..|]. intros w5 H5.
  apply wp_bind. eapply wp_mono; [by apply wp_consume_track|]. intros w6 [u|e] H6; [|done].
  apply wp_bind. eapply wp_same_track; [apply moves_quiet_track; auto with mcm|done|]. intros w7 [previous|e] H7; [|by eapply lived_stored].
  apply wp_bind, wp_attempt. eapply wp_same_track; [apply applier_track|done|]. intros w8 [u'|e] H8.
  - by eapply wp_activate_track.
  - by eapply wp_failure_track.
Qed.

End apply.

(** ** Properties *)

(** What an apply by [actor] of the revision [rev] adds to the history. *)
Definition history (actor rev : string) (w w' : world) : Prop := ∃ d trail,
  db_deployments (w_db w') = db_deployments (w_db w) ++ [d]
  ∧ (dp_id d ∉ dp_id <$> db_deployments (w_db w)) ∧ dp_revision d = rev ∧ rtc lifecycle "saved" (dp_status d)
  ∧ w_audit w' = w_audit w ++ events actor (dp_id d) trail
  ∧ (trail = [] ∨ lifecycle_run trail) ∧ in_step (dp_status d) trail.

Lemma begun_history actor rev w w' : begun actor rev w w' →
  (db_deployments (w_db w') = db_deployments (w_db w) ∧ w_audit w' = w_audit w) ∨ history actor rev w w'.
Proof.
  intros [[Hd Ha]|(id & st & trail & ((d & Hd & <- & Hr & <-) & Hf & Ha) & Hst & Ht & Hs)]; [by left|right].
  by exists d, trail.
Qed.

(** [C3] The lifecycle of a deployment: an apply leaves every earlier record as
    it is and adds at most one, with a fresh id, for its revision.  The record
    is in a state that the machine reaches from [saved], however the store, the
    file system, the broker and the verifier fail; the audit trail grows by a
    run of the machine, one event of the actor for each state; and the state
    stored and the state last reported are the same or one transition apart. *)
Theorem Apply_lifecycle cfg pbkdf2 actor rev w :
  db_ok (w_db w) →
  let w' := (Apply cfg pbkdf2 actor rev w).1 in
  (db_deployments (w_db w') = db_deployments (w_db w) ∧ w_audit w' = w_audit w) ∨ history actor rev w w'.
Proof.
  intros Hok. apply begun_history. unfold Apply. destruct (decide _); [by left|]. destruct (decide _); [by left|].
  unfold applyRevision. destruct (decide _); [by left|]. destruct (w_locked w); [by left|].
  pose proof (wp_apply_locked_track cfg pbkdf2 actor rev (set_locked true w) Hok) as H. unfold wp in H.
  destruct (apply_locked _ _ _ _ _) as [w' r]. exact H.
Qed.
