(* ===== verification/DeployExamples.v ===== *)
(** * A deploy from preview to activation, and the ways it fails

    A small installation, on which the definitions of the deploy service are
    evaluated: the theorems of the service at a concrete input, and two
    behaviours of the code that a deploy should not have. *)
From S2P Require Import Prelude IO Unicode GoStrings GoTime Sha256 Hash Passwd Acl AclDoc Conf Store Applier Probe.
From S2P Require Import DeployRender Deploy DeployFrame DeployPlan DeployProofs DeployOnce DeployLife.

(** A key of 64 bytes that tells passwords apart. *)
Definition example_pbkdf2 (password salt : string) (_ : Z) : string :=
  password +:+ String.concat "" (replicate (key_length - String.length password) ".").
Definition example_difflib (a b : string) : option string := Some (if decide (a = b) then "" else "-" +:+ a +:+ "+" +:+ b).
Definition example_salt : string := "0123456789ab".
Definition example_config : config :=
  mkConfig "file" "/m/acl" "/m/passwd" "" "mcm" "pw" (AppFile example_applier)
    (λ username, if decide (username = "alice") then Some "s3" else None).

(** One user with one rule. *)
Definition example_tables : db message :=
  (CreateRule (mkRule "" "user" "" "" "alice" "plant/+" "readwrite" "") (CreateMQTTUser "alice" "$7$h" "mcm" (empty_db message (1700000000 * second) [] [])).1).1.
(** The service account is in the password file; the calls to the system fail
    as [faults] says and the verifier answers [verdicts]. *)
Definition example_world (faults : list bool) (verdicts : list verdict) : world :=
  let files := list_to_map [("/m/acl", "user alice
topic read plant/old
"); ("/m/passwd", "mcm:" +:+ HashPassword example_pbkdf2 "pw" DefaultIterations example_salt +:+ nl)] in
  mkWorld (mkFs files ∅ 0 files faults) example_tables [] ["0123456789abcdef"] verdicts false [].
(** Another password file, and other random bytes. *)
Definition with_passwd (passwd : string) (random : list string) (w : world) : world :=
  set_random random (set_fs (set_files (w_fs w) (<["/m/passwd" := passwd]> (fs_files (w_fs w)))) w).
Definition example_revision : string := "30313233343536373839616263646566".
Definition accept : verdict := mkVerdict true "" false.
Definition reject : verdict := mkVerdict false "denied" false.

(** The world after the preview. *)
Definition previewed (faults : list bool) (verdicts : list verdict) : world :=
  set_fs (set_faults (w_fs (example_world [] [])) faults) (Preview example_config example_pbkdf2 example_difflib "op" (example_world [] verdicts)).1.
Definition applied_world faults verdicts : world * result deploy_error (Deployment message) :=
  Apply example_config example_pbkdf2 "op" example_revision (previewed faults verdicts).


(** ** The theorems of the service on the example *)
Lemma example_tables_ok : db_ok example_tables.
Proof.
  apply (store_steps_ok (empty_db message (1700000000 * second) [] []) example_tables); [|apply empty_db_ok].
  eapply rtc_l; [apply StepCreateMQTTUser|]. eapply rtc_l; [apply StepCreateRule|]. constructor.
Qed.

Lemma previewed_tables faults verdicts :
  w_db (previewed faults verdicts) = with_revisions (db_revisions (w_db (previewed [] []))) example_tables.
Proof. by vm_compute. Qed.
Lemma with_revisions_ok (s : db message) m :
  db_ok s → map_Forall (λ id r, pr_id r = id ∧ id ≠ "") m → db_ok (with_revisions m s).
Proof. by intros []; constructor. Qed.
Lemma previewed_ok faults verdicts : db_ok (w_db (previewed faults verdicts)).
Proof.
  rewrite previewed_tables. apply with_revisions_ok; [apply example_tables_ok|]. refine (bool_decide_unpack _ _). by vm_compute.
Qed.
Lemma previewed_placed faults verdicts : well_placed example_config (previewed faults verdicts).
Proof. constructor; [apply previewed_ok|by vm_compute..]. Qed.
Lemma previewed_utf8 faults verdicts : utf8_snapshots example_config (previewed faults verdicts).
Proof. unfold utf8_snapshots. assert (listener_paths example_config (previewed faults verdicts) = []) as -> by by vm_compute. constructor. Qed.

Lemma on_pair {A B} (P : A → B → Prop) (p : A * B) : (let '(a, b) := p in P a b) → P p.1 p.2.
Proof. by destruct p. Qed.

Lemma Apply_refused_witness :
  let '(w', r) := Apply example_config example_pbkdf2 "op" "unknown" (previewed [] []) in quiet (previewed [] []) w' ∧ is_ok r = false.
Proof.
  apply Apply_refused. intros [_ _ _ (rev & [H _] & _)]. by vm_compute in H.
Defined.

Definition acl_length (w : world) : nat := String.length (default "" (fs_files (w_fs w) !! "/m/acl")).
Lemma example_touched :
  acl_length (Apply example_config example_pbkdf2 "op" example_revision (previewed [] [accept])).1 = 107
  ∧ acl_length (previewed [] [accept]) = 32.
Proof. vm_compute. done. Qed.
Lemma acl_length_broker w w' : same_broker w w' → acl_length w' = acl_length w.
Proof. intros H. unfold same_broker, same_fs in H. unfold acl_length. by rewrite H. Qed.
Lemma example_recorded :
  length (db_deployments (w_db (applied_world [] [reject; reject; reject]).1)) = 1
  ∧ length (db_deployments (w_db (previewed [] [reject; reject; reject]))) = 0
  ∧ length (w_audit (applied_world [] [reject; reject; reject]).1) = 5.
Proof. vm_compute. done. Qed.

Lemma example_accepted : is_ok (Apply example_config example_pbkdf2 "op" example_revision (previewed [] [accept])).2 = true.
Proof. vm_compute. reflexivity. Qed.

Lemma revision_applied_once_witness :
  let first := Apply example_config example_pbkdf2 "op" example_revision (previewed [] [accept]) in
  let '(w', r) := Apply example_config example_pbkdf2 "other" example_revision first.1 in
  is_ok first.2 = true ∧ quiet first.1 w' ∧ is_ok r = false.
Proof.
  cbv zeta.
  pose proof (revision_applied_once example_config example_pbkdf2 example_difflib "op" "other" example_revision (previewed [] [accept])) as H.
  specialize (H (Apply example_config example_pbkdf2 "op" example_revision (previewed [] [accept])).1).
  assert (¬ same_broker (previewed [] [accept]) (Apply example_config example_pbkdf2 "op" example_revision (previewed [] [accept])).1) as Ht.
  { intros E. destruct example_touched as [H1 H0]. rewrite (acl_length_broker _ _ E), H0 in H1. discriminate H1. }
  specialize (H Ht ltac:(constructor)). destruct (Apply _ _ "other" _ _) as [w' r]. split; [exact example_accepted|exact H].
Defined.

Lemma Apply_contract_witness :
  (finished example_config example_revision (previewed [] [accept]) (applied_world [] [accept]).1 (applied_world [] [accept]).2
    ∧ dp_status <$> db_deployments (w_db (applied_world [] [accept]).1) = ["active_verified"])
  ∧ (finished example_config example_revision (previewed [] [reject; reject; reject]) (applied_world [] [reject; reject; reject]).1
      (applied_world [] [reject; reject; reject]).2
    ∧ dp_status <$> db_deployments (w_db (applied_world [] [reject; reject; reject]).1) = ["rolled_back"]).
Proof.
  split.
  - split; [|vm_compute; reflexivity].
    exact (on_pair (finished example_config example_revision (previewed [] [accept])) (applied_world [] [accept])
      (Apply_contract example_config example_pbkdf2 "op" example_revision (previewed [] [accept]) (previewed_placed _ _) (previewed_utf8 _ _))).
  - split; [|vm_compute; reflexivity].
    exact (on_pair (finished example_config example_revision (previewed [] [reject; reject; reject])) (applied_world [] [reject; reject; reject])
      (Apply_contract example_config example_pbkdf2 "op" example_revision (previewed [] [reject; reject; reject])
        (previewed_placed _ _) (previewed_utf8 _ _))).
Defined.

Lemma Apply_lifecycle_witness :
  let w := previewed [] [reject; reject; reject] in
  history "op" example_revision w (applied_world [] [reject; reject; reject]).1
  ∧ length (w_audit (applied_world [] [reject; reject; reject]).1) = 5.
Proof.
  destruct example_recorded as (H1 & H0 & Ha). split; [|exact Ha].
  destruct (Apply_lifecycle example_config example_pbkdf2 "op" example_revision (previewed [] [reject; reject; reject])
    (previewed_ok _ _)) as [[E _]|H]; [|exact H].
  apply (f_equal length) in E. discriminate (eq_trans (eq_sym H1) (eq_trans E H0)).
Defined.

(** ** A rollback that fails loses the files *)
Lemma writes_empty l m p : Forall (λ x, x.2 = "") l → p ∈ l.*1 → reads (writes l m) p = "".
Proof.
  unfold writes, reads. induction l as [|[k v] l IH] using rev_ind; intros Hl Hp; [by apply elem_of_nil in Hp|].
  apply Forall_app in Hl as [Hl Hv]. apply Forall_cons in Hv as [Hv _]. cbn in Hv. rewrite foldl_app. cbn [foldl fst snd]. rewrite Hv.
  destruct (decide (p = k)) as [->|Hne]; [by rewrite lookup_insert_eq|]. rewrite lookup_insert_ne by done. apply IH; [done|].
  rewrite fmap_app in Hp. apply elem_of_app in Hp as [Hp|Hp]; [done|]. by apply list_elem_of_singleton in Hp.
Qed.

Lemma rollback_snapshots_empty d acl passwd aclPath passwdPath :
  Forall (λ x, x.2 = "") (rolled_back aclPath passwdPath (rollbackRequest d acl passwd)).
Proof.
  unfold rolled_back, restored, snapshots, rollbackRequest, request_files. rewrite !Forall_app. cbn.
  repeat split; repeat constructor. by rewrite !Forall_fmap, Forall_forall.
Qed.

(** The files a rollback of the record writes. *)
Definition rollback_paths (cfg : config) (d : Deployment message) : list string :=
  cf_acl cfg :: cf_passwd cfg :: elements (dom (dp_listener_snapshot d)).
Lemma in_rollback d acl passwd aclPath passwdPath p : p ∈ aclPath :: passwdPath :: elements (dom (dp_listener_snapshot d)) →
  p ∈ touched aclPath passwdPath (rollbackRequest d acl passwd).
Proof.
  unfold touched, rollbackRequest, request_files. cbn [rq_listener rq_removed fmap list_fmap af_path].
  rewrite <-list_fmap_compose. intros [->|[->|Hp]%elem_of_cons]%elem_of_cons; [by left|set_solver|].
  right. apply elem_of_app. left. apply list_elem_of_fmap. exists p. split; [done|]. by apply elem_of_sort_strings.
Qed.

(** The rollback of a deploy hands the applier the snapshots as bodies but
    no snapshots of its own.  When one of its steps fails after the first
    rename, the applier answers with its rollback to these empty snapshots:
    it reports [ErrApplyRestored], and the ACL file, the password file and every
    listener file of the deploy are empty.  (The code means to leave the
    previous files in place.) *)
Theorem failed_rollback_empties_files cfg d acl passwd stage c w :
  applier_paths cfg = (cf_acl cfg, cf_passwd cfg) →
  let '(w', r) := applier_apply cfg (rollbackRequest d acl passwd) w in
  r = Err (ErrApplyRestored stage c) →
  ∀ p, p ∈ rollback_paths cfg d → reads (fs_files (w_fs w')) p = "".
Proof.
  intros Hap. change (wp (applier_apply cfg (rollbackRequest d acl passwd)) (λ w' r, r = Err (ErrApplyRestored stage c) →
    ∀ p, p ∈ rollback_paths cfg d → reads (fs_files (w_fs w')) p = "") w).
  apply wp_applier; [done|]. intros f' r Ho -> p Hp. unfold outcome in Ho. destruct Ho as (m1 & _ & Hf & _). cbn [set_fs w_fs]. rewrite Hf.
  apply writes_empty; [apply rollback_snapshots_empty|]. rewrite rolled_back_paths. apply in_rollback, Hp.
Qed.

(** The reload of the rollback fails. *)
Definition example_record : Deployment message :=
  mkDeployment 1%Z "" "" "" "" "" "" "" "" "" ∅ ∅ "" "" NoMessage 0%Z 0%Z.
Lemma failed_rollback_empties_files_witness :
  let w := example_world (replicate 13 false ++ [true]) [] in
  let w' := (applier_apply example_config (rollbackRequest example_record "user a" "a:h") w).1 in
  reads (fs_files (w_fs w)) "/m/acl" = "user alice
topic read plant/old
" ∧ reads (fs_files (w_fs w')) "/m/acl" = "" ∧ reads (fs_files (w_fs w')) "/m/passwd" = "".
Proof.
  cbv zeta. pose proof (failed_rollback_empties_files example_config example_record "user a" "a:h" "signal reload" RunCommand
    (example_world (replicate 13 false ++ [true]) []) eq_refl) as H.
  assert ((applier_apply example_config (rollbackRequest example_record "user a" "a:h") (example_world (replicate 13 false ++ [true]) [])).2
    = Err (ErrApplyRestored "signal reload" RunCommand)) as E by (vm_compute; reflexivity).
  destruct (applier_apply _ _ _) as [w' r]. cbn [fst snd] in E |- *. specialize (H E).
  split; [vm_compute; reflexivity|]. split; apply H; [by left|by right; left].
Defined.

(** ** The first deploy

    The password file does not hold the service account yet.  Every render
    salts its hash anew, so the render of the apply never is the one of the
    preview, and the apply is refused although nothing changed. *)
Example first_deploy_mismatch :
  let w := with_passwd "" ["salt of view"; "0123456789abcdef"; "another salt"] (example_world [] [accept]) in
  let '(w', p) := Preview example_config example_pbkdf2 example_difflib "op" w in
  (match p with Ok p => pv_revision p | Err _ => "" end) = example_revision
  ∧ (Apply example_config example_pbkdf2 "op" example_revision w').2 = Err ErrRevisionMismatch.
Proof. vm_compute. done. Qed.
