(* ===== verification/BrokerConfig.v ===== *)
(** * The deploy of [mosquitto.conf] ([internal/deploy])

    [service.go] from [PreviewBrokerConfig] on, [broker_config_draft.go],
    [broker_config_activation.go], [broker_config_state.go] and [settings.go].
    A revision holds a new body for the root file; applying it writes the file,
    reloads or restarts the broker, and probes it.  The world of the ACL deploy
    is extended with the tables of [BrokerStore] and with the files the broker
    was last started with, which is where it reads a directive that a reload
    does not touch.  What the operating system shows of the tree of includes is
    a function of the files. *)
From S2P Require Import Prelude IO Unicode GoStrings GoTime GoPath Sha256 Passwd Acl Catalog Conf Include Settings Store BrokerStore Probe Applier DeployRender Deploy.

(** ** World and errors *)
Record bworld := mkBWorld {
  bw_world : world; bw_revisions : gmap string BrokerConfigRevision;
  bw_adoptions : list BrokerConfigAdoption; bw_next_adoption : Z; bw_started : gmap string string
}.
Definition set_world x w := mkBWorld x (bw_revisions w) (bw_adoptions w) (bw_next_adoption w) (bw_started w).
Definition set_started m w := mkBWorld (bw_world w) (bw_revisions w) (bw_adoptions w) (bw_next_adoption w) m.
Definition bw_fs w : fs := w_fs (bw_world w).
Definition set_bw_fs s w := set_world (set_fs s (bw_world w)) w.
Definition tables_of w : tables message := mkTables (w_db (bw_world w)) (bw_revisions w) (bw_adoptions w) (bw_next_adoption w).
Definition set_tables (t : tables message) w : bworld :=
  mkBWorld (set_db (tb_db t) (bw_world w)) (tb_revisions t) (tb_adoptions t) (tb_next_adoption t) (bw_started w).

(** Why the activation of a change cannot be observed. *)
Inductive unavailable := NoVerifier | ACLUnreadable | PasswdUnreadable | NoProbeIdentity.
Definition unavailable_text (u : unavailable) : string :=
  "MQTT verification unavailable: " +:+
  match u with
  | NoVerifier => "no verifier is configured"
  | ACLUnreadable => "the managed ACL file is unreadable"
  | PasswdUnreadable => "the managed password file is unreadable"
  | NoProbeIdentity => "no managed test identity with a known password and an ACL grant"
  end.

Inductive invalid_config := NotParsed (e : parse_error) | BadIncludes (e : include_error) | BadValues.
Inductive broker_error :=
  | ErrBrokerConfigDisabled | BrokerStoreMissing
  | DeployError (e : deploy_error)
  | ErrSensitiveBrokerConfig | ErrInvalidBrokerConfig (why : invalid_config)
  | ErrRequiresRestart (directives : string) | ErrBrokerRestartUnavailable (directives : string)
  | ErrBrokerVerificationFailed (u : unavailable) | ErrAdoptionRequired
  | ErrSettingsInvalid (issues : list Settings.Issue) | SettingsFailed (e : settings_error) | RenderFailed (e : render_error)
  | ConfReadFailed | ConfParseFailed (e : parse_error) | ConfStatFailed | ConfWriteFailed (c : cause) (status : option store_error)
  | IncludesFailed (e : include_error) | ConfDiffFailed
  | BrokerStoreError (what : string) (e : bstore_error)
  | BrokerConsumeFailed (e : bstore_error)
  | StateIndeterminate (e : store_error).

Abbreviation broker := (io bworld broker_error).
Definition on_world {A} (m : deploy A) : broker A := zoom bw_world set_world DeployError m.
Definition on_tables {A} (what : string) (m : io (tables message) bstore_error A) : broker A := zoom tables_of set_tables (BrokerStoreError what) m.
Definition on_files {E A} (m : io fs E A) : io bworld E A := zoom bw_fs set_bw_fs (λ e, e) m.
Definition broker_fail {A} (e : deploy_error) : broker A := fail (DeployError e).

(** [os.ReadFile] and [os.Stat], for which a missing file is an error. *)
Definition read_existing (path : string) : io fs cause string :=
  syscall ReadFile ;; s ← get; match fs_files s !! path with Some content => mret content | None => fail ReadFile end.
Definition stat_file (path : string) : io fs cause unit :=
  syscall StatFile ;; s ← get; match fs_files s !! path with Some _ => mret tt | None => fail StatFile end.

(** ** Classification of a change *)

Definition is_directive (it : Item) : bool := bool_decide (it_kind it = ItemDirective ∨ it_kind it = ItemBlockOpen).
(** The worst reload kind so far, and whether a restart is needed. *)
Definition worse (cat : Catalog) (acc : string * bool) (name : string) : string * bool :=
  match Lookup cat name with
  | None => acc
  | Some spec =>
      if decide (sp_reload_kind spec = Restart) then (Restart, true)
      else if decide (sp_reload_kind spec = ReloadOrRestart) then (if decide (acc.1 = Restart) then acc else (ReloadOrRestart, acc.2))
      else acc
  end.
Definition classifyChangedDirectives (names : list string) (cat : Catalog) : string * bool := foldl (worse cat) (ReloadOK, false) names.
Definition classifyReload (f : File) (cat : Catalog) : string * bool :=
  classifyChangedDirectives (it_key <$> filter (λ it, is_directive it = true) (f_items f)) cat.

Definition changedDirectiveNames (value : string) : list string := filter (λ p, p ≠ "") (trim_space <$> split "," value).

Definition restartDirectiveNames (f : File) (cat : Catalog) : string :=
  join "," (filter (λ key, sp_reload_kind <$> Lookup cat key = Some Restart) (it_key <$> filter (λ it, is_directive it = true) (f_items f))).

(** The values of every directive, in order, each as one text. *)
Definition directive_values (path body : string) : gmap string (list string) :=
  match Parse body path with
  | Err _ => ∅
  | Ok f => foldl (λ out it, if is_directive it then <[it_key it := default [] (out !! it_key it) ++ [join " " (it_values it)]]> out else out)
              ∅ (f_items f)
  end.
Definition needs_restart (cat : Catalog) (old next : gmap string (list string)) (key : string) : bool :=
  bool_decide (old !! key ≠ next !! key) &&
  match Lookup cat key with
  | None => true
  | Some spec => bool_decide (sp_reload_kind spec = Restart ∨ sp_reload_kind spec = ReloadOrRestart)
  end.
Definition brokerConfigImpact (cat : Catalog) (path before after : string) : string * bool :=
  if decide (before = after) then ("none", false)
  else
    let old := directive_values path before in
    let next := directive_values path after in
    if existsb (needs_restart cat old next) (elements (dom old ∪ dom next)) then (Restart, true) else (ReloadOK, false).

(** A credential in a directive. *)
Definition is_credential (key : string) : bool :=
  contains "password" key && negb (bool_decide (key = "password_file")) || contains "secret" key || contains "token" key
  || bool_decide (key = "bridge_psk").
Definition hasInlineCredentials (f : File) : bool :=
  existsb (λ it, bool_decide (it_kind it = ItemDirective) && is_credential (it_key it)) (f_items f).

(** The issues that block a revision. *)
Definition blocking_issue (i : ValidationIssue) : bool := bool_decide (vi_kind i = "type" ∨ vi_kind i = "dependency").

Definition kindNeedsRestart (kind : string) : bool := bool_decide (kind ∈ ["bridges"; "plugins"; "dynsec"]).
Definition kind_broker_config : string := "broker_config".

(** ** The service *)
Record bconfig := mkBConfig {
  bc_deploy : config; bc_catalog : option Catalog; bc_store : bool; bc_verifier : bool;
  bc_view : gmap string string → os_view; bc_diff : string → string → option string
}.
Record BrokerConfigDraft := mkDraft { dr_body : string; dr_base_hash : string }.
Record BrokerPreview := mkBrokerPreview {
  bp_revision : string; bp_kind : string; bp_base_hash : string; bp_rendered_hash : string; bp_diff : string; bp_body : string;
  bp_reload : string; bp_restart : bool; bp_issues : list ValidationIssue; bp_includes : option IncludeSnapshot;
  bp_changed : list string; bp_changes : bool
}.

Section service.
Context (c : bconfig).
Local Abbreviation cfg := (bc_deploy c).
Local Abbreviation confPath := (cf_conf (bc_deploy c)).

(** The guard of every operation. *)
Definition enabled {A} (k : Catalog → broker A) : broker A :=
  match bc_catalog c with
  | None => fail ErrBrokerConfigDisabled
  | Some cat => if decide (confPath = "") then fail ErrBrokerConfigDisabled else k cat
  end.
Definition with_store {A} (m : broker A) : broker A := if bc_store c then m else fail BrokerStoreMissing.

Definition read_conf : broker string := wrap (λ _, ConfReadFailed) (on_files (read_existing confPath)).
Definition parse_conf {A} (e : parse_error → broker_error) (body : string) (k : File → broker A) : broker A :=
  match Parse body confPath with Err pe => fail (e pe) | Ok f => k f end.
Definition resolve_includes (f : File) : broker (result include_error (File * IncludeSnapshot)) :=
  s ← get; mret (Resolve (bc_view c (fs_files (bw_fs s))) (dir confPath) f).
Definition new_revision_id : broker string := bytes ← on_world random_bytes; mret (hex_encode (bytes_of bytes)).
Definition broker_clock : broker Z := on_tables "" broker_now.
Definition conf_diff (before after : string) : broker string :=
  match bc_diff c before after with Some diff => mret diff | None => fail ConfDiffFailed end.
Definition store_revision (what id actor baseHash renderedHash body : string) (includes : option IncludeSnapshot) (changed : option string) : broker unit :=
  created ← broker_clock;
  on_tables what (InsertBrokerConfigRevision (mkBrokerRevision id actor baseHash renderedHash confPath body includes changed created None)).

(** *** Previews *)
Definition previewBrokerConfigLocked (cat : Catalog) (actor : string) (draft : option BrokerConfigDraft) : broker BrokerPreview :=
  current ← read_conf;
  parse_conf (λ e, ErrInvalidBrokerConfig (NotParsed e)) current (λ currentParsed,
  if hasInlineCredentials currentParsed then fail ErrSensitiveBrokerConfig
  else
    let baseHash := contentHash current in
    body ← match draft with
      | None => mret current
      | Some d => if decide (dr_base_hash d ≠ "" ∧ dr_base_hash d ≠ baseHash) then broker_fail ErrRevisionMismatch else mret (dr_body d)
      end;
    parse_conf (λ e, ErrInvalidBrokerConfig (NotParsed e)) body (λ top,
    if hasInlineCredentials top then fail ErrSensitiveBrokerConfig
    else
      r ← resolve_includes top;
      match r with
      | Err e => fail (ErrInvalidBrokerConfig (BadIncludes e))
      | Ok (resolved, snapshot) =>
          let issues := ValidateConf resolved cat in
          if bool_decide (draft ≠ None) && existsb blocking_issue issues then fail (ErrInvalidBrokerConfig BadValues)
          else
            let '(reload, restart) := brokerConfigImpact cat confPath current body in
            diff ← conf_diff current body;
            id ← new_revision_id;
            store_revision "" id actor baseHash (contentHash body) body (Some snapshot) None ;;
            mret (mkBrokerPreview id kind_broker_config baseHash (contentHash body) diff body reload restart issues (Some snapshot) []
                    (negb (bool_decide (body = current))))
      end)).
Definition previewBrokerConfig (actor : string) (draft : option BrokerConfigDraft) : broker BrokerPreview :=
  enabled (λ cat, with_store (
    preview ← previewBrokerConfigLocked cat actor draft;
    on_world (emitAudit actor "deployment.preview" None "success") ;;
    mret preview)).
Definition PreviewBrokerConfig (actor : string) : broker BrokerPreview := previewBrokerConfig actor None.
Definition PreviewBrokerConfigDraft (actor : string) (draft : BrokerConfigDraft) : broker BrokerPreview := previewBrokerConfig actor (Some draft).

(** The end of the previews of an edited file: the rendering is stored as a
    revision and [show]n to the operator. *)
Definition store_edit (what kind : string) (show : string → string) (cat : Catalog) (actor body : string) (updated : File) (changed : list string) : broker BrokerPreview :=
  match RenderConf updated with
  | Err e => fail (RenderFailed e)
  | Ok rendered =>
      diff ← conf_diff body rendered;
      let '(reload, restart) := classifyChangedDirectives changed cat in
      let baseHash := contentHash body in
      let renderedHash := contentHash rendered in
      id ← new_revision_id;
      store_revision what id actor baseHash renderedHash rendered None (Some (join "," changed)) ;;
      mret (mkBrokerPreview id kind baseHash renderedHash (show diff) (show rendered) reload restart [] None changed
              (negb (bool_decide (baseHash = renderedHash))))
  end.

(** *** The settings form *)
Definition readBrokerConfig : broker (string * File) :=
  body ← read_conf; parse_conf ConfParseFailed body (λ f, mret (body, f)).
Definition settingsWarnings (cat : Catalog) (parsed : File) : broker (list string) :=
  r ← resolve_includes parsed;
  match r with
  | Err _ => mret []
  | Ok (resolved, _) =>
      let top := Occurrences cat parsed in
      mret (sort_strings ((filter (λ '(name, count), default 0 (top !! name) < count) (map_to_list (Occurrences cat resolved))).*1))
  end.
Record BrokerSettingsResult := mkSettingsResult {
  sr_path : string; sr_hash : string; sr_version : string; sr_document : Document; sr_sections : list FormSection; sr_warnings : list string
}.
Definition GetBrokerSettings : broker BrokerSettingsResult :=
  enabled (λ cat,
    '(body, parsed) ← readBrokerConfig;
    let doc := Extract cat parsed in
    warnings ← settingsWarnings cat parsed;
    mret (mkSettingsResult confPath (contentHash body) (cat_version cat) doc (BuildSections cat doc) warnings)).

Definition previewBrokerSettingsLocked (cat : Catalog) (actor : string) (doc : Document) : broker BrokerPreview :=
  '(body, parsed) ← readBrokerConfig;
  match Settings.Apply cat parsed doc with
  | Err e => fail (SettingsFailed e)
  | Ok (updated, changed) => store_edit "store broker-settings preview revision" "broker_settings" id cat actor body updated changed
  end.
Definition PreviewBrokerSettings (actor : string) (doc : Document) : broker BrokerPreview :=
  enabled (λ cat, with_store (
    match Settings.Validate cat doc with
    | (_ :: _) as issues => fail (ErrSettingsInvalid issues)
    | [] =>
        preview ← previewBrokerSettingsLocked cat actor doc;
        on_world (emitAudit actor "deployment.preview" None "success") ;;
        mret preview
    end)).

(** *** The broker *)
Definition restart_applier : io fs apply_error unit := match cf_applier cfg with AppFile f => RestartBroker f | AppDocker d => DockerRestartBroker d end.
Definition canRestartBroker : bool := match cf_applier cfg with AppFile f => CanRestart f | AppDocker d => DockerCanRestart d end.
Definition reload_applier : io fs apply_error unit := match cf_applier cfg with AppFile f => FileReloadBrokerOnly f | AppDocker d => DockerReloadBrokerOnly d end.
(** A broker that starts reads every file. *)
Definition started : io bworld apply_error unit := modify (λ w, set_started (fs_files (bw_fs w)) w).
Definition restartBroker : io bworld apply_error bool :=
  r ← attempt (on_files restart_applier);
  match r with
  | Ok _ => started ;; mret true
  | Err ErrRestartNotSupported => mret false
  | Err e => fail e
  end.
Definition reloadBrokerOnly : io bworld apply_error unit := on_files reload_applier.
(** A restart where it is asked for, a reload where there was none. *)
Definition signal_broker (restart : bool) : io bworld apply_error bool :=
  restarted ← (if restart then restartBroker else mret false);
  if restarted : bool then mret true else reloadBrokerOnly ;; mret false.

(** *** Verification *)
Inductive activation := NotObserved (u : unavailable) | AccessRefused (v : verify_message) | AccessVerified.

Definition readable {A} (u : unavailable) (path : string) (k : string → broker (result unavailable A)) : broker (result unavailable A) :=
  r ← attempt (on_world (readFile path)); match r with Ok body => k body | Err _ => mret (Err u) end.
Definition verificationPrerequisites : broker (result unavailable (string * string)) :=
  if negb (bc_verifier c) then mret (Err NoVerifier)
  else
    readable ACLUnreadable (cf_acl cfg) (λ aclBody,
    readable PasswdUnreadable (cf_passwd cfg) (λ passwdBody,
    match pickVerificationProbe (cf_username cfg) (cf_password cfg) (cf_cleartext cfg) aclBody passwdBody with
    | None => mret (Err NoProbeIdentity)
    | Some _ => mret (Ok (aclBody, passwdBody))
    end)).
Definition verificationAvailable : broker (option unavailable) :=
  r ← verificationPrerequisites; mret (match r with Ok _ => None | Err u => Some u end).

(** The message starts with the text of a probe that is not available. *)
Definition no_probe_message (v : verify_message) : bool :=
  match v with
  | VNoProbe => true
  | VFailed text _ => has_prefix "no activation probe available" (text +:+ " (activation probe: ")
  | VCancelled _ => false
  end.
Definition verifyActivation : broker activation :=
  r ← verificationPrerequisites;
  match r with
  | Err u => mret (NotObserved u)
  | Ok (aclBody, passwdBody) =>
      verified ← on_world (runVerifier cfg aclBody passwdBody);
      mret (match verified with
            | (None, _, _) => AccessVerified
            | (Some v, _, _) => if no_probe_message v then NotObserved NoProbeIdentity else AccessRefused v
            end)
  end.

(** *** Activation and recovery *)
Definition write_conf (body : string) : io bworld cause unit := on_files (AtomicWriteConf confPath body).
Definition set_deployment_status (id : Z) (status : string) (m : message) : io bworld store_error unit :=
  zoom bw_world set_world (λ e, e) (updateDeploymentStatus id status m).
Definition on_store {A} (what : string) (m : io bworld store_error A) : broker A := wrap (λ e, DeployError (StoreError what e)) m.
Definition get_deployment (id : Z) : broker (Deployment message) := on_store "" (zoom bw_world set_world (λ e, e) (getDeployment id)).
Definition audit_deployment (actor action : string) (d : Deployment message) (outcome : string) : broker unit :=
  on_world (audit_record actor action d outcome).

(** The status of a change that was written and signalled. *)
Definition finish (actor status : string) (d : Deployment message) (m : message) : broker (Deployment message) :=
  on_store ("update broker-config deployment to " +:+ status) (set_deployment_status (dp_id d) status m) ;;
  audit_deployment actor ("deployment." +:+ status) d "success" ;;
  get_deployment (dp_id d).

Definition restored_message : string := "Configuration activation failed; previous bytes restored and the broker signalled again.".
Definition recovery_failed_message : string := "Configuration activation and recovery failed; operator intervention required.".
(** The previous bytes, a signal, and a probe unless a restart was needed; [None]
    is a recovery that failed, otherwise the message. *)
Definition restore_broker (before : string) (needsRestart : bool) : broker (option string) :=
  wrote ← attempt (write_conf before);
  match wrote with
  | Err _ => mret None
  | Ok _ =>
      signalled ← attempt (signal_broker true);
      match signalled with
      | Err _ => mret None
      | Ok _ =>
          if needsRestart then mret (Some restored_message)
          else
            a ← verifyActivation;
            mret (match a with
                  | AccessRefused _ => None
                  | NotObserved _ => Some (restored_message +:+ " MQTT verification was unavailable, so the restored state is not confirmed active.")
                  | AccessVerified => Some (restored_message +:+ " MQTT access verified after recovery.")
                  end)
      end
  end.
(** The status of a recovery. *)
Definition record_recovery (actor : string) (d : Deployment message) (restored : option string) : broker (Deployment message) :=
  let status := match restored with Some _ => "rolled_back" | None => "rollback_failed" end in
  wrap StateIndeterminate (set_deployment_status (dp_id d) status (MsgText (default recovery_failed_message restored))) ;;
  audit_deployment actor ("deployment." +:+ status) d "failure" ;;
  get_deployment (dp_id d).
Definition recoverBrokerConfig (actor : string) (d : Deployment message) (before : string) (needsRestart : bool) : broker (Deployment message) :=
  restored ← restore_broker before needsRestart; record_recovery actor d restored.

Definition only_reloaded_message : string :=
  "the change is written to the configuration, but the broker was only reloaded; restart it to activate it".
Definition verified_message : string :=
  "MQTT allowed/denied access verified after activation; not an assertion about every directive".
Definition activateBrokerConfig (actor : string) (d : Deployment message) (before after kind : string) (requiresRestart : bool) :
    broker (Deployment message) :=
  wrap (λ _, ConfStatFailed) (on_files (stat_file confPath)) ;;
  wrote ← attempt (write_conf after);
  match wrote with
  | Err e =>
      status ← attempt (set_deployment_status (dp_id d) "failed" (MsgText "configuration write failed"));
      fail (ConfWriteFailed e (match status with Ok _ => None | Err se => Some se end))
  | Ok _ =>
      let needsRestart := requiresRestart || kindNeedsRestart kind in
      signalled ← attempt (signal_broker needsRestart);
      match signalled with
      | Err _ => recoverBrokerConfig actor d before needsRestart
      | Ok restarted =>
          if needsRestart && negb restarted then finish actor "pending_activation" d (MsgText only_reloaded_message)
          else if decide (kind ≠ kind_broker_config) then finish actor "active_verified" d NoMessage
          else
            a ← verifyActivation;
            match a with
            | NotObserved u => finish actor "pending_activation" d (MsgText (unavailable_text u))
            | AccessRefused _ => recoverBrokerConfig actor d before needsRestart
            | AccessVerified => finish actor "active_verified" d (MsgText verified_message)
            end
      end
  end.

(** *** Apply *)

(** The revision, the file it was made from, and that it was not used. *)
Definition check_revision (revisionID kind : string) : broker (BrokerConfigRevision * string) :=
  r ← attempt (zoom tables_of set_tables (λ e, e) (GetBrokerConfigRevision revisionID));
  rev ← match r with
    | Ok rev => mret rev
    | Err ErrBrokerConfigRevisionNotFound => broker_fail ErrRevisionMissing
    | Err e => fail (BrokerStoreError "get broker-config revision" e)
    end;
  if decide (kind = kind_broker_config ∧ (br_base_path rev ≠ confPath ∨ contentHash (br_conf rev) ≠ br_rendered_hash rev))
  then broker_fail ErrRevisionMismatch
  else if decide (br_applied rev ≠ None) then broker_fail ErrRevisionConsumed
  else
    now ← broker_clock;
    if decide (br_created rev + previewRevisionTTL < now)%Z then broker_fail ErrRevisionExpired
    else
      current ← read_conf;
      if decide (contentHash current ≠ br_base_hash rev) then broker_fail ErrRevisionMismatch else mret (rev, current).

(** [checkBrokerConfigIncludes], for a revision that has a snapshot. *)
Definition checkBrokerConfigIncludes (parsed : File) (expected : option IncludeSnapshot) : broker unit :=
  match expected with
  | None => mret tt
  | Some expected =>
      r ← resolve_includes parsed;
      match r with
      | Ok (_, actual) => if decide (expected = actual) then mret tt else broker_fail ErrRevisionMismatch
      | Err _ => broker_fail ErrRevisionMismatch
      end
  end.

Definition classify_revision (cat : Catalog) (kind current : string) (rev : BrokerConfigRevision) (parsed : File) : string * bool :=
  match br_changed rev with
  | Some changed => classifyChangedDirectives (changedDirectiveNames changed) cat
  | None => if decide (kind = kind_broker_config) then brokerConfigImpact cat confPath current (br_conf rev) else classifyReload parsed cat
  end.

(** What the body must meet; the result is its reload kind. *)
Definition check_body (cat : Catalog) (kind : string) (force : bool) (rev : BrokerConfigRevision) (current : string) : broker (string * bool) :=
  parse_conf ConfParseFailed (br_conf rev) (λ parsed,
  checkBrokerConfigIncludes parsed (br_includes rev) ;;
  (if decide (kind = kind_broker_config) then
     if hasInlineCredentials parsed then fail ErrSensitiveBrokerConfig
     else if existsb blocking_issue (ValidateConf parsed cat) then fail (ErrInvalidBrokerConfig BadValues) else mret tt
   else mret tt) ;;
  let '(reload, restart) := classify_revision cat kind current rev parsed in
  if restart && negb force then fail (ErrRequiresRestart (restartDirectiveNames parsed cat))
  else if decide (kind = kind_broker_config) then
    if restart && negb (canRestartBroker) then fail (ErrBrokerRestartUnavailable (restartDirectiveNames parsed cat))
    else
      available ← verificationAvailable;
      match available with Some u => fail (ErrBrokerVerificationFailed u) | None => mret (reload, restart) end
  else mret (reload, restart)).

Definition adopt_or_check (actor : string) (adopt : bool) (rev : BrokerConfigRevision) : broker unit :=
  if adopt then
    on_tables "record broker-config adoption" (InsertBrokerConfigAdoption confPath actor) ;; mret tt
  else
    adoption ← on_tables "lookup broker-config adoption" (LatestBrokerConfigAdoption confPath);
    match adoption with
    | Some a => if decide (ba_at a < br_created rev)%Z then fail ErrAdoptionRequired else mret tt
    | None => fail ErrAdoptionRequired
    end.

Definition consumeBrokerConfigRevision (id : string) (appliedAt : Z) : io bworld bstore_error unit :=
  zoom tables_of set_tables (λ e, e) (ConsumeBrokerConfigRevision id appliedAt).
(** The sentinel of the storage becomes the one of the service. *)
Definition consume_error (e : bstore_error) : broker_error :=
  match e with ErrBrokerConfigRevisionConsumed => DeployError ErrRevisionConsumed | e => BrokerConsumeFailed e end.
Definition consume_text (e : bstore_error) : message :=
  MsgText ("consume broker-config revision: " +:+
    match e with ErrBrokerConfigRevisionConsumed => "revision already consumed" | ErrBrokerConfigRevisionNotFound => "broker config revision not found"
    | _ => "database" end).
Definition consume_or_fail (d : Deployment message) (revisionID : string) : broker unit :=
  t ← broker_clock;
  r ← attempt (consumeBrokerConfigRevision revisionID t);
  match r with
  | Ok _ => mret tt
  | Err e => attempt (E' := broker_error) (set_deployment_status (dp_id d) "failed" (consume_text e)) ;; fail (consume_error e)
  end.

Definition record_deployment (actor revisionID kind reload : string) (rev : BrokerConfigRevision) : broker (Deployment message) :=
  d ← on_world (on_db "insert broker-config deployment" (InsertDeployment (mkDeployment 0 revisionID actor "saved" kind reload
        "" "" "" "" ∅ ∅ (br_conf rev) (br_base_hash rev) NoMessage 0 0)));
  audit_deployment actor "deployment.saved" d "success" ;;
  on_store "update broker-config deployment status" (set_deployment_status (dp_id d) "applying" NoMessage) ;;
  audit_deployment actor "deployment.applying" d "success" ;;
  mret d.

Definition apply_broker_locked (cat : Catalog) (actor revisionID : string) (force adopt : bool) (kind : string) : broker (Deployment message) :=
  '(rev, current) ← check_revision revisionID kind;
  '(reload, restart) ← check_body cat kind force rev current;
  adopt_or_check actor adopt rev ;;
  d ← record_deployment actor revisionID kind reload rev;
  consume_or_fail d revisionID ;;
  activateBrokerConfig actor d current (br_conf rev) kind restart.

(** The lock of the service. *)
Definition lock_service (b : bool) (w : bworld) : bworld := set_world (set_locked b (bw_world w)) w.
Definition applyBrokerConfigRevision (cat : Catalog) (actor revisionID : string) (force adopt : bool) (kind : string) : broker (Deployment message) := λ w,
  if w_locked (bw_world w) then (w, Err (DeployError ErrDeployInProgress))
  else let '(w', r) := apply_broker_locked cat actor revisionID force adopt kind (lock_service true w) in (lock_service false w', r).

(** The guards in front of it, which every surface that edits the file has. *)
Definition apply_surface (kind actor revisionID : string) (force adopt : bool) : broker (Deployment message) :=
  enabled (λ cat, with_store (
    if decide (revisionID = "") then broker_fail ErrRevisionMissing
    else applyBrokerConfigRevision cat actor revisionID force adopt kind)).
Definition ApplyBrokerConfig : string → string → bool → bool → broker (Deployment message) := apply_surface kind_broker_config.

Definition AdoptBrokerConfig (actor : string) : broker BrokerConfigAdoption :=
  if decide (confPath = "") then fail ErrBrokerConfigDisabled
  else with_store (
    a ← on_tables "record broker-config adoption" (InsertBrokerConfigAdoption confPath actor);
    on_world (emitAudit actor "deployment.adopt" None "success") ;;
    mret a).

(** *** The current configuration *)
Record BrokerConfigActivation := mkActivation {
  bca_deployment : Z; bca_revision : string; bca_hash : string; bca_body : string; bca_at : Z
}.
Record GetBrokerConfigResult := mkGetResult {
  gr_path : string; gr_body : string; gr_hash : string; gr_parsed : File; gr_catalog : string;
  gr_restart : bool; gr_verify : bool; gr_includes : IncludeSnapshot; gr_verified : option BrokerConfigActivation; gr_drift : bool
}.
Definition withheld_body : string := "[Archived body withheld: inline credentials or unsupported syntax]".
Definition activation_of (d : Deployment message) : BrokerConfigActivation :=
  let body := match Parse (dp_conf d) confPath with
              | Ok f => if hasInlineCredentials f then withheld_body else dp_conf d
              | Err _ => withheld_body
              end in
  mkActivation (dp_id d) (dp_revision d) (contentHash (dp_conf d)) body (dp_updated d).

(** Drift: other bytes than those that were verified, or another include tree. *)
Definition drifted (parsed : File) (hash : string) (d : Deployment message) : broker bool :=
  if decide (contentHash (dp_conf d) ≠ hash) then mret true
  else if decide (dp_revision d = "") then mret false
  else
    rev ← on_tables "" (GetBrokerConfigRevision (dp_revision d));
    (** An empty snapshot is no JSON, which is a mismatch here. *)
    match br_includes rev with
    | None => mret true
    | Some _ => r ← attempt (checkBrokerConfigIncludes parsed (br_includes rev)); mret (negb (is_ok (r : result broker_error unit)))
    end.
Definition brokerConfigState (cat : Catalog) (body : string) (parsed : File) : broker GetBrokerConfigResult :=
  r ← resolve_includes parsed;
  match r with
  | Err e => fail (IncludesFailed e)
  | Ok (_, snapshot) =>
      deployments ← on_world (on_db "" (ListDeployments 100 0));
      let hash := contentHash body in
      let result := mkGetResult confPath body hash parsed (cat_version cat) (canRestartBroker) (bc_verifier c) snapshot in
      match head (filter (λ d, dp_kind d = kind_broker_config ∧ dp_status d = "active_verified") deployments) with
      | None => mret (result None false)
      | Some d => drift ← drifted parsed hash d; mret (result (Some (activation_of d)) drift)
      end
  end.
Definition GetBrokerConfig : broker GetBrokerConfigResult :=
  enabled (λ cat, if bc_store c then
    '(body, parsed) ← readBrokerConfig;
    if hasInlineCredentials parsed then fail ErrSensitiveBrokerConfig else brokerConfigState cat body parsed
  else fail ErrBrokerConfigDisabled).
End service.

(** ** Classification *)
Lemma needs_restart_spec cat old next key :
  needs_restart cat old next key = true ↔
  old !! key ≠ next !! key ∧ ∀ spec, Lookup cat key = Some spec → sp_reload_kind spec = Restart ∨ sp_reload_kind spec = ReloadOrRestart.
Proof.
  unfold needs_restart. rewrite andb_true_iff, bool_decide_eq_true. destruct (Lookup cat key) as [spec|]; [|naive_solver].
  rewrite bool_decide_eq_true. naive_solver.
Qed.

(** The impact of a change of [mosquitto.conf]: "none" exactly when the
    bytes are the same; a restart exactly when some directive whose values differ
    is unknown to the catalog or not reloadable; "reload" otherwise. *)
Theorem brokerConfigImpact_spec cat path before after :
  let old := directive_values path before in
  let next := directive_values path after in
  let restarts := ∃ key, old !! key ≠ next !! key
    ∧ ∀ spec, Lookup cat key = Some spec → sp_reload_kind spec = Restart ∨ sp_reload_kind spec = ReloadOrRestart in
  (before = after → brokerConfigImpact cat path before after = ("none", false))
  ∧ (before ≠ after → restarts → brokerConfigImpact cat path before after = (Restart, true))
  ∧ (before ≠ after → ¬ restarts → brokerConfigImpact cat path before after = (ReloadOK, false)).
Proof.
  cbv zeta. set (old := directive_values path before). set (next := directive_values path after).
  assert (existsb (needs_restart cat old next) (elements (dom old ∪ dom next)) = true ↔ ∃ key, old !! key ≠ next !! key
    ∧ ∀ spec, Lookup cat key = Some spec → sp_reload_kind spec = Restart ∨ sp_reload_kind spec = ReloadOrRestart) as He.
  { rewrite existsb_exists. split.
    - intros (key & _ & H%needs_restart_spec). eauto.
    - intros (key & Hkey). exists key. split; [|by apply needs_restart_spec]. apply list_elem_of_In, elem_of_elements, elem_of_union.
      rewrite !elem_of_dom. destruct Hkey as [Hne _]. destruct (old !! key), (next !! key); naive_solver. }
  unfold brokerConfigImpact. fold old next. split; [intros ->; by rewrite decide_True|].
  split; intros Hne; rewrite decide_False by done; cbv zeta; fold old next; intros H.
  - apply He in H. by rewrite H.
  - destruct (existsb _ _); [|done]. destruct H. by apply He.
Qed.
