(* ===== verification/BrokerProofs.v ===== *)
(** * The contract of the deploy of [mosquitto.conf]

    What an apply leaves on disk, in what the broker has loaded and in what it
    was started with, for every state of the store, every sequence of faults
    and every answer of the verifier. *)
From S2P Require Import Prelude IO Unicode GoStrings GoStrconv GoTime GoPath Sha256 Passwd Acl Catalog Conf Include Settings Store BrokerStore Probe Applier.
From S2P Require Import DeployRender Deploy DeployFrame DeployPlan DeployProofs BrokerConfig.

(** ** What the steps leave alone *)

(** Files and broker as before, at most verdicts used up. *)
Record calm (w w' : bworld) : Prop := {
  ca_fs : same_fs (bw_fs w) (bw_fs w');
  ca_started : bw_started w' = bw_started w;
  ca_verdicts : w_verdicts (bw_world w') `suffix_of` w_verdicts (bw_world w)
}.
#[export] Instance calm_preorder : PreOrder calm.
Proof.
  split.
  - intros w. constructor; [apply same_fs_refl|done|done].
  - intros a b c [] []. constructor; [by eapply same_fs_trans|congruence|by etrans].
Qed.

(** Quiet computations of the ACL deploy that use up verdicts. *)
Definition uses_verdicts (w w' : world) : Prop := same_broker w w' ∧ w_verdicts w' `suffix_of` w_verdicts w.
#[export] Instance uses_verdicts_preorder : PreOrder uses_verdicts.
Proof. split; [intros w; split; [apply same_fs_refl|done]|]. intros a b c [] []. split; [by eapply same_fs_trans|by etrans]. Qed.

Lemma on_world_calm {A} (m : deploy A) : moves uses_verdicts m → moves calm (on_world m).
Proof. intros H w. destruct (H (bw_world w)) as [H1 H2]. constructor; [exact H1|done|exact H2]. Qed.
Lemma on_tables_calm {A} what (m : io (tables message) bstore_error A) : moves calm (on_tables what m).
Proof. intros w. constructor; [apply same_fs_refl|done|done]. Qed.
Lemma zoom_tables_calm {E E' A} (f : E → E') (m : io (tables message) E A) : moves calm (zoom tables_of set_tables f m).
Proof. intros w. constructor; [apply same_fs_refl|done|done]. Qed.
Lemma zoom_world_calm {E E' A} (f : E → E') (m : io world E A) : moves uses_verdicts m → moves calm (zoom bw_world set_world f m).
Proof. intros H w. destruct (H (bw_world w)) as [H1 H2]. constructor; [exact H1|done|exact H2]. Qed.
Lemma on_files_calm {E A} (m : io fs E A) : moves same_fs m → moves calm (on_files m).
Proof. intros H w. constructor; [apply H|done|done]. Qed.
Lemma on_db_verdicts {A} what (m : io (db message) store_error A) : moves uses_verdicts (on_db what m).
Proof. intros w. split; [apply same_fs_refl|done]. Qed.
Lemma raw_db_verdicts {A} (m : io (db message) store_error A) : moves uses_verdicts (raw_db m).
Proof. intros w. split; [apply same_fs_refl|done]. Qed.
Lemma audit_verdicts actor action id r : moves uses_verdicts (emitAudit actor action id r).
Proof. intros w. split; [apply same_fs_refl|done]. Qed.
Lemma next_verdict_verdicts : moves uses_verdicts next_verdict.
Proof.
  intros w. unfold next_verdict. destruct (w_verdicts w) as [|v rest] eqn:E; cbn; (split; [apply same_fs_refl|]); [done|].
  cbn. rewrite E. by exists [v].
Qed.
Lemma on_fs_verdicts {A} f (m : io fs cause A) : moves same_fs m → moves uses_verdicts (on_fs f m).
Proof. intros H w. split; [apply H|done]. Qed.
Lemma random_verdicts : moves uses_verdicts random_bytes.
Proof. intros w. unfold random_bytes. destruct (w_random w); cbn; (split; [apply same_fs_refl|done]). Qed.
#[export] Hint Resolve on_world_calm on_tables_calm zoom_tables_calm zoom_world_calm on_files_calm on_db_verdicts raw_db_verdicts
  audit_verdicts next_verdict_verdicts on_fs_verdicts random_verdicts : mcm.
Lemma readFile_verdicts path : moves uses_verdicts (readFile path).
Proof. unfold readFile, read_file. apply on_fs_verdicts. repeat moves_step. Qed.
Lemma verify_loop_verdicts n a k : moves uses_verdicts (verify_loop n a k).
Proof. revert a. induction n as [|n IH]; intros a; cbn [verify_loop]; repeat moves_step. Qed.
#[export] Hint Resolve readFile_verdicts verify_loop_verdicts : mcm.
Lemma runVerifier_verdicts cfg acl passwd : moves uses_verdicts (runVerifier cfg acl passwd).
Proof. unfold runVerifier. repeat moves_step. Qed.
Lemma update_verdicts id status msg : moves uses_verdicts (updateDeploymentStatus id status msg).
Proof. apply raw_db_verdicts. Qed.
Lemma getDeployment_verdicts id : moves uses_verdicts (getDeployment id).
Proof. apply raw_db_verdicts. Qed.
Lemma audit_record_verdicts actor action d o : moves uses_verdicts (audit_record actor action d o).
Proof. apply audit_verdicts. Qed.
#[export] Hint Resolve runVerifier_verdicts update_verdicts getDeployment_verdicts audit_record_verdicts : mcm.

Section calm_steps.
Context (c : bconfig).
Lemma read_conf_calm : moves calm (read_conf c).
Proof. unfold read_conf. apply moves_wrap, on_files_calm. unfold read_existing. repeat moves_step. Qed.
Lemma stat_calm path : moves calm (on_files (stat_file path)).
Proof. apply on_files_calm. unfold stat_file. repeat moves_step. Qed.
Lemma resolve_calm f : moves calm (resolve_includes c f).
Proof. unfold resolve_includes. repeat moves_step. Qed.
Hint Resolve read_conf_calm resolve_calm : mcm.
Lemma prerequisites_calm : moves calm (verificationPrerequisites c).
Proof. unfold verificationPrerequisites, readable. repeat moves_step. Qed.
Hint Resolve prerequisites_calm : mcm.
Lemma check_revision_calm id kind : moves calm (check_revision c id kind).
Proof. unfold check_revision, broker_fail, broker_clock. repeat moves_step. Qed.
Lemma check_body_calm cat kind force rev current : moves calm (check_body c cat kind force rev current).
Proof. unfold check_body, parse_conf, checkBrokerConfigIncludes, verificationAvailable, broker_fail. repeat moves_step. Qed.
Lemma adopt_calm actor adopt rev : moves calm (adopt_or_check c actor adopt rev).
Proof. unfold adopt_or_check. repeat moves_step. Qed.
Lemma record_calm actor id kind reload rev : moves calm (record_deployment actor id kind reload rev).
Proof. unfold record_deployment, audit_deployment, on_store, set_deployment_status. repeat moves_step. Qed.
Lemma consume_calm d id : moves calm (consume_or_fail d id).
Proof. unfold consume_or_fail, broker_clock, consumeBrokerConfigRevision, set_deployment_status. repeat moves_step. Qed.
End calm_steps.
#[export] Hint Resolve read_conf_calm stat_calm resolve_calm prerequisites_calm check_revision_calm check_body_calm adopt_calm record_calm consume_calm : mcm.

(** ** Where the broker stands *)

(** The files, what the broker has loaded, what it was started with, and that
    the verdicts to come are among [V]. *)
Record stands (m l st : gmap string string) (V : list verdict) (w : bworld) : Prop := {
  sd_files : fs_files (bw_fs w) = m;
  sd_loaded : fs_loaded (bw_fs w) = l;
  sd_started : bw_started w = st;
  sd_verdicts : w_verdicts (bw_world w) `suffix_of` V
}.
Lemma stands_here w : stands (fs_files (bw_fs w)) (fs_loaded (bw_fs w)) (bw_started w) (w_verdicts (bw_world w)) w.
Proof. by constructor. Qed.
Lemma calm_stands m l st V w w' : calm w w' → stands m l st V w → stands m l st V w'.
Proof.
  intros [Hf Hs Hv] [<- <- <- H]. unfold same_fs in Hf. constructor; [by rewrite Hf..|done|by etrans].
Qed.

Lemma wp_calm {E A} (m : io bworld E A) ml l st V (Q : bworld → result E A → Prop) w :
  moves calm m → stands ml l st V w → (∀ w' r, stands ml l st V w' → Q w' r) → wp m Q w.
Proof. intros Hm Hs HQ. eapply wp_moves; [exact Hm|]. intros w' r H. apply HQ. by eapply calm_stands. Qed.

Section activation.
Context (c : bconfig).
Local Abbreviation confPath := (cf_conf (bc_deploy c)).

Lemma wp_write_conf body m l st V (Q : bworld → result cause unit → Prop) w :
  stands m l st V w → (∀ w', stands (<[confPath := body]> m) l st V w' → Q w' (Ok tt)) → (∀ w' e, stands m l st V w' → Q w' (Err e)) →
  wp (write_conf c body) Q w.
Proof.
  intros [Hm Hl Hst HV] HO HE. unfold write_conf, on_files, AtomicWriteConf. apply wp_zoom.
  eapply (wp_atomicWrite _ _ m l); [done|..].
  - intros s' e [H1 H2]. apply HE. by constructor.
  - intros s' [H1 H2]. apply HO. by constructor.
Qed.

(** A reload and a restart either load all that is on disk, or change nothing. *)
Definition loads (m : io fs apply_error unit) : Prop := ∀ s,
  wp m (λ s' r, fs_files s' = fs_files s ∧ fs_loaded s' = match r with Ok _ => fs_files s | Err _ => fs_loaded s end) s.

Lemma loads_command f : loads (wrap f (syscall RunCommand ;; load)).
Proof. intros s. apply wp_wrap, wp_bind, wp_syscall; intros g; done. Qed.
Lemma loads_fail e : loads (fail e).
Proof. by intros s. Qed.
Lemma loads_reload f : loads (FileReloadBrokerOnly f).
Proof.
  unfold FileReloadBrokerOnly. destruct (decide _); [apply loads_fail|]. intros s. apply wp_wrap. unfold reloadBroker.
  destruct (fa_command f); [|apply wp_bind, wp_syscall; intros g; done]. destruct (decide _); [done|]. unfold signalReload.
  apply wp_bind, wp_syscall; intros g; [|done]. apply wp_bind. unfold get, wp at 1. cbn [fst snd].
  destruct (fs_files _ !! _); [|done]. destruct (atoi _); [|done]. apply wp_bind, wp_syscall; intros g'; done.
Qed.
Lemma loads_reload_applier : loads (reload_applier c).
Proof.
  unfold reload_applier. destruct (cf_applier _); [apply loads_reload|]. unfold DockerReloadBrokerOnly.
  destruct (decide _); [apply loads_fail|apply loads_command].
Qed.
Lemma loads_restart_applier : loads (restart_applier c).
Proof.
  unfold restart_applier. destruct (cf_applier _) as [f|d].
  - unfold RestartBroker. destruct (fa_command f); [apply loads_fail|apply loads_command].
  - unfold DockerRestartBroker. destruct (decide _); [apply loads_fail|apply loads_command].
Qed.

(** Only a file applier without a command is not able to restart. *)
Lemma restart_supported s : canRestartBroker c = match (restart_applier c s).2 with Ok _ => true | Err ErrRestartNotSupported => false | Err _ => canRestartBroker c end.
Proof.
  unfold canRestartBroker, restart_applier. destruct (cf_applier _) as [f|d].
  - unfold CanRestart, RestartBroker. destruct (fa_command f); [done|]. unfold wrap, reloadViaCommand, mbind, io_bind. by destruct (syscall _ _) as [? [|]].
  - unfold DockerCanRestart, DockerRestartBroker. destruct (decide (dk_container d = "")) as [E|E]; [done|].
    rewrite bool_decide_false by done. unfold wrap, mbind, io_bind. by destruct (syscall _ _) as [? [|]].
Qed.

Lemma wp_signal restart m l st V (Q : bworld → result apply_error bool → Prop) w :
  let restarts := restart && canRestartBroker c in
  stands m l st V w →
  (∀ w', stands m m (if restarts then m else st) V w' → Q w' (Ok restarts)) →
  (∀ w' e, stands m l st V w' → Q w' (Err e)) →
  wp (signal_broker c restart) Q w.
Proof.
  cbv zeta. intros Hs HO HE. unfold signal_broker.
  assert (∀ w, restart && canRestartBroker c = false → stands m l st V w → wp (reloadBrokerOnly c ;; mret false) Q w) as Hreload.
  { intros w1 Hr [Hm Hl Hst HV]. apply wp_bind. unfold reloadBrokerOnly, on_files. apply wp_zoom. eapply wp_mono; [apply loads_reload_applier|].
    rewrite Hr in HO. intros s' [u|e] [H1 H2]; [apply wp_ret, HO|apply HE]; constructor; unfold bw_fs in *; cbn; congruence. }
  apply wp_bind. destruct restart; [|by apply wp_ret, Hreload]. cbn [andb] in *. unfold restartBroker.
  apply wp_bind, wp_attempt. unfold on_files. apply wp_zoom. pose proof (restart_supported (bw_fs w)) as Hcan.
  pose proof (loads_restart_applier (bw_fs w)) as Hl. unfold wp in Hl |- *. destruct (restart_applier c (bw_fs w)) as [s' r]. cbn [fst snd] in *.
  destruct Hl as [H1 H2], Hs as [Hm Hl Hst HV].
  destruct r as [u|e].
  - rewrite Hcan in HO.
    assert (stands m m m V (set_started (fs_files s') (set_bw_fs s' w))) as Hs' by (constructor; unfold bw_fs in *; cbn; congruence).
    by apply HO.
  - assert (stands m l st V (set_bw_fs s' w)) as Hs' by (constructor; unfold bw_fs in *; cbn; congruence).
    destruct e; try (by apply HE). apply (Hreload _ Hcan Hs').
Qed.

Lemma verify_loop_verdict V n a k x : w_verdicts x `suffix_of` V →
  wp (verify_loop n a k) (λ _ r, match r with Ok (None, _) => ∃ v, v ∈ V ∧ vd_ok v = true | Ok _ => True | Err _ => False end) x.
Proof.
  revert a x. induction n as [|n IH]; intros a x Hx; cbn [verify_loop]; apply wp_bind; unfold next_verdict, wp at 1;
    destruct (w_verdicts x) as [|v rest] eqn:E; cbn [fst snd vd_ok]; try done.
  - destruct (vd_ok v) eqn:Ev; [|done]. exists v. split; [|done]. destruct Hx as [p ->]. set_solver.
  - apply IH. by rewrite E.
  - destruct (vd_ok v) eqn:Ev; [exists v; split; [|done]; destruct Hx as [p ->]; set_solver|]. destruct (vd_done v); [done|].
    apply IH. cbn. destruct Hx as [p ->]. exists (p ++ [v]). by rewrite <-app_assoc.
Qed.

Lemma prerequisites_answer w : is_ok (verificationPrerequisites c w).2 = true.
Proof.
  unfold verificationPrerequisites, readable, attempt, mbind, io_bind. destruct (negb _); [done|]. cbn [fst snd].
  destruct (on_world (readFile (cf_acl _)) w) as [w1 [acl|e]]; cbn [fst snd]; [|done].
  destruct (on_world (readFile (cf_passwd _)) w1) as [w2 [passwd|e]]; cbn [fst snd]; [|done]. by destruct (pickVerificationProbe _ _ _ _ _).
Qed.

Lemma wp_verify m l st V (Q : bworld → result broker_error activation → Prop) w :
  stands m l st V w →
  (∀ w' a, stands m l st V w' → (a = AccessVerified → ∃ v, v ∈ V ∧ vd_ok v = true) → Q w' (Ok a)) → wp (verifyActivation c) Q w.
Proof.
  intros Hs HO. unfold verifyActivation. apply wp_bind. pose proof (prerequisites_answer w) as Hok. pose proof (prerequisites_calm c w) as Hc.
  apply (calm_stands m l st V) in Hc; [|done]. unfold wp at 1. destruct (verificationPrerequisites c w) as [w1 [[[acl passwd]|u]|e]]; cbn [fst snd] in *;
    [|by apply wp_ret, HO|done].
  apply wp_bind. unfold on_world. apply wp_zoom. pose proof (runVerifier_verdicts (bc_deploy c) acl passwd (bw_world w1)) as Hq.
  assert (wp (runVerifier (bc_deploy c) acl passwd) (λ _ r, match r with Ok (None, _, _) => ∃ v, v ∈ V ∧ vd_ok v = true | Ok _ => True | Err _ => False end)
    (bw_world w1)) as Hr.
  { unfold runVerifier. destruct (pickVerificationProbe _ _ _ _ _) as [probe|]; [|done]. apply wp_bind.
    eapply wp_mono; [apply verify_loop_verdict, Hc|]. intros x' [[[r|] n]|e]; done. }
  unfold wp in *. destruct (runVerifier _ _ _ _) as [x' r]. cbn [fst snd] in *.
  assert (stands m l st V (set_world x' w1)) as H2.
  { eapply calm_stands; [|exact Hc]. destruct Hq as [Hq1 Hq2]. by constructor. }
  destruct r as [[[o n] k]|e]; [|done]. apply HO; [done|]. destruct o as [v|]; [by destruct (no_probe_message v)|by intros _].
Qed.
End activation.

(** ** Bookkeeping *)

(** The error says that the record of the deployment could not be kept. *)
Definition bookkeeping (e : broker_error) : bool :=
  match e with DeployError (StoreError _ _) | StateIndeterminate _ => true | _ => false end.

Section outcome.
Context (c : bconfig) (m0 l0 st0 : gmap string string) (V : list verdict) (before after : string).
Local Abbreviation confPath := (cf_conf (bc_deploy c)).
Hypothesis Hbefore : m0 !! confPath = Some before.
Local Abbreviation m1 := (<[confPath := after]> m0).

Lemma wp_status id status msg m l st (Q : bworld → result store_error unit → Prop) w :
  stands m l st V w → (∀ w', stands m l st V w' → has_status id status (bw_world w') → Q w' (Ok tt)) → (∀ w' e, stands m l st V w' → Q w' (Err e)) →
  wp (set_deployment_status id status msg) Q w.
Proof.
  intros Hs HO HE. unfold set_deployment_status. apply wp_zoom.
  pose proof (wp_update id status msg (λ w' r, match r with Ok _ => has_status id status w' | Err _ => True end) (bw_world w)
    ltac:(done) ltac:(done)) as Hu.
  assert (calm w (set_world (updateDeploymentStatus id status msg (bw_world w)).1 w)) as Hc by (constructor; [apply same_fs_refl|done|done]).
  unfold wp in *. destruct (updateDeploymentStatus _ _ _ _) as [x r]. cbn [fst snd] in *.
  destruct r as [[]|e]; [apply HO; [by eapply calm_stands|done]|apply HE; by eapply calm_stands].
Qed.

Lemma wp_read_deployment id status m l st (Q : bworld → result broker_error (Deployment message) → Prop) w :
  stands m l st V w → has_status id status (bw_world w) →
  (∀ w' d, stands m l st V w' → dp_status d = status → Q w' (Ok d)) → (∀ w' e, stands m l st V w' → bookkeeping e = true → Q w' (Err e)) →
  wp (get_deployment id) Q w.
Proof.
  intros Hs Hst HO HE. unfold get_deployment, on_store. apply wp_wrap, wp_zoom.
  pose proof (wp_get id status (λ w' r, match r with Ok d => dp_status d = status | Err _ => True end) (bw_world w) Hst
    ltac:(done) ltac:(done)) as Hu.
  assert (calm w (set_world (getDeployment id (bw_world w)).1 w)) as Hc by (constructor; [apply same_fs_refl|done|done]).
  unfold wp in *. destruct (getDeployment _ _) as [x r]. cbn [fst snd] in *.
  destruct r as [d|e]; [apply HO; [by eapply calm_stands|done]|apply HE; [by eapply calm_stands|done]].
Qed.

Lemma wp_finish actor status d msg m l st (Q : bworld → result broker_error (Deployment message) → Prop) w :
  stands m l st V w →
  (∀ w' d', stands m l st V w' → dp_status d' = status → Q w' (Ok d')) → (∀ w' e, stands m l st V w' → bookkeeping e = true → Q w' (Err e)) →
  wp (finish actor status d msg) Q w.
Proof.
  intros Hs HO HE. unfold finish, on_store at 1. apply wp_bind, wp_wrap. eapply wp_status; [done| |intros w1 e H1; by apply HE].
  intros w1 H1 Hst. apply wp_bind. unfold audit_deployment, on_world. apply wp_zoom, wp_audit. intros a.
  eapply wp_read_deployment; [destruct H1; by constructor|exact Hst|done|done].
Qed.

(** The outcomes of an apply once the file was written. *)
Definition one_of_both (w' : bworld) : Prop := fs_files (bw_fs w') = m0 ∨ fs_files (bw_fs w') = m1.
Inductive ended (kind : string) (needsRestart : bool) (w' : bworld) : result broker_error (Deployment message) → Prop :=
  | ended_active d : dp_status d = "active_verified" →
      stands m1 m1 (if needsRestart then m1 else st0) V w' → (kind = kind_broker_config → ∃ v, v ∈ V ∧ vd_ok v = true) →
      ended kind needsRestart w' (Ok d)
  | ended_pending d : dp_status d = "pending_activation" →
      stands m1 m1 (if needsRestart && canRestartBroker c then m1 else st0) V w' → ended kind needsRestart w' (Ok d)
  | ended_rolled_back d : dp_status d = "rolled_back" →
      stands m0 m0 (if canRestartBroker c then m0 else st0) V w' → ended kind needsRestart w' (Ok d)
  | ended_rollback_failed d : dp_status d = "rollback_failed" → one_of_both w' → ended kind needsRestart w' (Ok d)
  | ended_lost e : bookkeeping e = true → one_of_both w' → ended kind needsRestart w' (Err e).

Lemma restored_files : <[confPath := before]> m1 = m0.
Proof. rewrite insert_insert_eq. by apply insert_id. Qed.
Lemma stands_both m l st w' : m = m0 ∨ m = m1 → stands m l st V w' → one_of_both w'.
Proof. intros H []. unfold one_of_both. naive_solver. Qed.

(** The bookkeeping after the restore. *)
Lemma wp_recovered actor kind needsRestart d restored m l st w :
  stands m l st V w → (m = m0 ∨ m = m1) →
  (restored ≠ None → m = m0 ∧ l = m0 ∧ st = if canRestartBroker c then m0 else st0) →
  wp (record_recovery actor d restored) (ended kind needsRestart) w.
Proof.
  intros Hs Hm Hr. unfold record_recovery. cbv zeta. apply wp_bind, wp_wrap. eapply wp_status; [done| |].
  2: { intros w1 e H1. apply ended_lost; [done|]. by eapply stands_both. }
  intros w1 H1 Hst. apply wp_bind. unfold audit_deployment, on_world. apply wp_zoom, wp_audit. intros a.
  eapply wp_read_deployment; [destruct H1; by constructor|exact Hst| |].
  - intros w2 d' H2 Hd'. destruct restored as [t|].
    + apply ended_rolled_back; [done|]. by destruct Hr as (-> & -> & ->).
    + apply ended_rollback_failed; [done|]. by eapply stands_both.
  - intros w2 e H2 He. apply ended_lost; [done|]. by eapply stands_both.
Qed.

Lemma wp_recover actor kind needsRestart d l st w :
  stands m1 l st V w → (canRestartBroker c = false → st = st0) →
  wp (recoverBrokerConfig c actor d before needsRestart) (ended kind needsRestart) w.
Proof.
  intros Hs Hst. unfold recoverBrokerConfig. apply wp_bind. unfold restore_broker. apply wp_bind, wp_attempt.
  eapply wp_write_conf; [exact Hs| |intros w1 e H1; apply wp_ret; eapply wp_recovered; [exact H1|by right|done]]. intros w1 H1. rewrite restored_files in H1.
  apply wp_bind, wp_attempt. eapply wp_signal; [exact H1| |].
  - intros w2 H2. cbn [andb] in H2. destruct needsRestart.
    + apply wp_ret. eapply wp_recovered; [exact H2|by left|]. intros _. split; [done|]. split; [done|].
      destruct (canRestartBroker c); [done|by apply Hst].
    + apply wp_bind. eapply wp_verify; [exact H2|]. intros w3 a H3 _. apply wp_ret. eapply wp_recovered; [exact H3|by left|].
      intros _. split; [done|]. split; [done|]. destruct (canRestartBroker c); [done|by apply Hst].
  - intros w2 e H2. apply wp_ret. eapply wp_recovered; [exact H2|by left|done].
Qed.

(** Refused before the file was written, or ended. *)
Definition resolved (kind : string) (needsRestart : bool) (w' : bworld) (r : result broker_error (Deployment message)) : Prop :=
  stands m0 l0 st0 V w' ∧ (∃ e, r = Err e) ∨ ended kind needsRestart w' r.

Lemma wp_activate_broker actor d kind requiresRestart w :
  stands m0 l0 st0 V w →
  wp (activateBrokerConfig c actor d before after kind requiresRestart) (resolved kind (requiresRestart || kindNeedsRestart kind)) w.
Proof.
  intros Hs. assert (∀ w' e, stands m0 l0 st0 V w' → resolved kind (requiresRestart || kindNeedsRestart kind) w' (Err e)) as Hrefused
    by (intros w' e H; left; eauto).
  unfold activateBrokerConfig. apply wp_bind, wp_wrap. eapply wp_calm; [apply stat_calm|exact Hs|]. intros w1 [u|e] H1; [|by apply Hrefused].
  apply wp_bind, wp_attempt. eapply wp_write_conf; [exact H1| |].
  2: { intros w2 e H2. apply wp_bind, wp_attempt. eapply wp_calm; [unfold set_deployment_status; auto with mcm|exact H2|]. intros w3 r H3. by apply Hrefused. }
  intros w2 H2. cbv zeta. generalize (requiresRestart || kindNeedsRestart kind). intros needs.
  assert (∀ m w', wp m (ended kind needs) w' → wp m (resolved kind needs) w') as Hended.
  { intros m w' H. eapply wp_mono; [exact H|]. intros. by right. }
  set (st := if needs && canRestartBroker c then m1 else st0).
  assert (∀ status msg w, (∀ w' d', dp_status d' = status → stands m1 m1 st V w' → ended kind needs w' (Ok d')) → stands m1 m1 st V w →
    wp (finish actor status d msg) (resolved kind needs) w) as Hfinish.
  { intros status msg w3 Hok H3. apply Hended. eapply wp_finish; [exact H3|by intros; apply Hok|].
    intros w4 e H4 He. apply ended_lost; [done|]. eapply stands_both; [|exact H4]. by right. }
  assert (canRestartBroker c = false → st = st0) as Hst by (intros E; unfold st; rewrite E; by destruct needs).
  apply wp_bind, wp_attempt. eapply wp_signal; [exact H2| |].
  2: { intros w3 e H3. apply Hended. eapply wp_recover; [exact H3|done]. }
  intros w3 H3. fold st in H3. destruct (needs && negb (needs && canRestartBroker c)) eqn:Hpend.
  { apply Hfinish; [|exact H3]. intros w' d' Hd H. by apply ended_pending. }
  assert (st = if needs then m1 else st0) as Hactive by (unfold st; by destruct needs, (canRestartBroker c)).
  destruct (decide _) as [Hk|Hk].
  { apply Hfinish; [|exact H3]. intros w' d' Hd H. rewrite Hactive in H. by apply ended_active. }
  apply wp_bind. eapply wp_verify; [exact H3|]. intros w4 a H4 Ha. destruct a as [un|vm|].
  - apply Hfinish; [|exact H4]. intros w' d' Hd H. by apply ended_pending.
  - apply Hended. eapply wp_recover; [exact H4|done].
  - apply Hfinish; [|exact H4]. intros w' d' Hd H. rewrite Hactive in H. apply ended_active; [done|done|]. intros _. by apply Ha.
Qed.
End outcome.

(** ** The gate *)

(** Reading: calm, the tables of the broker configuration and the deployments as
    they are, and the clock does not go back. *)
Record peeks (w w' : bworld) : Prop := {
  pk_calm : calm w w';
  pk_revisions : bw_revisions w' = bw_revisions w;
  pk_adoptions : bw_adoptions w' = bw_adoptions w;
  pk_deployments : db_deployments (w_db (bw_world w')) = db_deployments (w_db (bw_world w));
  pk_clock : (db_now (w_db (bw_world w)) ≤ db_now (w_db (bw_world w')))%Z
}.
#[export] Instance peeks_preorder : PreOrder peeks.
Proof.
  split.
  - intros w. by constructor.
  - intros a b c [] []. constructor; [by etrans|congruence..|lia].
Qed.
Lemma peeks_tables {E E' A} (f : E → E') (m : io (tables message) E A) :
  (∀ s, tb_revisions (m s).1 = tb_revisions s ∧ tb_adoptions (m s).1 = tb_adoptions s ∧ db_deployments (tb_db (m s).1) = db_deployments (tb_db s)
     ∧ (db_now (tb_db s) ≤ db_now (tb_db (m s).1))%Z) →
  moves peeks (zoom tables_of set_tables f m).
Proof. intros H w. destruct (H (tables_of w)) as (H1 & H2 & H3 & H4). constructor; [apply zoom_tables_calm|done..]. Qed.
Lemma peeks_select {E'} {A} (f : bstore_error → E') (g : tables message → A) : moves peeks (zoom tables_of set_tables f (broker_select g)).
Proof. apply peeks_tables. intros s. unfold broker_select, broker_statement. destruct (db_faults _) as [|[] rest]; cbn; repeat split; lia. Qed.
Lemma peeks_clock : moves peeks broker_clock.
Proof. apply peeks_tables. intros s. unfold broker_now, zoom, now. destruct (db_ticks _); cbn; repeat split; lia. Qed.
Lemma peeks_get_revision {E'} (f : bstore_error → E') id : moves peeks (zoom tables_of set_tables f (GetBrokerConfigRevision id)).
Proof.
  apply peeks_tables. intros s. unfold GetBrokerConfigRevision, broker_select, broker_statement, mbind, io_bind.
  destruct (db_faults _) as [|[] rest]; cbn; [|repeat split; lia|]; destruct (tb_revisions s !! id); cbn; repeat split; lia.
Qed.
Lemma peeks_latest {E'} (f : bstore_error → E') path : moves peeks (zoom tables_of set_tables f (LatestBrokerConfigAdoption path)).
Proof. apply peeks_select. Qed.
Lemma peeks_files {E A} (m : io fs E A) : moves same_fs m → moves peeks (on_files m).
Proof. intros H w. constructor; [by apply on_files_calm|done|done|done|]. done. Qed.
Lemma peeks_readFile path : moves peeks (on_world (readFile path)).
Proof. intros w. constructor; [apply on_world_calm, readFile_verdicts|done|done|done|done]. Qed.
#[export] Hint Resolve peeks_clock peeks_get_revision peeks_latest peeks_files peeks_readFile : mcm.
Section peeks.
Context (c : bconfig).
Lemma read_conf_peeks : moves peeks (read_conf c).
Proof. unfold read_conf. apply moves_wrap, peeks_files. unfold read_existing. repeat moves_step. Qed.
Lemma resolve_peeks f : moves peeks (resolve_includes c f).
Proof. unfold resolve_includes. repeat moves_step. Qed.
Hint Resolve read_conf_peeks resolve_peeks : mcm.
Lemma prerequisites_peeks : moves peeks (verificationPrerequisites c).
Proof. unfold verificationPrerequisites, readable. repeat moves_step. Qed.
Hint Resolve prerequisites_peeks : mcm.
Lemma check_revision_peeks id kind : moves peeks (check_revision c id kind).
Proof. unfold check_revision, broker_fail. repeat moves_step. Qed.
Lemma check_body_peeks cat kind force rev current : moves peeks (check_body c cat kind force rev current).
Proof. unfold check_body, parse_conf, checkBrokerConfigIncludes, verificationAvailable, broker_fail. repeat moves_step. Qed.
End peeks.
#[export] Hint Resolve read_conf_peeks resolve_peeks prerequisites_peeks check_revision_peeks check_body_peeks : mcm.

(** What an apply has checked before it writes. *)
Record accepted (c : bconfig) (cat : Catalog) (kind id : string) (force adopt : bool) (w : bworld) (rev : BrokerConfigRevision) (before : string) (parsed : File) : Prop := {
  ac_revision : bw_revisions w !! id = Some rev ∧ br_applied rev = None;
  ac_body : kind = kind_broker_config → br_base_path rev = cf_conf (bc_deploy c) ∧ contentHash (br_conf rev) = br_rendered_hash rev;
  ac_fresh : (db_now (w_db (bw_world w)) ≤ br_created rev + previewRevisionTTL)%Z;
  ac_base : fs_files (bw_fs w) !! cf_conf (bc_deploy c) = Some before ∧ contentHash before = br_base_hash rev;
  ac_parsed : Parse (br_conf rev) (cf_conf (bc_deploy c)) = Ok parsed;
  ac_clean : kind = kind_broker_config → hasInlineCredentials parsed = false ∧ Forall (λ i, blocking_issue i = false) (ValidateConf parsed cat);
  ac_includes : ∀ snapshot, br_includes rev = Some snapshot →
    ∃ f, Resolve (bc_view c (fs_files (bw_fs w))) (dir (cf_conf (bc_deploy c))) parsed = Ok (f, snapshot);
  ac_restart : (classify_revision c cat kind before rev parsed).2 = true → force = true ∧ (kind = kind_broker_config → canRestartBroker c = true);
  ac_verifier : kind = kind_broker_config → bc_verifier c = true;
  ac_adopted : adopt = true ∨ ∃ a, a ∈ bw_adoptions w ∧ ba_path a = cf_conf (bc_deploy c) ∧ (br_created rev ≤ ba_at a)%Z
}.

Lemma wp_peeks_with {E A} (m : io bworld E A) (P : result E A → Prop) (Q : bworld → result E A → Prop) w :
  moves peeks m → wp m (λ _ r, P r) w → (∀ w' r, peeks w w' → P r → Q w' r) → wp m Q w.
Proof. intros Hm Hp HQ. apply HQ; [apply Hm|exact Hp]. Qed.
Lemma peeks_files_same w w' : peeks w w' → fs_files (bw_fs w') = fs_files (bw_fs w).
Proof. intros [[Hf _ _] _ _ _ _]. unfold same_fs in Hf. by rewrite Hf. Qed.

Lemma get_revision_answer id s : match (GetBrokerConfigRevision (M := message) id s).2 with Ok rev => tb_revisions s !! id = Some rev | Err _ => True end.
Proof.
  unfold GetBrokerConfigRevision, broker_select, broker_statement, mbind, io_bind. destruct (db_faults _) as [|[] rest]; cbn; [|done|];
    by destruct (tb_revisions s !! id) eqn:E.
Qed.
Lemma wp_get_revision {E'} (f : bstore_error → E') id w :
  wp (zoom tables_of set_tables f (GetBrokerConfigRevision id)) (λ _ r, match r with Ok rev => bw_revisions w !! id = Some rev | Err _ => True end) w.
Proof. unfold wp, zoom. cbn [fst snd]. pose proof (get_revision_answer id (tables_of w)) as H. by destruct (GetBrokerConfigRevision id (tables_of w)).2. Qed.
Lemma latest_answer path s : match (LatestBrokerConfigAdoption (M := message) path s).2 with
  | Ok (Some a) => a ∈ tb_adoptions s ∧ ba_path a = path | _ => True end.
Proof.
  assert (∀ l, match head (sort_stable adopted_after (filter (λ a, ba_path a = path) l)) with Some a => a ∈ l ∧ ba_path a = path | None => True end) as H.
  { intros l. destruct (head _) as [a|] eqn:E; [|done].
    assert (a ∈ sort_stable adopted_after (filter (λ a, ba_path a = path) l)) as Ha by (destruct (sort_stable _ _); [done|]; injection E as <-; by left).
    rewrite elem_of_sort_stable in Ha. apply list_elem_of_filter in Ha. tauto. }
  unfold LatestBrokerConfigAdoption, broker_select, broker_statement. destruct (db_faults _) as [|[] rest]; cbn; [|done|]; apply H.
Qed.
Lemma clock_answer w : wp broker_clock (λ _ r, match r with Ok t => (db_now (w_db (bw_world w)) ≤ t)%Z | Err _ => True end) w.
Proof. unfold wp, broker_clock, on_tables, zoom, broker_now, now. cbn. destruct (db_ticks _); cbn; lia. Qed.
Lemma read_conf_answer c w :
  wp (read_conf c) (λ _ r, match r with Ok body => fs_files (bw_fs w) !! cf_conf (bc_deploy c) = Some body | Err _ => True end) w.
Proof.
  unfold wp at 1, read_conf, wrap, on_files, zoom. cbn. assert (∀ s, match (read_existing (cf_conf (bc_deploy c)) s).2 with
    | Ok body => fs_files s !! cf_conf (bc_deploy c) = Some body | Err _ => True end) as H.
  { intros s. change (wp (read_existing (cf_conf (bc_deploy c))) (λ _ r, match r with Ok body => fs_files s !! cf_conf (bc_deploy c) = Some body | Err _ => True end) s).
    unfold read_existing. apply wp_bind, wp_syscall; intros g; [|done]. apply wp_bind. unfold get, wp at 1. cbn. by destruct (fs_files s !! _) eqn:E. }
  specialize (H (bw_fs w)). by destruct (read_existing _ _) as [s [body|e]].
Qed.

Section gate.
Context (c : bconfig).
Local Abbreviation confPath := (cf_conf (bc_deploy c)).

Definition revision_checked (kind id : string) (w : bworld) (rev : BrokerConfigRevision) (before : string) : Prop :=
  (bw_revisions w !! id = Some rev ∧ br_applied rev = None)
  ∧ (kind = kind_broker_config → br_base_path rev = confPath ∧ contentHash (br_conf rev) = br_rendered_hash rev)
  ∧ (db_now (w_db (bw_world w)) ≤ br_created rev + previewRevisionTTL)%Z
  ∧ fs_files (bw_fs w) !! confPath = Some before ∧ contentHash before = br_base_hash rev.

Lemma wp_check_revision kind id w :
  wp (check_revision c id kind)
    (λ w' r, peeks w w' ∧ match r with Ok (rev, before) => revision_checked kind id w rev before | Err _ => True end) w.
Proof.
  eapply (wp_peeks_with _ (λ r, match r with Ok (rev, before) => revision_checked kind id w rev before | Err _ => True end)); [auto with mcm| |by intros; split].
  unfold check_revision. apply wp_bind, wp_attempt.
  eapply wp_peeks_with; [auto with mcm|apply (wp_get_revision (λ e, e) id)|]. cbv beta. intros w1 r H1 Hr. apply wp_bind.
  destruct r as [rev|[]]; try done. apply wp_ret. destruct (decide (_ ∧ _)) as [|Hk]; [done|]. destruct (decide (_ ≠ _)) as [|Happ]; [done|].
  apply wp_bind. eapply wp_peeks_with; [auto with mcm|apply clock_answer|]. intros w2 [t|e] H2 Ht; [|done]. destruct (decide (_ < _)%Z) as [|Hfresh]; [done|].
  apply wp_bind. eapply wp_peeks_with; [auto with mcm|apply read_conf_answer|]. intros w3 [body|e] H3 Hb; [|done]. destruct (decide (_ ≠ _)) as [|Hh]; [done|].
  apply wp_ret. apply dec_stable in Happ, Hh. rewrite (peeks_files_same w w2) in Hb by (by etrans). pose proof (pk_clock _ _ H1).
  split; [done|]. split; [|split; [lia|done]]. intros Hkind.
  destruct (decide (br_base_path rev = confPath)), (decide (contentHash (br_conf rev) = br_rendered_hash rev)); tauto.
Qed.

Definition body_checked (cat : Catalog) (kind : string) (force : bool) (rev : BrokerConfigRevision) (before : string) (files : gmap string string) (restart : bool) : Prop :=
  ∃ parsed, Parse (br_conf rev) confPath = Ok parsed
    ∧ (kind = kind_broker_config → hasInlineCredentials parsed = false ∧ Forall (λ i, blocking_issue i = false) (ValidateConf parsed cat))
    ∧ (∀ snapshot, br_includes rev = Some snapshot → ∃ f, Resolve (bc_view c files) (dir confPath) parsed = Ok (f, snapshot))
    ∧ restart = (classify_revision c cat kind before rev parsed).2
    ∧ (restart = true → force = true ∧ (kind = kind_broker_config → canRestartBroker c = true))
    ∧ (kind = kind_broker_config → bc_verifier c = true).

Lemma wp_includes parsed expected w :
  wp (checkBrokerConfigIncludes c parsed expected) (λ w' r, peeks w w' ∧ match r with
    | Ok _ => ∀ snapshot, expected = Some snapshot → ∃ f, Resolve (bc_view c (fs_files (bw_fs w))) (dir confPath) parsed = Ok (f, snapshot)
    | Err _ => True end) w.
Proof.
  unfold checkBrokerConfigIncludes. destruct expected as [expected|]; [|by apply wp_ret]. apply wp_bind. unfold resolve_includes.
  apply wp_bind. unfold get, wp at 1. cbn [fst snd]. apply wp_ret. destruct (Resolve _ _ _) as [[f actual]|e]; [|by apply wp_fail].
  destruct (decide _) as [->|]; [|by apply wp_fail]. apply wp_ret. split; [done|]. intros s [= ->]. eauto.
Qed.

Lemma not_existsb_Forall {A} (f : A → bool) l : existsb f l = false → Forall (λ x, f x = false) l.
Proof. induction l as [|x l IH]; cbn; [done|]. intros [? ?]%orb_false_iff. constructor; auto. Qed.

Lemma wp_check_body cat kind force rev before w :
  wp (check_body c cat kind force rev before) (λ w' r, peeks w w' ∧ match r with
    | Ok (_, restart) => body_checked cat kind force rev before (fs_files (bw_fs w)) restart | Err _ => True end) w.
Proof.
  eapply (wp_peeks_with _ (λ r, match r with Ok (_, restart) => body_checked cat kind force rev before (fs_files (bw_fs w)) restart | Err _ => True end));
    [auto with mcm| |by intros; split].
  unfold check_body, parse_conf. destruct (Parse _ _) as [parsed|] eqn:Ep; [|done]. apply wp_bind. eapply wp_mono; [apply wp_includes|].
  intros w1 [[]|e] [H1 Hi]; [|done]. apply wp_bind.
  assert (∀ restart, restart = (classify_revision c cat kind before rev parsed).2 → restart && negb force = false →
    (kind = kind_broker_config → hasInlineCredentials parsed = false ∧ existsb blocking_issue (ValidateConf parsed cat) = false
       ∧ restart && negb (canRestartBroker c) = false ∧ bc_verifier c = true) →
    body_checked cat kind force rev before (fs_files (bw_fs w)) restart) as Hok.
  { intros restart Er Ef Hbc. exists parsed. split_and!; try done.
    - intros Hk. destruct (Hbc Hk) as (? & ? & _). by split; [|apply not_existsb_Forall].
    - intros ->. split; [by destruct force|]. intros Hk. destruct (Hbc Hk) as (_ & _ & Hc & _). by destruct (canRestartBroker c).
    - intros Hk. by destruct (Hbc Hk) as (_ & _ & _ & ?). }
  destruct (decide (kind = kind_broker_config)) as [Hk|Hk].
  - destruct (hasInlineCredentials parsed) eqn:Ec; [done|]. destruct (existsb _ _) eqn:Ev; [done|]. apply wp_ret.
    destruct (classify_revision _ _ _ _ _ _) as [reload restart] eqn:Er. destruct (restart && negb force) eqn:Ef; [done|].
    destruct (restart && negb (canRestartBroker c)) eqn:Eca; [done|]. apply wp_bind. unfold verificationAvailable. apply wp_bind.
    assert (wp (verificationPrerequisites c) (λ _ r, match r with Ok (Ok _) => bc_verifier c = true | _ => True end) w1) as Hv.
    { unfold verificationPrerequisites. destruct (bc_verifier c); cbn [negb]; [|done]. unfold wp. by destruct (readable _ _ _ _) as [? [[|]|]]. }
    eapply wp_mono; [exact Hv|]. intros w2 [[pr|u]|e] Hpre; [|done|done]. apply wp_ret, wp_ret. by apply Hok.
  - apply wp_ret. destruct (classify_revision _ _ _ _ _ _) as [reload restart] eqn:Er. destruct (restart && negb force) eqn:Ef; [done|].
    apply wp_ret. by apply Hok.
Qed.

Lemma wp_adopt actor adopt rev w :
  wp (adopt_or_check c actor adopt rev) (λ w' r, calm w w' ∧ match r with
    | Ok _ => adopt = true ∨ ∃ a, a ∈ bw_adoptions w ∧ ba_path a = confPath ∧ (br_created rev ≤ ba_at a)%Z | Err _ => True end) w.
Proof.
  assert (∀ r', match r' with Ok _ => adopt = true ∨ ∃ a, a ∈ bw_adoptions w ∧ ba_path a = confPath ∧ (br_created rev ≤ ba_at a)%Z | Err _ => True end →
    r' = (adopt_or_check c actor adopt rev w).2 → wp (adopt_or_check c actor adopt rev) (λ w' r, calm w w' ∧ match r with
    | Ok _ => adopt = true ∨ ∃ a, a ∈ bw_adoptions w ∧ ba_path a = confPath ∧ (br_created rev ≤ ba_at a)%Z | Err _ => True end) w) as H.
  { intros r' Hr ->. split; [apply adopt_calm|exact Hr]. }
  eapply H; [|reflexivity]. clear H. unfold adopt_or_check. destruct adopt.
  - by destruct (_ w).2; [left|].
  - pose proof (latest_answer confPath (tables_of w)) as Hl. unfold mbind, io_bind, on_tables, zoom.
    destruct (LatestBrokerConfigAdoption confPath (tables_of w)) as [s [[a|]|e]]; cbn [fst snd] in *; [|done..].
    destruct (decide _) as [|Ht]; [done|]. cbn. right. exists a. destruct Hl. repeat split; [done|done|lia].
Qed.

(** A failure of this step leaves no adoption behind. *)
Lemma insert_adoption_failed path actor s : let '(t, r) := InsertBrokerConfigAdoption (M := message) path actor s in is_ok r = false →
  tb_revisions t = tb_revisions s ∧ tb_adoptions t = tb_adoptions s ∧ db_deployments (tb_db t) = db_deployments (tb_db s)
  ∧ (db_now (tb_db s) ≤ db_now (tb_db t))%Z.
Proof.
  unfold InsertBrokerConfigAdoption, mbind, io_bind, broker_now, zoom, now, broker_statement, insert_adoption.
  destruct (db_ticks _); cbn; destruct (db_faults _) as [|[] rest]; cbn; try done; intros _; split_and!; try done; lia.
Qed.
Lemma adopt_refused actor adopt rev w : let '(w', r) := adopt_or_check c actor adopt rev w in is_ok r = false → peeks w w'.
Proof.
  destruct adopt.
  - unfold adopt_or_check. pose proof (insert_adoption_failed confPath actor (tables_of w)) as H.
    unfold mbind, io_bind, mret, io_ret, on_tables, zoom. destruct (InsertBrokerConfigAdoption confPath actor (tables_of w)) as [t [a|e]]; [done|].
    intros Hr. destruct (H Hr) as (? & ? & ? & ?). constructor; [constructor; [apply same_fs_refl|done|done]|done..].
  - assert (moves peeks (adopt_or_check c actor false rev)) as Hm by (unfold adopt_or_check; repeat moves_step).
    specialize (Hm w). by destruct (adopt_or_check c actor false rev w).
Qed.
Lemma wp_adopt_or_refuse actor adopt rev w :
  wp (adopt_or_check c actor adopt rev) (λ w' r, calm w w' ∧ match r with
    | Ok _ => adopt = true ∨ ∃ a, a ∈ bw_adoptions w ∧ ba_path a = confPath ∧ (br_created rev ≤ ba_at a)%Z | Err _ => peeks w w' end) w.
Proof.
  pose proof (wp_adopt actor adopt rev w) as H. pose proof (adopt_refused actor adopt rev w) as Hr. unfold wp in *.
  destruct (adopt_or_check _ _ _ _ w) as [w' [u|e]]; [done|]. destruct H as [H _]. split; [done|]. by apply Hr.
Qed.
End gate.

(** Files and broker untouched. *)
Definition untouched (w w' : bworld) : Prop :=
  fs_files (bw_fs w') = fs_files (bw_fs w) ∧ fs_loaded (bw_fs w') = fs_loaded (bw_fs w) ∧ bw_started w' = bw_started w.
Lemma stands_untouched w w' V : stands (fs_files (bw_fs w)) (fs_loaded (bw_fs w)) (bw_started w) V w' → untouched w w'.
Proof. by intros [? ? ? _]. Qed.

(** Nothing is recorded: the revisions, the adoptions and the deployments are as
    before. *)
Definition unrecorded (w w' : bworld) : Prop :=
  bw_revisions w' = bw_revisions w ∧ bw_adoptions w' = bw_adoptions w
  ∧ db_deployments (w_db (bw_world w')) = db_deployments (w_db (bw_world w)).
Lemma peeks_unrecorded w w' : peeks w w' → unrecorded w w'.
Proof. by intros []. Qed.

(** How an apply of [mosquitto.conf] can end. *)
Definition broker_outcome (c : bconfig) (cat : Catalog) (kind id : string) (force adopt : bool) (w w' : bworld) (r : result broker_error (Deployment message)) : Prop :=
  (untouched w w' ∧ unrecorded w w') ∧ (∃ e, r = Err e)
  ∨ ∃ rev before parsed, accepted c cat kind id force adopt w rev before parsed
      ∧ (untouched w w' ∧ (∃ e, r = Err e)
         ∨ ended c (fs_files (bw_fs w)) (bw_started w) (w_verdicts (bw_world w)) (br_conf rev) kind
             ((classify_revision c cat kind before rev parsed).2 || kindNeedsRestart kind) w' r).

Lemma wp_apply_broker c cat actor kind id force adopt w :
  wp (apply_broker_locked c cat actor id force adopt kind) (broker_outcome c cat kind id force adopt w) w.
Proof.
  pose proof (stands_here w) as H0.
  assert (∀ w' e, peeks w w' → broker_outcome c cat kind id force adopt w w' (Err e)) as Hrefused.
  { intros w' e H. left. split; [split; [|by apply peeks_unrecorded]|eauto]. eapply stands_untouched, calm_stands; [apply H|done]. }
  unfold apply_broker_locked. apply wp_bind. eapply wp_mono; [apply wp_check_revision|].
  intros w1 r [Hp1 Hr]. pose proof (calm_stands _ _ _ _ _ _ (pk_calm _ _ Hp1) H0) as H1. destruct r as [[rev before]|e]; [|by apply Hrefused].
  destruct Hr as (Hrev & Hbody & Hfresh & Hbase & Hhash). apply wp_bind. eapply wp_mono; [apply wp_check_body|].
  intros w2 r [Hp2 Hr]. pose proof (calm_stands _ _ _ _ _ _ (pk_calm _ _ Hp2) H1) as H2. destruct r as [[reload restart]|e]; [|apply Hrefused; by etrans].
  rewrite (peeks_files_same _ _ Hp1) in Hr. apply wp_bind. eapply wp_mono; [apply wp_adopt_or_refuse|].
  intros w3 r [Hc3 Hr3]. pose proof (calm_stands _ _ _ _ _ _ Hc3 H2) as H3. destruct r as [[]|e]; [|apply Hrefused; etrans; [|exact Hr3]; by etrans].
  rewrite (pk_adoptions _ _ Hp2), (pk_adoptions _ _ Hp1) in Hr3. destruct Hr as (parsed & Hp & Hcl & Hi & -> & Hre & Hv).
  assert (accepted c cat kind id force adopt w rev before parsed) as Hacc by by constructor.
  assert (∀ w' e, stands (fs_files (bw_fs w)) (fs_loaded (bw_fs w)) (bw_started w) (w_verdicts (bw_world w)) w' → broker_outcome c cat kind id force adopt w w' (Err e)) as Hfailed.
  { intros w' e H. right. exists rev, before, parsed. split; [done|]. left. split; [by eapply stands_untouched|eauto]. }
  apply wp_bind. eapply wp_calm; [auto with mcm|exact H3|]. intros w4 [d|e] H4; [|by apply Hfailed].
  apply wp_bind. eapply wp_calm; [auto with mcm|exact H4|]. intros w5 [[]|e] H5; [|by apply Hfailed].
  eapply wp_mono; [by apply wp_activate_broker|]. intros w' r [[Hs [e ->]]|Hended]; [by apply Hfailed|]. right.
  exists rev, before, parsed. split; [done|]. by right.
Qed.

(** The lock is taken and released around an apply. *)
Lemma accepted_locked c cat kind id force adopt w rev before parsed b :
  accepted c cat kind id force adopt (lock_service b w) rev before parsed → accepted c cat kind id force adopt w rev before parsed.
Proof. intros []. by constructor. Qed.
Lemma ended_locked c l0 st0 V after kind needs b w r :
  ended c l0 st0 V after kind needs w r → ended c l0 st0 V after kind needs (lock_service b w) r.
Proof.
  intros [d Hd [] Hv|d Hd []|d Hd []|d Hd Hb|e He Hb].
  - apply ended_active; [done|by constructor|done].
  - apply ended_pending; [done|by constructor].
  - apply ended_rolled_back; [done|by constructor].
  - by apply ended_rollback_failed.
  - by apply ended_lost.
Qed.
Lemma applyBrokerConfigRevision_outcome c cat actor kind id force adopt w :
  let '(w', r) := applyBrokerConfigRevision c cat actor id force adopt kind w in broker_outcome c cat kind id force adopt w w' r.
Proof.
  unfold applyBrokerConfigRevision. destruct (w_locked _); [left; split; [done|eauto]|].
  pose proof (wp_apply_broker c cat actor kind id force adopt (lock_service true w)) as H. unfold wp in H.
  destruct (apply_broker_locked _ _ _ _ _ _ _ _) as [w' r]. cbn [fst snd] in *.
  destruct H as [H|(rev & before & parsed & Ha & Hend)]; [by left|right]. exists rev, before, parsed.
  split; [by eapply accepted_locked|]. destruct Hend as [Hend|Hend]; [by left|right]. by apply ended_locked.
Qed.

Lemma apply_surface_outcome c kind actor id force adopt w :
  let '(w', r) := apply_surface c kind actor id force adopt w in
  (untouched w w' ∧ unrecorded w w') ∧ (∃ e, r = Err e) ∨ ∃ cat, bc_catalog c = Some cat ∧ broker_outcome c cat kind id force adopt w w' r.
Proof.
  unfold apply_surface, enabled, with_store, broker_fail. destruct (bc_catalog c) as [cat|] eqn:Ec; [|left; split; [done|eauto]].
  destruct (decide _); [left; split; [done|eauto]|]. destruct (bc_store c); [|left; split; [done|eauto]].
  destruct (decide _); [left; split; [done|eauto]|].
  pose proof (applyBrokerConfigRevision_outcome c cat actor kind id force adopt w) as H.
  destruct (applyBrokerConfigRevision _ _ _ _ _ _ _ _). right. by exists cat.
Qed.

(** ** Property *)

(** [C6] The contract of an apply of [mosquitto.conf], for the file itself
    ([kind_broker_config]) and for the surfaces that edit a part of it, whatever
    fails.  There are three cases.  The apply is refused: it returns an error, the
    files, the loaded files and the started files are as before, and so are the
    revisions, the adoptions and the deployments.  Or every check of the gate held
    in the state it started in, and then either it returns an error before the
    file changes (files, loaded and started files as before; the revision may be
    consumed, and an adoption and a record of the deployment may be left behind),
    or the result is one of: [active_verified] with the reviewed body on disk and
    loaded, started with it when the change needs a restart, and, for the file
    itself, a probe that succeeded; [pending_activation] with the body on disk;
    [rolled_back] with the previous bytes on disk and loaded; [rollback_failed] or
    a failure of the bookkeeping with the old or the new body.  No other file
    changes.  A change that needs a restart passes the gate only when it is forced,
    also where a restart command is configured. *)
Theorem apply_surface_contract c kind actor id force adopt w :
  let '(w', r) := apply_surface c kind actor id force adopt w in
  (untouched w w' ∧ unrecorded w w') ∧ (∃ e, r = Err e)
  ∨ ∃ cat rev before parsed, bc_catalog c = Some cat ∧ accepted c cat kind id force adopt w rev before parsed
      ∧ (untouched w w' ∧ (∃ e, r = Err e)
         ∨ ended c (fs_files (bw_fs w)) (bw_started w) (w_verdicts (bw_world w)) (br_conf rev) kind
             ((classify_revision c cat kind before rev parsed).2 || kindNeedsRestart kind) w' r).
Proof.
  pose proof (apply_surface_outcome c kind actor id force adopt w) as H.
  destruct (apply_surface _ _ _ _ _ _ _) as [w' r]. destruct H as [H|(cat & Hcat & [H|(rev & before & parsed & Ha & He)])]; [by left..|right].
  by exists cat, rev, before, parsed.
Qed.
