(* ===== verification/BrokerOnce.v ===== *)
(** * What the deploy of [mosquitto.conf] promises

    The contract of an apply, at most one apply of a revision, the
    classification of changes, and runs on a concrete installation. *)
From S2P Require Import Prelude IO Unicode GoStrings GoStrconv GoTime GoPath Sha256 Passwd Acl Catalog Conf Include Settings Store BrokerStore Probe Applier.
From S2P Require Import DeployRender Deploy DeployFrame DeployPlan DeployProofs BrokerConfig BrokerProofs.

(** ** Applied revisions stay applied *)
Definition applied_grow (w w' : bworld) : Prop :=
  ∀ id r, bw_revisions w !! id = Some r → is_Some (br_applied r) → bw_revisions w' !! id = Some r.
#[export] Instance applied_grow_preorder : PreOrder applied_grow.
Proof. split; [by intros w id r|]. intros a b c Hab Hbc id r Hr Ha. apply Hbc; [by apply Hab|done]. Qed.
Definition applied_in (id : string) (w : bworld) : Prop := ∃ r, bw_revisions w !! id = Some r ∧ is_Some (br_applied r).
Lemma applied_grow_in id w w' : applied_grow w w' → applied_in id w → applied_in id w'.
Proof. intros H (r & Hr & Ha). exists r. split; [by apply H|done]. Qed.

Lemma world_grow {E E' A} (f : E → E') (m : io world E A) : moves applied_grow (zoom bw_world set_world f m).
Proof. by intros w id r. Qed.
Lemma on_world_grow {A} (m : deploy A) : moves applied_grow (on_world m).
Proof. apply world_grow. Qed.
Lemma files_grow {E A} (m : io fs E A) : moves applied_grow (on_files m).
Proof. by intros w id r. Qed.
Lemma started_grow : moves applied_grow started.
Proof. by intros w id r. Qed.
Lemma tables_grow_applied {E E' A} (f : E → E') (m : io (tables message) E A) :
  (∀ s id r, tb_revisions s !! id = Some r → is_Some (br_applied r) → tb_revisions (m s).1 !! id = Some r) →
  moves applied_grow (zoom tables_of set_tables f m).
Proof. intros H w id r. apply (H (tables_of w)). Qed.
Lemma peeks_grow w w' : peeks w w' → applied_grow w w'.
Proof. intros [_ Hr _ _] id r. by rewrite Hr. Qed.
Lemma moves_peeks_grow {E A} (m : io bworld E A) : moves peeks m → moves applied_grow m.
Proof. intros H w. apply peeks_grow, H. Qed.

(** A statement of the store, when its update keeps applied revisions. *)
Lemma statement_grow {A} (f : tables message → result bstore_error (tables message * A)) s id r :
  (∀ s s' a, f s = Ok (s', a) → tb_revisions s !! id = Some r → tb_revisions s' !! id = Some r) →
  tb_revisions s !! id = Some r → tb_revisions (broker_statement f s).1 !! id = Some r.
Proof.
  intros Hf Hr. unfold broker_statement. destruct (db_faults _) as [|[] rest]; [|done|];
    (destruct (f _) as [[s' a]|e] eqn:E; [|done]; eapply Hf; [exact E|done]).
Qed.

Lemma insert_revision_grow {E'} (f : bstore_error → E') rev : moves applied_grow (zoom tables_of set_tables f (InsertBrokerConfigRevision rev)).
Proof.
  apply tables_grow_applied. intros s id r Hr Ha. unfold InsertBrokerConfigRevision. destruct (decide _); [done|].
  assert (∀ t (s : tables message), tb_revisions s !! id = Some r → tb_revisions (broker_statement (insert_broker_revision (broker_created_at t None rev)) s).1 !! id = Some r) as Hins.
  { intros t s1 H1. apply statement_grow; [|done]. intros s2 s3 a. unfold insert_broker_revision. destruct (decide _) as [|Hnew]; [done|].
    intros [= <- _] H2. cbn. rewrite lookup_insert_ne; [done|]. intros <-. apply Hnew. cbn. eauto. }
  unfold mbind, io_bind. destruct (decide _); [|by apply Hins]. unfold broker_now, zoom, now. destruct (db_ticks _); cbn; by apply Hins.
Qed.
Lemma insert_adoption_grow {E'} (f : bstore_error → E') path actor : moves applied_grow (zoom tables_of set_tables f (InsertBrokerConfigAdoption path actor)).
Proof.
  apply tables_grow_applied. intros s id r Hr Ha. unfold InsertBrokerConfigAdoption, mbind, io_bind.
  assert (∀ t (s : tables message), tb_revisions s !! id = Some r → tb_revisions (broker_statement (insert_adoption path actor t) s).1 !! id = Some r) as Hins
    by (intros t s1 H1; apply statement_grow; [|done]; by intros s2 s3 a [= <- _]).
  unfold broker_now, zoom, now. destruct (db_ticks _) as [|tick rest]; cbn;
    lazymatch goal with |- context [broker_statement ?f ?s] => specialize (Hins _ s Hr : tb_revisions (broker_statement f s).1 !! id = Some r) end;
    by destruct (broker_statement _ _) as [? [?|?]].
Qed.
Lemma consume_grow {E'} (f : bstore_error → E') id t : moves applied_grow (zoom tables_of set_tables f (ConsumeBrokerConfigRevision id t)).
Proof.
  apply tables_grow_applied. intros s id' r Hr [ta Ha]. unfold ConsumeBrokerConfigRevision, mbind, io_bind.
  assert (tb_revisions (broker_statement (consume_broker_revision id t) s).1 !! id' = Some r) as H.
  { apply statement_grow; [|done]. intros s1 s2 a. unfold consume_broker_revision, broker_pending. intros H Hr1.
    destruct (tb_revisions s1 !! id) as [r0|] eqn:E; [|by injection H as <- _]. case_bool_decide as Hp; [|by injection H as <- _]. injection H as <- _. cbn.
    rewrite lookup_alter_ne; [done|]. intros ->. congruence. }
  destruct (broker_statement _ _) as [s1 [n|e]]; [|done]. cbn [fst] in H. destruct (decide _); [done|].
  unfold GetBrokerConfigRevision, broker_select, broker_statement, mbind, io_bind. destruct (db_faults _) as [|[] rest]; cbn; [|done|];
    by destruct (tb_revisions s1 !! id).
Qed.
#[export] Hint Resolve world_grow on_world_grow files_grow started_grow moves_peeks_grow insert_revision_grow insert_adoption_grow consume_grow : mcm.

Section service_grow.
Context (c : bconfig).
Lemma signal_grow restart : moves applied_grow (signal_broker c restart).
Proof. unfold signal_broker, restartBroker, reloadBrokerOnly. repeat moves_step. Qed.
Hint Resolve signal_grow : mcm.
Lemma verify_grow : moves applied_grow (verifyActivation c).
Proof. unfold verifyActivation. repeat moves_step. Qed.
Hint Resolve verify_grow : mcm.
Lemma finish_grow actor status d m : moves applied_grow (finish actor status d m).
Proof. unfold finish, on_store, set_deployment_status, get_deployment, audit_deployment, on_store. repeat moves_step. Qed.
Hint Resolve finish_grow : mcm.
Lemma recover_grow actor d before needs : moves applied_grow (recoverBrokerConfig c actor d before needs).
Proof.
  unfold recoverBrokerConfig, restore_broker, record_recovery, write_conf, set_deployment_status, get_deployment, audit_deployment, on_store.
  cbv zeta. repeat moves_step.
Qed.
Hint Resolve recover_grow : mcm.
Lemma activate_grow actor d before after kind restart : moves applied_grow (activateBrokerConfig c actor d before after kind restart).
Proof. unfold activateBrokerConfig, write_conf, set_deployment_status. cbv zeta. repeat moves_step. Qed.
Hint Resolve activate_grow : mcm.
Lemma consume_or_fail_grow d id : moves applied_grow (consume_or_fail d id).
Proof. unfold consume_or_fail, consumeBrokerConfigRevision, set_deployment_status. repeat moves_step. Qed.
Lemma adopt_grow actor adopt rev : moves applied_grow (adopt_or_check c actor adopt rev).
Proof. unfold adopt_or_check, on_tables. repeat moves_step. Qed.
Lemma record_grow actor id kind reload rev : moves applied_grow (record_deployment actor id kind reload rev).
Proof. unfold record_deployment, audit_deployment, on_store, set_deployment_status. repeat moves_step. Qed.
Hint Resolve consume_or_fail_grow adopt_grow record_grow : mcm.
Lemma apply_broker_grow cat actor id force adopt kind : moves applied_grow (apply_broker_locked c cat actor id force adopt kind).
Proof. unfold apply_broker_locked. repeat moves_step. Qed.

Lemma apply_surface_grow kind actor id force adopt : moves applied_grow (apply_surface c kind actor id force adopt).
Proof.
  unfold apply_surface, enabled, with_store, broker_fail. repeat moves_step. intros w. unfold applyBrokerConfigRevision.
  destruct (w_locked _); [reflexivity|].
  pose proof (apply_broker_grow c0 actor id force adopt kind (lock_service true w)) as H. by destruct (apply_broker_locked _ _ _ _ _ _ _ _).
Qed.
Lemma insert_grow what id actor h1 h2 body includes changed : moves applied_grow (store_revision c what id actor h1 h2 body includes changed).
Proof. unfold store_revision, on_tables. repeat moves_step. Qed.
Hint Resolve insert_grow : mcm.
Lemma previewBrokerConfig_grow actor draft : moves applied_grow (previewBrokerConfig c actor draft).
Proof.
  unfold previewBrokerConfig, previewBrokerConfigLocked, enabled, with_store, parse_conf, new_revision_id, conf_diff, broker_fail. cbv zeta. repeat moves_step.
Qed.
Lemma PreviewBrokerSettings_grow actor doc : moves applied_grow (PreviewBrokerSettings c actor doc).
Proof.
  unfold PreviewBrokerSettings, previewBrokerSettingsLocked, store_edit, readBrokerConfig, enabled, with_store, parse_conf, new_revision_id, conf_diff. cbv zeta. repeat moves_step.
Qed.
Lemma AdoptBrokerConfig_grow actor : moves applied_grow (AdoptBrokerConfig c actor).
Proof. unfold AdoptBrokerConfig, with_store, on_tables. repeat moves_step. Qed.

(** An apply that touched the broker has consumed its revision. *)
Lemma wp_consumed d id w : wp (consume_or_fail d id) (λ w' r, match r with Ok _ => applied_in id w' | Err _ => True end) w.
Proof.
  unfold consume_or_fail. apply wp_bind. unfold broker_clock, on_tables, wp at 1, zoom. unfold broker_now, zoom, now.
  set (x := _ : tables message * result _ _). destruct x as [s [t|e]]; cbn [fst snd]; [|done].
  apply wp_bind, wp_attempt. unfold consumeBrokerConfigRevision. apply wp_zoom. unfold ConsumeBrokerConfigRevision. apply wp_bind.
  unfold wp at 1, broker_statement. generalize (set_tables s w). intros w1.
  assert (∀ s1 : tables message, match consume_broker_revision id t s1 with
    | Ok (s2, n) => n = 1 → ∃ r, tb_revisions s2 !! id = Some r ∧ is_Some (br_applied r) | Err _ => True end) as Hc.
  { intros s1. unfold consume_broker_revision, broker_pending. destruct (tb_revisions s1 !! id) as [r|] eqn:E; [|done].
    case_bool_decide as Hp; [|done]. intros _. cbn. rewrite lookup_alter_eq, E. cbn. eexists. split; [done|]. by eexists. }
  destruct (db_faults _) as [|[] rest]; cbn [fst snd].
  - specialize (Hc (tables_of w1)). destruct (consume_broker_revision _ _ _) as [[s2 n]|e]; cbn [fst snd]; [|by apply wp_bind, wp_attempt].
    destruct (decide (n = 1)) as [Hn|Hn]; [apply wp_ret, wp_ret; destruct (Hc Hn) as (r & Hr & Ha); by exists r|].
    apply wp_bind. unfold wp at 1. destruct (GetBrokerConfigRevision id s2) as [s3 [r|e]]; cbn; by apply wp_bind, wp_attempt.
  - by apply wp_bind, wp_attempt.
  - lazymatch goal with |- context [consume_broker_revision id t ?s0] => specialize (Hc s0); destruct (consume_broker_revision id t s0) as [[s2 n]|e] end;
      cbn [fst snd]; [|by apply wp_bind, wp_attempt].
    destruct (decide (n = 1)) as [Hn|Hn]; [apply wp_ret, wp_ret; destruct (Hc Hn) as (r & Hr & Ha); by exists r|].
    apply wp_bind. unfold wp at 1. destruct (GetBrokerConfigRevision id s2) as [s3 [r|e]]; cbn; by apply wp_bind, wp_attempt.
Qed.
End service_grow.

(** ** Any sequence of operations *)
Inductive broker_step (c : bconfig) (w w' : bworld) : Prop :=
  (** An apply of any surface: the file itself, bridges, plugins, ... *)
  | step_apply kind actor id force adopt : w' = (apply_surface c kind actor id force adopt w).1 → broker_step c w w'
  | step_preview actor draft : w' = (previewBrokerConfig c actor draft w).1 → broker_step c w w'
  | step_settings actor doc : w' = (PreviewBrokerSettings c actor doc w).1 → broker_step c w w'
  (** A revision that another surface stores. *)
  | step_store what id actor h1 h2 body includes changed :
      w' = (store_revision c what id actor h1 h2 body includes changed w).1 → broker_step c w w'
  | step_adopt actor : w' = (AdoptBrokerConfig c actor w).1 → broker_step c w w'
  (** The ACL deploy, an edit by hand, a restart: whatever leaves the revisions alone. *)
  | step_other : bw_revisions w' = bw_revisions w → broker_step c w w'.

Lemma broker_step_grow c w w' : broker_step c w w' → applied_grow w w'.
Proof.
  intros [kind actor id force adopt -> |actor draft -> |actor doc -> |what id actor h1 h2 body includes changed -> |actor -> |H].
  - apply apply_surface_grow.
  - apply previewBrokerConfig_grow.
  - apply PreviewBrokerSettings_grow.
  - apply insert_grow.
  - apply AdoptBrokerConfig_grow.
  - intros id r. by rewrite H.
Qed.
Lemma broker_steps_grow c w w' : rtc (broker_step c) w w' → applied_grow w w'.
Proof. induction 1 as [|w1 w2 w3 H _ IH]; [reflexivity|]. etrans; [by eapply broker_step_grow|done]. Qed.

Lemma wp_apply_consumes c cat actor kind id force adopt w :
  wp (apply_broker_locked c cat actor id force adopt kind) (λ w' r, untouched w w' ∧ (∃ e, r = Err e) ∨ applied_in id w') w.
Proof.
  assert (∀ w' e, stands (fs_files (bw_fs w)) (fs_loaded (bw_fs w)) (bw_started w) (w_verdicts (bw_world w)) w' →
    untouched w w' ∧ (∃ e', Err e = Err e' :> result broker_error (Deployment message)) ∨ applied_in id w') as Hrefused
    by (intros w' e H; left; split; [by eapply stands_untouched|eauto]).
  pose proof (stands_here w) as H0. unfold apply_broker_locked.
  apply wp_bind. eapply wp_calm; [auto with mcm|exact H0|]. intros w1 [[rev before]|e] H1; [|by apply Hrefused].
  apply wp_bind. eapply wp_calm; [auto with mcm|exact H1|]. intros w2 [[reload restart]|e] H2; [|by apply Hrefused].
  apply wp_bind. eapply wp_calm; [auto with mcm|exact H2|]. intros w3 [[]|e] H3; [|by apply Hrefused].
  apply wp_bind. eapply wp_calm; [auto with mcm|exact H3|]. intros w4 [d|e] H4; [|by apply Hrefused].
  apply wp_bind. pose proof (wp_consumed d id w4) as Hc. pose proof (consume_calm d id w4) as Hq. unfold wp at 1 in Hc. unfold wp at 1.
  destruct (consume_or_fail d id w4) as [w5 [[]|e]]; cbn [fst snd] in *; [|eapply Hrefused, calm_stands; done].
  eapply (wp_moves applied_grow); [apply activate_grow|]. intros w6 r H6. right. by eapply applied_grow_in.
Qed.

Lemma apply_surface_consumes c kind actor id force adopt w :
  let '(w', r) := apply_surface c kind actor id force adopt w in untouched w w' ∧ (∃ e, r = Err e) ∨ applied_in id w'.
Proof.
  unfold apply_surface, enabled, with_store, broker_fail. destruct (bc_catalog c) as [cat|] eqn:Ec; [|left; split; [done|eauto]].
  destruct (decide _); [left; split; [done|eauto]|]. destruct (bc_store c); [|left; split; [done|eauto]].
  destruct (decide _); [left; split; [done|eauto]|]. unfold applyBrokerConfigRevision. destruct (w_locked _); [left; split; [done|eauto]|].
  pose proof (wp_apply_consumes c cat actor kind id force adopt (lock_service true w)) as H. unfold wp in H. by destruct (apply_broker_locked _ _ _ _ _ _ _ _).
Qed.

(** ** Properties *)

(** [C7] A revision of [mosquitto.conf] reaches the broker at most once, whichever
    surface stored or applies it: after an apply that returned a record or
    touched anything, and any number of other operations, every further apply of
    the revision is refused and touches nothing. *)
Theorem broker_revision_applied_once c kind kind' actor actor' id force adopt force' adopt' w1 w2 :
  let '(w1', r1) := apply_surface c kind actor id force adopt w1 in
  (is_ok r1 = true ∨ ¬ untouched w1 w1') → rtc (broker_step c) w1' w2 →
  let '(w2', r2) := apply_surface c kind' actor' id force' adopt' w2 in
  untouched w2 w2' ∧ ∃ e, r2 = Err e.
Proof.
  pose proof (apply_surface_consumes c kind actor id force adopt w1) as H1.
  destruct (apply_surface c kind actor id force adopt w1) as [w1' r1]. intros Htouched Hsteps.
  destruct H1 as [[Hu [e ->]]|Happ]; [naive_solver|]. apply (applied_grow_in _ _ _ (broker_steps_grow _ _ _ Hsteps)) in Happ as (rev & Hrev & [t Ht]).
  pose proof (apply_surface_outcome c kind' actor' id force' adopt' w2) as H. destruct (apply_surface _ _ _ _ _ _ _) as [w' r].
  destruct H as [[[? _] ?]|(cat & Hcat & [[[? _] ?]|(rev' & before & parsed & [[Hr Ha] _ _ _ _ _ _ _ _ _] & _)])]; [done..|]. congruence.
Qed.

(** A change set survives the text it is stored as. *)
Definition plain_name (name : string) : Prop := name ≠ "" ∧ free_of "," name = true ∧ trim_space name = name.
Lemma changedDirectiveNames_join names : Forall plain_name names → changedDirectiveNames (join "," names) = names.
Proof.
  intros H. unfold changedDirectiveNames. destruct names as [|n names]; [done|].
  change (join ",") with (join (chr_str ",")). rewrite split_join; [|done|by eapply Forall_impl; [exact H|]; intros ? (_ & ? & _)].
  induction H as [|x l (Hne & _ & Ht) _ IH]; [done|]. rewrite fmap_cons, Ht, filter_cons_True by done. by rewrite IH.
Qed.

Lemma wp_moves_and {S E A} (R : S → S → Prop) (m : io S E A) (Q : S → result E A → Prop) s :
  moves R m → wp m Q s → wp m (λ s' r, R s s' ∧ Q s' r) s.
Proof. intros H HQ. split; [apply H|exact HQ]. Qed.
Lemma wp_insert_revision c what id actor h1 h2 body includes changed w :
  wp (store_revision c what id actor h1 h2 body includes changed) (λ w' r, calm w w' ∧ match r with
    | Ok _ => ∃ created, bw_revisions w' !! id
        = Some (mkBrokerRevision id actor h1 h2 (cf_conf (bc_deploy c)) body includes changed created None)
    | Err _ => True end) w.
Proof.
  apply wp_moves_and; [unfold store_revision; repeat moves_step|].
  unfold store_revision. apply wp_bind. unfold wp at 1. destruct (broker_clock w) as [w1 [t|e]]; cbn [fst snd]; [|done].
  unfold on_tables. apply wp_zoom. unfold InsertBrokerConfigRevision. destruct (decide _); [done|]. apply wp_bind.
  assert (∀ created (s : tables message), wp (broker_statement (insert_broker_revision (broker_created_at created None
      (mkBrokerRevision id actor h1 h2 (cf_conf (bc_deploy c)) body includes changed t None))))
    (λ s' r, match r with Ok _ => tb_revisions s' !! id
      = Some (mkBrokerRevision id actor h1 h2 (cf_conf (bc_deploy c)) body includes changed created None) | Err _ => True end) s) as Hins.
  { intros created s. unfold wp, broker_statement. destruct (db_faults _) as [|[] rest]; cbn [fst snd]; [|done|];
      unfold insert_broker_revision; (destruct (decide _); [done|]); cbn; apply lookup_insert_eq. }
  unfold wp at 1. destruct (_ (tables_of w1)) as [s [created|e]]; cbn [fst snd]; [|done].
  eapply wp_mono; [apply Hins|]. intros s' [[]|e] H; [|done]. exists created. exact H.
Qed.

(** What the preview of an edited file leaves: a revision with its rendering,
    bound to the bytes the edit was made from, which is classified at the apply
    as the operator was told. *)
Definition stored_edit (c : bconfig) (cat : Catalog) (show : string → string) (body : string) (updated : File) (changed : list string) (p : BrokerPreview) (rev : BrokerConfigRevision) : Prop :=
  RenderConf updated = Ok (br_conf rev) ∧ bp_body p = show (br_conf rev) ∧ bp_changed p = changed
  ∧ br_applied rev = None ∧ br_base_hash rev = contentHash body
  ∧ (Forall plain_name changed → ∀ kind current parsed, classify_revision c cat kind current rev parsed = (bp_reload p, bp_restart p)).

Lemma wp_store_edit c what kind show cat actor body updated changed w :
  wp (store_edit c what kind show cat actor body updated changed) (λ w' r, calm w w' ∧ match r with
    | Ok p => ∃ rev, bw_revisions w' !! bp_revision p = Some rev ∧ stored_edit c cat show body updated changed p rev
    | Err _ => True end) w.
Proof.
  apply wp_moves_and; [unfold store_edit, new_revision_id, conf_diff, store_revision; repeat moves_step|].
  unfold store_edit. destruct (RenderConf updated) as [rendered|] eqn:Hr; [|done].
  apply wp_bind. unfold conf_diff. destruct (bc_diff c body rendered) as [diff|]; [|done]. apply wp_ret. cbv zeta.
  destruct (classifyChangedDirectives changed cat) as [reload restart] eqn:Hk. apply wp_bind.
  eapply (wp_moves calm); [unfold new_revision_id; repeat moves_step|]. intros w2 [id|e] H2; [|done].
  apply wp_bind. eapply wp_mono; [apply wp_insert_revision|]. intros w3 [[]|e] [H3 Hins]; [|done]. destruct Hins as [created Hins].
  apply wp_ret. eexists. split; [exact Hins|]. unfold stored_edit. split_and!; try done.
  intros Hplain k current parsed. unfold classify_revision. cbn [br_changed]. by rewrite changedDirectiveNames_join.
Qed.
Lemma wp_read_broker c (Φ : bworld → result broker_error (string * File) → Prop) w :
  (∀ w1 body f, calm w w1 → fs_files (bw_fs w) !! cf_conf (bc_deploy c) = Some body → Parse body (cf_conf (bc_deploy c)) = Ok f → Φ w1 (Ok (body, f))) →
  (∀ w1 e, Φ w1 (Err e)) → wp (readBrokerConfig c) Φ w.
Proof.
  intros Hok Herr. unfold readBrokerConfig, parse_conf. apply wp_bind. eapply wp_peeks_with; [auto with mcm|apply read_conf_answer|].
  intros w1 [body|e] H1 Hb; [|done]. destruct (Parse body _) as [f|] eqn:Hp; [apply wp_ret; apply Hok; [apply H1|done..]|]. by apply Herr.
Qed.
Lemma wp_preview_audit actor (Φ : bworld → result broker_error () → Prop) w :
  (∀ w', calm w w' → bw_revisions w' = bw_revisions w → Φ w' (Ok tt)) → wp (on_world (emitAudit actor "deployment.preview" None "success")) Φ w.
Proof.
  intros H. unfold on_world. apply wp_zoom. unfold emitAudit, modify, wp at 1. cbn [fst snd]. apply H; [|done].
  constructor; [apply same_fs_refl|done|done].
Qed.

(** [C8] The preview of a settings form: the broker is not touched; the revision
    holds the file with the form applied, bound to the bytes it was made from;
    and the reload kind the operator is shown is the one the apply will act on. *)
Theorem PreviewBrokerSettings_reviewed c cat actor doc w w' p :
  bc_catalog c = Some cat → names_ok (managedMap cat) → Forall plain_name (elements (dom (managedMap cat))) →
  PreviewBrokerSettings c actor doc w = (w', Ok p) →
  untouched w w' ∧ ∃ body f f' rev,
    fs_files (bw_fs w) !! cf_conf (bc_deploy c) = Some body ∧ Parse body (cf_conf (bc_deploy c)) = Ok f
    ∧ Settings.Apply cat f doc = Ok (f', bp_changed p) ∧ bp_changed p = ChangedDirectives cat f f'
    ∧ RenderConf f' = Ok (br_conf rev) ∧ bp_body p = br_conf rev
    ∧ bw_revisions w' !! bp_revision p = Some rev ∧ br_applied rev = None ∧ br_base_hash rev = contentHash body
    ∧ ∀ kind current parsed, classify_revision c cat kind current rev parsed = (bp_reload p, bp_restart p).
Proof.
  intros Hcat Hnames Hplain.
  enough (wp (PreviewBrokerSettings c actor doc) (λ w' r, match r with Ok p => calm w w' ∧ ∃ body f f' rev changed,
      fs_files (bw_fs w) !! cf_conf (bc_deploy c) = Some body ∧ Parse body (cf_conf (bc_deploy c)) = Ok f
      ∧ Settings.Apply cat f doc = Ok (f', changed)
      ∧ bw_revisions w' !! bp_revision p = Some rev ∧ stored_edit c cat id body f' changed p rev
      | Err _ => True end) w) as H.
  { unfold wp in H. intros E. rewrite E in H. cbn [fst snd] in H. destruct H as (Hc & body & f & f' & rev & changed & Hb & Hp & Ha & Hrev & Hr & Hbody & -> & Happ & Hbase & Hk).
    split; [eapply stands_untouched, calm_stands, stands_here; exact Hc|]. exists body, f, f', rev.
    assert (changed = ChangedDirectives cat f f') as Hchanged.
    { destruct (Parse_inv _ _ _ Hp) as (_ & _ & _ & Hrun). by destruct (Apply_effect cat Hnames f doc f' _ (block_run_start _ _ Hrun) Ha) as (_ & _ & _ & ->). }
    repeat (split; [done|]). apply Hk.
    rewrite Hchanged. apply Forall_forall. intros n Hn. rewrite Forall_forall in Hplain. apply Hplain. unfold ChangedDirectives in Hn.
    apply elem_of_sort_strings, elem_of_elements, elem_of_filter in Hn as [_ Hn]. by apply elem_of_elements. }
  unfold PreviewBrokerSettings, enabled, with_store. rewrite Hcat. destruct (decide _); [done|]. destruct (bc_store c); [|done].
  destruct (Settings.Validate cat doc); [|done]. apply wp_bind. unfold previewBrokerSettingsLocked.
  apply wp_bind, wp_read_broker; [|done]. intros w1 body f H1 Hb Hp. destruct (Settings.Apply cat f doc) as [[f' changed]|] eqn:Ha; [|done].
  eapply wp_mono; [apply wp_store_edit|]. intros w2 [q|e] [H2 Hstored]; [|done]. destruct Hstored as (rev & Hrev & Hs).
  apply wp_bind, wp_preview_audit. intros w3 H3 Hrevs. apply wp_ret. split; [by etrans; [|etrans]|].
  exists body, f, f', rev, changed. by rewrite Hrevs.
Qed.
