(* ===== verification/BrokerExamples.v ===== *)
(** * A change of [mosquitto.conf] from preview to activation, and how it fails

    A small installation on which the deploy of [mosquitto.conf] is evaluated:
    its theorems at a concrete input, and behaviours it should not have. *)
From S2P Require Import Prelude IO Unicode GoStrings GoStrconv GoTime GoPath Sha256 Passwd Acl Catalog Conf Include Settings Store BrokerStore Probe Applier.
From S2P Require Import DeployRender Deploy DeployFrame DeployPlan DeployProofs BrokerConfig BrokerProofs BrokerOnce.

Definition conf_spec (name type scope multiplicity reload section : string) : DirectiveSpec :=
  Catalog.mkSpec name type scope multiplicity reload "" "" [] section "" None None "" [].
Definition conf_catalog : Catalog := mkCatalog "2.0" (map_by sp_name
  [conf_spec "persistence" TypeBoolean CatScopeGlobal Once ReloadOK "persistence"; conf_spec "log_type" TypeString CatScopeGlobal Many ReloadOK "logging";
   conf_spec "max_queued_messages" TypeInteger CatScopeGlobal Once Restart "queues"; conf_spec "include_dir" TypePath CatScopeGlobal Many ReloadOK "";
   conf_spec "listener" TypeStringList CatScopeGlobal Many Restart ""; conf_spec "mount_point" TypeString CatScopeListener OncePerBlock Restart ""]).
(** With a command that restarts the broker, or with a process id to signal. *)
Definition conf_config (command : list string) : bconfig :=
  mkBConfig (mkConfig "file" "/m/acl" "/m/passwd" "/m/mosquitto.conf" "mcm" "pw"
      (AppFile (mkFileApplier "/m/acl" "/m/passwd" "/m/pid" command)) (λ u, if decide (u = "alice") then Some "s3" else None))
    (Some conf_catalog) true true (flat_view ["/m"; "/m/conf.d"]) (λ a b, Some (if decide (a = b) then "" else "-" +:+ a +:+ "+" +:+ b)).
Definition restarting : bconfig := conf_config ["systemctl"; "restart"; "mosquitto"].
Definition conf_body (persistence : string) : string := "persistence " +:+ persistence +:+ nl +:+ "include_dir conf.d" +:+ nl.
Definition conf_files : gmap string string := list_to_map
  [("/m/acl", "user alice" +:+ nl +:+ "topic readwrite plant/1" +:+ nl); ("/m/passwd", "alice:x" +:+ nl); ("/m/pid", "42" +:+ nl);
   ("/m/mosquitto.conf", conf_body "true"); ("/m/conf.d/a.conf", "log_type all" +:+ nl)].
Definition conf_world (verdicts : list verdict) : bworld :=
  mkBWorld (mkWorld (mkFs conf_files ∅ 0 conf_files []) (empty_db message (1700000000 * second) [] []) [] ["0123456789abcdef"; "fedcba9876543210"] verdicts false [])
    ∅ [] 1 conf_files.
Definition conf_revision : string := "30313233343536373839616263646566".
Definition probe_ok : verdict := mkVerdict true "" false.
Definition probe_denied : verdict := mkVerdict false "denied" false.

Definition drafted (c : bconfig) (body : string) (verdicts : list verdict) : bworld :=
  (PreviewBrokerConfigDraft c "op" (mkDraft body "") (conf_world verdicts)).1.
Definition run_apply (c : bconfig) (body : string) (force : bool) (verdicts : list verdict) : bworld * result broker_error (Deployment message) :=
  ApplyBrokerConfig c "op" conf_revision force true (drafted c body verdicts).
(** The status, what is on disk, and whether the broker was started with it. *)
Definition apply_summary (x : bworld * result broker_error (Deployment message)) : option string * option string * bool :=
  (match x.2 with Ok d => Some (dp_status d) | Err _ => None end, fs_files (bw_fs x.1) !! "/m/mosquitto.conf",
   bool_decide (bw_started x.1 !! "/m/mosquitto.conf" = fs_files (bw_fs x.1) !! "/m/mosquitto.conf")).

Example reload_verified : apply_summary (run_apply restarting (conf_body "false") false [probe_ok]) = (Some "active_verified", Some (conf_body "false"), false).
Proof. vm_compute. reflexivity. Qed.
Example denied_rolled_back :
  apply_summary (run_apply restarting (conf_body "false") false [probe_denied; probe_denied; probe_denied; probe_ok])
  = (Some "rolled_back", Some (conf_body "true"), true).
Proof. vm_compute. reflexivity. Qed.
Example restart_needs_force :
  (run_apply restarting (conf_body "true" +:+ "max_queued_messages 10" +:+ nl) false [probe_ok]).2 = Err (ErrRequiresRestart "max_queued_messages").
Proof. vm_compute. reflexivity. Qed.
Example restart_forced :
  apply_summary (run_apply restarting (conf_body "true" +:+ "max_queued_messages 10" +:+ nl) true [probe_ok])
  = (Some "active_verified", Some (conf_body "true" +:+ "max_queued_messages 10" +:+ nl), true).
Proof. vm_compute. reflexivity. Qed.
Example restart_impossible :
  (run_apply (conf_config []) (conf_body "true" +:+ "max_queued_messages 10" +:+ nl) true [probe_ok]).2 = Err (ErrBrokerRestartUnavailable "max_queued_messages").
Proof. vm_compute. reflexivity. Qed.
Example credentials_refused :
  (PreviewBrokerConfigDraft restarting "op" (mkDraft ("bridge_password x" +:+ nl) "") (conf_world [])).2 = Err ErrSensitiveBrokerConfig.
Proof. vm_compute. reflexivity. Qed.

Lemma run_apply_ok : is_ok (run_apply restarting (conf_body "false") false [probe_ok]).2 = true.
Proof. vm_compute. reflexivity. Qed.

Lemma broker_revision_applied_once_witness :
  let first := run_apply restarting (conf_body "false") false [probe_ok] in
  let '(w', r) := apply_surface restarting "bridges" "other" conf_revision true true first.1 in
  is_ok first.2 = true ∧ untouched first.1 w' ∧ ∃ e, r = Err e.
Proof.
  cbv zeta.
  pose proof (broker_revision_applied_once restarting kind_broker_config "bridges" "op" "other" conf_revision false true true true
    (drafted restarting (conf_body "false") [probe_ok]) (run_apply restarting (conf_body "false") false [probe_ok]).1) as H.
  change (apply_surface restarting kind_broker_config "op" conf_revision false true (drafted restarting (conf_body "false") [probe_ok]))
    with (run_apply restarting (conf_body "false") false [probe_ok]) in H.
  pose proof run_apply_ok as Hok. destruct (run_apply _ _ _ _) as [w1 r1]. cbn [fst snd] in *.
  specialize (H (or_introl Hok) ltac:(constructor)). destruct (apply_surface _ _ _ _ _ _ _) as [w2 r2]. by split.
Defined.

(** *** The settings form *)
Definition form : Document := mkDocument [mkEntry "persistence" ["false"] false; mkEntry "max_queued_messages" ["10"] false].
Definition form_previewed : bworld * result broker_error BrokerPreview := PreviewBrokerSettings restarting "op" form (conf_world [probe_ok]).
Lemma conf_names_ok : names_ok (managedMap conf_catalog).
Proof. apply specs_names_ok. refine (bool_decide_unpack (specs_ok conf_catalog) _). by vm_compute. Defined.
Lemma PreviewBrokerSettings_reviewed_witness :
  ∃ w' p, PreviewBrokerSettings restarting "op" form (conf_world [probe_ok]) = (w', Ok p) ∧ untouched (conf_world [probe_ok]) w'
    ∧ (bp_reload p, bp_restart p, bp_changed p) = (Restart, true, ["max_queued_messages"; "persistence"]).
Proof.
  eexists _, _. split; [vm_compute; reflexivity|]. split; [|vm_compute; reflexivity].
  refine (proj1 (PreviewBrokerSettings_reviewed restarting conf_catalog "op" form (conf_world [probe_ok]) _ _ _ conf_names_ok _ _));
    [vm_compute; reflexivity| |vm_compute; reflexivity].
  assert (elements (dom (managedMap conf_catalog)) = ["max_queued_messages"; "log_type"; "persistence"]) as -> by (vm_compute; reflexivity).
  repeat constructor; vm_compute; congruence.
Defined.

(** A revision of the form has no snapshot of the includes, which the state of
    the configuration takes for a drift: right after its verified activation the
    file is reported as changed from outside. *)
Definition form_applied : bworld := (ApplyBrokerConfig restarting "op" conf_revision true true form_previewed.1).1.
Lemma settings_reported_as_drift :
  dp_status <$> db_deployments (w_db (bw_world form_applied)) = ["active_verified"]
  ∧ match (GetBrokerConfig restarting form_applied).2 with
    | Ok r => gr_drift r = true ∧ match gr_verified r with Some a => bca_hash a = gr_hash r | None => False end
    | Err _ => False
    end.
Proof. vm_compute. done. Qed.

(** An option moved from one listener to another has the same values in the same
    order: the change is called a reload although the option needs a restart. *)
Lemma moved_option_is_a_reload :
  brokerConfigImpact conf_catalog "m.conf" ("listener 1883" +:+ nl +:+ "mount_point a" +:+ nl +:+ "listener 8883" +:+ nl)
    ("listener 1883" +:+ nl +:+ "listener 8883" +:+ nl +:+ "mount_point a" +:+ nl) = (ReloadOK, false)
  ∧ sp_reload_kind <$> Lookup conf_catalog "mount_point" = Some Restart.
Proof. vm_compute. done. Qed.
