(* ===== verification/BridgeDeploy.v ===== *)
(** * [internal/deploy/bridges.go]: reading, previewing and applying bridges

    The bridge endpoints edit the same [mosquitto.conf] as the broker
    configuration: the preview stores a revision in the same table, the apply is
    [applyBrokerConfigRevision].  The connections come and go as a document, and
    secrets are never sent back. *)
From S2P Require Import Prelude IO Unicode GoStrings GoStrconv GoTime Sha256 Passwd Catalog Conf ConfEdit Bridges BridgesValid BridgesText Include Settings Store BrokerStore Applier DeployRender Deploy DeployFrame BrokerConfig BrokerProofs BrokerOnce.

Definition kind_bridges : string := "bridges".

Inductive bridge_error := BridgesBroker (e : broker_error) | ErrBridgesInvalid (issues : list BridgeIssue).
Abbreviation bridging := (io bworld bridge_error).
Definition in_broker {A} (m : broker A) : bridging A := wrap BridgesBroker m.

Record BridgePreview := mkBridgePreview { bv_preview : BrokerPreview; bv_issues : list BridgeIssue }.

(** ** Secrets *)
Definition keep_secret (next previous : string) : string := if decide (next = "") then previous else next.
Definition merge_bridge (current : BridgeDocument) (next : Bridge) : Bridge :=
  match FindBridge current (br_name next) with
  | None => next
  | Some previous =>
      set_secrets (keep_secret (br_password next) (br_password previous)) (br_password_set next)
        (keep_secret (br_local_password next) (br_local_password previous)) (br_local_password_set next)
        (keep_secret (tl_psk (br_tls next)) (tl_psk (br_tls previous))) (tl_psk_set (br_tls next)) next
  end.
Definition mergeBridgeSecrets (doc current : BridgeDocument) : BridgeDocument := merge_bridge current <$> doc.

Definition bridgeSecretMask : string := "********".
Definition secretKeys : list string := ["remote_password"; "local_password"; "bridge_psk"].
(** The indentation, the marker of a diff and the rest of a line. *)
Definition split_marker (line : string) : string * string * string :=
  let trimmed := trim_left_bytes is_blank line in
  let indent := take_bytes (String.length line - String.length trimmed) line in
  if has_prefix "-" trimmed || has_prefix "+" trimmed then (indent, take_bytes 1 trimmed, drop_bytes 1 trimmed)
  else (indent, "", trimmed).
Definition redact_bridge_line (line : string) : string :=
  let '(indent, marker, trimmed) := split_marker line in
  match fields trimmed with
  | key :: _ :: _ => if decide (key ∈ secretKeys) then indent +:+ marker +:+ key +:+ " " +:+ bridgeSecretMask else line
  | _ => line
  end.
Definition redactBridgeSecrets (body : string) : string :=
  if decide (body = "") then body else join nl (redact_bridge_line <$> split nl_char body).

(** ** Changed directives *)
Definition nul : string := chr_str "000".
Definition connection_value (s : Z * gmap string (list string)) (it : Item) : Z * gmap string (list string) :=
  match it_kind it with
  | ItemBlockOpen => ((s.1 + 1)%Z, s.2)
  | ItemBlockClose => ((s.1 - 1)%Z, s.2)
  | ItemComment => s
  | ItemDirective =>
      if negb (s.1 =? 0)%Z then s
      else if negb (String.eqb (it_key it) "connection") && negb (IsConnectionKey (it_key it)) then s
      else (s.1, <[it_key it := default [] (s.2 !! it_key it) ++ [join nul (it_values it)]]> s.2)
  end.
Definition connectionDirectiveValues (f : File) : gmap string (list string) := (foldl connection_value (0%Z, ∅) (f_items f)).2.
Definition changedConnectionDirectives (before after : File) : list string :=
  let old := connectionDirectiveValues before in
  let next := connectionDirectiveValues after in
  sort_strings (filter (λ name, default [] (old !! name) ≠ default [] (next !! name)) (elements (dom old ∪ dom next))).

(** ** The service *)
Section service.
Context (c : bconfig) (quote : string → string).
Local Abbreviation confPath := (cf_conf (bc_deploy c)).

Definition GetBridges : broker BridgeDocument :=
  enabled c (λ _, '(_, parsed) ← readBrokerConfig c; mret (RedactedDocument (ParseBridges parsed))).

Definition previewBridgesLocked (cat : Catalog) (actor : string) (doc : BridgeDocument) : bridging BridgePreview :=
  '(body, parsed) ← in_broker (readBrokerConfig c);
  let merged := mergeBridgeSecrets doc (ParseBridges parsed) in
  let issues := ValidateBridges quote merged (LocalAddresses parsed) in
  if HasBridgeErrors issues then fail (ErrBridgesInvalid issues)
  else
    let updated := ApplyDocument parsed merged in
    preview ← in_broker (store_edit c "store bridge preview revision" kind_bridges redactBridgeSecrets cat actor body updated (changedConnectionDirectives parsed updated));
    mret (mkBridgePreview preview issues).
Definition PreviewBridges (actor : string) (doc : BridgeDocument) : bridging BridgePreview :=
  match bc_catalog c with
  | None => fail (BridgesBroker ErrBrokerConfigDisabled)
  | Some cat =>
      if decide (confPath = "") then fail (BridgesBroker ErrBrokerConfigDisabled)
      else if negb (bc_store c) then fail (BridgesBroker BrokerStoreMissing)
      else
        preview ← previewBridgesLocked cat actor doc;
        in_broker (on_world (emitAudit actor "deployment.preview" None "success")) ;;
        mret preview
  end.
Definition ApplyBridges : string → string → bool → bool → broker (Deployment message) := apply_surface c kind_bridges.
End service.

(** ** Lemmas: redaction *)
Lemma split_marker_line line : let '(indent, marker, rest) := split_marker line in
  line = indent +:+ marker +:+ rest ∧ all_bytes is_blank indent = true ∧ (marker = "" ∨ marker = "-" ∨ marker = "+").
Proof.
  unfold split_marker. destruct (trim_left_blanks is_blank line) as (p & Hp & Ha). set (t := trim_left_bytes is_blank line) in *.
  assert (take_bytes (String.length line - String.length t) line = p) as ->.
  { rewrite Hp. rewrite length_app_string. replace (String.length p + String.length t - String.length t) with (String.length p) by lia. apply take_bytes_app. }
  assert (∀ m, has_prefix (chr_str m) t = true → t = chr_str m +:+ drop_bytes 1 t ∧ take_bytes 1 t = chr_str m) as Hm.
  { intros m. destruct t as [|x t']; [done|]. unfold has_prefix. cbn [String.prefix chr_str]. destruct (ascii_dec m x) as [<-|]; [intros _|done].
    change (String m t') with (chr_str m +:+ t'). change 1 with (String.length (chr_str m)). by rewrite drop_bytes_app, take_bytes_app. }
  destruct (has_prefix "-" t) eqn:E1; [|destruct (has_prefix "+" t) eqn:E2]; cbn [orb].
  - destruct (Hm "-"%char E1) as [Ht ->]. split_and!; [|done|by right; left]. rewrite <-Ht. done.
  - destruct (Hm "+"%char E2) as [Ht ->]. split_and!; [|done|by right; right]. rewrite <-Ht. done.
  - split_and!; [|done|by left]. done.
Qed.

Definition masked_secret (key : string) : string := key +:+ " " +:+ bridgeSecretMask.
Lemma split_masked indent marker key : all_bytes is_blank indent = true → marker = "" ∨ marker = "-" ∨ marker = "+" → key ∈ secretKeys →
  (split_marker (indent +:+ marker +:+ masked_secret key)).2 = masked_secret key ∧ fields (masked_secret key) = [key; bridgeSecretMask].
Proof.
  intros Hi Hm Hk. assert (trim_left_bytes is_blank (marker +:+ masked_secret key) = marker +:+ masked_secret key) as Ht.
  { unfold secretKeys in Hk. rewrite !elem_of_cons, elem_of_nil in Hk. by destruct Hm as [->|[->| ->]], Hk as [->|[->|[->|[]]]]. }
  assert (split_marker (indent +:+ marker +:+ masked_secret key) = (take_bytes (String.length (indent +:+ marker +:+ masked_secret key) - String.length (marker +:+ masked_secret key))
    (indent +:+ marker +:+ masked_secret key), marker, masked_secret key)) as ->.
  { unfold split_marker. rewrite (trim_left_app_blanks is_blank indent) by done.
    unfold secretKeys in Hk. rewrite !elem_of_cons, elem_of_nil in Hk. by destruct Hm as [->|[->| ->]], Hk as [->|[->|[->|[]]]]. }
  split; [done|]. unfold secretKeys in Hk. rewrite !elem_of_cons, elem_of_nil in Hk. by destruct Hk as [->|[->|[->|[]]]].
Qed.

(** A line that keeps a secret key keeps nothing but the mask after it. *)
Definition secret_masked (line : string) : Prop :=
  match fields (split_marker line).2 with key :: v :: vs => key ∈ secretKeys → v :: vs = [bridgeSecretMask] | _ => True end.
Lemma redact_line_masked line : secret_masked (redact_bridge_line line) ∧ (free_of nl_char line = true → free_of nl_char (redact_bridge_line line) = true).
Proof.
  unfold redact_bridge_line. pose proof (split_marker_line line) as Hl. destruct (split_marker line) as [[indent marker] rest] eqn:E. destruct Hl as (Hline & Hi & Hm).
  assert (fields rest = fields (split_marker line).2) as Hf by by rewrite E. unfold secret_masked.
  destruct (fields rest) as [|key [|v vs]] eqn:Ef; [by rewrite <-Hf..|]. destruct (decide (key ∈ secretKeys)) as [Hk|Hk]; [|by rewrite <-Hf].
  change (indent +:+ marker +:+ key +:+ " " +:+ bridgeSecretMask) with (indent +:+ marker +:+ masked_secret key).
  destruct (split_masked indent marker key Hi Hm Hk) as [-> ->]. split; [done|]. intros Hfree. rewrite Hline in Hfree.
  rewrite !free_of_app in Hfree |- *. apply andb_true_iff in Hfree as [-> Hfree]. apply andb_true_iff in Hfree as [-> _].
  unfold secretKeys in Hk. rewrite !elem_of_cons, elem_of_nil in Hk. by destruct Hk as [->|[->|[->|[]]]].
Qed.

Lemma redact_lines body : body ≠ "" → split nl_char (redactBridgeSecrets body) = redact_bridge_line <$> split nl_char body.
Proof.
  intros Hne. unfold redactBridgeSecrets. rewrite decide_False by done. change nl with (chr_str nl_char). apply split_join.
  - pose proof (split_not_nil nl_char body). by destruct (split nl_char body).
  - apply Forall_fmap. eapply Forall_impl; [apply (split_all_free nl_char body)|]. intros line. apply redact_line_masked.
Qed.

(** ** Lemmas: changed directives *)
Definition bridge_key (name : string) : Prop := name = "connection" ∨ IsConnectionKey name = true.
Lemma bridge_key_plain name : bridge_key name → plain_name name.
Proof.
  intros Hkey. assert (name ∈ "connection" :: connectionKeys) as Hin.
  { rewrite elem_of_cons. destruct Hkey as [->|Hkey]; [by left|right]. unfold IsConnectionKey in Hkey.
    apply existsb_exists in Hkey as (x & Hx & ->%String.eqb_eq). by apply list_elem_of_In. }
  clear Hkey. revert name Hin. apply Forall_forall. repeat (constructor; [by vm_compute|]). constructor.
Qed.
Lemma connection_values_keys items s :
  (∀ name, name ∈ dom s.2 → bridge_key name) → ∀ name, name ∈ dom (foldl connection_value s items).2 → bridge_key name.
Proof.
  revert s. induction items as [|it items IH]; intros s Hs; [done|]. apply IH. unfold connection_value.
  destruct (it_kind it); try done. destruct (negb _); [done|]. destruct (_ && _) eqn:E; [done|]. cbn [snd]. intros name.
  rewrite dom_insert_L, elem_of_union, elem_of_singleton. intros [->|?]; [|by apply Hs].
  apply andb_false_iff in E as [E|E]; apply negb_false_iff in E; [left; by apply String.eqb_eq|by right].
Qed.
Lemma changed_plain before after : Forall plain_name (changedConnectionDirectives before after).
Proof.
  apply Forall_forall. intros name. unfold changedConnectionDirectives. rewrite elem_of_sort_strings, list_elem_of_filter, elem_of_elements, elem_of_union.
  intros [_ [H|H]]; apply bridge_key_plain; (eapply connection_values_keys; [|exact H]); intros ? Hd; cbn in Hd; by rewrite dom_empty_L in Hd.
Qed.

(** ** Properties *)

(** What the redaction leaves of a text: as many lines; a line that is not
    the value of a secret stays, and every line that begins (after indentation
    and the marker of a diff) with a secret directive has nothing but the mask
    after it. *)
Theorem redactBridgeSecrets_masked body :
  Forall2 (λ line redacted, secret_masked redacted
      ∧ (redacted = line ∨ ∃ key v vs, fields (split_marker line).2 = key :: v :: vs ∧ key ∈ secretKeys))
    (split nl_char body) (split nl_char (redactBridgeSecrets body)).
Proof.
  destruct (decide (body = "")) as [->|Hne]; [constructor; [|constructor]; by split; [|left]|]. rewrite redact_lines by done.
  apply Forall2_fmap_r, Forall_Forall2_diag, Forall_true. intros line. split; [apply redact_line_masked|].
  unfold redact_bridge_line. destruct (split_marker line) as [[indent marker] rest]. cbn [snd].
  destruct (fields rest) as [|key [|v vs]]; [by left..|]. case_decide; [right; eauto|by left].
Qed.

(** [C9] The preview of a bridge document: the broker is not touched; the
    document with the secrets that are on disk is valid; the revision holds the
    file with it applied, bound to the bytes it was made from; plain values are
    read back from it; the operator is shown the redacted body and the reload
    kind that the apply will act on. *)
Theorem PreviewBridges_reviewed c quote cat actor doc w w' p :
  bc_catalog c = Some cat → PreviewBridges c quote actor doc w = (w', Ok p) →
  untouched w w' ∧ ∃ body f rev,
    let merged := mergeBridgeSecrets doc (ParseBridges f) in
    fs_files (bw_fs w) !! cf_conf (bc_deploy c) = Some body ∧ Parse body (cf_conf (bc_deploy c)) = Ok f
    ∧ valid_document merged (LocalAddresses f)
    ∧ RenderConf (ApplyDocument f merged) = Ok (br_conf rev) ∧ bp_body (bv_preview p) = redactBridgeSecrets (br_conf rev)
    ∧ (Forall plain_bridge merged → short_lines merged →
         ∃ f', Parse (br_conf rev) (cf_conf (bc_deploy c)) = Ok f' ∧ ParseBridges f' = written <$> merged)
    ∧ bw_revisions w' !! bp_revision (bv_preview p) = Some rev ∧ br_applied rev = None ∧ br_base_hash rev = contentHash body
    ∧ ∀ kind current parsed, classify_revision c cat kind current rev parsed = (bp_reload (bv_preview p), bp_restart (bv_preview p)).
Proof.
  intros Hcat.
  enough (wp (PreviewBridges c quote actor doc) (λ w' r, match r with Ok p => calm w w' ∧ ∃ body f rev,
      let merged := mergeBridgeSecrets doc (ParseBridges f) in
      fs_files (bw_fs w) !! cf_conf (bc_deploy c) = Some body ∧ Parse body (cf_conf (bc_deploy c)) = Ok f
      ∧ HasBridgeErrors (ValidateBridges quote merged (LocalAddresses f)) = false
      ∧ bw_revisions w' !! bp_revision (bv_preview p) = Some rev
      ∧ stored_edit c cat redactBridgeSecrets body (ApplyDocument f merged) (changedConnectionDirectives f (ApplyDocument f merged)) (bv_preview p) rev
      | Err _ => True end) w) as H.
  { unfold wp in H. intros E. rewrite E in H. cbn [fst snd] in H. destruct H as (Hc & body & f & rev & Hb & Hp & Hv & Hrev & Hr & Hbody & _ & Happ & Hbase & Hk).
    split; [eapply stands_untouched, calm_stands, stands_here; exact Hc|]. exists body, f, rev. cbv zeta.
    apply ValidateBridges_clean in Hv. repeat (split; [done|]). split.
    { intros Hplain Hshort. destruct (document_reread body (cf_conf (bc_deploy c)) f _ Hp Hplain Hshort) as (text & f' & Ht & Hf' & Hd).
      rewrite Hr in Ht. injection Ht as <-. by exists f'. }
    repeat (split; [done|]). apply Hk, changed_plain. }
  unfold PreviewBridges. rewrite Hcat. destruct (decide _); [done|]. destruct (bc_store c); [|done]. cbn [negb]. apply wp_bind.
  unfold previewBridgesLocked. apply wp_bind, wp_wrap, wp_read_broker; [|done]. intros w1 body f H1 Hb Hp.
  cbv zeta. destruct (HasBridgeErrors _) eqn:Hv; [done|]. apply wp_bind, wp_wrap.
  eapply wp_mono; [apply wp_store_edit|]. intros w2 [q|e] [H2 Hstored]; [|done]. destruct Hstored as (rev & Hrev & Hs).
  apply wp_ret, wp_bind, wp_wrap, wp_preview_audit. intros w3 H3 Hrevs. apply wp_ret. split; [by etrans; [|etrans]|].
  exists body, f, rev. cbv zeta. cbn [bv_preview]. by rewrite Hrevs.
Qed.
