(* ===== verification/BridgeExamples.v ===== *)
(** * Bridges from preview to activation

    The installation of [BrokerExamples], with bridges: the theorems of
    [BridgeDeploy] at a concrete input, and behaviours it should not have. *)
From S2P Require Import Prelude IO Unicode GoStrings GoStrconv GoTime GoPath Sha256 Passwd Acl Catalog Conf ConfEdit Bridges BridgesValid BridgesText Include Settings Store.
From S2P Require Import BrokerStore Probe Applier DeployRender Deploy DeployFrame DeployPlan DeployProofs BrokerConfig BrokerProofs BrokerOnce BrokerExamples BridgeDeploy.

Definition bridges_previewed : bworld * result bridge_error BridgePreview := PreviewBridges restarting id "op" [uplink] (conf_world []).

Lemma PreviewBridges_reviewed_witness :
  ∃ w' p, PreviewBridges restarting id "op" [uplink] (conf_world []) = (w', Ok p) ∧ untouched (conf_world []) w'
    ∧ bp_changes (bv_preview p) = true.
Proof.
  eexists _, _. split; [vm_compute; reflexivity|]. split; [|vm_compute; reflexivity].
  refine (proj1 (PreviewBridges_reviewed restarting id conf_catalog "op" [uplink] (conf_world []) _ _ _ _)); vm_compute; reflexivity.
Defined.

(** The preview shows the mask, the file gets the password. *)
Example preview_is_redacted : match bridges_previewed.2 with
  | Ok p => contains "********" (bp_body (bv_preview p)) && negb (contains "secret" (bp_body (bv_preview p))) && negb (contains "secret" (bp_diff (bv_preview p)))
  | Err _ => false end = true.
Proof. vm_compute. reflexivity. Qed.

Definition bridges_applied : bworld * result broker_error (Deployment message) := ApplyBridges restarting "op" conf_revision true true bridges_previewed.1.
Example bridges_active : (dp_status <$> match bridges_applied.2 with Ok d => Some d | Err _ => None end) = Some "active_verified".
Proof. vm_compute. reflexivity. Qed.
Example bridges_read_back : (GetBridges restarting bridges_applied.1).2 = Ok [RedactedBridge (written uplink)].
Proof. vm_compute. reflexivity. Qed.

(** The diff keeps the case of a removed line, the redaction compares the names
    of directives as they are written: a password that was not in lower case is
    shown. *)
Lemma redaction_is_case_sensitive :
  redactBridgeSecrets "-Remote_Password s3cret" = "-Remote_Password s3cret"
  ∧ match Conf.Parse ("connection up" +:+ nl +:+ "Remote_Password s3cret" +:+ nl) "m.conf" with
    | Ok f => br_password <$> ParseBridges f | Err _ => [] end = ["s3cret"].
Proof. split; vm_compute; reflexivity. Qed.

(** A value is written as it is: a user name with a newline adds a directive, and
    the validation finds nothing. *)
Definition injecting : Bridge :=
  mkBridge "up" "broker.example" "" "" ("mcm" +:+ nl +:+ "allow_anonymous true") "x" false "" "" false "" None None None "" None None "" None "" None None None
    zeroTLS [mkTopicRule "plant/#" "out" 1 "" ""].
Lemma option_injects_directive :
  ValidateBridges id [injecting] [] = []
  ∧ match RenderConf (ApplyDocument (mkFile [] "m.conf") [injecting]) with
    | Ok text => match Conf.Parse text "m.conf" with Ok f => it_key <$> f_items f | Err _ => [] end
    | Err _ => [] end = ["connection"; "address"; "remote_username"; "allow_anonymous"; "remote_password"; "topic"].
Proof. split; vm_compute; reflexivity. Qed.

(** A revision of the whole file can be applied through the endpoint of the
    bridges.  There it is not held to the checks of the file: no verifier has to
    be available, nothing is probed, and the record says [active_verified]. *)
Lemma bridges_endpoint_skips_the_probe :
  (dp_status <$> match (ApplyBridges restarting "op" conf_revision true true (drafted restarting (conf_body "false") [probe_denied])).2 with
    | Ok d => Some d | Err _ => None end) = Some "active_verified"
  ∧ w_verdicts (bw_world (ApplyBridges restarting "op" conf_revision true true (drafted restarting (conf_body "false") [probe_denied])).1) = [probe_denied].
Proof. split; vm_compute; reflexivity. Qed.
