(* ===== verification/PluginDeploy.v ===== *)
(** * [internal/deploy/plugins.go]: reading, previewing and applying plugins

    The plugin endpoints edit [mosquitto.conf] too; the preview stores a revision
    in the table of the broker configuration and the apply is
    [applyBrokerConfigRevision].  [DetectAccessBackend] is from [dynsec.go] of
    the same package. *)
From S2P Require Import Prelude IO Unicode GoStrings GoStrconv GoTime Sha256 Passwd Catalog Conf ConfEdit Include Settings Plugins Store BrokerStore Applier DeployRender Deploy DeployFrame BrokerConfig BrokerProofs BrokerOnce.

Definition kind_plugins : string := "plugins".

(** ** The backend of the access control *)
Inductive AccessBackend := AccessBackendNone | AccessBackendFile | AccessBackendDynamicSecurity.
#[export] Instance AccessBackend_eq_dec : EqDecision AccessBackend.
Proof. solve_decision. Defined.
Definition loads_plugin (cat : PluginCatalog) (it : Item) : bool :=
  match it_kind it, it_values it with
  | ItemDirective, m :: _ => String.eqb (it_key it) "plugin" && bool_decide (is_Some (MatchModule cat m))
  | _, _ => false
  end.
Definition file_backend (it : Item) : bool :=
  bool_decide (it_kind it = ItemDirective) && bool_decide (it_key it = "password_file" ∨ it_key it = "acl_file").
Definition DetectAccessBackend (parsed : File) (cat : option PluginCatalog) : AccessBackend :=
  if existsb (λ it, from_option (λ cat, loads_plugin cat it) false cat) (f_items parsed) then AccessBackendDynamicSecurity
  else if existsb file_backend (f_items parsed) then AccessBackendFile
  else AccessBackendNone.

(** ** The service *)
Inductive plugins_error := PluginsBroker (e : broker_error) | ErrPluginsInvalid (issues : list PluginIssue) | PluginsFailed (e : plugin_error).
Abbreviation plugging := (io bworld plugins_error).
Definition in_broker_config {A} (m : broker A) : plugging A := wrap PluginsBroker m.

Record PluginsResult := mkPluginsResult {
  pr_path : string; pr_version : string; pr_catalog : list PluginSpec; pr_document : PluginDocument;
  pr_backend : AccessBackend; pr_warnings : list PluginIssue
}.

Section service.
Context (c : bconfig) (plugins : option PluginCatalog).
Local Abbreviation confPath := (cf_conf (bc_deploy c)).

Definition with_plugins {A} (k : Catalog → PluginCatalog → plugging A) : plugging A :=
  match bc_catalog c, plugins with
  | Some cat, Some pcat => if decide (confPath = "") then fail (PluginsBroker ErrBrokerConfigDisabled) else k cat pcat
  | _, _ => fail (PluginsBroker ErrBrokerConfigDisabled)
  end.

Definition GetPlugins : plugging PluginsResult :=
  with_plugins (λ _ pcat,
    '(_, parsed) ← in_broker_config (readBrokerConfig c);
    let doc := ExtractPlugins parsed pcat in
    mret (mkPluginsResult confPath (pc_version pcat) (PluginSpecs pcat) doc (DetectAccessBackend parsed (Some pcat)) (ValidatePlugins doc pcat))).

Definition previewPluginsLocked (cat : Catalog) (pcat : PluginCatalog) (actor : string) (doc : PluginDocument) : plugging BrokerPreview :=
  '(body, parsed) ← in_broker_config (readBrokerConfig c);
  match ApplyPluginDocument parsed pcat doc with
  | Err (PluginsInvalid issues) => fail (ErrPluginsInvalid issues)
  | Err e => fail (PluginsFailed e)
  | Ok (updated, changed) => in_broker_config (store_edit c "store plugin preview revision" kind_plugins id cat actor body updated changed)
  end.
Definition PreviewPlugins (actor : string) (doc : PluginDocument) : plugging BrokerPreview :=
  with_plugins (λ cat pcat,
    if negb (bc_store c) then fail (PluginsBroker BrokerStoreMissing)
    else
      preview ← previewPluginsLocked cat pcat actor doc;
      in_broker_config (on_world (emitAudit actor "deployment.preview" None "success")) ;;
      mret preview).
Definition ApplyPlugins : string → string → bool → bool → broker (Deployment message) := apply_surface c kind_plugins.
End service.

(** ** Properties *)

(** [C11] The preview of a plugin document: the broker is not touched; the
    document validates; the revision holds the rendering of the file with the
    document written into it, bound to the bytes it was made from, in which every
    line that is no plugin line and every line of an unknown plugin is kept; the
    operator is shown exactly that body, and the reload kind that the apply will
    act on when the names of the changed options are plain. *)
Theorem PreviewPlugins_reviewed c cat pcat actor doc w w' p :
  bc_catalog c = Some cat → PreviewPlugins c (Some pcat) actor doc w = (w', Ok p) →
  untouched w w' ∧ ∃ body f f' rev,
    fs_files (bw_fs w) !! cf_conf (bc_deploy c) = Some body ∧ Parse body (cf_conf (bc_deploy c)) = Ok f
    ∧ ValidatePlugins doc pcat = [] ∧ ApplyPluginDocument f pcat doc = Ok (f', bp_changed p)
    ∧ RenderConf f' = Ok (br_conf rev) ∧ bp_body p = br_conf rev
    ∧ bw_revisions w' !! bp_revision p = Some rev ∧ br_applied rev = None ∧ br_base_hash rev = contentHash body
    ∧ (Forall plain_name (bp_changed p) → ∀ kind current parsed, classify_revision c cat kind current rev parsed = (bp_reload p, bp_restart p)).
Proof.
  intros Hcat.
  enough (wp (PreviewPlugins c (Some pcat) actor doc) (λ w' r, match r with Ok p => calm w w' ∧ ∃ body f f' rev changed,
      fs_files (bw_fs w) !! cf_conf (bc_deploy c) = Some body ∧ Parse body (cf_conf (bc_deploy c)) = Ok f
      ∧ ApplyPluginDocument f pcat doc = Ok (f', changed)
      ∧ bw_revisions w' !! bp_revision p = Some rev ∧ stored_edit c cat id body f' changed p rev
      | Err _ => True end) w) as H.
  { unfold wp in H. intros E. rewrite E in H. cbn [fst snd] in H.
    destruct H as (Hc & body & f & f' & rev & changed & Hb & Hp & Ha & Hrev & Hr & Hbody & -> & Happ & Hbase & Hk).
    split; [eapply stands_untouched, calm_stands, stands_here; exact Hc|]. exists body, f, f', rev.
    assert (ValidatePlugins doc pcat = []) as Hv.
    { unfold ApplyPluginDocument in Ha. cbv zeta in Ha. by destruct (ValidatePlugins doc pcat). }
    by split_and!. }
  unfold PreviewPlugins, with_plugins. rewrite Hcat. destruct (decide _); [done|]. destruct (bc_store c); [|done]. cbn [negb]. apply wp_bind.
  unfold previewPluginsLocked. apply wp_bind, wp_wrap, wp_read_broker; [|done]. intros w1 body f H1 Hb Hp.
  destruct (ApplyPluginDocument f pcat doc) as [[f' changed]|[]] eqn:Ha; [|done..]. apply wp_wrap.
  eapply wp_mono; [apply wp_store_edit|]. intros w2 [q|e] [H2 Hstored]; [|done]. destruct Hstored as (rev & Hrev & Hs).
  apply wp_bind, wp_wrap, wp_preview_audit. intros w3 H3 Hrevs. apply wp_ret. split; [by etrans; [|etrans]|].
  exists body, f, f', rev, changed. by rewrite Hrevs.
Qed.
