(* ===== verification/PluginExamples.v ===== *)
(** * Plugins on concrete files

    The catalog of Mosquitto 2.0 as it is embedded: the theorems of [Plugins] and
    [PluginDeploy] at concrete inputs, and behaviours the code should not have. *)
From S2P Require Import Prelude IO Unicode GoStrings GoStrconv GoTime Sha256 Passwd Catalog CatalogLoad Conf ConfEdit Include Settings Plugins Store BrokerStore.
From S2P Require Import Applier DeployRender Deploy DeployFrame BrokerConfig BrokerProofs BrokerOnce BrokerExamples PluginDeploy.

Definition dynsec_module : string := "/usr/lib/mosquitto_dynamic_security.so".
Definition dynsec_spec : PluginSpec :=
  mkPluginSpec "dynamic-security" "Dynamic Security" dynsec_module
    [dynsec_module; "/usr/lib/x86_64-linux-gnu/mosquitto_dynamic_security.so"; "/usr/local/lib/mosquitto_dynamic_security.so"] "2.0" ReloadRestart
    [mkOption "config_file" true "/mosquitto/config/dynamic-security.json" true].
Definition plugin_files : gmap string (list (string * PluginSpec) * option string) :=
  {["2.0" := ([("", dynsec_spec)], None); "2.1" := ([("2.0", mkPluginSpec "" "" "" [] "" "" [])], None)]}.
Definition plugin_catalog : PluginCatalog := mkPluginCatalog "2.0" {["dynamic-security" := dynsec_spec]} ["dynamic-security"].
Example catalogs_loaded :
  LoadPlugins plugin_files "2.0" = Ok plugin_catalog
  ∧ LoadPlugins plugin_files "2.1" = Ok (mkPluginCatalog "2.1" (pc_specs plugin_catalog) ["dynamic-security"]).
Proof. split; vm_compute; reflexivity. Qed.

Lemma match_singleton path spec : MatchModule plugin_catalog path = Some spec → spec = dynsec_spec.
Proof.
  unfold MatchModule, match_module. cbv zeta. destruct (decide _); [done|]. intros [H _]%find_some. apply list_elem_of_In in H.
  cbn [pc_specs plugin_catalog] in H. rewrite map_to_list_singleton in H. by apply list_elem_of_singleton in H.
Qed.
Lemma plugin_catalog_coherent : coherent plugin_catalog.
Proof. intros path spec ->%match_singleton. split; [vm_compute; reflexivity|]. vm_compute. discriminate. Qed.

Definition conf_of (lines : list string) : File := match Conf.Parse (unlines lines) "/m/mosquitto.conf" with Ok f => f | Err _ => mkFile [] "" end.
Definition plugin_lines : list string :=
  ["persistence true"; "plugin /opt/audit.so"; "plugin_opt_level 3"; "# access"; "plugin " +:+ dynsec_module; "plugin_opt_config_file /m/ds.json"; "plugin_opt_debug 1"; "listener 1883"].
Definition plugin_file : File := conf_of plugin_lines.
Definition dynsec_plugin (module file : string) : Plugin := mkPlugin "dynamic-security" module {["config_file" := file]} ∅.
Definition edited_document : PluginDocument := [mkPlugin "" "/opt/audit.so" ∅ ∅; dynsec_plugin dynsec_module "/m/other.json"].
Definition texts (f : File) : list string := it_text <$> f_items f.

Lemma ApplyPluginDocument_preserves_witness :
  ∃ f', ApplyPluginDocument plugin_file plugin_catalog edited_document = Ok (f', ["plugin_opt_config_file"])
    ∧ unmanaged_items plugin_catalog (f_items plugin_file) `sublist_of` f_items f'
    ∧ length (unmanaged_items plugin_catalog (f_items plugin_file)) = 5.
Proof.
  eexists. split; [vm_compute; reflexivity|]. split; [|vm_compute; reflexivity].
  refine (proj1 (proj2 (ApplyPluginDocument_preserves plugin_file plugin_catalog edited_document _ _ _))). vm_compute. reflexivity.
Defined.

Lemma plugin_file_settled : settled plugin_catalog (f_items plugin_file).
Proof.
  unfold settled. assert (groups (f_items plugin_file) = [mkGroup 1 "/opt/audit.so" [("level", 2)]; mkGroup 4 dynsec_module [("config_file", 5); ("debug", 6)]]) as ->
    by (vm_compute; reflexivity).
  repeat (apply Forall_cons; split); [| |constructor]; (split; [vm_compute; reflexivity|]); intros spec Hspec.
  - vm_compute in Hspec. discriminate.
  - apply match_singleton in Hspec as ->. repeat (apply Forall_cons; split); [| |constructor]; intros opt Hopt; vm_compute in Hopt.
    + injection Hopt as <-. split; [reflexivity|]. vm_compute. discriminate.
    + discriminate.
Qed.
Lemma ApplyPluginDocument_Extract_witness :
  length (ExtractPlugins plugin_file plugin_catalog) = 2
  ∧ ApplyPluginDocument plugin_file plugin_catalog (ExtractPlugins plugin_file plugin_catalog) = Ok (plugin_file, []).
Proof.
  split; [vm_compute; reflexivity|]. apply (ApplyPluginDocument_Extract plugin_file plugin_catalog plugin_catalog_coherent plugin_file_settled).
  vm_compute. reflexivity.
Defined.

(** *** Behaviours *)

(** A plugin with two managed options. *)
Definition bridge_spec : PluginSpec :=
  mkPluginSpec "audit" "Audit" "/opt/audit.so" [] "2.0" ReloadRestart [mkOption "level" false "" false; mkOption "target" false "" false].
Definition two_options : PluginCatalog := mkPluginCatalog "2.0" {["audit" := bridge_spec]} ["audit"].
(** The option that is added goes after the last option of the plugin.  When that
    one is dropped by the same edit, the new option is dropped along with it: the
    operator is told that it changed and it is not in the file. *)
Lemma added_option_lost :
  match ApplyPluginDocument (conf_of ["plugin /opt/audit.so"; "plugin_opt_level 3"]) two_options [mkPlugin "audit" "/opt/audit.so" {["target" := "syslog"]} ∅] with
  | Ok (f', changed) => Some (texts f', changed)
  | Err _ => None
  end = Some (["plugin /opt/audit.so" +:+ nl], ["plugin_opt_level"; "plugin_opt_target"]).
Proof. vm_compute. reflexivity. Qed.

(** Only the first line of a repeated option belongs to its plugin.  Removing the
    plugin leaves the others, and they become options of the plugin before. *)
Definition repeated : File :=
  conf_of ["plugin /opt/audit.so"; "plugin_opt_level 3"; "plugin " +:+ dynsec_module; "plugin_opt_config_file /m/a.json"; "plugin_opt_config_file /m/b.json"].
Lemma repeated_option_changes_owner :
  match ApplyPluginDocument repeated plugin_catalog [mkPlugin "" "/opt/audit.so" ∅ ∅] with
  | Ok (f', _) => (λ p, map_to_list (pl_unknown p)) <$> ExtractPlugins f' plugin_catalog
  | Err _ => []
  end = [map_to_list (<["level" := "3"]> {["config_file" := "/m/b.json"]} : gmap string string)].
Proof. vm_compute. reflexivity. Qed.

(** The module of a plugin of the catalog is not checked for line breaks: a valid
    document adds a directive of its own. *)
Definition broken_module : string := dynsec_module +:+ nl +:+ "allow_anonymous true".
Lemma known_module_injects :
  ValidatePlugins [dynsec_plugin broken_module "/m/ds.json"] plugin_catalog = []
  ∧ match ApplyPluginDocument (conf_of ["persistence true"]) plugin_catalog [dynsec_plugin broken_module "/m/ds.json"] with
    | Ok (f', _) => match RenderConf f' with
      | Ok text => match Conf.Parse text "/m/mosquitto.conf" with Ok f => it_key <$> f_items f | Err _ => [] end
      | Err _ => [] end
    | Err _ => [] end = ["persistence"; "plugin"; "allow_anonymous"; "plugin_opt_config_file"].
Proof. split; vm_compute; reflexivity. Qed.

(** A module path of the operator's own, which the catalog says is allowed, is
    not recognised in the file: saving the same document twice loads the plugin
    twice. *)
Definition own_module : PluginDocument := [dynsec_plugin "/opt/ds.so" "/m/ds.json"].
Lemma own_module_added_twice :
  match ApplyPluginDocument (conf_of ["persistence true"]) plugin_catalog own_module with
  | Ok (once, _) => match ApplyPluginDocument once plugin_catalog own_module with
    | Ok (twice, _) => pl_module <$> ExtractPlugins twice plugin_catalog
    | Err _ => [] end
  | Err _ => [] end = ["/opt/ds.so"; "/opt/ds.so"].
Proof. vm_compute. reflexivity. Qed.

(** *** The deploy *)
Definition plugin_conf_catalog : Catalog := mkCatalog "2.0" (<["plugin" := conf_spec "plugin" TypePath CatScopeGlobal Many Restart ""]> (cat_specs conf_catalog)).
Definition plugin_config : bconfig :=
  mkBConfig (bc_deploy restarting) (Some plugin_conf_catalog) (bc_store restarting) (bc_verifier restarting) (bc_view restarting) (bc_diff restarting).
Lemma PreviewPlugins_reviewed_witness :
  ∃ w' p, PreviewPlugins plugin_config (Some plugin_catalog) "op" [dynsec_plugin dynsec_module "/m/ds.json"] (conf_world []) = (w', Ok p)
    ∧ untouched (conf_world []) w' ∧ (bp_reload p, bp_restart p, bp_changed p) = (Restart, true, ["plugin"; "plugin_opt_config_file"]).
Proof.
  eexists _, _. split; [vm_compute; reflexivity|]. split; [|vm_compute; reflexivity].
  refine (proj1 (PreviewPlugins_reviewed plugin_config plugin_conf_catalog plugin_catalog "op" [dynsec_plugin dynsec_module "/m/ds.json"] (conf_world []) _ _ _ _));
    vm_compute; reflexivity.
Defined.
Definition plugins_previewed : bworld * result plugins_error BrokerPreview :=
  PreviewPlugins plugin_config (Some plugin_catalog) "op" [dynsec_plugin dynsec_module "/m/ds.json"] (conf_world []).
Definition plugins_applied : bworld * result broker_error (Deployment message) := ApplyPlugins plugin_config "op" conf_revision true true plugins_previewed.1.
Example plugins_active :
  (dp_status <$> match plugins_applied.2 with Ok d => Some d | Err _ => None end) = Some "active_verified"
  ∧ match (GetPlugins plugin_config (Some plugin_catalog) plugins_applied.1).2 with
    | Ok r => Some (pl_module <$> pr_document r, pr_backend r, pr_warnings r)
    | Err _ => None end = Some ([dynsec_module], AccessBackendDynamicSecurity, []).
Proof. split; vm_compute; reflexivity. Qed.
