(* ===== verification/Dynsec.v ===== *)
(** * [internal/dynsec/model.go]: the security database of the broker plugin

    The clients, groups and roles of the dynamic security plugin, the checks
    of a document before it is sent ([Validate]), and the operations that give
    a document its canonical form.  Messages are left to the issue's kind,
    object and field; the arguments of the format strings are the object and
    the referenced name. *)
From S2P Require Import Prelude Unicode GoStrings Acl.

(** ** Vocabulary *)
Definition ControlTopic : string := "$CONTROL/dynamic-security/v1".
Definition ControlTopicPrefix : string := "$CONTROL/dynamic-security/".

Definition ACLPublishClientSend : string := "publishClientSend".
Definition ACLPublishClientReceive : string := "publishClientReceive".
Definition ACLSubscribeLiteral : string := "subscribeLiteral".
Definition ACLSubscribePattern : string := "subscribePattern".
Definition ACLUnsubscribeLiteral : string := "unsubscribeLiteral".
Definition ACLUnsubscribePattern : string := "unsubscribePattern".
Definition ACLTypes : list string :=
  [ACLPublishClientSend; ACLPublishClientReceive; ACLSubscribeLiteral; ACLSubscribePattern;
   ACLUnsubscribeLiteral; ACLUnsubscribePattern].
Definition ValidACLType (t : string) : bool := bool_decide (t ∈ ACLTypes).

Definition DefaultPublishClientSend : string := "publishClientSend".
Definition DefaultPublishClientReceive : string := "publishClientReceive".
Definition DefaultSubscribe : string := "subscribe".
Definition DefaultUnsubscribe : string := "unsubscribe".

(** ** The data *)
Record ACL := mkACL { acl_type : string; acl_topic : string; acl_allow : bool; acl_priority : Z }.
Record RoleRef := mkRoleRef { rr_name : string; rr_priority : Z }.
Record GroupRef := mkGroupRef { gr_name : string; gr_priority : Z }.
Record ClientRef := mkClientRef { cr_name : string; cr_priority : Z }.

Record Role := mkRole {
  ro_name : string; ro_textname : string; ro_textdesc : string; ro_acls : list ACL
}.
Record Client := mkClient {
  cl_name : string; cl_textname : string; cl_textdesc : string; cl_client_id : string;
  cl_password : string; cl_password_set : bool;
  cl_roles : list RoleRef; cl_groups : list GroupRef; cl_disabled : bool
}.
Record Group := mkGroup {
  gp_name : string; gp_textname : string; gp_textdesc : string;
  gp_roles : list RoleRef; gp_clients : list ClientRef
}.
Record DefaultAccess := mkAccess {
  da_publish_send : bool; da_publish_receive : bool; da_subscribe : bool; da_unsubscribe : bool
}.
Record Document := mkDocument {
  d_clients : list Client; d_groups : list Group; d_roles : list Role;
  d_default : DefaultAccess; d_anonymous : string
}.
#[export] Instance ACL_eq_dec : EqDecision ACL. Proof. solve_decision. Defined.
#[export] Instance DefaultAccess_eq_dec : EqDecision DefaultAccess. Proof. solve_decision. Defined.

(** ** Operations *)
Definition RedactedClient (c : Client) : Client :=
  mkClient (cl_name c) (cl_textname c) (cl_textdesc c) (cl_client_id c) ""
    (cl_password_set c || negb (bool_decide (cl_password c = "")))
    (cl_roles c) (cl_groups c) (cl_disabled c).

Definition Redacted (d : Document) : Document :=
  mkDocument (RedactedClient <$> d_clients d) (d_groups d) (d_roles d) (d_default d) (d_anonymous d).

Definition FindClient (d : Document) (name : string) : option Client :=
  head (filter (λ c, cl_name c = name) (d_clients d)).
Definition FindGroup (d : Document) (name : string) : option Group :=
  head (filter (λ g, gp_name g = name) (d_groups d)).
Definition FindRole (d : Document) (name : string) : option Role :=
  head (filter (λ r, ro_name r = name) (d_roles d)).

(** [Normalize]: [members] maps a user to the groups that list it.  The code
    ranges over a Go map, so the order of the groups is unspecified; here it is
    the order of [elements]. *)
Definition members_of (groups : list Group) (username : string) : gset string :=
  list_to_set (gp_name <$> filter (λ g, username ∈ cr_name <$> gp_clients g) groups).

Definition set_groups (c : Client) (groups : list GroupRef) : Client :=
  mkClient (cl_name c) (cl_textname c) (cl_textdesc c) (cl_client_id c) (cl_password c) (cl_password_set c)
    (cl_roles c) groups (cl_disabled c).

Definition NormalizeDocument (d : Document) : Document :=
  mkDocument
    ((λ c, set_groups c ((λ name, mkGroupRef name 0) <$> elements (members_of (d_groups d) (cl_name c)))) <$> d_clients d)
    (d_groups d) (d_roles d) (d_default d) (d_anonymous d).

(** [Sort]. *)
Definition acl_less (a b : ACL) : bool :=
  if decide (acl_type a = acl_type b) then string_less (acl_topic a) (acl_topic b)
  else string_less (acl_type a) (acl_type b).
Definition by_name {A} (name : A → string) (a b : A) : bool := string_less (name a) (name b).

Definition sort_role (r : Role) : Role :=
  mkRole (ro_name r) (ro_textname r) (ro_textdesc r) (sort_stable acl_less (ro_acls r)).
Definition sort_client (c : Client) : Client :=
  mkClient (cl_name c) (cl_textname c) (cl_textdesc c) (cl_client_id c) (cl_password c) (cl_password_set c)
    (sort_stable (by_name rr_name) (cl_roles c)) (sort_stable (by_name gr_name) (cl_groups c)) (cl_disabled c).
Definition sort_group (g : Group) : Group :=
  mkGroup (gp_name g) (gp_textname g) (gp_textdesc g)
    (sort_stable (by_name rr_name) (gp_roles g)) (sort_stable (by_name cr_name) (gp_clients g)).
Definition SortDocument (d : Document) : Document :=
  mkDocument
    (sort_client <$> sort_stable (by_name cl_name) (d_clients d))
    (sort_group <$> sort_stable (by_name gp_name) (d_groups d))
    (sort_role <$> sort_stable (by_name ro_name) (d_roles d))
    (d_default d) (d_anonymous d).

(** ** [Validate] *)
Record Issue := mkIssue { is_kind : string; is_object : string; is_field : string; is_detail : string }.

Definition nul_char : ascii := "000".
Definition name_byte (c : ascii) : bool :=
  negb (bool_decide (c ∈ ["#"%char; "+"%char; nul_char; nl_char; cr_char])).
Definition validObjectName (name : string) : bool :=
  negb (bool_decide (trim_space name = "")) && all_bytes name_byte name.

(** The loops over the clients, the groups and the roles have the same shape:
    a blank name is reported and skipped, a bad or repeated name is reported,
    and the object's own entries follow.  [seen] are the names so far. *)
Fixpoint check_objects {A} (name : A → string) (field : string) (entries : A → list Issue)
    (seen : gset string) (l : list A) : list Issue :=
  match l with
  | [] => []
  | x :: rest =>
      if decide (trim_space (name x) = "") then
        mkIssue "name" (name x) field "blank" :: check_objects name field entries seen rest
      else
        (if validObjectName (name x) then [] else [mkIssue "name" (name x) field "characters"])
        ++ (if decide (name x ∈ seen) then [mkIssue "duplicate" (name x) field ""] else [])
        ++ entries x
        ++ check_objects name field entries ({[name x]} ∪ seen) rest
  end.

(** The names that pass the blank check: the keys of the maps [clients],
    [groups] and [roles]. *)
Definition known_names {A} (name : A → string) (l : list A) : list string :=
  filter (λ n, trim_space n ≠ "") (name <$> l).

Definition acl_issues (role : string) (entry : ACL) : list Issue :=
  if negb (ValidACLType (acl_type entry)) then [mkIssue "value" role "acls" (acl_type entry)]
  else if decide (trim_space (acl_topic entry) = "") then [mkIssue "topic" role "acls" "blank"]
  else match ValidateTopicFilter (acl_topic entry) with
  | Some _ => [mkIssue "topic" role "acls" (acl_topic entry)]
  | None => []
  end.

Definition ref_issues (known : list string) (object field : string) (refs : list string) : list Issue :=
  (λ n, mkIssue "reference" object field n) <$> filter (λ n, n ∉ known) refs.

Definition Validate (doc : Document) : list Issue :=
  let clients := known_names cl_name (d_clients doc) in
  let groups := known_names gp_name (d_groups doc) in
  let roles := known_names ro_name (d_roles doc) in
  check_objects cl_name "username" (λ _, []) ∅ (d_clients doc)
  ++ check_objects gp_name "group_name" (λ _, []) ∅ (d_groups doc)
  ++ check_objects ro_name "role_name" (λ r, ro_acls r ≫= acl_issues (ro_name r)) ∅ (d_roles doc)
  ++ (d_clients doc ≫= λ c, ref_issues roles (cl_name c) "roles" (rr_name <$> cl_roles c)
        ++ ref_issues groups (cl_name c) "groups" (gr_name <$> cl_groups c))
  ++ (d_groups doc ≫= λ g, ref_issues roles (gp_name g) "roles" (rr_name <$> gp_roles g)
        ++ ref_issues clients (gp_name g) "clients" (cr_name <$> gp_clients g))
  ++ (if bool_decide (d_anonymous doc ≠ "") && bool_decide (d_anonymous doc ∉ groups)
      then [mkIssue "reference" (d_anonymous doc) "anonymous_group" ""] else []).

Definition HasErrors (issues : list Issue) : bool := negb (bool_decide (length issues = 0)).

(** ** Specifications *)
Definition acl_ok (e : ACL) : Prop :=
  acl_type e ∈ ACLTypes ∧ trim_space (acl_topic e) ≠ "" ∧ ValidateTopicFilter (acl_topic e) = None.

Definition names_ok (names : list string) : Prop := NoDup names ∧ Forall (λ n, validObjectName n = true) names.

Record well_formed (d : Document) : Prop := {
  wf_clients : names_ok (cl_name <$> d_clients d);
  wf_groups : names_ok (gp_name <$> d_groups d);
  wf_roles : names_ok (ro_name <$> d_roles d);
  wf_acls : ∀ r e, r ∈ d_roles d → e ∈ ro_acls r → acl_ok e;
  wf_client_roles : ∀ c ref, c ∈ d_clients d → ref ∈ cl_roles c → rr_name ref ∈ ro_name <$> d_roles d;
  wf_client_groups : ∀ c ref, c ∈ d_clients d → ref ∈ cl_groups c → gr_name ref ∈ gp_name <$> d_groups d;
  wf_group_roles : ∀ g ref, g ∈ d_groups d → ref ∈ gp_roles g → rr_name ref ∈ ro_name <$> d_roles d;
  wf_group_clients : ∀ g ref, g ∈ d_groups d → ref ∈ gp_clients g → cr_name ref ∈ cl_name <$> d_clients d;
  wf_anonymous : d_anonymous d = "" ∨ d_anonymous d ∈ gp_name <$> d_groups d
}.

(** ** Lemmas *)

Lemma validObjectName_spec n : validObjectName n = true ↔ trim_space n ≠ "" ∧ all_bytes name_byte n = true.
Proof. unfold validObjectName. rewrite andb_true_iff, negb_true_iff, bool_decide_eq_false. done. Qed.

Lemma check_objects_nil {A} (name : A → string) field entries seen l :
  check_objects name field entries seen l = [] ↔
  names_ok (name <$> l) ∧ (∀ x, x ∈ l → name x ∉ seen) ∧ ∀ x, x ∈ l → entries x = [].
Proof.
  unfold names_ok. revert seen. induction l as [|x l IH]; intros seen.
  { split; [|done]. intros _. repeat split; try constructor; intros x Hx; by apply elem_of_nil in Hx. }
  cbn [check_objects]. rewrite fmap_cons, NoDup_cons, Forall_cons.
  assert (∀ P : A → Prop, (∀ y, y ∈ x :: l → P y) ↔ P x ∧ ∀ y, y ∈ l → P y) as Hall.
  { intros P. setoid_rewrite elem_of_cons. split; [intros Hp; split; [apply Hp; by left|intros y Hy; apply Hp; by right]|].
    intros [H0 H1] y [->|Hy]; auto. }
  rewrite !Hall. destruct (decide (trim_space (name x) = "")) as [Hb|Hb].
  { split; [done|]. intros [[_ [Hv _]] _]. by apply validObjectName_spec in Hv as [? _]. }
  rewrite !app_nil, IH. destruct (validObjectName (name x)).
  2: { split; [by intros [? _]|]. intros [[_ [? _]] _]. done. }
  destruct (decide (name x ∈ seen)) as [Hs|Hs].
  { split; [by intros (_ & ? & _)|]. intros (_ & [? _] & _). done. }
  assert ((∀ y, y ∈ l → name y ∉ {[name x]} ∪ seen) ↔ (name x ∉ name <$> l) ∧ ∀ y, y ∈ l → name y ∉ seen) as ->.
  { setoid_rewrite not_elem_of_union. setoid_rewrite not_elem_of_singleton. rewrite list_elem_of_fmap. split.
    - intros H. split; [intros (y & Heq & Hy); by destruct (H y Hy)|intros y Hy; apply H, Hy].
    - intros [H0 H1] y Hy. split; [intros Heq; apply H0; by exists y|by apply H1]. }
  tauto.
Qed.

Lemma known_names_ok {A} (name : A → string) l : names_ok (name <$> l) → known_names name l = name <$> l.
Proof.
  intros [_ Hv]. unfold known_names. induction (name <$> l) as [|n ns IH]; [done|]. apply Forall_cons in Hv as [Hn Hv].
  rewrite filter_cons_True by by apply validObjectName_spec in Hn as [? _]. by rewrite IH.
Qed.

Lemma acl_issues_nil role e : acl_issues role e = [] ↔ acl_ok e.
Proof.
  unfold acl_issues, acl_ok, ValidACLType. case_bool_decide as Ht; simpl; [|split; [done|by intros [? _]]].
  destruct (decide (trim_space (acl_topic e) = "")) as [E|E]; [split; [done|by intros (_ & ? & _)]|].
  destruct (ValidateTopicFilter (acl_topic e)); split; try done. by intros (_ & _ & ?).
Qed.

Lemma ref_issues_nil known object field refs : ref_issues known object field refs = [] ↔ ∀ n, n ∈ refs → n ∈ known.
Proof.
  unfold ref_issues. rewrite <-length_zero_iff_nil, length_fmap, length_zero_iff_nil. split.
  - intros H n Hn. destruct (decide (n ∈ known)) as [|Hk]; [done|]. exfalso.
    assert (n ∈ filter (λ n, n ∉ known) refs) as Hin by by apply list_elem_of_filter.
    rewrite H in Hin. by apply elem_of_nil in Hin.
  - intros H. induction refs as [|n refs IH]; [done|]. rewrite filter_cons_False.
    + apply IH. intros m Hm. apply H. by right.
    + intros Hn. apply Hn, H. by left.
Qed.

Lemma refs_nil {A} known object field (name : A → string) refs :
  ref_issues known object field (name <$> refs) = [] ↔ ∀ r, r ∈ refs → name r ∈ known.
Proof.
  rewrite ref_issues_nil. split.
  - intros H r Hr. apply H. by apply list_elem_of_fmap_2.
  - intros H n (r & -> & Hr)%list_elem_of_fmap. by apply H.
Qed.

Lemma Validate_spec doc : Validate doc = [] ↔ well_formed doc.
Proof.
  unfold Validate. cbv zeta. rewrite !app_nil, !check_objects_nil, !bind_nil.
  assert (∀ P, (∀ x : Client, x ∈ d_clients doc → cl_name x ∉ (∅ : gset string)) ∧ P ↔ P) as E1 by set_solver.
  assert (∀ P, (∀ x : Group, x ∈ d_groups doc → gp_name x ∉ (∅ : gset string)) ∧ P ↔ P) as E2 by set_solver.
  assert (∀ P, (∀ x : Role, x ∈ d_roles doc → ro_name x ∉ (∅ : gset string)) ∧ P ↔ P) as E3 by set_solver.
  rewrite E1, E2, E3. clear E1 E2 E3. setoid_rewrite app_nil. setoid_rewrite bind_nil. setoid_rewrite acl_issues_nil.
  setoid_rewrite refs_nil.
  assert (∀ groups : list string, (if bool_decide (d_anonymous doc ≠ "") && bool_decide (d_anonymous doc ∉ groups)
    then [mkIssue "reference" (d_anonymous doc) "anonymous_group" ""] else []) = []
    ↔ (d_anonymous doc = "" ∨ d_anonymous doc ∈ groups)) as Ha.
  { intros groups. destruct (decide (d_anonymous doc = "")), (decide (d_anonymous doc ∈ groups));
    case_bool_decide; case_bool_decide; simpl; split; try done; tauto. }
  rewrite Ha. clear Ha. split.
  - intros ([Hc _] & [Hg _] & [Hr Hacl] & Hcr & Hgr & Han).
    rewrite (known_names_ok ro_name), (known_names_ok gp_name) in Hcr by done.
    rewrite (known_names_ok ro_name), (known_names_ok cl_name) in Hgr by done.
    rewrite (known_names_ok gp_name) in Han by done.
    constructor; try done; intros; first [by eapply Hacl|by apply (Hcr c)|by apply (Hgr g)].
  - intros [Hc Hg Hr Hacl H1 H2 H3 H4 Han]. rewrite !known_names_ok by done.
    repeat match goal with |- _ ∧ _ => split end; try done; try (intros; by eapply Hacl).
    + intros c Hin. split; intros; first [by eapply H1|by eapply H2].
    + intros g Hin. split; intros; first [by eapply H3|by eapply H4].
Qed.

Lemma Validate_well_formed_nil doc : Validate doc = [] → well_formed doc.
Proof. apply Validate_spec. Qed.

(** ** Properties *)

(** A document passes validation exactly when it is well formed: the
    clients, groups and roles have distinct names of the accepted characters,
    every access entry has a known type and a valid topic filter, and every
    reference, the anonymous group included, names an object of the document. *)
Theorem Validate_well_formed doc : Validate doc = [] ↔ well_formed doc.
Proof. apply Validate_spec. Qed.

Lemma elem_of_members groups username name :
  name ∈ members_of groups username ↔ ∃ g, g ∈ groups ∧ gp_name g = name ∧ username ∈ cr_name <$> gp_clients g.
Proof.
  unfold members_of. rewrite elem_of_list_to_set, list_elem_of_fmap. setoid_rewrite list_elem_of_filter. naive_solver.
Qed.

Lemma normalized_groups d c :
  c ∈ d_clients (NormalizeDocument d) →
  ∃ c0, c0 ∈ d_clients d ∧ c = set_groups c0 ((λ name, mkGroupRef name 0) <$> elements (members_of (d_groups d) (cl_name c0))).
Proof. intros (c0 & -> & H)%list_elem_of_fmap. by exists c0. Qed.

Lemma normalized_names d : cl_name <$> d_clients (NormalizeDocument d) = cl_name <$> d_clients d.
Proof. cbn. rewrite <-list_fmap_compose. by apply list_fmap_ext. Qed.

Lemma NormalizeDocument_groups d c name : c ∈ d_clients (NormalizeDocument d) →
  name ∈ gr_name <$> cl_groups c ↔ ∃ g, g ∈ d_groups d ∧ gp_name g = name ∧ cl_name c ∈ cr_name <$> gp_clients g.
Proof.
  intros (c0 & _ & ->)%normalized_groups. cbn [cl_groups cl_name set_groups].
  assert (gr_name <$> ((λ name, mkGroupRef name 0) <$> elements (members_of (d_groups d) (cl_name c0))) = elements (members_of (d_groups d) (cl_name c0))) as ->
    by (rewrite <-list_fmap_compose; apply list_fmap_id).
  by rewrite elem_of_elements, elem_of_members.
Qed.

(** Normalising makes the groups the authority on the membership: a client
    belongs to exactly the groups that list it, each once; nothing else of the
    document changes, normalising again changes nothing, and a well formed
    document stays well formed. *)
Theorem NormalizeDocument_membership d :
  (∀ c name, c ∈ d_clients (NormalizeDocument d) →
     name ∈ gr_name <$> cl_groups c ↔ ∃ g, g ∈ d_groups d ∧ gp_name g = name ∧ cl_name c ∈ cr_name <$> gp_clients g)
  ∧ (∀ c, c ∈ d_clients (NormalizeDocument d) → NoDup (gr_name <$> cl_groups c))
  ∧ ((λ c, set_groups c []) <$> d_clients (NormalizeDocument d) = (λ c, set_groups c []) <$> d_clients d)
  ∧ NormalizeDocument (NormalizeDocument d) = NormalizeDocument d
  ∧ (well_formed d → well_formed (NormalizeDocument d)).
Proof.
  assert (∀ names : list string, gr_name <$> ((λ name, mkGroupRef name 0) <$> names) = names) as Hid.
  { intros names. rewrite <-list_fmap_compose. apply list_fmap_id. }
  split; [|split; [|split; [|split]]].
  - intros c name (c0 & _ & ->)%normalized_groups. cbn [cl_groups cl_name set_groups].
    by rewrite Hid, elem_of_elements, elem_of_members.
  - intros c (c0 & _ & ->)%normalized_groups. cbn [cl_groups set_groups]. rewrite Hid. apply NoDup_elements.
  - cbn. rewrite <-list_fmap_compose. by apply list_fmap_ext.
  - unfold NormalizeDocument. cbn [d_clients d_groups d_roles d_default d_anonymous]. f_equal.
    rewrite <-list_fmap_compose. by apply list_fmap_ext.
  - intros [Hc Hg Hr Hacl H1 H2 H3 H4 Han]. constructor; try done.
    + by rewrite normalized_names.
    + intros c ref (c0 & Hc0 & ->)%normalized_groups Href. by eapply H1.
    + intros c ref (c0 & Hc0 & ->)%normalized_groups Href. cbn [cl_groups set_groups d_groups] in *.
      apply list_elem_of_fmap in Href as (name & -> & (g & Hgin & <- & _)%elem_of_elements%elem_of_members).
      cbn [gr_name]. by apply (list_elem_of_fmap_2 gp_name).
    + intros g ref Hgin Href. rewrite normalized_names. by eapply H4.
Qed.
