(* ===== verification/DynsecPlan.v ===== *)
(** * [internal/dynsec/plan.go] and the wire form of [protocol.go]

    [BuildPlan] compares two documents of the security database and lists the
    commands that turn the first into the second; [CheckControlChannel] says
    who may reach the control channel of the plugin.  The summaries shown to
    the operator are constructors that keep the arguments of the format
    strings. *)
From S2P Require Import Prelude Unicode GoStrings Acl Dynsec.

(** ** The commands of the plugin *)
Definition CommandListClients : string := "listClients".
Definition CommandCreateClient : string := "createClient".
Definition CommandDeleteClient : string := "deleteClient".
Definition CommandModifyClient : string := "modifyClient".
Definition CommandEnableClient : string := "enableClient".
Definition CommandDisableClient : string := "disableClient".
Definition CommandSetClientPassword : string := "setClientPassword".
Definition CommandAddClientRole : string := "addClientRole".
Definition CommandRemoveClientRole : string := "removeClientRole".
Definition CommandListGroups : string := "listGroups".
Definition CommandCreateGroup : string := "createGroup".
Definition CommandDeleteGroup : string := "deleteGroup".
Definition CommandModifyGroup : string := "modifyGroup".
Definition CommandAddGroupClient : string := "addGroupClient".
Definition CommandRemoveGroupClient : string := "removeGroupClient".
Definition CommandAddGroupRole : string := "addGroupRole".
Definition CommandRemoveGroupRole : string := "removeGroupRole".
Definition CommandSetAnonymousGroup : string := "setAnonymousGroup".
Definition CommandGetAnonymousGroup : string := "getAnonymousGroup".
Definition CommandListRoles : string := "listRoles".
Definition CommandCreateRole : string := "createRole".
Definition CommandDeleteRole : string := "deleteRole".
Definition CommandModifyRole : string := "modifyRole".
Definition CommandAddRoleACL : string := "addRoleACL".
Definition CommandRemoveRoleACL : string := "removeRoleACL".
Definition CommandSetDefaultACLAccess : string := "setDefaultACLAccess".
Definition CommandGetDefaultACLAccess : string := "getDefaultACLAccess".

Record CommandRoleRef := mkCmdRole { cmr_name : string; cmr_priority : option Z }.
Record CommandACL := mkCmdACL { ca_type : string; ca_topic : string; ca_priority : option Z; ca_allow : option bool }.

Record Command := mkCommand {
  cmd_name : string; cmd_username : string; cmd_password : string; cmd_client_id : string;
  cmd_textname : string; cmd_textdesc : string; cmd_groupname : string; cmd_rolename : string;
  cmd_acltype : string; cmd_topic : string; cmd_allow : option bool; cmd_priority : option Z;
  cmd_verbose : bool; cmd_count : Z;
  cmd_roles : list CommandRoleRef; cmd_acls : list CommandACL
}.

(** A command with only its name, and the fields that address objects. *)
Definition command (name : string) : Command :=
  mkCommand name "" "" "" "" "" "" "" "" "" None None false 0 [] [].
Definition for_client (u : string) (c : Command) : Command :=
  mkCommand (cmd_name c) u (cmd_password c) (cmd_client_id c) (cmd_textname c) (cmd_textdesc c) (cmd_groupname c)
    (cmd_rolename c) (cmd_acltype c) (cmd_topic c) (cmd_allow c) (cmd_priority c) (cmd_verbose c) (cmd_count c) (cmd_roles c) (cmd_acls c).
Definition for_group (g : string) (c : Command) : Command :=
  mkCommand (cmd_name c) (cmd_username c) (cmd_password c) (cmd_client_id c) (cmd_textname c) (cmd_textdesc c) g
    (cmd_rolename c) (cmd_acltype c) (cmd_topic c) (cmd_allow c) (cmd_priority c) (cmd_verbose c) (cmd_count c) (cmd_roles c) (cmd_acls c).
Definition for_role (r : string) (c : Command) : Command :=
  mkCommand (cmd_name c) (cmd_username c) (cmd_password c) (cmd_client_id c) (cmd_textname c) (cmd_textdesc c) (cmd_groupname c)
    r (cmd_acltype c) (cmd_topic c) (cmd_allow c) (cmd_priority c) (cmd_verbose c) (cmd_count c) (cmd_roles c) (cmd_acls c).
Definition with_text (name desc : string) (c : Command) : Command :=
  mkCommand (cmd_name c) (cmd_username c) (cmd_password c) (cmd_client_id c) name desc (cmd_groupname c)
    (cmd_rolename c) (cmd_acltype c) (cmd_topic c) (cmd_allow c) (cmd_priority c) (cmd_verbose c) (cmd_count c) (cmd_roles c) (cmd_acls c).
Definition with_login (password client_id : string) (c : Command) : Command :=
  mkCommand (cmd_name c) (cmd_username c) password client_id (cmd_textname c) (cmd_textdesc c) (cmd_groupname c)
    (cmd_rolename c) (cmd_acltype c) (cmd_topic c) (cmd_allow c) (cmd_priority c) (cmd_verbose c) (cmd_count c) (cmd_roles c) (cmd_acls c).
Definition with_access (acltype topic : string) (allow : option bool) (c : Command) : Command :=
  mkCommand (cmd_name c) (cmd_username c) (cmd_password c) (cmd_client_id c) (cmd_textname c) (cmd_textdesc c) (cmd_groupname c)
    (cmd_rolename c) acltype topic allow (cmd_priority c) (cmd_verbose c) (cmd_count c) (cmd_roles c) (cmd_acls c).
Definition with_priority (p : Z) (c : Command) : Command :=
  mkCommand (cmd_name c) (cmd_username c) (cmd_password c) (cmd_client_id c) (cmd_textname c) (cmd_textdesc c) (cmd_groupname c)
    (cmd_rolename c) (cmd_acltype c) (cmd_topic c) (cmd_allow c) (Some p) (cmd_verbose c) (cmd_count c) (cmd_roles c) (cmd_acls c).
Definition with_lists (roles : list CommandRoleRef) (acls : list CommandACL) (c : Command) : Command :=
  mkCommand (cmd_name c) (cmd_username c) (cmd_password c) (cmd_client_id c) (cmd_textname c) (cmd_textdesc c) (cmd_groupname c)
    (cmd_rolename c) (cmd_acltype c) (cmd_topic c) (cmd_allow c) (cmd_priority c) (cmd_verbose c) (cmd_count c) roles acls.
Definition listing (c : Command) : Command :=
  mkCommand (cmd_name c) (cmd_username c) (cmd_password c) (cmd_client_id c) (cmd_textname c) (cmd_textdesc c) (cmd_groupname c)
    (cmd_rolename c) (cmd_acltype c) (cmd_topic c) (cmd_allow c) (cmd_priority c) true (-1) (cmd_roles c) (cmd_acls c).

Definition ActionCreate : string := "create".
Definition ActionUpdate : string := "update".
Definition ActionDelete : string := "delete".
Definition ObjectClient : string := "client".
Definition ObjectGroup : string := "group".
Definition ObjectRole : string := "role".
Definition ObjectDefaultAccess : string := "default_access".
Definition ObjectAnonymousGroup : string := "anonymous_group".

Inductive summary :=
  | SCreate (count : nat) | SDescription | SRemoveAccess (type topic : string) | SGiveAccess (verb topic : string)
  | SGiveRole (role : string) | STakeRole (role : string) | SAddClient (client : string) | SRemoveClient (client : string)
  | SDetails | SPassword | SEnable | SDisable | SDelete | SDefaults
  | SAnonymousNone | SAnonymousFirst (group : string) | SAnonymousInstead (group previous : string).

Record Change := mkChange {
  ch_kind : string; ch_name : string; ch_action : string; ch_summary : summary; ch_commands : list Command
}.
Definition Plan : Type := list Change.
Definition Empty (p : Plan) : bool := bool_decide (length p = 0).
Definition PlanCommands (p : Plan) : list Command := p ≫= ch_commands.

Definition roleACLs (entries : list ACL) : list CommandACL :=
  (λ e, mkCmdACL (acl_type e) (acl_topic e) (Some (acl_priority e)) (Some (acl_allow e))) <$> entries.
Definition roleRefs (refs : list RoleRef) : list CommandRoleRef :=
  (λ r, mkCmdRole (rr_name r) (Some (rr_priority r))) <$> refs.

(** ** Differences *)
Definition hasRole (refs : list RoleRef) (name : string) : bool := bool_decide (name ∈ rr_name <$> refs).
Definition hasClient (refs : list ClientRef) (name : string) : bool := bool_decide (name ∈ cr_name <$> refs).

Definition findACL (l : list ACL) (entry : ACL) : option ACL :=
  head (filter (λ c, acl_type c = acl_type entry ∧ acl_topic c = acl_topic entry) l).

Definition acl_added (current : list ACL) (entry : ACL) : bool :=
  match findACL current entry with
  | None => true
  | Some previous => negb (bool_decide (acl_allow previous = acl_allow entry)) || negb (bool_decide (acl_priority previous = acl_priority entry))
  end.
Definition diffACLs (current desired : list ACL) : list ACL * list ACL :=
  (filter (λ e, acl_added current e = true) desired, filter (λ e, findACL desired e = None) current).

Definition accessVerb (e : ACL) : string := if acl_allow e then "granted" else "denied".

Definition remove_acl (role : string) (e : ACL) : Command :=
  for_role role (with_access (acl_type e) (acl_topic e) None (command CommandRemoveRoleACL)).
Definition add_acl (role : string) (e : ACL) : Command :=
  for_role role (with_priority (acl_priority e) (with_access (acl_type e) (acl_topic e) (Some (acl_allow e)) (command CommandAddRoleACL))).

Definition roleUpdates (current desired : Role) : list Change :=
  let name := ro_name desired in
  let '(added, removed) := diffACLs (ro_acls current) (ro_acls desired) in
  (if decide (ro_textname current = ro_textname desired ∧ ro_textdesc current = ro_textdesc desired) then []
   else [mkChange ObjectRole name ActionUpdate SDescription
           [for_role name (with_text (ro_textname desired) (ro_textdesc desired) (command CommandModifyRole))]])
  ++ ((λ e, mkChange ObjectRole name ActionUpdate (SRemoveAccess (acl_type e) (acl_topic e)) [remove_acl name e]) <$> removed)
  ++ ((λ e, mkChange ObjectRole name ActionUpdate (SGiveAccess (accessVerb e) (acl_topic e))
        (match findACL (ro_acls current) e with
         | Some previous => if decide (acl_priority previous = acl_priority e) then [add_acl name e] else [remove_acl name e; add_acl name e]
         | None => [add_acl name e]
         end)) <$> added).

Definition give_role (kind name : string) (address : Command → Command) (add : string) (ref : RoleRef) : Change :=
  mkChange kind name ActionUpdate (SGiveRole (rr_name ref))
    [for_role (rr_name ref) (with_priority (rr_priority ref) (address (command add)))].
Definition take_role (kind name : string) (address : Command → Command) (remove : string) (ref : RoleRef) : Change :=
  mkChange kind name ActionUpdate (STakeRole (rr_name ref)) [for_role (rr_name ref) (address (command remove))].

(** The two loops over the roles of a group or a client. *)
Definition role_changes (kind name : string) (address : Command → Command) (add remove : string) (current desired : list RoleRef) : list Change :=
  (give_role kind name address add <$> filter (λ r, hasRole current (rr_name r) = false) desired)
  ++ (take_role kind name address remove <$> filter (λ r, hasRole desired (rr_name r) = false) current).

Definition add_member (group : string) (ref : ClientRef) : Change :=
  mkChange ObjectGroup group ActionUpdate (SAddClient (cr_name ref))
    [for_group group (for_client (cr_name ref) (with_priority (cr_priority ref) (command CommandAddGroupClient)))].
Definition remove_member (group : string) (ref : ClientRef) : Change :=
  mkChange ObjectGroup group ActionUpdate (SRemoveClient (cr_name ref))
    [for_group group (for_client (cr_name ref) (command CommandRemoveGroupClient))].

Definition groupUpdates (current desired : Group) : list Change :=
  let name := gp_name desired in
  (if decide (gp_textname current = gp_textname desired ∧ gp_textdesc current = gp_textdesc desired) then []
   else [mkChange ObjectGroup name ActionUpdate SDescription
           [for_group name (with_text (gp_textname desired) (gp_textdesc desired) (command CommandModifyGroup))]])
  ++ role_changes ObjectGroup name (for_group name) CommandAddGroupRole CommandRemoveGroupRole (gp_roles current) (gp_roles desired)
  ++ (add_member name <$> filter (λ r, hasClient (gp_clients current) (cr_name r) = false) (gp_clients desired))
  ++ (remove_member name <$> filter (λ r, hasClient (gp_clients desired) (cr_name r) = false) (gp_clients current)).

Definition groupMembershipUpdates (current desired : Group) (deleted : list string) : list Change :=
  let name := gp_name desired in
  (add_member name <$> filter (λ r, hasClient (gp_clients current) (cr_name r) = false) (gp_clients desired))
  ++ (remove_member name <$> filter (λ r, hasClient (gp_clients desired) (cr_name r) = false ∧ cr_name r ∉ deleted) (gp_clients current)).

Definition clientUpdates (current desired : Client) : list Change :=
  let name := cl_name desired in
  let update s c := mkChange ObjectClient name ActionUpdate s [for_client name c] in
  (if decide (cl_textname current = cl_textname desired ∧ cl_textdesc current = cl_textdesc desired
              ∧ cl_client_id current = cl_client_id desired) then []
   else [update SDetails (with_login "" (cl_client_id desired)
           (with_text (cl_textname desired) (cl_textdesc desired) (command CommandModifyClient)))])
  ++ (if decide (cl_password desired = "") then []
      else [update SPassword (with_login (cl_password desired) "" (command CommandSetClientPassword))])
  ++ (if decide (cl_disabled current = cl_disabled desired) then []
      else if cl_disabled desired then [update SDisable (command CommandDisableClient)]
      else [update SEnable (command CommandEnableClient)])
  ++ role_changes ObjectClient name (for_client name) CommandAddClientRole CommandRemoveClientRole (cl_roles current) (cl_roles desired).

(** ** [BuildPlan], one definition per loop *)
Definition plan_role (current : Document) (role : Role) : list Change :=
  match FindRole current (ro_name role) with
  | None => [mkChange ObjectRole (ro_name role) ActionCreate (SCreate (length (ro_acls role)))
      [for_role (ro_name role) (with_text (ro_textname role) (ro_textdesc role)
         (with_lists [] (roleACLs (ro_acls role)) (command CommandCreateRole)))]]
  | Some existing => roleUpdates existing role
  end.

Definition plan_group (current : Document) (group : Group) : list Change :=
  match FindGroup current (gp_name group) with
  | None => [mkChange ObjectGroup (gp_name group) ActionCreate (SCreate (length (gp_roles group)))
      [for_group (gp_name group) (with_text (gp_textname group) (gp_textdesc group)
         (with_lists (roleRefs (gp_roles group)) [] (command CommandCreateGroup)))]]
  | Some existing => groupUpdates existing group
  end.

Definition plan_client (current : Document) (client : Client) : list Change :=
  match FindClient current (cl_name client) with
  | None => [mkChange ObjectClient (cl_name client) ActionCreate (SCreate 0)
      [for_client (cl_name client) (with_login (cl_password client) (cl_client_id client)
         (with_text (cl_textname client) (cl_textdesc client)
           (with_lists (roleRefs (cl_roles client)) [] (command CommandCreateClient))))]]
  | Some existing => clientUpdates existing client
  end.

(** The clients that are gone: the map [deleted]. *)
Definition deleted_clients (current desired : Document) : list string :=
  cl_name <$> filter (λ c, FindClient desired (cl_name c) = None) (d_clients current).

Definition plan_membership (current desired : Document) (group : Group) : list Change :=
  match FindGroup current (gp_name group) with
  | None => add_member (gp_name group) <$> gp_clients group
  | Some existing => groupMembershipUpdates existing group (deleted_clients current desired)
  end.

Definition delete_change (kind name : string) (address : Command → Command) (del : string) : Change :=
  mkChange kind name ActionDelete SDelete [address (command del)].

Definition plan_deletes (current desired : Document) : list Change :=
  ((λ c, delete_change ObjectClient (cl_name c) (for_client (cl_name c)) CommandDeleteClient) <$>
     filter (λ c, FindClient desired (cl_name c) = None) (d_clients current))
  ++ ((λ g, delete_change ObjectGroup (gp_name g) (for_group (gp_name g)) CommandDeleteGroup) <$>
     filter (λ g, FindGroup desired (gp_name g) = None) (d_groups current))
  ++ ((λ r, delete_change ObjectRole (ro_name r) (for_role (ro_name r)) CommandDeleteRole) <$>
     filter (λ r, FindRole desired (ro_name r) = None) (d_roles current)).

Definition default_entry (type : string) (allow : bool) : CommandACL := mkCmdACL type "" None (Some allow).
Definition plan_default (current desired : DefaultAccess) : list Change :=
  if decide (current = desired) then []
  else [mkChange ObjectDefaultAccess "default_access" ActionUpdate SDefaults
    [with_lists [] [default_entry DefaultPublishClientSend (da_publish_send desired);
                    default_entry DefaultPublishClientReceive (da_publish_receive desired);
                    default_entry DefaultSubscribe (da_subscribe desired);
                    default_entry DefaultUnsubscribe (da_unsubscribe desired)] (command CommandSetDefaultACLAccess)]].

Definition anonymousGroupSummary (current desired : string) : summary :=
  if decide (desired = "") then SAnonymousNone
  else if decide (current = "") then SAnonymousFirst desired
  else SAnonymousInstead desired current.
Definition plan_anonymous (current desired : string) : list Change :=
  if decide (current = desired) then []
  else [mkChange ObjectAnonymousGroup "anonymous_group" ActionUpdate (anonymousGroupSummary current desired)
    [for_group desired (command CommandSetAnonymousGroup)]].

Definition BuildPlan (current desired : Document) : Plan :=
  (d_roles desired ≫= plan_role current)
  ++ (d_groups desired ≫= plan_group current)
  ++ (d_clients desired ≫= plan_client current)
  ++ (d_groups desired ≫= plan_membership current desired)
  ++ plan_deletes current desired
  ++ plan_default (d_default current) (d_default desired)
  ++ plan_anonymous (d_anonymous current) (d_anonymous desired).

(** ** The guard of the control channel *)
Definition topicReachesControlChannel (topic : string) : bool :=
  let trimmed := trim_space topic in
  if decide (trimmed = "") then false
  else if decide (trimmed = "$CONTROL" ∨ trimmed = "$CONTROL/#") then true
  else has_prefix ControlTopicPrefix trimmed || bool_decide (trimmed = ControlTopic).

Definition reaching_types : list string :=
  [ACLPublishClientSend; ACLPublishClientReceive; ACLSubscribeLiteral; ACLSubscribePattern].
Definition roleGrantsControlChannel (role : Role) : bool :=
  existsb (λ e, acl_allow e && bool_decide (acl_type e ∈ reaching_types) && topicReachesControlChannel (acl_topic e)) (ro_acls role).

Inductive guard_reason :=
  OpenDefaults (publish subscribe : bool) | ClientReaches (client : string) | ManagementLocked (client : string) | AnonymousReaches.
(** The code sorts the reasons by their text; here they keep the order in which
    they are found. *)
Record GuardReport := mkGuard {
  gu_ok : bool; gu_management : string; gu_allowed : list string; gu_violations : list string; gu_reasons : list guard_reason
}.

(** [roleReaches[ref.RoleName]] for some reference of the list. *)
Definition refs_reach (doc : Document) (refs : list RoleRef) : bool :=
  existsb (λ ref, bool_decide (rr_name ref ∈ ro_name <$> filter (λ r, roleGrantsControlChannel r = true) (d_roles doc))) refs.
Definition group_reaches (doc : Document) (name : string) : bool :=
  match FindGroup doc name with Some g => refs_reach doc (gp_roles g) | None => false end.
Definition client_reaches (doc : Document) (c : Client) : bool :=
  refs_reach doc (cl_roles c) || existsb (λ ref, group_reaches doc (gr_name ref)) (cl_groups c).
(** The keys of the map [granted]. *)
Definition granted_clients (doc : Document) : list string :=
  cl_name <$> filter (λ c, client_reaches doc c = true) (d_clients doc).

Definition CheckControlChannel (doc : Document) (management : string) : GuardReport :=
  let granted := granted_clients doc in
  let anonymousReaches := bool_decide (d_anonymous doc ≠ "") && group_reaches doc (d_anonymous doc) in
  let openDefaults := da_publish_send (d_default doc) || da_subscribe (d_default doc) in
  let listed := filter (λ n, n ∈ granted) (cl_name <$> d_clients doc) in
  let is_management n := bool_decide (management ≠ "") && bool_decide (n = management) in
  let allowed := filter (λ n, is_management n = true) listed in
  let others := filter (λ n, is_management n = false) listed in
  let violations := (if openDefaults && anonymousReaches then ["anonymous clients"] else []) ++ others in
  let managementLocked := bool_decide (management ≠ "") && bool_decide (management ∉ granted) in
  mkGuard
    (bool_decide (length violations = 0) && negb anonymousReaches && negb openDefaults && negb managementLocked)
    management (sort_strings allowed) (sort_strings violations)
    ((if openDefaults then [OpenDefaults (da_publish_send (d_default doc)) (da_subscribe (d_default doc))] else [])
     ++ (ClientReaches <$> others)
     ++ (if managementLocked then [ManagementLocked management] else [])
     ++ (if anonymousReaches then [AnonymousReaches] else [])).

(** ** Specification of the guard *)

(** The broker matches a filter against the control topic; a wildcard in the
    first level never matches a topic that starts with a dollar sign. *)
Definition covers_control (f : string) : Prop :=
  TopicMatchesFilter f ControlTopic = true ∧ head (split "/" f) = Some "$CONTROL".

(** The types of access by which a message reaches a topic or is received from
    it. *)
Definition channel_types : list string := ["publishClientSend"; "publishClientReceive"; "subscribeLiteral"; "subscribePattern"].

(** The group is the authority on its members: the list of the group counts as
    well as the list of the client. *)
Definition in_group (doc : Document) (c : Client) (g : Group) : Prop :=
  g ∈ d_groups doc ∧ (cl_name c ∈ cr_name <$> gp_clients g ∨ gp_name g ∈ gr_name <$> cl_groups c).
Definition carries (doc : Document) (c : Client) (role : string) : Prop :=
  role ∈ rr_name <$> cl_roles c ∨ ∃ g, in_group doc c g ∧ role ∈ rr_name <$> gp_roles g.
(** An entry of the role that allows access. *)
Definition role_allows (doc : Document) (role : string) (e : ACL) : Prop :=
  ∃ r, r ∈ d_roles doc ∧ ro_name r = role ∧ e ∈ ro_acls r ∧ acl_allow e = true ∧ acl_type e ∈ channel_types.
Definition may_access (doc : Document) (c : Client) (e : ACL) : Prop := ∃ role, carries doc c role ∧ role_allows doc role e.
(** What clients without a name may access. *)
Definition anonymous_access (doc : Document) (e : ACL) : Prop :=
  ∃ g role, g ∈ d_groups doc ∧ gp_name g = d_anonymous doc ∧ role ∈ rr_name <$> gp_roles g ∧ role_allows doc role e.
(** Every client repeats the groups that list it, as in a normalised document. *)
Definition mirrored (doc : Document) : Prop := ∀ c g, c ∈ d_clients doc → g ∈ d_groups doc →
  cl_name c ∈ cr_name <$> gp_clients g → gp_name g ∈ gr_name <$> cl_groups c.
(** A filter whose first level is the one of the control topics. *)
Definition in_control_space (f : string) : Prop := head (split "/" (trim_space f)) = Some "$CONTROL".

(** The filters that cover the control topic and are not recognised. *)
Definition missed_filters : list string :=
  ["$CONTROL/+/v1"; "$CONTROL/+/+"; "$CONTROL/+/#"; "$CONTROL/+/v1/#"; "$CONTROL/+/+/#"].

(** ** Lemmas on the guard *)
Lemma control_levels f : covers_control f →
  f ∈ ["$CONTROL/#"; "$CONTROL/dynamic-security/#"; "$CONTROL/dynamic-security/v1"; "$CONTROL/dynamic-security/+";
       "$CONTROL/dynamic-security/v1/#"; "$CONTROL/dynamic-security/+/#"] ++ missed_filters.
Proof.
  intros [Hm Hh]. rewrite <-(join_split "/" f). unfold TopicMatchesFilter in Hm.
  destruct (_ || _); [done|]. change (split "/" ControlTopic) with ["$CONTROL"; "dynamic-security"; "v1"] in Hm.
  destruct (split "/" f) as [|l0 ls]; [done|]. injection Hh as ->. cbn [match_levels] in Hm.
  rewrite decide_False in Hm by done. simpl in Hm.
  assert (∀ l t (rest trest : list string), match_levels (l :: rest) (t :: trest) = true →
    (l = "#" ∧ rest = []) ∨ ((l = "+" ∨ l = t) ∧ match_levels rest trest = true)) as Hlev.
  { intros l t rest trest H. cbn [match_levels] in H. case_decide as El.
    - left. by bool_hyps.
    - right. apply andb_true_iff in H as [H Hr]. apply orb_true_iff in H. rewrite !bool_decide_eq_true in H. by split. }
  assert (∀ rest, match_levels rest [] = true → rest = [] ∨ rest = ["#"]) as Hend.
  { intros [|l rest] H; [by left|]. cbn [match_levels] in H. case_decide; [|done]. bool_hyps. subst. by right. }
  destruct ls as [|l1 ls]; [done|]. apply Hlev in Hm as [[-> ->]|[Hl1 Hm]]; [by left|].
  destruct ls as [|l2 ls]; [done|]. apply Hlev in Hm as [[-> ->]|[Hl2 Hm]].
  - destruct Hl1 as [->| ->]; vm_compute; set_solver.
  - apply Hend in Hm as [->| ->]; destruct Hl1 as [->| ->], Hl2 as [->| ->]; vm_compute; set_solver.
Qed.

Lemma find_none {A} (name : A → string) l n : head (filter (λ x, name x = n) l) = None ↔ n ∉ name <$> l.
Proof.
  rewrite head_None, filter_nil_iff, list_elem_of_fmap. split.
  - intros Hn (x & -> & Hx). by apply (Hn x).
  - intros Hn x Hx <-. apply Hn. by exists x.
Qed.

Lemma find_some {A} (name : A → string) l n x : head (filter (λ x, name x = n) l) = Some x → x ∈ l ∧ name x = n.
Proof.
  intros H. assert (x ∈ filter (λ x, name x = n) l) as Hin by (destruct (filter _ l); [done|]; injection H as ->; by left).
  by apply list_elem_of_filter in Hin as [? ?].
Qed.

Lemma refs_reach_spec doc refs :
  refs_reach doc refs = true ↔ ∃ ref r, ref ∈ refs ∧ r ∈ d_roles doc ∧ ro_name r = rr_name ref ∧ roleGrantsControlChannel r = true.
Proof.
  unfold refs_reach. rewrite existsb_exists. setoid_rewrite bool_decide_eq_true. setoid_rewrite list_elem_of_fmap.
  setoid_rewrite list_elem_of_filter. setoid_rewrite <-list_elem_of_In. naive_solver.
Qed.

(** What the code looks at: the groups the client lists, by their names. *)
Lemma group_reaches_spec doc name : NoDup (gp_name <$> d_groups doc) →
  group_reaches doc name = true ↔ ∃ g r, g ∈ d_groups doc ∧ gp_name g = name ∧ r ∈ d_roles doc
    ∧ ro_name r ∈ rr_name <$> gp_roles g ∧ roleGrantsControlChannel r = true.
Proof.
  intros Hnd. unfold group_reaches. setoid_rewrite list_elem_of_fmap. split.
  - destruct (FindGroup doc name) as [g|] eqn:E; [|done]. apply find_some in E as [Hg Hn].
    intros (ref & r & Href & Hr & Heq & Hgr)%refs_reach_spec. exists g, r. split_and!; [done..|by exists ref|done].
  - intros (g & r & Hg & <- & Hr & (ref & Heq & Href) & Hgr). destruct (FindGroup doc (gp_name g)) as [g'|] eqn:E.
    + apply find_some in E as [Hg' Hn]. rewrite (NoDup_key _ _ g' g Hnd) by done. apply refs_reach_spec. by exists ref, r.
    + apply find_none in E. destruct E. by apply list_elem_of_fmap_2.
Qed.

Lemma client_reaches_spec doc c : NoDup (gp_name <$> d_groups doc) → mirrored doc → c ∈ d_clients doc →
  client_reaches doc c = true ↔ ∃ r, r ∈ d_roles doc ∧ carries doc c (ro_name r) ∧ roleGrantsControlChannel r = true.
Proof.
  intros Hnd Hm Hc. unfold client_reaches, carries, in_group. rewrite orb_true_iff, existsb_exists, refs_reach_spec.
  setoid_rewrite <-list_elem_of_In. setoid_rewrite (group_reaches_spec _ _ Hnd). split.
  - intros [(ref & r & Href & Hr & Heq & Hg)|(gref & Hgref & g & r & Hg & Hn & Hr & Hin & Hgr)]; exists r; (split; [done|split; [|done]]).
    + left. rewrite Heq. by apply list_elem_of_fmap_2.
    + right. exists g. split; [|done]. split; [done|]. right. rewrite Hn. by apply list_elem_of_fmap_2.
  - intros (r & Hr & [(ref & Heq & Href)%list_elem_of_fmap|(g & [Hg Hin] & Hrole)] & Hgr); [left; by exists ref, r|].
    right. assert (gp_name g ∈ gr_name <$> cl_groups c) as (gref & Heq & Hgref)%list_elem_of_fmap.
    { destruct Hin as [Hin|]; [|done]. by apply Hm. }
    exists gref. split; [done|]. by exists g, r.
Qed.

Lemma elem_of_granted doc n : n ∈ granted_clients doc ↔ ∃ c, c ∈ d_clients doc ∧ cl_name c = n ∧ client_reaches doc c = true.
Proof. unfold granted_clients. rewrite list_elem_of_fmap. setoid_rewrite list_elem_of_filter. naive_solver. Qed.

(** When the report is fine. *)
Lemma CheckControlChannel_ok doc m :
  gu_ok (CheckControlChannel doc m) = true ↔
  (∀ c, c ∈ d_clients doc → client_reaches doc c = true → m ≠ "" ∧ cl_name c = m)
  ∧ (d_anonymous doc ≠ "" → group_reaches doc (d_anonymous doc) = false)
  ∧ da_publish_send (d_default doc) = false ∧ da_subscribe (d_default doc) = false
  ∧ (m ≠ "" → ∃ c, c ∈ d_clients doc ∧ cl_name c = m ∧ client_reaches doc c = true).
Proof.
  unfold CheckControlChannel. cbv zeta. cbn [gu_ok]. rewrite !andb_true_iff, !negb_true_iff, bool_decide_eq_true.
  rewrite length_zero_iff_nil, app_nil, filter_nil_iff, orb_false_iff, !andb_false_iff, !bool_decide_eq_false, <-elem_of_granted.
  assert ((∀ n, n ∈ filter (λ n, n ∈ granted_clients doc) (cl_name <$> d_clients doc) →
      ¬ (bool_decide (m ≠ "") && bool_decide (n = m) = false)) ↔
    ∀ c, c ∈ d_clients doc → client_reaches doc c = true → m ≠ "" ∧ cl_name c = m) as ->.
  { setoid_rewrite not_false_iff_true. setoid_rewrite andb_true_iff. setoid_rewrite bool_decide_eq_true.
    setoid_rewrite list_elem_of_filter. split.
    - intros H c Hc Hr. apply H. split; [apply elem_of_granted; by exists c|by apply list_elem_of_fmap_2].
    - intros H n [(c & Hc & <- & Hr)%elem_of_granted _]. by apply H. }
  destruct (decide (m = "")), (decide (d_anonymous doc = "")), (decide (m ∈ granted_clients doc)),
    (group_reaches doc (d_anonymous doc)), (da_publish_send (d_default doc)), (da_subscribe (d_default doc));
    rewrite ?bool_decide_true, ?bool_decide_false by tauto; simpl; intuition congruence.
Qed.

Lemma topicReaches_exact f : covers_control f → (topicReachesControlChannel f = false ↔ f ∈ missed_filters).
Proof.
  intros Hf%control_levels. unfold missed_filters in *. cbn [app] in Hf.
  repeat (apply elem_of_cons in Hf as [->|Hf];
    [vm_compute (topicReachesControlChannel _); split; [done || intros _; set_solver|done || (intros Hin; repeat (apply elem_of_cons in Hin as [Hin|Hin]; [done|]); by apply elem_of_nil in Hin)]|]).
  by apply elem_of_nil in Hf.
Qed.

Lemma has_prefix_rest p s : has_prefix p s = true → ∃ rest, s = p +:+ rest.
Proof.
  unfold has_prefix. revert s. induction p as [|a p IH]; intros s; [by exists s|]. destruct s as [|b s]; [done|]. cbn [String.prefix].
  destruct (ascii_dec a b) as [<-|]; [|done]. intros (rest & ->)%IH. exists rest. by rewrite app_cons_string.
Qed.

Lemma topicReaches_space f : topicReachesControlChannel f = true → in_control_space f.
Proof.
  unfold topicReachesControlChannel, in_control_space. cbv zeta. generalize (trim_space f). intros t.
  destruct (decide (t = "")); [done|]. destruct (decide _) as [[->| ->]|_]; [done..|].
  intros [(rest & ->)%has_prefix_rest|Ht]%orb_true_iff; [done|]. by bool_hyps; subst.
Qed.

(** An entry the code takes for one that opens the channel. *)
Definition reaching_entry (e : ACL) : Prop :=
  acl_allow e = true ∧ acl_type e ∈ channel_types ∧ topicReachesControlChannel (acl_topic e) = true.

Lemma roleGrants_spec r : roleGrantsControlChannel r = true ↔ ∃ e, e ∈ ro_acls r ∧ reaching_entry e.
Proof.
  change channel_types with reaching_types in *. unfold roleGrantsControlChannel, reaching_entry. rewrite existsb_exists. setoid_rewrite <-list_elem_of_In.
  setoid_rewrite andb_true_iff. setoid_rewrite andb_true_iff. setoid_rewrite bool_decide_eq_true. split; intros (e & ? & ?); exists e; tauto.
Qed.

Lemma client_reaches_access doc c : NoDup (gp_name <$> d_groups doc) → mirrored doc → c ∈ d_clients doc →
  client_reaches doc c = true ↔ ∃ e, may_access doc c e ∧ topicReachesControlChannel (acl_topic e) = true.
Proof.
  intros Hnd Hm Hc. rewrite client_reaches_spec by done. setoid_rewrite roleGrants_spec. unfold may_access, role_allows, reaching_entry. split.
  - intros (r & Hr & Hcar & e & He & Ha & Ht & Hf). exists e. split; [|done]. exists (ro_name r). split; [done|]. by exists r.
  - intros (e & (role & Hcar & r & Hr & <- & He & Ha & Ht) & Hf). exists r. split; [done|]. split; [done|]. by exists e.
Qed.

Lemma anonymous_reaches_access doc : NoDup (gp_name <$> d_groups doc) →
  group_reaches doc (d_anonymous doc) = true ↔ ∃ e, anonymous_access doc e ∧ topicReachesControlChannel (acl_topic e) = true.
Proof.
  intros Hnd. rewrite group_reaches_spec by done. setoid_rewrite roleGrants_spec. unfold anonymous_access, role_allows, reaching_entry. split.
  - intros (g & r & Hg & Hn & Hr & Hrole & e & He & Ha & Ht & Hf). exists e. split; [|done]. exists g, (ro_name r). split_and!; [done..|]. by exists r.
  - intros (e & (g & role & Hg & Hn & Hrole & r & Hr & <- & He & Ha & Ht) & Hf). exists g, r. split_and!; [done..|]. by exists e.
Qed.

Lemma normalised_mirrored doc : mirrored (NormalizeDocument doc).
Proof.
  intros c g Hc Hg Hin. destruct (NormalizeDocument_groups doc c (gp_name g) Hc) as [_ H]. apply H. by exists g.
Qed.

(** ** Which objects exist while the plan runs

    The names of the roles, groups and clients.  A command needs every object it
    addresses (the client that joins or leaves a group as well as the group),
    and a creation needs a new name.  Which client belongs to which group is
    not part of these states. *)
Record names := mkNames { n_roles : gset string; n_groups : gset string; n_clients : gset string }.

Definition names_of (d : Document) : names :=
  mkNames (list_to_set (ro_name <$> d_roles d)) (list_to_set (gp_name <$> d_groups d)) (list_to_set (cl_name <$> d_clients d)).

Definition when (b : bool) (s : names) : option names := if b then Some s else None.
Definition roles_exist (s : names) (refs : list CommandRoleRef) : bool := bool_decide (Forall (λ r, cmr_name r ∈ n_roles s) refs).

Definition exec (s : names) (c : Command) : option names :=
  let role := bool_decide (cmd_rolename c ∈ n_roles s) in
  let group := bool_decide (cmd_groupname c ∈ n_groups s) in
  let client := bool_decide (cmd_username c ∈ n_clients s) in
  let named n := bool_decide (cmd_name c = n) in
  if named CommandCreateRole then when (negb role) (mkNames ({[cmd_rolename c]} ∪ n_roles s) (n_groups s) (n_clients s))
  else if named CommandDeleteRole then when role (mkNames (n_roles s ∖ {[cmd_rolename c]}) (n_groups s) (n_clients s))
  else if named CommandModifyRole || named CommandAddRoleACL || named CommandRemoveRoleACL then when role s
  else if named CommandCreateGroup then
    when (negb group && roles_exist s (cmd_roles c)) (mkNames (n_roles s) ({[cmd_groupname c]} ∪ n_groups s) (n_clients s))
  else if named CommandDeleteGroup then when group (mkNames (n_roles s) (n_groups s ∖ {[cmd_groupname c]}) (n_clients s))
  else if named CommandAddGroupRole || named CommandRemoveGroupRole then when (group && role) s
  else if named CommandModifyGroup then when group s
  else if named CommandAddGroupClient || named CommandRemoveGroupClient then when (group && client) s
  else if named CommandCreateClient then
    when (negb client && roles_exist s (cmd_roles c)) (mkNames (n_roles s) (n_groups s) ({[cmd_username c]} ∪ n_clients s))
  else if named CommandDeleteClient then when client (mkNames (n_roles s) (n_groups s) (n_clients s ∖ {[cmd_username c]}))
  else if named CommandAddClientRole || named CommandRemoveClientRole then when (client && role) s
  else if named CommandModifyClient || named CommandSetClientPassword || named CommandEnableClient || named CommandDisableClient then when client s
  else if named CommandSetAnonymousGroup then when (bool_decide (cmd_groupname c = "") || group) s
  else when (named CommandSetDefaultACLAccess) s.

Fixpoint run (s : names) (cs : list Command) : option names :=
  match cs with
  | [] => Some s
  | c :: rest => s' ← exec s c; run s' rest
  end.

Lemma run_app s a b : run s (a ++ b) = s' ← run s a; run s' b.
Proof. revert s. induction a as [|c a IH]; intros s; simpl; [done|]. destruct (exec s c); simpl; [apply IH|done]. Qed.

Lemma run_same s cs : Forall (λ c, exec s c = Some s) cs → run s cs = Some s.
Proof. induction 1 as [|c cs Hc _ IH]; simpl; [done|]. by rewrite Hc. Qed.

Definition same (s : names) (p : Plan) : Prop := Forall (λ ch, Forall (λ c, exec s c = Some s) (ch_commands ch)) p.

Lemma run_plan_same s p : same s p → run s (PlanCommands p) = Some s.
Proof.
  intros H. apply run_same. unfold PlanCommands. apply Forall_bind. exact H.
Qed.

Lemma PlanCommands_app a b : PlanCommands (a ++ b) = PlanCommands a ++ PlanCommands b.
Proof. apply bind_app. Qed.

Lemma same_app s a b : same s (a ++ b) ↔ same s a ∧ same s b.
Proof. apply Forall_app. Qed.

Lemma same_fmap {A} s (f : A → Change) l : same s (f <$> l) ↔ ∀ x, x ∈ l → Forall (λ c, exec s c = Some s) (ch_commands (f x)).
Proof. unfold same. rewrite Forall_fmap, Forall_forall. done. Qed.

(** *** What each kind of command needs *)
Lemma exec_role_command s name n c :
  cmd_rolename c = name → cmd_name c = n → n ∈ [CommandModifyRole; CommandAddRoleACL; CommandRemoveRoleACL] →
  name ∈ n_roles s → exec s c = Some s.
Proof.
  intros Hr Hn Hin Hs. unfold exec. cbv zeta. rewrite Hn, Hr.
  repeat (apply elem_of_cons in Hin as [->|Hin]; [simpl; by rewrite bool_decide_true|]). by apply elem_of_nil in Hin.
Qed.

Lemma exec_modify_group s c :
  cmd_name c = CommandModifyGroup → cmd_groupname c ∈ n_groups s → exec s c = Some s.
Proof. intros Hn Hs. unfold exec. cbv zeta. rewrite Hn. simpl. by rewrite bool_decide_true. Qed.

Lemma exec_group_client s c :
  cmd_name c = CommandAddGroupClient ∨ cmd_name c = CommandRemoveGroupClient →
  cmd_groupname c ∈ n_groups s → cmd_username c ∈ n_clients s → exec s c = Some s.
Proof. intros Hn Hg Hr. unfold exec. cbv zeta. destruct Hn as [-> | ->]; simpl; by rewrite !bool_decide_true. Qed.

Lemma exec_client_command s name n c :
  cmd_username c = name → cmd_name c = n →
  n ∈ [CommandModifyClient; CommandSetClientPassword; CommandEnableClient; CommandDisableClient] →
  name ∈ n_clients s → exec s c = Some s.
Proof.
  intros Hr Hn Hin Hs. unfold exec. cbv zeta. rewrite Hn, Hr.
  repeat (apply elem_of_cons in Hin as [->|Hin]; [simpl; by rewrite bool_decide_true|]). by apply elem_of_nil in Hin.
Qed.

Lemma exec_group_role s c :
  cmd_name c = CommandAddGroupRole ∨ cmd_name c = CommandRemoveGroupRole →
  cmd_groupname c ∈ n_groups s → cmd_rolename c ∈ n_roles s → exec s c = Some s.
Proof. intros Hn Hg Hr. unfold exec. cbv zeta. destruct Hn as [-> | ->]; simpl; by rewrite !bool_decide_true. Qed.

Lemma exec_client_role s c :
  cmd_name c = CommandAddClientRole ∨ cmd_name c = CommandRemoveClientRole →
  cmd_username c ∈ n_clients s → cmd_rolename c ∈ n_roles s → exec s c = Some s.
Proof. intros Hn Hg Hr. unfold exec. cbv zeta. destruct Hn as [-> | ->]; simpl; by rewrite !bool_decide_true. Qed.

(** *** The updates of one object *)
Lemma roleUpdates_same s current desired : ro_name desired ∈ n_roles s → same s (roleUpdates current desired).
Proof.
  intros Hs. unfold roleUpdates. cbv zeta. destruct (diffACLs _ _) as [added removed].
  rewrite !same_app, !same_fmap. split; [|split].
  - case_decide; [constructor|]. repeat constructor. by apply (exec_role_command s (ro_name desired) CommandModifyRole); [| |left|].
  - intros e _. repeat constructor. by apply (exec_role_command s (ro_name desired) CommandRemoveRoleACL); [| |right; right; left|].
  - intros e _. assert (exec s (add_acl (ro_name desired) e) = Some s) as Ha
      by (by apply (exec_role_command s (ro_name desired) CommandAddRoleACL); [| |right; left|]).
    assert (exec s (remove_acl (ro_name desired) e) = Some s) as Hr
      by (by apply (exec_role_command s (ro_name desired) CommandRemoveRoleACL); [| |right; right; left|]).
    simpl. destruct (findACL _ _); [case_decide|]; by repeat constructor.
Qed.

Lemma role_changes_same s kind name address add remove current desired :
  (∀ ref, ref ∈ desired → exec s (for_role (rr_name ref) (with_priority (rr_priority ref) (address (command add)))) = Some s) →
  (∀ ref, ref ∈ current → exec s (for_role (rr_name ref) (address (command remove))) = Some s) →
  same s (role_changes kind name address add remove current desired).
Proof.
  intros Ha Hr. unfold role_changes. rewrite same_app, !same_fmap. setoid_rewrite list_elem_of_filter.
  split; intros ref [_ Href]; repeat constructor; [by apply Ha|by apply Hr].
Qed.

Lemma group_roles_same s name current desired :
  name ∈ n_groups s → (∀ ref, ref ∈ desired → rr_name ref ∈ n_roles s) → (∀ ref, ref ∈ current → rr_name ref ∈ n_roles s) →
  same s (role_changes ObjectGroup name (for_group name) CommandAddGroupRole CommandRemoveGroupRole current desired).
Proof.
  intros Hg Hd Hc. apply role_changes_same; intros ref Href; (apply exec_group_role; [auto|done|]); [by apply Hd|by apply Hc].
Qed.

Lemma client_roles_same s name current desired :
  name ∈ n_clients s → (∀ ref, ref ∈ desired → rr_name ref ∈ n_roles s) → (∀ ref, ref ∈ current → rr_name ref ∈ n_roles s) →
  same s (role_changes ObjectClient name (for_client name) CommandAddClientRole CommandRemoveClientRole current desired).
Proof.
  intros Hg Hd Hc. apply role_changes_same; intros ref Href; (apply exec_client_role; [auto|done|]); [by apply Hd|by apply Hc].
Qed.

Lemma members_same s name refs :
  name ∈ n_groups s → (∀ ref, ref ∈ refs → cr_name ref ∈ n_clients s) →
  same s (add_member name <$> refs) ∧ same s (remove_member name <$> refs).
Proof.
  intros Hg Hc. rewrite !same_fmap. split; intros r Hr; repeat constructor; apply exec_group_client; auto; by apply Hc.
Qed.

Lemma filtered_members_same s name (P : ClientRef → Prop) `{!∀ x, Decision (P x)} refs :
  name ∈ n_groups s → (∀ ref, ref ∈ refs → cr_name ref ∈ n_clients s) →
  same s (add_member name <$> filter P refs) ∧ same s (remove_member name <$> filter P refs).
Proof. intros Hg Hc. apply members_same; [done|]. intros ref [_ Href]%list_elem_of_filter. by apply Hc. Qed.

Lemma groupUpdates_same s current desired :
  gp_name desired ∈ n_groups s → (∀ ref, ref ∈ gp_roles desired → rr_name ref ∈ n_roles s) →
  (∀ ref, ref ∈ gp_roles current → rr_name ref ∈ n_roles s) →
  (∀ ref, ref ∈ gp_clients desired → cr_name ref ∈ n_clients s) →
  (∀ ref, ref ∈ gp_clients current → cr_name ref ∈ n_clients s) → same s (groupUpdates current desired).
Proof.
  intros Hg Hd Hc Hmd Hmc. unfold groupUpdates. cbv zeta. rewrite !same_app. split; [|split; [|split]].
  - case_decide; [constructor|]. repeat constructor. by apply exec_modify_group.
  - by apply group_roles_same.
  - by apply filtered_members_same.
  - by apply filtered_members_same.
Qed.

Lemma membership_same s current desired deleted :
  gp_name desired ∈ n_groups s → (∀ ref, ref ∈ gp_clients desired → cr_name ref ∈ n_clients s) →
  (∀ ref, ref ∈ gp_clients current → cr_name ref ∈ n_clients s) → same s (groupMembershipUpdates current desired deleted).
Proof.
  intros Hg Hmd Hmc. unfold groupMembershipUpdates. cbv zeta. rewrite same_app.
  split; by apply filtered_members_same.
Qed.

(** *** A client that joins a group has to exist *)

(** No client is created or deleted. *)
Definition keeps_clients (c : Command) : Prop := cmd_name c ≠ CommandCreateClient ∧ cmd_name c ≠ CommandDeleteClient.

Lemma when_some b s s' : when b s = Some s' → b = true ∧ s' = s.
Proof. unfold when. destruct b; [|done]. by intros [= ->]. Qed.

Lemma exec_keeps_clients s c s' : keeps_clients c → exec s c = Some s' → n_clients s' = n_clients s.
Proof.
  intros [Hc Hd] H. unfold exec in H. cbv zeta in H. rewrite (bool_decide_false _ Hc), (bool_decide_false _ Hd) in H.
  repeat match type of H with (if ?b then _ else _) = _ => destruct b end; by apply when_some in H as [_ ->].
Qed.

Lemma exec_needs_client s c s' : cmd_name c = CommandAddGroupClient → exec s c = Some s' → cmd_username c ∈ n_clients s.
Proof.
  intros Hn H. unfold exec in H. cbv zeta in H. rewrite Hn in H. simpl in H. apply when_some in H as [H _].
  apply andb_true_iff in H as [_ H]. by bool_hyps.
Qed.

Lemma run_needs_client s cs s' c :
  run s cs = Some s' → Forall keeps_clients cs → c ∈ cs → cmd_name c = CommandAddGroupClient → cmd_username c ∈ n_clients s.
Proof.
  revert s. induction cs as [|d cs IH]; intros s Hrun Hk Hin Hn; [by apply elem_of_nil in Hin|].
  simpl in Hrun. destruct (exec s d) as [t|] eqn:Et; [|done]. simpl in Hrun. apply Forall_cons in Hk as [Hd Hk].
  apply elem_of_cons in Hin as [->|Hin]; [by apply (exec_needs_client s d t)|].
  rewrite <-(exec_keeps_clients s d t) by done. by apply IH.
Qed.

Lemma group_changes_keep_clients current g : Forall keeps_clients (PlanCommands (plan_group current g)).
Proof.
  assert (∀ p : Plan, Forall (λ ch, Forall keeps_clients (ch_commands ch)) p → Forall keeps_clients (PlanCommands p)) as Hp.
  { intros p H. unfold PlanCommands. by apply Forall_bind. }
  apply Hp. unfold plan_group. destruct (FindGroup _ _); [|by repeat constructor].
  unfold groupUpdates, role_changes. cbv zeta. rewrite !Forall_app, !Forall_fmap.
  split; [case_decide; by repeat constructor|]. repeat split; apply Forall_forall; intros r _; by repeat constructor.
Qed.

Lemma clientUpdates_same s current desired :
  cl_name desired ∈ n_clients s → (∀ ref, ref ∈ cl_roles desired → rr_name ref ∈ n_roles s) →
  (∀ ref, ref ∈ cl_roles current → rr_name ref ∈ n_roles s) → same s (clientUpdates current desired).
Proof.
  intros Hg Hd Hc. unfold clientUpdates. cbv zeta. rewrite !same_app.
  assert (∀ n sm c, n ∈ [CommandModifyClient; CommandSetClientPassword; CommandEnableClient; CommandDisableClient] → cmd_name c = n →
    same s [mkChange ObjectClient (cl_name desired) ActionUpdate sm [for_client (cl_name desired) c]]) as Hu.
  { intros n sm c Hn <-. repeat constructor. by apply (exec_client_command s (cl_name desired) (cmd_name c)). }
  split; [|split; [|split; [|by apply client_roles_same]]].
  - case_decide; [constructor|]. by apply (Hu CommandModifyClient); [left|].
  - case_decide; [constructor|]. by apply (Hu CommandSetClientPassword); [right; left|].
  - case_decide; [constructor|]. destruct (cl_disabled desired).
    + by apply (Hu CommandDisableClient); [right; right; right; left|].
    + by apply (Hu CommandEnableClient); [right; right; left|].
Qed.

Lemma run_one s k n a sm c : run s (PlanCommands [mkChange k n a sm [c]]) = exec s c.
Proof. simpl. by destruct (exec s c). Qed.

Lemma exec_create_role s c : cmd_name c = CommandCreateRole → cmd_rolename c ∉ n_roles s →
  exec s c = Some (mkNames ({[cmd_rolename c]} ∪ n_roles s) (n_groups s) (n_clients s)).
Proof. intros Hn H. unfold exec. cbv zeta. rewrite Hn, (bool_decide_false _ H). done. Qed.

Lemma exec_create_group s c : cmd_name c = CommandCreateGroup → cmd_groupname c ∉ n_groups s → roles_exist s (cmd_roles c) = true →
  exec s c = Some (mkNames (n_roles s) ({[cmd_groupname c]} ∪ n_groups s) (n_clients s)).
Proof. intros Hn H Hr. unfold exec. cbv zeta. rewrite Hn, (bool_decide_false _ H), Hr. done. Qed.

Lemma exec_create_client s c : cmd_name c = CommandCreateClient → cmd_username c ∉ n_clients s → roles_exist s (cmd_roles c) = true →
  exec s c = Some (mkNames (n_roles s) (n_groups s) ({[cmd_username c]} ∪ n_clients s)).
Proof. intros Hn H Hr. unfold exec. cbv zeta. rewrite Hn, (bool_decide_false _ H), Hr. done. Qed.

Lemma exec_delete_role s c : cmd_name c = CommandDeleteRole → cmd_rolename c ∈ n_roles s →
  exec s c = Some (mkNames (n_roles s ∖ {[cmd_rolename c]}) (n_groups s) (n_clients s)).
Proof. intros Hn H. unfold exec. cbv zeta. rewrite Hn, (bool_decide_true _ H). done. Qed.

Lemma exec_delete_group s c : cmd_name c = CommandDeleteGroup → cmd_groupname c ∈ n_groups s →
  exec s c = Some (mkNames (n_roles s) (n_groups s ∖ {[cmd_groupname c]}) (n_clients s)).
Proof. intros Hn H. unfold exec. cbv zeta. rewrite Hn, (bool_decide_true _ H). done. Qed.

Lemma exec_delete_client s c : cmd_name c = CommandDeleteClient → cmd_username c ∈ n_clients s →
  exec s c = Some (mkNames (n_roles s) (n_groups s) (n_clients s ∖ {[cmd_username c]})).
Proof. intros Hn H. unfold exec. cbv zeta. rewrite Hn, (bool_decide_true _ H). done. Qed.

Lemma exec_anonymous s g : g = "" ∨ g ∈ n_groups s → exec s (for_group g (command CommandSetAnonymousGroup)) = Some s.
Proof.
  intros Hg. unfold exec. cbv zeta. cbn [cmd_name cmd_groupname for_group command].
  assert (bool_decide (g = "") || bool_decide (g ∈ n_groups s) = true) as Hb; [|cbn -[bool_decide]; by rewrite Hb].
  apply orb_true_iff. by rewrite !bool_decide_eq_true.
Qed.

(** *** The phases of the plan *)
Section phases.
Context {A : Type} (name : A → string) (p : A → list Change) (at_ : gset string → names).

Lemma run_creates (created : A → bool) X0 l X :
  NoDup (name <$> l) → X0 ⊆ X → (∀ x, x ∈ l → created x = negb (bool_decide (name x ∈ X0))) →
  (∀ x, x ∈ l → name x ∈ X → name x ∈ X0) →
  (∀ x Y, x ∈ l → X0 ⊆ Y → created x = true → name x ∉ Y → run (at_ Y) (PlanCommands (p x)) = Some (at_ ({[name x]} ∪ Y))) →
  (∀ x Y, x ∈ l → X0 ⊆ Y → created x = false → name x ∈ Y → run (at_ Y) (PlanCommands (p x)) = Some (at_ Y)) →
  run (at_ X) (PlanCommands (l ≫= p)) = Some (at_ (X ∪ list_to_set (name <$> l))).
Proof.
  revert X. induction l as [|x l IH]; intros X Hnd Hsub Hc Hfresh H1 H2.
  { simpl. by rewrite (right_id_L ∅ (∪)). }
  rewrite fmap_cons in Hnd. apply NoDup_cons in Hnd as [Hnot Hnd]. cbn [mbind list_bind].
  rewrite PlanCommands_app, run_app. specialize (IH (if created x then {[name x]} ∪ X else X)).
  assert (run (at_ X) (PlanCommands (p x)) = Some (at_ (if created x then {[name x]} ∪ X else X))) as ->.
  { pose proof (Hc x (list_elem_of_here _ _)) as Hcx. destruct (created x) eqn:E.
    - apply H1; [by left|done..|]. intros Hin. apply Hfresh in Hin; [|by left]. by rewrite bool_decide_true in Hcx.
    - apply H2; [by left|done..|]. apply Hsub. symmetry in Hcx. by bool_hyps. }
  cbn [mbind option_bind]. rewrite IH; clear IH.
  - f_equal. f_equal. pose proof (Hc x (list_elem_of_here _ _)) as Hcx. rewrite fmap_cons, list_to_set_cons. destruct (created x); [set_solver|].
    symmetry in Hcx. bool_hyps. assert (name x ∈ X) by by apply Hsub. set_solver.
  - done.
  - destruct (created x); set_solver.
  - intros y Hy. apply Hc. by right.
  - intros y Hy Hin. apply Hfresh; [by right|]. destruct (created x); [|done].
    apply elem_of_union in Hin as [Heq%elem_of_singleton|Hin]; [|done]. exfalso. apply Hnot. rewrite <-Heq. by apply list_elem_of_fmap_2.
  - intros y Y Hy. apply H1. by right.
  - intros y Y Hy. apply H2. by right.
Qed.

Lemma run_deletes l X :
  NoDup (name <$> l) → (∀ x, x ∈ l → name x ∈ X) →
  (∀ x Y, x ∈ l → name x ∈ Y → run (at_ Y) (PlanCommands (p x)) = Some (at_ (Y ∖ {[name x]}))) →
  run (at_ X) (PlanCommands (l ≫= p)) = Some (at_ (X ∖ list_to_set (name <$> l))).
Proof.
  revert X. induction l as [|x l IH]; intros X Hnd Hin H; [simpl; by rewrite difference_empty_L|].
  rewrite fmap_cons in Hnd. apply NoDup_cons in Hnd as [Hnot Hnd]. cbn [mbind list_bind].
  rewrite PlanCommands_app, run_app, H by (done || (try apply Hin); by left). cbn [mbind option_bind]. rewrite IH.
  - f_equal. f_equal. rewrite fmap_cons, list_to_set_cons. set_solver.
  - done.
  - intros y Hy. apply elem_of_difference. split; [apply Hin; by right|]. rewrite elem_of_singleton. intros Heq.
    apply Hnot. rewrite <-Heq. by apply list_elem_of_fmap_2.
  - intros y Y Hy. apply H. by right.
Qed.
End phases.

Section plan_run.
Context (current desired : Document) (Hcur : well_formed current) (Hdes : well_formed desired).
Let R0 : gset string := list_to_set (ro_name <$> d_roles current).
Let G0 : gset string := list_to_set (gp_name <$> d_groups current).
Let C0 : gset string := list_to_set (cl_name <$> d_clients current).
Let R1 : gset string := list_to_set (ro_name <$> d_roles desired).
Let G1 : gset string := list_to_set (gp_name <$> d_groups desired).
Let C1 : gset string := list_to_set (cl_name <$> d_clients desired).

Lemma desired_role ref (refs : list RoleRef) :
  (∀ r, r ∈ refs → rr_name r ∈ ro_name <$> d_roles desired) → ref ∈ refs → rr_name ref ∈ R0 ∪ R1.
Proof. intros H Href. apply elem_of_union_r, elem_of_list_to_set. by apply H. Qed.

Lemma current_role ref (refs : list RoleRef) :
  (∀ r, r ∈ refs → rr_name r ∈ ro_name <$> d_roles current) → ref ∈ refs → rr_name ref ∈ R0 ∪ R1.
Proof. intros H Href. apply elem_of_union_l, elem_of_list_to_set. by apply H. Qed.

Lemma desired_refs_exist G C (refs : list RoleRef) :
  (∀ r, r ∈ refs → rr_name r ∈ ro_name <$> d_roles desired) → roles_exist (mkNames (R0 ∪ R1) G C) (roleRefs refs) = true.
Proof.
  intros H. unfold roles_exist. apply bool_decide_eq_true. unfold roleRefs. apply Forall_fmap, Forall_forall.
  intros ref Href. by apply (desired_role ref refs).
Qed.

Lemma run_roles G C : run (mkNames R0 G C) (PlanCommands (d_roles desired ≫= plan_role current)) = Some (mkNames (R0 ∪ R1) G C).
Proof.
  apply (run_creates ro_name (plan_role current) (λ X, mkNames X G C)
    (λ r, negb (bool_decide (ro_name r ∈ R0))) R0); try done; [apply Hdes| |].
  - intros r Y _ _ Hc Hn. unfold plan_role. destruct (FindRole current (ro_name r)) as [e|] eqn:E.
    { apply find_some in E as [He Heq]. bool_hyps. exfalso. apply Hc. unfold R0. rewrite <-Heq.
      apply elem_of_list_to_set. by apply list_elem_of_fmap_2. }
    rewrite run_one. by rewrite exec_create_role.
  - intros r Y _ _ Hc Hn. unfold plan_role. destruct (FindRole current (ro_name r)) as [e|] eqn:E.
    { apply run_plan_same. by apply roleUpdates_same. }
    apply find_none in E. bool_hyps. by apply elem_of_list_to_set in Hc.
Qed.

(** A group of both documents has a member that is not a client yet. *)
Definition early_member : Prop := ∃ g ref, g ∈ d_groups desired ∧ gp_name g ∈ gp_name <$> d_groups current
  ∧ ref ∈ gp_clients g ∧ cr_name ref ∉ cl_name <$> d_clients current.

Lemma desired_client g ref : g ∈ d_groups desired → ref ∈ gp_clients g → cr_name ref ∈ C0 ∪ C1.
Proof. intros Hg Href. apply elem_of_union_r, elem_of_list_to_set. by apply (wf_group_clients desired Hdes g). Qed.

Lemma current_client g ref : g ∈ d_groups current → ref ∈ gp_clients g → cr_name ref ∈ C0.
Proof. intros Hg Href. apply elem_of_list_to_set. by apply (wf_group_clients current Hcur g). Qed.

Lemma run_groups : ¬ early_member →
  run (mkNames (R0 ∪ R1) G0 C0) (PlanCommands (d_groups desired ≫= plan_group current)) = Some (mkNames (R0 ∪ R1) (G0 ∪ G1) C0).
Proof.
  intros Hearly. apply (run_creates gp_name (plan_group current) (λ X, mkNames (R0 ∪ R1) X C0)
    (λ r, negb (bool_decide (gp_name r ∈ G0))) G0); try done; [apply Hdes| |].
  - intros r Y Hin _ Hc Hn. unfold plan_group. destruct (FindGroup current (gp_name r)) as [e|] eqn:E.
    { apply find_some in E as [He Heq]. bool_hyps. exfalso. apply Hc. unfold G0. rewrite <-Heq.
      apply elem_of_list_to_set. by apply list_elem_of_fmap_2. }
    rewrite run_one, exec_create_group; [done|done|done|]. apply desired_refs_exist. intros ref. by apply (wf_group_roles desired Hdes).
  - intros r Y Hin _ Hc Hn. unfold plan_group. destruct (FindGroup current (gp_name r)) as [e|] eqn:E.
    { apply find_some in E as [He Heq]. apply run_plan_same, groupUpdates_same; [done|..]; intros ref Href.
      - apply (desired_role ref (gp_roles r)); [|done]. intros x. by apply (wf_group_roles desired Hdes).
      - apply (current_role ref (gp_roles e)); [|done]. intros x. by apply (wf_group_roles current Hcur).
      - destruct (decide (cr_name ref ∈ cl_name <$> d_clients current)) as [Hin'|Hno]; [by apply elem_of_list_to_set|].
        exfalso. apply Hearly. exists r, ref. rewrite <-Heq. split; [done|]. split; [by apply list_elem_of_fmap_2|done].
      - by apply (current_client e). }
    apply find_none in E. bool_hyps. by apply elem_of_list_to_set in Hc.
Qed.

Lemma run_clients G : run (mkNames (R0 ∪ R1) G C0) (PlanCommands (d_clients desired ≫= plan_client current)) = Some (mkNames (R0 ∪ R1) G (C0 ∪ C1)).
Proof.
  apply (run_creates cl_name (plan_client current) (λ X, mkNames (R0 ∪ R1) G X)
    (λ r, negb (bool_decide (cl_name r ∈ C0))) C0); try done; [apply Hdes| |].
  - intros r Y Hin _ Hc Hn. unfold plan_client. destruct (FindClient current (cl_name r)) as [e|] eqn:E.
    { apply find_some in E as [He Heq]. bool_hyps. exfalso. apply Hc. unfold C0. rewrite <-Heq.
      apply elem_of_list_to_set. by apply list_elem_of_fmap_2. }
    rewrite run_one, exec_create_client; [done|done|done|]. apply desired_refs_exist. intros ref. by apply (wf_client_roles desired Hdes).
  - intros r Y Hin _ Hc Hn. unfold plan_client. destruct (FindClient current (cl_name r)) as [e|] eqn:E.
    { apply find_some in E as [He _]. apply run_plan_same, clientUpdates_same; [done|..]; intros ref Href.
      - apply (desired_role ref (cl_roles r)); [|done]. intros x. by apply (wf_client_roles desired Hdes).
      - apply (current_role ref (cl_roles e)); [|done]. intros x. by apply (wf_client_roles current Hcur). }
    apply find_none in E. bool_hyps. by apply elem_of_list_to_set in Hc.
Qed.

(** A new member of an existing group is added before it is created. *)
Lemma run_groups_early : early_member →
  run (mkNames (R0 ∪ R1) G0 C0) (PlanCommands (d_groups desired ≫= plan_group current)) = None.
Proof.
  intros (g & ref & Hg & Hin & Href & Hno).
  destruct (run _ (PlanCommands (d_groups desired ≫= plan_group current))) as [t|] eqn:Erun; [exfalso|done].
  assert (PlanCommands (d_groups desired ≫= plan_group current) = d_groups desired ≫= λ g, PlanCommands (plan_group current g)) as Eb.
  { generalize (d_groups desired). intros l. induction l as [|x l IH]; [done|].
    cbn [mbind list_bind]. by rewrite PlanCommands_app, IH. }
  rewrite Eb in Erun. apply Hno, (elem_of_list_to_set (C := gset string)).
  apply (run_needs_client _ _ _ (for_group (gp_name g) (for_client (cr_name ref) (with_priority (cr_priority ref) (command CommandAddGroupClient)))) Erun); [| |done].
  - apply Forall_bind, Forall_forall. intros x _. apply group_changes_keep_clients.
  - apply list_elem_of_bind. exists g. split; [|done]. unfold plan_group.
    destruct (FindGroup current (gp_name g)) as [e|] eqn:E; [|by apply find_none in E].
    apply find_some in E as [He _]. apply list_elem_of_bind. exists (add_member (gp_name g) ref). split; [by left|].
    unfold groupUpdates. cbv zeta. rewrite !elem_of_app. right; right; left. apply list_elem_of_fmap_2, list_elem_of_filter.
    split; [|done]. unfold hasClient. apply bool_decide_eq_false. intros (m & Heq & Hm)%list_elem_of_fmap.
    apply Hno. rewrite Heq. by apply (wf_group_clients current Hcur e).
Qed.

Lemma run_membership R : run (mkNames R (G0 ∪ G1) (C0 ∪ C1)) (PlanCommands (d_groups desired ≫= plan_membership current desired)) = Some (mkNames R (G0 ∪ G1) (C0 ∪ C1)).
Proof.
  apply run_plan_same. unfold same. apply Forall_bind, Forall_forall. intros g Hg.
  assert (gp_name g ∈ G0 ∪ G1) as Hin by (apply elem_of_union_r, elem_of_list_to_set; by apply list_elem_of_fmap_2).
  change (same (mkNames R (G0 ∪ G1) (C0 ∪ C1)) (plan_membership current desired g)).
  unfold plan_membership. destruct (FindGroup current (gp_name g)) as [e|] eqn:E.
  - apply find_some in E as [He _]. apply membership_same; [done|..]; intros ref Href; [by apply (desired_client g)|].
    by apply elem_of_union_l, (current_client e).
  - apply members_same; [done|]. intros ref. by apply desired_client.
Qed.

Lemma deletes_bind {A} kind (name : A → string) address del l :
  (λ x, delete_change kind (name x) (address (name x)) del) <$> l =
    l ≫= λ x, [delete_change kind (name x) (address (name x)) del].
Proof. induction l as [|x l IH]; [done|]. rewrite fmap_cons, IH. done. Qed.

Lemma kept {A} (name : A → string) (l l' : list A) :
  (list_to_set (name <$> l) ∪ list_to_set (name <$> l')) ∖
    list_to_set (name <$> filter (λ x, head (filter (λ y, name y = name x) l') = None) l) = (list_to_set (name <$> l') : gset string).
Proof.
  apply set_eq. intros n. rewrite elem_of_difference, elem_of_union, !elem_of_list_to_set. split.
  - intros [[Hn|Hn] Hnot]; [|done]. destruct (decide (n ∈ name <$> l')) as [|Hn']; [done|]. exfalso. apply Hnot.
    apply list_elem_of_fmap in Hn as (x & -> & Hx). apply list_elem_of_fmap_2, list_elem_of_filter.
    split; [by apply find_none|done].
  - intros Hn. split; [by right|]. intros (x & -> & [Hx _]%list_elem_of_filter)%list_elem_of_fmap.
    by apply find_none in Hx.
Qed.

Lemma NoDup_names_filter {A} (name : A → string) (P : A → Prop) `{!∀ x, Decision (P x)} l :
  NoDup (name <$> l) → NoDup (name <$> filter P l).
Proof. intros Hnd. apply (sublist_NoDup _ (name <$> l)); [done|]. apply (fmap_sublist name), sublist_filter. Qed.

Lemma run_deletions {A} kind (name : A → string) address del (at_ : gset string → names) l l' :
  NoDup (name <$> l) →
  (∀ n (Y : gset string), n ∈ Y → exec (at_ Y) (address n (command del)) = Some (at_ (Y ∖ {[n]}))) →
  run (at_ (list_to_set (name <$> l) ∪ list_to_set (name <$> l')))
    (PlanCommands ((λ x, delete_change kind (name x) (address (name x)) del) <$> filter (λ x, head (filter (λ y, name y = name x) l') = None) l))
    = Some (at_ (list_to_set (name <$> l'))).
Proof.
  intros Hnd Hdel. rewrite deletes_bind, (run_deletes name _ at_).
  - by rewrite kept.
  - by apply NoDup_names_filter.
  - intros x [_ Hx]%list_elem_of_filter. apply elem_of_union_l, elem_of_list_to_set. by apply list_elem_of_fmap_2.
  - intros x Y _ Hx. unfold delete_change. rewrite run_one. by apply Hdel.
Qed.

Lemma run_plan_deletes :
  run (mkNames (R0 ∪ R1) (G0 ∪ G1) (C0 ∪ C1)) (PlanCommands (plan_deletes current desired)) = Some (mkNames R1 G1 C1).
Proof.
  unfold plan_deletes. rewrite !PlanCommands_app, !run_app.
  pose proof (run_deletions ObjectClient cl_name for_client CommandDeleteClient (λ X, mkNames (R0 ∪ R1) (G0 ∪ G1) X)
    (d_clients current) (d_clients desired) (proj1 (wf_clients current Hcur))) as Hc.
  pose proof (run_deletions ObjectGroup gp_name for_group CommandDeleteGroup (λ X, mkNames (R0 ∪ R1) X C1)
    (d_groups current) (d_groups desired) (proj1 (wf_groups current Hcur))) as Hg.
  pose proof (run_deletions ObjectRole ro_name for_role CommandDeleteRole (λ X, mkNames X G1 C1)
    (d_roles current) (d_roles desired) (proj1 (wf_roles current Hcur))) as Hr.
  fold C0 C1 in Hc. fold G0 G1 in Hg. fold R0 R1 in Hr.
  cbv beta in Hc, Hg, Hr. unfold FindClient, FindGroup, FindRole.
  rewrite Hc by (intros n Y Hn; by rewrite exec_delete_client). cbn [mbind option_bind]. rewrite run_app.
  rewrite Hg by (intros n Y Hn; by rewrite exec_delete_group). cbn [mbind option_bind].
  apply Hr. intros n Y Hn. by rewrite exec_delete_role.
Qed.

Lemma run_settings :
  run (mkNames R1 G1 C1) (PlanCommands (plan_default (d_default current) (d_default desired) ++ plan_anonymous (d_anonymous current) (d_anonymous desired)))
    = Some (mkNames R1 G1 C1).
Proof.
  apply run_plan_same. rewrite same_app. split.
  - unfold plan_default. case_decide; [constructor|]. by repeat constructor.
  - unfold plan_anonymous. case_decide; [constructor|]. repeat constructor. apply exec_anonymous.
    destruct (wf_anonymous desired Hdes) as [->|Hin]; [by left|right]. by apply elem_of_list_to_set.
Qed.

Lemma run_BuildPlan_early : early_member → run (names_of current) (PlanCommands (BuildPlan current desired)) = None.
Proof.
  intros Hearly. unfold BuildPlan. change (names_of current) with (mkNames R0 G0 C0). rewrite !PlanCommands_app, run_app.
  rewrite run_roles. cbn [mbind option_bind]. by rewrite run_app, run_groups_early.
Qed.

Lemma run_BuildPlan : ¬ early_member →
  run (names_of current) (PlanCommands (BuildPlan current desired)) = Some (names_of desired).
Proof.
  intros Hearly. unfold BuildPlan. change (names_of current) with (mkNames R0 G0 C0). rewrite !PlanCommands_app, run_app.
  rewrite run_roles. cbn [mbind option_bind]. rewrite run_app, run_groups by done. cbn [mbind option_bind]. rewrite run_app, run_clients.
  cbn [mbind option_bind]. rewrite run_app, run_membership. cbn [mbind option_bind]. rewrite run_app, run_plan_deletes.
  cbn [mbind option_bind]. rewrite <-PlanCommands_app. apply run_settings.
Qed.
End plan_run.

(** ** Properties *)

(** [C17] The plan between two well formed documents can be run unless it
    makes a client a member of a group before it creates the client.  When no
    group of both documents has, in the desired one, a member that is not a
    client of the current one, every command of the plan finds the roles, groups
    and clients it addresses (roles exist before they are referenced and are
    deleted only after, clients exist when they join or leave a group), no object
    is created twice, and the names that exist at the end are exactly those of
    the desired document.  When there is such a member, some command of the plan
    addresses an object that does not exist: the first [addGroupClient] comes
    before the [createClient]. *)
Theorem BuildPlan_runs current desired :
  well_formed current → well_formed desired →
  (¬ early_member current desired →
     run (names_of current) (PlanCommands (BuildPlan current desired)) = Some (names_of desired))
  ∧ (early_member current desired → run (names_of current) (PlanCommands (BuildPlan current desired)) = None).
Proof. intros Hc Hd. split; [by apply run_BuildPlan|by apply run_BuildPlan_early]. Qed.

Definition no_access : DefaultAccess := mkAccess false false false false.
Definition reader_role : Role := mkRole "reader" "" "" [mkACL ACLSubscribePattern "sensors/#" true 0].
Definition user (name : string) (roles groups : list string) : Client :=
  mkClient name "" "" "" "" true ((λ r, mkRoleRef r 0) <$> roles) ((λ g, mkGroupRef g 0) <$> groups) false.
Definition team (clients : list string) : Group :=
  mkGroup "team" "" "" [mkRoleRef "reader" 0] ((λ c, mkClientRef c 0) <$> clients).
Definition doc_of (clients : list Client) (members : list string) : Document :=
  mkDocument clients [team members] [reader_role] no_access "".
Definition before_doc : Document := doc_of [user "alice" [] ["team"]] ["alice"].
Definition after_doc : Document := doc_of [user "alice" [] ["team"]; user "bob" [] ["team"]] ["alice"; "bob"].

(** A new client in a group that exists already is an early member; one in a
    new group is not. *)
Definition new_team_doc : Document :=
  mkDocument [user "alice" [] ["team"]; user "bob" [] ["crew"]]
    [team ["alice"]; mkGroup "crew" "" "" [mkRoleRef "reader" 0] [mkClientRef "bob" 0]] [reader_role] no_access "".

Lemma BuildPlan_runs_witness :
  run (names_of before_doc) (PlanCommands (BuildPlan before_doc new_team_doc)) = Some (names_of new_team_doc)
  ∧ run (names_of before_doc) (PlanCommands (BuildPlan before_doc after_doc)) = None.
Proof.
  split.
  - refine (proj1 (BuildPlan_runs before_doc new_team_doc _ _) _); [apply Validate_well_formed_nil; by vm_compute..|].
    intros (g & ref & Hg & Hin & Href & Hno).
    apply elem_of_cons in Hg as [->|Hg%list_elem_of_singleton]; [|subst g].
    + apply list_elem_of_singleton in Href as ->. apply Hno. by left.
    + by refine (_ (bool_decide_pack _ Hin)).
  - refine (proj2 (BuildPlan_runs before_doc after_doc _ _) _); [apply Validate_well_formed_nil; by vm_compute..|].
    exists (team ["alice"; "bob"]), (mkClientRef "bob" 0). split; [by left|]. split; [by left|]. split; [by right; left|].
    refine (bool_decide_unpack _ _). vm_compute. exact I.
Defined.

(** The membership of a group that already exists is planned twice, and
    the first time before the client it names: for these two valid, normalised
    documents the plan sends [addGroupClient] for the new client, then creates
    the client, then sends [addGroupClient] again. *)
Theorem membership_before_client :
  Validate before_doc = [] ∧ Validate after_doc = []
  ∧ NormalizeDocument before_doc = before_doc ∧ NormalizeDocument after_doc = after_doc
  ∧ (λ c, (cmd_name c, cmd_username c)) <$> PlanCommands (BuildPlan before_doc after_doc)
    = [(CommandAddGroupClient, "bob"); (CommandCreateClient, "bob"); (CommandAddGroupClient, "bob")].
Proof. by vm_compute. Qed.


Definition admin_role : Role := mkRole "admin" "" "" [mkACL ACLPublishClientSend "$CONTROL/#" true 0].
Definition sly_role : Role := mkRole "sly" "" "" [mkACL ACLPublishClientSend "$CONTROL/+/v1" true 0].
Definition sly_doc : Document :=
  mkDocument [user "admin" ["admin"] []; user "mallory" ["sly"] []] [] [admin_role; sly_role] no_access "".

(** A client that carries the roles it lists and belongs to no group. *)
Lemma direct_access doc c e r : d_groups doc = [] → r ∈ d_roles doc → ro_name r ∈ rr_name <$> cl_roles c →
  e ∈ ro_acls r → acl_allow e = true → acl_type e ∈ channel_types → may_access doc c e.
Proof. intros _ Hr Hrole He Ha Ht. exists (ro_name r). split; [by left|]. by exists r. Qed.

Lemma sly_mirrored : mirrored sly_doc.
Proof. intros c g _ Hg. by apply elem_of_nil in Hg. Qed.


(** The guard misses the wildcard: in this valid document a client that is
    not the management account may publish on a filter that matches the control
    topic, and the report is fine. *)
Theorem guard_misses_wildcard :
  Validate sly_doc = [] ∧ gu_ok (CheckControlChannel sly_doc "admin") = true
  ∧ (∃ c e, c ∈ d_clients sly_doc ∧ cl_name c = "mallory" ∧ may_access sly_doc c e ∧ covers_control (acl_topic e)).
Proof.
  split; [by vm_compute|]. split; [by vm_compute|].
  exists (user "mallory" ["sly"] []), (mkACL ACLPublishClientSend "$CONTROL/+/v1" true 0).
  split; [by right; left|]. split; [done|]. split; [|by vm_compute].
  by apply (direct_access _ _ _ sly_role); [|right; left|left|left| |left].
Qed.

(** The guard reads the groups a client lists and not the clients a group lists:
    this valid document lets mallory publish on the control topic through a group,
    the report is fine, and it is not once the document is normalised. *)
Definition unmirrored_doc : Document :=
  mkDocument [user "admin" ["admin"] []; user "mallory" [] []]
    [mkGroup "ops" "" "" [mkRoleRef "admin" 0] [mkClientRef "mallory" 0]] [admin_role] no_access "".

Theorem guard_misses_members :
  Validate unmirrored_doc = [] ∧ gu_ok (CheckControlChannel unmirrored_doc "admin") = true
  ∧ gu_ok (CheckControlChannel (NormalizeDocument unmirrored_doc) "admin") = false
  ∧ (∃ c e, c ∈ d_clients unmirrored_doc ∧ cl_name c = "mallory" ∧ may_access unmirrored_doc c e ∧ covers_control (acl_topic e)).
Proof.
  split; [by vm_compute|]. split; [by vm_compute|]. split; [by vm_compute|].
  exists (user "mallory" [] []), (mkACL ACLPublishClientSend "$CONTROL/#" true 0).
  split; [by right; left|]. split; [done|]. split; [|by vm_compute].
  exists "admin". split; [|exists admin_role; split_and!; [by left|done|by left|done|by left]].
  right. eexists. split; [split; [by left|left; by left]|by left].
Qed.
