(* ===== verification/DynsecService.v ===== *)
(** * [internal/dynsec/service.go] and the answers of [protocol.go]

    [Verify] compares the requested document with the one the broker reports;
    [Service] reads the document through the control channel and applies a
    plan.  The control channel is the interface [Transport] of the package: a
    class with the answer to a request and the pause between two attempts, so
    the theorems hold for every implementation.  The decoding of the JSON
    payloads is a field of the class; the conversion of the payloads is
    modelled. *)
From S2P Require Import Prelude Unicode GoStrings Acl Dynsec DynsecPlan.

(** ** [Verify]

    An issue carries the kind, the object and the field of the code; the last
    component stands for the message. *)
Definition disabledState (disabled : bool) : string := if disabled then "disabled" else "enabled".

(** [sameRoles], [sameGroups] and [sameClients]: the names of [b] are taken out
    of the set of the names of [a] one by one, and nothing may be left. *)
Fixpoint take_out (left : gset string) (names : list string) : option (gset string) :=
  match names with
  | [] => Some left
  | n :: rest => if decide (n ∈ left) then take_out (left ∖ {[n]}) rest else None
  end.
Definition sameNames (a b : list string) : bool := bool_decide (take_out (list_to_set a) b = Some ∅).
Definition sameRoles (a b : list RoleRef) : bool := sameNames (rr_name <$> a) (rr_name <$> b).
Definition sameGroups (a b : list GroupRef) : bool := sameNames (gr_name <$> a) (gr_name <$> b).
Definition sameClients (a b : list ClientRef) : bool := sameNames (cr_name <$> a) (cr_name <$> b).

Definition aclKey (e : ACL) : string := acl_type e +:+ chr_str nul_char +:+ acl_topic e.
Fixpoint take_acls (left : gmap string ACL) (entries : list ACL) : option (gmap string ACL) :=
  match entries with
  | [] => Some left
  | e :: rest =>
      match left !! aclKey e with
      | Some found => if decide (acl_allow found = acl_allow e) then take_acls (delete (aclKey e) left) rest else None
      | None => None
      end
  end.
Definition sameACLs (a b : list ACL) : bool :=
  match take_acls (map_by aclKey a) b with Some m => bool_decide (m = ∅) | None => false end.

(** The three loops of [Verify]: an object that is missing is reported, one
    that is found is compared and taken out of the map, and what is left in the
    map is reported at the end, in the unspecified order of a Go map. *)
Fixpoint verify_loop {A} (kind : string) (name : A → string) (compare : A → A → list Issue)
    (actual : gmap string A) (desired : list A) : list Issue * gmap string A :=
  match desired with
  | [] => ([], actual)
  | x :: rest =>
      match actual !! name x with
      | None => let r := verify_loop kind name compare actual rest in (mkIssue kind (name x) "" "missing" :: r.1, r.2)
      | Some found =>
          let r := verify_loop kind name compare (delete (name x) actual) rest in (compare found x ++ r.1, r.2)
      end
  end.
Definition verify_objects {A} kind (name : A → string) compare (actual desired : list A) : list Issue :=
  let r := verify_loop kind name compare (map_by name actual) desired in
  r.1 ++ ((λ x, mkIssue kind x.1 "" "left over") <$> map_to_list r.2).

Definition issue_if (b : bool) (i : Issue) : list Issue := if b then [i] else [].
Definition compare_client (found c : Client) : list Issue :=
  issue_if (negb (bool_decide (cl_disabled found = cl_disabled c))) (mkIssue ObjectClient (cl_name c) "disabled" (disabledState (cl_disabled c)))
  ++ issue_if (negb (sameRoles (cl_roles found) (cl_roles c))) (mkIssue ObjectClient (cl_name c) "roles" "")
  ++ issue_if (negb (sameGroups (cl_groups found) (cl_groups c))) (mkIssue ObjectClient (cl_name c) "groups" "").
Definition compare_group (found g : Group) : list Issue :=
  issue_if (negb (sameRoles (gp_roles found) (gp_roles g))) (mkIssue ObjectGroup (gp_name g) "roles" "")
  ++ issue_if (negb (sameClients (gp_clients found) (gp_clients g))) (mkIssue ObjectGroup (gp_name g) "clients" "").
Definition compare_role (found r : Role) : list Issue :=
  issue_if (negb (sameACLs (ro_acls found) (ro_acls r))) (mkIssue ObjectRole (ro_name r) "acls" "").

Definition Verify (desired actual : Document) : list Issue :=
  verify_objects ObjectClient cl_name compare_client (d_clients actual) (d_clients desired)
  ++ verify_objects ObjectGroup gp_name compare_group (d_groups actual) (d_groups desired)
  ++ verify_objects ObjectRole ro_name compare_role (d_roles actual) (d_roles desired)
  ++ issue_if (negb (bool_decide (d_default desired = d_default actual))) (mkIssue ObjectDefaultAccess "default_access" "" "")
  ++ issue_if (negb (bool_decide (d_anonymous desired = d_anonymous actual))) (mkIssue ObjectAnonymousGroup "anonymous_group" "" "").

(** ** The answers of the plugin *)
Inductive transport_error := ErrConnectionLost | ErrResponseMismatch | ErrOther.

Record clientPayload := mkClientPayload {
  pc_username : string; pc_textname : string; pc_textdesc : string; pc_client_id : string;
  pc_disabled : bool; pc_roles : list RoleRef; pc_groups : list GroupRef
}.
Record defaultACLEntry := mkDefaultEntry { de_type : string; de_allow : option bool }.

(** The control channel: the world it lives in, the answers to the commands of
    a request (command, payload and error text), and the pause between two
    attempts, which says whether the context is done. *)
Class Transport (W Data : Type) := {
  Do : W → list Command → W * result transport_error (list (string * Data * string));
  pause : W → W * bool
}.
(** The JSON decoder on the payloads. *)
Class Decoder (Data : Type) := {
  decode_clients : Data → option (list clientPayload);
  decode_groups : Data → option (list Group);
  decode_roles : Data → option (list Role);
  decode_defaults : Data → option (list defaultACLEntry);
  decode_anonymous : Data → option string
}.

Inductive service_error :=
  | Transported (e : transport_error) | Refused (command : string) | NoAnswer (command : string)
  | Undecodable (command : string) | Cancelled | NotVerified (actual : Document) (issues : list Issue).

Section service.
Context {W Data : Type} `{Transport W Data, Decoder Data}.

(** One answer: the command, the payload and the error text. *)
Definition CommandResponse : Type := string * Data * string.
Definition rs_command (r : CommandResponse) : string := r.1.1.
Definition rs_data (r : CommandResponse) : Data := r.1.2.
Definition Failed (r : CommandResponse) : bool := negb (bool_decide (trim_space r.2 = "")).

Definition CheckResponses (responses : list CommandResponse) (expected : list string) : option service_error :=
  match head (filter (λ r, Failed r = true) responses) with
  | Some r => Some (Refused (rs_command r))
  | None =>
      match head (filter (λ n, n ∉ rs_command <$> responses) expected) with
      | Some n => Some (NoAnswer n)
      | None => None
      end
  end.

Definition client_of (p : clientPayload) : Client :=
  mkClient (pc_username p) (pc_textname p) (pc_textdesc p) (pc_client_id p) "" false (pc_roles p) (pc_groups p) (pc_disabled p).
Definition ParseClients (d : Data) : option (list Client) := (λ ps : list clientPayload, client_of <$> ps) <$> decode_clients d.

Definition default_step (a : DefaultAccess) (e : defaultACLEntry) : DefaultAccess :=
  let allow := bool_decide (de_allow e = Some true) in
  if decide (de_type e = DefaultPublishClientSend) then mkAccess allow (da_publish_receive a) (da_subscribe a) (da_unsubscribe a)
  else if decide (de_type e = DefaultPublishClientReceive) then mkAccess (da_publish_send a) allow (da_subscribe a) (da_unsubscribe a)
  else if decide (de_type e = DefaultSubscribe) then mkAccess (da_publish_send a) (da_publish_receive a) allow (da_unsubscribe a)
  else if decide (de_type e = DefaultUnsubscribe) then mkAccess (da_publish_send a) (da_publish_receive a) (da_subscribe a) allow
  else a.
Definition ParseDefaultAccess (d : Data) : option DefaultAccess :=
  foldl default_step (mkAccess false false false false) <$> decode_defaults d.

Definition decoded {A} (command : string) (o : option A) : result service_error A :=
  match o with Some a => Ok a | None => Err (Undecodable command) end.

Definition read_step (doc : Document) (r : CommandResponse) : result service_error Document :=
  let c := rs_command r in
  if decide (c = CommandListClients) then
    x ← decoded c (ParseClients (rs_data r)); Ok (mkDocument x (d_groups doc) (d_roles doc) (d_default doc) (d_anonymous doc))
  else if decide (c = CommandListGroups) then
    x ← decoded c (decode_groups (rs_data r)); Ok (mkDocument (d_clients doc) x (d_roles doc) (d_default doc) (d_anonymous doc))
  else if decide (c = CommandListRoles) then
    x ← decoded c (decode_roles (rs_data r)); Ok (mkDocument (d_clients doc) (d_groups doc) x (d_default doc) (d_anonymous doc))
  else if decide (c = CommandGetDefaultACLAccess) then
    x ← decoded c (ParseDefaultAccess (rs_data r)); Ok (mkDocument (d_clients doc) (d_groups doc) (d_roles doc) x (d_anonymous doc))
  else if decide (c = CommandGetAnonymousGroup) then
    x ← decoded c (decode_anonymous (rs_data r)); Ok (mkDocument (d_clients doc) (d_groups doc) (d_roles doc) (d_default doc) x)
  else Ok doc.

Fixpoint read_all (doc : Document) (responses : list CommandResponse) : result service_error Document :=
  match responses with
  | [] => Ok doc
  | r :: rest => doc' ← read_step doc r; read_all doc' rest
  end.

Definition read_commands : list Command :=
  [listing (command CommandListClients); listing (command CommandListGroups); listing (command CommandListRoles);
   command CommandGetDefaultACLAccess; command CommandGetAnonymousGroup].
Definition empty_document : Document := mkDocument [] [] [] (mkAccess false false false false) "".

Definition Read (w : W) : W * result service_error Document :=
  let '(w', answer) := Do w read_commands in
  (w', match answer with
       | Err e => Err (Transported e)
       | Ok responses =>
           match CheckResponses responses (cmd_name <$> read_commands) with
           | Some e => Err e
           | None => SortDocument <$> read_all empty_document responses
           end
       end).

(** [readWithRetry]: at most [attempts] reads; only a lost connection is read
    again, after a pause that ends early when the context is done.  [last] is
    the error of the previous attempt. *)
Fixpoint read_retry (attempts : nat) (last : service_error) (w : W) : W * result service_error Document :=
  match attempts with
  | O => (w, Err last)
  | S n =>
      match Read w with
      | (w', Err (Transported ErrConnectionLost)) =>
          let '(w'', done) := pause w' in
          if done : bool then (w'', Err Cancelled) else read_retry n (Transported ErrConnectionLost) w''
      | (w', r) => (w', r)
      end
  end.
Definition readWithRetry : W → W * result service_error Document := read_retry 4 Cancelled.

Definition verified (desired : Document) (r : W * result service_error Document) : W * result service_error Document :=
  match r with
  | (w, Ok actual) =>
      match Verify desired actual with [] => (w, Ok actual) | issues => (w, Err (NotVerified actual issues)) end
  | r => r
  end.

Definition Apply (w : W) (plan : Plan) (desired : Document) : W * result service_error Document :=
  match PlanCommands plan with
  | [] => verified desired (readWithRetry w)
  | commands =>
      let '(w', answer) := Do w commands in
      match answer with
      | Ok responses =>
          match head (filter (λ r, Failed r = true) responses) with
          | Some r => (w', Err (Refused (rs_command r)))
          | None => verified desired (readWithRetry w')
          end
      | Err ErrConnectionLost | Err ErrResponseMismatch => verified desired (readWithRetry w')
      | Err e => (w', Err (Transported e))
      end
  end.
End service.

(** ** [MarshalCommands]: the commands as the review and the audit trail show them *)
Definition masked (c : Command) : Command :=
  if decide (cmd_password c = "") then c else with_login "********" (cmd_client_id c) c.
Definition MarshalCommands (marshal : list Command → option string) (commands : list Command) : string :=
  match commands with
  | [] => ""
  | _ => match marshal (masked <$> commands) with Some body => body | None => "" end
  end.

(** ** Comparison of two documents *)
Lemma take_out_spec left b : take_out left b = Some ∅ ↔ NoDup b ∧ left = list_to_set b.
Proof.
  revert left. induction b as [|n b IH]; intros left; cbn [take_out].
  { split; [intros [= ->]; by split; [constructor|]|intros [_ ->]; done]. }
  rewrite NoDup_cons, list_to_set_cons. destruct (decide (n ∈ left)) as [Hn|Hn].
  - rewrite IH. split.
    + intros [Hnd Hl]. assert (n ∉ b) as Hb by (intros Hb; apply (elem_of_list_to_set (C := gset string)) in Hb; set_solver).
      split; [done|]. rewrite <-Hl. by apply union_difference_singleton_L.
    + intros [[Hb Hnd] ->]. split; [done|]. apply (not_elem_of_list_to_set (C := gset string)) in Hb. set_solver.
  - split; [done|]. intros [_ ->]. set_solver.
Qed.

Lemma sameNames_spec a b : sameNames a b = true ↔ NoDup b ∧ ∀ n, n ∈ a ↔ n ∈ b.
Proof.
  unfold sameNames. rewrite bool_decide_eq_true, take_out_spec, set_eq. by setoid_rewrite elem_of_list_to_set.
Qed.

(** What a list of entries says about a key. *)
Definition access (l : list ACL) : gmap string bool := list_to_map ((λ e, (aclKey e, acl_allow e)) <$> l).

Lemma access_None l k : access l !! k = None ↔ k ∉ aclKey <$> l.
Proof. unfold access. rewrite <-not_elem_of_list_to_map, <-list_fmap_compose. done. Qed.

Lemma take_acls_spec m b : take_acls m b = Some ∅ ↔ NoDup (aclKey <$> b) ∧ acl_allow <$> m = access b.
Proof.
  revert m. induction b as [|e b IH]; intros m; cbn [take_acls].
  { split; [intros [= ->]; split; [constructor|apply fmap_empty]|].
    intros [_ Hm]. change (access []) with (∅ : gmap string bool) in Hm. apply fmap_empty_inv in Hm. by subst. }
  rewrite fmap_cons, NoDup_cons. change (access (e :: b)) with (<[aclKey e := acl_allow e]> (access b)).
  destruct (m !! aclKey e) as [found|] eqn:E.
  2: { split; [done|]. intros [_ Heq]. apply (f_equal (λ m, m !! aclKey e)) in Heq.
       rewrite lookup_fmap, E, lookup_insert_eq in Heq. done. }
  destruct (decide (acl_allow found = acl_allow e)) as [Ha|Ha].
  2: { split; [done|]. intros [_ Heq]. apply (f_equal (λ m, m !! aclKey e)) in Heq.
       rewrite lookup_fmap, E, lookup_insert_eq in Heq. by injection Heq. }
  rewrite IH, fmap_delete, <-access_None. split.
  - intros [Hnd Hd]. split; [split; [rewrite <-Hd; apply lookup_delete_eq|done]|].
    rewrite <-Hd, insert_delete_eq. symmetry. apply insert_id. by rewrite lookup_fmap, E, <-Ha.
  - intros [[Hn Hnd] Hd]. split; [done|]. rewrite Hd. by apply delete_insert_id.
Qed.

Lemma access_Some l k allow : NoDup (aclKey <$> l) → access l !! k = Some allow ↔ ∃ e, e ∈ l ∧ aclKey e = k ∧ acl_allow e = allow.
Proof.
  intros Hnd. unfold access. rewrite <-elem_of_list_to_map by (by rewrite <-list_fmap_compose).
  rewrite list_elem_of_fmap. split.
  - intros (e & [= -> ->] & He). by exists e.
  - intros (e & He & <- & <-). by exists e.
Qed.

Lemma access_map_by l : NoDup (aclKey <$> l) → acl_allow <$> map_by aclKey l = access l.
Proof.
  intros Hnd. apply map_eq. intros k. rewrite lookup_fmap. destruct (map_by aclKey l !! k) as [e|] eqn:E; cbn.
  - apply map_by_Some in E as [He Hk]. symmetry. apply access_Some; [done|]. by exists e.
  - apply map_by_None in E. symmetry. by apply access_None.
Qed.

(** Two lists give the same access when they hold the same entries, the
    priority aside. *)
Definition entry_of (l : list ACL) (type topic : string) (allow : bool) : Prop :=
  ∃ e, e ∈ l ∧ acl_type e = type ∧ acl_topic e = topic ∧ acl_allow e = allow.
Definition acl_id (e : ACL) : string * string := (acl_type e, acl_topic e).

Lemma acl_types_no_nul t : t ∈ ACLTypes → free_of nul_char t = true.
Proof.
  intros Ht. unfold ACLTypes in Ht.
  repeat (apply elem_of_cons in Ht as [->|Ht]; [by vm_compute|]). by apply elem_of_nil in Ht.
Qed.

Lemma nul_prefix_inj a b x y :
  free_of nul_char a = true → free_of nul_char b = true →
  a +:+ chr_str nul_char +:+ x = b +:+ chr_str nul_char +:+ y → a = b ∧ x = y.
Proof.
  revert b. induction a as [|c a IH]; intros [|d b]; cbn; intros Ha Hb Heq.
  - by injection Heq.
  - exfalso. apply andb_true_iff in Hb as [Hb _]. injection Heq as <- _. done.
  - exfalso. apply andb_true_iff in Ha as [Ha _]. injection Heq as -> _. done.
  - apply andb_true_iff in Ha as [_ Ha], Hb as [_ Hb]. injection Heq as -> Heq. by destruct (IH b Ha Hb Heq) as [-> ->].
Qed.

Lemma aclKey_inj a b : acl_ok a → acl_ok b → aclKey a = aclKey b ↔ acl_id a = acl_id b.
Proof.
  intros (Ha & _) (Hb & _). unfold acl_id, aclKey. split; [|by intros [= -> ->]].
  intros H. apply nul_prefix_inj in H as [-> ->]; [done|..]; by apply acl_types_no_nul.
Qed.

Lemma NoDup_keys l : Forall acl_ok l → NoDup (aclKey <$> l) ↔ NoDup (acl_id <$> l).
Proof.
  induction 1 as [|e l He Hl IH]; [split; intros; constructor|]. rewrite !fmap_cons, !NoDup_cons, IH, !list_elem_of_fmap.
  rewrite Forall_forall in Hl. enough ((∃ y, aclKey e = aclKey y ∧ y ∈ l) ↔ ∃ y, acl_id e = acl_id y ∧ y ∈ l) as -> by done.
  split; intros (y & Heq & Hy); (exists y); (split; [|exact Hy]); revert Heq; apply aclKey_inj; auto.
Qed.

Lemma entry_of_access l t p allow : Forall acl_ok l → t ∈ ACLTypes → NoDup (aclKey <$> l) →
  access l !! (t +:+ chr_str nul_char +:+ p) = Some allow ↔ entry_of l t p allow.
Proof.
  intros Hok Ht Hnd. rewrite access_Some by done. rewrite Forall_forall in Hok. split.
  - intros (e & He & Hk & Ha). exists e. unfold aclKey in Hk. destruct (Hok e He) as [Hte _].
    apply nul_prefix_inj in Hk as [-> ->]; [done|..]; by apply acl_types_no_nul.
  - intros (e & He & <- & <- & <-). by exists e.
Qed.

Lemma sameACLs_spec a b : Forall acl_ok a → Forall acl_ok b → NoDup (acl_id <$> a) →
  sameACLs a b = true ↔ NoDup (acl_id <$> b) ∧ ∀ t p allow, entry_of a t p allow ↔ entry_of b t p allow.
Proof.
  intros Ha Hb Hnd. apply NoDup_keys in Hnd; [|done].
  assert (sameACLs a b = true ↔ take_acls (map_by aclKey a) b = Some ∅) as ->.
  { unfold sameACLs. destruct (take_acls _ b); [|done]. rewrite bool_decide_eq_true. naive_solver. }
  rewrite take_acls_spec, access_map_by, <-(NoDup_keys b) by done. split.
  - intros [Hnb Heq]. split; [done|]. intros t p allow.
    assert (∀ l, Forall acl_ok l → entry_of l t p allow → t ∈ ACLTypes) as Ht.
    { intros l Hl (e & He & <- & _). rewrite Forall_forall in Hl. by destruct (Hl e He). }
    split; intros He.
    + apply (entry_of_access b); [done|by apply (Ht a)|done|]. rewrite <-Heq. apply entry_of_access; try done. by apply (Ht a).
    + apply (entry_of_access a); [done|by apply (Ht b)|done|]. rewrite Heq. apply entry_of_access; try done. by apply (Ht b).
  - intros [Hnb Heq]. split; [done|]. apply map_eq. intros k. apply option_eq. intros allow. rewrite !access_Some by done.
    split; intros (e & He & <- & <-).
    + destruct (proj1 (Heq (acl_type e) (acl_topic e) (acl_allow e))) as (e' & He' & Ht & Hp & Hal); [by exists e|].
      exists e'. unfold aclKey. by rewrite Ht, Hp.
    + destruct (proj2 (Heq (acl_type e) (acl_topic e) (acl_allow e))) as (e' & He' & Ht & Hp & Hal); [by exists e|].
      exists e'. unfold aclKey. by rewrite Ht, Hp.
Qed.

(** The three loops. *)
Lemma issue_if_nil b i : issue_if (negb b) i = [] ↔ b = true.
Proof. by destruct b. Qed.

Lemma verify_loop_spec {A} kind (name : A → string) compare m l :
  let r := verify_loop kind name compare m l in
  r.1 = [] ∧ r.2 = ∅ ↔
  NoDup (name <$> l) ∧ dom m = list_to_set (name <$> l) ∧ ∀ x y, x ∈ l → m !! name x = Some y → compare y x = [].
Proof.
  cbv zeta. revert m. induction l as [|x l IH]; intros m; cbn [verify_loop].
  { cbn. split.
    - intros [_ ->]. split; [constructor|]. split; [apply dom_empty_L|]. intros x y Hx. by apply elem_of_nil in Hx.
    - intros (_ & Hd & _). split; [done|]. by apply dom_empty_inv_L. }
  rewrite fmap_cons, NoDup_cons, list_to_set_cons. destruct (m !! name x) as [found|] eqn:E; cbn.
  2: { split; [by intros [? _]|]. intros (_ & Hd & _). apply not_elem_of_dom in E. rewrite Hd in E. set_solver. }
  rewrite app_nil, <-(assoc and), IH, dom_delete_L. apply elem_of_dom_2 in E as Ed. split.
  - intros (Hc & Hnd & Hd & Hall).
    assert (name x ∉ name <$> l) as Hn by (rewrite <-(elem_of_list_to_set (C := gset string)); set_solver).
    split; [done|]. split; [rewrite <-Hd; by apply union_difference_singleton_L|].
    intros y z Hy Hz. apply elem_of_cons in Hy as [->|Hy]; [by rewrite E in Hz; injection Hz as <-|].
    apply Hall; [done|]. rewrite lookup_delete_ne; [done|]. intros Heq. apply Hn. rewrite Heq. by apply list_elem_of_fmap_2.
  - intros ([Hn Hnd] & Hd & Hall). split; [apply Hall; [by left|done]|]. split; [done|]. split.
    + rewrite <-(elem_of_list_to_set (C := gset string)) in Hn. set_solver.
    + intros y z Hy Hz. apply Hall; [by right|]. by apply lookup_delete_Some in Hz as [_ ?].
Qed.

Lemma verify_objects_nil {A} kind (name : A → string) compare actual desired :
  NoDup (name <$> actual) →
  verify_objects kind name compare actual desired = [] ↔
  NoDup (name <$> desired) ∧ (∀ n, n ∈ name <$> desired ↔ n ∈ name <$> actual)
  ∧ ∀ x y, x ∈ desired → y ∈ actual → name y = name x → compare y x = [].
Proof.
  intros Hnd. unfold verify_objects. cbv zeta. rewrite app_nil.
  rewrite <-(length_zero_iff_nil (_ <$> _)), length_fmap, length_zero_iff_nil, map_to_list_empty_iff, verify_loop_spec.
  assert (dom (map_by name actual) = list_to_set (name <$> actual)) as ->.
  { apply set_eq. intros n. rewrite elem_of_list_to_set. destruct (decide (n ∈ name <$> actual)) as [Hn|Hn].
    - split; [done|]. intros _. apply elem_of_dom. destruct (map_by name actual !! n) eqn:E; [by eexists|]. by apply map_by_None in E.
    - split; [|done]. intros Hd. apply elem_of_dom in Hd as [y Hy]. apply map_by_None in Hn. by rewrite Hn in Hy. }
  rewrite set_eq. setoid_rewrite elem_of_list_to_set.
  split; intros (Hd & Hn & Hc); (split; [done|]); (split; [intros n; by rewrite Hn|]).
  - intros x y Hx Hy Heq. apply Hc; [done|]. rewrite <-Heq. by apply map_by_elem.
  - intros x y Hx Hy. apply map_by_Some in Hy as [Hy Heq]. by apply Hc.
Qed.

(** ** Specification of [Verify] *)
Definition same_names (a b : list string) : Prop := NoDup b ∧ ∀ n, n ∈ a ↔ n ∈ b.
Definition same_entries (a b : list ACL) : Prop := NoDup (acl_id <$> b) ∧ ∀ t p allow, entry_of a t p allow ↔ entry_of b t p allow.
Definition matching {A} (name : A → string) (R : A → A → Prop) (actual desired : list A) : Prop :=
  (∀ n, n ∈ name <$> desired ↔ n ∈ name <$> actual) ∧ ∀ x y, x ∈ desired → y ∈ actual → name y = name x → R y x.

Definition client_agrees (found c : Client) : Prop :=
  cl_disabled found = cl_disabled c ∧ same_names (rr_name <$> cl_roles found) (rr_name <$> cl_roles c)
  ∧ same_names (gr_name <$> cl_groups found) (gr_name <$> cl_groups c).
Definition group_agrees (found g : Group) : Prop :=
  same_names (rr_name <$> gp_roles found) (rr_name <$> gp_roles g)
  ∧ same_names (cr_name <$> gp_clients found) (cr_name <$> gp_clients g).
Definition role_agrees (found r : Role) : Prop := same_entries (ro_acls found) (ro_acls r).

Record agrees (desired actual : Document) : Prop := {
  ag_clients : matching cl_name client_agrees (d_clients actual) (d_clients desired);
  ag_groups : matching gp_name group_agrees (d_groups actual) (d_groups desired);
  ag_roles : matching ro_name role_agrees (d_roles actual) (d_roles desired);
  ag_default : d_default desired = d_default actual;
  ag_anonymous : d_anonymous desired = d_anonymous actual
}.

(** The references of an object are listed once, and so are the topics of a
    role: what the broker reports. *)
Record tidy (d : Document) : Prop := {
  ty_acls : ∀ r, r ∈ d_roles d → NoDup (acl_id <$> ro_acls r);
  ty_client_roles : ∀ c, c ∈ d_clients d → NoDup (rr_name <$> cl_roles c);
  ty_client_groups : ∀ c, c ∈ d_clients d → NoDup (gr_name <$> cl_groups c);
  ty_group_roles : ∀ g, g ∈ d_groups d → NoDup (rr_name <$> gp_roles g);
  ty_group_clients : ∀ g, g ∈ d_groups d → NoDup (cr_name <$> gp_clients g)
}.
(** The clients and the groups tell the same membership. *)
Definition consistent (d : Document) : Prop := ∀ c name, c ∈ d_clients d →
  name ∈ gr_name <$> cl_groups c ↔ ∃ g, g ∈ d_groups d ∧ gp_name g = name ∧ cl_name c ∈ cr_name <$> gp_clients g.

Lemma matching_iff {A} (name : A → string) (R : A → A → Prop) compare actual desired :
  NoDup (name <$> desired) → (∀ x y, x ∈ desired → y ∈ actual → compare y x = [] ↔ R y x) →
  NoDup (name <$> desired) ∧ (∀ n, n ∈ name <$> desired ↔ n ∈ name <$> actual)
    ∧ (∀ x y, x ∈ desired → y ∈ actual → name y = name x → compare y x = ([] : list Issue))
  ↔ matching name R actual desired.
Proof.
  intros Hnd HR. unfold matching. split; [intros (_ & Hn & Hc)|intros (Hn & Hc); split; [done|]];
    (split; [done|]); intros x y Hx Hy Heq; apply HR; auto.
Qed.

Lemma Verify_spec desired actual :
  well_formed desired → well_formed actual → (∀ r, r ∈ d_roles actual → NoDup (acl_id <$> ro_acls r)) →
  Verify desired actual = [] ↔ agrees desired actual.
Proof.
  intros Hd Ha Hacl. unfold Verify.
  rewrite !app_nil, !verify_objects_nil by (apply wf_clients || apply wf_groups || apply wf_roles; done).
  rewrite !issue_if_nil, !bool_decide_eq_true.
  rewrite (matching_iff cl_name client_agrees), (matching_iff gp_name group_agrees), (matching_iff ro_name role_agrees).
  - split; [intros (? & ? & ? & ? & ?); by constructor|by intros []].
  - apply (wf_roles desired Hd).
  - intros x y Hx Hy. unfold compare_role. rewrite issue_if_nil. apply sameACLs_spec; [| |auto].
    + apply Forall_forall. intros e. by apply (wf_acls actual Ha).
    + apply Forall_forall. intros e. by apply (wf_acls desired Hd).
  - apply (wf_groups desired Hd).
  - intros x y Hx Hy. unfold compare_group, sameRoles, sameClients. by rewrite app_nil, !issue_if_nil, !sameNames_spec.
  - apply (wf_clients desired Hd).
  - intros x y Hx Hy. unfold compare_client, sameRoles, sameGroups. by rewrite !app_nil, !issue_if_nil, bool_decide_eq_true, !sameNames_spec.
Qed.

(** ** The empty plan *)
Lemma find_elem {A} (name : A → string) l x :
  NoDup (name <$> l) → x ∈ l → head (filter (λ y, name y = name x) l) = Some x.
Proof.
  intros Hnd Hx. destruct (head _) as [y|] eqn:E.
  - apply find_some in E as [Hy Heq]. f_equal. apply list_elem_of_lookup_1 in Hx as [i Hi], Hy as [j Hj].
    assert (j = i) as ->; [|by rewrite Hi in Hj; injection Hj].
    apply (NoDup_lookup _ j i (name x) Hnd); rewrite list_lookup_fmap; [by rewrite Hj, <-Heq|by rewrite Hi].
  - apply find_none in E. destruct E. by apply list_elem_of_fmap_2.
Qed.

Lemma role_changes_nil kind name address add remove current desired :
  NoDup (rr_name <$> desired) → role_changes kind name address add remove current desired = [] →
  same_names (rr_name <$> current) (rr_name <$> desired).
Proof.
  intros Hnd H. split; [done|]. unfold role_changes, hasRole in H.
  apply app_nil in H as [Ha%fmap_nil_inv Hr%fmap_nil_inv]. rewrite filter_nil_iff in Ha, Hr.
  intros n. rewrite !list_elem_of_fmap. split; intros (r & -> & Hin).
  - specialize (Hr r Hin). apply not_false_iff_true, bool_decide_eq_true, list_elem_of_fmap in Hr as (x & ? & ?). by exists x.
  - specialize (Ha r Hin). apply not_false_iff_true, bool_decide_eq_true, list_elem_of_fmap in Ha as (x & ? & ?). by exists x.
Qed.

Lemma groupUpdates_nil current desired :
  NoDup (rr_name <$> gp_roles desired) → NoDup (cr_name <$> gp_clients desired) →
  groupUpdates current desired = [] → group_agrees current desired.
Proof.
  intros Hr Hc H. unfold groupUpdates in H. cbv zeta in H.
  apply app_nil in H as [_ [Hroles [Ha%fmap_nil_inv Hm%fmap_nil_inv]%app_nil]%app_nil].
  split; [by eapply role_changes_nil|]. split; [done|]. unfold hasClient in *. rewrite filter_nil_iff in Ha, Hm.
  intros n. rewrite !list_elem_of_fmap. split; intros (r & -> & Hin).
  - specialize (Hm r Hin). apply not_false_iff_true, bool_decide_eq_true, list_elem_of_fmap in Hm as (x & ? & ?). by exists x.
  - specialize (Ha r Hin). apply not_false_iff_true, bool_decide_eq_true, list_elem_of_fmap in Ha as (x & ? & ?). by exists x.
Qed.

Lemma clientUpdates_nil current desired :
  NoDup (rr_name <$> cl_roles desired) → clientUpdates current desired = [] →
  cl_disabled current = cl_disabled desired ∧ same_names (rr_name <$> cl_roles current) (rr_name <$> cl_roles desired).
Proof.
  intros Hr H. unfold clientUpdates in H. cbv zeta in H.
  apply app_nil in H as [_ [_ [Hd Hroles]%app_nil]%app_nil].
  split; [|by eapply role_changes_nil]. destruct (decide _) as [|_]; [done|]. by destruct (cl_disabled desired).
Qed.

Lemma findACL_elem l e : NoDup (acl_id <$> l) → e ∈ l → findACL l e = Some e.
Proof.
  intros Hnd He. unfold findACL. destruct (head _) as [y|] eqn:E.
  - assert (y ∈ filter (λ c, acl_type c = acl_type e ∧ acl_topic c = acl_topic e) l) as Hy.
    { destruct (filter _ l); [done|]. injection E as ->. by left. }
    apply list_elem_of_filter in Hy as [[Ht Hp] Hy]. f_equal.
    apply list_elem_of_lookup_1 in He as [i Hi], Hy as [j Hj].
    assert (j = i) as ->; [|by rewrite Hi in Hj; injection Hj].
    apply (NoDup_lookup _ j i (acl_id e) Hnd); rewrite list_lookup_fmap; [|by rewrite Hi].
    rewrite Hj. cbn. f_equal. unfold acl_id. by rewrite Ht, Hp.
  - apply head_None, filter_nil_iff with (x := e) in E; [|done]. by destruct E.
Qed.

Lemma findACL_some l e x : findACL l e = Some x → x ∈ l ∧ acl_type x = acl_type e ∧ acl_topic x = acl_topic e.
Proof.
  unfold findACL. intros E. enough (x ∈ filter (λ c, acl_type c = acl_type e ∧ acl_topic c = acl_topic e) l) as Hx.
  - apply list_elem_of_filter in Hx as [[? ?] ?]. done.
  - destruct (filter _ l); [done|]. injection E as ->. by left.
Qed.

Lemma roleUpdates_nil current desired :
  NoDup (acl_id <$> ro_acls current) → NoDup (acl_id <$> ro_acls desired) →
  roleUpdates current desired = [] → role_agrees current desired.
Proof.
  intros Hc Hd H. unfold roleUpdates, diffACLs in H. cbv zeta in H.
  apply app_nil in H as [_ [Hr%fmap_nil_inv Ha%fmap_nil_inv]%app_nil]. rewrite filter_nil_iff in Hr, Ha.
  assert (∀ e, e ∈ ro_acls desired → ∃ p, findACL (ro_acls current) e = Some p ∧ acl_allow p = acl_allow e) as Hsame.
  { intros e He. specialize (Ha e He). unfold acl_added in Ha. destruct (findACL _ e) as [p|]; [|done].
    exists p. split; [done|]. apply not_true_iff_false, orb_false_iff in Ha as [Ha _].
    by apply negb_false_iff, bool_decide_eq_true in Ha. }
  split; [done|]. intros t p allow. split; intros (e & He & <- & <- & <-).
  - destruct (findACL (ro_acls desired) e) as [x|] eqn:E; [|by destruct (Hr e He)].
    apply findACL_some in E as (Hx & Ht & Hp). exists x. repeat split; [done..|].
    destruct (Hsame x Hx) as (y & Hy & <-). unfold findACL in Hy. rewrite Ht, Hp in Hy.
    change (findACL (ro_acls current) e = Some y) in Hy. rewrite findACL_elem in Hy by done. by injection Hy as ->.
  - destruct (Hsame e He) as (y & Hy & Hal). apply findACL_some in Hy as (Hy & Ht & Hp). by exists y.
Qed.

(** What is not deleted and not created is on both sides. *)
Lemma same_objects {A} (name : A → string) (p : A → list Change) current desired :
  (∀ x, x ∈ desired → p x = [] → name x ∈ name <$> current) → desired ≫= p = [] →
  filter (λ x, head (filter (λ y, name y = name x) desired) = None) current = [] →
  ∀ n, n ∈ name <$> desired ↔ n ∈ name <$> current.
Proof.
  intros Hp Hb Hf n. rewrite bind_nil in Hb. rewrite filter_nil_iff in Hf. split; intros (x & -> & Hx)%list_elem_of_fmap.
  - apply Hp; auto.
  - specialize (Hf x Hx). destruct (decide (name x ∈ name <$> desired)) as [|Hn]; [done|]. destruct Hf. by apply find_none.
Qed.

Lemma found_of {A} (name : A → string) current n x : head (filter (λ y, name y = n) current) = Some x → n ∈ name <$> current.
Proof. intros [Hx <-]%find_some. by apply list_elem_of_fmap_2. Qed.

(** Groups that agree have the same members. *)
Lemma member_iff current desired client n :
  matching gp_name group_agrees current desired →
  (∃ g, g ∈ current ∧ gp_name g = n ∧ client ∈ cr_name <$> gp_clients g)
  ↔ ∃ g, g ∈ desired ∧ gp_name g = n ∧ client ∈ cr_name <$> gp_clients g.
Proof.
  intros [Hn Hm]. split; intros (g & Hg & <- & Hc).
  - assert (gp_name g ∈ gp_name <$> desired) as (x & Heq & Hx)%list_elem_of_fmap by by apply Hn, list_elem_of_fmap_2.
    destruct (Hm x g Hx Hg Heq) as (_ & _ & Hiff). exists x. by rewrite <-Hiff.
  - assert (gp_name g ∈ gp_name <$> current) as (x & Heq & Hx)%list_elem_of_fmap by by apply Hn, list_elem_of_fmap_2.
    destruct (Hm g x Hg Hx) as (_ & _ & Hiff); [done|]. exists x. by rewrite Hiff.
Qed.

Lemma BuildPlan_empty current desired :
  well_formed current → well_formed desired → tidy current → tidy desired → consistent current → consistent desired →
  BuildPlan current desired = [] → agrees desired current.
Proof.
  intros Hcur Hdes Htc Htd Hcc Hcd H. unfold BuildPlan, plan_deletes in H.
  apply app_nil in H as [Hr [Hg [Hc [_ [Hdel [Hdef Han]%app_nil]%app_nil]%app_nil]%app_nil]%app_nil].
  apply app_nil in Hdel as [Hdc [Hdg Hdr]%app_nil].
  apply fmap_nil_inv in Hdc, Hdg, Hdr. unfold FindClient, FindGroup, FindRole in Hdc, Hdg, Hdr.
  assert (matching gp_name group_agrees (d_groups current) (d_groups desired)) as Hgroups.
  { split.
    - apply (same_objects gp_name (plan_group current)); [|done..]. intros x _ Hx. unfold plan_group in Hx.
      destruct (FindGroup current (gp_name x)) as [y|] eqn:E; [|done]. by apply found_of in E.
    - intros x y Hx Hy Heq. rewrite bind_nil in Hg. specialize (Hg x Hx). unfold plan_group, FindGroup in Hg.
      rewrite <-Heq, find_elem in Hg by (done || apply (wf_groups current Hcur)).
      apply groupUpdates_nil in Hg; [done|by apply (ty_group_roles desired Htd)|by apply (ty_group_clients desired Htd)]. }
  constructor.
  - split.
    + apply (same_objects cl_name (plan_client current)); [|done..]. intros x _ Hx. unfold plan_client in Hx.
      destruct (FindClient current (cl_name x)) as [y|] eqn:E; [|done]. by apply found_of in E.
    + intros x y Hx Hy Heq. rewrite bind_nil in Hc. specialize (Hc x Hx). unfold plan_client, FindClient in Hc.
      rewrite <-Heq, find_elem in Hc by (done || apply (wf_clients current Hcur)).
      apply clientUpdates_nil in Hc as [? ?]; [|by apply (ty_client_roles desired Htd)]. split; [done|]. split; [done|].
      split; [by apply (ty_client_groups desired Htd)|]. intros n. rewrite (Hcc y), (Hcd x), Heq by done.
      by apply member_iff.
  - done.
  - split.
    + apply (same_objects ro_name (plan_role current)); [|done..]. intros x _ Hx. unfold plan_role in Hx.
      destruct (FindRole current (ro_name x)) as [y|] eqn:E; [|done]. by apply found_of in E.
    + intros x y Hx Hy Heq. rewrite bind_nil in Hr. specialize (Hr x Hx). unfold plan_role, FindRole in Hr.
      rewrite <-Heq, find_elem in Hr by (done || apply (wf_roles current Hcur)).
      apply roleUpdates_nil in Hr; [done|by apply (ty_acls current Htc)|by apply (ty_acls desired Htd)].
  - unfold plan_default in Hdef. by destruct (decide _).
  - unfold plan_anonymous in Han. by destruct (decide _).
Qed.

(** ** The service *)
Section service_lemmas.
Context {W Data : Type} `{HT : Transport W Data, HD : Decoder Data}.
Implicit Types (w : W) (rs : list (@CommandResponse Data)) (r : @CommandResponse Data).

(** The payload of the last answer to a command. *)
Definition last_data rs (c : string) : option Data := rs_data <$> last (filter (λ r, rs_command r = c) rs).

(** What a document holds after the answers [rs]; [P] is how the payload of a
    command fills its part, [old] what was there. *)
Definition filled {A} rs (c : string) (decode : Data → option A) (old x : A) : Prop :=
  match last_data rs c with None => x = old | Some d => decode d = Some x end.

Definition filled_document rs (old doc : Document) : Prop :=
  filled rs CommandListClients ParseClients (d_clients old) (d_clients doc)
  ∧ filled rs CommandListGroups decode_groups (d_groups old) (d_groups doc)
  ∧ filled rs CommandListRoles decode_roles (d_roles old) (d_roles doc)
  ∧ filled rs CommandGetDefaultACLAccess ParseDefaultAccess (d_default old) (d_default doc)
  ∧ filled rs CommandGetAnonymousGroup decode_anonymous (d_anonymous old) (d_anonymous doc).

Lemma filled_snoc {A} rs r c (decode : Data → option A) old mid x :
  filled rs c decode old mid → (if decide (rs_command r = c) then decode (rs_data r) = Some x else x = mid) →
  filled (rs ++ [r]) c decode old x.
Proof.
  unfold filled, last_data. rewrite filter_app. destruct (decide (rs_command r = c)) as [E|E].
  - rewrite filter_cons_True, filter_nil, last_snoc by done. by cbn.
  - rewrite filter_cons_False, filter_nil, app_nil_r by done. by intros H ->.
Qed.

Lemma read_all_app doc rs1 rs2 : read_all doc (rs1 ++ rs2) = (d ← read_all doc rs1; read_all d rs2).
Proof.
  revert doc. induction rs1 as [|r rs1 IH]; intros doc; [done|]. cbn [app read_all].
  destruct (read_step doc r) as [d|e]; [apply IH|done].
Qed.

Lemma read_step_ok doc r doc' : read_step doc r = Ok doc' →
  (if decide (rs_command r = CommandListClients) then ParseClients (rs_data r) = Some (d_clients doc') else d_clients doc' = d_clients doc)
  ∧ (if decide (rs_command r = CommandListGroups) then decode_groups (rs_data r) = Some (d_groups doc') else d_groups doc' = d_groups doc)
  ∧ (if decide (rs_command r = CommandListRoles) then decode_roles (rs_data r) = Some (d_roles doc') else d_roles doc' = d_roles doc)
  ∧ (if decide (rs_command r = CommandGetDefaultACLAccess) then ParseDefaultAccess (rs_data r) = Some (d_default doc') else d_default doc' = d_default doc)
  ∧ (if decide (rs_command r = CommandGetAnonymousGroup) then decode_anonymous (rs_data r) = Some (d_anonymous doc') else d_anonymous doc' = d_anonymous doc).
Proof.
  unfold read_step, decoded. cbv zeta. intros H.
  repeat (match type of H with context [decide (rs_command r = ?c)] => destruct (decide (rs_command r = c)) as [E|?] end;
    [match type of H with context [match ?o with Some _ => _ | None => _ end] => destruct o eqn:? end;
     [injection H as <-; repeat split; case_decide as E'; (done || (rewrite E in E'; discriminate E'))|done]|]).
  injection H as <-. repeat split; by rewrite decide_False.
Qed.

Lemma read_all_filled old rs doc : read_all old rs = Ok doc → filled_document rs old doc.
Proof.
  revert doc. induction rs as [|r rs IH] using rev_ind; intros doc.
  { cbn. intros [= ->]. repeat split. }
  rewrite read_all_app. destruct (read_all old rs) as [mid|e] eqn:E; [|done]. cbn. intros H.
  destruct (read_step mid r) as [d|e] eqn:Es; [|done]. injection H as ->.
  apply read_step_ok in Es as (H1 & H2 & H3 & H4 & H5). destruct (IH mid eq_refl) as (F1 & F2 & F3 & F4 & F5).
  unfold filled_document. repeat split; by eapply filled_snoc.
Qed.

Lemma CheckResponses_none rs names : CheckResponses rs names = None ↔
  (∀ r, r ∈ rs → Failed r = false) ∧ ∀ n, n ∈ names → n ∈ rs_command <$> rs.
Proof.
  unfold CheckResponses. destruct (head (filter (λ r, Failed r = true) rs)) as [r|] eqn:E.
  - split; [done|]. intros [Hf _]. exfalso. assert (r ∈ filter (λ r, Failed r = true) rs) as [Ht Hr]%list_elem_of_filter.
    { destruct (filter _ rs); [done|]. injection E as ->. by left. }
    by rewrite Hf in Ht.
  - apply head_None in E. rewrite filter_nil_iff in E. destruct (head (filter _ names)) as [n|] eqn:En.
    + split; [done|]. intros [_ Hn]. exfalso. assert (n ∈ filter (λ n, n ∉ rs_command <$> rs) names) as [Ht Hr]%list_elem_of_filter.
      { destruct (filter _ names); [done|]. injection En as ->. by left. }
      auto.
    + apply head_None in En. rewrite filter_nil_iff in En. split; [|done]. intros _.
      split; [intros r Hr; apply not_true_iff_false; auto|]. intros n Hn. specialize (En n Hn).
      destruct (decide (n ∈ rs_command <$> rs)); [done|]. by destruct En.
Qed.
(** A reading: the answers are complete and none is a refusal, and the
    document is made of the last answer to each command. *)
Lemma Read_ok w w' doc : Read w = (w', Ok doc) →
  ∃ rs mid, Do w read_commands = (w', Ok rs) ∧ (∀ r, r ∈ rs → Failed r = false)
    ∧ (∀ n, n ∈ cmd_name <$> read_commands → n ∈ rs_command <$> rs)
    ∧ filled_document rs empty_document mid ∧ doc = SortDocument mid.
Proof.
  unfold Read. destruct (Do w read_commands) as [w1 [rs|e]]; [|by intros [= _ ?]].
  destruct (CheckResponses rs _) as [e|] eqn:Ec; [by intros [= _ ?]|]. apply CheckResponses_none in Ec as [Hf Hn].
  destruct (read_all empty_document rs) as [mid|e] eqn:Em; [|by intros [= _ ?]].
  cbn. intros [= -> <-]. exists rs, mid. split; [done|]. split; [done|]. split; [done|].
  split; [by apply read_all_filled|done].
Qed.

(** [n] requests lead from one world to another, whatever the pauses between. *)
Inductive requests : nat → W → W → Prop :=
  | requests_none w : requests 0 w w
  | requests_do n w cs w' : requests n (Do w cs).1 w' → requests (S n) w w'
  | requests_pause n w w' : requests n (pause w).1 w' → requests n w w'.

Lemma Read_request w : (Read w).1 = (Do w read_commands).1.
Proof. unfold Read. by destruct (Do w read_commands). Qed.

Lemma read_retry_requests n last w : ∃ k, k ≤ n ∧ requests k w (read_retry n last w).1.
Proof.
  revert last w. induction n as [|n IH]; intros last w; cbn [read_retry]; [exists 0; split; [done|constructor]|].
  pose proof (Read_request w) as Hr. destruct (Read w) as [w1 r]. cbn in Hr. subst w1.
  assert (∀ w', requests 0 (Do w read_commands).1 w' → ∃ k, k ≤ S n ∧ requests k w w') as H1.
  { intros w' H. exists 1. split; [lia|]. by apply (requests_do 0 _ read_commands). }
  destruct r as [doc|[[]| | | | |]]; try (apply H1; apply requests_none).
  pose proof (λ c, requests_pause c (Do w read_commands).1) as Hp. destruct (pause (Do w read_commands).1) as [w2 [|]].
  - exact (H1 _ (Hp _ _ (requests_none _))).
  - destruct (IH (Transported ErrConnectionLost) w2) as (k & Hk & Hreq). exists (S k). split; [lia|].
    by apply (requests_do k _ read_commands), Hp.
Qed.

Lemma read_retry_ok n last w w' doc : read_retry n last w = (w', Ok doc) → ∃ w1, Read w1 = (w', Ok doc).
Proof.
  revert last w. induction n as [|n IH]; intros last w; cbn [read_retry]; [by intros [= _ ?]|].
  destruct (Read w) as [w1 r] eqn:Er. destruct r as [d|[[]| | | | |]]; try (by intros [= _ ?]).
  - intros [= -> ->]. by exists w.
  - destruct (pause w1) as [w2 [|]]; [by intros [= _ ?]|apply IH].
Qed.

(** [k] reads in a row lose the connection, and no pause is interrupted. *)
Inductive lost : nat → W → W → Prop :=
  | lost_none w : lost 0 w w
  | lost_more k w w1 w2 w' :
      Read w = (w1, Err (Transported ErrConnectionLost)) → pause w1 = (w2, false) → lost k w2 w' → lost (S k) w w'.

Lemma read_retry_lost k n last w w1 : lost k w w1 → k ≤ n →
  read_retry n last w = read_retry (n - k) (if decide (k = 0) then last else Transported ErrConnectionLost) w1.
Proof.
  intros H. revert n last. induction H as [w|k w w1 w2 w' Hr Hp _ IH]; intros n last Hk; [by rewrite Nat.sub_0_r|].
  destruct n as [|n]; [lia|]. cbn [read_retry]. rewrite Hr, Hp, IH by lia. cbn [Nat.sub]. by destruct (decide (k = 0)).
Qed.

Lemma read_retry_stop n last w w' (r : result service_error Document) : Read w = (w', r) → r ≠ Err (Transported ErrConnectionLost) → read_retry (S n) last w = (w', r).
Proof.
  intros Hr Hne. cbn [read_retry]. rewrite Hr. destruct r as [d|[[]| | | | |]]; done.
Qed.

Lemma verified_ok desired p w doc : verified desired p = (w, Ok doc) → p = (w, Ok doc) ∧ Verify desired doc = [].
Proof.
  unfold verified. destruct p as [w1 [d|e]]; [|by intros [= _ ?]].
  destruct (Verify desired d) eqn:E; [|by intros [= _ ?]]. by intros [= -> ->].
Qed.

Lemma verified_world desired (p : W * result service_error Document) : (verified desired p).1 = p.1.
Proof. unfold verified. destruct p as [w1 [d|e]]; [|done]. by destruct (Verify desired d). Qed.

(** The last part of an apply. *)
Definition read_back desired w : W * result service_error Document := verified desired (readWithRetry w).

Lemma read_back_ok desired w w' doc : read_back desired w = (w', Ok doc) →
  Verify desired doc = [] ∧ ∃ w1, Read w1 = (w', Ok doc).
Proof. intros [H Hv]%verified_ok. split; [done|]. by eapply read_retry_ok. Qed.

Lemma read_back_requests desired w : ∃ k, k ≤ 4 ∧ requests k w (read_back desired w).1.
Proof. unfold read_back. rewrite verified_world. apply read_retry_requests. Qed.

Lemma Apply_cases w plan desired :
  Apply w plan desired =
    match PlanCommands plan with
    | [] => read_back desired w
    | cs =>
        match Do w cs with
        | (w1, Ok rs) =>
            match head (filter (λ r, Failed r = true) rs) with
            | Some r => (w1, Err (Refused (rs_command r)))
            | None => read_back desired w1
            end
        | (w1, Err ErrOther) => (w1, Err (Transported ErrOther))
        | (w1, Err _) => read_back desired w1
        end
    end.
Proof.
  unfold Apply. destruct (PlanCommands plan); [done|]. destruct (Do w _) as [w1 [rs|[]]]; done.
Qed.
End service_lemmas.

(** ** Properties *)

(** [Verify] reports nothing exactly when the two documents agree: the same
    clients, groups and roles, a client's state, roles and groups, a group's
    roles and members, a role's entries with what they allow, the default access
    and the anonymous group.  Priorities, texts and passwords are not
    compared. *)
Theorem Verify_agrees desired actual :
  well_formed desired → well_formed actual → (∀ r, r ∈ d_roles actual → NoDup (acl_id <$> ro_acls r)) →
  Verify desired actual = [] ↔ agrees desired actual.
Proof. apply Verify_spec. Qed.

(** When there is nothing to change the broker already is in the requested
    state: for well formed documents whose membership is consistent, an empty
    plan means that [Verify] has nothing to report. *)
Theorem empty_plan_verifies current desired :
  well_formed current → well_formed desired → tidy current → tidy desired → consistent current → consistent desired →
  Empty (BuildPlan current desired) = true → Verify desired current = [].
Proof.
  intros Hcur Hdes Htc Htd Hcc Hcd He. apply Verify_spec; [done|done|apply (ty_acls current Htc)|].
  apply BuildPlan_empty; try done. by apply bool_decide_eq_true, length_zero_iff_nil in He.
Qed.

(** A document that was read is complete: every listing was answered, no
    command was refused, and each part is the canonical form of the last answer
    to its command. *)
Theorem Read_complete {W Data : Type} `{Transport W Data, Decoder Data} w w' doc : Read w = (w', Ok doc) →
  ∃ rs mid, Do w read_commands = (w', Ok rs) ∧ (∀ r, r ∈ rs → Failed r = false)
    ∧ (∀ n, n ∈ cmd_name <$> read_commands → n ∈ rs_command <$> rs)
    ∧ filled_document rs empty_document mid ∧ doc = SortDocument mid.
Proof. apply Read_ok. Qed.

(** [C26] An apply never reports success on the word of the plugin: the document
    it returns was read after the commands and agrees with the requested one.
    It makes at most five requests, and after a refused command it makes no
    other. *)
Theorem Apply_verified {W Data : Type} `{Transport W Data, Decoder Data} w plan desired :
  let '(w', r) := Apply w plan desired in
  (∀ doc, r = Ok doc → Verify desired doc = [] ∧ ∃ w1, Read w1 = (w', Ok doc))
  ∧ (∃ n, n ≤ 5 ∧ requests n w w')
  ∧ (∀ w1 rs bad, PlanCommands plan ≠ [] → Do w (PlanCommands plan) = (w1, Ok rs) → bad ∈ rs → Failed bad = true →
       w' = w1 ∧ ∃ c, r = Err (Refused c) ∧ c ∈ rs_command <$> rs).
Proof.
  rewrite Apply_cases. assert (∀ w1, let '(w', r) := read_back desired w1 in
    (∀ doc, r = Ok doc → Verify desired doc = [] ∧ ∃ w0, Read w0 = (w', Ok doc)) ∧ ∃ n, n ≤ 4 ∧ requests n w1 w') as Hb.
  { intros w1. destruct (read_back desired w1) as [w' r] eqn:E. split.
    - intros doc ->. by apply read_back_ok in E.
    - pose proof (read_back_requests desired w1) as Hr. by rewrite E in Hr. }
  destruct (PlanCommands plan) as [|c cs].
  { specialize (Hb w). destruct (read_back desired w) as [w' r]. destruct Hb as (Hok & n & Hn & Hreq).
    split; [done|]. split; [exists n; split; [lia|done]|done]. }
  assert (∀ n w', requests n (Do w (c :: cs)).1 w' → n ≤ 4 → ∃ n, n ≤ 5 ∧ requests n w w') as Hcount.
  { intros n w' Hreq Hn. exists (S n). split; [lia|]. by apply (requests_do n _ (c :: cs)). }
  destruct (Do w (c :: cs)) as [w1 [rs|e]] eqn:Edo.
  - destruct (head (filter (λ r, Failed r = true) rs)) as [bad|] eqn:Eb.
    + split; [done|]. split; [apply (Hcount 0 w1); [constructor|lia]|]. intros w2 rs' b _ [= <- <-] Hin Hf.
      split; [done|]. exists (rs_command bad). split; [done|]. apply list_elem_of_fmap_2.
      assert (bad ∈ filter (λ r, Failed r = true) rs) as [_ ?]%list_elem_of_filter; [|done].
      destruct (filter _ rs); [done|]. injection Eb as ->. by left.
    + specialize (Hb w1). destruct (read_back desired w1) as [w' r]. destruct Hb as (Hok & n & Hn & Hreq).
      split; [done|]. split; [by apply (Hcount n w')|]. intros w2 rs' b _ [= <- <-] Hin Hf.
      apply head_None in Eb. rewrite filter_nil_iff in Eb. by destruct (Eb b Hin).
  - specialize (Hb w1). destruct (read_back desired w1) as [w' r]. destruct Hb as (Hok & n & Hn & Hreq).
    destruct e; (split; [done|]); (split; [|done]); first [by apply (Hcount n w')|apply (Hcount 0 w1); [constructor|lia]].
Qed.

(** [C40] A reading survives three lost connections: after at most three of them
    the answer of the next attempt is returned, whatever it is, and four of them
    are reported as a lost connection. *)
Theorem readWithRetry_retries {W Data : Type} `{Transport W Data, Decoder Data} k w w1 : lost k w w1 → k ≤ 4 →
  (∀ w' r, k < 4 → Read w1 = (w', r) → r ≠ Err (Transported ErrConnectionLost) → readWithRetry w = (w', r))
  ∧ (k = 4 → readWithRetry w = (w1, Err (Transported ErrConnectionLost))).
Proof.
  intros Hl Hk. unfold readWithRetry. rewrite (read_retry_lost k 4 _ w w1) by done. split.
  - intros w' r Hlt Hr Hne. destruct (4 - k) as [|n] eqn:En; [lia|]. by apply read_retry_stop.
  - intros ->. done.
Qed.

(** The rendering of a plan does not depend on its passwords: commands that
    differ only in the passwords they set are shown alike, whatever the JSON
    encoder, so the trail cannot carry a credential. *)
Theorem MarshalCommands_hides_passwords marshal a b :
  Forall2 (λ c d, with_login "" (cmd_client_id c) c = with_login "" (cmd_client_id d) d
                  ∧ (cmd_password c = "" ↔ cmd_password d = "")) a b →
  MarshalCommands marshal a = MarshalCommands marshal b.
Proof.
  intros Hab. assert (masked <$> a = masked <$> b) as E.
  { induction Hab as [|c d a b [Heq Hp] _ IH]; [done|]. rewrite !fmap_cons, IH. f_equal. unfold masked.
    destruct c, d; cbn in *. injection Heq as -> -> -> -> -> -> -> -> -> -> -> -> -> -> ->.
    destruct (decide (_ = "")) as [->|Hc], (decide (_ = "")) as [->|Hd]; [done|tauto..|done]. }
  destruct Hab; [done|]. unfold MarshalCommands. by rewrite E.
Qed.

(** ** Examples *)
Definition example_doc : Document :=
  mkDocument [mkClient "u" "" "" "" "" false [] [mkGroupRef "g" 0] false]
    [mkGroup "g" "" "" [mkRoleRef "reader" 1] [mkClientRef "u" 0]]
    [mkRole "reader" "" "" [mkACL ACLSubscribePattern "site/#" true 0; mkACL ACLSubscribePattern "site/hidden" false 0]]
    (mkAccess false true false true) "".

Lemma example_well_formed : well_formed example_doc.
Proof. apply Validate_spec. by vm_compute. Qed.

Lemma example_tidy : tidy example_doc.
Proof.
  constructor; intros x Hx; repeat (apply elem_of_cons in Hx as [->|Hx]; [refine (bool_decide_unpack _ _); by vm_compute|]);
    by apply elem_of_nil in Hx.
Qed.

Lemma example_consistent : consistent example_doc.
Proof.
  intros c name Hc. apply list_elem_of_singleton in Hc as ->. cbn. rewrite list_elem_of_singleton. split.
  - intros ->. eexists. split; [by left|]. split; [done|by left].
  - intros (g & Hg & <- & _). by apply list_elem_of_singleton in Hg as ->.
Qed.

Lemma Verify_agrees_witness : Verify example_doc example_doc = [] ↔ agrees example_doc example_doc.
Proof. exact (Verify_agrees _ _ example_well_formed example_well_formed (ty_acls _ example_tidy)). Defined.

Lemma empty_plan_verifies_witness : Verify example_doc example_doc = [].
Proof.
  refine (empty_plan_verifies _ _ example_well_formed example_well_formed example_tidy example_tidy
    example_consistent example_consistent _). by vm_compute.
Defined.

(** A transport that answers from a script; a payload is a document. *)
Definition script : Type := list (result transport_error (list (string * Document * string))).
#[export] Instance script_transport : Transport script Document := {|
  Do w _ := match w with [] => ([], Err ErrOther) | a :: rest => (rest, a) end;
  pause w := (w, false)
|}.
#[export] Instance document_decoder : Decoder Document := {|
  decode_clients d := Some ((λ c, mkClientPayload (cl_name c) (cl_textname c) (cl_textdesc c) (cl_client_id c)
                              (cl_disabled c) (cl_roles c) (cl_groups c)) <$> d_clients d);
  decode_groups d := Some (d_groups d);
  decode_roles d := Some (d_roles d);
  decode_defaults d := Some [mkDefaultEntry DefaultPublishClientReceive (Some (da_publish_receive (d_default d)));
                             mkDefaultEntry DefaultUnsubscribe (Some (da_unsubscribe (d_default d)))];
  decode_anonymous d := Some (d_anonymous d)
|}.

Definition listing_answers : result transport_error (list (string * Document * string)) :=
  Ok ((λ c, (cmd_name c, example_doc, "")) <$> read_commands).

Lemma Read_complete_witness : Read [listing_answers] = ([], Ok example_doc) ∧
  ∃ rs mid, Do [listing_answers] read_commands = ([], Ok rs) ∧ (∀ r, r ∈ rs → Failed r = false)
    ∧ (∀ n, n ∈ cmd_name <$> read_commands → n ∈ rs_command <$> rs)
    ∧ filled_document rs empty_document mid ∧ example_doc = SortDocument mid.
Proof.
  assert (Read [listing_answers] = ([], Ok example_doc)) as E by by vm_compute.
  split; [exact E|exact (Read_complete _ _ _ E)].
Defined.

(** The answer to the commands is lost, and so is the first reading. *)
Lemma Apply_verified_witness :
  let empty := mkDocument [] [] [] (mkAccess false true false true) "" in
  let w := [Err ErrConnectionLost; Err ErrConnectionLost; listing_answers] in
  Apply w (BuildPlan empty example_doc) example_doc = ([], Ok example_doc) ∧ Verify example_doc example_doc = [].
Proof.
  cbv zeta. set (plan := BuildPlan _ _). set (w := [_; _; _]).
  assert (Apply w plan example_doc = ([], Ok example_doc)) as E by by vm_compute.
  split; [exact E|]. pose proof (Apply_verified w plan example_doc) as H. rewrite E in H.
  destruct H as [H _]. by destruct (H example_doc eq_refl).
Defined.

Lemma readWithRetry_retries_witness :
  readWithRetry [Err ErrConnectionLost; Err ErrConnectionLost; Err ErrConnectionLost; listing_answers] = ([], Ok example_doc).
Proof.
  refine (proj1 (readWithRetry_retries 3 _ [listing_answers] _ _) [] (Ok example_doc) _ _ _); [|lia|lia|by vm_compute|done].
  do 3 (eapply lost_more; [reflexivity|reflexivity|]). apply lost_none.
Defined.

Lemma MarshalCommands_hides_passwords_witness :
  let change p := for_client "u" (with_login p "" (command CommandSetClientPassword)) in
  MarshalCommands (λ cs, Some (join "," (cmd_password <$> cs))) [change "secret"]
  = MarshalCommands (λ cs, Some (join "," (cmd_password <$> cs))) [change "other"].
Proof. cbv zeta. apply MarshalCommands_hides_passwords. constructor; [by vm_compute|constructor]. Defined.
