(* ===== verification/DynsecStore.v ===== *)
(** * [internal/storage/dynsec_plans.go]: the plans of the dynamic security

    The table of the reviewed plans.  A statement takes the next fault of the
    store, as those of [Store] do.  The JSON columns hold the values they decode
    to; the empty text of [applied_at] is [None]. *)
From S2P Require Import Prelude IO GoTime Store Dynsec DynsecPlan.

(** [AdoptedCredential] and [dynSecPlanEnvelope] of [deploy/dynsec.go]. *)
Record AdoptedCredential := mkCredential { ac_username : string; ac_password : string; ac_reason : string }.
Record dynSecPlanEnvelope := mkEnvelope {
  en_plan : Plan; en_desired : Document; en_management : string; en_revision : string; en_adopted : list AdoptedCredential
}.
Record DynSecPlan := mkDynSecPlan {
  sp_id : string; sp_actor : string; sp_kind : string; sp_base_hash : string;
  sp_plan : dynSecPlanEnvelope; sp_desired : Document; sp_management : string;
  sp_created : Z; sp_applied : option Z
}.

Inductive dynsec_store_error := PlanIDRequired | PlanStatementFailed | PlanExists | ErrDynSecPlanNotFound | ErrDynSecPlanConsumed.

Record plan_tables (M : Type) := mkPlanTables { pt_db : db M; pt_plans : gmap string DynSecPlan }.
Arguments mkPlanTables {M}. Arguments pt_db {M}. Arguments pt_plans {M}.

Section plan_store.
Context {M : Type}.
Implicit Types s : plan_tables M.
Local Abbreviation op A := (io (plan_tables M) dynsec_store_error A).

Definition plan_statement {A} (f : gmap string DynSecPlan → result dynsec_store_error (gmap string DynSecPlan * A)) : op A := λ s,
  let '(failed, d) := match db_faults (pt_db s) with [] => (false, pt_db s) | x :: rest => (x, with_faults rest (pt_db s)) end in
  if failed : bool then (mkPlanTables d (pt_plans s), Err PlanStatementFailed)
  else match f (pt_plans s) with Ok (m, a) => (mkPlanTables d m, Ok a) | Err e => (mkPlanTables d (pt_plans s), Err e) end.
Definition plan_now : op Z := zoom pt_db (λ d s, mkPlanTables d (pt_plans s)) (λ e, e) now.

Definition stored_plan (created : Z) (applied : option Z) (p : DynSecPlan) : DynSecPlan :=
  mkDynSecPlan (sp_id p) (sp_actor p) (sp_kind p) (sp_base_hash p) (sp_plan p) (sp_desired p) (sp_management p) created applied.
Definition insert_plan (p : DynSecPlan) (m : gmap string DynSecPlan) : result dynsec_store_error (gmap string DynSecPlan * unit) :=
  if decide (is_Some (m !! sp_id p)) then Err PlanExists else Ok (<[sp_id p := p]> m, tt).
Definition InsertDynSecPlan (p : DynSecPlan) : op unit :=
  if decide (sp_id p = "") then fail PlanIDRequired
  else
    t ← (if decide (sp_created p = time_zero) then plan_now else mret (sp_created p));
    plan_statement (insert_plan (stored_plan t None p)).

Definition GetDynSecPlan (id : string) : op DynSecPlan :=
  r ← plan_statement (λ m, Ok (m, m !! id));
  match r with Some p => mret p | None => fail ErrDynSecPlanNotFound end.

Definition plan_pending (m : gmap string DynSecPlan) (id : string) : bool :=
  match m !! id with Some p => bool_decide (sp_applied p = None) | None => false end.
(** The update and the number of the rows it affects. *)
Definition consume_plan (id : string) (t : Z) (m : gmap string DynSecPlan) : result dynsec_store_error (gmap string DynSecPlan * nat) :=
  if plan_pending m id then Ok (alter (λ p, stored_plan (sp_created p) (Some t) p) id m, 1) else Ok (m, 0).
Definition ConsumeDynSecPlan (id : string) (appliedAt : Z) : op unit :=
  affected ← plan_statement (consume_plan id appliedAt);
  if decide (affected = 1) then mret tt
  else
    p ← GetDynSecPlan id;
    fail (if decide (sp_applied p = None) then ErrDynSecPlanNotFound else ErrDynSecPlanConsumed).

(** ** Lemmas *)

(** A statement answers from the table it finds, or it failed and changed nothing. *)
Lemma wp_plan_statement {A} (f : gmap string DynSecPlan → result dynsec_store_error (gmap string DynSecPlan * A)) (Φ : plan_tables M → result dynsec_store_error A → Prop) s :
  (∀ d, Φ (mkPlanTables d (pt_plans s)) (Err PlanStatementFailed)) →
  (∀ d, match f (pt_plans s) with Ok (m, a) => Φ (mkPlanTables d m) (Ok a) | Err e => Φ (mkPlanTables d (pt_plans s)) (Err e) end) →
  wp (plan_statement f) Φ s.
Proof.
  intros He Hf. unfold wp, plan_statement.
  destruct (db_faults (pt_db s)) as [|[] rest]; [specialize (Hf (pt_db s))|apply He|specialize (Hf (with_faults rest (pt_db s)))];
    by destruct (f (pt_plans s)) as [[m a]|e].
Qed.

Lemma wp_GetDynSecPlan id (Φ : plan_tables M → result dynsec_store_error DynSecPlan → Prop) s :
  (∀ d e, e ≠ ErrDynSecPlanConsumed → Φ (mkPlanTables d (pt_plans s)) (Err e)) →
  (∀ d p, pt_plans s !! id = Some p → Φ (mkPlanTables d (pt_plans s)) (Ok p)) → wp (GetDynSecPlan id) Φ s.
Proof.
  intros He Hok. unfold GetDynSecPlan. apply wp_bind, wp_plan_statement; [intros d; by apply He|]. intros d.
  destruct (pt_plans s !! id) as [p|] eqn:E; [apply wp_ret; by apply Hok|apply wp_fail; by apply He].
Qed.

(** A plan is consumed at most once: the statement succeeds exactly when the
    plan is pending, and then only its time of application changes. *)
Lemma wp_ConsumeDynSecPlan id t (Φ : plan_tables M → result dynsec_store_error unit → Prop) s :
  (∀ d e, Φ (mkPlanTables d (pt_plans s)) (Err e)) →
  (∀ d p, pt_plans s !! id = Some p → sp_applied p = None →
     Φ (mkPlanTables d (<[id := stored_plan (sp_created p) (Some t) p]> (pt_plans s))) (Ok tt)) →
  wp (ConsumeDynSecPlan id t) Φ s.
Proof.
  intros He Hok. unfold ConsumeDynSecPlan. apply wp_bind, wp_plan_statement; [done|]. intros d. unfold consume_plan, plan_pending.
  destruct (pt_plans s !! id) as [p|] eqn:E.
  - case_bool_decide as Ha.
    + apply wp_ret. assert (alter (λ p, stored_plan (sp_created p) (Some t) p) id (pt_plans s)
        = <[id := stored_plan (sp_created p) (Some t) p]> (pt_plans s)) as -> by (apply map_eq; intros k; destruct (decide (k = id)) as [->|];
          [by rewrite lookup_alter_eq, lookup_insert_eq, E|by rewrite lookup_alter_ne, lookup_insert_ne]).
      by apply Hok.
    + rewrite decide_False by done. apply wp_bind, wp_GetDynSecPlan; [intros; apply He|intros; apply wp_fail, He].
  - rewrite decide_False by done. apply wp_bind, wp_GetDynSecPlan; [intros; apply He|intros; apply wp_fail, He].
Qed.

Lemma wp_InsertDynSecPlan p (Φ : plan_tables M → result dynsec_store_error unit → Prop) s :
  (∀ d e, Φ (mkPlanTables d (pt_plans s)) (Err e)) →
  (∀ d created, pt_plans s !! sp_id p = None → Φ (mkPlanTables d (<[sp_id p := stored_plan created None p]> (pt_plans s))) (Ok tt)) →
  wp (InsertDynSecPlan p) Φ s.
Proof.
  intros He Hok. unfold InsertDynSecPlan. destruct (decide _); [apply wp_fail|].
  { destruct s as [d m]. apply (He d). }
  assert (∀ d created, wp (plan_statement (insert_plan (stored_plan created None p))) Φ (mkPlanTables d (pt_plans s))) as Hins.
  { intros d created. apply wp_plan_statement; [done|]. intros d'. unfold insert_plan. cbn [sp_id stored_plan pt_plans].
    destruct (decide _) as [|Hn]; [done|]. apply Hok. by apply eq_None_not_Some. }
  apply wp_bind. destruct (decide (sp_created p = time_zero)); [|apply wp_ret; destruct s as [d m]; apply (Hins d)].
  unfold plan_now. apply wp_zoom. unfold wp, now. destruct (db_ticks _); apply Hins.
Qed.
End plan_store.
