(* ===== verification/DynsecJson.v ===== *)
(** * The JSON of the dynamic security plans ([dynsec/model.go], [protocol.go], [plan.go], [deploy/dynsec.go])

    The fields of the documents and the commands as [encoding/json] writes them,
    the text of a change as the operator reads it, the fingerprint of a state,
    and the comparison of two plans, which is by their JSON.  [quote] is
    [strconv.Quote], the [%q] of the texts. *)
From S2P Require Import Prelude Unicode GoStrings GoStrconv Sha256 GoJson Acl Dynsec DynsecPlan DynsecService.
From S2P Require Import IO Passwd Applier DeployRender.

Definition some_number (k : string) (o : option Z) : list (string * json) := match o with Some z => [(k, JNumber z)] | None => [] end.
Definition some_bool (k : string) (o : option bool) : list (string * json) := match o with Some b => [(k, JBool b)] | None => [] end.
Definition omit_list (k : string) (l : list json) : list (string * json) := match l with [] => [] | _ => [(k, JArray l)] end.

(** ** Documents *)
Definition acl_json (e : ACL) : json :=
  JObject [("acltype", JString (acl_type e)); ("topic", JString (acl_topic e)); ("allow", JBool (acl_allow e)); ("priority", JNumber (acl_priority e))].
Definition role_ref_json (r : RoleRef) : json := JObject [("rolename", JString (rr_name r)); ("priority", JNumber (rr_priority r))].
Definition group_ref_json (r : GroupRef) : json := JObject [("groupname", JString (gr_name r)); ("priority", JNumber (gr_priority r))].
Definition client_ref_json (r : ClientRef) : json := JObject [("username", JString (cr_name r)); ("priority", JNumber (cr_priority r))].
(** The lists of references of a copy of [Clone] are nil when they are empty. *)
Definition role_json (r : Role) : json :=
  JObject (field "rolename" (JString (ro_name r)) ++ omit_string "textname" (ro_textname r) ++ omit_string "textdescription" (ro_textdesc r)
           ++ field "acls" (nil_slice acl_json (ro_acls r))).
Definition client_json (c : Client) : json :=
  JObject (field "username" (JString (cl_name c)) ++ omit_string "textname" (cl_textname c) ++ omit_string "textdescription" (cl_textdesc c)
           ++ omit_string "clientid" (cl_client_id c) ++ omit_string "password" (cl_password c) ++ omit_false "password_set" (cl_password_set c)
           ++ field "roles" (nil_slice role_ref_json (cl_roles c)) ++ field "groups" (nil_slice group_ref_json (cl_groups c))
           ++ omit_false "disabled" (cl_disabled c)).
Definition group_json (g : Group) : json :=
  JObject (field "groupname" (JString (gp_name g)) ++ omit_string "textname" (gp_textname g) ++ omit_string "textdescription" (gp_textdesc g)
           ++ field "roles" (nil_slice role_ref_json (gp_roles g)) ++ field "clients" (nil_slice client_ref_json (gp_clients g))).
Definition default_json (a : DefaultAccess) : json :=
  JObject [("publish_client_send", JBool (da_publish_send a)); ("publish_client_receive", JBool (da_publish_receive a));
           ("subscribe", JBool (da_subscribe a)); ("unsubscribe", JBool (da_unsubscribe a))].
Definition document_json (d : Document) : json :=
  JObject (field "clients" (JArray (client_json <$> d_clients d)) ++ field "groups" (JArray (group_json <$> d_groups d))
           ++ field "roles" (JArray (role_json <$> d_roles d)) ++ field "default_access" (default_json (d_default d))
           ++ omit_string "anonymous_group" (d_anonymous d)).

(** [dynsecStateHash]: of the sorted document without its passwords. *)
Definition without_password (c : Client) : Client :=
  mkClient (cl_name c) (cl_textname c) (cl_textdesc c) (cl_client_id c) "" (cl_password_set c) (cl_roles c) (cl_groups c) (cl_disabled c).
Definition fingerprinted (doc : Document) : Document :=
  SortDocument (mkDocument (without_password <$> d_clients doc) (d_groups doc) (d_roles doc) (d_default doc) (d_anonymous doc)).
Definition dynsecStateHash (doc : Document) : string := contentHash (marshal (document_json (fingerprinted doc))).

(** ** Commands *)
Definition command_role_json (r : CommandRoleRef) : json :=
  JObject (field "rolename" (JString (cmr_name r)) ++ some_number "priority" (cmr_priority r)).
Definition command_acl_json (a : CommandACL) : json :=
  JObject (field "acltype" (JString (ca_type a)) ++ field "topic" (JString (ca_topic a)) ++ some_number "priority" (ca_priority a)
           ++ some_bool "allow" (ca_allow a)).
Definition command_json (c : Command) : json :=
  JObject (field "command" (JString (cmd_name c)) ++ omit_string "username" (cmd_username c) ++ omit_string "password" (cmd_password c)
           ++ omit_string "clientid" (cmd_client_id c) ++ omit_string "textname" (cmd_textname c) ++ omit_string "textdescription" (cmd_textdesc c)
           ++ omit_string "groupname" (cmd_groupname c) ++ omit_string "rolename" (cmd_rolename c) ++ omit_string "acltype" (cmd_acltype c)
           ++ omit_string "topic" (cmd_topic c) ++ some_bool "allow" (cmd_allow c) ++ some_number "priority" (cmd_priority c)
           ++ omit_false "verbose" (cmd_verbose c) ++ omit_zero "count" (cmd_count c)
           ++ omit_list "roles" (command_role_json <$> cmd_roles c) ++ omit_list "acls" (command_acl_json <$> cmd_acls c)).

(** ** Changes *)
Section text.
Context (quote : string → string).
Definition the (kind name : string) : string := "the " +:+ kind +:+ " " +:+ quote name.
Definition summary_text (kind name : string) (s : summary) : string :=
  let object := the kind name in
  match s with
  | SCreate count => "create " +:+ object +:+
      (if decide (kind = ObjectRole) then " with " +:+ itoa (Z.of_nat count) +:+ " access entries"
       else if decide (kind = ObjectGroup) then " with " +:+ itoa (Z.of_nat count) +:+ " roles" else "")
  | SDescription => "change the description of " +:+ object
  | SRemoveAccess type topic => "remove the " +:+ type +:+ " access to " +:+ quote topic +:+ " from " +:+ object
  | SGiveAccess verb topic => "give " +:+ object +:+ " " +:+ verb +:+ " access to " +:+ quote topic
  | SGiveRole role => "give " +:+ object +:+ " " +:+ the ObjectRole role
  | STakeRole role => "take " +:+ the ObjectRole role +:+ " away from " +:+ object
  | SAddClient client => "add " +:+ the ObjectClient client +:+ " to " +:+ object
  | SRemoveClient client => "remove " +:+ the ObjectClient client +:+ " from " +:+ object
  | SDetails => "change the details of " +:+ object
  | SPassword => "set a new password for " +:+ object
  | SEnable => "enable " +:+ object
  | SDisable => "disable " +:+ object
  | SDelete => "delete " +:+ object
  | SDefaults => "change the access granted when no access entry matches"
  | SAnonymousNone => "remove the group of the anonymous clients"
  | SAnonymousFirst group => "give the anonymous clients " +:+ the ObjectGroup group
  | SAnonymousInstead group previous => "give the anonymous clients " +:+ the ObjectGroup group +:+ " instead of " +:+ quote previous
  end.
(** The commands of a masked change are never a nil slice. *)
Definition change_json (ch : Change) : json :=
  JObject [("kind", JString (ch_kind ch)); ("name", JString (ch_name ch)); ("action", JString (ch_action ch));
           ("summary", JString (summary_text (ch_kind ch) (ch_name ch) (ch_summary ch))); ("commands", JArray (command_json <$> ch_commands ch))].

(** [maskDynSecPlan] *)
Definition mask_change (ch : Change) : Change := mkChange (ch_kind ch) (ch_name ch) (ch_action ch) (ch_summary ch) (masked <$> ch_commands ch).
Definition maskDynSecPlan (plan : Plan) : Plan := mask_change <$> plan.

Definition sameDynSecPlan (a b : Plan) : bool :=
  match a, b with
  | [], [] => true
  | _, _ => String.eqb (marshal (JArray (change_json <$> a))) (marshal (JArray (change_json <$> b)))
  end.
End text.
