(* ===== verification/DynsecAdopt.v ===== *)
(** * The migration to the dynamic security plugin ([deploy/dynsec_adopt.go], [deploy/dynsec.go])

    The pure parts of an adoption: the rules of the file backend as roles, the
    users as clients, the management account, the JSON database the plugin
    starts with, and the configuration that loads the plugin and drops the file
    backend. *)
From S2P Require Import Prelude Unicode GoStrings GoStrconv GoPath Hash GoJson Passwd Acl Catalog CatalogLoad Conf ConfEdit Include Settings Plugins.
From S2P Require Import Store BrokerStore PluginDeploy Dynsec DynsecPlan DynsecService DynsecJson.

(** ** Role names *)

(** [strings.Trim(s, "-")] *)
Definition is_dash (c : ascii) : bool := bool_decide (c = "-"%char).
Definition trim_dashes (s : string) : string := trim_right_bytes is_dash (trim_left_bytes is_dash s).

Definition name_rune (r : Z) : bool :=
  in_range 97 122 r || in_range 65 90 r || in_range 48 57 r || bool_decide (r = 45 ∨ r = 95 ∨ r = 46)%Z.
Definition sanitizeDynsecName (value : string) : string :=
  trim_dashes (foldr (λ r out, (if name_rune r then encode_rune r else "-") +:+ out) "" (runes (trim_space value))).
Definition dynsecRoleName (rule : Rule) : string :=
  if decide (EffectiveSelector rule = SelectorAnonymous) then "anonymous-" +:+ sanitizeDynsecName (r_topic_filter rule)
  else if decide (EffectiveSelector rule = SelectorPattern) then "pattern-" +:+ sanitizeDynsecName (r_topic_filter rule)
  else "user-" +:+ sanitizeDynsecName (r_principal rule) +:+ "-" +:+ sanitizeDynsecName (r_topic_filter rule).

(** ** Rules as roles *)
Definition dynsecACLsForRule (rule : Rule) : list ACL :=
  let entry type allow := mkACL type (r_topic_filter rule) allow 0 in
  let allow := negb (bool_decide (r_permission rule = PermissionDeny)) in
  if decide (r_permission rule = PermissionWrite) then [entry ACLPublishClientSend allow]
  else if decide (r_permission rule = PermissionRead) then [entry ACLPublishClientReceive allow; entry ACLSubscribePattern allow]
  else if decide (r_permission rule = PermissionReadWrite) then
    [entry ACLPublishClientSend allow; entry ACLPublishClientReceive allow; entry ACLSubscribePattern allow]
  else if decide (r_permission rule = PermissionDeny) then
    [entry ACLPublishClientSend false; entry ACLPublishClientReceive false; entry ACLSubscribePattern false]
  else [].

Record migration := mkMigration {
  mg_roles : list Role; mg_by_user : gmap string (list string); mg_pattern : list string; mg_anonymous : list string
}.
Definition migrate_rule (m : migration) (rule : Rule) : migration :=
  let name := dynsecRoleName rule in
  match dynsecACLsForRule rule with
  | [] => m
  | entries =>
      let roles := mg_roles m ++ [mkRole name (r_description rule) (r_description rule) entries] in
      if decide (EffectiveSelector rule = SelectorUser) then
        mkMigration roles (<[r_principal rule := default [] (mg_by_user m !! r_principal rule) ++ [name]]> (mg_by_user m)) (mg_pattern m) (mg_anonymous m)
      else if decide (EffectiveSelector rule = SelectorAnonymous) then mkMigration roles (mg_by_user m) (mg_pattern m) (mg_anonymous m ++ [name])
      else if decide (EffectiveSelector rule = SelectorPattern) then mkMigration roles (mg_by_user m) (mg_pattern m ++ [name]) (mg_anonymous m)
      else mkMigration roles (mg_by_user m) (mg_pattern m) (mg_anonymous m)
  end.
Definition migrateACLToDynsec (rules : list Rule) : migration := foldl migrate_rule (mkMigration [] ∅ [] []) rules.

(** ** The adopted document *)
Definition ManagementRoleName : string := "mcm-management".
Definition ManagementRoleTopic : string := ControlTopicPrefix +:+ "#".
Definition ResponseTopic : string := "$CONTROL/dynamic-security/v1/response".
Definition AnonymousGroupName : string := "anonymous".
Definition managementRole : Role :=
  mkRole ManagementRoleName "Management channel of MCM" ""
    [mkACL ACLPublishClientSend ManagementRoleTopic true 0; mkACL ACLPublishClientReceive ManagementRoleTopic true 0;
     mkACL ACLSubscribePattern ManagementRoleTopic true 0; mkACL ACLSubscribeLiteral ControlTopic true 0;
     mkACL ACLSubscribeLiteral ResponseTopic true 0].
Definition role_ref (name : string) : RoleRef := mkRoleRef name 0.
Definition managementClient (username password : string) : Client :=
  mkClient username "" "" "" password false [role_ref ManagementRoleName] [] false.
Definition adopted_roles (m : migration) (username : string) : list string :=
  sort_strings (default [] (mg_by_user m !! username)) ++ mg_pattern m.
Definition adopted_client (m : migration) (user : MQTTUser) (password : string) : Client :=
  mkClient (u_username user) "" "" "" password false (role_ref <$> adopted_roles m (u_username user)) [] (u_disabled user).
Definition adopted_groups (m : migration) : list Group :=
  match mg_anonymous m with
  | [] => []
  | names => [mkGroup AnonymousGroupName "Anonymous clients" "" (role_ref <$> sort_strings names) []]
  end.
Definition listenerWarnings (rules : list Rule) : list (string * string) :=
  (λ r, (r_principal r, r_topic_filter r)) <$> filter (λ r, EffectiveScope r = ScopeListener) rules.
(** [clients] are the migrated users. *)
Definition adopted_document (m : migration) (username password : string) (clients : list Client) : Document :=
  let groups := adopted_groups m in
  SortDocument (mkDocument (managementClient username password :: clients) groups (mg_roles m ++ [managementRole])
    (mkAccess false true false true) (match groups with [] => "" | _ => AnonymousGroupName end)).

Definition password_alphabet : string := "ABCDEFGHJKLMNPQRSTUVWXYZabcdefghijkmnopqrstuvwxyz23456789".
Definition password_char (b : Z) : ascii :=
  default "A"%char (String.get (Z.to_nat (b `mod` Z.of_nat (String.length password_alphabet))) password_alphabet).
(** The password the random bytes of [generateDynsecPassword] give. *)
Definition generated_password (raw : string) : string := String.string_of_list_ascii ((λ c, password_char (byte_val c)) <$> String.list_ascii_of_string raw).

(** ** The database of the plugin *)
Definition role_name_json (r : RoleRef) : json := JObject [("rolename", JString (rr_name r))].
Definition group_name_json (r : GroupRef) : json := JObject [("groupname", JString (gr_name r))].
(** [secret]: the hash and the salt, for a client with a password. *)
Definition database_client (c : Client) (secret : option (string * string)) : json :=
  JObject (field "username" (JString (cl_name c)) ++ omit_string "textname" (cl_textname c) ++ omit_string "textdescription" (cl_textdesc c)
    ++ omit_string "clientid" (cl_client_id c)
    ++ from_option (λ s, omit_string "password" s.1 ++ omit_string "salt" s.2 ++ omit_zero "iterations" PasswordIterations) [] secret
    ++ field "roles" (JArray (role_name_json <$> cl_roles c)) ++ field "groups" (JArray (group_name_json <$> cl_groups c))
    ++ omit_false "disabled" (cl_disabled c)).
Definition database_group (g : Group) : json :=
  JObject (field "groupname" (JString (gp_name g)) ++ omit_string "textname" (gp_textname g) ++ omit_string "textdescription" (gp_textdesc g)
    ++ field "roles" (JArray (role_name_json <$> gp_roles g)) ++ field "clients" (JArray (JString ∘ cr_name <$> gp_clients g))).
Definition database_acl (e : ACL) : json :=
  JObject [("acltype", JString (acl_type e)); ("topic", JString (acl_topic e)); ("allow", JBool (acl_allow e))].
Definition database_role (r : Role) : json :=
  JObject (field "rolename" (JString (ro_name r)) ++ omit_string "textname" (ro_textname r) ++ omit_string "textdescription" (ro_textdesc r)
    ++ field "acls" (JArray (database_acl <$> ro_acls r))).
Definition database_defaults (a : DefaultAccess) : json :=
  JObject [("publishClientSend", JBool (da_publish_send a)); ("publishClientReceive", JBool (da_publish_receive a));
           ("subscribe", JBool (da_subscribe a)); ("unsubscribe", JBool (da_unsubscribe a))].
Definition database_json (clients : list (Client * option (string * string))) (doc : Document) : json :=
  JObject [("clients", JArray ((λ x, database_client x.1 x.2) <$> clients)); ("groups", JArray (database_group <$> d_groups doc));
           ("roles", JArray (database_role <$> d_roles doc)); ("defaultACLAccess", database_defaults (d_default doc))].
Definition database_text (clients : list (Client * option (string * string))) (doc : Document) : string :=
  MarshalIndent (chr_str "009") (database_json clients doc) +:+ nl.

(** ** Paths and configuration *)
Definition dynamic_security : string := "dynamic-security".
Definition defaultBrokerConfigDir : string := "/mosquitto/config".
Definition dynsecLocalPath (configDir brokerPath : string) : string :=
  if decide (configDir = "") then base_name brokerPath else path_join [configDir; base_name brokerPath].
Definition dynsecBrokerPath (cat : PluginCatalog) (brokerDir : string) (parsed : File) : string :=
  let configured := trim_space (default "" (FindPlugin (ExtractPlugins parsed cat) dynamic_security ≫= λ p, pl_options p !! "config_file")) in
  if decide (configured = "") then
    path_join [let dir := trim_space brokerDir in if decide (dir = "") then defaultBrokerConfigDir else dir; "dynamic-security.json"]
  else configured.

Definition removeFileBackend (f : File) (changed : list string) : File * list string :=
  let dropped := it_key <$> filter (λ it, file_backend it = true) (f_items f) in
  (mkFile (filter (λ it, file_backend it = false) (f_items f)) (f_path f),
   sort_strings (elements (list_to_set changed ∪ list_to_set dropped : gset string))).

(** The plugins of the file with the dynamic security plugin among them. *)
Definition adopted_plugins (cat : PluginCatalog) (parsed : File) (brokerPath : string) : PluginDocument :=
  let doc := ExtractPlugins parsed cat in
  if existsb (λ p, String.eqb (pl_id p) dynamic_security) doc then
    (λ p, if String.eqb (pl_id p) dynamic_security
          then mkPlugin (pl_id p) (pl_module p) (<["config_file" := brokerPath]> (pl_options p)) (pl_unknown p) else p) <$> doc
  else doc ++ [mkPlugin dynamic_security (ModuleOf cat dynamic_security) {["config_file" := brokerPath]} ∅].
Definition adopted_config (cat : PluginCatalog) (parsed : File) (brokerPath : string) : result plugin_error (File * list string) :=
  '(rendered, changed) ← ApplyPluginDocument parsed cat (adopted_plugins cat parsed brokerPath);
  Ok (removeFileBackend rendered changed).
