(* ===== verification/DynsecDeploy.v ===== *)
(** * The dynamic security endpoints of the deploy service ([deploy/dynsec.go], [deploy/dynsec_adopt.go])

    Reading the security database, the preview and the apply of a change, and
    the adoption.  The world of the broker configuration is extended with the
    control channel, the table of the plans and the audit trail of these
    operations.  The channel is opened and closed by an implementation of
    [ControlChannel], which sees the broker: the plugin answers only when the
    broker that runs has loaded it. *)
From S2P Require Import Prelude IO Unicode GoStrings GoStrconv GoTime GoPath Sha256 Hash GoJson Passwd Acl Catalog CatalogLoad Conf ConfEdit Include Settings Plugins.
From S2P Require Import Store BrokerStore Applier DeployRender Deploy BrokerConfig PluginDeploy Dynsec DynsecPlan DynsecService DynsecStore DynsecJson DynsecAdopt.

(** ** World and errors *)

(** The factory of the transport, its close function, and the wait for a broker
    that listens again ([waitForBroker]). *)
Class ControlChannel (W : Type) := {
  open_channel : bworld → W → W * bool;
  close_channel : W → W;
  await_broker : bworld → W → W * bool
}.

Inductive dynsec_details :=
  | Changes (n : nat) | Applied (changes : nat) (commands : string) | Adopted (clients roles : nat) | FailedWith (what : string).
Record dynsec_event := mkDynsecEvent { ev_actor : string; ev_action : string; ev_plan : string; ev_outcome : string; ev_details : dynsec_details }.

Record dworld (W : Type) := mkDWorld {
  dw_broker : bworld; dw_channel : W; dw_plans : gmap string DynSecPlan; dw_trail : list dynsec_event
}.
Arguments mkDWorld {W}. Arguments dw_broker {W}. Arguments dw_channel {W}. Arguments dw_plans {W}. Arguments dw_trail {W}.

Inductive conflict := NoAccount | NoPassword | AlreadyAdopted | StateMoved | PlanDiffers.
Inductive dynsec_error :=
  | DynsecBroker (e : broker_error) | DynsecPlugins (e : plugin_error)
  | ChannelNotConfigured | DynsecStoreMissing
  | DynSecDocumentError (issues : list Dynsec.Issue) | DynSecGuardError (report : GuardReport)
  | ErrDynSecNotAdopted (backend : AccessBackend) | ErrDynSecBackendConflict (why : conflict)
  | ChannelFailed | BrokerUnreachable | PlanRevisionMissing
  | PlanStoreFailed (e : dynsec_store_error) | DynsecFailed (e : service_error) | DatabaseFailed (c : cause).

Record DynSecResult := mkDynSecResult {
  ds_backend : AccessBackend; ds_management : string; ds_document : Document; ds_guard : option GuardReport; ds_warning : bool
}.
(** A rule of a single listener that now applies everywhere, and where the
    database was written. *)
Inductive adopt_warning := ListenerRule (principal topic : string) | DatabaseWritten (path : string).
Record DynSecPreviewResult := mkDynSecPreview {
  dp_plan_id : string; dp_plan_kind : string; dp_plan : Plan; dp_guard : GuardReport; dp_backend : AccessBackend; dp_has_changes : bool;
  dp_credentials : list AdoptedCredential; dp_config_revision : string; dp_config_diff : string; dp_warnings : list adopt_warning
}.
Record DynSecApplyResult := mkDynSecApply {
  da_plan : string; da_document : Document; da_guard : GuardReport; da_deployment : option (Deployment message)
}.

(** ** The service *)
Record dconfig := mkDConfig {
  dc_broker : bconfig; dc_plugins : option PluginCatalog; dc_store : bool; dc_factory : bool; dc_config_dir : string; dc_broker_dir : string
}.

Section service.
Context {W Data : Type} `{Transport W Data, Decoder Data, ControlChannel W}.
Context (c : dconfig) (quote : string → string) (pbkdf2 : string → string → Z → string).
Local Abbreviation bc := (dc_broker c).
Local Abbreviation cfg := (bc_deploy (dc_broker c)).
Local Abbreviation confPath := (cf_conf (bc_deploy (dc_broker c))).
Local Abbreviation dynsec := (io (dworld W) dynsec_error).

Definition set_broker b (w : dworld W) : dworld W := mkDWorld b (dw_channel w) (dw_plans w) (dw_trail w).
Definition set_channel ch (w : dworld W) : dworld W := mkDWorld (dw_broker w) ch (dw_plans w) (dw_trail w).
Definition plans_of (w : dworld W) : plan_tables message := mkPlanTables (w_db (bw_world (dw_broker w))) (dw_plans w).
Definition set_plans (t : plan_tables message) (w : dworld W) : dworld W :=
  mkDWorld (set_world (set_db (pt_db t) (bw_world (dw_broker w))) (dw_broker w)) (dw_channel w) (pt_plans t) (dw_trail w).
Definition on_broker {A} (m : broker A) : dynsec A := zoom dw_broker set_broker DynsecBroker m.
Definition on_channel {A} (m : io W service_error A) : dynsec A := zoom dw_channel set_channel DynsecFailed m.
Definition on_plans {A} (m : io (plan_tables message) dynsec_store_error A) : dynsec A := zoom plans_of set_plans PlanStoreFailed m.
Definition audit (actor action plan outcome : string) (details : dynsec_details) : dynsec unit :=
  modify (λ w, mkDWorld (dw_broker w) (dw_channel w) (dw_plans w) (dw_trail w ++ [mkDynsecEvent actor action plan outcome details])).

Definition with_plugin_catalog {A} (k : PluginCatalog → dynsec A) : dynsec A :=
  match dc_plugins c with
  | None => fail (DynsecBroker ErrBrokerConfigDisabled)
  | Some cat => if decide (confPath = "") then fail (DynsecBroker ErrBrokerConfigDisabled) else k cat
  end.
Definition with_factory {A} (m : dynsec A) : dynsec A := if dc_factory c then m else fail ChannelNotConfigured.
Definition with_plan_store {A} (m : dynsec A) : dynsec A := if dc_store c then m else fail DynsecStoreMissing.
(** [defer closeFn()]: whatever [m] answers. *)
Definition with_channel {A} (m : dynsec A) : dynsec A := λ w,
  match open_channel (dw_broker w) (dw_channel w) with
  | (ch, false) => (set_channel ch w, Err ChannelFailed)
  | (ch, true) => let '(w', r) := m (set_channel ch w) in (set_channel (close_channel (dw_channel w')) w', r)
  end.
Definition with_valid {A} (doc : Document) (m : dynsec A) : dynsec A :=
  match Validate doc with [] => m | issues => fail (DynSecDocumentError issues) end.
Definition with_guard {A} (doc : Document) (k : GuardReport → dynsec A) : dynsec A :=
  let guard := CheckControlChannel doc (cf_username cfg) in
  if gu_ok guard then k guard else fail (DynSecGuardError guard).

(** *** [GetDynSec] *)
Definition GetDynSec : dynsec DynSecResult :=
  with_plugin_catalog (λ cat,
    '(_, parsed) ← on_broker (readBrokerConfig bc);
    let backend := DetectAccessBackend parsed (Some cat) in
    if decide (backend ≠ AccessBackendDynamicSecurity) then mret (mkDynSecResult backend (cf_username cfg) empty_document None true)
    else with_factory (with_channel (
      doc ← on_channel Read;
      mret (mkDynSecResult backend (cf_username cfg) (Redacted doc) (Some (CheckControlChannel doc (cf_username cfg))) false)))).

(** *** [PreviewDynSec] *)
Definition store_plan (actor kind baseHash : string) (envelope : dynSecPlanEnvelope) : dynsec string :=
  planID ← on_broker new_revision_id;
  created ← on_broker broker_clock;
  on_plans (InsertDynSecPlan (mkDynSecPlan planID actor kind baseHash envelope (en_desired envelope) (cf_username cfg) created None)) ;;
  mret planID.
Definition preview_locked (actor : string) (backend : AccessBackend) (desired : Document) : dynsec DynSecPreviewResult :=
  current ← on_channel Read;
  let plan := BuildPlan current desired in
  with_guard desired (λ guard,
    planID ← store_plan actor "update" (dynsecStateHash current) (mkEnvelope (maskDynSecPlan plan) (Redacted desired) (cf_username cfg) "" []);
    audit actor "dynsec.preview" planID "success" (Changes (length plan)) ;;
    mret (mkDynSecPreview planID "update" (maskDynSecPlan plan) guard backend (negb (Empty plan)) [] "" "" [])).
Definition PreviewDynSec (actor : string) (desired : Document) : dynsec DynSecPreviewResult :=
  with_plugin_catalog (λ cat, with_factory (with_plan_store (with_valid desired (
    let desired := NormalizeDocument desired in
    '(_, parsed) ← on_broker (readBrokerConfig bc);
    let backend := DetectAccessBackend parsed (Some cat) in
    if decide (backend ≠ AccessBackendDynamicSecurity) then fail (ErrDynSecNotAdopted backend)
    else with_channel (preview_locked actor backend desired))))).

(** *** [ApplyDynSec] *)
Definition marshal_commands (commands : list Command) : string :=
  MarshalCommands (λ cs, Some (marshal (JArray (command_json <$> cs)))) commands.
(** A failure that is written to the trail. *)
Definition audited {A} (actor planID what : string) (m : dynsec A) : dynsec A :=
  cleanup m (audit actor "dynsec.apply" planID "failure" (FailedWith what)).
Definition wait_for_broker : dynsec unit := λ w,
  match await_broker (dw_broker w) (dw_channel w) with
  | (ch, true) => (set_channel ch w, Ok tt)
  | (ch, false) => (set_channel ch w, Err BrokerUnreachable)
  end.
(** The adoption loads the plugin, which needs a restart of the broker. *)
Definition load_plugin (actor planID revision : string) : dynsec (option (Deployment message)) :=
  if decide (revision = "") then mret None
  else
    d ← audited actor planID "configuration" (on_broker (applyBrokerConfigRevision bc (default (mkCatalog "" ∅) (bc_catalog bc)) actor revision true true "dynsec"));
    audited actor planID "broker" wait_for_broker ;;
    mret (Some d).
Definition effective_document (envelope : dynSecPlanEnvelope) (desired : option Document) (k : Document → dynsec DynSecApplyResult) : dynsec DynSecApplyResult :=
  match desired with None => k (en_desired envelope) | Some doc => with_valid doc (k doc) end.
Definition check_base (stored : DynSecPlan) (current : Document) : dynsec unit :=
  if decide (sp_base_hash stored ≠ "" ∧ dynsecStateHash current ≠ sp_base_hash stored) then fail (ErrDynSecBackendConflict StateMoved) else mret tt.
Definition check_plan (plan : Plan) (envelope : dynSecPlanEnvelope) : dynsec unit :=
  if sameDynSecPlan quote (maskDynSecPlan plan) (en_plan envelope) then mret tt else fail (ErrDynSecBackendConflict PlanDiffers).
(** What follows once every check has passed. *)
Definition run_plan (actor planID : string) (plan : Plan) (effective : Document) (deployment : option (Deployment message)) : dynsec DynSecApplyResult :=
  actual ← audited actor planID "service" (on_channel (λ ch, DynsecService.Apply ch plan effective));
  appliedAt ← on_broker broker_clock;
  on_plans (ConsumeDynSecPlan planID appliedAt) ;;
  guard ← audited actor planID "the management channel is open" (with_guard actual mret);
  audit actor "dynsec.apply" planID "success" (Applied (length plan) (marshal_commands (PlanCommands plan))) ;;
  mret (mkDynSecApply planID (Redacted actual) guard deployment).
Definition apply_on_channel (actor planID : string) (stored : DynSecPlan) (desired : option Document) (deployment : option (Deployment message)) : dynsec DynSecApplyResult :=
  current ← on_channel Read;
  effective_document (sp_plan stored) desired (λ effective,
    check_base stored current ;;
    let plan := BuildPlan current effective in
    check_plan plan (sp_plan stored) ;;
    with_guard effective (λ _, run_plan actor planID plan effective deployment)).
Definition ApplyDynSec (actor planID : string) (desired : option Document) : dynsec DynSecApplyResult :=
  with_factory (with_plan_store (
    if decide (planID = "") then fail PlanRevisionMissing
    else
      stored ← on_plans (GetDynSecPlan planID);
      if decide (sp_applied stored ≠ None) then fail (PlanStoreFailed ErrDynSecPlanConsumed)
      else
        deployment ← load_plugin actor planID (en_revision (sp_plan stored));
        with_channel (apply_on_channel actor planID stored desired deployment))).

(** *** [AdoptDynSec] *)
Definition keep_reason : string := "the password of the client was changed, the old one was only stored as a hash".
Definition random : dynsec string := on_broker (on_world random_bytes).
(** A client of a user, with the credential to show when the password is new. *)
Definition adopt_user (m : migration) (user : MQTTUser) : dynsec (Client * list AdoptedCredential) :=
  match cf_cleartext cfg (u_username user) with
  | Some (String _ _ as password) => mret (adopted_client m user password, [])
  | _ =>
      raw ← random;
      let password := generated_password raw in
      mret (adopted_client m user password, [mkCredential (u_username user) password keep_reason])
  end.
Definition buildAdoptedDocument : dynsec (Document * list AdoptedCredential * list adopt_warning) :=
  rules ← on_broker (on_world (on_db "list acl rules" ListRules));
  let m := migrateACLToDynsec rules in
  users ← on_broker (on_world (on_db "list mqtt users" ListMQTTUsers));
  adopted ← collect (adopt_user m) (filter (λ u, u_username u ≠ cf_username cfg) users);
  mret (adopted_document m (cf_username cfg) (cf_password cfg) adopted.*1, mjoin adopted.*2, (λ '(principal, topic), ListenerRule principal topic) <$> listenerWarnings rules).

(** The hash of a client's password, with a salt of the random source. *)
Definition hash_client (client : Client) : dynsec (Client * option (string * string)) :=
  if decide (cl_password client = "") then mret (client, None)
  else salt ← random; mret (client, Some (dynsec_HashPassword pbkdf2 (cl_password client) salt)).
(** [os.WriteFile] truncates the file before it writes. *)
Definition write_file (path body : string) : io fs cause unit :=
  syscall OpenFile ;; modify (λ s, set_files s (<[path := ""]> (fs_files s))) ;;
  syscall WriteFile ;; modify (λ s, set_files s (<[path := body]> (fs_files s))).
Definition in_directory {A} (m : io fs cause A) : dynsec A := zoom dw_broker set_broker DatabaseFailed (on_files m).
Definition writeDynsecDatabase (path : string) (doc : Document) : dynsec unit :=
  clients ← collect hash_client (d_clients doc);
  in_directory (syscall MakeDir ;; write_file path (database_text clients doc) ;; syscall ChmodFile).

Definition previewAdoptionConfig (actor : string) (cat : PluginCatalog) (parsed : File) (brokerPath : string) : dynsec (string * string) :=
  match adopted_config cat parsed brokerPath with
  | Err e => fail (DynsecPlugins e)
  | Ok (rendered, changed) =>
      match RenderConf rendered with
      | Err e => fail (DynsecBroker (RenderFailed e))
      | Ok body => on_broker (
          top ← read_conf bc;
          diff ← conf_diff bc top body;
          revisionID ← new_revision_id;
          store_revision bc "store dynamic security adoption revision" revisionID actor (contentHash top) (contentHash body) body None (Some (join "," changed)) ;;
          mret (revisionID, diff))
      end
  end.
Definition AdoptDynSec (actor : string) : dynsec DynSecPreviewResult :=
  with_plugin_catalog (λ cat, with_plan_store (
    if decide (cf_username cfg = "") then fail (ErrDynSecBackendConflict NoAccount)
    else if decide (cf_password cfg = "") then fail (ErrDynSecBackendConflict NoPassword)
    else
      '(_, parsed) ← on_broker (readBrokerConfig bc);
      let backend := DetectAccessBackend parsed (Some cat) in
      if decide (backend = AccessBackendDynamicSecurity) then fail (ErrDynSecBackendConflict AlreadyAdopted)
      else
        '(desired, credentials, warnings) ← buildAdoptedDocument;
        with_valid desired (with_guard desired (λ guard,
          let brokerPath := dynsecBrokerPath cat (dc_broker_dir c) parsed in
          let localPath := dynsecLocalPath (dc_config_dir c) brokerPath in
          writeDynsecDatabase localPath desired ;;
          info ← attempt (E' := dynsec_error) (in_directory (stat_file localPath));
          let warnings := warnings ++ match info with Ok _ => [DatabaseWritten localPath] | Err _ => [] end in
          '(revisionID, diff) ← previewAdoptionConfig actor cat parsed brokerPath;
          planID ← store_plan actor "adopt" "" (mkEnvelope [] (Redacted desired) (cf_username cfg) revisionID credentials);
          audit actor "dynsec.adopt" planID "success" (Adopted (length (d_clients desired)) (length (d_roles desired))) ;;
          mret (mkDynSecPreview planID "adopt" [] guard backend true credentials revisionID diff warnings))))).
End service.
