(* ===== verification/DynsecProofs.v ===== *)
(** * What the dynamic security endpoints promise

    An apply sends commands only for a plan that was reviewed on the state the
    broker is in, and succeeds only when the broker was read back in the requested
    state; a plan is applied at most once; a preview touches neither the broker
    nor its security database, and stores no password. *)
From S2P Require Import Prelude IO Unicode GoStrings GoStrconv GoTime GoPath Sha256 Hash GoJson Passwd Acl Catalog CatalogLoad Conf ConfEdit Include Settings Plugins.
From S2P Require Import Store BrokerStore Applier DeployRender Deploy DeployFrame BrokerConfig BrokerProofs BrokerOnce PluginDeploy Dynsec DynsecPlan DynsecService DynsecStore DynsecJson DynsecAdopt DynsecDeploy.

Section proofs.
Context {W Data : Type} `{Transport W Data, Decoder Data, ControlChannel W}.
Context (c : dconfig) (quote : string → string).
Local Abbreviation cfg := (bc_deploy (dc_broker c)).
Implicit Types w : dworld W.

(** ** The channel without a command *)
Inductive channel_step (ch : W) : W → Prop :=
  | step_open b : channel_step ch (open_channel b ch).1
  | step_close : channel_step ch (close_channel ch)
  | step_await b : channel_step ch (await_broker b ch).1
  | step_read : channel_step ch (Do ch read_commands).1.
(** The channel is opened, read, awaited and closed. *)
Definition only_reads : W → W → Prop := rtc channel_step.

(** Nothing happened to the plans, and nothing but readings on the channel. *)
Record no_command w w' : Prop := { nc_plans : dw_plans w' = dw_plans w; nc_channel : only_reads (dw_channel w) (dw_channel w') }.
#[export] Instance no_command_preorder : PreOrder no_command.
Proof.
  split; [intros w; by constructor|]. intros w1 w2 w3 [Hp Hc] [Hp' Hc']. constructor; [congruence|by etrans].
Qed.
Lemma no_command_step w w' : dw_plans w' = dw_plans w → channel_step (dw_channel w) (dw_channel w') → no_command w w'.
Proof. intros Hp Hs. constructor; [done|by apply rtc_once]. Qed.

Lemma on_broker_quiet {A} (m : broker A) : moves no_command (on_broker (W := W) m).
Proof. intros w. by constructor. Qed.
Lemma zoom_broker_quiet {E E' A} (f : E → E') (m : io bworld E A) : moves no_command (zoom (dw_broker (W := W)) set_broker f m).
Proof. intros w. by constructor. Qed.
Lemma audit_quiet actor action plan outcome details : moves no_command (audit (W := W) actor action plan outcome details).
Proof. intros w. by constructor. Qed.
Lemma wait_quiet : moves no_command (wait_for_broker (W := W)).
Proof.
  intros w. unfold wait_for_broker. pose proof (step_await (dw_channel w) (dw_broker w)) as Hs. destruct (await_broker _ _) as [ch []]; by apply no_command_step.
Qed.
Lemma read_quiet : moves no_command (on_channel (W := W) Read).
Proof. intros w. apply no_command_step; [done|]. cbn. rewrite Read_request. constructor. Qed.
Lemma cleanup_quiet {E A} (m : io (dworld W) E A) before : moves no_command m → moves no_command before → moves no_command (cleanup m before).
Proof.
  intros Hm Hb w. unfold cleanup. specialize (Hm w). destruct (m w) as [w1 [a|e]]; [done|]. cbn in *. etrans; [exact Hm|apply Hb].
Qed.
Hint Resolve on_broker_quiet zoom_broker_quiet audit_quiet wait_quiet read_quiet cleanup_quiet : mcm.

Lemma load_plugin_quiet actor planID revision : moves no_command (load_plugin (W := W) c actor planID revision).
Proof. unfold load_plugin, audited. destruct (decide _); repeat moves_step. Qed.

(** ** Rules *)
Lemma wp_with_channel {A} (m : io (dworld W) dynsec_error A) (Φ : dworld W → result dynsec_error A → Prop) w :
  (∀ ch, channel_step (dw_channel w) ch → Φ (set_channel ch w) (Err ChannelFailed)) →
  (∀ ch, channel_step (dw_channel w) ch → wp m (λ w' r, Φ (set_channel (close_channel (dw_channel w')) w') r) (set_channel ch w)) →
  wp (with_channel m) Φ w.
Proof.
  intros He Hm. unfold wp, with_channel. pose proof (step_open (dw_channel w) (dw_broker w)) as Hs.
  destruct (open_channel _ _) as [ch []]; [|by apply He]. specialize (Hm ch Hs). unfold wp in Hm. by destruct (m _) as [w' r].
Qed.
Lemma wp_on_plans {A} (m : io (plan_tables message) dynsec_store_error A) (Φ : dworld W → result dynsec_error A → Prop) w :
  wp m (λ t r, Φ (set_plans t w) (match r with Ok a => Ok a | Err e => Err (PlanStoreFailed e) end)) (plans_of w) → wp (on_plans m) Φ w.
Proof. apply wp_zoom. Qed.
Lemma broker_clock_answers (b : bworld) : ∃ t, (broker_clock b).2 = Ok t.
Proof. unfold broker_clock, on_tables, zoom, broker_now, zoom, now. cbn. destruct (db_ticks _); cbn; eauto. Qed.
Lemma wp_clock (Φ : dworld W → result dynsec_error Z → Prop) w :
  (∀ b t, Φ (set_broker b w) (Ok t)) → wp (on_broker broker_clock) Φ w.
Proof.
  intros HΦ. unfold on_broker. apply wp_zoom. unfold wp. destruct (broker_clock_answers (dw_broker w)) as [t ->]. apply HΦ.
Qed.

(** ** The checks of an apply *)
Record plan_accepted (stored : DynSecPlan) (desired : option Document) (current effective : Document) : Prop := {
  pa_pending : sp_applied stored = None;
  pa_effective : effective = default (en_desired (sp_plan stored)) desired;
  pa_valid : ∀ doc, desired = Some doc → Validate doc = [];
  pa_base : sp_base_hash stored = "" ∨ dynsecStateHash current = sp_base_hash stored;
  pa_plan : sameDynSecPlan quote (maskDynSecPlan (BuildPlan current effective)) (en_plan (sp_plan stored)) = true;
  pa_guard : gu_ok (CheckControlChannel effective (cf_username cfg)) = true
}.

Definition consumed (planID : string) (stored : DynSecPlan) w w' : Prop :=
  ∃ t, dw_plans w' = <[planID := stored_plan (sp_created stored) (Some t) stored]> (dw_plans w).

(** What an apply that sent its commands leaves behind. *)
Definition outcome (planID : string) (stored : DynSecPlan) w w' (effective : Document) (sent : result service_error Document) (r : result dynsec_error DynSecApplyResult) : Prop :=
  match sent, r with
  | Err e, Err (DynsecFailed e') => e' = e ∧ dw_plans w' = dw_plans w
  | Ok actual, Ok res => Verify effective actual = [] ∧ consumed planID stored w w' ∧ gu_ok (CheckControlChannel actual (cf_username cfg)) = true
      ∧ da_plan res = planID ∧ da_document res = Redacted actual ∧ da_guard res = CheckControlChannel actual (cf_username cfg)
  | Ok actual, Err (DynSecGuardError report) => consumed planID stored w w' ∧ report = CheckControlChannel actual (cf_username cfg) ∧ gu_ok report = false
  | Ok actual, Err (PlanStoreFailed _) => dw_plans w' = dw_plans w
  | _, _ => False
  end.
Definition ran (planID : string) (desired : option Document) w w' (r : result dynsec_error DynSecApplyResult) : Prop :=
  ∃ stored ch ch1 current effective, dw_plans w !! planID = Some stored ∧ only_reads (dw_channel w) ch ∧ Read ch = (ch1, Ok current)
    ∧ plan_accepted stored desired current effective
    ∧ dw_channel w' = close_channel (DynsecService.Apply ch1 (BuildPlan current effective) effective).1
    ∧ outcome planID stored w w' effective (DynsecService.Apply ch1 (BuildPlan current effective) effective).2 r.
Definition refused w w' {A} (r : result dynsec_error A) : Prop := no_command w w' ∧ ∃ e, r = Err e.

(** An apply of the service verifies what it returns. *)
Lemma service_apply_verified (ch ch' : W) plan desired actual : DynsecService.Apply ch plan desired = (ch', Ok actual) → Verify desired actual = [].
Proof.
  rewrite Apply_cases. destruct (PlanCommands plan) as [|x cs]; [intros Hb; by apply read_back_ok in Hb as [? _]|].
  destruct (Do ch _) as [ch1 [rs|[]]]; [|intros Hb; by apply read_back_ok in Hb as [? _]..|done].
  destruct (head _); [done|]. intros Hb. by apply read_back_ok in Hb as [? _].
Qed.

Lemma wp_run_plan actor planID plan effective deployment (stored : DynSecPlan) w0 w :
  dw_plans w = dw_plans w0 → dw_plans w0 !! planID = Some stored → sp_applied stored = None →
  wp (run_plan c actor planID plan effective deployment) (λ w' r,
    dw_channel w' = (DynsecService.Apply (dw_channel w) plan effective).1
    ∧ outcome planID stored w0 w' effective (DynsecService.Apply (dw_channel w) plan effective).2 r
    ∧ ∀ res, r = Ok res → da_deployment res = deployment) w.
Proof.
  intros Hw0 Hstored Hpending. unfold run_plan, audited. apply wp_bind, wp_cleanup. unfold on_channel at 1. apply wp_zoom. unfold wp at 1.
  destruct (DynsecService.Apply (dw_channel w) plan effective) as [ch' [actual|e]] eqn:Ha; cbn [fst snd].
  2: { unfold audit, modify, wp. by cbn. }
  apply wp_bind, wp_clock. intros b t. apply wp_bind, wp_on_plans.
  apply wp_ConsumeDynSecPlan; [done|]. intros d p Hp Hnone. cbn [pt_plans plans_of] in Hp.
  assert (p = stored) as -> by (cbn in Hp; congruence).
  apply wp_bind, wp_cleanup. unfold with_guard. destruct (gu_ok (CheckControlChannel actual (cf_username cfg))) eqn:Hg.
  - apply wp_ret. unfold audit, modify. apply wp_bind. unfold wp. cbn [fst snd]. unfold mret, io_ret. cbn.
    split; [done|]. split; [|by intros res [= <-]]. split; [by eapply service_apply_verified|].
    split; [exists t; by rewrite Hw0|done].
  - apply wp_fail. unfold audit, modify, wp. cbn. split; [done|]. split; [|done]. split; [exists t; by rewrite Hw0|done].
Qed.

Lemma ApplyDynSec_cases actor planID desired w :
  let '(w', r) := ApplyDynSec c quote actor planID desired w in
  refused w w' r ∨ ran planID desired w w' r ∧ ∀ res stored, r = Ok res → dw_plans w !! planID = Some stored →
    en_revision (sp_plan stored) = "" → da_deployment res = None.
Proof.
  enough (wp (ApplyDynSec c quote actor planID desired) (λ w' r, refused w w' r ∨ ran planID desired w w' r ∧ ∀ res stored, r = Ok res →
    dw_plans w !! planID = Some stored → en_revision (sp_plan stored) = "" → da_deployment res = None) w) as Hwp.
  { unfold wp in Hwp. by destruct (ApplyDynSec _ _ _ _ _ _). }
  assert (∀ e, refused w w (Err e : result dynsec_error DynSecApplyResult)) as Hrefl by (intros e; split; [reflexivity|eauto]).
  unfold ApplyDynSec, with_factory, with_plan_store. destruct (dc_factory c); [|apply wp_fail; left; apply Hrefl].
  destruct (dc_store c); [|apply wp_fail; left; apply Hrefl]. destruct (decide (planID = "")); [apply wp_fail; left; apply Hrefl|].
  apply wp_bind, wp_on_plans, wp_GetDynSecPlan.
  { intros d e _. left. split; [by constructor|eauto]. }
  intros d stored Hstored. cbn in Hstored. set (w1 := set_plans _ w).
  assert (no_command w w1) as K1 by by constructor.
  destruct (decide (sp_applied stored ≠ None)) as [|Hpending]; [apply wp_fail; left; split; [done|eauto]|]. apply dec_stable in Hpending.
  apply wp_bind. unfold wp at 1. pose proof (load_plugin_quiet actor planID (en_revision (sp_plan stored)) w1) as K2.
  assert (∀ a, (load_plugin c actor planID (en_revision (sp_plan stored)) w1).2 = Ok a → en_revision (sp_plan stored) = "" → a = None) as Hdep.
  { intros a Ha He. unfold load_plugin in Ha. rewrite decide_True in Ha by done. by injection Ha. }
  destruct (load_plugin _ _ _ _ w1) as [w2 [deployment|e]]; cbn [fst snd] in *; [|left; split; [by etrans|eauto]].
  assert (no_command w w2) as K12 by by etrans. clear K1 K2 w1 d.
  apply wp_with_channel; [intros ch Hch; left; split; [|eauto]; etrans; [exact K12|by apply no_command_step]|].
  intros ch Hch. unfold apply_on_channel. apply wp_bind. unfold on_channel. apply wp_zoom. unfold wp at 1. cbn [dw_channel set_channel].
  assert (only_reads (dw_channel w) ch) as Hopen by (eapply rtc_r; [apply K12|done]).
  pose proof (step_read ch) as Hread. rewrite <-Read_request in Hread. destruct (Read ch) as [ch1 [current|e]] eqn:Hcur; cbn [fst snd] in *.
  2: { left. split; [|eauto]. constructor; [apply K12|]. cbn. eapply rtc_r; [by eapply rtc_r|constructor]. }
  set (w3 := set_channel ch1 _). assert (∀ A (e : dynsec_error), refused w (set_channel (close_channel ch1) w3) (Err e : result dynsec_error A)) as Hstop.
  { intros A e. split; [|eauto]. constructor; [apply K12|]. cbn. eapply rtc_r; [by eapply rtc_r|constructor]. }
  assert (∀ effective, effective = default (en_desired (sp_plan stored)) desired → (∀ doc, desired = Some doc → Validate doc = []) →
    wp (check_base stored current ;; check_plan quote (BuildPlan current effective) (sp_plan stored) ;;
        with_guard c effective (λ _, run_plan c actor planID (BuildPlan current effective) effective deployment))
      (λ w' r, refused w (set_channel (close_channel (dw_channel w')) w') r ∨ ran planID desired w (set_channel (close_channel (dw_channel w')) w') r
        ∧ ∀ res st, r = Ok res → dw_plans w !! planID = Some st → en_revision (sp_plan st) = "" → da_deployment res = None) w3) as Hrest.
  { intros effective Heff Hvalid. unfold check_base. destruct (decide _) as [|Hbase]; [apply wp_bind, wp_fail; left; apply Hstop|].
    apply wp_bind, wp_ret. unfold check_plan. destruct (sameDynSecPlan _ _ _) eqn:Hsame; [|apply wp_bind, wp_fail; left; apply Hstop].
    apply wp_bind, wp_ret. unfold with_guard. destruct (gu_ok _) eqn:Hguard; [|apply wp_fail; left; apply Hstop].
    eapply wp_mono; [apply (wp_run_plan _ _ _ _ _ stored w); [apply K12|done|done]|]. intros w' r (Hch' & Hout & Hdeploy). right. split.
    - exists stored, ch, ch1, current, effective. split_and!; try done.
      + constructor; try done. destruct (decide (sp_base_hash stored = "")); [by left|right]. by destruct (decide (dynsecStateHash current = sp_base_hash stored)); [|tauto].
      + cbn in *. by rewrite Hch'.
    - intros res st Hres Hst Hrev. rewrite (Hdeploy res Hres). apply Hdep; [done|]. congruence. }
  unfold effective_document, with_valid. destruct desired as [doc|]; [|by apply Hrest].
  destruct (Validate doc) eqn:Hv; [|apply wp_fail; left; apply Hstop]. apply Hrest; [done|]. by intros ? [= <-].
Qed.

(** ** Plans stay applied *)
Definition plans_grow w w' : Prop := ∀ id p, dw_plans w !! id = Some p → is_Some (sp_applied p) → dw_plans w' !! id = Some p.
#[export] Instance plans_grow_preorder : PreOrder plans_grow.
Proof. split; [by intros w id p|]. intros a b d Hab Hbd id p Hp Ha. apply Hbd; [by apply Hab|done]. Qed.
Lemma same_plans_grow w w' : dw_plans w' = dw_plans w → plans_grow w w'.
Proof. by intros Hp id p; rewrite Hp. Qed.
Lemma zoom_plans_grow {E E' A} (f : E → E') (m : io bworld E A) : moves plans_grow (zoom (dw_broker (W := W)) set_broker f m).
Proof. intros w. by apply same_plans_grow. Qed.
Lemma broker_plans_grow {A} (m : broker A) : moves plans_grow (on_broker (W := W) m).
Proof. apply zoom_plans_grow. Qed.
Lemma channel_plans_grow {A} (m : io W service_error A) : moves plans_grow (on_channel m).
Proof. intros w. by apply same_plans_grow. Qed.
Lemma audit_plans_grow actor action plan what details : moves plans_grow (audit (W := W) actor action plan what details).
Proof. intros w. by apply same_plans_grow. Qed.
Lemma wait_plans_grow : moves plans_grow (wait_for_broker (W := W)).
Proof. intros w. apply same_plans_grow. apply wait_quiet. Qed.
Lemma on_plans_grow {A} (m : io (plan_tables message) dynsec_store_error A) (w : dworld W) :
  wp m (λ t _, ∀ id p, dw_plans w !! id = Some p → is_Some (sp_applied p) → pt_plans t !! id = Some p) (plans_of w) → plans_grow w (on_plans m w).1.
Proof. intros Hm. exact Hm. Qed.
Lemma get_plans_grow id : moves plans_grow (on_plans (W := W) (GetDynSecPlan id)).
Proof. intros w. by apply on_plans_grow, wp_GetDynSecPlan. Qed.
Lemma consume_plans_grow id t : moves plans_grow (on_plans (W := W) (ConsumeDynSecPlan id t)).
Proof.
  intros w. apply on_plans_grow, wp_ConsumeDynSecPlan; [done|]. intros d p Hp Hnone id' p' Hp' [ta Ha]. cbn in Hp |- *.
  rewrite lookup_insert_ne; [done|]. intros ->. congruence.
Qed.
Lemma insert_plans_grow p : moves plans_grow (on_plans (W := W) (InsertDynSecPlan p)).
Proof.
  intros w. apply on_plans_grow, wp_InsertDynSecPlan; [done|]. intros d created Hnew id' p' Hp' _. cbn in Hnew |- *.
  rewrite lookup_insert_ne; [done|]. intros <-. congruence.
Qed.
Lemma cleanup_plans_grow {E A} (m : io (dworld W) E A) before : moves plans_grow m → moves plans_grow before → moves plans_grow (cleanup m before).
Proof. intros Hm Hb w. unfold cleanup. specialize (Hm w). destruct (m w) as [w1 [a|e]]; [exact Hm|]. cbn in *. etrans; [exact Hm|apply Hb]. Qed.
Lemma with_channel_grow {A} (m : io (dworld W) dynsec_error A) : moves plans_grow m → moves plans_grow (with_channel m).
Proof.
  intros Hm w. apply (wp_with_channel m (λ w' _, plans_grow w w')); [intros ch _; by apply same_plans_grow|]. intros ch _. unfold wp.
  specialize (Hm (set_channel ch w)). destruct (m _) as [w' r]. exact Hm.
Qed.
Hint Resolve zoom_plans_grow broker_plans_grow channel_plans_grow audit_plans_grow wait_plans_grow get_plans_grow consume_plans_grow insert_plans_grow cleanup_plans_grow with_channel_grow : mcm.

Lemma guarded_grow {A} doc (k : GuardReport → io (dworld W) dynsec_error A) : (∀ g, moves plans_grow (k g)) → moves plans_grow (with_guard c doc k).
Proof. intros Hk. unfold with_guard. repeat moves_step. Qed.
Lemma run_plan_grow actor id plan effective deployment : moves plans_grow (run_plan c actor id plan effective deployment).
Proof.
  unfold run_plan, audited. repeat moves_step. apply cleanup_plans_grow; [apply guarded_grow; intros g|]; repeat moves_step.
Qed.
Hint Resolve run_plan_grow : mcm.
Lemma apply_on_channel_grow actor id stored desired deployment : moves plans_grow (apply_on_channel c quote actor id stored desired deployment).
Proof. unfold apply_on_channel, effective_document, with_valid, check_base, check_plan, with_guard. cbv zeta. repeat moves_step. Qed.
Lemma load_plugin_grow actor id revision : moves plans_grow (load_plugin (W := W) c actor id revision).
Proof. unfold load_plugin, audited. repeat moves_step. Qed.
Lemma store_plan_grow actor kind base envelope : moves plans_grow (store_plan (W := W) c actor kind base envelope).
Proof. unfold store_plan. repeat moves_step. Qed.
Hint Resolve apply_on_channel_grow load_plugin_grow store_plan_grow : mcm.
Lemma ApplyDynSec_grow actor id desired : moves plans_grow (ApplyDynSec c quote actor id desired).
Proof. unfold ApplyDynSec, with_factory, with_plan_store. repeat moves_step. Qed.
Lemma preview_locked_grow actor backend desired : moves plans_grow (preview_locked c actor backend desired).
Proof. unfold preview_locked, with_guard. cbv zeta. repeat moves_step. Qed.
Hint Resolve preview_locked_grow : mcm.
Lemma PreviewDynSec_grow actor desired : moves plans_grow (PreviewDynSec c actor desired).
Proof. unfold PreviewDynSec, with_plugin_catalog, with_factory, with_plan_store, with_valid. cbv zeta. repeat moves_step. Qed.
Lemma GetDynSec_grow : moves plans_grow (GetDynSec c).
Proof. unfold GetDynSec, with_plugin_catalog, with_factory. cbv zeta. repeat (apply with_channel_grow || moves_step). Qed.
Context (pbkdf2 : string → string → Z → string).
Lemma AdoptDynSec_grow actor : moves plans_grow (AdoptDynSec c pbkdf2 actor).
Proof.
  unfold AdoptDynSec, with_plugin_catalog, with_plan_store, with_valid, buildAdoptedDocument, adopt_user, random, writeDynsecDatabase, hash_client,
    in_directory, previewAdoptionConfig, with_guard. cbv zeta. repeat moves_step.
Qed.

(** What may happen between two operations: the endpoints, anything that leaves
    the plans alone (another endpoint, the broker, the clock). *)
Inductive dynsec_step w : dworld W → Prop :=
  | step_preview actor desired : dynsec_step w (PreviewDynSec c actor desired w).1
  | step_adopt actor : dynsec_step w (AdoptDynSec c pbkdf2 actor w).1
  | step_apply actor id desired : dynsec_step w (ApplyDynSec c quote actor id desired w).1
  | step_get : dynsec_step w (GetDynSec c w).1
  | step_elsewhere w' : dw_plans w' = dw_plans w → dynsec_step w w'.
Definition dynsec_steps : dworld W → dworld W → Prop := rtc dynsec_step.
Lemma steps_grow w w' : dynsec_steps w w' → plans_grow w w'.
Proof.
  induction 1 as [w|w w1 w2 Hs _ IH]; [done|]. etrans; [|exact IH].
  destruct Hs; [apply PreviewDynSec_grow|apply AdoptDynSec_grow|apply ApplyDynSec_grow|apply GetDynSec_grow|by apply same_plans_grow].
Qed.

(** ** Previews *)
Lemma masked_password cmd : cmd_password (masked cmd) = "" ∨ cmd_password (masked cmd) = "********".
Proof. unfold masked. destruct (decide _) as [->|]; [by left|by right]. Qed.
Definition hides_passwords (plan : Plan) : Prop := Forall (λ cmd, cmd_password cmd = "" ∨ cmd_password cmd = "********") (PlanCommands plan).
Lemma maskDynSecPlan_hides plan : hides_passwords (maskDynSecPlan plan).
Proof.
  unfold hides_passwords, PlanCommands, maskDynSecPlan. apply Forall_forall. intros cmd (ch & Hcmd & (ch' & -> & _)%list_elem_of_fmap)%list_elem_of_bind.
  apply list_elem_of_fmap in Hcmd as (cmd' & -> & _). apply masked_password.
Qed.
Lemma Redacted_passwords doc : Forall (λ cl, cl_password cl = "") (d_clients (Redacted doc)).
Proof. cbn. apply Forall_fmap, Forall_forall. by intros. Qed.

(** The groups of the clients play no part in a plan. *)
Lemma FindClient_normalized d name : FindClient (NormalizeDocument d) name = None ↔ FindClient d name = None.
Proof. unfold FindClient. rewrite !find_none. by rewrite normalized_names. Qed.
Lemma plan_normalized current d : BuildPlan current (NormalizeDocument d) = BuildPlan current d.
Proof.
  assert (∀ l : list Client, filter (λ cl, FindClient (NormalizeDocument d) (cl_name cl) = None) l = filter (λ cl, FindClient d (cl_name cl) = None) l) as Hf.
  { intros l. apply list_filter_iff. intros cl. apply FindClient_normalized. }
  unfold BuildPlan. f_equal. f_equal. f_equal; [|f_equal].
  - cbn. by rewrite list_fmap_bind.
  - apply list_bind_ext; [|done]. intros g. unfold plan_membership, deleted_clients. by rewrite Hf.
  - unfold plan_deletes. by rewrite Hf.
Qed.

Lemma random_peeks : moves peeks (on_world random_bytes).
Proof. intros b. constructor; [apply on_world_calm, random_verdicts|done|done|..]; unfold on_world, zoom, random_bytes; by destruct (w_random (bw_world b)). Qed.
Lemma wp_store_plan actor kind base envelope (Φ : dworld W → result dynsec_error string → Prop) w :
  (∀ b e, calm (dw_broker w) b → Φ (set_broker b w) (Err e)) →
  (∀ b id created, calm (dw_broker w) b → bw_revisions b = bw_revisions (dw_broker w) → dw_plans w !! id = None →
     Φ (mkDWorld b (dw_channel w) (<[id := mkDynSecPlan id actor kind base envelope (en_desired envelope) (cf_username cfg) created None]> (dw_plans w)) (dw_trail w)) (Ok id)) →
  wp (store_plan c actor kind base envelope) Φ w.
Proof.
  intros He Hok. unfold store_plan. apply wp_bind. unfold on_broker at 1. apply wp_zoom.
  eapply (wp_moves peeks); [unfold new_revision_id; repeat moves_step; apply random_peeks|]. intros b [id|e] Hb; [|apply He, Hb].
  apply wp_bind. unfold on_broker. apply wp_zoom. eapply (wp_moves peeks); [apply peeks_clock|]. intros b' [t|e] Hb'; [|apply (He b'); etrans; [apply Hb|apply Hb']].
  cbn [dw_broker set_broker] in Hb'. assert (peeks (dw_broker w) b') as [Hcalm Hrevs _ _ _] by by etrans.
  assert (∀ d, calm (dw_broker w) (set_world (set_db d (bw_world b')) b')) as Hd.
  { intros d. etrans; [exact Hcalm|]. constructor; [apply same_fs_refl|done|done]. }
  apply wp_bind, wp_on_plans, wp_InsertDynSecPlan; [intros; by apply (He (set_world _ b'))|]. intros d created Hnew. apply wp_ret. by apply Hok.
Qed.

(** The row of a plan with no password in any of its columns: the envelope's
    plan, document and credentials, and the document column. *)
Definition secretless (stored : DynSecPlan) : Prop :=
  hides_passwords (en_plan (sp_plan stored))
  ∧ Forall (λ cl, cl_password cl = "") (d_clients (en_desired (sp_plan stored)))
  ∧ en_adopted (sp_plan stored) = []
  ∧ Forall (λ cl, cl_password cl = "") (d_clients (sp_desired stored)).
(** The plan that a preview stores: from the state that was read to the requested
    document, bound to the state, with_guard, the one that is shown, and without a
    password. *)
Record previewed (actor : string) (desired current : Document) (stored : DynSecPlan) (p : DynSecPreviewResult) : Prop := {
  pv_valid : Validate desired = [];
  pv_guard : gu_ok (CheckControlChannel (NormalizeDocument desired) (cf_username cfg)) = true;
  pv_pending : sp_applied stored = None;
  pv_names : sp_id stored = dp_plan_id p ∧ sp_actor stored = actor ∧ sp_kind stored = "update" ∧ sp_management stored = cf_username cfg;
  pv_base : sp_base_hash stored = dynsecStateHash current;
  pv_update : en_revision (sp_plan stored) = "";
  pv_plan : en_plan (sp_plan stored) = maskDynSecPlan (BuildPlan current desired);
  pv_desired : en_desired (sp_plan stored) = Redacted (NormalizeDocument desired) ∧ sp_desired stored = Redacted (NormalizeDocument desired);
  pv_shown : dp_plan p = en_plan (sp_plan stored) ∧ dp_credentials p = [];
  pv_hides : secretless stored
}.
Lemma wp_preview_locked actor backend desired w : Validate desired = [] →
  wp (preview_locked c actor backend (NormalizeDocument desired)) (λ w' r, match r with Ok p => calm (dw_broker w) (dw_broker w')
    ∧ ∃ current stored, Read (dw_channel w) = (dw_channel w', Ok current)
      ∧ dw_plans w' = <[dp_plan_id p := stored]> (dw_plans w) ∧ dw_plans w !! dp_plan_id p = None ∧ previewed actor desired current stored p
    | Err _ => True end) w.
Proof.
  intros Hv. unfold preview_locked. apply wp_bind. unfold on_channel. apply wp_zoom. unfold wp at 1.
  destruct (Read (dw_channel w)) as [ch1 [current|e]] eqn:Hread; [|done]. cbn [fst snd]. cbv zeta. unfold with_guard. rewrite plan_normalized.
  destruct (gu_ok _) eqn:Hg; [|done]. apply wp_bind, wp_store_plan; [done|]. intros b id created Hb _ Hnew.
  apply wp_bind. unfold wp, audit, modify. cbn [fst snd]. unfold mret, io_ret. cbn [fst snd]. split; [done|].
  eexists current, _. split; [done|]. split; [done|]. split; [done|]. constructor; try done. split_and!; [apply maskDynSecPlan_hides|apply Redacted_passwords|done|apply Redacted_passwords].
Qed.

(** ** Properties *)

(** [C18] An apply of a reviewed change either sends nothing to the plugin but
    readings and changes no plan, or every check passed first: the plan was
    pending, the document is the reviewed one or was validated, the state is the
    one of the preview, the plan recomputed from the state that was read is the
    reviewed one, and the guard of the control channel holds; then exactly the
    commands of that plan are sent, and a failure of the service leaves the plan
    pending. *)
Theorem ApplyDynSec_gate actor planID desired w :
  let '(w', r) := ApplyDynSec c quote actor planID desired w in refused w w' r ∨ ran planID desired w w' r.
Proof. pose proof (ApplyDynSec_cases actor planID desired w) as Hc. destruct (ApplyDynSec _ _ _ _ _ w) as [w' r]. tauto. Qed.

(** An apply that succeeds answers with the state the broker was read back
    in: it agrees with the requested document, the guard holds of it, no password
    is in the answer, the plan is consumed, and no configuration was deployed for
    a plan that is not an adoption. *)
Theorem ApplyDynSec_verified actor planID desired w w' res : ApplyDynSec c quote actor planID desired w = (w', Ok res) →
  ∃ stored effective actual, dw_plans w !! planID = Some stored ∧ sp_applied stored = None ∧ consumed planID stored w w'
    ∧ effective = default (en_desired (sp_plan stored)) desired ∧ Verify effective actual = []
    ∧ gu_ok (CheckControlChannel actual (cf_username cfg)) = true
    ∧ da_document res = Redacted actual ∧ Forall (λ cl, cl_password cl = "") (d_clients (da_document res))
    ∧ (en_revision (sp_plan stored) = "" → da_deployment res = None).
Proof.
  intros Ha. pose proof (ApplyDynSec_cases actor planID desired w) as Hc. rewrite Ha in Hc.
  destruct Hc as [[_ [e [=]]]|[(stored & ch & ch1 & current & effective & Hp & _ & _ & Hacc & _ & Hout) Hdep]].
  destruct (DynsecService.Apply ch1 _ effective) as [ch2 [actual|e]]; [|by cbn in Hout].
  destruct Hout as (Hv & Hcons & Hg & _ & Hdoc & _). exists stored, effective, actual. split_and!; try done; try apply Hacc; [|by apply Hdep].
  rewrite Hdoc. cbn. apply Forall_fmap, Forall_forall. by intros.
Qed.

(** [C19] A plan is applied at most once: after an apply whose plan was consumed,
    whatever the service does in between, another apply of that plan fails,
    sends nothing but readings to the plugin and changes no plan. *)
Theorem plan_applied_once actor actor' planID desired desired' w w1 w2 res :
  ApplyDynSec c quote actor planID desired w = (w1, Ok res) → dynsec_steps w1 w2 →
  let '(w3, r) := ApplyDynSec c quote actor' planID desired' w2 in refused w2 w3 r.
Proof.
  intros Ha Hs. pose proof (ApplyDynSec_cases actor planID desired w) as Hc. rewrite Ha in Hc.
  destruct Hc as [[_ [e [=]]]|[(stored & ch & ch1 & current & effective & Hp & _ & _ & _ & _ & Hout) _]].
  destruct (DynsecService.Apply ch1 _ effective) as [ch2 [actual|e]]; [|by cbn in Hout]. destruct Hout as (_ & [t Hcons] & _).
  assert (dw_plans w2 !! planID = Some (stored_plan (sp_created stored) (Some t) stored)) as H2.
  { apply (steps_grow _ _ Hs); [|by cbn; eauto]. by rewrite Hcons, lookup_insert_eq. }
  pose proof (ApplyDynSec_cases actor' planID desired' w2) as Hc'. destruct (ApplyDynSec _ _ _ _ _ w2) as [w3 r].
  destruct Hc' as [Hr|[(stored' & ? & ? & ? & ? & Hp' & _ & _ & [Hpend _ _ _ _ _] & _) _]]; [done|]. rewrite H2 in Hp'. by injection Hp' as <-.
Qed.

(** [C20] A preview of a change leaves the broker and its files alone and sends
    the plugin nothing but one reading.  The plan that is stored is the one shown
    to the operator: it leads from the state that was read to the requested
    document, the guard holds of it, it is bound to the fingerprint of that state
    and to the operator, and the document column and the envelope hold the
    normalised request without passwords.  No column of the row holds a password:
    not the commands of the plan, not the two documents, and the list of adopted
    credentials is empty. *)
Theorem PreviewDynSec_reviewed actor desired w w' p : PreviewDynSec c actor desired w = (w', Ok p) →
  calm (dw_broker w) (dw_broker w')
  ∧ ∃ b ch ch1 current stored, open_channel b (dw_channel w) = (ch, true) ∧ Read ch = (ch1, Ok current) ∧ dw_channel w' = close_channel ch1
    ∧ dw_plans w' = <[dp_plan_id p := stored]> (dw_plans w) ∧ dw_plans w !! dp_plan_id p = None ∧ previewed actor desired current stored p.
Proof.
  enough (wp (PreviewDynSec c actor desired) (λ w' r, match r with Ok p => calm (dw_broker w) (dw_broker w')
    ∧ ∃ b ch ch1 current stored, open_channel b (dw_channel w) = (ch, true) ∧ Read ch = (ch1, Ok current) ∧ dw_channel w' = close_channel ch1
      ∧ dw_plans w' = <[dp_plan_id p := stored]> (dw_plans w) ∧ dw_plans w !! dp_plan_id p = None ∧ previewed actor desired current stored p
    | Err _ => True end) w) as Hwp by (intros E; unfold wp in Hwp; by rewrite E in Hwp).
  unfold PreviewDynSec, with_plugin_catalog. destruct (dc_plugins c) as [cat|]; [|done]. destruct (decide _); [done|].
  unfold with_factory, with_plan_store. destruct (dc_factory c); [|done]. destruct (dc_store c); [|done].
  unfold with_valid. destruct (Validate desired) eqn:Hv; [|done]. cbv zeta. apply wp_bind. unfold on_broker. apply wp_zoom.
  apply wp_read_broker; [|done]. intros b1 body f Hb1 _ _. destruct (decide _); [done|].
  unfold wp, with_channel. cbn [dw_channel dw_broker set_broker]. destruct (open_channel b1 (dw_channel w)) as [ch []] eqn:Hopen; [|done].
  pose proof (wp_preview_locked actor (DetectAccessBackend f (Some cat)) desired (set_channel ch (set_broker b1 w)) Hv) as Hwp. unfold wp in Hwp.
  destruct (preview_locked _ _ _ _ _) as [w2 [q|e]]; [|done]. destruct Hwp as (Hcalm & current & stored & Hr & Hp & Hnew & Hpv).
  split; [by etrans|]. exists b1, ch, (dw_channel w2), current, stored. by split_and!.
Qed.
End proofs.
