(* ===== verification/DynsecAdoptProofs.v ===== *)
(** * What the migration to the dynamic security plugin promises

    Every client of the adopted document carries exactly the access entries of the
    rules that apply to its user; the document validates exactly when its names and
    topics do and the names the rules get are distinct; the management account
    reaches the control channel, and the report on everybody else is given in terms
    of the rules of the file backend. *)
From S2P Require Import Prelude Unicode GoStrings GoStrconv GoPath Hash GoJson Passwd Acl Catalog CatalogLoad Conf ConfEdit Include Settings Plugins.
From S2P Require Import Store BrokerStore PluginDeploy Dynsec DynsecPlan DynsecService DynsecJson DynsecAdopt.

(** ** The rules as roles *)
Definition migrated (rules : list Rule) : list Rule := filter (λ r, dynsecACLsForRule r ≠ []) rules.
Definition role_of (rule : Rule) : Role := mkRole (dynsecRoleName rule) (r_description rule) (r_description rule) (dynsecACLsForRule rule).
Definition user_rules (username : string) (rules : list Rule) : list Rule :=
  filter (λ r, EffectiveSelector r = SelectorUser ∧ r_principal r = username) (migrated rules).
Definition selected (selector : string) (rules : list Rule) : list Rule := filter (λ r, EffectiveSelector r = selector) (migrated rules).

Lemma filter_snoc {A} (P : A → Prop) `{!∀ x, Decision (P x)} l x : filter P (l ++ [x]) = filter P l ++ (if decide (P x) then [x] else []).
Proof. by rewrite filter_app, filter_cons, filter_nil. Qed.
Lemma migrate_spec rules :
  let m := migrateACLToDynsec rules in
  mg_roles m = role_of <$> migrated rules
  ∧ (∀ u, default [] (mg_by_user m !! u) = dynsecRoleName <$> user_rules u rules)
  ∧ mg_pattern m = dynsecRoleName <$> selected SelectorPattern rules
  ∧ mg_anonymous m = dynsecRoleName <$> selected SelectorAnonymous rules.
Proof.
  cbv zeta. induction rules as [|rule rules IH] using rev_ind; [by split_and!|].
  unfold migrateACLToDynsec in *. rewrite foldl_app. cbn [foldl]. set (m := foldl migrate_rule _ rules) in *.
  assert (migrated (rules ++ [rule]) = migrated rules ++ match dynsecACLsForRule rule with [] => [] | _ => [rule] end) as Hsnoc.
  { unfold migrated. rewrite filter_snoc. destruct (decide _), (dynsecACLsForRule rule); [done..|]. by destruct n. }
  unfold migrate_rule, user_rules, selected in *. setoid_rewrite Hsnoc. destruct IH as (Hroles & Huser & Hpat & Hanon).
  destruct (dynsecACLsForRule rule) as [|e es] eqn:He.
  { by rewrite app_nil_r. }
  setoid_rewrite filter_snoc. setoid_rewrite fmap_app. setoid_rewrite <-Huser. rewrite <-Hroles, <-Hpat, <-Hanon.
  assert (role_of <$> [rule] = [mkRole (dynsecRoleName rule) (r_description rule) (r_description rule) (e :: es)]) as -> by (cbn; unfold role_of; by rewrite He).
  destruct (decide (EffectiveSelector rule = SelectorUser)) as [Hs|Hs], (decide (EffectiveSelector rule = SelectorAnonymous)) as [Ha|Ha],
    (decide (EffectiveSelector rule = SelectorPattern)) as [Hp|Hp];
    try (by rewrite Hs in Ha); try (by rewrite Hs in Hp); try (by rewrite Ha in Hp);
    cbn [mg_roles mg_by_user mg_pattern mg_anonymous]; (split_and!; [done|intros u|by rewrite ?app_nil_r..]);
    try (rewrite decide_False by tauto; by rewrite app_nil_r).
  destruct (decide (r_principal rule = u)) as [<-|Hu]; [by rewrite lookup_insert_eq, decide_True|].
  rewrite lookup_insert_ne by done. rewrite decide_False by tauto. by rewrite app_nil_r.
Qed.

(** ** The names of the roles *)
Definition role_byte (ch : ascii) : bool := name_rune (byte_val ch).
Lemma role_byte_ok ch : role_byte ch = true → name_byte ch = true ∧ is_ascii ch && negb (is_space (byte_val ch)) = true.
Proof.
  assert (implb (role_byte ch) (name_byte ch && (is_ascii ch && negb (is_space (byte_val ch)))) = true) as Hall
    by (destruct ch as [[] [] [] [] [] [] [] []]; vm_compute; reflexivity).
  intros Hb. rewrite Hb in Hall. by apply andb_true_iff in Hall.
Qed.
Lemma all_bytes_trim P cut s : all_bytes P s = true → all_bytes P (trim_right_bytes cut s) = true.
Proof. induction s as [|ch s IH]; [done|]. cbn [trim_right_bytes]. intros [Hc Hs]%andb_true_iff. case_match; [done|]. simpl. by rewrite Hc, IH. Qed.
Lemma name_rune_bytes r : name_rune r = true → all_bytes role_byte (encode_rune r) = true.
Proof.
  intros Hr. assert (0 ≤ r < 128)%Z as Hrange.
  { unfold name_rune, in_range in Hr. rewrite !orb_true_iff, !andb_true_iff, bool_decide_eq_true in Hr. lia. }
  unfold encode_rune. unfold in_range. rewrite (proj2 (Z.ltb_lt r 128)), (proj2 (Z.ltb_ge r 0)), (proj2 (Z.leb_gt 55296 r)), (proj2 (Z.ltb_ge 1114111 r)) by lia.
  cbn. unfold role_byte. rewrite val_byte by lia. by rewrite Hr.
Qed.
Lemma sanitize_bytes value : all_bytes role_byte (sanitizeDynsecName value) = true.
Proof.
  unfold sanitizeDynsecName, trim_dashes. apply all_bytes_trim.
  set (s := foldr _ _ _). assert (all_bytes role_byte s = true) as Hs.
  { subst s. induction (runes _) as [|r rs IH]; [done|]. cbn [foldr]. rewrite all_bytes_app, IH, andb_true_r.
    destruct (name_rune r) eqn:E; [by apply name_rune_bytes|done]. }
  destruct (trim_left_blanks is_dash s) as (p & Hp & _). rewrite Hp, all_bytes_app in Hs. by apply andb_true_iff in Hs as [_ Hs].
Qed.
Lemma role_name_bytes rule : all_bytes role_byte (dynsecRoleName rule) = true ∧ dynsecRoleName rule ≠ "".
Proof.
  unfold dynsecRoleName. destruct (decide _); [|destruct (decide _)]; rewrite !all_bytes_app, !sanitize_bytes; (split; [by vm_compute|done]).
Qed.
Lemma role_name_valid rule : validObjectName (dynsecRoleName rule) = true.
Proof.
  destruct (role_name_bytes rule) as [Hb Hne]. apply validObjectName_spec. rewrite trim_space_word.
  - split; [done|]. eapply all_bytes_impl; [|exact Hb]. by intros ch [? _]%role_byte_ok.
  - apply no_space_ascii. eapply all_bytes_impl; [|exact Hb]. by intros ch [_ ?]%role_byte_ok.
Qed.
(** No rule is given the name of the management role. *)
Lemma role_name_not_management rule : dynsecRoleName rule ≠ ManagementRoleName.
Proof. unfold dynsecRoleName. destruct (decide _); [|destruct (decide _)]; done. Qed.

(** ** What the clients of the adopted document may do *)

(** The entries of the roles a client carries, directly or through its groups. *)
Definition decides (doc : Document) (cl : Client) (e : ACL) : Prop := ∃ r, r ∈ d_roles doc ∧ carries doc cl (ro_name r) ∧ e ∈ ro_acls r.
(** The rules the file backend reads for a user name. *)
Definition speaks_for (rule : Rule) (username : string) : Prop :=
  EffectiveSelector rule = SelectorUser ∧ r_principal rule = username ∨ EffectiveSelector rule = SelectorPattern.

Lemma elem_of_migrated rule rules : rule ∈ migrated rules ↔ rule ∈ rules ∧ dynsecACLsForRule rule ≠ [].
Proof. unfold migrated. rewrite list_elem_of_filter. tauto. Qed.
Lemma migrated_entry rule rules e : rule ∈ rules → e ∈ dynsecACLsForRule rule → rule ∈ migrated rules.
Proof. intros Hr He. apply elem_of_migrated. split; [done|]. intros Hn. rewrite Hn in He. by apply elem_of_nil in He. Qed.
Lemma elem_of_adopted_roles rules username name :
  name ∈ adopted_roles (migrateACLToDynsec rules) username ↔ ∃ rule, rule ∈ migrated rules ∧ speaks_for rule username ∧ dynsecRoleName rule = name.
Proof.
  destruct (migrate_spec rules) as (_ & Huser & Hpat & _). unfold adopted_roles. rewrite elem_of_app, elem_of_sort_strings, Huser, Hpat, !list_elem_of_fmap.
  unfold user_rules, selected, speaks_for. setoid_rewrite list_elem_of_filter. setoid_rewrite elem_of_migrated. clear. split.
  - intros [(x & -> & ? & ? & ?)|(x & -> & ? & ? & ?)]; exists x; tauto.
  - intros (x & ? & [?|?] & <-); [left|right]; exists x; tauto.
Qed.

Section adopted.
Context (rules : list Rule) (username password : string) (users : list (MQTTUser * string)).
Context (Hmanagement : Forall (λ x, u_username x.1 ≠ username) users).
Local Abbreviation m := (migrateACLToDynsec rules).
Definition migrated_clients : list Client := (λ x, adopted_client (migrateACLToDynsec rules) x.1 x.2) <$> users.
Definition the_document : Document := adopted_document (migrateACLToDynsec rules) username password migrated_clients.

Lemma document_clients cl : cl ∈ d_clients the_document ↔ ∃ cl0, cl = sort_client cl0 ∧
  (cl0 = managementClient username password ∨ ∃ x, x ∈ users ∧ cl0 = adopted_client m x.1 x.2).
Proof.
  unfold the_document, adopted_document. cbn [d_clients SortDocument]. rewrite list_elem_of_fmap. setoid_rewrite elem_of_sort_stable.
  setoid_rewrite elem_of_cons. unfold migrated_clients. setoid_rewrite list_elem_of_fmap.
  split; (intros (y & -> & [Hy|(x & ? & ?)]); exists y; (split; [done|]); [by left|right; by exists x]).
Qed.
Lemma document_roles r : r ∈ d_roles the_document ↔ ∃ r0, r = sort_role r0 ∧ (r0 = managementRole ∨ ∃ rule, rule ∈ migrated rules ∧ r0 = role_of rule).
Proof.
  unfold the_document, adopted_document. cbn [d_roles SortDocument]. rewrite list_elem_of_fmap. setoid_rewrite elem_of_sort_stable.
  rewrite (proj1 (migrate_spec rules)). setoid_rewrite elem_of_app. setoid_rewrite list_elem_of_fmap. setoid_rewrite list_elem_of_singleton.
  split; (intros (y & -> & [Hy|Hy]); exists y; (split; [done|]); [right|left]; try done; destruct Hy as (x & ? & ?); by exists x).
Qed.
Lemma document_role_names : ro_name <$> d_roles the_document ≡ₚ ManagementRoleName :: (dynsecRoleName <$> migrated rules).
Proof.
  unfold the_document, adopted_document. cbn [d_roles SortDocument]. rewrite <-list_fmap_compose. change (ro_name ∘ sort_role) with ro_name.
  rewrite sort_stable_perm, (proj1 (migrate_spec rules)), fmap_app, <-list_fmap_compose. by rewrite Permutation_app_comm.
Qed.
Lemma document_client_names : cl_name <$> d_clients the_document ≡ₚ username :: (u_username ∘ fst <$> users).
Proof.
  unfold the_document, adopted_document. cbn [d_clients SortDocument]. rewrite <-list_fmap_compose. change (cl_name ∘ sort_client) with cl_name.
  rewrite sort_stable_perm, fmap_cons. unfold migrated_clients. by rewrite <-list_fmap_compose.
Qed.
Lemma document_groups : d_groups the_document = sort_group <$> adopted_groups m.
Proof. unfold the_document, adopted_document. cbn [d_groups SortDocument]. f_equal. unfold adopted_groups. by destruct (mg_anonymous m). Qed.
Lemma document_anonymous : mg_anonymous m = [] ∧ d_anonymous the_document = "" ∧ d_groups the_document = []
  ∨ mg_anonymous m ≠ [] ∧ d_anonymous the_document = AnonymousGroupName
    ∧ d_groups the_document = [mkGroup AnonymousGroupName "Anonymous clients" "" (sort_stable (by_name rr_name) (role_ref <$> sort_strings (mg_anonymous m))) []].
Proof. rewrite document_groups. unfold the_document, adopted_document, adopted_groups. destruct (mg_anonymous m) as [|n ns]; [by left|by right]. Qed.
(** No group of the document lists a client and no client lists a group. *)
Lemma document_members cl g : cl ∈ d_clients the_document → ¬ in_group the_document cl g.
Proof.
  intros (cl0 & -> & Hcl)%document_clients [Hg Hin].
  destruct document_anonymous as [(_ & _ & Hd)|(_ & _ & Hd)]; rewrite Hd in Hg; [by apply elem_of_nil in Hg|].
  apply list_elem_of_singleton in Hg as ->. destruct Hin as [Hin|Hin]; [by apply elem_of_nil in Hin|].
  cbn [cl_groups sort_client] in Hin. destruct Hcl as [->|(x & _ & ->)]; by apply elem_of_nil in Hin.
Qed.
Lemma document_carries cl0 name : sort_client cl0 ∈ d_clients the_document →
  carries the_document (sort_client cl0) name ↔ name ∈ rr_name <$> cl_roles cl0.
Proof.
  intros Hin. unfold carries. cbn [cl_roles sort_client]. rewrite !list_elem_of_fmap. setoid_rewrite elem_of_sort_stable. split; [|by left].
  intros [H|(g & Hg & _)]; [done|]. by destruct (document_members _ _ Hin Hg).
Qed.
Lemma document_mirrored : mirrored the_document.
Proof. intros cl g Hcl Hg Hin. exfalso. apply (document_members cl g Hcl). split; [done|by left]. Qed.
Lemma document_group_names : NoDup (gp_name <$> d_groups the_document).
Proof. destruct document_anonymous as [(_ & _ & ->)|(_ & _ & ->)]; refine (bool_decide_unpack _ _); by vm_compute. Qed.

Lemma document_decides (Hnames : NoDup (dynsecRoleName <$> migrated rules)) cl e : cl ∈ d_clients the_document →
  decides the_document cl e ↔
    if decide (cl_name cl = username) then e ∈ ro_acls managementRole
    else ∃ rule, rule ∈ rules ∧ speaks_for rule (cl_name cl) ∧ e ∈ dynsecACLsForRule rule.
Proof.
  intros Hcl0. pose proof Hcl0 as (cl0 & -> & Hcl)%document_clients.
  assert (∀ r0, carries the_document (sort_client cl0) (ro_name (sort_role r0)) ↔ ro_name r0 ∈ rr_name <$> cl_roles cl0) as Hcarry
    by (intros r0; by rewrite document_carries).
  unfold decides. setoid_rewrite document_roles. cbn [cl_name sort_client].
  destruct Hcl as [->|([user pw] & Hx & ->)].
  - cbn [cl_name managementClient]. rewrite decide_True by done. split.
    + intros (r & (r0 & -> & Hr) & Hc & He). rewrite Hcarry in Hc. cbn in Hc. apply list_elem_of_singleton in Hc.
      cbn [ro_acls sort_role] in He. rewrite elem_of_sort_stable in He. destruct Hr as [->|(rule & _ & ->)]; [done|].
      by destruct (role_name_not_management rule).
    + intros He. exists (sort_role managementRole). split; [by exists managementRole; split; [|left]|]. rewrite Hcarry. cbn [ro_acls sort_role].
      rewrite elem_of_sort_stable. split; [by left|done].
  - rewrite Forall_forall in Hmanagement. specialize (Hmanagement _ Hx). cbn [cl_name adopted_client fst snd]. cbn in Hmanagement. rewrite decide_False by done.
    assert (rr_name <$> (role_ref <$> adopted_roles m (u_username user)) = adopted_roles m (u_username user)) as Hrefs
      by (rewrite <-list_fmap_compose; apply list_fmap_id). split.
    + intros (r & (r0 & -> & Hr) & Hc & He). rewrite Hcarry in Hc. cbn [cl_roles adopted_client fst snd] in Hc. rewrite Hrefs in Hc.
      apply elem_of_adopted_roles in Hc as (rule & Hrule & Happ & Hname). cbn [ro_acls sort_role] in He. rewrite elem_of_sort_stable in He.
      destruct Hr as [->|(rule' & Hrule' & ->)]; [by destruct (role_name_not_management rule)|]. cbn in Hname, He.
      rewrite (NoDup_key _ _ rule rule' Hnames) in Happ by done. apply elem_of_migrated in Hrule' as [? _]. by exists rule'.
    + intros (rule & Hrule & Happ & He). pose proof (migrated_entry _ _ _ Hrule He) as Hm.
      exists (sort_role (role_of rule)). split; [exists (role_of rule); split; [done|right; by exists rule]|]. rewrite Hcarry. cbn [cl_roles adopted_client fst snd].
      rewrite Hrefs. split; [apply elem_of_adopted_roles; by exists rule|]. cbn [ro_acls sort_role]. by rewrite elem_of_sort_stable.
Qed.

Lemma document_names_distinct : Validate the_document = [] → NoDup (dynsecRoleName <$> migrated rules).
Proof. intros [_ _ [Hnd _] _ _ _ _ _ _]%Validate_spec. rewrite document_role_names in Hnd. by apply NoDup_cons in Hnd as [_ ?]. Qed.

(** *** The control channel *)
Definition grants_access (rule : Rule) : Prop := r_permission rule ∈ [PermissionRead; PermissionWrite; PermissionReadWrite].
(** The rule is no anonymous rule and applies to no migrated user. *)
Definition reaches_nobody (rule : Rule) : Prop :=
  EffectiveSelector rule ≠ SelectorAnonymous ∧ ∀ x, x ∈ users → ¬ speaks_for rule (u_username x.1).
(** The rule opens the channel, as the code judges its topic. *)
Definition opens_channel (rule : Rule) : Prop := grants_access rule ∧ topicReachesControlChannel (r_topic_filter rule) = true.
Lemma rule_opens rule : (∃ e, e ∈ dynsecACLsForRule rule ∧ reaching_entry e) ↔ opens_channel rule.
Proof.
  unfold opens_channel, grants_access, dynsecACLsForRule, reaching_entry. cbv zeta. rewrite !elem_of_cons, elem_of_nil. clear.
  destruct (decide (r_permission rule = PermissionWrite)) as [->|Hw]; [|destruct (decide (r_permission rule = PermissionRead)) as [->|Hr];
    [|destruct (decide (r_permission rule = PermissionReadWrite)) as [->|Hrw]]].
  1-3: (split; [intros (e & He & _ & _ & Ht); split; [tauto|]; repeat (apply elem_of_cons in He as [->|He]; [done|]); by apply elem_of_nil in He
      |intros [_ Ht]; eexists; split; [by left|]; split_and!; [done|refine (bool_decide_unpack _ _); by vm_compute|done]]).
  split; [|tauto]. destruct (decide (r_permission rule = PermissionDeny)) as [Hd|Hd]; intros (e & He & Ha & _); repeat (apply elem_of_cons in He as [->|He]; [done|]); by apply elem_of_nil in He.
Qed.
Lemma client_reaches_decides cl : cl ∈ d_clients the_document →
  client_reaches the_document cl = true ↔ ∃ e, decides the_document cl e ∧ reaching_entry e.
Proof.
  intros Hin. rewrite (client_reaches_spec _ _ document_group_names document_mirrored Hin). setoid_rewrite roleGrants_spec. unfold decides. clear. split.
  - intros (r & ? & ? & e & ? & ?). exists e. split; [by exists r|done].
  - intros (e & (r & ? & ? & ?) & ?). exists r. split_and!; [done..|by exists e].
Qed.

Lemma anonymous_refs ref : ref ∈ sort_stable (by_name rr_name) (role_ref <$> sort_strings (mg_anonymous m)) ↔
  ∃ rule, rule ∈ migrated rules ∧ EffectiveSelector rule = SelectorAnonymous ∧ ref = role_ref (dynsecRoleName rule).
Proof.
  destruct (migrate_spec rules) as (_ & _ & _ & ->). rewrite elem_of_sort_stable, list_elem_of_fmap. setoid_rewrite elem_of_sort_strings.
  setoid_rewrite list_elem_of_fmap. unfold selected. setoid_rewrite list_elem_of_filter. setoid_rewrite elem_of_migrated. clear. split.
  - intros (n & -> & rule & -> & ? & ? & ?). by exists rule.
  - intros (rule & [? ?] & ? & ->). exists (dynsecRoleName rule). split; [done|]. by exists rule.
Qed.
Lemma document_group_reaches (Hnames : NoDup (dynsecRoleName <$> migrated rules)) :
  d_anonymous the_document ≠ "" ∧ group_reaches the_document (d_anonymous the_document) = true ↔
  ∃ rule, rule ∈ rules ∧ EffectiveSelector rule = SelectorAnonymous ∧ opens_channel rule.
Proof.
  assert (∀ rule r0, (r0 = managementRole ∨ ∃ rule, rule ∈ migrated rules ∧ r0 = role_of rule) → rule ∈ migrated rules → ro_name r0 = dynsecRoleName rule → r0 = role_of rule) as Huniq.
  { intros rule r0 [->|(rule' & Hr & ->)] Hm Heq; [by destruct (role_name_not_management rule)|]. cbn in Heq. by rewrite (NoDup_key _ _ rule' rule Hnames). }
  destruct document_anonymous as [(Hm & -> & _)|(Hm & -> & Hg)].
  - split; [by intros []|]. intros (rule & Hr & Hs & Ho). exfalso. destruct (migrate_spec rules) as (_ & _ & _ & Hanon). rewrite Hm in Hanon.
    assert (rule ∈ selected SelectorAnonymous rules) as Hin.
    { apply list_elem_of_filter. split; [done|]. apply rule_opens in Ho as (e & He & _). by eapply migrated_entry. }
    symmetry in Hanon. apply fmap_nil_inv in Hanon. rewrite Hanon in Hin. by apply elem_of_nil in Hin.
  - unfold group_reaches, FindGroup. rewrite Hg, filter_cons_True by done. cbn [head gp_roles]. rewrite refs_reach_spec. setoid_rewrite anonymous_refs. setoid_rewrite document_roles. setoid_rewrite roleGrants_spec. split.
    + intros [_ (ref & r & (rule & Hr & Hs & ->) & (r0 & -> & Hr0) & Hname & e & He & Hreach)]. cbn [ro_name ro_acls sort_role rr_name role_ref] in Hname, He. rewrite elem_of_sort_stable in He.
      rewrite (Huniq rule r0) in He by done. exists rule. split; [by apply elem_of_migrated in Hr as [? _]|]. split; [done|]. apply rule_opens. by exists e.
    + intros (rule & Hr & Hs & (e & He & Hreach)%rule_opens). split; [done|]. pose proof (migrated_entry _ _ _ Hr He) as Hmig.
      exists (role_ref (dynsecRoleName rule)), (sort_role (role_of rule)). split_and!; [by exists rule|exists (role_of rule); split; [done|right; by exists rule]|done|].
      exists e. split; [|done]. cbn [ro_acls sort_role role_of]. by rewrite elem_of_sort_stable.
Qed.

(** The report of the adopted document, as the code judges the topics. *)
Lemma document_guard : username ≠ "" → NoDup (dynsecRoleName <$> migrated rules) →
  gu_ok (CheckControlChannel the_document username) = true ↔
  ∀ rule, rule ∈ rules → opens_channel rule → reaches_nobody rule.
Proof.
  intros Hne Hv. rewrite CheckControlChannel_ok. assert (∀ cl, cl ∈ d_clients the_document → cl_name cl ≠ username →
    client_reaches the_document cl = true ↔ ∃ rule, rule ∈ rules ∧ speaks_for rule (cl_name cl) ∧ opens_channel rule) as Hreach.
  { intros cl Hcl Hname. rewrite client_reaches_decides by done. split.
    - intros (e & He & Hr). rewrite document_decides, decide_False in He by done. destruct He as (rule & ? & ? & He). exists rule. split_and!; [done..|]. apply rule_opens. by exists e.
    - intros (rule & ? & ? & (e & He & Hr)%rule_opens). exists e. split; [|done]. rewrite document_decides, decide_False by done. by exists rule. }
  pose proof Hmanagement as Hmgmt. rewrite Forall_forall in Hmgmt. split.
  - intros (Hcl & Hanon & _) rule Hr Ho. split.
    + intros Hs. destruct (proj2 (document_group_reaches Hv)) as [Hd Hg]; [by exists rule|]. by rewrite (Hanon Hd) in Hg.
    + intros x Hx Happ. assert (sort_client (adopted_client m x.1 x.2) ∈ d_clients the_document) as Hin by (apply document_clients; eexists; split; [done|right; by exists x]).
      destruct (Hcl _ Hin) as [_ Hn]; [apply Hreach; [done|by apply Hmgmt|by exists rule]|]. by apply (Hmgmt x Hx).
  - intros Hrules. split_and!; [|..|done|done|].
    + intros cl Hcl Hr. split; [done|]. destruct (decide (cl_name cl = username)) as [|Hn]; [done|]. apply Hreach in Hr as (rule & Hin & Happ & Ho); [|done..].
      apply document_clients in Hcl as (cl0 & -> & [->|(x & Hx & ->)]); [by destruct Hn|]. by destruct (proj2 (Hrules rule Hin Ho) x Hx).
    + intros Hd. destruct (group_reaches _ _) eqn:Hg; [|done]. destruct (proj1 (document_group_reaches Hv)) as (rule & Hin & Hs & Ho); [done|]. by destruct (Hrules rule Hin Ho).
    + intros _. exists (sort_client (managementClient username password)).
      assert (sort_client (managementClient username password) ∈ d_clients the_document) as Hin by (apply document_clients; eexists; split; [done|by left]).
      split_and!; [done..|]. apply client_reaches_decides; [done|]. exists (mkACL ACLPublishClientSend ManagementRoleTopic true 0).
      rewrite document_decides, decide_True by done. split; [by left|]. split_and!; [done|refine (bool_decide_unpack _ _); by vm_compute|by vm_compute].
Qed.

Lemma missed_not_reaching f : f ∈ missed_filters → topicReachesControlChannel f = false.
Proof. intros H. repeat (apply elem_of_cons in H as [->|H]; [by vm_compute|]). by apply elem_of_nil in H. Qed.
Lemma management_access : ∃ cl, cl ∈ d_clients the_document ∧ cl_name cl = username ∧
  ∀ type, type ∈ channel_types → ∃ e, may_access the_document cl e ∧ acl_type e = type ∧ covers_control (acl_topic e).
Proof.
  exists (sort_client (managementClient username password)). assert (sort_client (managementClient username password) ∈ d_clients the_document) as Hin
    by (apply document_clients; eexists; split; [done|by left]). split; [done|]. split; [done|]. intros type Htype.
  assert (∃ e, e ∈ ro_acls managementRole ∧ acl_type e = type ∧ acl_allow e = true ∧ covers_control (acl_topic e)) as (e & He & Ht & Ha & Hc).
  { repeat (apply elem_of_cons in Htype as [->|Htype];
      [first [exists (mkACL ACLPublishClientSend ManagementRoleTopic true 0); split_and!; [by left|done|done|by vm_compute]
             |exists (mkACL ACLPublishClientReceive ManagementRoleTopic true 0); split_and!; [by right; left|done|done|by vm_compute]
             |exists (mkACL ACLSubscribePattern ManagementRoleTopic true 0); split_and!; [by right; right; left|done|done|by vm_compute]
             |exists (mkACL ACLSubscribeLiteral ControlTopic true 0); split_and!; [by right; right; right; left|done|done|by vm_compute]]|]).
    by apply elem_of_nil in Htype. }
  exists e. split; [|done]. exists ManagementRoleName. split; [apply document_carries; [done|by left]|].
  exists (sort_role managementRole). split; [apply document_roles; eexists; split; [done|by left]|]. split; [done|].
  cbn [ro_acls sort_role]. rewrite elem_of_sort_stable. split; [done|]. split; [done|]. by rewrite Ht.
Qed.

(** *** Validity *)
Lemma document_references : 
  (∀ cl ref, cl ∈ d_clients the_document → ref ∈ cl_roles cl → rr_name ref ∈ ro_name <$> d_roles the_document)
  ∧ (∀ cl, cl ∈ d_clients the_document → cl_groups cl = []).
Proof.
  setoid_rewrite document_role_names. split.
  - intros cl ref (cl0 & -> & Hcl)%document_clients Href. cbn [cl_roles sort_client] in Href. rewrite elem_of_sort_stable in Href.
    destruct Hcl as [->|(x & _ & ->)]; [apply list_elem_of_singleton in Href as ->; by left|]. right. cbn [cl_roles adopted_client] in Href.
    apply list_elem_of_fmap in Href as (n & -> & (rule & Hr & _ & <-)%elem_of_adopted_roles). by apply (list_elem_of_fmap_2 dynsecRoleName).
  - intros cl (cl0 & -> & [->|(x & _ & ->)])%document_clients; done.
Qed.
Lemma document_acls (Htopics : ∀ rule, rule ∈ migrated rules → trim_space (r_topic_filter rule) ≠ "" ∧ ValidateTopicFilter (r_topic_filter rule) = None) r e :
  r ∈ d_roles the_document → e ∈ ro_acls r → acl_ok e.
Proof.
  intros (r0 & -> & Hr)%document_roles He. cbn [ro_acls sort_role] in He. rewrite elem_of_sort_stable in He. unfold acl_ok. destruct Hr as [->|(rule & Hr & ->)].
  - repeat (apply elem_of_cons in He as [->|He]; [split_and!; [refine (bool_decide_unpack _ _); by vm_compute|by vm_compute..]|]). by apply elem_of_nil in He.
  - assert (acl_topic e = r_topic_filter rule ∧ acl_type e ∈ ACLTypes) as [-> Ht]; [|split; [done|by apply Htopics]].
    cbn [ro_acls role_of] in He. unfold dynsecACLsForRule in He. cbv zeta in He. repeat destruct (decide _);
      repeat (apply elem_of_cons in He as [->|He]; [split; [done|refine (bool_decide_unpack _ _); by vm_compute]|]); by apply elem_of_nil in He.
Qed.

Lemma document_valid :
  names_ok (username :: (u_username ∘ fst <$> users)) →
  (∀ rule, rule ∈ migrated rules → trim_space (r_topic_filter rule) ≠ "" ∧ ValidateTopicFilter (r_topic_filter rule) = None) →
  NoDup (dynsecRoleName <$> migrated rules) → Validate the_document = [].
Proof.
  intros [Hnd Hok] Htopics Hroles. apply Validate_spec. destruct document_references as [Hrefs Hgroups]. constructor.
  - split; [by rewrite document_client_names|]. apply Forall_forall. intros n. rewrite document_client_names. rewrite Forall_forall in Hok. apply Hok.
  - destruct document_anonymous as [(_ & _ & ->)|(_ & _ & ->)]; (split; [refine (bool_decide_unpack _ _); by vm_compute|by repeat constructor]).
  - split; [rewrite document_role_names; apply NoDup_cons; split; [|done]; intros (rule & Heq & _)%list_elem_of_fmap; by destruct (role_name_not_management rule)|].
    apply Forall_forall. intros n. rewrite document_role_names. intros [->|(rule & -> & _)%list_elem_of_fmap]%elem_of_cons; [by vm_compute|apply role_name_valid].
  - by apply document_acls.
  - done.
  - intros cl ref Hcl Href. rewrite (Hgroups cl Hcl) in Href. by apply elem_of_nil in Href.
  - intros g ref Hg Href. rewrite document_role_names. destruct document_anonymous as [(_ & _ & Hd)|(_ & _ & Hd)]; rewrite Hd in Hg; [by apply elem_of_nil in Hg|].
    apply list_elem_of_singleton in Hg as ->. cbn [gp_roles] in Href. apply anonymous_refs in Href as (rule & Hr & _ & ->). right. by apply (list_elem_of_fmap_2 dynsecRoleName).
  - intros g ref Hg Href. destruct document_anonymous as [(_ & _ & Hd)|(_ & _ & Hd)]; rewrite Hd in Hg; [by apply elem_of_nil in Hg|].
    apply list_elem_of_singleton in Hg as ->. by apply elem_of_nil in Href.
  - destruct document_anonymous as [(_ & -> & _)|(_ & -> & ->)]; [by left|right; by left].
Qed.
Lemma migrated_first rule : rule ∈ migrated rules → ∃ e, e ∈ dynsecACLsForRule rule ∧ acl_topic e = r_topic_filter rule.
Proof.
  intros [_ Hne]%elem_of_migrated. destruct (dynsecACLsForRule rule) as [|e es] eqn:E; [done|]. exists e. split; [by left|].
  unfold dynsecACLsForRule in E. cbv zeta in E. repeat destruct (decide _); congruence || (injection E as <- _; done).
Qed.

(** ** Properties *)

(** [C21] The migration gives every client exactly the access of its rules: when
    the adopted document is valid, the entries that decide for a client are those
    of the rules of its user name and of the pattern rules, and the management
    account is decided by the management role alone. *)
Theorem adopted_access cl e : Validate the_document = [] → cl ∈ d_clients the_document →
  decides the_document cl e ↔
    if decide (cl_name cl = username) then e ∈ ro_acls managementRole
    else ∃ rule, rule ∈ rules ∧ speaks_for rule (cl_name cl) ∧ e ∈ dynsecACLsForRule rule.
Proof. intros Hv. apply document_decides, document_names_distinct, Hv. Qed.

(** [C22] The guard of an adopted document, in terms of the rules.  When the
    document validates and its report is fine, every rule that grants access and
    whose topic filter covers the control topic, other than by one of the five
    filters with a wildcard in the second level that the guard does not
    recognise, is no anonymous rule and applies to no migrated user.  When that
    holds of every granting rule whose filter is among the control topics, save
    those five filters, the report is fine: a rule with one of them passes whoever
    it applies to.  The management account may in every case send to, receive from
    and subscribe to the control topic. *)
Theorem adopted_guard : username ≠ "" → Validate the_document = [] →
  (gu_ok (CheckControlChannel the_document username) = true →
     ∀ rule, rule ∈ rules → grants_access rule → covers_control (r_topic_filter rule) → r_topic_filter rule ∉ missed_filters → reaches_nobody rule)
  ∧ ((∀ rule, rule ∈ rules → grants_access rule → in_control_space (r_topic_filter rule) → r_topic_filter rule ∉ missed_filters → reaches_nobody rule) →
     gu_ok (CheckControlChannel the_document username) = true)
  ∧ ∃ cl, cl ∈ d_clients the_document ∧ cl_name cl = username ∧
      ∀ type, type ∈ channel_types → ∃ e, may_access the_document cl e ∧ acl_type e = type ∧ covers_control (acl_topic e).
Proof.
  intros Hne Hv%document_names_distinct. rewrite document_guard by done. split; [|split; [|apply management_access]].
  - intros H rule Hr Hgrant Hcov Hmiss. apply H; [done|]. split; [done|]. pose proof (topicReaches_exact _ Hcov) as Hex.
    destruct (topicReachesControlChannel _); [done|]. by destruct Hmiss; apply Hex.
  - intros H rule Hr [Hgrant Ht]. apply H; [done..|by apply topicReaches_space|]. intros Hmiss. by rewrite (missed_not_reaching _ Hmiss) in Ht.
Qed.

(** [C23] When the adopted document is valid: exactly when the names of the
    management account and of the users are valid object names of the plugin and
    distinct, the topic filter of every migrated rule is valid and not blank, and
    the role names that the code makes up for the rules are distinct. *)
Theorem adopted_valid :
  Validate the_document = [] ↔
  names_ok (username :: (u_username ∘ fst <$> users))
  ∧ (∀ rule, rule ∈ migrated rules → trim_space (r_topic_filter rule) ≠ "" ∧ ValidateTopicFilter (r_topic_filter rule) = None)
  ∧ NoDup (dynsecRoleName <$> migrated rules).
Proof.
  split; [|intros (? & ? & ?); by apply document_valid].
  intros Hv. split; [|split; [|by apply document_names_distinct]]; apply Validate_spec in Hv as [[Hnd Hok] _ _ Hacl _ _ _ _ _].
  - rewrite document_client_names in Hnd. split; [done|]. apply Forall_forall. intros n. rewrite <-document_client_names.
    rewrite Forall_forall in Hok. apply Hok.
  - intros rule Hr. destruct (migrated_first rule Hr) as (e & He & <-).
    assert (sort_role (role_of rule) ∈ d_roles the_document) as Hin by (apply document_roles; exists (role_of rule); split; [done|right; by exists rule]).
    assert (e ∈ ro_acls (sort_role (role_of rule))) as He' by (cbn [ro_acls sort_role role_of]; by rewrite elem_of_sort_stable).
    by destruct (Hacl _ _ Hin He') as (_ & ? & ?).
Qed.
End adopted.

(** ** The configuration of the adoption *)
Lemma backend_dynamic f cat : DetectAccessBackend f (Some cat) = AccessBackendDynamicSecurity ↔ ∃ it, it ∈ f_items f ∧ loads_plugin cat it = true.
Proof.
  unfold DetectAccessBackend. cbn [from_option]. setoid_rewrite list_elem_of_In. rewrite <-existsb_exists.
  destruct (existsb (λ it, loads_plugin cat it) (f_items f)); [done|]. split; [|done]. by destruct (existsb file_backend _).
Qed.
Lemma group_loads cat items g : g ∈ groups items → is_Some (MatchModule cat (gr_module g)) → ∃ it, it ∈ items ∧ loads_plugin cat it = true.
Proof.
  intros Hg. assert (Forall (λ g, is_Some (MatchModule cat (gr_module g)) → ∃ it, it ∈ items ∧ loads_plugin cat it = true) (groups items)) as Hall.
  { apply groups_inv; [|done]. intros i it path ms Hi Hk Hkey Hv Hm. exists it. split; [by eapply list_elem_of_lookup_2|].
    unfold loads_plugin. rewrite Hk, Hv, Hkey. cbn in Hm. by rewrite (bool_decide_true _ Hm). }
  rewrite Forall_forall in Hall. by apply Hall.
Qed.
Lemma extract_group_id cat items g : pl_id (extract_group cat items g) = from_option ps_id "" (MatchModule cat (gr_module g)).
Proof.
  unfold extract_group. assert (∀ names e, pl_id (foldl (extract_option cat items g) e names) = pl_id e) as ->; [|done].
  induction names as [|n names IH]; intros e; [done|]. cbn [foldl]. rewrite IH. unfold extract_option. cbv zeta. by destruct (_ && _).
Qed.
Lemma match_plugins_snoc cat existing claimed doc p ms claimed' : match_plugins cat existing claimed (doc ++ [p]) = Ok (ms, claimed') →
  ∃ ms1 c1 pm, ms = ms1 ++ [(p, pm)] ∧ match_plugin cat existing c1 p = Ok (pm, claimed').
Proof.
  revert claimed ms. induction doc as [|q doc IH]; intros claimed ms; cbn [match_plugins app].
  - intros ([pm c1] & Hm & [= <- <-])%result_bind_ok. by exists [], claimed, pm.
  - intros ([qm c1] & _ & Hms)%result_bind_ok. apply result_bind_ok in Hms as ([ms1 c2] & Hms & [= <- <-]).
    destruct (IH _ _ Hms) as (ms2 & c3 & pm & -> & Hm). by exists ((q, qm) :: ms2), c3, pm.
Qed.

(** The configuration of an adoption where no plugin of the catalog is loaded. *)
Lemma adopted_config_new cat f path f' changed spec :
  DetectAccessBackend f (Some cat) ≠ AccessBackendDynamicSecurity → LookupPlugin cat dynamic_security = Some spec → trim_space (ps_module spec) ≠ "" →
  adopted_config cat f path = Ok (f', changed) →
  ∃ rendered names, ApplyPluginDocument f cat (adopted_plugins cat f path) = Ok (rendered, names) ∧ (f', changed) = removeFileBackend rendered names
    ∧ new_line "plugin" (trim_space (ps_module spec)) ∈ f_items rendered
    ∧ (Exists (λ opt, op_name opt = "config_file") (ps_options spec) → trim_space path ≠ "" → new_line "plugin_opt_config_file" path ∈ f_items rendered).
Proof.
  intros Hback Hspec Hmod Ha. assert (∀ g, g ∈ groups (f_items f) → MatchModule cat (gr_module g) = None) as Hnone.
  { intros g Hg. destruct (MatchModule cat (gr_module g)) eqn:E; [|done]. destruct Hback. apply backend_dynamic. by eapply group_loads. }
  assert (adopted_plugins cat f path = ExtractPlugins f cat ++ [mkPlugin dynamic_security (ps_module spec) {["config_file" := path]} ∅]) as Hdoc.
  { unfold adopted_plugins. cbv zeta. unfold ModuleOf. rewrite Hspec. cbn [from_option]. destruct (existsb _ _) eqn:E; [|done]. exfalso.
    apply existsb_exists in E as (p & Hp & Hid). apply list_elem_of_In in Hp. unfold ExtractPlugins in Hp. apply list_elem_of_fmap in Hp as (g & -> & Hg).
    apply String.eqb_eq in Hid. by rewrite extract_group_id, Hnone in Hid. }
  unfold adopted_config in Ha. apply result_bind_ok in Ha as ([rendered names] & Happ & Hf'). exists rendered, names. split; [done|].
  split; [unfold removeFileBackend in *; cbv zeta in *; congruence|]. rewrite Hdoc in Happ. apply apply_shape in Happ as (ms & claimed & x & Hms & _ & _ & _ & -> & _). cbn [f_items].
  apply match_plugins_snoc in Hms as (ms1 & c1 & pm & -> & Hm). unfold match_plugin in Hm. cbv zeta in Hm.
  assert (Known (mkPlugin dynamic_security (ps_module spec) {["config_file" := path]} ∅) = true) as Hk by by vm_compute.
  rewrite Hk in Hm. cbn [negb pl_id pl_module] in Hm. rewrite Hspec, decide_False in Hm by done.
  assert (first_group (groups (f_items f)) c1 (same_plugin cat spec) = None) as Hfirst.
  { destruct (first_group _ _ _) as [[gi g]|] eqn:E; [|done]. apply first_group_found in E as (Hgi & _ & Hs).
    apply list_elem_of_lookup_2 in Hgi. unfold same_plugin in Hs. by rewrite (Hnone g Hgi) in Hs. }
  rewrite Hfirst in Hm. injection Hm as <- _. rewrite bind_app.
  assert (∀ it, it ∈ new_line "plugin" (trim_space (ps_module spec)) :: ((λ o, new_line (OptionName o.1) o.2) <$> new_options cat (mkPlugin dynamic_security (ps_module spec) {["config_file" := path]} ∅)) →
    it ∈ insert_blocks (edit_items x (f_items f)) ((ms1 ≫= new_block cat) ++ ([(mkPlugin dynamic_security (ps_module spec) {["config_file" := path]} ∅, mkMatch None (trim_space (ps_module spec)))] ≫= new_block cat))) as Hin.
  { intros it Hit. apply insert_blocks_added, elem_of_app. right. cbn [mbind list_bind]. rewrite app_nil_r. exact Hit. }
  split; [apply Hin; by left|]. intros (opt & Hopt & Hname)%Exists_exists Hpath. apply Hin. right.
  apply (list_elem_of_fmap_2' (λ o, new_line (OptionName o.1) o.2) _ ("config_file", path)); [|by vm_compute].
  unfold new_options. rewrite Hk. cbn [pl_id]. rewrite Hspec. apply list_elem_of_omap. exists opt. split; [done|].
  unfold set_value. cbn [pl_options]. rewrite Hname, lookup_singleton_eq. by rewrite decide_False by done.
Qed.

(** [C24] The configuration of an adoption hands the access control over: the
    broker that starts with it loads the plugin, with the database that was
    written; no line of the file backend is left; every other line that is no
    plugin line is kept, in order. *)
Theorem adopted_config_hands_over cat f path f' changed spec :
  DetectAccessBackend f (Some cat) ≠ AccessBackendDynamicSecurity →
  LookupPlugin cat dynamic_security = Some spec → trim_space (ps_module spec) ≠ "" → is_Some (MatchModule cat (trim_space (ps_module spec))) →
  Exists (λ opt, op_name opt = "config_file") (ps_options spec) → trim_space path ≠ "" →
  adopted_config cat f path = Ok (f', changed) →
  DetectAccessBackend f' (Some cat) = AccessBackendDynamicSecurity
  ∧ new_line "plugin_opt_config_file" path ∈ f_items f'
  ∧ Forall (λ it, file_backend it = false) (f_items f')
  ∧ filter (λ it, ¬ plugin_line it) (f_items f') = filter (λ it, ¬ plugin_line it ∧ file_backend it = false) (f_items f).
Proof.
  intros Hback Hspec Hmod Hmatch Hopt Hpath Ha. destruct (adopted_config_new _ _ _ _ _ _ Hback Hspec Hmod Ha) as (rendered & names & Happ & Hrem & Hline & Hconf).
  specialize (Hconf Hopt Hpath). injection Hrem as -> _. cbn [f_items]. assert (∀ name value, plugin_key name → new_line name value ∈ f_items rendered →
    new_line name value ∈ filter (λ it, file_backend it = false) (f_items rendered)) as Hkept.
  { intros name value Hk Hin. apply list_elem_of_filter. split; [|done]. unfold file_backend. cbn. apply bool_decide_eq_false. intros Hn. destruct Hk as [->|Hk]; [by destruct Hn|].
    by destruct Hn as [->| ->]. }
  split_and!.
  - apply backend_dynamic. exists (new_line "plugin" (trim_space (ps_module spec))). split; [apply Hkept; [by left|done]|].
    unfold loads_plugin. cbn. by apply bool_decide_eq_true.
  - apply Hkept; [by right|done].
  - apply Forall_forall. by intros it [? _]%list_elem_of_filter.
  - apply apply_others in Happ. rewrite list_filter_filter.
    transitivity (filter (λ it, file_backend it = false) (filter (λ it, ¬ plugin_line it) (f_items rendered))).
    + rewrite list_filter_filter. apply list_filter_iff. tauto.
    + rewrite Happ, list_filter_filter. apply list_filter_iff. tauto.
Qed.
