(* ===== verification/DynsecAdoptDeploy.v ===== *)
(** * What the preview of an adoption prepares

    [AdoptDynSec] writes the database of the plugin and stores two things: the
    revision of [mosquitto.conf] that loads the plugin, and the plan that applies
    it.  The broker keeps running as it was. *)
From S2P Require Import Prelude IO Unicode GoStrings GoStrconv GoTime GoPath Sha256 Hash GoJson Passwd Acl Catalog CatalogLoad Conf ConfEdit Include Settings Plugins.
From S2P Require Import Store BrokerStore Applier DeployRender Deploy DeployFrame BrokerConfig BrokerProofs BrokerOnce PluginDeploy Dynsec DynsecPlan DynsecService.
From S2P Require Import DynsecStore DynsecJson DynsecAdopt DynsecDeploy DynsecProofs DynsecAdoptProofs.

(** ** Looking around: nothing but clocks, faults and random bytes is used up *)
Record looks (b b' : bworld) : Prop := {
  lk_world : quiet (bw_world b) (bw_world b'); lk_revisions : bw_revisions b' = bw_revisions b; lk_started : bw_started b' = bw_started b
}.
#[export] Instance looks_preorder : PreOrder looks.
Proof. split; [by constructor|]. intros a b d [] []. constructor; [by etrans|congruence..]. Qed.
Lemma looks_world {A} (m : deploy A) : moves quiet m → moves looks (on_world m).
Proof. intros Hm b. constructor; [apply Hm|done..]. Qed.
Lemma looks_files {E A} (m : io fs E A) : moves same_fs m → moves looks (on_files m).
Proof. intros Hm b. constructor; [|done..]. constructor; [apply Hm|apply same_tables_refl|done..]. Qed.
Lemma looks_conf bc : moves looks (read_conf bc).
Proof. unfold read_conf. apply moves_wrap, looks_files. unfold read_existing. repeat moves_step. Qed.
Lemma looks_read bc : moves looks (readBrokerConfig bc).
Proof. unfold readBrokerConfig, parse_conf. apply moves_bind; [apply _|apply looks_conf|]. intros body. repeat moves_step. Qed.
Lemma looks_random : moves looks (on_world random_bytes).
Proof. apply looks_world, random_quiet. Qed.

Lemma looks_fs b b' : looks b b' → same_fs (bw_fs b) (bw_fs b').
Proof. intros [[Hfs _ _ _ _] _ _]. exact Hfs. Qed.
Lemma written_fs s m (b b' : bworld) : same_fs (bw_fs (set_bw_fs (set_files s m) b)) (bw_fs b') → fs_files (bw_fs b') = m ∧ fs_loaded (bw_fs b') = fs_loaded s.
Proof. unfold same_fs. by intros ->. Qed.

Section adoption.
Context {W Data : Type} `{Transport W Data, Decoder Data, ControlChannel W}.
Context (c : dconfig) (pbkdf2 : string → string → Z → string).
Local Abbreviation bc := (dc_broker c).
Local Abbreviation cfg := (bc_deploy (dc_broker c)).
Local Abbreviation confPath := (cf_conf (bc_deploy (dc_broker c))).
Implicit Types w : dworld W.

(** A step on the broker that only looks around, with what it answers. *)
Lemma wp_looks {A} (m : broker A) (P : result broker_error A → Prop) (Φ : dworld W → result dynsec_error A → Prop) w b0 :
  moves looks m → looks b0 (dw_broker w) → wp m (λ _ r, P r) (dw_broker w) →
  (∀ b a, looks b0 b → P (Ok a) → Φ (set_broker b w) (Ok a)) → (∀ b e, Φ (set_broker b w) (Err e)) → wp (on_broker m) Φ w.
Proof.
  intros Hm H0' Hp Hok Herr. unfold on_broker. apply wp_zoom. specialize (Hm (dw_broker w)). unfold wp in *.
  destruct (m (dw_broker w)) as [b [a|e]]; cbn [fst snd] in *; [apply Hok; [by etrans|done]|apply Herr].
Qed.

(** The rows of a table, whatever faults are left. *)
Lemma wp_rows {A} what (f : db message → A) (b : bworld) : (∀ s rest, f (with_faults rest s) = f s) →
  wp (on_world (on_db what (select f))) (λ _ r, match r with Ok a => a = f (w_db (bw_world b)) | Err _ => True end) b.
Proof.
  intros Hf. unfold on_world, on_db. apply wp_zoom, wp_zoom. unfold wp, select, statement. cbn. destruct (db_faults _) as [|[] rest]; cbn; [done|done|]. apply Hf.
Qed.

Definition the_rules w : list Rule := with_id <$> db_rules (w_db (bw_world (dw_broker w))).
Definition the_users w : list MQTTUser :=
  filter (λ u, u_username u ≠ cf_username cfg) (sort_stable (λ a b, string_less (u_username a) (u_username b)) (db_users (w_db (bw_world (dw_broker w))))).
Lemma same_tables_rows (s s' : db message) : same_tables s s' → db_rules s' = db_rules s ∧ db_users s' = db_users s.
Proof. unfold same_tables, rolled_back_to. by intros <-. Qed.

(** The document that is built is the one of the rules and the users of the
    store, with some password for every user. *)
Lemma wp_buildAdoptedDocument (Φ : dworld W → result dynsec_error (Document * list AdoptedCredential * list adopt_warning) → Prop) w :
  (∀ w' e, Φ w' (Err e)) →
  (∀ b users credentials warnings, looks (dw_broker w) b → users.*1 = the_users w →
     Φ (set_broker b w) (Ok (the_document (the_rules w) (cf_username cfg) (cf_password cfg) users, credentials, warnings))) →
  wp (buildAdoptedDocument c) Φ w.
Proof.
  intros Herr Hok. unfold buildAdoptedDocument. apply wp_bind.
  eapply (wp_looks _ _ _ _ (dw_broker w)); [apply looks_world, on_db_quiet, ListRules_reads|done|by apply wp_rows| |intros; apply Herr].
  intros b1 rules Hb1 ->. cbv zeta. apply wp_bind.
  eapply (wp_looks _ _ _ _ (dw_broker w)); [apply looks_world, on_db_quiet, ListMQTTUsers_reads|done|by apply wp_rows| |intros; apply Herr].
  cbn [dw_broker set_broker]. intros b2 users Hb2 ->. rewrite (proj2 (same_tables_rows _ _ (qu_db _ _ (lk_world _ _ Hb1)))). apply wp_bind.
  change (filter _ _) with (the_users w). set (m := migrateACLToDynsec _).
  apply (wp_collect _ (λ done w', ∃ b, w' = set_broker b w ∧ looks (dw_broker w) b ∧ Forall (λ x, ∃ password, x.2.1 = adopted_client m x.1 password) done)).
  - exists b2. split; [done|]. split; [done|constructor].
  - intros done user rest w1 _ (b & -> & Hb & Hdone). unfold adopt_user.
    assert (∀ b' password creds, looks (dw_broker w) b' → ∃ b'', set_broker b' w = set_broker b'' w ∧ looks (dw_broker w) b''
      ∧ Forall (λ x, ∃ password, x.2.1 = adopted_client m x.1 password) (done ++ [(user, (adopted_client m user password, creds : list AdoptedCredential))])) as Hadd.
    { intros b' password creds Hb'. exists b'. split; [reflexivity|]. split; [exact Hb'|]. apply Forall_app. split; [exact Hdone|]. apply Forall_singleton. by exists password. }
    assert (wp (raw ← random (W := W); mret (adopted_client m user (generated_password raw), [mkCredential (u_username user) (generated_password raw) keep_reason]))
      (λ w' r, match r with Ok y => ∃ b'', w' = set_broker b'' w ∧ looks (dw_broker w) b'' ∧ Forall (λ x, ∃ password, x.2.1 = adopted_client m x.1 password) (done ++ [(user, y)])
               | Err e => Φ w' (Err e) end) (set_broker b w)) as Hrandom.
    { apply wp_bind. unfold random. apply (wp_looks _ (λ _, True) _ _ (dw_broker w)); [apply looks_random|exact Hb|by unfold wp| |intros; apply Herr].
      intros b' raw Hb' _. apply wp_ret. by apply Hadd. }
    destruct (cf_cleartext cfg (u_username user)) as [[|ch password]|]; [exact Hrandom| |exact Hrandom]. apply wp_ret. by apply Hadd.
  - intros done w1 Hdone (b & -> & Hb & Hall). apply wp_ret.
    assert (∃ users, users.*1 = done.*1 ∧ done.*2.*1 = (λ x, adopted_client m x.1 x.2) <$> users) as (users & Hu & Hc).
    { clear Hdone. induction Hall as [|x done [password Hx] _ (users & Hu & Hc)]; [by exists []|]. exists ((x.1, password) :: users). cbn. by rewrite Hu, Hc, Hx. }
    rewrite Hc. apply (Hok b users); [done|]. by rewrite Hu, <-Hdone.
Qed.

(** The database that is written holds a record for every client of the
    document. *)
Lemma wp_writeDynsecDatabase path doc (Φ : dworld W → result dynsec_error unit → Prop) w :
  (∀ w' e, Φ w' (Err e)) →
  (∀ b clients, clients.*1 = d_clients doc → looks (set_bw_fs (set_files (bw_fs (dw_broker w)) (<[path := database_text clients doc]> (fs_files (bw_fs (dw_broker w))))) (dw_broker w)) b →
     Φ (set_broker b w) (Ok tt)) →
  wp (writeDynsecDatabase pbkdf2 path doc) Φ w.
Proof.
  intros Herr Hok. unfold writeDynsecDatabase. apply wp_bind.
  apply (wp_collect _ (λ done w', ∃ b, w' = set_broker b w ∧ looks (dw_broker w) b ∧ Forall (λ x, x.2.1 = x.1) done)).
  - exists (dw_broker w). split; [by destruct w|]. split; [done|constructor].
  - intros done client rest w1 _ (b & -> & Hb & Hdone). unfold hash_client.
    assert (∀ b' secret, looks (dw_broker w) b' → ∃ b'', set_broker b' w = set_broker b'' w ∧ looks (dw_broker w) b''
      ∧ Forall (λ x : Client * (Client * option (string * string)), x.2.1 = x.1) (done ++ [(client, (client, secret))])) as Hadd.
    { intros b' secret Hb'. exists b'. split; [reflexivity|]. split; [exact Hb'|]. apply Forall_app. split; [exact Hdone|]. by apply Forall_singleton. }
    destruct (decide _); [apply wp_ret; by apply Hadd|]. apply wp_bind. unfold random.
    apply (wp_looks _ (λ _, True) _ _ (dw_broker w)); [apply looks_random|exact Hb|by unfold wp| |intros; apply Herr]. intros b' salt Hb' _. apply wp_ret. by apply Hadd.
  - intros done w1 Hdone (b & -> & Hb & Hall). unfold in_directory, on_files. apply wp_zoom. cbn [dw_broker set_broker]. apply wp_zoom.
    assert (done.*2.*1 = d_clients doc) as Hclients.
    { rewrite Hdone. clear Hdone. induction Hall as [|x done Hx _ IH]; [done|]. cbn. by rewrite IH, Hx. }
    assert (same_fs (bw_fs (dw_broker w)) (bw_fs b)) as Hfs by apply Hb. destruct Hb as [[_ Hdb Hspecs Hlock Haudit] Hrev Hst].
    assert (∀ faults, Φ (set_broker (set_bw_fs (set_faults (set_files (bw_fs b) (<[path := database_text done.*2 doc]> (fs_files (bw_fs b)))) faults) b) (set_broker b w)) (Ok tt)) as Hwritten.
    { intros faults. apply (Hok _ done.*2 Hclients). rewrite Hfs. constructor; [constructor|..]; done. }
    apply wp_bind, wp_syscall; intros f1; [|apply Herr]. unfold write_file. apply wp_bind. apply wp_bind, wp_syscall; intros f2; [|apply Herr].
    apply wp_bind. unfold modify at 1, wp at 1. cbn [fst snd]. apply wp_bind, wp_syscall; intros f3; [|apply Herr]. unfold modify, wp at 1. cbn [fst snd].
    apply wp_syscall; intros f4; [|apply Herr]. specialize (Hwritten f4). unfold set_faults, set_files in *. cbn in *. by rewrite insert_insert_eq.
Qed.

Lemma wp_previewAdoptionConfig actor cat parsed brokerPath (Φ : dworld W → result dynsec_error (string * string) → Prop) w :
  (∀ w' e, Φ w' (Err e)) →
  (∀ b rendered names body top created id diff, adopted_config cat parsed brokerPath = Ok (rendered, names) → RenderConf rendered = Ok body →
     fs_files (bw_fs (dw_broker w)) !! confPath = Some top → calm (dw_broker w) b →
     bw_revisions b !! id = Some (mkBrokerRevision id actor (contentHash top) (contentHash body) confPath body None (Some (join "," names)) created None) →
     Φ (set_broker b w) (Ok (id, diff))) →
  wp (previewAdoptionConfig c actor cat parsed brokerPath) Φ w.
Proof.
  intros Herr Hok. unfold previewAdoptionConfig. destruct (adopted_config _ _ _) as [[rendered names]|] eqn:Ha; [|apply wp_fail, Herr].
  destruct (RenderConf rendered) as [body|] eqn:Hr; [|apply wp_fail, Herr]. unfold on_broker. apply wp_zoom. apply wp_bind.
  eapply wp_peeks_with; [auto with mcm|apply read_conf_answer|]. intros b1 [top|e] Hb1 Htop; [|apply Herr]. apply wp_bind. unfold conf_diff.
  destruct (bc_diff bc top body) as [diff|]; [|apply wp_fail, Herr]. apply wp_ret. apply wp_bind.
  eapply (wp_moves calm); [unfold new_revision_id; repeat moves_step|]. intros b2 [id|e] Hb2; [|apply Herr]. apply wp_bind.
  eapply wp_mono; [apply wp_insert_revision|]. intros b3 [[]|e] [Hb3 Hins]; [|apply Herr]. destruct Hins as [created Hins]. apply wp_ret.
  eapply Hok; [done..|etrans; [apply Hb1|etrans; [exact Hb2|exact Hb3]]|exact Hins].
Qed.

(** What an adoption has prepared. *)
Record prepared w w' (p : DynSecPreviewResult) (desired : Document) (stored : DynSecPlan) (rev : BrokerConfigRevision)
    (path database top : string) (rendered : File) : Prop := {
  pr_valid : Validate desired = [];
  pr_guard : gu_ok (CheckControlChannel desired (cf_username cfg)) = true;
  pr_files : fs_files (bw_fs (dw_broker w')) = <[path := database]> (fs_files (bw_fs (dw_broker w))) ∧ (<[path := database]> (fs_files (bw_fs (dw_broker w)))) !! confPath = Some top;
  pr_database : ∃ clients, database = database_text clients desired ∧ clients.*1 = d_clients desired;
  pr_loaded : fs_loaded (bw_fs (dw_broker w')) = fs_loaded (bw_fs (dw_broker w)) ∧ bw_started (dw_broker w') = bw_started (dw_broker w) ∧ dw_channel w' = dw_channel w;
  pr_revision : bw_revisions (dw_broker w') !! dp_config_revision p = Some rev;
  pr_body : RenderConf rendered = Ok (br_conf rev) ∧ br_applied rev = None ∧ br_base_hash rev = contentHash top;
  pr_plans : dw_plans w' = <[dp_plan_id p := stored]> (dw_plans w) ∧ dw_plans w !! dp_plan_id p = None;
  pr_plan : sp_applied stored = None ∧ sp_base_hash stored = "" ∧ en_plan (sp_plan stored) = [] ∧ en_desired (sp_plan stored) = Redacted desired
    ∧ en_revision (sp_plan stored) = dp_config_revision p
}.

(** [C25] The preview of an adoption touches neither the running broker nor its
    control channel.  The document is the migration of the rules and the users of
    the store; it is valid and guarded; its database is the only file that is
    written; the revision that is stored is the configuration that hands the
    access control over, bound to the file on disk; and the plan that is stored is
    bound to that revision and holds no password of the document. *)
Theorem AdoptDynSec_prepares actor w w' p : AdoptDynSec c pbkdf2 actor w = (w', Ok p) →
  ∃ cat body parsed users rendered names stored rev database top, dc_plugins c = Some cat
    ∧ fs_files (bw_fs (dw_broker w)) !! confPath = Some body ∧ Parse body confPath = Ok parsed
    ∧ DetectAccessBackend parsed (Some cat) ≠ AccessBackendDynamicSecurity
    ∧ users.*1 = the_users w ∧ adopted_config cat parsed (dynsecBrokerPath cat (dc_broker_dir c) parsed) = Ok (rendered, names)
    ∧ prepared w w' p (the_document (the_rules w) (cf_username cfg) (cf_password cfg) users) stored rev
        (dynsecLocalPath (dc_config_dir c) (dynsecBrokerPath cat (dc_broker_dir c) parsed)) database top rendered.
Proof.
  enough (wp (AdoptDynSec c pbkdf2 actor) (λ w' r, match r with Ok p => ∃ cat body parsed users rendered names stored rev database top, dc_plugins c = Some cat
    ∧ fs_files (bw_fs (dw_broker w)) !! confPath = Some body ∧ Parse body confPath = Ok parsed
    ∧ DetectAccessBackend parsed (Some cat) ≠ AccessBackendDynamicSecurity
    ∧ users.*1 = the_users w ∧ adopted_config cat parsed (dynsecBrokerPath cat (dc_broker_dir c) parsed) = Ok (rendered, names)
    ∧ prepared w w' p (the_document (the_rules w) (cf_username cfg) (cf_password cfg) users) stored rev
        (dynsecLocalPath (dc_config_dir c) (dynsecBrokerPath cat (dc_broker_dir c) parsed)) database top rendered
    | Err _ => True end) w) as Hwp by (intros E; unfold wp in Hwp; by rewrite E in Hwp).
  unfold AdoptDynSec, with_plugin_catalog. destruct (dc_plugins c) as [cat|]; [|done]. destruct (decide _); [done|].
  unfold with_plan_store. destruct (dc_store c); [|done]. destruct (decide _); [done|]. destruct (decide _); [done|]. apply wp_bind.
  apply (wp_looks _ (λ r, match r with Ok (body, f) => fs_files (bw_fs (dw_broker w)) !! confPath = Some body ∧ Parse body confPath = Ok f | Err _ => True end) _ _ (dw_broker w));
    [apply looks_read|done|by apply wp_read_broker| |done].
  intros b1 [body parsed] Hb1 [Hbody Hparse]. cbv zeta. destruct (decide _) as [|Hback]; [done|].
  assert (the_rules (set_broker b1 w) = the_rules w ∧ the_users (set_broker b1 w) = the_users w) as [Hrules Husers].
  { unfold the_rules, the_users. cbn. by destruct (same_tables_rows _ _ (qu_db _ _ (lk_world _ _ Hb1))) as [-> ->]. }
  apply wp_bind, wp_buildAdoptedDocument; [done|]. intros b2 users credentials warnings Hb2 Hu. rewrite Hrules in *. rewrite Husers in Hu. cbn [dw_broker set_broker] in Hb2.
  set (desired := the_document _ _ _ _). unfold with_valid. destruct (Validate desired) eqn:Hv; [|done]. unfold with_guard. destruct (gu_ok _) eqn:Hg; [|done].
  set (brokerPath := dynsecBrokerPath _ _ _). apply wp_bind, wp_writeDynsecDatabase; [done|]. intros b3 clients Hclients Hb3. cbn [dw_broker set_broker] in Hb3.
  apply wp_bind. unfold in_directory. apply wp_attempt, wp_zoom. cbn [dw_broker set_broker].
  eapply (wp_moves looks); [apply looks_files; unfold stat_file; repeat moves_step|]. intros b4 info Hb4.
  apply wp_bind, wp_previewAdoptionConfig; [done|]. intros b5 rendered names conf top created id diff Hconf Hrender Htop Hb5 Hrev. cbn [dw_broker set_broker] in *.
  apply wp_bind, wp_store_plan; [done|]. intros b6 planID created' Hb6 Hrevs Hnew. cbn [dw_broker set_broker] in *.
  apply wp_bind. unfold wp, audit, modify. cbn [fst snd]. unfold mret, io_ret. cbn [fst snd]. clear Hrules Husers.
  set (database := database_text clients desired) in *. set (path := dynsecLocalPath _ _) in *.
  assert (looks (dw_broker w) b2) as Hlook by by etrans. pose proof (looks_fs _ _ Hlook) as Hfs.
  destruct (written_fs _ _ _ _ (looks_fs _ _ (transitivity Hb3 Hb4))) as [Hf4 Hl4]. rewrite Hfs in Hf4, Hl4. cbn in Hf4, Hl4.
  assert (calm b4 b6) as [Hf6 Hst6 _] by by etrans. unfold same_fs in Hf6.
  exists cat, body, parsed, users, rendered, names. eexists _, _, database, top. split_and!; [done..|]. constructor; cbn [dp_plan_id dp_config_revision dw_broker dw_plans dw_channel].
  - done.
  - done.
  - rewrite Hf6. cbn. rewrite Hf4. split; [done|]. rewrite Hf4 in Htop. exact Htop.
  - by exists clients.
  - rewrite Hf6. cbn. split; [done|]. split; [|done]. rewrite Hst6. rewrite (lk_started _ _ (transitivity Hb3 Hb4)). cbn. apply Hlook.
  - rewrite Hrevs. exact Hrev.
  - done.
  - split; [reflexivity|]. exact Hnew.
  - done.
Qed.
End adoption.
