(* ===== verification/DynsecExamples.v ===== *)
(** * The dynamic security on a small installation

    The theorems of the dynamic security endpoints at concrete inputs, and
    behaviours the code should not have.  The control channel answers from a
    script, as in [DynsecService]; a database is what the plugin would report. *)
From S2P Require Import Prelude IO Unicode GoStrings GoStrconv GoTime GoPath Sha256 Hash GoJson Passwd Acl Catalog CatalogLoad Conf ConfEdit Include Settings Plugins.
From S2P Require Import Store BrokerStore Applier DeployRender Deploy DeployFrame DeployExamples BrokerConfig BrokerProofs BrokerOnce BrokerExamples PluginDeploy PluginExamples.
From S2P Require Import Dynsec DynsecPlan DynsecService DynsecStore DynsecJson DynsecAdopt DynsecDeploy DynsecProofs DynsecAdoptProofs DynsecAdoptDeploy.

#[export] Instance script_channel : ControlChannel script := {| open_channel _ ch := (ch, true); close_channel ch := ch; await_broker _ ch := (ch, true) |}.
Definition plain_quote (s : string) : string := chr_str quote_char +:+ s +:+ chr_str quote_char.
Definition dynsec_config : dconfig := mkDConfig plugin_config (Some plugin_catalog) true true "/m" "".
Definition with_conf (body : string) (random : list string) (b : bworld) : bworld :=
  set_world (set_random random (set_fs (set_files (w_fs (bw_world b)) (<["/m/mosquitto.conf" := body]> (fs_files (w_fs (bw_world b))))) (bw_world b))) b.
Definition first_random : string := "0123456789abcdef".
Definition plan_id : string := hex_encode (bytes_of first_random).
Definition dynsec_world (lines : list string) (random : list string) (rules : list Rule) (users : list string) (ch : script) : dworld script :=
  let d := foldl (λ d u, (CreateMQTTUser u "$7$h" "mcm" d).1) (foldl (λ d r, (CreateRule r d).1) (w_db (bw_world (conf_world []))) rules) users in
  let b := with_conf (unlines lines) random (conf_world []) in
  mkDWorld (set_world (set_db d (bw_world b)) b) ch ∅ [].

(** ** A change *)
Definition dynsec_lines : list string := ["plugin " +:+ dynsec_module; "plugin_opt_config_file /m/ds.json"].
Definition database (clients : list Client) (groups : list Group) : Document :=
  mkDocument (clients ++ [managementClient "mcm" ""]) groups [managementRole; reader_role] (mkAccess false true false true) "".
Definition answers (doc : Document) : result transport_error (list (string * Document * string)) := Ok ((λ cmd, (cmd_name cmd, doc, "")) <$> read_commands).
Definition accepts (command : string) : result transport_error (list (string * Document * string)) := Ok [(command, empty_document, "")].
Definition alice : Client := mkClient "alice" "" "" "" "secret" false [mkRoleRef "reader" 0] [] false.
Definition nobody : Document := database [] [].
Definition with_alice : Document := database [alice] [].
Definition change_world : dworld script :=
  dynsec_world dynsec_lines [first_random; "fedcba9876543210"] [] [] [answers nobody; answers nobody; accepts CommandCreateClient; answers (Redacted with_alice)].
Definition change_previewed : dworld script * result dynsec_error DynSecPreviewResult := PreviewDynSec dynsec_config "op" with_alice change_world.
Definition change_applied : dworld script * result dynsec_error DynSecApplyResult :=
  ApplyDynSec dynsec_config plain_quote "op" plan_id (Some with_alice) change_previewed.1.

Example change_shown :
  match change_previewed.2 with
  | Ok p => Some (dp_plan_id p, (λ ch, summary_text plain_quote (ch_kind ch) (ch_name ch) (ch_summary ch)) <$> dp_plan p, cmd_password <$> PlanCommands (dp_plan p))
  | Err _ => None end = Some (plan_id, ["create the client " +:+ plain_quote "alice"], ["********"]).
Proof. vm_compute. reflexivity. Qed.
Example change_done :
  match change_applied.2 with Ok r => Some (cl_name <$> d_clients (da_document r), gu_ok (da_guard r)) | Err _ => None end = Some (["alice"; "mcm"], true)
  ∧ (sp_applied <$> dw_plans change_applied.1 !! plan_id) ≠ Some None ∧ dw_channel change_applied.1 = [].
Proof. split; [vm_compute; reflexivity|]. split; [vm_compute; discriminate|vm_compute; reflexivity]. Qed.

Lemma PreviewDynSec_reviewed_witness :
  ∃ w' p, PreviewDynSec dynsec_config "op" with_alice change_world = (w', Ok p) ∧ calm (dw_broker change_world) (dw_broker w').
Proof.
  eexists _, _. split; [vm_compute; reflexivity|].
  refine (proj1 (PreviewDynSec_reviewed dynsec_config "op" with_alice change_world _ _ _)). vm_compute. reflexivity.
Defined.
Lemma change_applied_ok : is_ok change_applied.2 = true.
Proof. vm_compute. reflexivity. Qed.
Lemma ApplyDynSec_verified_witness :
  ∃ w' r stored effective actual, ApplyDynSec dynsec_config plain_quote "op" plan_id (Some with_alice) change_previewed.1 = (w', Ok r)
    ∧ dw_plans change_previewed.1 !! plan_id = Some stored ∧ Verify effective actual = [].
Proof.
  destruct change_applied as [w' [r|e]] eqn:E; [|pose proof change_applied_ok as H; rewrite E in H; discriminate].
  destruct (ApplyDynSec_verified dynsec_config plain_quote "op" plan_id (Some with_alice) change_previewed.1 w' r E) as (stored & effective & actual & Hs & _ & _ & _ & Hv & _).
  exists w', r, stored, effective, actual. split; [exact E|]. split; [exact Hs|exact Hv].
Defined.
Lemma plan_applied_once_witness :
  let w2 := change_applied.1 in
  let '(w3, r) := ApplyDynSec dynsec_config plain_quote "other" plan_id (Some with_alice) w2 in is_ok change_applied.2 = true ∧ refused w2 w3 r.
Proof.
  cbv zeta. pose proof change_applied_ok as Hok. destruct change_applied as [w1 [res|e]] eqn:E; [|discriminate Hok]. cbn [fst].
  pose proof (plan_applied_once dynsec_config plain_quote example_pbkdf2 "op" "other" plan_id (Some with_alice) (Some with_alice) change_previewed.1 w1 w1 res E (rtc_refl _ _)) as H.
  destruct (ApplyDynSec _ _ _ _ _ w1) as [w3 r]. by split.
Defined.

(** ** An adoption *)
Definition rule_for (selector principal topic permission : string) : Rule := mkRule "" selector "" "" principal topic permission "".
Definition file_lines : list string := ["acl_file /m/acl"; "password_file /m/passwd"; "persistence true"].
Definition adoption_rules : list Rule := [rule_for "user" "alice" "plant/+" "readwrite"; rule_for "pattern" "" "home/%u" "read"].
Definition randoms : list string := ["0123456789abcdefghijklmn"; "saltsaltsal1"; "saltsaltsal2"; "saltsaltsal3"; "revision00000000"; "planplanplanplan"].
Definition adoption_world (rules : list Rule) (ch : script) : dworld script := dynsec_world file_lines randoms rules ["alice"; "bob"] ch.
Definition adopted (rules : list Rule) (ch : script) : dworld script * result dynsec_error DynSecPreviewResult :=
  AdoptDynSec dynsec_config example_pbkdf2 "op" (adoption_world rules ch).
Definition conf_now (w : dworld script) : option string := fs_files (bw_fs (dw_broker w)) !! "/m/mosquitto.conf".

Example adoption_prepared :
  match (adopted adoption_rules []).2 with Ok p => Some (ac_username <$> dp_credentials p, dp_warnings p) | Err _ => None end
  = Some (["bob"], [DatabaseWritten "/m/dynamic-security.json"]).
Proof. vm_compute. reflexivity. Qed.
Lemma adopted_ok : is_ok (adopted adoption_rules []).2 = true.
Proof. vm_compute. reflexivity. Qed.
Lemma AdoptDynSec_prepares_witness :
  ∃ w' p cat body, AdoptDynSec dynsec_config example_pbkdf2 "op" (adoption_world adoption_rules []) = (w', Ok p)
    ∧ dc_plugins dynsec_config = Some cat ∧ fs_files (bw_fs (dw_broker (adoption_world adoption_rules []))) !! "/m/mosquitto.conf" = Some body.
Proof.
  destruct (adopted adoption_rules []) as [w' [p|e]] eqn:E; [|pose proof adopted_ok as H; rewrite E in H; discriminate].
  destruct (AdoptDynSec_prepares dynsec_config example_pbkdf2 "op" (adoption_world adoption_rules []) w' p E) as (cat & body & _ & _ & _ & _ & _ & _ & _ & _ & Hcat & Hbody & _).
  exists w', p, cat, body. split; [exact E|]. split; [exact Hcat|exact Hbody].
Defined.

(** The migrated document of the example, and the theorems about it. *)
Definition adopted_users : list (MQTTUser * string) := [(mkUser 1 "alice" "$7$h" false 0 0, "s3"); (mkUser 2 "bob" "$7$h" true 0 0, "b0b")].
Definition adopted_example : Document := the_document adoption_rules "mcm" "pw" adopted_users.
Lemma adopted_not_mcm : Forall (λ x, u_username x.1 ≠ "mcm") adopted_users.
Proof. repeat constructor; discriminate. Qed.
Lemma adopted_example_valid : Validate adopted_example = [].
Proof. vm_compute. reflexivity. Qed.
Lemma adopted_access_witness :
  ∃ cl, cl ∈ d_clients adopted_example ∧ cl_name cl = "bob" ∧
    ∀ e, decides adopted_example cl e ↔ ∃ rule, rule ∈ adoption_rules ∧ speaks_for rule "bob" ∧ e ∈ dynsecACLsForRule rule.
Proof.
  exists (sort_client (adopted_client (migrateACLToDynsec adoption_rules) (mkUser 2 "bob" "$7$h" true 0 0) "b0b")). split; [vm_compute; right; left|].
  split; [reflexivity|]. intros e. refine (adopted_access adoption_rules "mcm" "pw" adopted_users adopted_not_mcm _ e adopted_example_valid _). vm_compute. right; left.
Defined.
Lemma adopted_guard_witness :
  ∃ cl, cl ∈ d_clients adopted_example ∧ cl_name cl = "mcm" ∧
    ∀ type, type ∈ channel_types → ∃ e, may_access adopted_example cl e ∧ acl_type e = type ∧ covers_control (acl_topic e).
Proof. refine (proj2 (proj2 (adopted_guard adoption_rules "mcm" "pw" adopted_users adopted_not_mcm _ adopted_example_valid))). discriminate. Defined.
Lemma adopted_valid_witness : Validate adopted_example = [].
Proof.
  refine (proj2 (adopted_valid adoption_rules "mcm" "pw" adopted_users) _). split; [|split].
  - split; [refine (bool_decide_unpack _ _); vm_compute; reflexivity|repeat constructor].
  - assert (Forall (λ rule, trim_space (r_topic_filter rule) ≠ "" ∧ ValidateTopicFilter (r_topic_filter rule) = None) (migrated adoption_rules)) as Hall
      by (repeat constructor; vm_compute; discriminate). rewrite Forall_forall in Hall. exact Hall.
  - refine (bool_decide_unpack _ _). vm_compute. reflexivity.
Defined.

(** A rule of the file backend lets alice publish on the control topic by one of
    the five filters; the document it becomes is valid and its report is fine. *)
Definition sly_rules : list Rule := [mkRule "r1" SelectorUser ScopeGlobal "" "alice" "$CONTROL/+/v1" PermissionWrite ""].
Theorem adoption_misses_wildcard :
  let doc := the_document sly_rules "mcm" "pw" adopted_users in
  Validate doc = [] ∧ gu_ok (CheckControlChannel doc "mcm") = true
  ∧ ∃ cl e, cl ∈ d_clients doc ∧ cl_name cl = "alice" ∧ may_access doc cl e ∧ covers_control (acl_topic e).
Proof.
  cbv zeta. split; [by vm_compute|]. split; [by vm_compute|].
  exists (sort_client (adopted_client (migrateACLToDynsec sly_rules) (mkUser 1 "alice" "$7$h" false 0 0) "s3")), (mkACL ACLPublishClientSend "$CONTROL/+/v1" true 0).
  split; [vm_compute; by left|]. split; [done|]. split; [|by vm_compute].
  exists "user-alice-CONTROL---v1". split; [left; vm_compute; by left|].
  exists (sort_role (role_of (mkRule "r1" SelectorUser ScopeGlobal "" "alice" "$CONTROL/+/v1" PermissionWrite ""))).
  split; [vm_compute; by right; left|]. split; [by vm_compute|]. split; [vm_compute; by left|]. split; [done|]. by left.
Qed.

(** A user name the password file takes is not always an object name of the
    plugin: the adoption of such a user is refused, whatever the rules. *)
Theorem adoption_refuses_name : ValidateMQTTUsername "a+b" = []
  ∧ Validate (the_document [] "mcm" "pw" [(mkUser 1 "a+b" "$7$h" false 0 0, "s3")]) ≠ [].
Proof. split; [by vm_compute|]. vm_compute. discriminate. Qed.
Lemma adopted_config_hands_over_witness :
  ∃ f', DetectAccessBackend (conf_of file_lines) (Some plugin_catalog) = AccessBackendFile
    ∧ adopted_config plugin_catalog (conf_of file_lines) "/m/ds.json" = Ok (f', ["acl_file"; "password_file"; "plugin"; "plugin_opt_config_file"])
    ∧ DetectAccessBackend f' (Some plugin_catalog) = AccessBackendDynamicSecurity.
Proof.
  eexists. split; [vm_compute; reflexivity|]. split; [vm_compute; reflexivity|].
  refine (proj1 (adopted_config_hands_over plugin_catalog (conf_of file_lines) "/m/ds.json" _ ["acl_file"; "password_file"; "plugin"; "plugin_opt_config_file"] dynsec_spec _ _ _ _ _ _ _)).
  - vm_compute. discriminate.
  - vm_compute. reflexivity.
  - vm_compute. discriminate.
  - eexists. vm_compute. reflexivity.
  - constructor. reflexivity.
  - vm_compute. discriminate.
  - vm_compute. reflexivity.
Defined.

(** *** The apply of an adoption *)

(** What the plugin reports of the database it started with: no anonymous group is
    in the file. *)
Definition reported (doc : Document) : Document := mkDocument (d_clients doc) (d_groups doc) (d_roles doc) (d_default doc) "".
Definition plan_of (w : dworld script) : string * dynSecPlanEnvelope :=
  match map_to_list (dw_plans w) with (id, p) :: _ => (id, sp_plan p) | [] => ("", mkEnvelope [] empty_document "" "" []) end.
Definition adoption_applied (rules : list Rule) (times : nat) (w : dworld script) : dworld script * result dynsec_error DynSecApplyResult :=
  let id := (plan_of w).1 in
  let state := reported (en_desired (plan_of w).2) in
  ApplyDynSec dynsec_config plain_quote "op" id None (set_channel (replicate times (answers state)) w).
Example adoption_applied_ok :
  let r := adoption_applied adoption_rules 2 (adopted adoption_rules []).1 in
  match r.2 with Ok res => Some (dp_status <$> da_deployment res, cl_name <$> d_clients (da_document res)) | Err _ => None end
  = Some (Some "active_verified", ["alice"; "bob"; "mcm"])
  ∧ conf_now r.1 = Some (unlines ["persistence true"; "plugin " +:+ dynsec_module; "plugin_opt_config_file /mosquitto/config/dynamic-security.json"]).
Proof. split; vm_compute; reflexivity. Qed.

(** ** Behaviours *)

(** Cleaned names collide: two rules of a user on [plant/+] and [plant/#] become
    roles of the same name, and the adoption is refused. *)
Lemma role_names_collide :
  let rules := [rule_for "user" "alice" "plant/+" "read"; rule_for "user" "alice" "plant/#" "write"] in
  dynsecRoleName <$> rules = ["user-alice-plant"; "user-alice-plant"]
  ∧ (adopted rules []).2 = Err (DynSecDocumentError [mkIssue "duplicate" "user-alice-plant" "role_name" ""]).
Proof. split; vm_compute; reflexivity. Qed.

(** The database file has no anonymous group.  An adoption with an anonymous rule
    therefore loads the plugin, drops the file backend, and only then finds that
    the state is not the reviewed one; the revision is consumed, so that the
    adoption cannot be tried again. *)
Definition anonymous_rules : list Rule := [rule_for "anonymous" "" "public/#" "read"].
Lemma anonymous_adoption_stuck :
  let first := adoption_applied anonymous_rules 2 (adopted anonymous_rules []).1 in
  let second := adoption_applied anonymous_rules 2 first.1 in
  first.2 = Err (ErrDynSecBackendConflict PlanDiffers)
  ∧ conf_now first.1 = Some (unlines ["persistence true"; "plugin " +:+ dynsec_module; "plugin_opt_config_file /mosquitto/config/dynamic-security.json"])
  ∧ second.2 = Err (DynsecBroker (DeployError ErrRevisionConsumed)).
Proof. cbv zeta. split; [vm_compute; reflexivity|]. split; vm_compute; reflexivity. Qed.

(** The passwords that are made up for the clients are kept in the stored plan. *)
Lemma adopted_passwords_stored :
  ac_username <$> en_adopted (plan_of (adopted adoption_rules []).1).2 = ["bob"]
  ∧ Forall (λ a, ac_password a ≠ "") (en_adopted (plan_of (adopted adoption_rules []).1).2).
Proof. split; [vm_compute; reflexivity|]. refine (bool_decide_unpack _ _). vm_compute. reflexivity. Qed.

(** A document whose clients do not repeat the membership of the groups passes
    the preview, which normalises it; the apply does not, so the commands run, the
    broker is in the requested state, and the apply reports a failure and leaves
    the plan pending. *)
Definition team_of (members : list string) : Group := mkGroup "team" "" "" [] ((λ n, mkClientRef n 0) <$> members).
Definition team_document (client_groups : list GroupRef) : Document :=
  database [mkClient "alice" "" "" "" "" false [] client_groups false] [team_of ["alice"]].
Definition team_before : Document := database [mkClient "alice" "" "" "" "" false [] [] false] [team_of []].
Definition team_world : dworld script :=
  dynsec_world dynsec_lines [first_random] [] [] [answers team_before; answers team_before; accepts CommandAddGroupClient; answers (team_document [mkGroupRef "team" 0])].
Lemma unnormalised_apply_fails :
  let previewed := PreviewDynSec dynsec_config "op" (team_document []) team_world in
  let applied := ApplyDynSec dynsec_config plain_quote "op" plan_id (Some (team_document [])) previewed.1 in
  is_ok previewed.2 = true
  ∧ match applied.2 with Err (DynsecFailed (NotVerified _ issues)) => Some issues | _ => None end = Some [mkIssue ObjectClient "alice" "groups" ""]
  ∧ dw_channel applied.1 = [] ∧ (sp_applied <$> dw_plans applied.1 !! plan_id) = Some None.
Proof. cbv zeta. split; [vm_compute; reflexivity|]. split; [vm_compute; reflexivity|]. split; vm_compute; reflexivity. Qed.

(** A deployment that was rolled back is no error: the apply of an adoption goes on
    to the control channel of a broker that did not load the plugin. *)
Definition refusing (w : dworld script) : dworld script :=
  set_broker (set_world (set_fs (set_faults (w_fs (bw_world (dw_broker w))) (replicate 8 false ++ [true])) (bw_world (dw_broker w))) (dw_broker w)) w.
Lemma rolled_back_adoption_goes_on :
  let r := adoption_applied adoption_rules 2 (refusing (adopted adoption_rules []).1) in
  (dp_status <$> db_deployments (w_db (bw_world (dw_broker r.1)))) = ["rolled_back"] ∧ is_ok r.2 = true
  ∧ conf_now r.1 = Some (unlines file_lines).
Proof. cbv zeta. split; [vm_compute; reflexivity|]. split; vm_compute; reflexivity. Qed.
