(* ===== verification/Sparkplug.v ===== *)
(** * Sparkplug B topics and payloads ([internal/sparkplug])

    The topic parser, and the decoder of the protobuf wire format.  The
    functions of [protowire] are third-party code: the class [Protowire] holds
    them, [ProtowireOk] says what their documentation promises. *)
From S2P Require Import Prelude Unicode GoStrings Passwd.
Local Open Scope Z_scope.

(** ** Topics ([topic.go]) *)
Definition Namespace : string := "spBv1.0".
Definition nodeMessageTypes : list string := ["NBIRTH"; "NDEATH"; "NDATA"; "NCMD"].
Definition deviceMessageTypes : list string := ["DBIRTH"; "DDEATH"; "DDATA"; "DCMD"].
Record Metadata := mkMetadata {
  md_namespace : string; md_group : string; md_type : string; md_node : string; md_device : string
}.
Definition plain_level (part : string) : bool :=
  negb (bool_decide (part = "")) && negb (contains_byte "+" part || contains_byte "#" part).

Definition ParseTopic (topic : string) : option Metadata :=
  let parts := split "/" topic in
  if negb (forallb plain_level parts) then None
  else match parts with
  | [namespace; group; message; node] =>
      if decide (namespace = Namespace ∧ message ∈ nodeMessageTypes) then Some (mkMetadata namespace group message node "") else None
  | [namespace; group; message; node; device] =>
      if decide (namespace = Namespace ∧ message ∈ deviceMessageTypes) then Some (mkMetadata namespace group message node device) else None
  | _ => None
  end.
Definition ClassifyTopic (topic : string) : option Metadata := ParseTopic topic.

(** ** The wire format *)

(** A negative length, the error of these functions, is [None]. *)
Class Protowire := {
  VarintType : Z; Fixed64Type : Z; BytesType : Z; Fixed32Type : Z;
  ConsumeTag : string → option (Z * Z * nat);
  ConsumeVarint : string → option (Z * nat);
  ConsumeBytes : string → option (string * nat);
  ConsumeFixed32 : string → option (Z * nat);
  ConsumeFixed64 : string → option (Z * nat);
  ConsumeFieldValue : Z → Z → string → option nat
}.

Section decode.
Context `{Protowire}.

Inductive decode_error := EmptyPayload | OversizedPayload | CorruptTag | Corrupt (field : string).

(** The loop of the two decoders: a tag, then the field, while bytes are left.
    [None] says that the fuel ran out. *)
Fixpoint wire_loop {A} (step : A → Z → Z → string → result decode_error (A * nat)) (fuel : nat) (a : A) (b : string) :
    option (result decode_error A) :=
  match b with
  | "" => Some (Ok a)
  | _ =>
      match fuel with
      | O => None
      | S fuel =>
          match ConsumeTag b with
          | None => Some (Err CorruptTag)
          | Some (num, typ, n) =>
              let b := drop_bytes n b in
              match step a num typ b with
              | Err e => Some (Err e)
              | Ok (a, n) => wire_loop step fuel a (drop_bytes n b)
              end
          end
      end
  end.

(** The error branch of every field. *)
Definition wire_field {A B} (field : string) (r : option (A * nat)) (k : A → B) : result decode_error (B * nat) :=
  match r with None => Err (Corrupt field) | Some (v, n) => Ok (k v, n) end.
Definition skip_field {A} (a : A) (num typ : Z) (b : string) : result decode_error (A * nat) :=
  match ConsumeFieldValue num typ b with None => Err (Corrupt "unknown field") | Some n => Ok (a, n) end.

(** *** Metrics *)

(** [any]: the bits of a float stand for the float. *)
Inductive metric_value := VUint (v : Z) | VFloat32 (bits : Z) | VFloat64 (bits : Z) | VBool (b : bool) | VString (s : string) | VBytes (s : string).
Record DecodedMetric := mkMetric {
  mt_name : string; mt_alias : Z; mt_datatype : string; mt_value : option metric_value; mt_timestamp : Z; mt_null : bool
}.

Definition datatypeNames : gmap Z string := list_to_map
  [(1, "Int8"); (2, "Int16"); (3, "Int32"); (4, "Int64"); (5, "UInt8"); (6, "UInt16"); (7, "UInt32"); (8, "UInt64");
   (9, "Float"); (10, "Double"); (11, "Boolean"); (12, "String"); (13, "DateTime"); (14, "Text"); (15, "UUID");
   (16, "DataSet"); (17, "Bytes"); (18, "Template")].
Definition datatypeName (dt : Z) : string := default "Unknown" (datatypeNames !! dt).
Definition uint32 (v : Z) : Z := v mod 2 ^ 32.

Definition with_value (m : DecodedMetric) (v : metric_value) : DecodedMetric :=
  mkMetric (mt_name m) (mt_alias m) (mt_datatype m) (if mt_null m then mt_value m else Some v) (mt_timestamp m) (mt_null m).

Definition metric_field (m : DecodedMetric) (num typ : Z) (b : string) : result decode_error (DecodedMetric * nat) :=
  if decide (num = 1 ∧ typ = BytesType) then
    wire_field "name" (ConsumeBytes b) (λ v, mkMetric v (mt_alias m) (mt_datatype m) (mt_value m) (mt_timestamp m) (mt_null m))
  else if decide (num = 2 ∧ typ = VarintType) then
    wire_field "alias" (ConsumeVarint b) (λ v, mkMetric (mt_name m) v (mt_datatype m) (mt_value m) (mt_timestamp m) (mt_null m))
  else if decide (num = 3 ∧ typ = VarintType) then
    wire_field "timestamp" (ConsumeVarint b) (λ v, mkMetric (mt_name m) (mt_alias m) (mt_datatype m) (mt_value m) (wrap64 v) (mt_null m))
  else if decide (num = 4 ∧ typ = VarintType) then
    wire_field "datatype" (ConsumeVarint b) (λ v, mkMetric (mt_name m) (mt_alias m) (datatypeName (uint32 v)) (mt_value m) (mt_timestamp m) (mt_null m))
  else if decide (num = 7 ∧ typ = VarintType) then
    wire_field "is_null" (ConsumeVarint b) (λ v, mkMetric (mt_name m) (mt_alias m) (mt_datatype m) (mt_value m) (mt_timestamp m) (negb (v =? 0)))
  else if decide (num = 8 ∧ typ = VarintType) then wire_field "int_value" (ConsumeVarint b) (λ v, with_value m (VUint v))
  else if decide (num = 10 ∧ typ = Fixed32Type) then wire_field "float_value" (ConsumeFixed32 b) (λ v, with_value m (VFloat32 v))
  else if decide (num = 11 ∧ typ = Fixed64Type) then wire_field "double_value" (ConsumeFixed64 b) (λ v, with_value m (VFloat64 v))
  else if decide (num = 12 ∧ typ = VarintType) then wire_field "boolean_value" (ConsumeVarint b) (λ v, with_value m (VBool (negb (v =? 0))))
  else if decide (num = 13 ∧ typ = BytesType) then wire_field "string_value" (ConsumeBytes b) (λ v, with_value m (VString v))
  else if decide (num = 14 ∧ typ = BytesType) then wire_field "bytes_value" (ConsumeBytes b) (λ v, with_value m (VBytes v))
  else skip_field m num typ b.

Definition decodeMetric (data : string) : option (result decode_error DecodedMetric) :=
  match wire_loop metric_field (String.length data) (mkMetric "" 0 "" None 0 false) data with
  | Some (Ok m) =>
      Some (Ok (if mt_null m then mkMetric (mt_name m) (mt_alias m) (mt_datatype m) None (mt_timestamp m) true else m))
  | r => r
  end.

(** *** Payloads *)
Definition maxPayloadSize : Z := 1024 * 1024.
Record DecodedPayload := mkPayload { pl_timestamp : Z; pl_seq : Z; pl_metrics : list DecodedMetric; pl_truncated : bool }.
(** The payload so far: timestamp, sequence number, raw metrics. *)
Definition payload_state : Type := Z * Z * list string.

Definition payload_field (s : payload_state) (num typ : Z) (b : string) : result decode_error (payload_state * nat) :=
  let '(timestamp, seq, raw) := s in
  if decide (num = 2 ∧ typ = VarintType) then wire_field "timestamp" (ConsumeVarint b) (λ v, (wrap64 v, seq, raw))
  else if decide (num = 4 ∧ typ = VarintType) then wire_field "seq" (ConsumeVarint b) (λ v, (timestamp, v, raw))
  else if decide (num = 1 ∧ typ = BytesType) then wire_field "metric" (ConsumeBytes b) (λ v, (timestamp, seq, raw ++ [v]))
  else skip_field s num typ b.

(** The metrics that can be decoded; the others are skipped. *)
Fixpoint decode_metrics (raw : list string) : option (list DecodedMetric) :=
  match raw with
  | [] => Some []
  | data :: rest =>
      r ← decodeMetric data;
      ms ← decode_metrics rest;
      Some (match r with Ok m => m :: ms | Err _ => ms end)
  end.

Definition metric_limit (maxMetrics : Z) : nat := if decide (maxMetrics ≤ 0) then 50%nat else Z.to_nat maxMetrics.

Definition DecodePayload (data : string) (maxMetrics : Z) : option (result decode_error DecodedPayload) :=
  if decide (data = "") then Some (Err EmptyPayload)
  else if decide (maxPayloadSize < Z.of_nat (String.length data)) then Some (Err OversizedPayload)
  else
    r ← wire_loop payload_field (String.length data) (0, 0, []) data;
    match r with
    | Err e => Some (Err e)
    | Ok (timestamp, seq, raw) =>
        let limit := metric_limit maxMetrics in
        ms ← decode_metrics (take limit raw);
        Some (Ok (mkPayload timestamp seq ms (bool_decide (limit < length raw)%nat)))
    end.
End decode.

(** ** Termination *)

(** Every tag takes at least one byte. *)
Class ProtowireOk (P : Protowire) : Prop := {
  tag_length b num typ n : ConsumeTag b = Some (num, typ, n) → (0 < n)%nat
}.

Lemma length_drop_bytes n s : String.length (drop_bytes n s) = (String.length s - n)%nat.
Proof.
  unfold drop_bytes. revert s. induction n as [|n IH]; intros [|c s]; cbn [String.length Nat.sub String.substring]; try done.
  enough (String.length (String.substring 0 (String.length s) s) = String.length s) as -> by done.
  induction s as [|x s IH]; cbn; [done|by rewrite IH].
Qed.

Section laws.
Context `{Protowire, !ProtowireOk _}.

Lemma wire_loop_total {A} (step : A → Z → Z → string → result decode_error (A * nat)) fuel a b :
  (String.length b ≤ fuel)%nat → is_Some (wire_loop step fuel a b).
Proof.
  revert a b. induction fuel as [|fuel IH]; intros a [|c b] Hb; cbn [wire_loop]; [by eexists|cbn in Hb; lia|by eexists|].
  destruct (ConsumeTag _) as [[[num typ] n]|] eqn:Et; [|by eexists]. apply tag_length in Et. cbv zeta.
  destruct (step a num typ _) as [[a' k]|e]; [|by eexists]. apply IH. rewrite !length_drop_bytes. cbn in Hb |- *. lia.
Qed.

Lemma decodeMetric_total data : is_Some (decodeMetric data).
Proof.
  unfold decodeMetric. destruct (wire_loop_total metric_field (String.length data) (mkMetric "" 0 "" None 0 false) data) as [r ->]; [done|].
  destruct r; by eexists.
Qed.

Lemma decode_metrics_total raw : ∃ ms, decode_metrics raw = Some ms ∧ (length ms ≤ length raw)%nat.
Proof.
  induction raw as [|data raw (ms & IH & Hl)]; cbn [decode_metrics]; [by exists []|].
  destruct (decodeMetric_total data) as [r ->]. rewrite IH. cbn. eexists. split; [done|]. destruct r; cbn; lia.
Qed.
End laws.

(** ** Reading back what was written *)

(** [protowire.AppendTag] and the others, and that [Consume...] inverts them. *)
Class ProtowireAppend := {
  AppendTag : Z → Z → string;
  AppendVarint : Z → string;
  AppendBytes : string → string;
  AppendFixed32 : Z → string;
  AppendFixed64 : Z → string
}.
Class ProtowireInverse (P : Protowire) (A : ProtowireAppend) : Prop := {
  consume_tag num typ b : 1 ≤ num < 2 ^ 29 → typ ∈ [VarintType; Fixed64Type; BytesType; Fixed32Type] →
    ConsumeTag (AppendTag num typ +:+ b) = Some (num, typ, String.length (AppendTag num typ));
  consume_varint v b : 0 ≤ v < 2 ^ 64 → ConsumeVarint (AppendVarint v +:+ b) = Some (v, String.length (AppendVarint v));
  consume_bytes s b : Z.of_nat (String.length s) < 2 ^ 63 → ConsumeBytes (AppendBytes s +:+ b) = Some (s, String.length (AppendBytes s));
  consume_fixed32 v b : 0 ≤ v < 2 ^ 32 → ConsumeFixed32 (AppendFixed32 v +:+ b) = Some (v, String.length (AppendFixed32 v));
  consume_fixed64 v b : 0 ≤ v < 2 ^ 64 → ConsumeFixed64 (AppendFixed64 v +:+ b) = Some (v, String.length (AppendFixed64 v))
}.

Section encode.
Context `{ProtowireAppend, Protowire}.

(** A metric as a publisher describes it; without a value it is null. *)
Record metric_spec := mkMetricSpec { sp_name : string; sp_alias : Z; sp_timestamp : Z; sp_datatype : Z; sp_value : option metric_value }.
Definition encode_value (v : metric_value) : string :=
  match v with
  | VUint v => AppendTag 8 VarintType +:+ AppendVarint v
  | VFloat32 v => AppendTag 10 Fixed32Type +:+ AppendFixed32 v
  | VFloat64 v => AppendTag 11 Fixed64Type +:+ AppendFixed64 v
  | VBool b => AppendTag 12 VarintType +:+ AppendVarint (Z.b2z b)
  | VString s => AppendTag 13 BytesType +:+ AppendBytes s
  | VBytes s => AppendTag 14 BytesType +:+ AppendBytes s
  end.
Definition encode_metric (m : metric_spec) : string :=
  (AppendTag 1 BytesType +:+ AppendBytes (sp_name m)) +:+ (AppendTag 2 VarintType +:+ AppendVarint (sp_alias m))
  +:+ (AppendTag 3 VarintType +:+ AppendVarint (sp_timestamp m)) +:+ (AppendTag 4 VarintType +:+ AppendVarint (sp_datatype m))
  +:+ match sp_value m with None => AppendTag 7 VarintType +:+ AppendVarint 1 | Some v => encode_value v end.
Definition encode_payload (timestamp seq : Z) (metrics : list metric_spec) : string :=
  (AppendTag 2 VarintType +:+ AppendVarint timestamp)
  +:+ foldr (λ m acc, (AppendTag 1 BytesType +:+ AppendBytes (encode_metric m)) +:+ acc) (AppendTag 4 VarintType +:+ AppendVarint seq) metrics.

Definition u64 (v : Z) : Prop := 0 ≤ v < 2 ^ 64.
Definition short (s : string) : Prop := Z.of_nat (String.length s) < 2 ^ 63.
Definition value_ok (v : metric_value) : Prop :=
  match v with
  | VUint v | VFloat64 v => u64 v
  | VFloat32 v => 0 ≤ v < 2 ^ 32
  | VBool _ => True
  | VString s | VBytes s => short s
  end.
Definition spec_ok (m : metric_spec) : Prop :=
  short (sp_name m) ∧ u64 (sp_alias m) ∧ u64 (sp_timestamp m) ∧ 0 ≤ sp_datatype m < 2 ^ 32
  ∧ match sp_value m with Some v => value_ok v | None => True end ∧ short (encode_metric m).

Definition decoded_metric (m : metric_spec) : DecodedMetric :=
  mkMetric (sp_name m) (sp_alias m) (datatypeName (sp_datatype m)) (sp_value m) (wrap64 (sp_timestamp m)) (bool_decide (sp_value m = None)).
End encode.

#[export] Instance metric_value_eq_dec : EqDecision metric_value.
Proof. solve_decision. Defined.

Section inverse.
Context `{P : Protowire, A : ProtowireAppend, !ProtowireOk P, !ProtowireInverse P A}.

Lemma wire_loop_fuel {B} (step : B → Z → Z → string → result decode_error (B * nat)) f1 f2 a b :
  (String.length b ≤ f1)%nat → (String.length b ≤ f2)%nat → wire_loop step f1 a b = wire_loop step f2 a b.
Proof.
  revert f2 a b. induction f1 as [|f1 IH]; intros [|f2] a [|c b] H1 H2; cbn [wire_loop]; try done; cbn in H1, H2; try lia.
  destruct (ConsumeTag _) as [[[num typ] n]|] eqn:Et; [|done]. apply tag_length in Et. cbv zeta.
  destruct (step a num typ _) as [[a' k]|e]; [|done]. apply IH; rewrite !length_drop_bytes; cbn; lia.
Qed.

(** One field of the message. *)
Lemma wire_loop_field {B} (step : B → Z → Z → string → result decode_error (B * nat)) fuel a a' num typ v rest :
  1 ≤ num < 2 ^ 29 → typ ∈ [VarintType; Fixed64Type; BytesType; Fixed32Type] →
  step a num typ (v +:+ rest) = Ok (a', String.length v) →
  (String.length ((AppendTag num typ +:+ v) +:+ rest) ≤ fuel)%nat →
  wire_loop step fuel a ((AppendTag num typ +:+ v) +:+ rest) = wire_loop step (String.length rest) a' rest.
Proof.
  intros Hn Ht Hs Hf. rewrite <-app_assoc_string in Hf |- *. pose proof (consume_tag num typ (v +:+ rest) Hn Ht) as Hc.
  pose proof (tag_length _ _ _ _ Hc) as Hpos. rewrite !length_app_string in Hf.
  destruct (AppendTag num typ +:+ v +:+ rest) as [|c b] eqn:E; [apply (f_equal String.length) in E; rewrite length_app_string in E; cbn in E; lia|].
  destruct fuel as [|fuel]; [lia|]. cbn [wire_loop]. rewrite Hc, <-E. cbv zeta. rewrite drop_bytes_app, Hs, drop_bytes_app.
  apply wire_loop_fuel; lia.
Qed.
Lemma wire_loop_last {B} (step : B → Z → Z → string → result decode_error (B * nat)) fuel a a' num typ v :
  1 ≤ num < 2 ^ 29 → typ ∈ [VarintType; Fixed64Type; BytesType; Fixed32Type] →
  step a num typ v = Ok (a', String.length v) → (String.length (AppendTag num typ +:+ v) ≤ fuel)%nat →
  wire_loop step fuel a (AppendTag num typ +:+ v) = Some (Ok a').
Proof.
  intros Hn Ht Hs Hf. rewrite <-(app_nil_r_string (AppendTag num typ +:+ v)) in Hf |- *.
  erewrite wire_loop_field; [done|done|done| |done]. by rewrite app_nil_r_string.
Qed.

Ltac choose_field := repeat first [rewrite decide_True by (split; reflexivity) | rewrite decide_False by (intros [? _]; lia)].
Ltac wire_type := rewrite !elem_of_cons; tauto.

Lemma metric_field_value m v rest : value_ok v → mt_null m = false → mt_value m = None →
  ∃ num typ w, encode_value v = AppendTag num typ +:+ w ∧ 1 ≤ num < 2 ^ 29 ∧ typ ∈ [VarintType; Fixed64Type; BytesType; Fixed32Type]
    ∧ metric_field m num typ (w +:+ rest) = Ok (with_value m v, String.length w).
Proof.
  intros Hv Hn Hm. destruct v as [v|v|v|b|s|s]; cbn [encode_value value_ok] in *; do 3 eexists;
    (split; [reflexivity|split; [lia|split; [wire_type|]]]); unfold metric_field; choose_field; unfold wire_field.
  - by rewrite consume_varint.
  - by rewrite consume_fixed32.
  - by rewrite consume_fixed64.
  - rewrite consume_varint by (destruct b; cbn; lia). by destruct b.
  - by rewrite consume_bytes.
  - by rewrite consume_bytes.
Qed.

Lemma decodeMetric_encode m : spec_ok m → decodeMetric (encode_metric m) = Some (Ok (decoded_metric m)).
Proof.
  intros (Hname & Halias & Hts & Hdt & Hval & _). unfold decodeMetric, encode_metric.
  assert (u64 (sp_datatype m)) as Hdt' by (unfold u64; lia).
  erewrite wire_loop_field; [|lia|wire_type| |done]; [|unfold metric_field; choose_field; unfold wire_field; by rewrite consume_bytes].
  erewrite wire_loop_field; [|lia|wire_type| |done]; [|unfold metric_field; choose_field; unfold wire_field; by rewrite consume_varint].
  erewrite wire_loop_field; [|lia|wire_type| |done]; [|unfold metric_field; choose_field; unfold wire_field; by rewrite consume_varint].
  erewrite wire_loop_field; [|lia|wire_type| |done]; [|unfold metric_field; choose_field; unfold wire_field; by rewrite consume_varint].
  cbn [mt_name mt_alias mt_datatype mt_value mt_timestamp mt_null]. unfold uint32. rewrite Z.mod_small by done.
  unfold decoded_metric. destruct (sp_value m) as [v|].
  - edestruct (metric_field_value (mkMetric (sp_name m) (sp_alias m) (datatypeName (sp_datatype m)) None (wrap64 (sp_timestamp m)) false) v "")
      as (num & typ & w & -> & Hnum & Htyp & Hf); [done..|]. rewrite app_nil_r_string in Hf.
    erewrite wire_loop_last; [|done|done|exact Hf|done]. done.
  - erewrite wire_loop_last; [|lia|wire_type| |done].
    2:{ unfold metric_field. choose_field. unfold wire_field. rewrite <-(app_nil_r_string (AppendVarint 1)) at 1. by rewrite consume_varint. }
    done.
Qed.

Lemma decode_metrics_encode ms : Forall spec_ok ms → decode_metrics (encode_metric <$> ms) = Some (decoded_metric <$> ms).
Proof.
  induction 1 as [|m ms Hm _ IH]; [done|]. cbn [fmap list_fmap decode_metrics]. rewrite decodeMetric_encode by done. by rewrite IH.
Qed.

Lemma payload_loop ts seq metrics raw :
  u64 seq → Forall spec_ok metrics → ∀ b, b = foldr (λ m acc, (AppendTag 1 BytesType +:+ AppendBytes (encode_metric m)) +:+ acc) (AppendTag 4 VarintType +:+ AppendVarint seq) metrics →
  wire_loop payload_field (String.length b) (ts, 0, raw) b = Some (Ok (ts, seq, raw ++ (encode_metric <$> metrics))).
Proof.
  intros Hseq Hm. revert raw. induction Hm as [|m metrics Hm Hms IH]; intros raw b ->; cbn [foldr fmap list_fmap].
  - erewrite wire_loop_last; [|lia|wire_type| |done].
    2:{ unfold payload_field. choose_field. unfold wire_field. rewrite <-(app_nil_r_string (AppendVarint seq)) at 1. by rewrite consume_varint. }
    by rewrite app_nil_r.
  - erewrite wire_loop_field; [|lia|wire_type| |done].
    2:{ unfold payload_field. choose_field. unfold wire_field. rewrite consume_bytes; [done|]. apply Hm. }
    rewrite (IH _ _ eq_refl). by rewrite <-app_assoc.
Qed.
End inverse.

(** ** The wire format of protobuf

    An instance of the interface, for the examples. *)
Module Wire.
(** Base 128, the low digits first; all but the last have the high bit. *)
Fixpoint varint (n : nat) (v : Z) : string :=
  match n with
  | O => ""
  | S n => if v <? 128 then String (byte_of v) "" else String (byte_of (v mod 128 + 128)) (varint n (v / 128))
  end.
Fixpoint read_varint (n : nat) (b : string) : option (Z * nat) :=
  match n, b with
  | S n, String c b =>
      if byte_val c <? 128 then Some (byte_val c, 1%nat)
      else match read_varint n b with Some (v, k) => Some (byte_val c - 128 + 128 * v, S k) | None => None end
  | _, _ => None
  end.
Lemma read_varint_inverse n v b : 0 ≤ v < 128 ^ Z.of_nat n → (0 < n)%nat → read_varint n (varint n v +:+ b) = Some (v, String.length (varint n v)).
Proof.
  revert v. induction n as [|n IH]; intros v Hv Hn; [lia|]. cbn [varint]. destruct (Z.ltb_spec v 128) as [Hs|Hs].
  - change (String ?c "" +:+ b) with (String c b). cbn [read_varint]. rewrite val_byte by lia. rewrite (proj2 (Z.ltb_lt _ _)) by lia. done.
  - change (String ?c ?s +:+ b) with (String c (s +:+ b)). cbn [read_varint String.length].
    pose proof (Z.mod_pos_bound v 128 ltac:(lia)). rewrite val_byte by lia. rewrite (proj2 (Z.ltb_ge _ _)) by lia.
    rewrite Nat2Z.inj_succ, Z.pow_succ_r in Hv by lia. destruct n as [|n]; [cbn in Hv; lia|].
    rewrite IH; [|split; [apply Z.div_pos; lia|apply Z.div_lt_upper_bound; lia]|lia]. f_equal. f_equal. pose proof (Z.div_mod v 128 ltac:(lia)). lia.
Qed.
Lemma read_varint_pos n b v k : read_varint n b = Some (v, k) → (0 < k)%nat.
Proof.
  destruct n, b; cbn; try done. destruct (_ <? _); [by intros [= <- <-]; lia|]. destruct (read_varint n b) as [[]|]; [|done]. intros [= <- <-]. lia.
Qed.

Definition consume_varint (b : string) : option (Z * nat) :=
  match read_varint 10 b with Some (v, n) => if v <? 2 ^ 64 then Some (v, n) else None | None => None end.
Definition consume_tag (b : string) : option (Z * Z * nat) :=
  match consume_varint b with
  | Some (v, n) => if (1 <=? v / 8) && (v / 8 <? 2 ^ 29) then Some (v / 8, v mod 8, n) else None
  | None => None
  end.
Definition consume_bytes (b : string) : option (string * nat) :=
  match consume_varint b with
  | Some (v, n) =>
      let rest := drop_bytes n b in
      if v <=? Z.of_nat (String.length rest) then Some (take_bytes (Z.to_nat v) rest, (n + Z.to_nat v)%nat) else None
  | None => None
  end.
(** [n] bytes, the low ones first. *)
Fixpoint fixed (n : nat) (v : Z) : string :=
  match n with O => "" | S n => String (byte_of (v mod 256)) (fixed n (v / 256)) end.
Fixpoint read_fixed (n : nat) (b : string) : option Z :=
  match n, b with
  | O, _ => Some 0
  | S n, String c b => match read_fixed n b with Some v => Some (byte_val c + 256 * v) | None => None end
  | _, _ => None
  end.
Definition consume_fixed (n : nat) (b : string) : option (Z * nat) :=
  match read_fixed n b with Some v => Some (v, n) | None => None end.
Definition consume_value (_ typ : Z) (b : string) : option nat :=
  if typ =? 0 then snd <$> consume_varint b
  else if typ =? 1 then snd <$> consume_fixed 8 b
  else if typ =? 2 then snd <$> consume_bytes b
  else if typ =? 5 then snd <$> consume_fixed 4 b
  else None.

#[export] Instance wire : Protowire :=
  Build_Protowire 0 1 2 5 consume_tag consume_varint consume_bytes (consume_fixed 4) (consume_fixed 8) consume_value.
#[export] Instance append : ProtowireAppend :=
  Build_ProtowireAppend (λ num typ, varint 10 (num * 8 + typ)) (varint 10)
    (λ s, varint 10 (Z.of_nat (String.length s)) +:+ s) (fixed 4) (fixed 8).

#[export] Instance wire_ok : ProtowireOk wire.
Proof.
  constructor. intros b num typ n. cbn. unfold consume_tag, consume_varint. destruct (read_varint 10 b) as [[v k]|] eqn:E; [|done].
  apply read_varint_pos in E. destruct (_ <? _); [|done]. destruct (_ && _); [|done]. by intros [= <- <- <-].
Qed.

Lemma consume_varint_inverse v b : 0 ≤ v < 2 ^ 64 → consume_varint (varint 10 v +:+ b) = Some (v, String.length (varint 10 v)).
Proof.
  intros Hv. unfold consume_varint. rewrite read_varint_inverse; [|cbn; lia|lia]. by rewrite (proj2 (Z.ltb_lt _ _)) by lia.
Qed.
Lemma read_fixed_inverse n v b : 0 ≤ v < 256 ^ Z.of_nat n → read_fixed n (fixed n v +:+ b) = Some v ∧ String.length (fixed n v) = n.
Proof.
  revert v. induction n as [|n IH]; intros v Hv; [change (256 ^ Z.of_nat 0) with 1 in Hv; split; [change (Some 0 = Some v); f_equal; lia|done]|].
  cbn [fixed]. change (String ?c ?s +:+ b) with (String c (s +:+ b)). cbn [read_fixed String.length].
  rewrite Nat2Z.inj_succ, Z.pow_succ_r in Hv by lia.
  destruct (IH (v / 256)) as [-> ->]; [split; [apply Z.div_pos; lia|apply Z.div_lt_upper_bound; lia]|].
  pose proof (Z.mod_pos_bound v 256 ltac:(lia)). rewrite val_byte by lia. split; [|done]. f_equal. pose proof (Z.div_mod v 256 ltac:(lia)). lia.
Qed.
#[export] Instance wire_inverse : ProtowireInverse wire append.
Proof.
  constructor.
  - intros num typ b Hn Ht. cbn [VarintType Fixed64Type BytesType Fixed32Type wire] in Ht.
    cbn [ConsumeTag AppendTag wire append]. unfold consume_tag.
    assert (0 ≤ typ < 8) by (rewrite !elem_of_cons, elem_of_nil in Ht; lia).
    rewrite consume_varint_inverse by lia. rewrite Z.div_add_l by lia. rewrite (Z.div_small typ 8) by lia.
    replace ((num * 8 + typ) mod 8) with typ by (rewrite Z.add_comm, Z.mod_add, Z.mod_small; lia).
    rewrite Z.add_0_r. by rewrite (proj2 (Z.leb_le _ _)), (proj2 (Z.ltb_lt _ _)) by lia.
  - intros v b Hv. by apply consume_varint_inverse.
  - intros s b Hs. cbn [ConsumeBytes AppendBytes wire append]. unfold consume_bytes. rewrite <-app_assoc_string, consume_varint_inverse by lia. rewrite drop_bytes_app.
    rewrite (proj2 (Z.leb_le _ _)) by (rewrite length_app_string; lia). by rewrite Nat2Z.id, take_bytes_app, length_app_string.
  - intros v b Hv. cbn [ConsumeFixed32 ConsumeFixed64 AppendFixed32 AppendFixed64 wire append]. unfold consume_fixed. by destruct (read_fixed_inverse 4 v b) as [-> ->]; [lia|].
  - intros v b Hv. cbn [ConsumeFixed32 ConsumeFixed64 AppendFixed32 AppendFixed64 wire append]. unfold consume_fixed. by destruct (read_fixed_inverse 8 v b) as [-> ->]; [lia|].
Qed.
End Wire.

(** ** Properties *)
Section properties.
Context `{P : Protowire, !ProtowireOk P}.

(** [C38] Decoding a payload terminates: as many rounds as the payload has bytes
    are enough for every input, malformed ones included, because every round
    takes a tag of at least one byte. *)
Theorem DecodePayload_terminates data maxMetrics : is_Some (DecodePayload data maxMetrics).
Proof.
  unfold DecodePayload. destruct (decide _); [by eexists|]. destruct (decide _); [by eexists|].
  destruct (wire_loop_total payload_field (String.length data) (0, 0, []) data) as [[[[ts seq] raw]|e] ->]; [done| |by eexists]. cbn [mbind option_bind].
  destruct (decode_metrics_total (take (metric_limit maxMetrics) raw)) as (ms & -> & _). by eexists.
Qed.

Lemma wire_loop_inv {A} (I : A → Prop) (step : A → Z → Z → string → result decode_error (A * nat)) fuel a b r :
  (∀ a num typ b a' n, I a → step a num typ b = Ok (a', n) → I a') → I a → wire_loop step fuel a b = Some (Ok r) → I r.
Proof.
  intros Hstep. revert a b. induction fuel as [|fuel IH]; intros a [|c b] Ha; cbn [wire_loop]; [by intros [= <-]|done|by intros [= <-]|].
  destruct (ConsumeTag _) as [[[num typ] n]|]; [|done]. cbv zeta. destruct (step a num typ _) as [[a' k]|e] eqn:E; [|done]. apply IH. by eapply Hstep.
Qed.

Lemma payload_timestamp s num typ b s' n : int64_range s.1.1 → payload_field s num typ b = Ok (s', n) → int64_range s'.1.1.
Proof.
  destruct s as [[ts seq] raw]. cbn [fst]. intros Hts. unfold payload_field, wire_field, skip_field. repeat case_decide;
    [destruct (ConsumeVarint b) as [[v k]|]; [|done]; intros [= <- <-]; apply wrap64_range
    |destruct (ConsumeVarint b) as [[v k]|]; [|done]; by intros [= <- <-]
    |destruct (ConsumeBytes b) as [[v k]|]; [|done]; by intros [= <- <-]
    |destruct (ConsumeFieldValue _ _ _); [|done]; by intros [= <- <-]].
Qed.

(** [C39] The bounds of a decoded payload: payloads that are empty or larger than
    1 MB are refused; at most [maxMetrics] metrics (50 when no positive limit is
    given) are decoded, however many the payload holds; no null metric carries a
    value; and the timestamp is a 64-bit integer. *)
Theorem DecodePayload_bounds data maxMetrics p :
  DecodePayload data maxMetrics = Some (Ok p) →
  (1 ≤ Z.of_nat (String.length data) ≤ maxPayloadSize)
  ∧ (length (pl_metrics p) ≤ metric_limit maxMetrics)%nat
  ∧ (1 ≤ metric_limit maxMetrics)%nat
  ∧ Forall (λ m, mt_null m = true → mt_value m = None) (pl_metrics p)
  ∧ int64_range (pl_timestamp p).
Proof.
  unfold DecodePayload. destruct (decide (data = "")) as [|Hne]; [done|]. destruct (decide (maxPayloadSize < _)) as [|Hmax]; [done|].
  destruct (wire_loop _ _ _ _) as [[[[ts seq] raw]|e]|] eqn:El; [|done..]. cbn [mbind option_bind].
  destruct (decode_metrics_total (take (metric_limit maxMetrics) raw)) as (ms & E & Hlen). rewrite E. cbn [mbind option_bind]. intros [= <-].
  split; [destruct data; [done|cbn in *; lia]|]. split; [cbn; rewrite length_take in Hlen; lia|].
  split; [unfold metric_limit; destruct (decide _); lia|]. split.
  - cbn. clear -E. revert ms E. induction (take _ raw) as [|d l IH]; intros ms; cbn [decode_metrics]; [by intros [= <-]|].
    destruct (decodeMetric d) as [r|] eqn:Ed; [|done]. cbn [mbind option_bind]. destruct (decode_metrics l) as [ms'|]; [|done]. cbn [mbind option_bind].
    intros [= <-]. destruct r as [m|]; [|by apply IH]. constructor; [|by apply IH]. unfold decodeMetric in Ed.
    destruct (wire_loop _ _ _ _) as [[m'|]|]; [|done..]. injection Ed as <-. by destruct (mt_null m') eqn:En; [|rewrite En].
  - eapply (wire_loop_inv (λ s, int64_range s.1.1)) in El; [exact El| |split; cbn; lia]. intros a num typ b a' n. apply payload_timestamp.
Qed.
End properties.

(** What a publisher encodes is decoded: the timestamp, the sequence number
    and, in order, the first [maxMetrics] metrics with name, alias, type name,
    value and timestamp; [Truncated] says exactly whether metrics are missing. *)
Theorem DecodePayload_encode `{P : Protowire, A : ProtowireAppend, !ProtowireOk P, !ProtowireInverse P A} ts seq metrics maxMetrics :
  u64 ts → u64 seq → Forall spec_ok metrics → Z.of_nat (String.length (encode_payload ts seq metrics)) ≤ maxPayloadSize →
  DecodePayload (encode_payload ts seq metrics) maxMetrics
  = Some (Ok (mkPayload (wrap64 ts) seq (decoded_metric <$> take (metric_limit maxMetrics) metrics) (bool_decide (metric_limit maxMetrics < length metrics)%nat))).
Proof.
  intros Hts Hseq Hms Hlen. unfold DecodePayload. destruct (decide (encode_payload ts seq metrics = "")) as [E|_].
  { exfalso. pose proof (consume_tag 2 VarintType (AppendVarint ts) ltac:(lia) ltac:(by left)) as H. apply tag_length in H.
    apply (f_equal String.length) in E. unfold encode_payload in E. rewrite !length_app_string in E. cbn [String.length] in E. lia. }
  rewrite decide_False by lia. unfold encode_payload at 1 2.
  erewrite wire_loop_field; [|lia|by left| |done]; [|unfold payload_field; rewrite decide_True by done; unfold wire_field; by rewrite consume_varint].
  rewrite (payload_loop _ _ metrics _ Hseq Hms _ eq_refl). cbn [mbind option_bind]. rewrite app_nil_l, <-fmap_take.
  rewrite decode_metrics_encode by by apply Forall_take. cbn [mbind option_bind]. by rewrite length_fmap.
Qed.

(** [ParseTopic] accepts exactly the topics of the two shapes, with levels
    that are not empty and hold no wildcard, and returns their levels. *)
Theorem ParseTopic_spec topic md :
  ParseTopic topic = Some md ↔
    md_namespace md = Namespace
    ∧ Forall (λ l, plain_level l = true ∧ free_of "/" l = true) [md_group md; md_type md; md_node md]
    ∧ ((md_type md ∈ nodeMessageTypes ∧ md_device md = "" ∧ topic = join "/" [Namespace; md_group md; md_type md; md_node md])
       ∨ (md_type md ∈ deviceMessageTypes ∧ plain_level (md_device md) = true ∧ free_of "/" (md_device md) = true
          ∧ topic = join "/" [Namespace; md_group md; md_type md; md_node md; md_device md])).
Proof.
  assert (plain_level Namespace = true ∧ free_of "/" Namespace = true) as Hns by done. unfold ParseTopic. split.
  - pose proof (split_all_free "/" topic) as Hf. pose proof (join_split "/" topic) as Hj. revert Hf Hj. generalize (split "/" topic).
    intros parts Hf Hj. destruct (forallb plain_level parts) eqn:Hp; [|done]. cbn [negb]. intros H.
    destruct parts as [|ns [|g [|t [|n [|d [|]]]]]]; try done; cbn [forallb] in Hp; rewrite !andb_true_iff in Hp;
      rewrite !Forall_cons in Hf; destruct (decide _) as [[-> Ht]|]; try done; injection H as <-; rewrite !Forall_cons;
      rewrite <-Hj; naive_solver.
  - destruct md as [ns g t n d]. cbn [md_namespace md_group md_type md_node md_device]. rewrite !Forall_cons.
    intros (-> & ((Hg & Hgf) & (Ht & Htf) & (Hn & Hnf) & _) & [(Hm & -> & ->)|(Hm & Hd & Hdf & ->)]); change (join "/") with (join (chr_str "/"));
      (rewrite split_join; [|done|rewrite !Forall_cons; naive_solver]); cbn [forallb]; rewrite Hg, Ht, Hn, ?Hd; cbn [andb negb]; by rewrite decide_True.
Qed.

(** ** Examples *)
Import Wire.
Definition example_metrics : list metric_spec :=
  [mkMetricSpec "temperature" 1 1700000000000 10 (Some (VFloat64 4631107791820423168)); mkMetricSpec "count" 2 0 3 (Some (VUint 4294967295));
   mkMetricSpec "label" 3 0 12 None].

Lemma DecodePayload_terminates_witness :
  is_Some (DecodePayload "hello" 10) ∧ DecodePayload "hello" 10 = Some (Err (Corrupt "unknown field")).
Proof. split; [exact (DecodePayload_terminates "hello" 10)|vm_compute; reflexivity]. Defined.

Lemma DecodePayload_encode_witness :
  DecodePayload (encode_payload 5 3 example_metrics) 2 = Some (Ok (mkPayload 5 3 (decoded_metric <$> take 2 example_metrics) true)).
Proof.
  refine (DecodePayload_encode 5 3 example_metrics 2 _ _ _ _); [split; by vm_compute..| |by vm_compute].
  repeat constructor; by vm_compute.
Defined.

Lemma DecodePayload_bounds_witness :
  ∃ p, DecodePayload (encode_payload 5 3 example_metrics) 2 = Some (Ok p) ∧ length (pl_metrics p) = 2%nat
    ∧ (length (pl_metrics p) ≤ metric_limit 2)%nat ∧ Forall (λ m, mt_null m = true → mt_value m = None) (pl_metrics p).
Proof.
  eexists. split; [vm_compute; reflexivity|]. split; [vm_compute; reflexivity|].
  refine (_ (DecodePayload_bounds (encode_payload 5 3 example_metrics) 2 _ _)); [|vm_compute; reflexivity]. tauto.
Defined.
